(* ===== verification/_CoqProject ===== *)
-Q . S2P
Prelude.v
PyVal.v
Models.v
Json.v
Timestamps.v
StateMachine.v
Trust.v
Workflow.v
Events.v
Outputs.v
JobState.v
Concurrency.v
Recovery.v
IsoParse.v
Governor.v
Canonical.v
Gates.v
Registry.v
CoreStore.v
Core.v
Dispatch.v
Frames.v
Session.v
Scenario.v
History.v
Lifecycle.v
Authority.v
Gate.v
Replay.v
Orchestration.v
JobRows.v
Worktree.v
Leases.v
JobSteps.v
LeaseSpec.v
JobInv.v
Outbox.v
Ledger.v
JobScenario.v
LeaseSession.v
ClaimOrder.v
Delivery.v
Supervisor.v
Reconcile.v
DecideSpec.v
ReconcileSpec.v
ActionLocks.v
JobFrame.v
LockSpec.v
Candidates.v
MergeOrder.v
CandidateSpec.v
GitClient.v
MergeQueue.v
Along.v
MergeClose.v
MergeRecover.v
MergeScenario.v
Redact.v
Requests.v
Broker.v
BrokerSpec.v
BrokerGuard.v
OwnerGate.v
BrokerScenario.v
Waits.v
CiState.v
CiWait.v
CiSpec.v
WakeSession.v
WaitScenario.v
Inbox.v
InboxDecide.v
InboxSession.v
Processes.v
Workspace.v
Actions.v
ActionSpec.v
Scheduler.v
SchedSpec.v
