(* ===== verification/Prelude.v ===== *)
(** * A verification of the argent team-control core

    The program (src/argent_core) coordinates a team of language-model agents.
    A task walks a state machine from NEW to DONE while the roles lead, analyst,
    implementer, qa and reviewer take turns; every change is a command of
    [Core] (core.py) over SQLite tables ([Store], store.py); dangerous actions
    stop at a gate only the authenticated owner opens; agents work on dispatches
    and their results, which are untrusted, are validated before they take
    effect; and a restart recovers what was in flight.  Above the core, a
    supervisor (supervisor.py) owns one durable job per task: instances lease a
    job under a fencing epoch, read the facts of its task, decide one action and
    commit the decision by compare and set, then carry it out under a journal of
    actions: spawning a run, consuming its result, writing its patches into the
    workspace (workspace_broker.py), running the tests.  A scheduler (scheduler.py)
    makes bounded passes over the jobs behind a structural and a resource gate, and
    scans them after a restart; finished work enters a merge queue
    (merge_queue.py) that integrates it under a named lock, tells the owner
    through an outbox (notifications.py), and leaves the machine through a
    broker of external actions (external_action_broker.py).  A job may wait for
    something outside (external_wait.py, ci_external_wait.py), and the owner decides
    on an approval by pressing a button of a chat (approval_processor.py).

    ** The files

    Foundations:
    - [Prelude]: results and a state monad for raising code, inversion lemmas and
      tactics for them, record update, the class [PyEnum] of Python enums, stable
      sorting.
    - [PyVal], [Json], [Canonical], [Timestamps], [IsoParse]: the Python
      the code uses: values of JSON documents, [json.dumps] and [json.loads],
      [str]/[repr], SHA-256 and HMAC (computed, so that hashes evaluate), UTC
      timestamps as ISO text ([Store.now_iso], [_format_dt]), their order as
      strings and [datetime.fromisoformat].

    The command core:
    - [Models] (models.py): enums, exceptions, dataclasses.
    - [StateMachine] (state_machine.py, recovery.py), [Trust] (trust.py, roles.py),
      [Workflow] (workflow.py, routing.py), [Gates] (gates.py), [Events]
      (events.py), [Outputs] (outputs.py), [JobState] (job_state.py), [Registry]
      (model_registry.py; the routing decision of model_router.py and core.py):
      the pure policy modules, one function per function of the source.
    - [CoreStore] (store.py): the seventeen tables of the command core as lists
      of rows in rowid order, the schema's constraints as [db_ok] (a statement
      whose result violates it raises [IntegrityError]), transactions with
      rollback, and one operation per statement.
    - [Core] and [Dispatch] (core.py): every public command, as a state-passing
      program over [CoreStore] with the guards, early returns and order of the
      source; the idempotency protocol is [_idempotent].
    - [Frames]: the proof method for commands: [focus tbl T strict P m] says how
      [m] may change the part [tbl] of the tables, [keep] that it does not, with
      rules for each construct and the tactics [focus_tac] and [know].
    - [Session]: the commands as one transition system; [run_all cs s] runs any
      sequence of them. [Scenario]: a concrete environment and sample sessions.
    - [History], [Lifecycle], [Authority], [Gate], [Replay], [Orchestration]: the
      theorems about all commands and sessions.

    Supervised jobs:
    - [Concurrency] (concurrency_policy.py) and [Recovery] (resource_failure.py,
      resource_recovery.py): admission of parallel jobs and what to do after a
      failure, both pure.  [Governor] (resource_policy.py, host_snapshot.py,
      resource_governor.py): whether the host has room for a job, gate by gate, with the
      doubles of the source.
    - [JobRows] (store.py): the tables from supervisor_jobs on, their constraints
      [jt_ok], statements and the state [JSt], which pairs them with the core's
      tables and the connection's action fence.
    - [Worktree] (worktree.py): identities of repositories, branches and commits, the
      recovery verdict on a worktree and the writer's guard.
    - [Leases] (store.py): the durable queue and the lease operations.  [JobSteps],
      [JobInv], [LeaseSession]: what one row step may do, the invariants of rows
      and the lease commands as a transition system.  [LeaseSpec]: an abstract
      lease protocol and the refinement; [ClaimOrder]: the order of claims;
      [JobFrame]: the tables a lease command leaves alone.
    - [Outbox] (notifications.py, store.py) and [Delivery]: the notification outbox,
      its workers and the bound on sends under any interleaving and crash.
    - [Ledger] (supervisor.py, store.py): the facts of a task and the journal of
      actions; [Supervisor]: the decision function [_decide]; [Reconcile]: reading
      the facts, planning and committing.  [DecideSpec], [ReconcileSpec]: their
      theorems.  [JobScenario]: sample rows.
    - [Processes] (process_registry.py, store.py): identities read from /proc, the
      registration of processes and their terminal evidence.
    - [Workspace] (workspace_broker.py; [WorkspaceHashProvider] of supervisor.py): a file
      system of paths, the broker that applies a patch set to it, and the hashes of a
      workspace before, predicted and after.
    - [Actions] (supervisor.py): [perform_next_safe_action_if_required] with every
      handler, over the tables and the [World] (workspace, locks and a log of what was
      tried, launched and brokered); one definition per method, [handle] dispatches.
      [ActionSpec]: the class [Journaling] walks a relation through all handlers; the
      journal, the launches and the writes are three such walks.
    - [Scheduler] (scheduler.py): the pass, the takeover and the scan after a restart.
      [SchedSpec]: the class [Passing] walks a relation through a pass; [sched_run] runs
      any sequence of passes and scans.

    Integration:
    - [ActionLocks] (store.py): named locks of leased jobs; [LockSpec]: mutual
      exclusion.
    - [Candidates] (store.py, integration_candidate.py): rows and transitions of the
      merge queue; [CandidateSpec]: their revision fence.
    - [MergeOrder] (integration_candidate.py, [deterministic_order]).
    - [GitClient] (integration_candidate.py): the argv-only git runner and the merge
      classification; [MergeQueue] (merge_queue.py): the whole controller.
      [MergeClose], [MergeRecover], [MergeScenario]: their theorems.

    External actions:
    - [Redact] (external_action_broker.py): the regular expressions of the broker and
      the sanitisers.
    - [Requests] (store.py, external_action_broker.py): the rows of external actions,
      the edge map and the fenced transitions.
    - [Broker] (external_action_broker.py): provenance, creation, policy, authorisation,
      execution, re-drive and reconciliation of a request, over a state that records
      the provider calls.  [BrokerSpec]: the life cycle of the rows and
      the bound on calls; [BrokerGuard]: the path of a call; [OwnerGate]: what the
      owner can authorise; [BrokerScenario]: the integrated candidate of
      [MergeScenario] pushed to a provider that is never available.
    - [Along]: the proof method for controllers: a preorder that every primitive
      respects relates the first and last states of any program built from them.

    Waiting:
    - [Waits] (external_wait.py, store.py): wait rows, their fenced updates, the wake
      [complete_wait_and_requeue] and the manager of generic waits.
    - [CiState] (ci_external_wait.py): the aggregate of checks, its classification and
      the read-only GitHub adapter over a [gh] that answers a command given the
      commands before it; [CiWait]: the manager of CI waits.
    - [CiSpec]: references, aggregates, reads and what wakes a job; [WakeSession]:
      both managers, their adapters and the lease holders as one transition system;
      [WaitScenario]: the bounded pass, and a job that waits, twice.

    Owner approvals over Telegram:
    - [Inbox] (approval_core.py, approval_processor.py, telegram_approval_adapter.py,
      store.py): one-time challenges, the update log and the cursor, with the
      constraints of their tables; the inbound transaction, [process_callback] with all
      its branches and the host adapter.
    - [InboxDecide]: what a callback did when it was accepted; [InboxSession]: any
      sequence of updates, and a button pressed twice.

    The parts outside src/ are fields of classes: [Env] (fresh UUIDs, the clock,
    SQLite's text of a float, the order of a Python set, the model registry),
    [BrokerEnv] (the provider adapter, its allowlist and policies), [WaitEnv] and [CiEnv]
    (the adapters of waits, which may change the store while they are asked), [GhEnv]
    (the gh executable), [ProcEnv] (/proc), [FsEnv] (realpath and the working directory),
    [ActEnv] (what the handlers ask of the agent runtime: prompts, routing, the enforcer,
    git, the dispatch lock), [SchedEnv] (the host probe, the stop check, the identity of
    the instance), [InboxEnv] (the identity of the sender, failures of a lock),
    [GitEnv] (git itself
    and the paths of the file system: [git_runner] answers a
    command given the commands run before it) and [QueueEnv] (the plan builder and
    the test runner, arbitrary programs on the state: anything may happen while
    tests run).  What a theorem needs of them beyond their fields is a named hypothesis
    of its section (the callables of the queue leave the git log alone, the provider
    keeps the requests on their life cycle).  Clocks may stand still or run backwards
    and identifiers may collide (a collision is an [IntegrityError]).
    [Scenario.sample_env] and the instances of [MergeScenario] and [BrokerScenario]
    are concrete.

    ** What the theorems show

    - Authority: only the owner changes an approval ([owner_decides]); an executed
      action is autonomous or backed by an approval bound to it and consumed by it,
      once ([executions_authorised]).
    - Tasks: the command layer refines the state machine ([tasks_follow_machine]),
      finished tasks are final, a gated task always has an approval to decide on
      ([gated_task_has_approval]), replays change nothing, dispatches have a one-way
      life cycle.
    - Leases: the store refines an abstract fenced-lease protocol
      ([lease_protocol_refined]); an epoch has one holder, a stale holder is refused,
      closed jobs stay closed, rows stay well typed, claims take the first job of the
      highest priority.
    - The supervisor: a decision is committed only on the facts it was made on
      ([decision_is_compare_and_set]), never against an open gate, never spawns
      without proof of absence ([spawn_needs_proof_of_absence]), applies patches in
      order; sends are bounded.
    - Actions: the journal only grows and retries are bounded ([journal_append_only]); a
      dispatch is launched at most once over all passes, scans and failures
      ([dispatch_launched_once]); the workspace changes only in runs of the broker that
      the journal announced, on the state it announced ([workspace_written_by_broker]);
      a patch set is all or nothing ([patch_set_all_or_nothing]) and its effect is the
      predicted one ([effect_predicted]).
    - The scheduler: a pass carries out at most one decision, and starts a process only
      past both gates ([pass_spawns_gated]); a takeover needs the death of the process
      and a settled worktree ([takeover_needs_proof]); a restart takes leases away, never
      grants one ([restart_conservative]).
    - Recovery and admission: retries end ([recovery_terminates]), jobs run in parallel
      only on disjoint footprints, the resource governor admits exactly what its policy
      allows ([admission_exact], [running_mix_bounded]).
    - Integration: a lock has one holder ([lock_mutual_exclusion]); a revision of a
      candidate is spent once; the merge order is the greedy topological order
      ([merge_order_greedy], [merge_order_complete]); the queue runs only read commands
      and writes to its own branch and worktree ([merge_queue_git_confined]); a
      candidate becomes INTEGRATED only on evidence, at the hand of the live holder
      ([integrated_on_evidence]); reconciliation resets orphans only.
    - External actions: requests refine their life cycle whatever brokers, locks and
      leases do ([requests_follow_life_cycle]); a request costs at most nine provider
      calls ([provider_calls_bounded]); a call is made only under the current lease
      and lock, for an EXECUTING row that the policy admits ([dispatch_guarded]).
    - Waits: a job goes on after its checks only on a positive read of its pull request
      ([ci_success_sound]), whose aggregate is specified exactly
      ([aggregate_success_iff]); a wait ends once ([waits_wake_once]).
    - The owner's buttons: an approval changes only by the callback of the identified
      owner with the unspent, unexpired token of a challenge bound to the same gate
      ([decision_needs_capability]); an update is decided at most once
      ([callbacks_decide_once]).
    - The policy modules: the closed classification of actions, the trust boundary,
      binding hashes, a complete specification of the output checker, tamper evidence
      of routing decisions, round trips and chronological order of timestamps.
    - Theorems that state where the code does not do what it means to:
      [late_reject_opens_gate], [qa_error_outcome_crashes],
      [missing_run_wait_overflows], [sticky_error_has_no_exit],
      [stuck_candidate_blocks_queue], [queue_lock_lost_after_candidate],
      [blocked_without_cycle],
      [owner_gate_closed], [denied_wait_stays_waiting],
      [stale_wait_wakes_job], [dead_waits_starve], [large_check_ids_refused],
      [gh_failures_lose_cause], [one_update_closes_inbox], [orders_differ],
      [double_delete_escapes].

    ** Bounds

    Loops of the source are structural recursions on lists; the JSON reader runs on
    fuel (the length of its text, which every recursive call shortens), the heap loop
    of [deterministic_order] on the number of READY candidates (each turn pops one and
    none is pushed twice: [merge_order_greedy] proves that the heap is empty at the
    end), the re-reads of the supervisor on [MAX_SNAPSHOT_RETRIES] as in the source.
    Python integers are [Z]; the one width that matters is SQLite's signed 64 bits
    ([Dispatch.column_text]), and the double of [backoff_seconds], whose overflow is
    modelled.  The doubles of the resource governor are the Standard Library's [SpecFloat]
    at 53 bits, rounded operation by operation.  The scan after a restart reads a row at
    most three times, as the source.  Strings are byte strings; a non-ASCII character is its Latin-1 code, so
    documents with wider characters are outside the model.

    ** Not modelled

    Input and output: network, git, the sandbox runner, the scope enforcer and its cgroup
    backend, threads and signals of the background runtime (background_runtime.py), the
    supervisor's loop around the scheduler.  Their results are parameters.
    Of the pure modules: the router (model_router.py) and the parser of the registry files
    (only the decision record, its check and the classification of attempts are there),
    the test plan, context packs, checkpoints and handoffs; the actions take a built
    prompt, a route and a plan as parameters, and the scheduler models what their failure
    does to a job.  In [Actions], a command of the core checks the armed fence when it
    begins and not before each of its statements, a missing value of a binding is passed
    as the empty text, and the installation of the writer's guard does not fail.  In
    [Workspace], no other process touches the files during a run.  Schema migrations
    are left out: the constraints are those of the final schema. *)
From Stdlib Require Export ZArith Ascii String List Lia Bool Permutation.
From Stdlib Require Import Sorted.
From stdpp Require Export base tactics decidable list strings.
From stdpp Require Import sorting.
Export ListNotations.
#[global] Set Default Goal Selector "!".
(** stdpp blocks the simplification of [++] on strings; it is wanted here. *)
#[global] Arguments String.append : simpl nomatch.

(** ** Results: a Python call returns a value or raises an exception. *)
Inductive res (E A : Type) : Type :=
| Ok (a : A)
| Err (e : E).
Arguments Ok {E A} a.
Arguments Err {E A} e.

#[export] Instance res_ret E : MRet (res E) := fun A a => Ok a.
#[export] Instance res_bind E : MBind (res E) := fun A B f m =>
  match m with Ok a => f a | Err e => Err e end.

Definition is_ok {E A} (r : res E A) : bool :=
  match r with Ok _ => true | Err _ => false end.

Definition res_unless {E} (b : bool) (e : E) : res E unit :=
  if b then Ok tt else Err e.
Definition res_when {E} (b : bool) (e : E) : res E unit :=
  if b then Err e else Ok tt.

(** Sequencing of a check over the elements of a list (a Python [for] whose
    body only raises). *)
Fixpoint res_for {E A} (f : A -> res E unit) (l : list A) : res E unit :=
  match l with
  | [] => Ok tt
  | x :: l' => _ ← f x; res_for f l'
  end.

Lemma res_bind_ok {E A B} (m : res E A) (f : A -> res E B) b :
  (x ← m; f x) = Ok b -> exists a, m = Ok a /\ f a = Ok b.
Proof. destruct m; [eauto | discriminate]. Qed.

Lemma res_unless_ok {E} b (e : E) u : res_unless b e = Ok u <-> b = true.
Proof. destruct b, u; cbn; split; congruence. Qed.
Lemma res_when_ok {E} b (e : E) u : res_when b e = Ok u <-> b = false.
Proof. destruct b, u; cbn; split; congruence. Qed.

Lemma res_for_ok {E A} (f : A -> res E unit) l :
  res_for f l = Ok tt <-> Forall (fun x => f x = Ok tt) l.
Proof.
  induction l as [|x l IH]; cbn.
  - split; auto.
  - rewrite Forall_cons. destruct (f x) as [[]|e]; cbn.
    + rewrite IH. split; [auto | intros [_ ?]; auto].
    + split; [discriminate | intros [? _]; discriminate].
Qed.

(** Sequencing with a check, as a conjunction. *)
Lemma res_seq_ok {E A} (m : res E unit) (k : res E A) b :
  (_ ← m; k) = Ok b <-> m = Ok tt /\ k = Ok b.
Proof.
  destruct m as [[]|e]; unfold mbind, res_bind; [tauto|].
  split; [discriminate | intros [? _]; discriminate].
Qed.

Lemma res_if_ok {E} (b : bool) (m : res E unit) :
  (if b then m else Ok tt) = Ok tt <-> (b = true -> m = Ok tt).
Proof. destruct b; intuition congruence. Qed.

(** The errors a checking program can raise. *)
Definition raises_only {E A} (P : E -> Prop) (m : res E A) : Prop :=
  forall e, m = Err e -> P e.
Lemma raises_bind {E A B} (P : E -> Prop) (m : res E A) (k : A -> res E B) :
  raises_only P m -> (forall a, m = Ok a -> raises_only P (k a)) ->
  raises_only P (x ← m; k x).
Proof.
  intros Hm Hk e. unfold mbind, res_bind. destruct m as [a|e'].
  - apply Hk. reflexivity.
  - intros [= ->]. by apply Hm.
Qed.
Lemma raises_ok {E A} (P : E -> Prop) (a : A) : raises_only P (Ok a).
Proof. intros e; discriminate. Qed.
Lemma raises_err {E A} (P : E -> Prop) e : P e -> raises_only P (@Err E A e).
Proof. intros H e' [= <-]. exact H. Qed.
Lemma raises_when {E} (P : E -> Prop) b e : P e -> raises_only P (res_when b e).
Proof. destruct b; [apply raises_err | intros _; apply raises_ok]. Qed.
Lemma raises_unless {E} (P : E -> Prop) b e : P e -> raises_only P (res_unless b e).
Proof. destruct b; [intros _; apply raises_ok | apply raises_err]. Qed.
Lemma raises_for {E A} (P : E -> Prop) (f : A -> res E unit) l :
  (forall x, raises_only P (f x)) -> raises_only P (res_for f l).
Proof.
  intros H. induction l as [|x l IH]; [apply raises_ok | cbn].
  apply raises_bind; auto.
Qed.

Lemma res_for_cases {E A} (f : A -> res E unit) e l :
  (forall x, f x = Ok tt \/ f x = Err e) -> res_for f l = Ok tt \/ res_for f l = Err e.
Proof.
  intros C. induction l as [|x l IH]; [by left|]. cbn.
  destruct (C x) as [-> | ->]; [exact IH | by right].
Qed.

(** ** Stateful computations: a state transformer that may raise.  The state
    is returned in both cases; a transaction decides what an exception keeps. *)
Definition M (S E A : Type) : Type := S -> res E A * S.

#[export] Instance M_ret S E : MRet (M S E) := fun A a s => (Ok a, s).
#[export] Instance M_bind S E : MBind (M S E) := fun A B f m s =>
  match m s with
  | (Ok a, s') => f a s'
  | (Err e, s') => (Err e, s')
  end.

Section MonadOps.
  Context {S E : Type}.
Definition raise {A} (e : E) : M S E A := fun s => (Err e, s).
Definition get : M S E S := fun s => (Ok s, s).
Definition gets {A} (f : S -> A) : M S E A := fun s => (Ok (f s), s).
Definition modify (f : S -> S) : M S E unit := fun s => (Ok tt, f s).
Definition lift {A} (r : res E A) : M S E A := fun s => (r, s).
Definition raise_when (b : bool) (e : E) : M S E unit :=
    if b then raise e else mret tt.
Definition raise_unless (b : bool) (e : E) : M S E unit :=
    if b then mret tt else raise e.
  (** [x if o is Some x else raise e]. *)
Definition some_or {A} (o : option A) (e : E) : M S E A :=
    match o with Some a => mret a | None => raise e end.
Definition mwhen (b : bool) (m : M S E unit) : M S E unit :=
    if b then m else mret tt.
Fixpoint mfor {A} (l : list A) (f : A -> M S E unit) : M S E unit :=
    match l with
    | [] => mret tt
    | x :: l' => _ ← f x; mfor l' f
    end.
  (** A [for] loop that threads an accumulator. *)
Fixpoint mfold {A B} (f : B -> A -> M S E B) (l : list A) (b : B) : M S E B :=
    match l with
    | [] => mret b
    | x :: l' => b' ← f b x; mfold f l' b'
    end.
  (** [try: m finally: after]. *)
Definition finally {A B} (m : M S E A) (after : M S E B) : M S E A := fun s =>
    let (r, s1) := m s in
    match after s1 with
    | (Ok _, s2) => (r, s2)
    | (Err e, s2) => (Err e, s2)
    end.
  (** [try: m except handled: h]; the state is the one the exception left. *)
Definition except {A} (m : M S E A) (handled : E -> bool) (h : M S E A) : M S E A := fun s =>
    match m s with
    | (Ok a, s') => (Ok a, s')
    | (Err e, s') => if handled e then h s' else (Err e, s')
    end.
End MonadOps.

Lemma M_bind_ok {S E A B} (m : M S E A) (f : A -> M S E B) s b s' :
  (x ← m; f x) s = (Ok b, s') ->
  exists a s1, m s = (Ok a, s1) /\ f a s1 = (Ok b, s').
Proof.
  unfold mbind, M_bind. destruct (m s) as [[a|e] s1]; [eauto | discriminate].
Qed.

Lemma M_bind_err {S E A B} (m : M S E A) (f : A -> M S E B) s e s' :
  (x ← m; f x) s = (Err e, s') ->
  m s = (Err e, s') \/
  exists a s1, m s = (Ok a, s1) /\ f a s1 = (Err e, s').
Proof.
  unfold mbind, M_bind. destruct (m s) as [[a|e1] s1]; [eauto |].
  intros [= -> ->]. auto.
Qed.

Lemma mret_ok {S E A} (a b : A) (s s' : S) :
  (mret a : M S E A) s = (Ok b, s') -> a = b /\ s = s'.
Proof. intros [= -> ->]. auto. Qed.
Lemma raise_ok {S E A} (e : E) (b : A) (s s' : S) :
  (raise e : M S E A) s = (Ok b, s') -> False.
Proof. discriminate. Qed.
Lemma gets_ok {S E A} (f : S -> A) b (s s' : S) :
  (gets f : M S E A) s = (Ok b, s') -> b = f s /\ s = s'.
Proof. intros [= -> ->]. auto. Qed.
Lemma modify_ok {S E} (f : S -> S) u (s s' : S) :
  (modify f : M S E unit) s = (Ok u, s') -> s' = f s.
Proof. intros [= _ ->]. auto. Qed.
Lemma lift_ok {S E A} (r : res E A) b (s s' : S) :
  (lift r : M S E A) s = (Ok b, s') -> r = Ok b /\ s = s'.
Proof. intros [= -> ->]. auto. Qed.
Lemma raise_when_ok {S E} b (e : E) u (s s' : S) :
  raise_when b e s = (Ok u, s') -> b = false /\ s = s'.
Proof. destruct b; [discriminate |]. intros [= _ ->]. auto. Qed.
Lemma raise_unless_ok {S E} b (e : E) u (s s' : S) :
  raise_unless b e s = (Ok u, s') -> b = true /\ s = s'.
Proof. destruct b; [|discriminate]. intros [= _ ->]. auto. Qed.
Lemma some_or_ok {S E A} (o : option A) (e : E) a (s s' : S) :
  some_or o e s = (Ok a, s') -> o = Some a /\ s = s'.
Proof. destruct o; [|discriminate]. intros [= -> ->]. auto. Qed.

(** Decompose a hypothesis that a monadic program returned normally. *)
Ltac inv_ok1 H :=
  lazymatch type of H with
  | (mbind _ _) _ = (Ok _, _) =>
      let a := fresh "v" in let s := fresh "st" in let H1 := fresh "Hrun" in
      apply M_bind_ok in H as (a & s & H1 & H); try inv_ok1 H1
  | (mret _) _ = (Ok _, _) => apply mret_ok in H as [? ?]; subst
  | (raise _) _ = (Ok _, _) => exfalso; exact (raise_ok _ _ _ _ H)
  | (gets _) _ = (Ok _, _) => apply gets_ok in H as [? ?]; subst
  | (modify _) _ = (Ok _, _) => apply modify_ok in H; subst
  | (lift _) _ = (Ok _, _) => apply lift_ok in H as [H ?]; subst
  | raise_when _ _ _ = (Ok _, _) => apply raise_when_ok in H as [H ?]; subst
  | raise_unless _ _ _ = (Ok _, _) => apply raise_unless_ok in H as [H ?]; subst
  | some_or _ _ _ = (Ok _, _) => apply some_or_ok in H as [H ?]; subst
  end.
Ltac inv_ok H := repeat (cbv beta iota in H; inv_ok1 H).

(** ** Record update: [set proj f r] and [r <| proj := v |>]. *)
Class EtaExpand (R : Type) := eta_expand : R -> R.
Class Setter {R E : Type} (proj : R -> E) := set : (E -> E) -> R -> R.
Arguments set {R E} proj {_} f r.
Ltac derive_setter :=
  lazymatch goal with
  | |- @Setter ?R ?E ?proj =>
      let body := constr:(@eta_expand R _) in
      let body := eval hnf in body in
      lazymatch eval pattern proj in body with
      | ?F _ =>
          let t := eval cbv beta in (fun (f : E -> E) (r : R) => F (fun r' => f (proj r')) r) in
          exact t
      end
  end.
#[export] Hint Extern 1 (Setter _) => derive_setter : typeclass_instances.

Declare Scope py_scope.
Delimit Scope py_scope with py.
Notation "r <| proj := v |>" := (set proj (fun _ => v) r)
  (at level 1, left associativity, format "r  <|  proj  :=  v  |>") : py_scope.
Notation "r <| proj ::= f |>" := (set proj f r)
  (at level 1, left associativity, format "r  <|  proj  ::=  f  |>") : py_scope.
Open Scope py_scope.

(** ** Python [Enum] classes with string values.  [members] is the
    definition order, [of_value] the constructor call [Cls(value)]. *)
Class PyEnum (A : Type) := {
  enum_eq_dec :: EqDecision A;
  members : list A;
  value : A -> string;
  members_complete : forall x : A, In x members;
  value_inj : forall x y : A, value x = value y -> x = y;
}.

Section Enum.
  Context `{PyEnum A}.
Definition of_value (s : string) : option A :=
    find (fun x => String.eqb (value x) s) members.

Lemma of_value_value x : of_value (value x) = Some x.
  Proof.
    unfold of_value. destruct (find _ _) as [y|] eqn:F.
    - apply find_some in F as [_ F]. apply String.eqb_eq in F.
      f_equal. by apply value_inj.
    - pose proof (find_none _ _ F x (members_complete x)) as N.
      cbn in N. by rewrite String.eqb_refl in N.
  Qed.

Lemma of_value_some s x : of_value s = Some x -> value x = s.
  Proof. intros F. apply find_some in F as [_ F]. by apply String.eqb_eq. Qed.
End Enum.

(** Membership in a literal tuple or frozenset. *)
Definition in_list {A} `{EqDecision A} (x : A) (l : list A) : bool :=
  existsb (fun y => bool_decide (x = y)) l.

Lemma in_list_In {A} `{EqDecision A} (x : A) l : in_list x l = true <-> In x l.
Proof.
  unfold in_list. rewrite existsb_exists. split.
  - intros (y & ? & ->%bool_decide_eq_true). done.
  - intros I. exists x. by rewrite bool_decide_true.
Qed.
Lemma in_list_false {A} `{EqDecision A} (x : A) l : in_list x l = false <-> ~ In x l.
Proof. rewrite <- in_list_In. destruct (in_list x l); split; congruence. Qed.

Definition str_in (x : string) (l : list string) : bool := existsb (String.eqb x) l.
Lemma str_in_In x l : str_in x l = true <-> In x l.
Proof.
  unfold str_in. rewrite existsb_exists. split.
  - intros (y & ? & ->%String.eqb_eq). done.
  - intros I. exists x. by rewrite String.eqb_refl.
Qed.
Lemma str_in_false x l : str_in x l = false <-> ~ In x l.
Proof. rewrite <- str_in_In. destruct (str_in x l); split; congruence. Qed.

(** Equality of optional strings, as Python's [==] on [Optional[str]]. *)
Definition ostr_eqb (a b : option string) : bool :=
  match a, b with
  | Some x, Some y => String.eqb x y
  | None, None => true
  | _, _ => false
  end.
Lemma ostr_eqb_eq a b : ostr_eqb a b = true <-> a = b.
Proof.
  destruct a, b; cbn; rewrite ?String.eqb_eq; split; congruence.
Qed.
Lemma ostr_eqb_refl a : ostr_eqb a a = true.
Proof. by apply ostr_eqb_eq. Qed.

(** The truth value of a string and of an optional string. *)
Definition truthy (s : string) : bool := negb (String.eqb s EmptyString).
Definition otruthy (o : option string) : bool :=
  match o with Some s => truthy s | None => false end.

Create HintDb argent.
Create HintDb raises.
#[export] Hint Resolve raises_bind raises_ok raises_err raises_when raises_unless raises_for
  : raises.
#[export] Hint Constructors or : raises.
Create Rewrite HintDb argent_b.
#[export] Hint Rewrite @in_list_In @in_list_false str_in_In str_in_false ostr_eqb_eq
  String.eqb_eq String.eqb_neq andb_true_iff orb_true_iff andb_false_iff orb_false_iff
  negb_true_iff negb_false_iff bool_decide_eq_true bool_decide_eq_false : argent_b.

(** Case analysis on every boolean test of the goal or of a hypothesis. *)
Ltac case_tests :=
  repeat match goal with
  | |- context [if ?b then _ else _] => destruct b eqn:?
  | H : context [if ?b then _ else _] |- _ => destruct b eqn:?
  end.

(** Evaluate the closed decisions and membership tests of the goal or of a
    hypothesis, and nothing else. *)
Ltac eval_closed t :=
  let b := eval vm_compute in t in
  first [constr_eq b true | constr_eq b false]; change t with b.
Ltac eval_closed_in t H :=
  let b := eval vm_compute in t in
  first [constr_eq b true | constr_eq b false]; change t with b in H.
Ltac simpl_tests :=
  repeat (match goal with
  | |- context [@bool_decide ?P ?D] => eval_closed (@bool_decide P D)
  | |- context [@in_list ?A ?E ?x ?l] => eval_closed (@in_list A E x l)
  | H : context [@bool_decide ?P ?D] |- _ => eval_closed_in (@bool_decide P D) H
  | H : context [@in_list ?A ?E ?x ?l] |- _ => eval_closed_in (@in_list A E x l) H
  end; cbn [andb orb negb] in *).

(** ** Sorting

    Python's [sorted] is a stable sort by a total preorder. *)
Fixpoint insert_by {A} (leb : A -> A -> bool) (x : A) (l : list A) : list A :=
  match l with
  | [] => [x]
  | y :: l' => if leb x y then x :: l else y :: insert_by leb x l'
  end.
(** A stable sort. *)
Definition sort_by {A} (leb : A -> A -> bool) (l : list A) : list A := fold_right (insert_by leb) [] l.
Lemma insert_by_perm {A} (leb : A -> A -> bool) x l : insert_by leb x l ≡ₚ x :: l.
Proof.
  induction l as [|y l IH]; [done|]. cbn. destruct (leb x y); [done|].
  by rewrite IH, Permutation_swap.
Qed.
Lemma sort_by_perm {A} (leb : A -> A -> bool) l : sort_by leb l ≡ₚ l.
Proof. induction l as [|x l IH]; [done|]. cbn. by rewrite insert_by_perm, IH. Qed.
Lemma insert_by_in {A} (leb : A -> A -> bool) x l y : y ∈ insert_by leb x l -> y = x \/ y ∈ l.
Proof.
  induction l as [|z l IH]; cbn; [intros ?%list_elem_of_singleton; by left|].
  destruct (leb x z); rewrite !elem_of_cons; [tauto|]. intros [->|I%IH]; tauto.
Qed.
Lemma sort_by_in {A} (leb : A -> A -> bool) l y : y ∈ sort_by leb l -> y ∈ l.
Proof.
  induction l as [|x l IH]; [done|]. cbn. intros [->|I]%insert_by_in; [by left | right; by apply IH].
Qed.
Lemma str_leb_trans a b c : String.leb a b = true -> String.leb b c = true -> String.leb a c = true.
Proof.
  unfold String.leb. revert b c. induction a as [|x a IH]; intros [|y b] [|z c]; cbn; try done.
  unfold Ascii.compare. specialize (IH b c).
  destruct (N.compare_spec (N_of_ascii x) (N_of_ascii y)), (N.compare_spec (N_of_ascii y) (N_of_ascii z)),
    (N.compare_spec (N_of_ascii x) (N_of_ascii z)); try done; try lia; exact IH.
Qed.
Lemma str_leb_refl a : String.leb a a = true.
Proof. by destruct (String.leb_total a a). Qed.
Section Sorting.
Context {A : Type} (leb : A -> A -> bool).
Context (leb_trans : forall a b c, leb a b = true -> leb b c = true -> leb a c = true).
Context (leb_total : forall a b, leb a b = false -> leb b a = true).
Notation le := (fun a b => leb a b = true).
Lemma insert_first x l : Forall (le x) l -> insert_by leb x l = x :: l.
Proof. destruct 1 as [|y l E _]; [done|]. cbn. by rewrite E. Qed.
Lemma insert_by_sorted x l : StronglySorted le l -> StronglySorted le (insert_by leb x l).
Proof.
  induction 1 as [|y l S IH F]; cbn; [by repeat constructor|]. destruct (leb x y) eqn:E.
  - constructor; [by constructor|]. constructor; [done|]. eapply Forall_impl; [exact F|]. intros z. by apply leb_trans.
  - constructor; [exact IH|]. rewrite insert_by_perm. constructor; [by apply leb_total | exact F].
Qed.
Lemma sort_by_sorted l : StronglySorted le (sort_by leb l).
Proof. induction l; [constructor | by apply insert_by_sorted]. Qed.
Lemma filter_insert p x l : StronglySorted le l ->
  List.filter p (insert_by leb x l) = if p x then insert_by leb x (List.filter p l) else List.filter p l.
Proof.
  induction 1 as [|y l S IH F]; cbn; [by destruct (p x)|]. destruct (leb x y) eqn:E; cbn.
  - destruct (p x); [|done]. rewrite insert_first; [done|].
    assert (G : Forall (le x) (y :: l)).
    { constructor; [done|]. eapply Forall_impl; [exact F|]. intros z. by apply leb_trans. }
    rewrite Forall_forall in G |- *. intros z I. apply G. change (z ∈ List.filter p (y :: l)) in I.
    apply list_elem_of_In, filter_In in I as [I _]. by apply list_elem_of_In.
  - rewrite IH. destruct (p y), (p x); cbn; rewrite ?E; done.
Qed.
Lemma filter_sort p l : List.filter p (sort_by leb l) = sort_by leb (List.filter p l).
Proof.
  induction l as [|x l IH]; [done|]. change (sort_by leb (x :: l)) with (insert_by leb x (sort_by leb l)). rewrite filter_insert by apply sort_by_sorted. rewrite IH. cbn. by destruct (p x).
Qed.
(** Two sorts of the same elements agree when ties are equal. *)
Lemma sort_by_unique l l' : (forall a b, leb a b = true -> leb b a = true -> In a l -> In b l -> a = b) ->
  l ≡ₚ l' -> sort_by leb l = sort_by leb l'.
Proof.
  intros T P. apply (StronglySorted_unique_strong le); [|apply sort_by_sorted ..|by rewrite !sort_by_perm].
  intros a b I1 I2 E1 E2. apply T; try done; apply list_elem_of_In.
  - apply (sort_by_in leb). exact I1.
  - rewrite P. apply (sort_by_in leb). exact I2.
Qed.
End Sorting.
