(* ===== verification/PyVal.v ===== *)
(** * PyVal: Python values as the core sees them (JSON documents, payloads)

    The values agents and controllers hand to the core: [None], booleans,
    integers, floats, strings, lists, tuples, dicts and other objects, which
    are known by their [str()] text.  A dict
    is its item list in insertion order, with string or integer keys.  Strings
    are sequences of 8-bit characters; [lower] maps the ASCII capitals.  A
    finite float is its shortest decimal form [mantissa * 10^exponent]. *)
From S2P Require Import Prelude.

Inductive pykey : Type :=
| KStr (s : string)
| KInt (z : Z).

Inductive pyfloat : Type :=
| FNan
| FInf (neg : bool)
| FDec (neg : bool) (mantissa : N) (exponent : Z).

Inductive pyval : Type :=
| PNone
| PBool (b : bool)
| PInt (z : Z)
| PFloat (f : pyfloat)
| PStr (s : string)
| PList (l : list pyval)
| PTuple (l : list pyval)
| PDict (d : list (pykey * pyval))
| PObj (text : string).

#[export] Instance pykey_eq_dec : EqDecision pykey.
Proof. solve_decision. Defined.

Definition pydict : Type := list (pykey * pyval).

(** Induction over nested values. *)
Section PyValInd.
  Variable P : pyval -> Prop.
  Hypothesis HNone : P PNone.
  Hypothesis HBool : forall b, P (PBool b).
  Hypothesis HInt : forall z, P (PInt z).
  Hypothesis HFloat : forall f, P (PFloat f).
  Hypothesis HStr : forall s, P (PStr s).
  Hypothesis HList : forall l, Forall P l -> P (PList l).
  Hypothesis HTuple : forall l, Forall P l -> P (PTuple l).
  Hypothesis HDict : forall d, Forall (fun kv => P (snd kv)) d -> P (PDict d).
  Hypothesis HObj : forall s, P (PObj s).

Fixpoint pyval_rect' (v : pyval) : P v :=
    let fix go (l : list pyval) : Forall P l :=
      match l with
      | [] => Forall_nil_2 P
      | x :: l' => Forall_cons_2 P x l' (pyval_rect' x) (go l')
      end in
    let fix god (d : pydict) : Forall (fun kv => P (snd kv)) d :=
      match d with
      | [] => Forall_nil_2 _
      | kv :: d' => Forall_cons_2 (fun kv => P (snd kv)) kv d' (pyval_rect' (snd kv)) (god d')
      end in
    match v with
    | PNone => HNone
    | PBool b => HBool b
    | PInt z => HInt z
    | PFloat f => HFloat f
    | PStr s => HStr s
    | PList l => HList l (go l)
    | PTuple l => HTuple l (go l)
    | PDict d => HDict d (god d)
    | PObj s => HObj s
    end.
End PyValInd.

(** ** Dict access *)
Definition key_eqb (a b : pykey) : bool :=
  match a, b with
  | KStr x, KStr y => String.eqb x y
  | KInt x, KInt y => Z.eqb x y
  | _, _ => false
  end.
Lemma key_eqb_eq a b : key_eqb a b = true <-> a = b.
Proof.
  destruct a, b; cbn; rewrite ?String.eqb_eq, ?Z.eqb_eq; split; congruence.
Qed.

Fixpoint assoc (k : pykey) (d : pydict) : option pyval :=
  match d with
  | [] => None
  | (k', v) :: d' => if key_eqb k k' then Some v else assoc k d'
  end.
(** [d.get(field)] and [field in d] for a string key. *)
Definition dget (d : pydict) (field : string) : option pyval := assoc (KStr field) d.
Definition dhas (d : pydict) (field : string) : bool :=
  match dget d field with Some _ => true | None => false end.
(** [d.get(field)] as a value: [None] when absent. *)
Definition dget0 (d : pydict) (field : string) : pyval :=
  match dget d field with Some v => v | None => PNone end.

Lemma assoc_In k d v : assoc k d = Some v -> In (k, v) d.
Proof.
  induction d as [|[k' v'] d IH]; cbn; [discriminate |].
  destruct (key_eqb k k') eqn:E; [|auto].
  apply key_eqb_eq in E as <-. intros [= ->]. auto.
Qed.

(** Truth value of an arbitrary value ([PObj] counts as true). *)
Definition py_truthy (v : pyval) : bool :=
  match v with
  | PNone => false
  | PBool b => b
  | PInt z => negb (Z.eqb z 0)
  | PFloat (FDec _ m _) => negb (N.eqb m 0)
  | PFloat _ => true
  | PStr s => truthy s
  | PList l => match l with [] => false | _ => true end
  | PTuple l => match l with [] => false | _ => true end
  | PDict d => match d with [] => false | _ => true end
  | PObj _ => true
  end.

(** [v == s] for a string [s], and [v == other] for optional strings. *)
Definition is_str (v : pyval) (s : string) : bool :=
  match v with PStr x => String.eqb x s | _ => false end.
Definition ostr_val (o : option string) : pyval :=
  match o with Some s => PStr s | None => PNone end.
Definition eq_ostr (v : pyval) (o : option string) : bool :=
  match v, o with
  | PStr x, Some y => String.eqb x y
  | PNone, None => true
  | _, _ => false
  end.
Lemma eq_ostr_eq v o : eq_ostr v o = true <-> v = ostr_val o.
Proof.
  destruct v, o; cbn; rewrite ?String.eqb_eq; split; try congruence; by intros [= ->].
Qed.
Lemma is_str_eq v s : is_str v s = true <-> v = PStr s.
Proof. destruct v; cbn; rewrite ?String.eqb_eq; split; congruence. Qed.

(** A value that can be a dict key or set member: the unhashable ones make
    [v in frozenset(...)] raise [TypeError]. *)
Fixpoint hashable (v : pyval) : bool :=
  match v with
  | PList _ | PDict _ => false
  | PTuple l => forallb hashable l
  | _ => true
  end.

(** ** Text *)
Definition lower_char (c : ascii) : ascii :=
  let n := N_of_ascii c in
  if (65 <=? n)%N && (n <=? 90)%N then ascii_of_N (n + 32) else c.
Fixpoint lower (s : string) : string :=
  match s with
  | EmptyString => EmptyString
  | String c s' => String (lower_char c) (lower s')
  end.

Definition upper_char (c : ascii) : ascii :=
  let n := N_of_ascii c in
  if (97 <=? n)%N && (n <=? 122)%N then ascii_of_N (n - 32) else c.
Fixpoint upper (s : string) : string :=
  match s with
  | EmptyString => EmptyString
  | String c s' => String (upper_char c) (upper s')
  end.

(** [word in text]. *)
Fixpoint contains (word text : string) : bool :=
  String.prefix word text ||
  match text with
  | EmptyString => false
  | String _ t => contains word t
  end.

Lemma prefix_app p s : String.prefix p s = true <-> exists t, s = (p ++ t)%string.
Proof.
  revert s. induction p as [|c p IH]; intros s; cbn.
  - split; [intros _; by exists s | by destruct s].
  - destruct s as [|c' s]; cbn.
    + split; [discriminate | by intros [t [=]]].
    + destruct (ascii_dec c c') as [->|N].
      * rewrite IH. split; intros [t Ht]; exists t; [by rewrite Ht | by injection Ht].
      * split; [discriminate | intros [t [= E _]]; congruence].
Qed.

Lemma contains_spec w t :
  contains w t = true <-> exists a b, t = (a ++ w ++ b)%string.
Proof.
  revert w. induction t as [|c t IH]; intros w; cbn [contains]; rewrite orb_true_iff, prefix_app.
  - split.
    + intros [[b ->]|E]; [by exists EmptyString, b | discriminate].
    + intros (a & b & E). left. destruct a; [|discriminate]. by exists b.
  - rewrite IH. split.
    + intros [[b ->]|(a & b & ->)]; [by exists EmptyString, b | by exists (String c a), b].
    + intros (a & b & E). destruct a as [|c' a]; cbn in E.
      * left. by exists b.
      * right. injection E as <- ->. by exists a, b.
Qed.

(** Python [s.strip()] on ASCII whitespace. *)
Definition is_ws (c : ascii) : bool :=
  let n := N_of_ascii c in
  ((9 <=? n)%N && (n <=? 13)%N) || ((28 <=? n)%N && (n <=? 32)%N).
Fixpoint lstrip (s : string) : string :=
  match s with
  | String c s' => if is_ws c then lstrip s' else s
  | EmptyString => EmptyString
  end.
Definition string_rev (s : string) : string :=
  string_of_list_ascii (rev (list_ascii_of_string s)).
Definition strip (s : string) : string := string_rev (lstrip (string_rev (lstrip s))).
Definition blank (s : string) : bool := negb (truthy (strip s)).
