(* ===== verification/Models.v ===== *)
(** * Models: enums, typed exceptions and the rows of the core
    (src/argent_core/models.py).

    Every [Enum] class is an inductive type with the source's members in
    definition order and its [value] strings ([PyEnum] instance); members whose
    source name is shared by several classes carry a short prefix.  Every
    frozen dataclass is a record; optional attributes are [option]s. *)
From S2P Require Import Prelude PyVal.

(** Solves a [PyEnum] instance from the member list and the values. *)
Ltac solve_complete := intros x; destruct x; cbn; tauto.
Ltac solve_value_inj :=
  intros x y; destruct x, y; cbn; intros E; first [reflexivity | discriminate E].

Inductive RiskClass : Type :=
| LOW
| NORMAL
| HIGH.
Definition RiskClass_value (x : RiskClass) : string :=
  match x with
  | LOW => "LOW"
  | NORMAL => "NORMAL"
  | HIGH => "HIGH"
  end.
#[export] Instance RiskClass_eq_dec : EqDecision RiskClass.
Proof. solve_decision. Defined.
#[export] Program Instance RiskClass_enum : PyEnum RiskClass := {|
  members := [LOW; NORMAL; HIGH];
  value := RiskClass_value |}.
Next Obligation. solve_complete. Qed.
Next Obligation. solve_value_inj. Qed.

Inductive ExternalActionsPolicy : Type :=
| ALLOWED_WITH_GATE
| POLICY_FORBIDDEN.
Definition ExternalActionsPolicy_value (x : ExternalActionsPolicy) : string :=
  match x with
  | ALLOWED_WITH_GATE => "ALLOWED_WITH_GATE"
  | POLICY_FORBIDDEN => "FORBIDDEN"
  end.
#[export] Instance ExternalActionsPolicy_eq_dec : EqDecision ExternalActionsPolicy.
Proof. solve_decision. Defined.
#[export] Program Instance ExternalActionsPolicy_enum : PyEnum ExternalActionsPolicy := {|
  members := [ALLOWED_WITH_GATE; POLICY_FORBIDDEN];
  value := ExternalActionsPolicy_value |}.
Next Obligation. solve_complete. Qed.
Next Obligation. solve_value_inj. Qed.

Inductive DispatchStatus : Type :=
| DPENDING
| DRUNNING
| DCONSUMED
| DFAILED
| DREJECTED
| DQUARANTINED
| DRECOVERY_PENDING.
Definition DispatchStatus_value (x : DispatchStatus) : string :=
  match x with
  | DPENDING => "PENDING"
  | DRUNNING => "RUNNING"
  | DCONSUMED => "CONSUMED"
  | DFAILED => "FAILED"
  | DREJECTED => "REJECTED"
  | DQUARANTINED => "QUARANTINED"
  | DRECOVERY_PENDING => "RECOVERY_PENDING"
  end.
#[export] Instance DispatchStatus_eq_dec : EqDecision DispatchStatus.
Proof. solve_decision. Defined.
#[export] Program Instance DispatchStatus_enum : PyEnum DispatchStatus := {|
  members := [DPENDING; DRUNNING; DCONSUMED; DFAILED; DREJECTED; DQUARANTINED; DRECOVERY_PENDING];
  value := DispatchStatus_value |}.
Next Obligation. solve_complete. Qed.
Next Obligation. solve_value_inj. Qed.

Inductive SequenceKind : Type :=
| STANDARD
| REWORK_SEQ.
Definition SequenceKind_value (x : SequenceKind) : string :=
  match x with
  | STANDARD => "STANDARD"
  | REWORK_SEQ => "REWORK"
  end.
#[export] Instance SequenceKind_eq_dec : EqDecision SequenceKind.
Proof. solve_decision. Defined.
#[export] Program Instance SequenceKind_enum : PyEnum SequenceKind := {|
  members := [STANDARD; REWORK_SEQ];
  value := SequenceKind_value |}.
Next Obligation. solve_complete. Qed.
Next Obligation. solve_value_inj. Qed.

Inductive TaskState : Type :=
| NEW
| PLANNING
| ANALYZING
| LEAD_DECISION
| IMPLEMENTING
| TESTING
| REVIEWING
| FINAL_DECISION
| DONE
| REWORK
| BLOCKED
| OWNER_APPROVAL_REQUIRED
| PAUSED
| FAILED
| RECOVERING
| CANCELLED.
Definition TaskState_value (x : TaskState) : string :=
  match x with
  | NEW => "NEW"
  | PLANNING => "PLANNING"
  | ANALYZING => "ANALYZING"
  | LEAD_DECISION => "LEAD_DECISION"
  | IMPLEMENTING => "IMPLEMENTING"
  | TESTING => "TESTING"
  | REVIEWING => "REVIEWING"
  | FINAL_DECISION => "FINAL_DECISION"
  | DONE => "DONE"
  | REWORK => "REWORK"
  | BLOCKED => "BLOCKED"
  | OWNER_APPROVAL_REQUIRED => "OWNER_APPROVAL_REQUIRED"
  | PAUSED => "PAUSED"
  | FAILED => "FAILED"
  | RECOVERING => "RECOVERING"
  | CANCELLED => "CANCELLED"
  end.
#[export] Instance TaskState_eq_dec : EqDecision TaskState.
Proof. solve_decision. Defined.
#[export] Program Instance TaskState_enum : PyEnum TaskState := {|
  members := [NEW; PLANNING; ANALYZING; LEAD_DECISION; IMPLEMENTING; TESTING; REVIEWING; FINAL_DECISION; DONE; REWORK; BLOCKED; OWNER_APPROVAL_REQUIRED; PAUSED; FAILED; RECOVERING; CANCELLED];
  value := TaskState_value |}.
Next Obligation. solve_complete. Qed.
Next Obligation. solve_value_inj. Qed.

Inductive Role : Type :=
| LEAD
| ANALYST
| IMPLEMENTER
| QA
| REVIEWER.
Definition Role_value (x : Role) : string :=
  match x with
  | LEAD => "lead"
  | ANALYST => "analyst"
  | IMPLEMENTER => "implementer"
  | QA => "qa"
  | REVIEWER => "reviewer"
  end.
#[export] Instance Role_eq_dec : EqDecision Role.
Proof. solve_decision. Defined.
#[export] Program Instance Role_enum : PyEnum Role := {|
  members := [LEAD; ANALYST; IMPLEMENTER; QA; REVIEWER];
  value := Role_value |}.
Next Obligation. solve_complete. Qed.
Next Obligation. solve_value_inj. Qed.

Inductive SourceClass : Type :=
| TRUSTED
| UNTRUSTED.
Definition SourceClass_value (x : SourceClass) : string :=
  match x with
  | TRUSTED => "TRUSTED"
  | UNTRUSTED => "UNTRUSTED"
  end.
#[export] Instance SourceClass_eq_dec : EqDecision SourceClass.
Proof. solve_decision. Defined.
#[export] Program Instance SourceClass_enum : PyEnum SourceClass := {|
  members := [TRUSTED; UNTRUSTED];
  value := SourceClass_value |}.
Next Obligation. solve_complete. Qed.
Next Obligation. solve_value_inj. Qed.

Inductive ArtifactCategory : Type :=
| PRODUCT_CODE
| TEST_CODE
| OTHER.
Definition ArtifactCategory_value (x : ArtifactCategory) : string :=
  match x with
  | PRODUCT_CODE => "PRODUCT_CODE"
  | TEST_CODE => "TEST_CODE"
  | OTHER => "OTHER"
  end.
#[export] Instance ArtifactCategory_eq_dec : EqDecision ArtifactCategory.
Proof. solve_decision. Defined.
#[export] Program Instance ArtifactCategory_enum : PyEnum ArtifactCategory := {|
  members := [PRODUCT_CODE; TEST_CODE; OTHER];
  value := ArtifactCategory_value |}.
Next Obligation. solve_complete. Qed.
Next Obligation. solve_value_inj. Qed.

Inductive Permission : Type :=
| READ
| WRITE.
Definition Permission_value (x : Permission) : string :=
  match x with
  | READ => "read"
  | WRITE => "write"
  end.
#[export] Instance Permission_eq_dec : EqDecision Permission.
Proof. solve_decision. Defined.
#[export] Program Instance Permission_enum : PyEnum Permission := {|
  members := [READ; WRITE];
  value := Permission_value |}.
Next Obligation. solve_complete. Qed.
Next Obligation. solve_value_inj. Qed.

Inductive RoleRunStatus : Type :=
| RR_STARTED
| RR_COMPLETED
| RR_FAILED.
Definition RoleRunStatus_value (x : RoleRunStatus) : string :=
  match x with
  | RR_STARTED => "started"
  | RR_COMPLETED => "completed"
  | RR_FAILED => "failed"
  end.
#[export] Instance RoleRunStatus_eq_dec : EqDecision RoleRunStatus.
Proof. solve_decision. Defined.
#[export] Program Instance RoleRunStatus_enum : PyEnum RoleRunStatus := {|
  members := [RR_STARTED; RR_COMPLETED; RR_FAILED];
  value := RoleRunStatus_value |}.
Next Obligation. solve_complete. Qed.
Next Obligation. solve_value_inj. Qed.

Inductive TaskRunStatus : Type :=
| TR_STARTED
| TR_COMPLETED
| TR_FAILED.
Definition TaskRunStatus_value (x : TaskRunStatus) : string :=
  match x with
  | TR_STARTED => "started"
  | TR_COMPLETED => "completed"
  | TR_FAILED => "failed"
  end.
#[export] Instance TaskRunStatus_eq_dec : EqDecision TaskRunStatus.
Proof. solve_decision. Defined.
#[export] Program Instance TaskRunStatus_enum : PyEnum TaskRunStatus := {|
  members := [TR_STARTED; TR_COMPLETED; TR_FAILED];
  value := TaskRunStatus_value |}.
Next Obligation. solve_complete. Qed.
Next Obligation. solve_value_inj. Qed.

Inductive ApprovalStatus : Type :=
| AP_PENDING
| AP_APPROVED
| AP_REJECTED
| AP_CONSUMED
| AP_EXPIRED.
Definition ApprovalStatus_value (x : ApprovalStatus) : string :=
  match x with
  | AP_PENDING => "pending"
  | AP_APPROVED => "approved"
  | AP_REJECTED => "rejected"
  | AP_CONSUMED => "consumed"
  | AP_EXPIRED => "expired"
  end.
#[export] Instance ApprovalStatus_eq_dec : EqDecision ApprovalStatus.
Proof. solve_decision. Defined.
#[export] Program Instance ApprovalStatus_enum : PyEnum ApprovalStatus := {|
  members := [AP_PENDING; AP_APPROVED; AP_REJECTED; AP_CONSUMED; AP_EXPIRED];
  value := ApprovalStatus_value |}.
Next Obligation. solve_complete. Qed.
Next Obligation. solve_value_inj. Qed.

Inductive ActionExecutionStatus : Type :=
| EX_EXECUTED
| EX_BLOCKED.
Definition ActionExecutionStatus_value (x : ActionExecutionStatus) : string :=
  match x with
  | EX_EXECUTED => "executed"
  | EX_BLOCKED => "blocked"
  end.
#[export] Instance ActionExecutionStatus_eq_dec : EqDecision ActionExecutionStatus.
Proof. solve_decision. Defined.
#[export] Program Instance ActionExecutionStatus_enum : PyEnum ActionExecutionStatus := {|
  members := [EX_EXECUTED; EX_BLOCKED];
  value := ActionExecutionStatus_value |}.
Next Obligation. solve_complete. Qed.
Next Obligation. solve_value_inj. Qed.

Inductive ActionClass : Type :=
| AUTONOMOUS
| AC_OWNER_APPROVAL_REQUIRED
| AC_FORBIDDEN.
Definition ActionClass_value (x : ActionClass) : string :=
  match x with
  | AUTONOMOUS => "AUTONOMOUS"
  | AC_OWNER_APPROVAL_REQUIRED => "OWNER_APPROVAL_REQUIRED"
  | AC_FORBIDDEN => "FORBIDDEN"
  end.
#[export] Instance ActionClass_eq_dec : EqDecision ActionClass.
Proof. solve_decision. Defined.
#[export] Program Instance ActionClass_enum : PyEnum ActionClass := {|
  members := [AUTONOMOUS; AC_OWNER_APPROVAL_REQUIRED; AC_FORBIDDEN];
  value := ActionClass_value |}.
Next Obligation. solve_complete. Qed.
Next Obligation. solve_value_inj. Qed.

Inductive FindingStatus : Type :=
| F_OPEN
| F_RESOLVED.
Definition FindingStatus_value (x : FindingStatus) : string :=
  match x with
  | F_OPEN => "open"
  | F_RESOLVED => "resolved"
  end.
#[export] Instance FindingStatus_eq_dec : EqDecision FindingStatus.
Proof. solve_decision. Defined.
#[export] Program Instance FindingStatus_enum : PyEnum FindingStatus := {|
  members := [F_OPEN; F_RESOLVED];
  value := FindingStatus_value |}.
Next Obligation. solve_complete. Qed.
Next Obligation. solve_value_inj. Qed.

Inductive TestResult : Type :=
| TEST_PASSED
| TEST_FAILED.
Definition TestResult_value (x : TestResult) : string :=
  match x with
  | TEST_PASSED => "passed"
  | TEST_FAILED => "failed"
  end.
#[export] Instance TestResult_eq_dec : EqDecision TestResult.
Proof. solve_decision. Defined.
#[export] Program Instance TestResult_enum : PyEnum TestResult := {|
  members := [TEST_PASSED; TEST_FAILED];
  value := TestResult_value |}.
Next Obligation. solve_complete. Qed.
Next Obligation. solve_value_inj. Qed.

(** ** Typed exceptions, and the built-in ones the code can raise.
    Messages are not modelled; [ApprovalExpired] is the internal signal
    [_ApprovalExpired] of core.py, which carries the approval id, and
    [SqliteError] stands for the driver's errors other than [IntegrityError]. *)
Inductive exc : Type :=
| InvalidTransition
| RoleConflict
| PermissionDenied
| ForbiddenAction
| ApprovalError
| UntrustedSource
| OwnerAuthorityRequired
| PrivacyViolation
| IdempotencyError
| NotFound
| RolePolicyViolation
| OutputValidationError
| DispatchError
| LeaseError
| LeaseFencedError
| WorktreeConflictError
| ModelRegistryError (code : string)
| OverflowError
| SqliteError
| ApprovalExpired (approval_id : string)
| IntegrityError
| ValueError
| TypeError
| KeyError
| AttributeError
| CandidateRevisionError
| RequestRevisionError
| IllegalRequestTransition
| IdempotencyConflictError
| ProvenanceError
| PolicyDeniedError
| AuthorizationError
| CandidateNotFound
| IntegrationError
| HolderLostError
| BrokerError
| RequestNotFound
| RuntimeError
| ContextBuildError
| HandoffError
| CheckpointError
| InventoryError
| PolicyError
| OSError.

#[export] Instance exc_eq_dec : EqDecision exc.
Proof. solve_decision. Defined.

(** [Cls(value)] for an enum class: raises [ValueError] on an unknown value. *)
Definition enum_of `{PyEnum A} (s : string) : res exc A :=
  match of_value s with Some x => Ok x | None => Err ValueError end.

(** ** Dataclasses.  Timestamps are ISO strings, as persisted. *)
Record Project : Type := mkProject {
  pr_id : string;
  pr_name : string;
  pr_created_at : string;
  pr_idempotency_key : option string
}.
#[export] Instance Project_eta : EtaExpand Project := fun x =>
  mkProject (pr_id x) (pr_name x) (pr_created_at x) (pr_idempotency_key x).

Record Task : Type := mkTask {
  t_id : string;
  t_project_id : string;
  t_title : string;
  t_state : TaskState;
  t_resume_state : option TaskState;
  t_source : string;
  t_source_class : SourceClass;
  t_created_at : string;
  t_updated_at : string;
  t_idempotency_key : option string;
  t_description : option string;
  t_risk_class : RiskClass;
  t_external_actions_policy : ExternalActionsPolicy
}.
#[export] Instance Task_eta : EtaExpand Task := fun x =>
  mkTask (t_id x) (t_project_id x) (t_title x) (t_state x) (t_resume_state x) (t_source x) (t_source_class x) (t_created_at x) (t_updated_at x) (t_idempotency_key x) (t_description x) (t_risk_class x) (t_external_actions_policy x).

Record TaskRun : Type := mkTaskRun {
  tr_id : string;
  tr_task_id : string;
  tr_status : TaskRunStatus;
  tr_started_at : string;
  tr_finished_at : option string
}.
#[export] Instance TaskRun_eta : EtaExpand TaskRun := fun x =>
  mkTaskRun (tr_id x) (tr_task_id x) (tr_status x) (tr_started_at x) (tr_finished_at x).

Record RoleRun : Type := mkRoleRun {
  rr_id : string;
  rr_task_id : string;
  rr_role : Role;
  rr_status : RoleRunStatus;
  rr_started_at : string;
  rr_finished_at : option string
}.
#[export] Instance RoleRun_eta : EtaExpand RoleRun := fun x =>
  mkRoleRun (rr_id x) (rr_task_id x) (rr_role x) (rr_status x) (rr_started_at x) (rr_finished_at x).

Record Handoff : Type := mkHandoff {
  h_id : string;
  h_task_id : string;
  h_from_role : Role;
  h_to_role : Role;
  h_created_at : string
}.
#[export] Instance Handoff_eta : EtaExpand Handoff := fun x =>
  mkHandoff (h_id x) (h_task_id x) (h_from_role x) (h_to_role x) (h_created_at x).

Record Finding : Type := mkFinding {
  f_id : string;
  f_task_id : string;
  f_severity : string;
  f_description : string;
  f_status : FindingStatus;
  f_created_at : string;
  f_resolved_at : option string;
  f_source_class : option string
}.
#[export] Instance Finding_eta : EtaExpand Finding := fun x =>
  mkFinding (f_id x) (f_task_id x) (f_severity x) (f_description x) (f_status x) (f_created_at x) (f_resolved_at x) (f_source_class x).

Record TestRun : Type := mkTestRun {
  ts_id : string;
  ts_task_id : string;
  ts_result : TestResult;
  ts_detail : option string;
  ts_created_at : string;
  ts_source_class : option string
}.
#[export] Instance TestRun_eta : EtaExpand TestRun := fun x =>
  mkTestRun (ts_id x) (ts_task_id x) (ts_result x) (ts_detail x) (ts_created_at x) (ts_source_class x).

Record Review : Type := mkReview {
  rv_id : string;
  rv_task_id : string;
  rv_verdict : string;
  rv_detail : option string;
  rv_created_at : string;
  rv_source_class : option string
}.
#[export] Instance Review_eta : EtaExpand Review := fun x =>
  mkReview (rv_id x) (rv_task_id x) (rv_verdict x) (rv_detail x) (rv_created_at x) (rv_source_class x).

Record Decision : Type := mkDecision {
  dc_id : string;
  dc_task_id : string;
  dc_decision : string;
  dc_detail : option string;
  dc_created_at : string
}.
#[export] Instance Decision_eta : EtaExpand Decision := fun x =>
  mkDecision (dc_id x) (dc_task_id x) (dc_decision x) (dc_detail x) (dc_created_at x).

Record OwnerApproval : Type := mkOwnerApproval {
  ap_id : string;
  ap_task_id : string;
  ap_action : string;
  ap_scope : string;
  ap_status : ApprovalStatus;
  ap_requested_by : string;
  ap_source_class : SourceClass;
  ap_created_at : string;
  ap_decided_at : option string;
  ap_consumed_at : option string;
  ap_expires_at : string;
  ap_binding_hash : option string;
  ap_approved_at : option string;
  ap_execution_id : option string;
  ap_executed_at : option string;
  ap_closed_at : option string
}.
#[export] Instance OwnerApproval_eta : EtaExpand OwnerApproval := fun x =>
  mkOwnerApproval (ap_id x) (ap_task_id x) (ap_action x) (ap_scope x) (ap_status x) (ap_requested_by x) (ap_source_class x) (ap_created_at x) (ap_decided_at x) (ap_consumed_at x) (ap_expires_at x) (ap_binding_hash x) (ap_approved_at x) (ap_execution_id x) (ap_executed_at x) (ap_closed_at x).

Record ActionExecution : Type := mkActionExecution {
  ex_id : string;
  ex_task_id : string;
  ex_approval_id : option string;
  ex_action : string;
  ex_scope : string;
  ex_actor_role : string;
  ex_status : ActionExecutionStatus;
  ex_created_at : string
}.
#[export] Instance ActionExecution_eta : EtaExpand ActionExecution := fun x =>
  mkActionExecution (ex_id x) (ex_task_id x) (ex_approval_id x) (ex_action x) (ex_scope x) (ex_actor_role x) (ex_status x) (ex_created_at x).

Record Event : Type := mkEvent {
  ev_id : string;
  ev_type : string;
  ev_task_id : option string;
  ev_role : option string;
  ev_state : option string;
  ev_payload : pydict;
  ev_created_at : string
}.
#[export] Instance Event_eta : EtaExpand Event := fun x =>
  mkEvent (ev_id x) (ev_type x) (ev_task_id x) (ev_role x) (ev_state x) (ev_payload x) (ev_created_at x).

Record AgentDispatch : Type := mkAgentDispatch {
  d_id : string;
  d_task_id : string;
  d_task_run_id : string;
  d_role : Role;
  d_parent_dispatch_id : option string;
  d_expected_agent_class : string;
  d_expected_model_class : string;
  d_expected_thinking_tier : string;
  d_child_session_id : option string;
  d_openclaw_run_id : option string;
  d_actual_provider : option string;
  d_actual_model : option string;
  d_thinking_tier : option string;
  d_status : DispatchStatus;
  d_cycle_no : Z;
  d_position : Z;
  d_sequence_kind : SequenceKind;
  d_attempt_no : Z;
  d_handoff_id : option string;
  d_result_json : option string;
  d_created_at : string;
  d_started_at : option string;
  d_consumed_at : option string;
  d_routing_decision_id : option string;
  d_escalation_level : Z;
  d_routing_reason_code : option string;
  d_attempt_outcome : option string
}.
#[export] Instance AgentDispatch_eta : EtaExpand AgentDispatch := fun x =>
  mkAgentDispatch (d_id x) (d_task_id x) (d_task_run_id x) (d_role x) (d_parent_dispatch_id x) (d_expected_agent_class x) (d_expected_model_class x) (d_expected_thinking_tier x) (d_child_session_id x) (d_openclaw_run_id x) (d_actual_provider x) (d_actual_model x) (d_thinking_tier x) (d_status x) (d_cycle_no x) (d_position x) (d_sequence_kind x) (d_attempt_no x) (d_handoff_id x) (d_result_json x) (d_created_at x) (d_started_at x) (d_consumed_at x) (d_routing_decision_id x) (d_escalation_level x) (d_routing_reason_code x) (d_attempt_outcome x).

Record AgentResultQuarantine : Type := mkAgentResultQuarantine {
  q_id : string;
  q_task_id : option string;
  q_dispatch_id : option string;
  q_reason : string;
  q_event_meta_json : string;
  q_created_at : string
}.
#[export] Instance AgentResultQuarantine_eta : EtaExpand AgentResultQuarantine := fun x =>
  mkAgentResultQuarantine (q_id x) (q_task_id x) (q_dispatch_id x) (q_reason x) (q_event_meta_json x) (q_created_at x).

Record AgentContextSnapshot : Type := mkAgentContextSnapshot {
  cs_dispatch_id : string;
  cs_role : Role;
  cs_position : Z;
  cs_context_hash : string;
  cs_context_summary_json : string;
  cs_created_at : string
}.
#[export] Instance AgentContextSnapshot_eta : EtaExpand AgentContextSnapshot := fun x =>
  mkAgentContextSnapshot (cs_dispatch_id x) (cs_role x) (cs_position x) (cs_context_hash x) (cs_context_summary_json x) (cs_created_at x).

(** Provenance markers of routing-relevant evidence rows. *)
Definition SOURCE_CLASS_CONTROLLER : string := "controller".
Definition SOURCE_CLASS_AGENT : string := "agent".
