(* ===== verification/Json.v ===== *)
(** * Json: the parts of Python's [json] module the core relies on

    [json_dumps] is [json.dumps(value, sort_keys=True)] with the default
    separators and [ensure_ascii]; [json_loads] is [json.loads].  A value that
    cannot be serialised (a non-JSON object, or a dict mixing string and
    integer keys, which cannot be sorted) is a [TypeError]; a malformed
    document is a [ValueError] ([json.JSONDecodeError]).  Escapes beyond
    U+00FF have no image in 8-bit strings and are refused; a decimal literal is
    kept exactly (the rounding to a double is not modelled). *)
From S2P Require Import Prelude PyVal Models.
From Stdlib Require Import DecimalString DecimalZ.

(** ** Characters that cannot be written in a literal *)
Definition ch (n : N) : string := String (ascii_of_N n) EmptyString.
Definition DQ : string := ch 34.
Definition BSL : string := ch 92.

(** ** Serialisation *)
Definition hex_digit (n : N) : ascii :=
  ascii_of_N (if (n <? 10)%N then 48 + n else 87 + n).
Definition esc_char (c : ascii) : string :=
  let n := N_of_ascii c in
  if (n =? 34)%N then (BSL ++ DQ)%string
  else if (n =? 92)%N then (BSL ++ BSL)%string
  else if (n =? 10)%N then (BSL ++ "n")%string
  else if (n =? 13)%N then (BSL ++ "r")%string
  else if (n =? 9)%N then (BSL ++ "t")%string
  else if (n =? 12)%N then (BSL ++ "f")%string
  else if (n =? 8)%N then (BSL ++ "b")%string
  else if (32 <=? n)%N && (n <=? 126)%N then String c EmptyString
  else (BSL ++ "u00" ++ String (hex_digit (n / 16)) (String (hex_digit (n mod 16)) EmptyString))%string.
Fixpoint esc (s : string) : string :=
  match s with
  | EmptyString => EmptyString
  | String c s' => (esc_char c ++ esc s')%string
  end.
Definition quote (s : string) : string := (DQ ++ esc s ++ DQ)%string.

Definition z_text (z : Z) : string := NilZero.string_of_int (Z.to_int z).

Fixpoint zeros (n : nat) : string :=
  match n with O => EmptyString | S k => String "0" (zeros k) end.

(** [repr] of a float: positional between 1e-4 and 1e16, else scientific. *)
Definition float_text (f : pyfloat) : string :=
  match f with
  | FNan => "NaN"
  | FInf neg => if neg then "-Infinity" else "Infinity"
  | FDec neg m e =>
      let ds := z_text (Z.of_N m) in
      let n := Z.of_nat (String.length ds) in
      let dot := (n + e)%Z in
      let sub (a b : Z) := String.substring (Z.to_nat a) (Z.to_nat b) ds in
      let body :=
        if (m =? 0)%N then "0.0"%string
        else if (-4 <? dot)%Z && (dot <=? 16)%Z then
          if (dot <=? 0)%Z then ("0." ++ zeros (Z.to_nat (- dot)) ++ ds)%string
          else if (dot <? n)%Z then (sub 0%Z dot ++ "." ++ sub dot (n - dot)%Z)%string
          else (ds ++ zeros (Z.to_nat (dot - n)) ++ ".0")%string
        else
          let x := (dot - 1)%Z in
          let sgn := if (x <? 0)%Z then "-"%string else "+"%string in
          let xs := z_text (Z.abs x) in
          let xs := if (Z.abs x <? 10)%Z then ("0" ++ xs)%string else xs in
          let mant := if (n =? 1)%Z then ds else (sub 0%Z 1%Z ++ "." ++ sub 1%Z (n - 1)%Z)%string in
          (mant ++ "e" ++ sgn ++ xs)%string
      in if neg then ("-" ++ body)%string else body
  end.

Fixpoint join (sep : string) (l : list string) : string :=
  match l with
  | [] => EmptyString
  | [x] => x
  | x :: l' => (x ++ sep ++ join sep l')%string
  end.

(** The sort of [sort_keys]: a stable insertion sort on the keys. *)
Definition key_leb (a b : pykey) : bool :=
  match a, b with
  | KStr x, KStr y => String.leb x y
  | KInt x, KInt y => Z.leb x y
  | KInt _, KStr _ => true
  | KStr _, KInt _ => false
  end.
Fixpoint insert_item {A} (x : pykey * A) (l : list (pykey * A)) : list (pykey * A) :=
  match l with
  | [] => [x]
  | y :: l' => if key_leb (fst x) (fst y) then x :: l else y :: insert_item x l'
  end.
Definition sort_items {A} (l : list (pykey * A)) : list (pykey * A) :=
  fold_right insert_item [] l.

Definition key_text (k : pykey) : string :=
  match k with KStr s => quote s | KInt z => (DQ ++ z_text z ++ DQ)%string end.
Definition item_text (kt : pykey * string) : string :=
  (key_text (fst kt) ++ ": " ++ snd kt)%string.

Fixpoint enc (v : pyval) : string :=
  match v with
  | PNone => "null"
  | PBool b => if b then "true" else "false"
  | PInt z => z_text z
  | PFloat f => float_text f
  | PStr s => quote s
  | PList l => ("[" ++ join ", " (map enc l) ++ "]")%string
  | PTuple l => ("[" ++ join ", " (map enc l) ++ "]")%string
  | PDict d =>
      ("{" ++ join ", " (map item_text (sort_items (map (fun kv => (fst kv, enc (snd kv))) d)))
           ++ "}")%string
  | PObj text => quote text
  end.

Definition is_kstr (k : pykey) : bool := match k with KStr _ => true | KInt _ => false end.
Definition uniform_keys (d : pydict) : bool :=
  forallb (fun kv => is_kstr (fst kv)) d || forallb (fun kv => negb (is_kstr (fst kv))) d.
Fixpoint serializable (v : pyval) : bool :=
  match v with
  | PObj _ => false
  | PList l => forallb serializable l
  | PTuple l => forallb serializable l
  | PDict d => uniform_keys d && forallb (fun kv => serializable (snd kv)) d
  | _ => true
  end.

Definition json_dumps (v : pyval) : res exc string :=
  if serializable v then Ok (enc v) else Err TypeError.

(** [json.dumps(value, sort_keys=True, default=str)]: other objects are written
    as their [str()] text, only unsortable keys are refused. *)
Fixpoint sortable (v : pyval) : bool :=
  match v with
  | PList l => forallb sortable l
  | PTuple l => forallb sortable l
  | PDict d => uniform_keys d && forallb (fun kv => sortable (snd kv)) d
  | _ => true
  end.
Definition json_dumps_default_str (v : pyval) : res exc string :=
  if sortable v then Ok (enc v) else Err TypeError.

(** ** [str(value)] *)
Definition printable (c : ascii) : bool :=
  let n := N_of_ascii c in
  ((32 <=? n) && (n <=? 126) || (161 <=? n) && negb (n =? 173))%N.
Definition repr_char (q : N) (c : ascii) : string :=
  let n := N_of_ascii c in
  if (n =? q)%N || (n =? 92)%N then (BSL ++ String c EmptyString)%string
  else if (n =? 10)%N then (BSL ++ "n")%string
  else if (n =? 13)%N then (BSL ++ "r")%string
  else if (n =? 9)%N then (BSL ++ "t")%string
  else if printable c then String c EmptyString
  else (BSL ++ "x" ++ String (hex_digit (n / 16)) (String (hex_digit (n mod 16)) EmptyString))%string.
Definition has_char (q : N) (s : string) : bool :=
  existsb (fun c => (N_of_ascii c =? q)%N) (list_ascii_of_string s).
(** Single quotes, unless the text has one and no double quote. *)
Definition repr_str (s : string) : string :=
  let q := if has_char 39 s && negb (has_char 34 s) then 34%N else 39%N in
  (ch q ++ String.concat EmptyString (map (repr_char q) (list_ascii_of_string s)) ++ ch q)%string.
Definition repr_float (f : pyfloat) : string :=
  match f with
  | FNan => "nan"
  | FInf neg => if neg then "-inf" else "inf"
  | _ => float_text f
  end.
Fixpoint repr (v : pyval) : string :=
  match v with
  | PNone => "None"
  | PBool b => if b then "True" else "False"
  | PInt z => z_text z
  | PFloat f => repr_float f
  | PStr s => repr_str s
  | PList l => ("[" ++ join ", " (map repr l) ++ "]")%string
  | PTuple [x] => ("(" ++ repr x ++ ",)")%string
  | PTuple l => ("(" ++ join ", " (map repr l) ++ ")")%string
  | PDict d => ("{" ++ join ", " (map (fun kv =>
      ((match fst kv with KStr s => repr_str s | KInt z => z_text z end) ++ ": " ++ repr (snd kv))%string) d)
      ++ "}")%string
  | PObj text => text
  end.
Definition py_str (v : pyval) : string :=
  match v with PStr s => s | _ => repr v end.

(** ** Parsing *)
Definition code (c : ascii) : N := N_of_ascii c.
Definition is_json_ws (c : ascii) : bool :=
  let n := code c in (n =? 32)%N || (n =? 9)%N || (n =? 10)%N || (n =? 13)%N.
Fixpoint skip_ws (s : string) : string :=
  match s with
  | String c s' => if is_json_ws c then skip_ws s' else s
  | EmptyString => EmptyString
  end.
Definition is_digit (c : ascii) : bool := (48 <=? code c)%N && (code c <=? 57)%N.
Definition hex_val (c : ascii) : option N :=
  let n := code c in
  if is_digit c then Some (n - 48)%N
  else if (97 <=? n)%N && (n <=? 102)%N then Some (n - 87)%N
  else if (65 <=? n)%N && (n <=? 70)%N then Some (n - 55)%N
  else None.
Definition hex2 (a b : ascii) : option N :=
  match hex_val a, hex_val b with
  | Some x, Some y => Some (16 * x + y)%N
  | _, _ => None
  end.
Definition unescape1 (c : ascii) : option ascii :=
  let n := code c in
  if (n =? 34)%N || (n =? 92)%N || (n =? 47)%N then Some c
  else if (n =? 110)%N then Some (ascii_of_N 10)
  else if (n =? 114)%N then Some (ascii_of_N 13)
  else if (n =? 116)%N then Some (ascii_of_N 9)
  else if (n =? 102)%N then Some (ascii_of_N 12)
  else if (n =? 98)%N then Some (ascii_of_N 8)
  else None.

(** The body of a string literal after its opening quote. *)
Fixpoint parse_str (s : string) : option (string * string) :=
  match s with
  | EmptyString => None
  | String c s1 =>
      if (code c =? 34)%N then Some (EmptyString, s1)
      else if (code c =? 92)%N then
        match s1 with
        | String u s2 =>
            if (code u =? 117)%N then
              match s2 with
              | String "0" (String "0" (String a (String b s3))) =>
                  match hex2 a b, parse_str s3 with
                  | Some n, Some (t, rest) => Some (String (ascii_of_N n) t, rest)
                  | _, _ => None
                  end
              | _ => None
              end
            else match unescape1 u, parse_str s2 with
                 | Some x, Some (t, rest) => Some (String x t, rest)
                 | _, _ => None
                 end
        | EmptyString => None
        end
      else if (code c <? 32)%N then None
      else match parse_str s1 with
           | Some (t, rest) => Some (String c t, rest)
           | None => None
           end
  end.

Fixpoint span_digits (s : string) : string * string :=
  match s with
  | String c s' =>
      if is_digit c then let (a, b) := span_digits s' in (String c a, b)
      else (EmptyString, s)
  | EmptyString => (EmptyString, EmptyString)
  end.
Definition digits_val (ds : string) : N :=
  fold_left (fun acc c => 10 * acc + (code c - 48))%N (list_ascii_of_string ds) 0%N.

(** A decimal in normal form: no trailing zero in the mantissa. *)
Fixpoint normalise (fuel : nat) (m : N) (e : Z) : N * Z :=
  match fuel with
  | O => (m, e)
  | S k => if (m =? 0)%N then (0%N, 0%Z)
           else if (m mod 10 =? 0)%N then normalise k (m / 10)%N (e + 1)%Z else (m, e)
  end.
Definition mk_float (neg : bool) (ip fp : string) (e : Z) : pyval :=
  let ds := (ip ++ fp)%string in
  let (m, e') := normalise (S (String.length ds)) (digits_val ds)
                           (e - Z.of_nat (String.length fp))%Z in
  PFloat (FDec neg m e').

Definition parse_exp (s : string) : option (Z * string) :=
  match s with
  | String c s' =>
      if (code c =? 101)%N || (code c =? 69)%N then
        let '(neg, s2) := match s' with
                         | String "-" r => (true, r)
                         | String "+" r => (false, r)
                         | _ => (false, s')
                         end in
        match span_digits s2 with
        | (EmptyString, _) => None
        | (ds, rest) =>
            Some ((if neg then - Z.of_N (digits_val ds) else Z.of_N (digits_val ds))%Z, rest)
        end
      else None
  | EmptyString => None
  end.

(** The number grammar of JSON (integer part, fraction, exponent) after the sign. *)
Definition parse_num (neg : bool) (s : string) : option (pyval * string) :=
  let '(ip, s1) := match s with
                  | String "0" r => ("0"%string, r)
                  | _ => span_digits s
                  end in
  match ip with
  | EmptyString => None
  | _ =>
      let '(fp, s2) := match s1 with
                      | String "." r =>
                          match span_digits r with
                          | (EmptyString, _) => (EmptyString, s1)
                          | (ds, rest) => (ds, rest)
                          end
                      | _ => (EmptyString, s1)
                      end in
      match parse_exp s2 with
      | Some (e, s3) => Some (mk_float neg ip fp e, s3)
      | None =>
          match fp with
          | EmptyString =>
              let n := Z.of_N (digits_val ip) in
              Some (PInt (if neg then - n else n)%Z, s2)
          | _ => Some (mk_float neg ip fp 0, s2)
          end
      end
  end.

Definition strip_word (w s : string) : option string :=
  if String.prefix w s then Some (String.substring (String.length w) (String.length s) s) else None.

(** Python's [dict(pairs)]: a repeated key keeps its first position and takes
    its last value. *)
Fixpoint dict_set (k : pykey) (v : pyval) (d : pydict) : pydict :=
  match d with
  | [] => [(k, v)]
  | (k', v') :: d' => if key_eqb k k' then (k, v) :: d' else (k', v') :: dict_set k v d'
  end.

Fixpoint parse_value (fuel : nat) (s : string) : option (pyval * string) :=
  match fuel with
  | O => None
  | S k =>
      match s with
      | EmptyString => None
      | String c r =>
          if (code c =? 34)%N then
            match parse_str r with Some (t, rest) => Some (PStr t, rest) | None => None end
          else if (code c =? 91)%N then
            match skip_ws r with
            | String "]" rest => Some (PList [], rest)
            | r1 => match parse_elems k r1 with
                    | Some (l, rest) => Some (PList l, rest)
                    | None => None
                    end
            end
          else if (code c =? 123)%N then
            match skip_ws r with
            | String "}" rest => Some (PDict [], rest)
            | r1 => match parse_items k r1 [] with
                    | Some (d, rest) => Some (PDict d, rest)
                    | None => None
                    end
            end
          else match strip_word "null" s with
               | Some rest => Some (PNone, rest)
               | None =>
          match strip_word "true" s with
               | Some rest => Some (PBool true, rest)
               | None =>
          match strip_word "false" s with
               | Some rest => Some (PBool false, rest)
               | None =>
          match strip_word "NaN" s with
               | Some rest => Some (PFloat FNan, rest)
               | None =>
          match strip_word "Infinity" s with
               | Some rest => Some (PFloat (FInf false), rest)
               | None =>
          match strip_word "-Infinity" s with
               | Some rest => Some (PFloat (FInf true), rest)
               | None => if (code c =? 45)%N then parse_num true r else parse_num false s
               end end end end end end
      end
  end
with parse_elems (fuel : nat) (s : string) : option (list pyval * string) :=
  match fuel with
  | O => None
  | S k =>
      match parse_value k s with
      | None => None
      | Some (v, s1) =>
          match skip_ws s1 with
          | String "]" rest => Some ([v], rest)
          | String "," rest =>
              match parse_elems k (skip_ws rest) with
              | Some (l, rest') => Some (v :: l, rest')
              | None => None
              end
          | _ => None
          end
      end
  end
with parse_items (fuel : nat) (s : string) (acc : pydict) : option (pydict * string) :=
  match fuel with
  | O => None
  | S k =>
      match s with
      | String c r =>
          if (code c =? 34)%N then
            match parse_str r with
            | None => None
            | Some (key, s1) =>
                match skip_ws s1 with
                | String ":" s2 =>
                    match parse_value k (skip_ws s2) with
                    | None => None
                    | Some (v, s3) =>
                        let acc' := dict_set (KStr key) v acc in
                        match skip_ws s3 with
                        | String "}" rest => Some (acc', rest)
                        | String "," rest => parse_items k (skip_ws rest) acc'
                        | _ => None
                        end
                    end
                | _ => None
                end
            end
          else None
      | EmptyString => None
      end
  end.

Definition json_loads (s : string) : res exc pyval :=
  match parse_value (3 * S (String.length s)) (skip_ws s) with
  | Some (v, rest) =>
      match skip_ws rest with EmptyString => Ok v | _ => Err ValueError end
  | None => Err ValueError
  end.


(** ** String literals round trip *)
Lemma parse_str_char c t u rest :
  parse_str t = Some (u, rest) ->
  parse_str (esc_char c ++ t)%string = Some (String c u, rest).
Proof.
  intros H.
  transitivity (match parse_str t with
                | Some (x, r) => Some (String c x, r) | None => None end); [|by rewrite H].
  clear H. by destruct c as [[] [] [] [] [] [] [] []].
Qed.

Lemma string_app_assoc a b c : ((a ++ b) ++ c = a ++ (b ++ c))%string.
Proof. induction a as [|x a IH]; cbn; congruence. Qed.
Lemma string_app_nil_r a : (a ++ EmptyString = a)%string.
Proof. induction a as [|x a IH]; cbn; congruence. Qed.

Lemma string_app_inj p x y : (p ++ x = p ++ y)%string -> x = y.
Proof. induction p as [|c p IH]; cbn; [done | intros [=]; auto]. Qed.

Lemma parse_str_esc s rest : parse_str (esc s ++ DQ ++ rest)%string = Some (s, rest).
Proof.
  induction s as [|c s IH]; [done|].
  cbn [esc]. rewrite string_app_assoc. by apply parse_str_char.
Qed.

(** A quoted literal determines its string and what follows it. *)
Lemma quote_app_inj a b x y :
  (quote a ++ x = quote b ++ y)%string -> a = b /\ x = y.
Proof.
  unfold quote. rewrite !string_app_assoc. intros E.
  injection E as E. pose proof (parse_str_esc a x) as P.
  cbn in P, E. rewrite E in P. pose proof (parse_str_esc b y) as Q. cbn in Q.
  rewrite Q in P. by injection P.
Qed.
