(* ===== verification/Timestamps.v ===== *)
(** * Timestamps: UTC datetimes and their ISO text
    ([_format_dt], [now_iso] and [expiry_iso] of src/argent_core/store.py).

    A [datetime] is its wall time in microseconds since 0001-01-01T00:00:00 and
    its UTC offset; [isoformat] follows CPython (proleptic Gregorian calendar,
    the fraction is omitted when it is zero).  Persisted timestamps are compared
    as strings, by SQLite and by Python: the main lemma shows that this is the
    chronological order. *)
From S2P Require Import Prelude.
#[local] Open Scope Z_scope.

Record datetime : Type := mkDatetime {
  dt_wall : Z;               (* microseconds since 0001-01-01T00:00:00 *)
  dt_offset : option Z       (* utcoffset in microseconds; None is naive *)
}.

Definition MAX_DAYS : Z := 3652059.
Definition US_PER_SECOND : Z := 1000000.
Definition US_PER_DAY : Z := 86400 * US_PER_SECOND.
Definition MAX_US : Z := MAX_DAYS * US_PER_DAY.
Definition in_range (us : Z) : bool := (0 <=? us) && (us <? MAX_US).

(** [dt.astimezone(timezone.utc)], naive times taken as UTC. *)
Definition to_utc (dt : datetime) : Z :=
  match dt_offset dt with None => dt_wall dt | Some off => dt_wall dt - off end.

(** ** The calendar, as CPython's [_ord2ymd] computes it (0-based day number) *)
Definition is_leap (y : Z) : bool :=
  (y mod 4 =? 0) && (negb (y mod 100 =? 0) || (y mod 400 =? 0)).
Definition days_before_year (y : Z) : Z :=
  let p := y - 1 in p * 365 + p / 4 - p / 100 + p / 400.
Definition days_before_month_table : list Z :=
  [0; 0; 31; 59; 90; 120; 151; 181; 212; 243; 273; 304; 334].
Definition days_before_month (leap : bool) (m : Z) : Z :=
  nth (Z.to_nat m) days_before_month_table 0 + (if (2 <? m) && leap then 1 else 0).

(** Month and day of the [n]-th day of a year: an estimate, corrected down. *)
Definition month_day (leap : bool) (n : Z) : Z * Z :=
  let m := (n + 50) / 32 in
  let p := days_before_month leap m in
  if n <? p then (m - 1, n - days_before_month leap (m - 1) + 1) else (m, n - p + 1).

(** Position inside a 400-year cycle: year and day of the year. *)
Definition cycle_yd (n : Z) : Z * Z :=
  let n100 := n / 36524 in
  let n := n mod 36524 in
  let n4 := n / 1461 in
  let n := n mod 1461 in
  let n1 := n / 365 in
  let n := n mod 365 in
  let y := n100 * 100 + n4 * 4 + n1 + 1 in
  if (n1 =? 4) || (n100 =? 4) then (y - 1, 365) else (y, n).
Definition cycle_ymd (n : Z) : Z * Z * Z :=
  let '(y, r) := cycle_yd n in
  let '(m, d) := month_day (is_leap y) r in (y, m, d).
Definition days2ymd (days : Z) : Z * Z * Z :=
  let '(y, m, d) := cycle_ymd (days mod 146097) in (y + 400 * (days / 146097), m, d).

(** ** Text *)
Definition digit (n : Z) : ascii := ascii_of_N (Z.to_N (48 + n)).
Fixpoint pad (width : nat) (n : Z) : string :=
  match width with
  | O => EmptyString
  | S w => String (digit (n / 10 ^ Z.of_nat w)) (pad w (n mod 10 ^ Z.of_nat w))
  end.

Definition fraction (us : Z) : string :=
  if us =? 0 then EmptyString else ("." ++ pad 6 us)%string.
Definition iso_time (us : Z) : string :=
  let s := us / US_PER_SECOND in
  (pad 2 (s / 3600) ++ ":" ++ pad 2 (s / 60 mod 60) ++ ":" ++ pad 2 (s mod 60)
     ++ fraction (us mod US_PER_SECOND) ++ "+00:00")%string.
Definition iso_date (ymd : Z * Z * Z) : string :=
  let '(y, m, d) := ymd in (pad 4 y ++ "-" ++ pad 2 m ++ "-" ++ pad 2 d)%string.
Definition iso_utc (us : Z) : string :=
  (iso_date (days2ymd (us / US_PER_DAY)) ++ "T" ++ iso_time (us mod US_PER_DAY))%string.

Definition _format_dt (dt : datetime) : string := iso_utc (to_utc dt).

Example iso_epoch : iso_utc (719162 * US_PER_DAY) = "1970-01-01T00:00:00+00:00"%string.
Proof. by vm_compute. Qed.
Example iso_leap :
  iso_utc (738944 * US_PER_DAY + 86399 * US_PER_SECOND + 5) = "2024-02-29T23:59:59.000005+00:00"%string.
Proof. by vm_compute. Qed.

(** ** Order of the text *)
(** [a <= b] and [a < b] on strings. *)
Definition str_leb (a b : string) : bool :=
  match String.compare a b with Gt => false | _ => true end.
Definition str_ltb (a b : string) : bool :=
  match String.compare a b with Lt => true | _ => false end.

Lemma str_ltb_leb a b : str_ltb a b = negb (str_leb b a).
Proof.
  unfold str_ltb, str_leb. rewrite String.compare_antisym. by destruct (String.compare b a).
Qed.

Definition lex (c d : comparison) : comparison := match c with Eq => d | _ => c end.

Lemma compare_app_head p x y : String.compare (p ++ x) (p ++ y) = String.compare x y.
Proof.
  induction p as [|c p IH]; cbn; [done|].
  unfold Ascii.compare. by rewrite N.compare_refl.
Qed.

Lemma digit_compare a b : 0 <= a < 10 -> 0 <= b < 10 ->
  Ascii.compare (digit a) (digit b) = Z.compare a b.
Proof.
  intros Ha Hb. unfold Ascii.compare, digit. rewrite !N_ascii_embedding by lia.
  rewrite Z2N.inj_compare by lia. apply Z.add_compare_mono_l.
Qed.

Lemma pad_compare w a b x y :
  0 <= a < 10 ^ Z.of_nat w -> 0 <= b < 10 ^ Z.of_nat w ->
  String.compare (pad w a ++ x) (pad w b ++ y) = lex (Z.compare a b) (String.compare x y).
Proof.
  revert a b. induction w as [|w IH]; intros a b Ha Hb.
  - cbn in *. replace a with 0 by lia. by replace b with 0 by lia.
  - rewrite Nat2Z.inj_succ, Z.pow_succ_r in Ha, Hb by lia.
    set (p := 10 ^ Z.of_nat w) in *. assert (P : 0 < p) by (apply Z.pow_pos_nonneg; lia).
    pose proof (Z.div_mod a p ltac:(lia)) as Da. pose proof (Z.div_mod b p ltac:(lia)) as Db.
    pose proof (Z.mod_pos_bound a p P) as Ma. pose proof (Z.mod_pos_bound b p P) as Mb.
    assert (Qa : 0 <= a / p < 10) by (split; [apply Z.div_pos; lia | apply Z.div_lt_upper_bound; lia]).
    assert (Qb : 0 <= b / p < 10) by (split; [apply Z.div_pos; lia | apply Z.div_lt_upper_bound; lia]).
    cbn [pad String.append String.compare]. fold p. rewrite digit_compare by done.
    rewrite (IH (a mod p) (b mod p)) by done.
    destruct (Z.compare_spec (a / p) (b / p)) as [E|L|G].
    + f_equal. symmetry. rewrite Da, Db at 1. rewrite E. apply Z.add_compare_mono_l.
    + assert (Z.compare a b = Lt) as -> by (apply Z.compare_lt_iff; nia). done.
    + assert (Z.compare a b = Gt) as -> by (apply Z.compare_gt_iff; nia). done.
Qed.

(** ** The calendar is monotone *)
Definition ymd_compare (a b : Z * Z * Z) : comparison :=
  let '(y, m, d) := a in
  let '(y', m', d') := b in
  lex (Z.compare y y') (lex (Z.compare m m') (Z.compare d d')).

Lemma lex_lt c d : lex c d = Lt <-> c = Lt \/ (c = Eq /\ d = Lt).
Proof. destruct c; cbn; intuition congruence. Qed.

Definition year_length (y : Z) : Z := if is_leap y then 366 else 365.
Lemma days_before_year_succ y : days_before_year (y + 1) = days_before_year y + year_length y.
Proof.
  unfold days_before_year, year_length, is_leap.
  destruct (Z.eqb_spec (y mod 4) 0), (Z.eqb_spec (y mod 100) 0), (Z.eqb_spec (y mod 400) 0);
    cbn [andb orb negb]; Z.to_euclidean_division_equations; lia.
Qed.
Lemma days_before_year_le y y' : y <= y' -> days_before_year y <= days_before_year y'.
Proof.
  intros H. replace y' with (y + Z.of_nat (Z.to_nat (y' - y))) by lia.
  generalize (Z.to_nat (y' - y)) as k. clear H. induction k as [|k IH].
  - by rewrite Z.add_0_r.
  - replace (y + Z.of_nat (S k)) with (y + Z.of_nat k + 1) by lia.
    rewrite days_before_year_succ. unfold year_length. destruct (is_leap _); lia.
Qed.

(** A day of the cycle is a day of its year. *)
Lemma cycle_yd_spec n : 0 <= n < 146097 ->
  let '(y, r) := cycle_yd n in
  1 <= y <= 400 /\ 0 <= r < year_length y /\ n = days_before_year y + r.
Proof.
  intros H. unfold cycle_yd.
  destruct ((n mod 36524 mod 1461 / 365 =? 4) || (n / 36524 =? 4)) eqn:S; cbv beta iota.
  - rewrite orb_true_iff, !Z.eqb_eq in S.
    set (y := n / 36524 * 100 + n mod 36524 / 1461 * 4 + n mod 36524 mod 1461 / 365 + 1 - 1).
    assert (E : (y mod 4 = 0 /\ (y mod 100 <> 0 \/ y mod 400 = 0)) /\ 1 <= y <= 400
                /\ n = days_before_year y + 365)
      by (subst y; unfold days_before_year; Z.to_euclidean_division_equations; lia).
    destruct E as [[E4 E100] [R E]].
    assert (L : is_leap y = true).
    { unfold is_leap. rewrite andb_true_iff, orb_true_iff, negb_true_iff, !Z.eqb_eq, Z.eqb_neq.
      tauto. }
    unfold year_length. rewrite L. lia.
  - rewrite orb_false_iff, !Z.eqb_neq in S.
    set (y := n / 36524 * 100 + n mod 36524 / 1461 * 4 + n mod 36524 mod 1461 / 365 + 1).
    assert (E : 1 <= y <= 400 /\ n = days_before_year y + n mod 36524 mod 1461 mod 365)
      by (subst y; unfold days_before_year; Z.to_euclidean_division_equations; lia).
    destruct E as [R E]. split; [done|]. split; [|done].
    pose proof (Z.mod_pos_bound (n mod 36524 mod 1461) 365 ltac:(lia)).
    unfold year_length. destruct (is_leap y); lia.
Qed.

Fixpoint all_below (k : nat) (f : Z -> bool) : bool :=
  match k with O => true | S k => f (Z.of_nat k) && all_below k f end.
Lemma all_below_spec k f i : all_below k f = true -> 0 <= i < Z.of_nat k -> f i = true.
Proof.
  induction k as [|k IH]; [lia|]. cbn [all_below]. rewrite andb_true_iff. intros [H0 H] Hi.
  destruct (Z.eq_dec i (Z.of_nat k)) as [->|N]; [done | apply IH; [done | lia]].
Qed.

Definition md_key (md : Z * Z) : Z := let '(m, d) := md in 100 * m + d.
Definition md_ok (leap : bool) (r : Z) : bool :=
  let '(m, d) := month_day leap r in
  (1 <=? m) && (m <=? 12) && (1 <=? d) && (d <=? 31)
  && ((r =? 0) || (md_key (month_day leap (r - 1)) <? md_key (m, d))).
Lemma month_days_checked : all_below 366 (md_ok true) && all_below 365 (md_ok false) = true.
Proof. by vm_compute. Qed.

Lemma month_day_ok (leap : bool) r : 0 <= r < (if leap then 366 else 365) -> md_ok leap r = true.
Proof.
  intros H. pose proof month_days_checked as C. apply andb_true_iff in C as [C1 C2].
  destruct leap; [exact (all_below_spec _ _ _ C1 H) | exact (all_below_spec _ _ _ C2 H)].
Qed.
Lemma month_day_range (leap : bool) r : 0 <= r < (if leap then 366 else 365) ->
  let '(m, d) := month_day leap r in 1 <= m <= 12 /\ 1 <= d <= 31.
Proof.
  intros H. apply month_day_ok in H. unfold md_ok in H.
  destruct (month_day leap r) as [m d]. rewrite !andb_true_iff, !Z.leb_le in H. lia.
Qed.
Lemma month_day_key (leap : bool) r r' : 0 <= r -> r < r' < (if leap then 366 else 365) ->
  md_key (month_day leap r) < md_key (month_day leap r').
Proof.
  intros H0 H. replace r' with (r + 1 + Z.of_nat (Z.to_nat (r' - r - 1))) in * by lia.
  revert H. generalize (Z.to_nat (r' - r - 1)) as k.
  assert (St : forall q, 0 < q < (if leap then 366 else 365) ->
            md_key (month_day leap (q - 1)) < md_key (month_day leap q)).
  { intros q Hq. assert (O : md_ok leap q = true) by (apply month_day_ok; lia).
    unfold md_ok in O. destruct (month_day leap q) as [m d] eqn:E.
    rewrite !andb_true_iff, orb_true_iff, Z.eqb_eq, Z.ltb_lt in O. lia. }
  induction k as [|k IH]; intros H.
  - pose proof (St (r + 1)) as S1. rewrite Z.add_0_r in *.
    replace (r + 1 - 1) with r in S1 by lia. apply S1. lia.
  - pose proof (St (r + 1 + Z.of_nat (S k))) as S1.
    replace (r + 1 + Z.of_nat (S k) - 1) with (r + 1 + Z.of_nat k) in S1 by lia.
    assert (md_key (month_day leap r) < md_key (month_day leap (r + 1 + Z.of_nat k))) by (apply IH; lia).
    lia.
Qed.

Lemma cycle_ymd_range n : 0 <= n < 146097 ->
  let '(y, m, d) := cycle_ymd n in 1 <= y <= 400 /\ 1 <= m <= 12 /\ 1 <= d <= 31.
Proof.
  intros H. pose proof (cycle_yd_spec n H) as S. unfold cycle_ymd.
  destruct (cycle_yd n) as [y r]. destruct S as (Y & R & _).
  pose proof (month_day_range (is_leap y) r R) as M. by destruct (month_day _ _).
Qed.

Lemma cycle_monotone i j : 0 <= i -> i < j < 146097 ->
  ymd_compare (cycle_ymd i) (cycle_ymd j) = Lt.
Proof.
  intros Hi Hj. pose proof (cycle_yd_spec i ltac:(lia)) as Si.
  pose proof (cycle_yd_spec j ltac:(lia)) as Sj. unfold cycle_ymd.
  destruct (cycle_yd i) as [y r], (cycle_yd j) as [y' r'].
  destruct Si as (Y & R & Ei), Sj as (Y' & R' & Ej).
  pose proof (month_day_range (is_leap y) r R) as Mi.
  pose proof (month_day_range (is_leap y') r' R') as Mj.
  destruct (Z.lt_trichotomy y y') as [L|[E|G]].
  - destruct (month_day (is_leap y) r), (month_day (is_leap y') r'). cbn.
    apply lex_lt. left. by apply Z.compare_lt_iff.
  - subst y'. pose proof (month_day_key (is_leap y) r r' ltac:(lia)) as K.
    specialize (K ltac:(unfold year_length in R'; lia)).
    destruct (month_day (is_leap y) r), (month_day (is_leap y) r'). cbn in *.
    rewrite !lex_lt, !Z.compare_lt_iff, !Z.compare_eq_iff. lia.
  - exfalso. pose proof (days_before_year_succ y'). pose proof (days_before_year_le (y' + 1) y ltac:(lia)). lia.
Qed.

Lemma days2ymd_monotone a b : 0 <= a < b -> ymd_compare (days2ymd a) (days2ymd b) = Lt.
Proof.
  intros H. unfold days2ymd.
  pose proof (Z.div_mod a 146097 ltac:(lia)) as Da. pose proof (Z.div_mod b 146097 ltac:(lia)) as Db.
  pose proof (Z.mod_pos_bound a 146097 ltac:(lia)) as Ma.
  pose proof (Z.mod_pos_bound b 146097 ltac:(lia)) as Mb.
  pose proof (cycle_ymd_range _ Ma) as Oa. pose proof (cycle_ymd_range _ Mb) as Ob.
  destruct (Z.lt_trichotomy (a / 146097) (b / 146097)) as [L|[E|G]]; [| |lia].
  - destruct (cycle_ymd (a mod 146097)) as [[y m] d], (cycle_ymd (b mod 146097)) as [[y' m'] d'].
    cbn. apply lex_lt. left. apply Z.compare_lt_iff. lia.
  - assert (M : ymd_compare (cycle_ymd (a mod 146097)) (cycle_ymd (b mod 146097)) = Lt)
      by (apply cycle_monotone; lia).
    rewrite E. destruct (cycle_ymd (a mod 146097)) as [[y m] d], (cycle_ymd (b mod 146097)) as [[y' m'] d'].
    cbn in M |- *. rewrite lex_lt, Z.compare_lt_iff, Z.compare_eq_iff in M |- *. intuition lia.
Qed.

Lemma days2ymd_range a : 0 <= a < MAX_DAYS ->
  let '(y, m, d) := days2ymd a in 1 <= y < 10000 /\ 1 <= m <= 12 /\ 1 <= d <= 31.
Proof.
  intros H. unfold MAX_DAYS in H.
  pose proof (Z.mod_pos_bound a 146097 ltac:(lia)) as M.
  pose proof (cycle_ymd_range _ M) as O.
  destruct (Z.eq_dec a (MAX_DAYS - 1)) as [->|N]; [by vm_compute|].
  assert (L : ymd_compare (days2ymd a) (days2ymd (MAX_DAYS - 1)) = Lt)
    by (apply days2ymd_monotone; unfold MAX_DAYS in *; lia).
  assert (Q : 0 <= a / 146097) by (apply Z.div_pos; lia).
  assert (E : days2ymd (MAX_DAYS - 1) = (9999, 12, 31)) by (by vm_compute). rewrite E in L.
  unfold days2ymd in *. destruct (cycle_ymd (a mod 146097)) as [[y m] d].
  cbn in L. rewrite lex_lt, Z.compare_lt_iff, Z.compare_eq_iff in L. lia.
Qed.

(** ** The text order is the chronological order *)
Lemma string_app_assoc' a b c : ((a ++ b) ++ c = a ++ (b ++ c))%string.
Proof. induction a as [|x a IH]; cbn; congruence. Qed.

Lemma iso_date_compare a b x y :
  (let '(y1, m1, d1) := a in 0 <= y1 < 10000 /\ 0 <= m1 < 100 /\ 0 <= d1 < 100) ->
  (let '(y1, m1, d1) := b in 0 <= y1 < 10000 /\ 0 <= m1 < 100 /\ 0 <= d1 < 100) ->
  String.compare (iso_date a ++ x) (iso_date b ++ y) =
  lex (ymd_compare a b) (String.compare x y).
Proof.
  destruct a as [[ya ma] da], b as [[yb mb] db]. intros (Ya & Ma & Da) (Yb & Mb & Db).
  unfold iso_date, ymd_compare. rewrite !string_app_assoc'.
  rewrite pad_compare, compare_app_head, pad_compare, compare_app_head, pad_compare by done.
  by destruct (Z.compare ya yb), (Z.compare ma mb), (Z.compare da db).
Qed.

Lemma fraction_compare a b :
  0 <= a < US_PER_SECOND -> 0 <= b < US_PER_SECOND ->
  String.compare (fraction a ++ "+00:00") (fraction b ++ "+00:00") = Z.compare a b.
Proof.
  intros Ha Hb. unfold fraction, US_PER_SECOND in *.
  destruct (Z.eqb_spec a 0) as [->|Na], (Z.eqb_spec b 0) as [->|Nb]; try done.
  - transitivity Lt; [reflexivity | symmetry; apply Z.compare_lt_iff; lia].
  - transitivity Gt; [reflexivity | symmetry; apply Z.compare_gt_iff; lia].
  - rewrite !string_app_assoc', compare_app_head, pad_compare by (cbn; lia).
    replace (String.compare "+00:00" "+00:00") with Eq by reflexivity.
    by destruct (Z.compare a b).
Qed.

Lemma iso_time_compare a b :
  0 <= a < US_PER_DAY -> 0 <= b < US_PER_DAY ->
  String.compare (iso_time a) (iso_time b) = Z.compare a b.
Proof.
  unfold iso_time, US_PER_DAY. intros Ha Hb.
  set (sa := a / US_PER_SECOND). set (sb := b / US_PER_SECOND).
  assert (Sa : 0 <= sa < 86400) by (unfold sa, US_PER_SECOND in *; Z.to_euclidean_division_equations; lia).
  assert (Sb : 0 <= sb < 86400) by (unfold sb, US_PER_SECOND in *; Z.to_euclidean_division_equations; lia).
  rewrite pad_compare, compare_app_head, pad_compare, compare_app_head, pad_compare, fraction_compare
    by (try (apply Z.mod_pos_bound; done); cbn; Z.to_euclidean_division_equations; lia).
  assert (Ea : a = US_PER_SECOND * sa + a mod US_PER_SECOND) by (apply Z.div_mod; done).
  assert (Eb : b = US_PER_SECOND * sb + b mod US_PER_SECOND) by (apply Z.div_mod; done).
  pose proof (Z.mod_pos_bound a US_PER_SECOND ltac:(done)) as Ra.
  pose proof (Z.mod_pos_bound b US_PER_SECOND ltac:(done)) as Rb.
  generalize dependent (a mod US_PER_SECOND). generalize dependent (b mod US_PER_SECOND).
  intros rb Eb Rb ra Ea Ra. clearbody sa sb. unfold US_PER_SECOND in *.
  destruct (Z.compare_spec (sa / 3600) (sb / 3600)) as [E1|L|G]; cbn [lex].
  - destruct (Z.compare_spec (sa / 60 mod 60) (sb / 60 mod 60)) as [E2|L|G]; cbn [lex].
    + destruct (Z.compare_spec (sa mod 60) (sb mod 60)) as [E3|L|G]; cbn [lex].
      * assert (sa = sb) as -> by (Z.to_euclidean_division_equations; lia).
        subst a b. symmetry. apply Z.add_compare_mono_l.
      * symmetry. apply Z.compare_lt_iff. Z.to_euclidean_division_equations; lia.
      * symmetry. apply Z.compare_gt_iff. Z.to_euclidean_division_equations; lia.
    + symmetry. apply Z.compare_lt_iff. Z.to_euclidean_division_equations; lia.
    + symmetry. apply Z.compare_gt_iff. Z.to_euclidean_division_equations; lia.
  - symmetry. apply Z.compare_lt_iff. Z.to_euclidean_division_equations; lia.
  - symmetry. apply Z.compare_gt_iff. Z.to_euclidean_division_equations; lia.
Qed.

Lemma days2ymd_compare a b : 0 <= a -> 0 <= b ->
  ymd_compare (days2ymd a) (days2ymd b) = Z.compare a b.
Proof.
  intros Ha Hb. destruct (Z.compare_spec a b) as [->|L|G].
  - destruct (days2ymd b) as [[y m] d]. cbn. by rewrite !Z.compare_refl.
  - by apply days2ymd_monotone.
  - assert (M : ymd_compare (days2ymd b) (days2ymd a) = Lt) by (by apply days2ymd_monotone).
    destruct (days2ymd a) as [[y m] d], (days2ymd b) as [[y' m'] d']. cbn in M |- *.
    rewrite (Z.compare_antisym y), (Z.compare_antisym m), (Z.compare_antisym d) in M.
    by destruct (Z.compare y y'), (Z.compare m m'), (Z.compare d d').
Qed.

Lemma iso_utc_compare a b : in_range a = true -> in_range b = true ->
  String.compare (iso_utc a) (iso_utc b) = Z.compare a b.
Proof.
  unfold in_range. rewrite !andb_true_iff, !Z.leb_le, !Z.ltb_lt. unfold MAX_US. intros Ha Hb.
  assert (Da : 0 <= a / US_PER_DAY < MAX_DAYS)
    by (unfold MAX_DAYS, US_PER_DAY, US_PER_SECOND in *; Z.to_euclidean_division_equations; lia).
  assert (Db : 0 <= b / US_PER_DAY < MAX_DAYS)
    by (unfold MAX_DAYS, US_PER_DAY, US_PER_SECOND in *; Z.to_euclidean_division_equations; lia).
  pose proof (days2ymd_range _ Da) as Ra. pose proof (days2ymd_range _ Db) as Rb.
  unfold iso_utc. rewrite iso_date_compare, compare_app_head, days2ymd_compare, iso_time_compare
    by (try lia; try (apply Z.mod_pos_bound; done);
        try (destruct (days2ymd (a / US_PER_DAY)) as [[? ?] ?]; lia);
        destruct (days2ymd (b / US_PER_DAY)) as [[? ?] ?]; lia).
  pose proof (Z.div_mod a US_PER_DAY ltac:(done)) as Ea.
  pose proof (Z.div_mod b US_PER_DAY ltac:(done)) as Eb.
  pose proof (Z.mod_pos_bound a US_PER_DAY ltac:(done)) as Ma.
  pose proof (Z.mod_pos_bound b US_PER_DAY ltac:(done)) as Mb.
  clear - Ea Eb Ma Mb. generalize dependent (a mod US_PER_DAY). generalize dependent (b mod US_PER_DAY).
  generalize (a / US_PER_DAY) as qa, (b / US_PER_DAY) as qb. intros qa qb rb -> Mb ra -> Ma.
  unfold US_PER_DAY, US_PER_SECOND in *.
  destruct (Z.compare_spec qa qb) as [->|L|G]; cbn [lex].
  - symmetry. apply Z.add_compare_mono_l.
  - symmetry. apply Z.compare_lt_iff. lia.
  - symmetry. apply Z.compare_gt_iff. lia.
Qed.

(** Persisted timestamps order correctly: for any two instants the store
    can write (years 1 to 9999, any microsecond, from any time zone), the string
    comparison that SQLite and Python apply to the ISO texts is exactly the
    chronological comparison, including texts with and without a fraction. *)
Theorem timestamp_order_chronological d1 d2 :
  in_range (to_utc d1) = true -> in_range (to_utc d2) = true ->
  String.compare (_format_dt d1) (_format_dt d2) = Z.compare (to_utc d1) (to_utc d2).
Proof. apply iso_utc_compare. Qed.

Lemma timestamp_order_chronological_witness :
  String.compare "2024-02-29T23:59:59+00:00" "2024-02-29T23:59:59.000001+00:00" = Lt.
Proof.
  exact (timestamp_order_chronological
           (mkDatetime (738944 * US_PER_DAY + 86399 * US_PER_SECOND) None)
           (mkDatetime (738945 * US_PER_DAY + 3599 * US_PER_SECOND + 1)
                       (Some (3600 * US_PER_SECOND))) eq_refl eq_refl).
Defined.

Lemma str_leb_iso a b : in_range a = true -> in_range b = true ->
  str_leb (iso_utc a) (iso_utc b) = (a <=? b).
Proof. intros Ha Hb. unfold str_leb, Z.leb. by rewrite iso_utc_compare. Qed.
Lemma str_ltb_iso a b : in_range a = true -> in_range b = true ->
  str_ltb (iso_utc a) (iso_utc b) = (a <? b).
Proof. intros Ha Hb. unfold str_ltb, Z.ltb. by rewrite iso_utc_compare. Qed.
