(* ===== verification/StateMachine.v ===== *)
(** * StateMachine: the task state machine and the recovery target
    (src/argent_core/state_machine.py, src/argent_core/recovery.py). *)
From S2P Require Import Prelude PyVal Models.

(** ** The tables *)
Definition MAIN_PATH : list TaskState :=
  [NEW; PLANNING; ANALYZING; LEAD_DECISION; IMPLEMENTING; TESTING; REVIEWING;
   FINAL_DECISION; DONE].
Definition TERMINAL_STATES : list TaskState := [DONE; CANCELLED].
Definition PAUSE_STATES : list TaskState := [OWNER_APPROVAL_REQUIRED; PAUSED; RECOVERING].

(** [_STATIC.get(from_state, frozenset())]. *)
Definition _STATIC (from_state : TaskState) : list TaskState :=
  match from_state with
  | NEW => [PLANNING]
  | PLANNING => [ANALYZING; REWORK]
  | ANALYZING => [LEAD_DECISION]
  | LEAD_DECISION => [IMPLEMENTING; REWORK]
  | IMPLEMENTING => [TESTING]
  | TESTING => [REVIEWING; REWORK]
  | REVIEWING => [FINAL_DECISION; REWORK]
  | FINAL_DECISION => [DONE; REWORK]
  | REWORK => [PLANNING; IMPLEMENTING]
  | BLOCKED => [RECOVERING]
  | FAILED => [RECOVERING; CANCELLED]
  | _ => []
  end.

(** [_PAUSE_EXITS.get(from_state, frozenset())]. *)
Definition _PAUSE_EXITS (from_state : TaskState) : list TaskState :=
  match from_state with
  | OWNER_APPROVAL_REQUIRED => [BLOCKED; CANCELLED]
  | PAUSED => [CANCELLED]
  | RECOVERING => [BLOCKED]
  | _ => []
  end.

Definition _ESCAPE_TARGETS : list TaskState := [BLOCKED; CANCELLED].

Definition is_terminal (state : TaskState) : bool := in_list state TERMINAL_STATES.
Definition is_pause (state : TaskState) : bool := in_list state PAUSE_STATES.

(** [set(MAIN_PATH) - TERMINAL_STATES | {REWORK}]. *)
Definition _ACTIONABLE_STATES : list TaskState :=
  List.filter (fun s => negb (in_list s TERMINAL_STATES)) MAIN_PATH ++ [REWORK].
Definition is_actionable (state : TaskState) : bool := in_list state _ACTIONABLE_STATES.

Definition is_valid_resume_target (resume_state : option TaskState) : bool :=
  match resume_state with
  | None => false
  | Some rs => negb (in_list rs TERMINAL_STATES) && negb (in_list rs PAUSE_STATES)
  end.

Definition is_allowed (from_state to_state : TaskState) (resume_state : option TaskState) : bool :=
  if bool_decide (from_state = to_state) then false
  else if is_terminal from_state then false
  else if in_list from_state PAUSE_STATES then
    if bool_decide (resume_state = Some to_state)
       && is_valid_resume_target resume_state
       && negb (bool_decide (resume_state = Some from_state))
    then true
    else in_list to_state (_PAUSE_EXITS from_state)
  else if in_list to_state (_STATIC from_state) then true
  else if bool_decide (to_state = OWNER_APPROVAL_REQUIRED) then true
  else if in_list to_state _ESCAPE_TARGETS then true
  else false.

Definition validate_transition (from_state to_state : TaskState)
    (resume_state : option TaskState) : res exc unit :=
  res_unless (is_allowed from_state to_state resume_state) InvalidTransition.

(** recovery.py *)
Definition recovery_target (task : Task) : TaskState :=
  if negb (bool_decide (t_state task = RECOVERING)) then t_state task
  else match t_resume_state task with
       | Some rs => if is_valid_resume_target (Some rs) then rs else BLOCKED
       | None => BLOCKED
       end.

(** ** Shared lemmas *)
Ltac by_states := repeat match goal with s : TaskState |- _ => destruct s end;
  repeat match goal with s : option TaskState |- _ => destruct s as [[]|] end;
  vm_compute; try tauto; try congruence.

Lemma validate_transition_ok from to rs :
  validate_transition from to rs = Ok tt <-> is_allowed from to rs = true.
Proof. apply res_unless_ok. Qed.

Lemma valid_resume_iff rs :
  is_valid_resume_target (Some rs) = true <-> is_terminal rs = false /\ is_pause rs = false.
Proof. by_states; intuition congruence. Qed.

Lemma actionable_valid_resume s :
  is_actionable s = true -> is_valid_resume_target (Some s) = true.
Proof. by_states. Qed.

Lemma actionable_gate s rs :
  is_actionable s = true -> is_allowed s OWNER_APPROVAL_REQUIRED rs = true.
Proof. destruct s; vm_compute; congruence. Qed.

Lemma allowed_not_terminal from to rs :
  is_allowed from to rs = true -> is_terminal from = false.
Proof.
  unfold is_allowed. case_bool_decide; [discriminate|]. by destruct (is_terminal from).
Qed.

Lemma gate_resume_allowed rs :
  is_valid_resume_target (Some rs) = true ->
  is_allowed OWNER_APPROVAL_REQUIRED rs (Some rs) = true.
Proof. by_states. Qed.

#[export] Hint Resolve allowed_not_terminal actionable_valid_resume gate_resume_allowed : argent.

(** ** The machine as a step relation.  A task is its state and its resume
    point; the moves are the guarded transition, the gate entry and exit, and
    the parking in RECOVERING that [recover] performs outside the table. *)
Inductive task_step : TaskState * option TaskState -> TaskState * option TaskState -> Prop :=
| step_allowed s rs s' :
    is_allowed s s' rs = true -> is_pause s' = false ->
    task_step (s, rs) (s', None)
| step_gate s rs :
    is_actionable s = true ->
    task_step (s, rs) (OWNER_APPROVAL_REQUIRED, Some s)
| step_park s rs :
    is_terminal s = false -> is_pause s = false ->
    task_step (s, rs) (RECOVERING, Some s).

Inductive task_reach (p : TaskState * option TaskState) : TaskState * option TaskState -> Prop :=
| reach_refl : task_reach p p
| reach_step q r : task_reach p q -> task_step q r -> task_reach p r.

(** What a parked task may resume to. *)
Definition resume_ok (p : TaskState * option TaskState) : Prop :=
  match p with
  | (s, Some rs) => is_pause s = true /\ is_valid_resume_target (Some rs) = true
  | (s, None) => is_pause s = false
  end.

Lemma task_step_resume_ok p q : task_step p q -> resume_ok q.
Proof.
  destruct 1 as [s rs s' A P|s rs A|s rs T P]; cbn.
  - done.
  - split; [done | by apply actionable_valid_resume].
  - split; [done | by apply valid_resume_iff].
Qed.

Lemma task_reach_inv (I : TaskState * option TaskState -> Prop) p q :
  (forall a b, I a -> task_step a b -> I b) -> I p -> task_reach p q -> I q.
Proof. intros Hs Hp. induction 1 as [|q r _ IH Hst]; [done | exact (Hs _ _ IH Hst)]. Qed.

Lemma task_reach_trans p q r : task_reach p q -> task_reach q r -> task_reach p r.
Proof. intros Hpq. induction 1 as [|r s _ IH Hst]; [done | exact (reach_step _ _ _ IH Hst)]. Qed.

Lemma task_reach_one p q : task_step p q -> task_reach p q.
Proof. intros H. exact (reach_step _ _ _ (reach_refl _) H). Qed.

Lemma terminal_stuck p q : is_terminal (fst p) = true -> ~ task_step p q.
Proof.
  intros T St. destruct St as [s rs s' A _|s rs A|s rs T' _]; unfold fst in T.
  - by rewrite (allowed_not_terminal _ _ _ A) in T.
  - apply actionable_valid_resume, valid_resume_iff in A as [A _]. congruence.
  - congruence.
Qed.
Lemma terminal_reach p q : is_terminal (fst p) = true -> task_reach p q -> q = p.
Proof.
  intros T. apply (task_reach_inv (fun x => x = p)); [|done].
  intros a b -> St. by apply terminal_stuck in St.
Qed.

(** An owner gate returns exactly to where it was entered: from an
    actionable state the gate entry is allowed, parks the task with that state
    as resume point, and the only non-escape exit of the parked task is back to
    it; every other exit is BLOCKED or CANCELLED. *)
Theorem gate_round_trip s to :
  is_actionable s = true ->
  is_allowed s OWNER_APPROVAL_REQUIRED None = true /\
  (is_allowed OWNER_APPROVAL_REQUIRED to (Some s) = true <->
   to = s \/ to = BLOCKED \/ to = CANCELLED).
Proof.
  intros A. split; [by apply actionable_gate|].
  destruct s; try (exfalso; vm_compute in A; discriminate A);
    destruct to; vm_compute; intuition congruence.
Qed.

Lemma gate_round_trip_witness :
  is_allowed IMPLEMENTING OWNER_APPROVAL_REQUIRED None = true /\
  (is_allowed OWNER_APPROVAL_REQUIRED IMPLEMENTING (Some IMPLEMENTING) = true <->
   IMPLEMENTING = IMPLEMENTING \/ IMPLEMENTING = BLOCKED \/ IMPLEMENTING = CANCELLED).
Proof. exact (gate_round_trip IMPLEMENTING IMPLEMENTING eq_refl). Defined.

(** The states of a task that left the main path for good. *)
Definition dead_end (p : TaskState * option TaskState) : Prop :=
  In p [(BLOCKED, None); (FAILED, None); (CANCELLED, None);
        (RECOVERING, Some BLOCKED); (RECOVERING, Some FAILED)].

Lemma dead_end_closed p q : dead_end p -> task_step p q -> dead_end q.
Proof.
  unfold dead_end. cbn [In]. intros D St.
  destruct St as [s rs s' A P|s rs A|s rs T P];
    destruct D as [D|[D|[D|[D|[D|[]]]]]]; injection D as <- <-;
    try (vm_compute in A; discriminate A); try (vm_compute in T; discriminate T);
    try (vm_compute in P; discriminate P); try tauto.
  all: destruct s'; try (vm_compute in A; discriminate A);
    try (vm_compute in P; discriminate P); tauto.
Qed.

(** A blocked or failed task never finishes: the only states it can still
    reach are BLOCKED, FAILED, RECOVERING and CANCELLED, so DONE (and every
    working state) is out of reach. *)
Theorem blocked_never_finishes rs p :
  task_reach (BLOCKED, None) (p, rs) -> In p [BLOCKED; FAILED; RECOVERING; CANCELLED].
Proof.
  intros R. assert (D : dead_end (p, rs)).
  { apply (task_reach_inv dead_end _ _ dead_end_closed) in R; [done | by left]. }
  unfold dead_end in D. cbn in D |- *. intuition congruence.
Qed.

Lemma blocked_never_finishes_witness : In RECOVERING [BLOCKED; FAILED; RECOVERING; CANCELLED].
Proof.
  apply (blocked_never_finishes (Some BLOCKED)).
  exact (task_reach_one _ _ (step_park BLOCKED None eq_refl eq_refl)).
Defined.

Lemma forward_step s s' :
  is_allowed s s' None = true -> is_pause s' = false -> task_reach (s, None) (s', None).
Proof. intros A P. apply task_reach_one. by apply step_allowed. Qed.

(** Every live working state can still finish: from any actionable state
    DONE is reachable by guarded transitions alone. *)
Theorem actionable_reaches_done s :
  is_actionable s = true -> task_reach (s, None) (DONE, None).
Proof.
  intros A.
  assert (F : task_reach (FINAL_DECISION, None) (DONE, None)) by (by apply forward_step).
  assert (R : task_reach (REVIEWING, None) (DONE, None))
    by (exact (task_reach_trans _ _ _ (forward_step REVIEWING FINAL_DECISION eq_refl eq_refl) F)).
  assert (T : task_reach (TESTING, None) (DONE, None))
    by (exact (task_reach_trans _ _ _ (forward_step TESTING REVIEWING eq_refl eq_refl) R)).
  assert (I : task_reach (IMPLEMENTING, None) (DONE, None))
    by (exact (task_reach_trans _ _ _ (forward_step IMPLEMENTING TESTING eq_refl eq_refl) T)).
  assert (L : task_reach (LEAD_DECISION, None) (DONE, None))
    by (exact (task_reach_trans _ _ _ (forward_step LEAD_DECISION IMPLEMENTING eq_refl eq_refl) I)).
  assert (N : task_reach (ANALYZING, None) (DONE, None))
    by (exact (task_reach_trans _ _ _ (forward_step ANALYZING LEAD_DECISION eq_refl eq_refl) L)).
  assert (P : task_reach (PLANNING, None) (DONE, None))
    by (exact (task_reach_trans _ _ _ (forward_step PLANNING ANALYZING eq_refl eq_refl) N)).
  destruct s; try (exfalso; vm_compute in A; discriminate A); try assumption.
  - exact (task_reach_trans _ _ _ (forward_step NEW PLANNING eq_refl eq_refl) P).
  - exact (task_reach_trans _ _ _ (forward_step REWORK IMPLEMENTING eq_refl eq_refl) I).
Qed.

Lemma actionable_reaches_done_witness : task_reach (REWORK, None) (DONE, None).
Proof. exact (actionable_reaches_done REWORK eq_refl). Defined.

(** Recovery is conservative: only a RECOVERING task moves, its target is
    never a terminal or pause state, and the move is one the transition table
    allows (so the fallback to BLOCKED in [_recover_work] is never taken). *)
Theorem recovery_target_conservative task :
  (t_state task <> RECOVERING -> recovery_target task = t_state task) /\
  (t_state task = RECOVERING ->
   is_valid_resume_target (Some (recovery_target task)) = true /\
   validate_transition RECOVERING (recovery_target task) (t_resume_state task) = Ok tt).
Proof.
  unfold recovery_target. split.
  - intros N. by rewrite bool_decide_false.
  - intros ->. cbn. destruct (t_resume_state task) as [rs|]; [|by vm_compute].
    destruct rs; by vm_compute.
Qed.
