(* ===== verification/Trust.v ===== *)
(** * Trust: the trust boundary and the role permission matrix
    (src/argent_core/trust.py, src/argent_core/roles.py). *)
From S2P Require Import Prelude PyVal Models.
#[local] Open Scope string_scope.

(** ** trust.py *)
Definition OWNER_SOURCE : string := "owner:authenticated".
Definition UNTRUSTED_SOURCES : list string :=
  ["email"; "website"; "download"; "document"; "repo_content"; "tool_output"; "network"].
Definition _ROLE_VALUES : list string := map value (members (A := Role)).

Definition role_source (role : Role) : string := "role:" ++ value role.

(** [source[len("role:"):]] for a source that starts with it. *)
Definition after_role (source : string) : string :=
  String.substring 5 (String.length source) source.

Definition classify_source (source : string) : SourceClass :=
  if String.eqb source OWNER_SOURCE then TRUSTED
  else if String.prefix "role:" source && str_in (after_role source) _ROLE_VALUES
  then TRUSTED
  else UNTRUSTED.

Definition is_trusted (source : string) : bool :=
  bool_decide (classify_source source = TRUSTED).

Definition require_trusted (source : string) : res exc SourceClass :=
  let cls := classify_source source in
  _ ← res_unless (bool_decide (cls = TRUSTED)) UntrustedSource;
  Ok cls.

Definition require_owner (source : string) : res exc unit :=
  _ ← res_unless (bool_decide (classify_source source = TRUSTED)) UntrustedSource;
  res_unless (String.eqb source OWNER_SOURCE) OwnerAuthorityRequired.

(** ** roles.py *)
Definition PERMISSIONS (role : Role) (category : ArtifactCategory) : Permission :=
  match role, category with
  | LEAD, PRODUCT_CODE => READ
  | LEAD, TEST_CODE => READ
  | LEAD, OTHER => WRITE
  | ANALYST, PRODUCT_CODE => READ
  | ANALYST, TEST_CODE => READ
  | ANALYST, OTHER => WRITE
  | IMPLEMENTER, PRODUCT_CODE => WRITE
  | IMPLEMENTER, TEST_CODE => WRITE
  | IMPLEMENTER, OTHER => WRITE
  | QA, PRODUCT_CODE => READ
  | QA, TEST_CODE => WRITE
  | QA, OTHER => WRITE
  | REVIEWER, PRODUCT_CODE => READ
  | REVIEWER, TEST_CODE => READ
  | REVIEWER, OTHER => READ
  end.

Definition ROLE_ORDER : list Role := [LEAD; ANALYST; LEAD; IMPLEMENTER; QA; REVIEWER].
Definition DEFAULT_NEXT_ROLE (role : Role) : Role :=
  match role with
  | LEAD => ANALYST
  | ANALYST => IMPLEMENTER
  | IMPLEMENTER => QA
  | QA => REVIEWER
  | REVIEWER => LEAD
  end.

(** Every role and category has a cell in the table, so the membership guards
    of the source hold for every typed argument. *)
Definition can_read (role : Role) (category : ArtifactCategory) : bool := true.
Definition can_write (role : Role) (category : ArtifactCategory) : bool :=
  bool_decide (PERMISSIONS role category = WRITE).
Definition check_permission (role : Role) (category : ArtifactCategory) (mode : Permission)
  : res exc unit :=
  match mode with
  | WRITE => res_unless (can_write role category) PermissionDenied
  | READ => res_unless (can_read role category) PermissionDenied
  end.

(** ** Lemmas *)
Lemma substring_all s : String.substring 0 (String.length s) s = s.
Proof. induction s; cbn; congruence. Qed.

Lemma substring_0_longer n s : String.length s <= n -> String.substring 0 n s = s.
Proof.
  revert n. induction s as [|c s IH]; intros [|n] L; cbn in *; try lia; try done.
  rewrite IH; [done | lia].
Qed.

Lemma after_role_app s : after_role ("role:" ++ s) = s.
Proof. unfold after_role. apply (substring_0_longer (5 + String.length s)). lia. Qed.

Lemma role_value_iff s : str_in s _ROLE_VALUES = true <-> exists r : Role, s = value r.
Proof.
  unfold _ROLE_VALUES. rewrite str_in_In, in_map_iff. split.
  - intros (r & <- & _). by exists r.
  - intros [r ->]. exists r. split; [done | apply members_complete].
Qed.

Lemma classify_trusted_iff s :
  classify_source s = TRUSTED <-> s = OWNER_SOURCE \/ exists r, s = role_source r.
Proof.
  unfold classify_source, role_source. destruct (String.eqb s OWNER_SOURCE) eqn:E.
  - apply String.eqb_eq in E. intuition.
  - apply String.eqb_neq in E. destruct (String.prefix _ _ && _) eqn:B.
    + split; [|done]. intros _. right. apply andb_true_iff in B as [P R].
      apply prefix_app in P as [t ->]. rewrite after_role_app in R.
      apply role_value_iff in R as [r ->]. by exists r.
    + split; [discriminate |]. intros [?|[r ->]]; [done | exfalso].
      apply andb_false_iff in B as [B|B].
      * assert (T : String.prefix "role:" ("role:" ++ value r) = true)
          by (apply prefix_app; by exists (value r)).
        congruence.
      * rewrite after_role_app in B. assert (T : str_in (value r) _ROLE_VALUES = true)
          by (apply role_value_iff; by exists r).
        by rewrite T in B.
Qed.

Lemma require_trusted_ok s c :
  require_trusted s = Ok c <-> classify_source s = TRUSTED /\ c = TRUSTED.
Proof.
  unfold require_trusted. destruct (classify_source s), c; vm_compute; intuition congruence.
Qed.

Lemma require_owner_ok s : require_owner s = Ok tt <-> s = OWNER_SOURCE.
Proof.
  unfold require_owner. split.
  - intros H. apply res_bind_ok in H as ([] & _ & H).
    apply res_unless_ok in H. by apply String.eqb_eq in H.
  - by intros ->.
Qed.
#[export] Hint Resolve <- require_owner_ok : argent.

(** The trust boundary fails closed: exactly the authenticated owner and
    the five [role:<name>] sources are accepted, every other string (the named
    untrusted sources, unknown roles, lookalikes) raises [UntrustedSource]; and
    owner authority is the one authenticated owner string, so no role source
    ever carries it. *)
Theorem trust_boundary s :
  (require_trusted s = Ok TRUSTED /\ (s = OWNER_SOURCE \/ exists r, s = role_source r) \/
   require_trusted s = Err UntrustedSource /\ s <> OWNER_SOURCE /\ forall r, s <> role_source r) /\
  (require_owner s = Ok tt <-> s = OWNER_SOURCE) /\
  (forall r, require_owner (role_source r) = Err OwnerAuthorityRequired) /\
  (In s UNTRUSTED_SOURCES -> require_owner s = Err UntrustedSource).
Proof.
  split_and!.
  - destruct (classify_source s) eqn:C.
    + left. split; [by apply require_trusted_ok | by apply classify_trusted_iff].
    + right. unfold require_trusted. rewrite C. split; [done|].
      assert (N : ~ (s = OWNER_SOURCE \/ exists r, s = role_source r))
        by (rewrite <- classify_trusted_iff; congruence).
      split; [tauto | intros r E; eauto].
  - apply require_owner_ok.
  - by intros [].
  - cbn. intuition (subst; reflexivity).
Qed.

(** The permission matrix separates duties: only the implementer writes
    product code, tests are written by the implementer and QA alone, the
    reviewer writes nothing, and the check denies exactly the writes whose cell
    is read-only. *)
Theorem permission_separation role category mode :
  (check_permission role PRODUCT_CODE WRITE = Ok tt <-> role = IMPLEMENTER) /\
  (check_permission role TEST_CODE WRITE = Ok tt <-> role = IMPLEMENTER \/ role = QA) /\
  check_permission REVIEWER category WRITE = Err PermissionDenied /\
  (check_permission role category mode = Err PermissionDenied <->
   mode = WRITE /\ PERMISSIONS role category = READ).
Proof. destruct role, category, mode; vm_compute; intuition congruence. Qed.
