(* ===== verification/Workflow.v ===== *)
(** * Workflow: role sequences and canonical model routing
    (src/argent_core/workflow.py, src/argent_core/routing.py). *)
From S2P Require Import Prelude PyVal Models Trust.
#[local] Open Scope string_scope.

(** ** workflow.py *)
Definition STANDARD_SEQUENCE : list Role :=
  [LEAD; ANALYST; LEAD; IMPLEMENTER; QA; REVIEWER; LEAD].
Definition REWORK_SEQUENCE : list Role := [LEAD; IMPLEMENTER; QA; REVIEWER; LEAD].

Definition rework_sequence (include_reviewer : bool) : list Role :=
  if include_reviewer then REWORK_SEQUENCE else [LEAD; IMPLEMENTER; QA; LEAD].

Definition effective_sequence (sequence_kind : SequenceKind) (include_reviewer : bool)
  : list Role :=
  match sequence_kind with
  | REWORK_SEQ => rework_sequence include_reviewer
  | STANDARD => STANDARD_SEQUENCE
  end.

Definition next_role (sequence_kind : SequenceKind) (position : Z) (include_reviewer : bool)
  : option Role :=
  let seq := effective_sequence sequence_kind include_reviewer in
  if (position <? 0)%Z || (position >=? Z.of_nat (List.length seq))%Z then None
  else nth_error seq (Z.to_nat position).

Definition rework_include_reviewer (decision_detail : option pydict)
    (open_findings_exist : bool) : bool :=
  match decision_detail with
  | Some (kv :: d) =>
      match dget0 (kv :: d) "rework_include_reviewer" with
      | PNone => open_findings_exist
      | v => py_truthy v
      end
  | _ => open_findings_exist
  end.

Record WorkflowFrontier : Type := mkWorkflowFrontier {
  wf_cycle_no : Z;
  wf_position : Z;
  wf_sequence_kind : SequenceKind;
  wf_include_reviewer : bool;
  wf_expected_role : option Role
}.

(** ** routing.py *)
Definition OPENAI : string := "openai".
Definition DEEPSEEK : string := "deepseek".
Definition SOL_HIGH : string := "gpt-5.6-sol".
Definition PRO : string := "deepseek-v4-pro".
Definition FLASH : string := "deepseek-v4-flash".
Definition THINKING_HIGH : string := "high".
Definition THINKING_MEDIUM : string := "medium".

Definition _CANONICAL (role : Role) : string * string * string :=
  match role with
  | LEAD => (OPENAI, SOL_HIGH, THINKING_HIGH)
  | ANALYST => (DEEPSEEK, PRO, THINKING_MEDIUM)
  | IMPLEMENTER => (DEEPSEEK, PRO, THINKING_MEDIUM)
  | QA => (DEEPSEEK, PRO, THINKING_MEDIUM)
  | REVIEWER => (OPENAI, SOL_HIGH, THINKING_HIGH)
  end.

Definition resolve_model (role : Role) (risk_class : RiskClass) : string * string * string :=
  let '(provider, model, thinking) := _CANONICAL role in
  if in_list role [IMPLEMENTER; QA] && bool_decide (risk_class = LOW)
  then (provider, FLASH, thinking)
  else (provider, model, thinking).

Definition _validate_choice (role : Role) (provider model thinking_tier : string)
    (risk_class : RiskClass) : bool :=
  if in_list role [LEAD; REVIEWER] then
    if negb (String.eqb provider OPENAI) || negb (String.eqb model SOL_HIGH) then false
    else if negb (String.eqb thinking_tier THINKING_HIGH) then false
    else true
  else if negb (String.eqb provider DEEPSEEK) then false
  else if bool_decide (role = ANALYST) then String.eqb model PRO
  else if String.eqb model PRO then true
  else if String.eqb model FLASH then bool_decide (risk_class = LOW)
  else false.

(** The [isinstance] guards hold for typed arguments. *)
Definition validate_model_choice (role : Role) (provider model thinking_tier : string)
    (risk_class : RiskClass) : bool :=
  _validate_choice role provider model thinking_tier risk_class.

(** ** Lemmas *)
Lemma next_role_some k p ir r :
  next_role k p ir = Some r <->
  (0 <= p)%Z /\ nth_error (effective_sequence k ir) (Z.to_nat p) = Some r.
Proof.
  unfold next_role. rewrite Z.geb_leb.
  destruct (Z.ltb_spec p 0); destruct (Z.leb_spec (Z.of_nat (List.length (effective_sequence k ir))) p); cbn.
  1-2: split; [discriminate | lia].
  - split; [discriminate |]. intros [_ N].
    assert (L : Z.to_nat p < List.length (effective_sequence k ir))
      by (apply nth_error_Some; congruence). lia.
  - intuition.
Qed.

Lemma next_role_none k p ir :
  next_role k p ir = None <->
  (p < 0 \/ Z.of_nat (List.length (effective_sequence k ir)) <= p)%Z.
Proof.
  unfold next_role. rewrite Z.geb_leb.
  destruct (Z.ltb_spec p 0); destruct (Z.leb_spec (Z.of_nat (List.length (effective_sequence k ir))) p); cbn.
  1-3: intuition.
  rewrite nth_error_None. lia.
Qed.

Lemma next_role_neg k p ir : (p < 0)%Z -> next_role k p ir = None.
Proof. intros N. apply next_role_none. by left. Qed.

Lemma next_role_nat k n ir :
  next_role k (Z.of_nat n) ir = nth_error (effective_sequence k ir) n.
Proof.
  destruct (nth_error _ n) as [r|] eqn:E.
  - apply next_role_some. rewrite Nat2Z.id. split; [lia | done].
  - apply next_role_none. apply nth_error_None in E. lia.
Qed.

(** Positions are the naturals, the negative ones and, in between, -1. *)
Lemma position_cases (P : Z -> Prop) :
  (forall p, (p + 1 < 0)%Z -> P p) -> P (-1)%Z -> (forall n : nat, P (Z.of_nat n)) ->
  forall p, P p.
Proof.
  intros Hneg H1 Hnat p. destruct (Z.lt_trichotomy (p + 1) 0) as [L|[E|G]].
  - by apply Hneg.
  - by replace p with (-1)%Z by lia.
  - replace p with (Z.of_nat (Z.to_nat p)) by lia. apply Hnat.
Qed.

Ltac by_position n :=
  rewrite ?next_role_nat, <- ?Nat2Z.inj_succ, ?Z.add_1_r, <- ?Nat2Z.inj_succ, ?next_role_nat;
  do 8 (try destruct n as [|n]); cbn; try destruct n; cbn; intuition congruence.

Lemma implementer_then_qa k ir p :
  next_role k p ir = Some IMPLEMENTER <-> next_role k (p + 1) ir = Some QA.
Proof.
  induction p as [p N| |n] using position_cases.
  - rewrite !next_role_neg by lia. intuition congruence.
  - destruct k, ir; vm_compute; intuition congruence.
  - destruct k, ir; by_position n.
Qed.

Lemma qa_then_review k ir p :
  next_role k p ir = Some QA ->
  next_role k (p + 1) ir =
    if bool_decide (k = REWORK_SEQ) && negb ir then Some LEAD else Some REVIEWER.
Proof.
  induction p as [p N| |n] using position_cases.
  - rewrite next_role_neg by lia. congruence.
  - destruct k, ir; vm_compute; congruence.
  - destruct k, ir; by_position n.
Qed.

(** Every workflow sequence is bracketed and ordered: it opens and closes
    with the lead, a position is a dispatch exactly inside the sequence, the
    implementer is always directly followed by QA, QA is followed by the
    reviewer unless a rework cycle opted out of review, and only the rework
    sequence without reviewer lets a change reach the closing lead unreviewed. *)
Theorem sequence_shape k ir p :
  next_role k 0 ir = Some LEAD /\
  next_role k (Z.of_nat (List.length (effective_sequence k ir)) - 1) ir = Some LEAD /\
  (next_role k p ir = None <->
   (p < 0 \/ Z.of_nat (List.length (effective_sequence k ir)) <= p)%Z) /\
  (next_role k p ir = Some IMPLEMENTER <-> next_role k (p + 1) ir = Some QA) /\
  (next_role k p ir = Some QA ->
   next_role k (p + 1) ir =
     if bool_decide (k = REWORK_SEQ) && negb ir then Some LEAD else Some REVIEWER).
Proof.
  split_and!; [by destruct k, ir | by destruct k, ir | apply next_role_none | |].
  - apply implementer_then_qa.
  - apply qa_then_review.
Qed.

Lemma validate_choice_eq role provider model tier risk :
  validate_model_choice role provider model tier risk =
  match role with
  | LEAD | REVIEWER => String.eqb provider OPENAI && String.eqb model SOL_HIGH
                       && String.eqb tier THINKING_HIGH
  | ANALYST => String.eqb provider DEEPSEEK && String.eqb model PRO
  | _ => String.eqb provider DEEPSEEK
         && (String.eqb model PRO || (String.eqb model FLASH && bool_decide (risk = LOW)))
  end.
Proof.
  unfold validate_model_choice, _validate_choice.
  destruct role; simpl_tests; case_tests; simpl_tests; try done;
    repeat match goal with |- context [String.eqb ?a ?b] => destruct (String.eqb a b) end;
    cbn in *; congruence.
Qed.

(** The canonical routing is sound and tight: the model resolved for a
    role and risk class is always a permitted choice, the cheap model is
    permitted for the implementer and QA at LOW risk only, and lead and
    reviewer accept exactly their canonical triple. *)
Theorem routing_sound role risk provider model tier :
  (let '(p, m, t) := resolve_model role risk in validate_model_choice role p m t risk = true) /\
  (validate_model_choice role provider FLASH tier risk = true ->
   (role = IMPLEMENTER \/ role = QA) /\ risk = LOW) /\
  (role = LEAD \/ role = REVIEWER ->
   validate_model_choice role provider model tier risk = true <->
   (provider, model, tier) = _CANONICAL role) /\
  (validate_model_choice role provider model tier risk = true ->
   provider = fst (fst (_CANONICAL role)) /\ (model = PRO \/ model = FLASH \/ model = SOL_HIGH)).
Proof.
  split_and!.
  - by destruct role, risk.
  - rewrite validate_choice_eq.
    assert (FLASH <> SOL_HIGH /\ FLASH <> PRO) as [? ?] by done.
    destruct role; autorewrite with argent_b; tauto.
  - rewrite validate_choice_eq. intros [-> | ->]; autorewrite with argent_b;
      cbn [_CANONICAL]; intuition congruence.
  - rewrite validate_choice_eq. destruct role; autorewrite with argent_b; cbn; tauto.
Qed.
