(* ===== verification/Events.v ===== *)
(** * Events: event types and the fail-closed privacy scan
    (src/argent_core/events.py). *)
From S2P Require Import Prelude PyVal Models.
#[local] Open Scope string_scope.

Definition V1_EVENT_TYPES : list string :=
  ["task.created"; "task.state_changed"; "role.started"; "role.completed"; "role.failed";
   "handoff.created"; "finding.created"; "finding.resolved"; "test.started"; "test.completed";
   "review.started"; "review.completed"; "lead.decision"; "gate.owner_required";
   "gate.owner_approved"; "gate.owner_rejected"; "system.recovery_started";
   "system.recovery_completed"; "task.completed"].
Definition AGENT_EVENT_TYPES : list string :=
  ["agent.dispatch_created"; "agent.started"; "agent.result_received"; "agent.result_accepted";
   "agent.result_rejected"; "agent.result_duplicate"; "agent.completed"; "agent.failed";
   "agent.recovery_pending"; "handoff.expected"; "handoff.accepted"; "policy.role_violation"].
Definition EVENT_TYPES : list string := (V1_EVENT_TYPES ++ AGENT_EVENT_TYPES)%list.

Definition PRIVACY_DENYLIST : list string :=
  ["prompt"; "chain_of_thought"; "cot"; "reasoning"; "secret"; "password"; "api_key"; "token";
   "credential"; "mail_content"; "mail_address"; "email_address"; "source_code"; "code"; "diff";
   "body"; "subject"; "content"; "recipient"].
Definition _LOWER_DENYLIST : list string := map lower PRIVACY_DENYLIST.

Definition _contains_denylisted (text : string) : option string :=
  let low := lower text in
  find (fun word => contains word low) _LOWER_DENYLIST.

Definition orelse {A} (a b : option A) : option A :=
  match a with Some _ => a | None => b end.

Fixpoint _scan_value (value : pyval) : option string :=
  let fix scan_items (l : list pyval) : option string :=
    match l with
    | [] => None
    | item :: l' => orelse (_scan_value item) (scan_items l')
    end in
  let fix scan_payload (payload : pydict) : option string :=
    match payload with
    | [] => None
    | (key, v) :: rest =>
        orelse (match key with KStr k => _contains_denylisted k | KInt _ => None end)
          (orelse (_scan_value v) (scan_payload rest))
    end in
  match value with
  | PStr s => _contains_denylisted s
  | PDict d => scan_payload d
  | PList l => scan_items l
  | PTuple l => scan_items l
  | _ => None
  end.

Definition _scan_payload (payload : pydict) : option string := _scan_value (PDict payload).

Definition check_privacy (payload : pydict) : res exc unit :=
  match _scan_payload payload with Some _ => Err PrivacyViolation | None => Ok tt end.

Definition scan_value_for_denylist (value : pyval) : option string := _scan_value value.

(** The body of the loop over the envelope fields. *)
Definition check_field (field : option string) : res exc unit :=
  match field with
  | Some f => match _contains_denylisted f with Some _ => Err PrivacyViolation | None => Ok tt end
  | None => Ok tt
  end.

Definition check_event (ev : Event) : res exc unit :=
  _ ← res_for check_field [Some (ev_type ev); ev_task_id ev; ev_role ev; ev_state ev];
  check_privacy (ev_payload ev).

(** ** Specification: every string a value carries, at any depth. *)
Fixpoint strings_of (v : pyval) : list string :=
  let fix of_items (l : list pyval) : list string :=
    match l with [] => [] | x :: l' => (strings_of x ++ of_items l')%list end in
  let fix of_dict (d : pydict) : list string :=
    match d with
    | [] => []
    | (k, x) :: d' => ((match k with KStr s => [s] | KInt _ => [] end) ++ strings_of x ++ of_dict d')%list
    end in
  match v with
  | PStr s => [s]
  | PList l => of_items l
  | PTuple l => of_items l
  | PDict d => of_dict d
  | _ => []
  end.

(** No deny-listed word occurs in the text, whatever its case. *)
Definition clean (s : string) : Prop :=
  forall w, In w PRIVACY_DENYLIST -> ~ exists a b, lower s = a ++ w ++ b.

Lemma lower_denylist : _LOWER_DENYLIST = PRIVACY_DENYLIST.
Proof. reflexivity. Qed.

Lemma contains_denylisted_none s : _contains_denylisted s = None <-> clean s.
Proof.
  unfold _contains_denylisted, clean. rewrite lower_denylist. split.
  - intros F w I. rewrite <- contains_spec. rewrite (find_none _ _ F w I). done.
  - intros C. destruct (find _ _) as [w|] eqn:F; [|done].
    apply find_some in F as [I E]. destruct (C w I). by apply contains_spec.
Qed.

Lemma orelse_none {A} (a b : option A) : orelse a b = None <-> a = None /\ b = None.
Proof. destruct a; cbn; intuition congruence. Qed.

Lemma scan_value_none v : _scan_value v = None <-> Forall clean (strings_of v).
Proof.
  induction v as [| | | |s|l IH|l IH|d IH|] using pyval_rect'; try (cbn; split; auto; fail).
  - cbn [_scan_value strings_of]. rewrite contains_denylisted_none, Forall_singleton. done.
  - cbn [_scan_value strings_of]. induction IH as [|x l Hx _ IHl]; [split; auto|].
    rewrite orelse_none, Forall_app, IHl, Hx. done.
  - cbn [_scan_value strings_of]. induction IH as [|x l Hx _ IHl]; [split; auto|].
    rewrite orelse_none, Forall_app, IHl, Hx. done.
  - cbn [_scan_value strings_of]. induction IH as [|[k x] l Hx _ IHl]; [split; auto|].
    rewrite !orelse_none, !Forall_app, IHl. cbn in Hx. rewrite Hx.
    destruct k as [s|z]; [rewrite contains_denylisted_none, Forall_singleton; tauto |].
    intuition auto.
Qed.

Lemma check_privacy_ok p : check_privacy p = Ok tt <-> Forall clean (strings_of (PDict p)).
Proof.
  rewrite <- scan_value_none. unfold check_privacy, _scan_payload.
  destruct (_scan_value _); intuition congruence.
Qed.

Lemma check_privacy_cases p : check_privacy p = Ok tt \/ check_privacy p = Err PrivacyViolation.
Proof. unfold check_privacy. destruct (_scan_payload p); auto. Qed.

Definition envelope (ev : Event) : list string :=
  ev_type ev :: omap (fun x => x) [ev_task_id ev; ev_role ev; ev_state ev].

Lemma Forall_option_clean (o : option string) l :
  Forall clean (omap (fun x => x) (o :: l)) <->
  (match o with Some s => clean s | None => True end) /\ Forall clean (omap (fun x => x) l).
Proof. destruct o; cbn; [rewrite Forall_cons; tauto | tauto]. Qed.

Lemma check_field_clean o :
  check_field o = Ok tt <-> match o with Some s => clean s | None => True end.
Proof.
  destruct o as [s|]; unfold check_field; [|tauto]. rewrite <- contains_denylisted_none.
  destruct (_contains_denylisted s); intuition congruence.
Qed.

Lemma check_field_cases o : check_field o = Ok tt \/ check_field o = Err PrivacyViolation.
Proof. destruct o as [s|]; unfold check_field; [destruct (_contains_denylisted s)|]; auto. Qed.

Lemma check_event_cases ev : check_event ev = Ok tt \/ check_event ev = Err PrivacyViolation.
Proof.
  unfold check_event.
  destruct (res_for_cases check_field PrivacyViolation
              [Some (ev_type ev); ev_task_id ev; ev_role ev; ev_state ev] check_field_cases)
    as [-> | ->]; [apply check_privacy_cases | by right].
Qed.

Lemma check_event_ok ev :
  check_event ev = Ok tt <->
  Forall clean (envelope ev) /\ Forall clean (strings_of (PDict (ev_payload ev))).
Proof.
  unfold check_event, envelope. 
  rewrite <- check_privacy_ok, Forall_cons.
  assert (F : res_for check_field [Some (ev_type ev); ev_task_id ev; ev_role ev; ev_state ev] = Ok tt
              <-> clean (ev_type ev) /\
                  Forall clean (omap (fun x => x) [ev_task_id ev; ev_role ev; ev_state ev])).
  { rewrite res_for_ok, !Forall_cons, !Forall_option_clean, !check_field_clean.
    cbn. intuition. }
  rewrite <- F. unfold mbind, res_bind.
  destruct (res_for check_field _) as [[]|e]; intuition congruence.
Qed.

(** The event filter is complete: an event passes exactly when no string of
    its envelope and no key or value of its payload, at any nesting depth,
    contains a deny-listed word in any letter case; every other event raises
    [PrivacyViolation]. *)
Theorem check_event_complete ev :
  (check_event ev = Ok tt <->
   Forall clean (envelope ev ++ strings_of (PDict (ev_payload ev)))%list) /\
  (check_event ev <> Ok tt -> check_event ev = Err PrivacyViolation).
Proof.
  split.
  - rewrite Forall_app. apply check_event_ok.
  - destruct (check_event_cases ev); tauto.
Qed.
