(* ===== verification/Outputs.v ===== *)
(** * Outputs: fail-closed validation of structured role outputs
    (src/argent_core/outputs.py).

    Agent outputs are untrusted values.  A membership test of an unhashable
    value in a frozenset raises [TypeError], as in Python; frozensets of field
    names are iterated in listing order, which only decides which of several
    identical exceptions is raised. *)
From S2P Require Import Prelude PyVal Models Json Events.
#[local] Open Scope string_scope.

Definition MAX_RESULT_BYTES : Z := 256 * 1024.
Definition MAX_DEPTH : Z := 12.
Definition MAX_STRING_LEN : Z := 8192.

Definition _STATUS_VALUES : list string := ["ok"; "findings"; "blocked"].
Definition _DECISION_VALUES : list string := ["accept"; "rework"; "cancel"; "request_owner_gate"].
Definition _SEVERITY_VALUES : list string := ["low"; "medium"; "high"; "critical"].
Definition _TEST_RESULT_VALUES : list string := ["passed"; "failed"; "error"].
Definition _FINDING_ALLOWLIST : list string := ["severity"; "description"; "title"; "id"].
Definition _TEST_DICT_ALLOWLIST : list string := ["name"; "result"].
Definition _SEC_ARCH_DICT_ALLOWLIST : list string := ["severity"; "description"].
Definition _STRING_LIST_FIELDS : list string :=
  ["accepted_findings"; "rejected_findings"; "alternatives"; "concerns"; "blockers";
   "evidence_refs"; "failures"; "regressions"; "tests_run"].

(** The type objects of the field tables. *)
Inductive ty : Type :=
| TStr
| TList
| TNum
| TBool.

Definition _COMMON_FIELDS : list (string * ty) :=
  [("role", TStr); ("task_id", TStr); ("dispatch_id", TStr); ("status", TStr);
   ("findings", TList); ("own_assessment", TStr); ("concerns", TList); ("proposal", TStr);
   ("alternatives", TList); ("confidence", TNum); ("blockers", TList);
   ("requested_next_state", TStr)].

Definition _ROLE_FIELDS (role : Role) : list (string * ty) :=
  match role with
  | LEAD => [("decision", TStr); ("accepted_findings", TList); ("rejected_findings", TList);
             ("rationale", TStr)]
  | ANALYST => [("reproduction", TStr); ("root_cause", TStr); ("evidence_refs", TList)]
  | IMPLEMENTER => [("changed_files", TList); ("implementation_summary", TStr);
                    ("tests_run", TList)]
  | QA => [("tests", TList); ("failures", TList); ("regressions", TList);
           ("coverage_concerns", TList)]
  | REVIEWER => [("severity", TStr); ("security_findings", TList);
                 ("architecture_findings", TList); ("recommendation", TStr)]
  end.

Definition _OPTIONAL_FIELDS (role : Role) : list (string * ty) :=
  match role with
  | LEAD => [("rework_include_reviewer", TBool)]
  | _ => []
  end.

Fixpoint _depth (obj : pyval) (d : Z) : Z :=
  let fix of_list (l : list pyval) : Z :=
    match l with
    | [] => d
    | [v] => _depth v (d + 1)
    | v :: l' => Z.max (_depth v (d + 1)) (of_list l')
    end in
  let fix of_dict (l : pydict) : Z :=
    match l with
    | [] => d
    | [(_, v)] => _depth v (d + 1)
    | (_, v) :: l' => Z.max (_depth v (d + 1)) (of_dict l')
    end in
  match obj with
  | PDict l => of_dict l
  | PList l => of_list l
  | PTuple l => of_list l
  | _ => d
  end.

Definition str_len (s : string) : Z := Z.of_nat (String.length s).

Fixpoint _max_string_len (obj : pyval) : Z :=
  let fix of_list (l : list pyval) (mx : Z) : Z :=
    match l with
    | [] => mx
    | v :: l' => of_list l' (Z.max mx (_max_string_len v))
    end in
  let fix of_dict (l : pydict) (mx : Z) : Z :=
    match l with
    | [] => mx
    | (k, v) :: l' =>
        let mx := match k with KStr s => Z.max mx (str_len s) | KInt _ => mx end in
        of_dict l' (Z.max mx (_max_string_len v))
    end in
  match obj with
  | PStr s => str_len s
  | PDict d => of_dict d 0%Z
  | PList l => of_list l 0%Z
  | PTuple l => of_list l 0%Z
  | _ => 0%Z
  end.

(** [isinstance(value, expected)]: [bool] is a subclass of [int]. *)
Definition _is_instance (value : pyval) (expected : ty) : bool :=
  match expected, value with
  | TStr, PStr _ => true
  | TList, PList _ => true
  | TNum, (PInt _ | PFloat _ | PBool _) => true
  | TBool, PBool _ => true
  | _, _ => false
  end.

Definition bad (b : bool) : res exc unit := res_when b OutputValidationError.

Definition _check_types (result : pydict) (spec : list (string * ty)) : res exc unit :=
  res_for (fun fe => match dget result (fst fe) with
                     | None => Ok tt
                     | Some value => bad (negb (_is_instance value (snd fe)))
                     end) spec.

(** [value in frozenset]: the value is hashed first. *)
Definition in_frozenset (value : pyval) (l : list string) : res exc bool :=
  if hashable value then Ok (existsb (is_str value) l) else Err TypeError.

(** [if value not in frozenset: raise OutputValidationError]. *)
Definition require_member (value : pyval) (l : list string) : res exc unit :=
  ok ← in_frozenset value l; bad (negb ok).

Definition is_pystr (v : pyval) : bool := match v with PStr _ => true | _ => false end.

(** [[k for k in d if k not in allowlist]]. *)
Definition unknown_keys (d : pydict) (allow : list string) : list pykey :=
  List.filter (fun k => match k with KStr s => negb (str_in s allow) | KInt _ => true end)
              (map fst d).
Definition nonempty {A} (l : list A) : bool := match l with [] => false | _ => true end.

(** The elements of a field that holds a list ([for i, v in enumerate(values)]);
    iterating another kind of value is not reached after the type check. *)
Definition elements (v : pyval) : list pyval :=
  match v with PList l => l | PTuple l => l | _ => [] end.

Definition _validate_string_list (result : pydict) (field : string) : res exc unit :=
  match dget0 result field with
  | PNone => Ok tt
  | values => res_for (fun v => bad (negb (is_pystr v))) (elements values)
  end.

Definition check_finding (f : pyval) : res exc unit :=
  match f with
  | PDict d =>
      _ ← bad (nonempty (unknown_keys d _FINDING_ALLOWLIST));
      _ ← bad (negb (dhas d "severity"));
      _ ← require_member (dget0 d "severity") _SEVERITY_VALUES;
      _ ← res_for (fun k => bad (dhas d k && negb (is_pystr (dget0 d k))))
                  ["description"; "title"; "id"];
      bad (negb (dhas d "description") && negb (dhas d "title"))
  | _ => Err OutputValidationError
  end.

Definition _validate_findings (result : pydict) : res exc unit :=
  match dget0 result "findings" with
  | PNone => Ok tt
  | findings => res_for check_finding (elements findings)
  end.

Definition check_test (t : pyval) : res exc unit :=
  match t with
  | PStr _ => Ok tt
  | PDict d =>
      _ ← bad (nonempty (unknown_keys d _TEST_DICT_ALLOWLIST));
      _ ← bad (negb (dhas d "name") || negb (is_pystr (dget0 d "name")));
      _ ← bad (negb (dhas d "result"));
      require_member (dget0 d "result") _TEST_RESULT_VALUES
  | _ => Err OutputValidationError
  end.

Definition _validate_tests (result : pydict) : res exc unit :=
  match dget0 result "tests" with
  | PNone => Ok tt
  | tests => res_for check_test (elements tests)
  end.

Definition check_sec_arch (v : pyval) : res exc unit :=
  match v with
  | PStr _ => Ok tt
  | PDict d =>
      _ ← bad (negb (nonempty d));
      _ ← bad (nonempty (unknown_keys d _SEC_ARCH_DICT_ALLOWLIST));
      _ ← bad (negb (dhas d "severity"));
      _ ← require_member (dget0 d "severity") _SEVERITY_VALUES;
      _ ← bad (negb (dhas d "description"));
      bad (negb (is_pystr (dget0 d "description")))
  | _ => Err OutputValidationError
  end.

Definition _validate_sec_arch_findings (result : pydict) (field : string) : res exc unit :=
  match dget0 result field with
  | PNone => Ok tt
  | values => res_for check_sec_arch (elements values)
  end.

(** [0 <= conf <= 1] and not a [bool]. *)
Definition confidence_ok (conf : pyval) : bool :=
  match conf with
  | PInt z => (0 <=? z)%Z && (z <=? 1)%Z
  | PFloat (FDec neg m e) =>
      (negb neg || (m =? 0)%N) &&
      (neg || if (0 <=? e)%Z then (Z.of_N m * 10 ^ e <=? 1)%Z
              else (Z.of_N m <=? 10 ^ (- e))%Z)
  | _ => false
  end.

(** [json.dumps] of the output: its [TypeError] becomes a rejection. *)
Definition serialized_or_reject (result : pydict) : res exc string :=
  match json_dumps (PDict result) with
  | Ok s => Ok s
  | Err _ => Err OutputValidationError
  end.

(** The message joins the unknown keys: an integer key makes [str.join] raise. *)
Definition reject_unknown (unknown : list pykey) : res exc unit :=
  if negb (nonempty unknown) then Ok tt
  else if forallb is_kstr unknown then Err OutputValidationError else Err TypeError.

Definition validate_role_output (role : Role) (result : pyval) : res exc pyval :=
  match result with
  | PDict d =>
      serialized ← serialized_or_reject d;
      _ ← bad (MAX_RESULT_BYTES <? str_len serialized)%Z;
      _ ← bad (MAX_DEPTH <? _depth result 1)%Z;
      _ ← bad (MAX_STRING_LEN <? _max_string_len result)%Z;
      let allowed := map fst (_COMMON_FIELDS ++ _ROLE_FIELDS role ++ _OPTIONAL_FIELDS role)%list in
      _ ← reject_unknown (unknown_keys d allowed);
      let required := map fst (_COMMON_FIELDS ++ _ROLE_FIELDS role)%list in
      _ ← bad (nonempty (List.filter (fun k => negb (dhas d k)) required));
      _ ← _check_types d _COMMON_FIELDS;
      _ ← _check_types d (_ROLE_FIELDS role);
      _ ← _check_types d (_OPTIONAL_FIELDS role);
      _ ← bad (negb (is_str (dget0 d "role") (value role)));
      _ ← require_member (dget0 d "status") _STATUS_VALUES;
      _ ← bad (negb (confidence_ok (dget0 d "confidence")));
      _ ← (if bool_decide (role = LEAD) then
             require_member (dget0 d "decision") _DECISION_VALUES
           else Ok tt);
      _ ← _validate_findings d;
      _ ← res_for (fun field => if dhas d field then _validate_string_list d field else Ok tt)
                  _STRING_LIST_FIELDS;
      _ ← (if dhas d "tests" then _validate_tests d else Ok tt);
      _ ← (if dhas d "security_findings"
           then _validate_sec_arch_findings d "security_findings" else Ok tt);
      _ ← (if dhas d "architecture_findings"
           then _validate_sec_arch_findings d "architecture_findings" else Ok tt);
      _ ← (if bool_decide (role = REVIEWER) then
             require_member (dget0 d "severity") _SEVERITY_VALUES
           else Ok tt);
      _ ← match scan_value_for_denylist result with
          | Some _ => Err OutputValidationError
          | None => Ok tt
          end;
      Ok result
  | _ => Err OutputValidationError
  end.

(** ** Specification: what an accepted output is. *)
Definition member (v : pyval) (l : list string) : Prop := exists s, v = PStr s /\ In s l.
Definition only_keys (d : pydict) (allow : list string) : Prop :=
  forall k v, In (k, v) d -> exists s, k = KStr s /\ In s allow.
Definition str_if_present (d : pydict) (k : string) : Prop :=
  forall v, dget d k = Some v -> exists s, v = PStr s.

Definition finding_ok (f : pyval) : Prop :=
  exists d, f = PDict d /\ only_keys d _FINDING_ALLOWLIST /\
    member (dget0 d "severity") _SEVERITY_VALUES /\
    Forall (str_if_present d) ["description"; "title"; "id"] /\
    (dhas d "description" = true \/ dhas d "title" = true).
Definition test_ok (t : pyval) : Prop :=
  (exists s, t = PStr s) \/
  exists d s, t = PDict d /\ only_keys d _TEST_DICT_ALLOWLIST /\
    dget0 d "name" = PStr s /\ member (dget0 d "result") _TEST_RESULT_VALUES.
Definition sec_arch_ok (v : pyval) : Prop :=
  (exists s, v = PStr s) \/
  exists d s, v = PDict d /\ only_keys d _SEC_ARCH_DICT_ALLOWLIST /\
    member (dget0 d "severity") _SEVERITY_VALUES /\ dget0 d "description" = PStr s.

Definition typed (d : pydict) (spec : list (string * ty)) : Prop :=
  Forall (fun fe => forall v, dget d (fst fe) = Some v -> _is_instance v (snd fe) = true) spec.
Definition each (P : pyval -> Prop) (d : pydict) (field : string) : Prop :=
  dhas d field = true -> Forall P (elements (dget0 d field)).

Record valid_output (role : Role) (d : pydict) : Prop := {
  vo_size : exists s, json_dumps (PDict d) = Ok s /\ (str_len s <= MAX_RESULT_BYTES)%Z;
  vo_depth : (_depth (PDict d) 1 <= MAX_DEPTH)%Z;
  vo_strings : (_max_string_len (PDict d) <= MAX_STRING_LEN)%Z;
  vo_fields : only_keys d
    (map fst (_COMMON_FIELDS ++ _ROLE_FIELDS role ++ _OPTIONAL_FIELDS role)%list);
  vo_required : Forall (fun k => dhas d k = true)
    (map fst (_COMMON_FIELDS ++ _ROLE_FIELDS role)%list);
  vo_typed : typed d _COMMON_FIELDS /\ typed d (_ROLE_FIELDS role) /\
             typed d (_OPTIONAL_FIELDS role);
  vo_role : dget0 d "role" = PStr (value role);
  vo_status : member (dget0 d "status") _STATUS_VALUES;
  vo_confidence : confidence_ok (dget0 d "confidence") = true;
  vo_decision : role = LEAD -> member (dget0 d "decision") _DECISION_VALUES;
  vo_findings : each finding_ok d "findings";
  vo_string_lists : Forall (each (fun v => exists s, v = PStr s) d) _STRING_LIST_FIELDS;
  vo_tests : each test_ok d "tests";
  vo_security : each sec_arch_ok d "security_findings";
  vo_architecture : each sec_arch_ok d "architecture_findings";
  vo_severity : role = REVIEWER -> member (dget0 d "severity") _SEVERITY_VALUES;
  vo_private : Forall clean (strings_of (PDict d))
}.

(** ** Lemmas *)
Lemma bad_ok b : bad b = Ok tt <-> b = false.
Proof. apply res_when_ok. Qed.

Lemma member_unhashable v l : hashable v = false -> ~ member v l.
Proof. intros H (s & -> & _). discriminate. Qed.

Lemma existsb_is_str v l : existsb (is_str v) l = true <-> member v l.
Proof.
  rewrite existsb_exists. split.
  - intros (s & I & E). apply is_str_eq in E as ->. by exists s.
  - intros (s & -> & I). exists s. split; [done | by apply is_str_eq].
Qed.

Lemma require_member_ok v l : require_member v l = Ok tt <-> member v l.
Proof.
  unfold require_member, in_frozenset, mbind, res_bind. destruct (hashable v) eqn:H.
  - rewrite bad_ok, negb_false_iff. apply existsb_is_str.
  - split; [discriminate|]. intros M. by destruct (member_unhashable v l H).
Qed.

Lemma nonempty_false {A} (l : list A) : nonempty l = false <-> l = [].
Proof. destruct l; cbn; intuition congruence. Qed.

Lemma filter_nil {A} (f : A -> bool) l : List.filter f l = [] <-> Forall (fun x => f x = false) l.
Proof.
  induction l as [|x l IH]; cbn; [split; auto|]. rewrite Forall_cons.
  destruct (f x) eqn:E; [split; [discriminate | intros [? _]; congruence] |].
  rewrite IH. tauto.
Qed.

Lemma unknown_keys_nil d allow : unknown_keys d allow = [] <-> only_keys d allow.
Proof.
  unfold unknown_keys, only_keys. rewrite filter_nil, Forall_map, Forall_forall. split.
  - intros H k v I. specialize (H (k, v)). rewrite list_elem_of_In in H. apply H in I.
    destruct k as [s|z]; cbn in I; [|discriminate]. rewrite negb_false_iff in I.
    exists s. split; [done | by apply str_in_In].
  - intros H [k v] I. rewrite list_elem_of_In in I. destruct (H k v I) as (s & -> & M).
    cbn. rewrite negb_false_iff. by apply str_in_In.
Qed.

Lemma is_pystr_iff v : is_pystr v = true <-> exists s, v = PStr s.
Proof.
  destruct v; cbn; split; try discriminate; try (intros [? E]; discriminate E).
  - eauto.
  - done.
Qed.

Lemma dget0_str d k s : dget0 d k = PStr s <-> dget d k = Some (PStr s).
Proof. unfold dget0. destruct (dget d k); intuition congruence. Qed.

Lemma member_dhas d k l : member (dget0 d k) l -> dhas d k = true.
Proof. intros (s & E & _). apply dget0_str in E. unfold dhas. by rewrite E. Qed.

Lemma str_if_present_iff d k :
  dhas d k && negb (is_pystr (dget0 d k)) = false <-> str_if_present d k.
Proof.
  unfold str_if_present, dhas, dget0. destruct (dget d k) as [v|]; cbn.
  - rewrite negb_false_iff, is_pystr_iff. split; [intros ? ? [= <-]; done | auto].
  - split; [intros _ v; discriminate | done].
Qed.

Lemma unknown_ok d allow :
  bad (nonempty (unknown_keys d allow)) = Ok tt <-> only_keys d allow.
Proof. by rewrite bad_ok, nonempty_false, unknown_keys_nil. Qed.
Lemma dhas_ok d k : bad (negb (dhas d k)) = Ok tt <-> dhas d k = true.
Proof. by rewrite bad_ok, negb_false_iff. Qed.
Lemma str_field_ok d k :
  bad (negb (is_pystr (dget0 d k))) = Ok tt <-> exists s, dget0 d k = PStr s.
Proof. by rewrite bad_ok, negb_false_iff, is_pystr_iff. Qed.

Lemma check_finding_ok f : check_finding f = Ok tt <-> finding_ok f.
Proof.
  unfold finding_ok. destruct f as [| | | | | | |d|];
    try (split; [discriminate | intros (d' & E & _); discriminate E]).
  cbn [check_finding]. rewrite !res_seq_ok, unknown_ok, dhas_ok, require_member_ok, res_for_ok, bad_ok.
  assert (S : Forall (fun k => bad (dhas d k && negb (is_pystr (dget0 d k))) = Ok tt)
                ["description"; "title"; "id"] <->
              Forall (str_if_present d) ["description"; "title"; "id"]).
  { apply Forall_proper; [|done]. intros k. by rewrite bad_ok, str_if_present_iff. }
  rewrite S, andb_false_iff, !negb_false_iff. split.
  - intros (K & _ & M & F & D). by exists d.
  - intros (d' & [= <-] & K & M & F & D). split_and!; try done. exact (member_dhas _ _ _ M).
Qed.

Lemma check_test_ok t : check_test t = Ok tt <-> test_ok t.
Proof.
  unfold test_ok. destruct t as [| | | |s| | |d|];
    try (split; [discriminate | intros [[? E]|(? & ? & E & _)]; discriminate E]).
  - split; eauto.
  - cbn [check_test].
    rewrite !res_seq_ok, unknown_ok, dhas_ok, require_member_ok, bad_ok, orb_false_iff,
      !negb_false_iff, is_pystr_iff.
    split.
    + intros (K & [_ [s N]] & _ & M). right. by exists d, s.
    + intros [[? E]|(d' & s & [= <-] & K & N & M)]; [discriminate|].
      split_and!; try done; [|by exists s|exact (member_dhas _ _ _ M)].
      apply dget0_str in N. unfold dhas. by rewrite N.
Qed.

Lemma check_sec_arch_ok v : check_sec_arch v = Ok tt <-> sec_arch_ok v.
Proof.
  unfold sec_arch_ok. destruct v as [| | | |s| | |d|];
    try (split; [discriminate | intros [[? E]|(? & ? & E & _)]; discriminate E]).
  - split; eauto.
  - cbn [check_sec_arch].
    rewrite !res_seq_ok, unknown_ok, !dhas_ok, require_member_ok, str_field_ok, bad_ok, negb_false_iff.
    split.
    + intros (_ & K & _ & M & _ & [s D]). right. by exists d, s.
    + intros [[? E]|(d' & s & [= <-] & K & M & D)]; [discriminate|].
      split_and!; try done; [|exact (member_dhas _ _ _ M)| |by exists s].
      * apply member_dhas in M. by destruct d.
      * apply dget0_str in D. unfold dhas. by rewrite D.
Qed.

(** A field loop checks every element of the field. *)
Lemma dhas_false_get0 d k : dhas d k = false -> dget0 d k = PNone.
Proof. unfold dhas, dget0. by destruct (dget d k). Qed.

Lemma field_loop_ok (f : pyval -> res exc unit) (P : pyval -> Prop) d field :
  (forall v, f v = Ok tt <-> P v) ->
  match dget0 d field with PNone => Ok tt | vs => res_for f (elements vs) end = Ok tt <->
  each P d field.
Proof.
  intros H. unfold each.
  assert (L : forall l, res_for f l = Ok tt <-> Forall P l)
    by (intros l; rewrite res_for_ok; by apply Forall_proper).
  destruct (dhas d field) eqn:D.
  - destruct (dget0 d field); cbn; rewrite ?L; try tauto; split; auto.
  - rewrite (dhas_false_get0 _ _ D). split; [discriminate | done].
Qed.

Lemma if_each (b : bool) (m : res exc unit) (Q : Prop) :
  (m = Ok tt <-> (b = true -> Q)) -> (if b then m else Ok tt) = Ok tt <-> (b = true -> Q).
Proof. intros H. destruct b; [exact H | intuition congruence]. Qed.

Lemma check_types_ok d spec : _check_types d spec = Ok tt <-> typed d spec.
Proof.
  unfold _check_types, typed. rewrite res_for_ok. apply Forall_proper; [|done].
  intros [k t]. cbn [fst snd]. destruct (dget d k) as [v|].
  - rewrite bad_ok, negb_false_iff. split; [intros ? ? [= <-]; done | auto].
  - split; [intros _ v; discriminate | done].
Qed.

Lemma reject_unknown_ok d allow :
  reject_unknown (unknown_keys d allow) = Ok tt <-> only_keys d allow.
Proof.
  rewrite <- unknown_keys_nil. unfold reject_unknown.
  destruct (unknown_keys d allow) as [|k l]; cbn; [tauto|].
  destruct (_ && _); split; discriminate.
Qed.

Lemma required_ok d req :
  bad (nonempty (List.filter (fun k => negb (dhas d k)) req)) = Ok tt <->
  Forall (fun k => dhas d k = true) req.
Proof.
  rewrite bad_ok, nonempty_false, filter_nil. apply Forall_proper; [|done].
  intros k. apply negb_false_iff.
Qed.

Lemma role_case_ok (role r : Role) (m : res exc unit) (Q : Prop) :
  (m = Ok tt <-> Q) ->
  (if bool_decide (role = r) then m else Ok tt) = Ok tt <-> (role = r -> Q).
Proof. intros H. case_bool_decide; intuition. Qed.

Lemma size_ok {d s} :
  serialized_or_reject d = Ok s <-> json_dumps (PDict d) = Ok s.
Proof. unfold serialized_or_reject. destruct (json_dumps _); intuition congruence. Qed.

Lemma ltb_ok a b : bad (a <? b)%Z = Ok tt <-> (b <= a)%Z.
Proof. rewrite bad_ok. apply Z.ltb_ge. Qed.

Lemma scan_ok v :
  match scan_value_for_denylist v with
  | Some _ => Err OutputValidationError | None => Ok tt end = Ok tt <->
  Forall clean (strings_of v).
Proof.
  rewrite <- scan_value_none. unfold scan_value_for_denylist.
  destruct (_scan_value v); intuition congruence.
Qed.

(** The validator decides the output contract: a role output is accepted,
    and returned unmodified, exactly when it is a dict that serialises within
    the size, depth and string limits, has exactly the allowed fields with
    every required one present and typed, names its role, has a valid status,
    decision, severity and confidence, well-formed findings, tests and string
    lists, and no deny-listed word at any depth. *)
Theorem validate_role_output_spec role v r :
  validate_role_output role v = Ok r <->
  r = v /\ exists d, v = PDict d /\ valid_output role d.
Proof.
  destruct v as [| | | | | | |d|];
    try (split; [discriminate | intros (_ & d' & E & _); discriminate E]).
  assert (Hv : forall s, json_dumps (PDict d) = Ok s ->
    (validate_role_output role (PDict d) = Ok r <-> r = PDict d /\ valid_output role d)).
  2:{ split.
      - intros H. destruct (json_dumps (PDict d)) as [s|e] eqn:J.
        + apply (Hv s eq_refl) in H as [-> H]. split; [done | by exists d].
        + exfalso. cbn [validate_role_output] in H. unfold serialized_or_reject in H.
          rewrite J in H. discriminate H.
      - intros (-> & d' & [= <-] & H). destruct (vo_size _ _ H) as (s & J & _).
        by apply (Hv s J). }
  intros s J. cbn [validate_role_output]. rewrite (proj2 size_ok J).
  change (mbind ?k (Ok s)) with (k s). cbv beta zeta.
  rewrite !res_seq_ok, !ltb_ok, reject_unknown_ok, required_ok, !check_types_ok,
    !require_member_ok, scan_ok.
  rewrite (role_case_ok role LEAD _ _ (require_member_ok _ _)),
    (role_case_ok role REVIEWER _ _ (require_member_ok _ _)), !bad_ok, !negb_false_iff, is_str_eq.
  rewrite (field_loop_ok _ finding_ok d "findings" check_finding_ok).
  rewrite (if_each _ _ _ (field_loop_ok _ test_ok d "tests" check_test_ok)).
  rewrite (if_each _ _ _ (field_loop_ok _ sec_arch_ok d "security_findings" check_sec_arch_ok)).
  rewrite (if_each _ _ _ (field_loop_ok _ sec_arch_ok d "architecture_findings" check_sec_arch_ok)).
  assert (SL : res_for (fun field => if dhas d field then _validate_string_list d field else Ok tt)
                 _STRING_LIST_FIELDS = Ok tt <->
               Forall (each (fun v => exists s, v = PStr s) d) _STRING_LIST_FIELDS).
  { rewrite res_for_ok. apply Forall_proper; [|done]. intros field. apply if_each.
    apply field_loop_ok. intros v. by rewrite bad_ok, negb_false_iff, is_pystr_iff. }
  rewrite SL. split.
  - intros H. decompose [and] H. split; [congruence|]. constructor; try tauto.
    by exists s.
  - intros [-> H]. destruct H as [(s' & J' & L) ? ? ? ? (? & ? & ?)].
    rewrite J in J'. injection J' as <-. split_and!; try done; assumption.
Qed.

(** ** Errors.  The values of a nested enumerated field that Python cannot hash. *)
Definition unhashable_in (d : pydict) (field key : string) : Prop :=
  exists x, In (PDict x) (elements (dget0 d field)) /\ hashable (dget0 x key) = false.
Definition crash (d : pydict) : Prop :=
  (exists z v, In (KInt z, v) d) \/
  unhashable_in d "findings" "severity" \/ unhashable_in d "tests" "result" \/
  unhashable_in d "security_findings" "severity" \/
  unhashable_in d "architecture_findings" "severity".

Definition rejects (C : Prop) (e : exc) : Prop :=
  e = OutputValidationError \/ (e = TypeError /\ C).

Lemma rejects_bad C b : raises_only (rejects C) (bad b).
Proof. apply raises_when. by left. Qed.
Lemma rejects_member C v l :
  (hashable v = false -> C) -> raises_only (rejects C) (require_member v l).
Proof.
  intros H. apply raises_bind.
  - unfold in_frozenset. destruct (hashable v); [apply raises_ok | apply raises_err; right; auto].
  - intros b _. apply rejects_bad.
Qed.
Lemma rejects_bad_type C (e : exc) : e = OutputValidationError -> rejects C e.
Proof. by left. Qed.
#[export] Hint Resolve rejects_bad rejects_member rejects_bad_type : raises.

Ltac reject_step :=
  first [ apply raises_ok
        | apply rejects_bad
        | apply raises_err; left; reflexivity
        | apply rejects_member
        | apply raises_bind; [|intros ? ?] ].

Lemma rejects_finding f :
  raises_only (rejects (exists d, f = PDict d /\ hashable (dget0 d "severity") = false))
    (check_finding f).
Proof.
  destruct f as [| | | | | | |d|]; try solve [cbn; reject_step].
  cbn [check_finding]. repeat reject_step. intros Hh. by exists d.
Qed.
Lemma rejects_test t :
  raises_only (rejects (exists d, t = PDict d /\ hashable (dget0 d "result") = false))
    (check_test t).
Proof.
  destruct t as [| | | | | | |d|]; try solve [cbn; reject_step].
  cbn [check_test]. repeat reject_step. intros Hh. by exists d.
Qed.
Lemma rejects_sec_arch v :
  raises_only (rejects (exists d, v = PDict d /\ hashable (dget0 d "severity") = false))
    (check_sec_arch v).
Proof.
  destruct v as [| | | | | | |d|]; try solve [cbn; reject_step].
  cbn [check_sec_arch]. repeat reject_step. intros Hh. by exists d.
Qed.

Lemma raises_for_in {E A} (P : E -> Prop) (f : A -> res E unit) l :
  (forall x, In x l -> raises_only P (f x)) -> raises_only P (res_for f l).
Proof.
  induction l as [|x l IH]; intros H; [apply raises_ok | cbn].
  apply raises_bind; [apply H; by left | intros _ _; apply IH; intros y I; apply H; by right].
Qed.

Lemma raises_weaken {E A} (P Q : E -> Prop) (m : res E A) :
  (forall e, P e -> Q e) -> raises_only P m -> raises_only Q m.
Proof. intros H R e E'. by apply H, R. Qed.

Lemma rejects_field f key d field C :
  (forall v, raises_only
     (rejects (exists x, v = PDict x /\ hashable (dget0 x key) = false)) (f v)) ->
  (unhashable_in d field key -> C) ->
  raises_only (rejects C)
    (match dget0 d field with PNone => Ok tt | vs => res_for f (elements vs) end).
Proof.
  intros Hf HC.
  assert (L : raises_only (rejects C) (res_for f (elements (dget0 d field)))).
  { apply raises_for_in. intros v I. refine (raises_weaken _ _ _ _ (Hf v)).
    intros e [-> |[-> (x & -> & Hx)]]; [by left | right; split; [done|]].
    apply HC. exists x. by split. }
  destruct (dget0 d field); exact L.
Qed.

Lemma typed_hashable d spec k :
  _check_types d spec = Ok tt -> In (k, TStr) spec -> hashable (dget0 d k) = true.
Proof.
  intros T I. apply check_types_ok in T. unfold typed in T. rewrite Forall_forall in T.
  specialize (T (k, TStr)). rewrite list_elem_of_In in T. specialize (T I). cbn in T.
  unfold dget0. destruct (dget d k) as [v|]; [|done]. specialize (T v eq_refl). by destruct v.
Qed.

Lemma rejects_unknown d allow :
  raises_only (rejects (exists z v, In (KInt z, v) d)) (reject_unknown (unknown_keys d allow)).
Proof.
  unfold reject_unknown. destruct (negb _); [apply raises_ok|].
  destruct (forallb is_kstr (unknown_keys d allow)) eqn:F; [apply raises_err; by left|].
  apply raises_err. right. split; [done|].
  assert (E : exists k, In k (unknown_keys d allow) /\ is_kstr k = false).
  { clear - F. induction (unknown_keys d allow) as [|k l IH]; cbn in F; [discriminate|].
    apply andb_false_iff in F as [F|F]; [exists k; split; [by left | done]|].
    destruct (IH F) as (k' & I & K). exists k'. split; [by right | done]. }
  destruct E as (k & I & K). unfold unknown_keys in I. apply filter_In in I as [I _].
  apply in_map_iff in I as ([k' v] & E & I). cbn in E. subst k'.
  destruct k as [|z]; [discriminate|]. by exists z, v.
Qed.

Lemma rejects_types d spec C : raises_only (rejects C) (_check_types d spec).
Proof.
  apply raises_for. intros [k t]. cbn [fst snd]. destruct (dget d k); reject_step.
Qed.
Lemma rejects_string_lists d C l :
  raises_only (rejects C)
    (res_for (fun field => if dhas d field then _validate_string_list d field else Ok tt) l).
Proof.
  apply raises_for. intros k. destruct (dhas d k); [|apply raises_ok].
  unfold _validate_string_list.
  destruct (dget0 d k); try apply raises_ok; apply raises_for; intros; apply rejects_bad.
Qed.
(** A required string field is hashable once the type check passed. *)
Lemma rejects_typed_member d spec k l C :
  _check_types d spec = Ok tt -> In (k, TStr) spec ->
  raises_only (rejects C) (require_member (dget0 d k) l).
Proof.
  intros T I. apply rejects_member. rewrite (typed_hashable _ _ _ T I). discriminate.
Qed.
Lemma rejects_if C (b : bool) (m : res exc unit) :
  (b = true -> raises_only (rejects C) m) -> raises_only (rejects C) (if b then m else Ok tt).
Proof. destruct b; [auto | intros _; apply raises_ok]. Qed.

Ltac then_reject t := apply raises_bind; [t | intros _ _].

(** A refused output raises [OutputValidationError]; the only other
    exception the validator can raise is Python's [TypeError], and only for an
    output with an integer top-level key or with a list or dict where a nested
    severity or test result is expected. *)
Theorem validate_role_output_errors role v e :
  validate_role_output role v = Err e ->
  e = OutputValidationError \/
  (e = TypeError /\ exists d, v = PDict d /\ crash d).
Proof.
  assert (H : raises_only (rejects (exists d, v = PDict d /\ crash d))
                (validate_role_output role v)); [|exact (H e)].
  destruct v as [| | | | | | |d|]; try solve [cbn; reject_step].
  refine (raises_weaken (rejects (crash d)) _ _ _ _).
  { intros e' [-> |[-> C]]; [by left | right; split; [done | by exists d]]. }
  cbn [validate_role_output]. cbv zeta.
  apply raises_bind; [unfold serialized_or_reject; destruct (json_dumps _); reject_step|].
  intros s _. do 3 then_reject ltac:(apply rejects_bad).
  then_reject ltac:(apply (raises_weaken (rejects (exists z w, In (KInt z, w) d)));
    [intros e' [-> |[-> C]]; [by left | right; split; [done | by left]] | apply rejects_unknown]).
  then_reject ltac:(apply rejects_bad).
  apply raises_bind; [apply rejects_types | intros [] T1].
  apply raises_bind; [apply rejects_types | intros [] T2].
  then_reject ltac:(apply rejects_types). then_reject ltac:(apply rejects_bad).
  then_reject ltac:(apply (rejects_typed_member _ _ _ _ _ T1); cbn; tauto).
  then_reject ltac:(apply rejects_bad).
  then_reject ltac:(apply rejects_if; intros ->%bool_decide_eq_true;
    apply (rejects_typed_member _ _ _ _ _ T2); cbn; tauto).
  then_reject ltac:(apply (rejects_field check_finding "severity");
    [apply rejects_finding | unfold crash; tauto]).
  then_reject ltac:(apply rejects_string_lists).
  then_reject ltac:(apply rejects_if; intros _; apply (rejects_field check_test "result");
    [apply rejects_test | unfold crash; tauto]).
  do 2 then_reject ltac:(apply rejects_if; intros _;
    apply (rejects_field check_sec_arch "severity"); [apply rejects_sec_arch | unfold crash; tauto]).
  then_reject ltac:(apply rejects_if; intros ->%bool_decide_eq_true;
    apply (rejects_typed_member _ _ _ _ _ T2); cbn; tauto).
  apply raises_bind; [destruct (scan_value_for_denylist _); reject_step | intros _ _].
  apply raises_ok.
Qed.

(** A complete analyst output whose findings are [fs]. *)
Definition sample_output (fs : list pyval) : pyval :=
  PDict (map (fun kv => (KStr (fst kv), snd kv))
    [("role", PStr "analyst"); ("task_id", PStr "t"); ("dispatch_id", PStr "d");
     ("status", PStr "ok"); ("findings", PList fs); ("own_assessment", PStr "fine");
     ("concerns", PList []); ("proposal", PStr "go"); ("alternatives", PList []);
     ("confidence", PFloat (FDec false 9 (-1))); ("blockers", PList []);
     ("requested_next_state", PStr "LEAD_DECISION"); ("reproduction", PStr "yes");
     ("root_cause", PStr "x"); ("evidence_refs", PList [])]).
Definition sample_finding (severity : pyval) : pyval :=
  PDict [(KStr "severity", severity); (KStr "title", PStr "a")].

Example sample_accepted :
  validate_role_output ANALYST (sample_output [sample_finding (PStr "low")]) =
  Ok (sample_output [sample_finding (PStr "low")]).
Proof. by vm_compute. Qed.
Example sample_rejected :
  validate_role_output ANALYST (sample_output [sample_finding (PStr "urgent")]) =
  Err OutputValidationError.
Proof. by vm_compute. Qed.

Lemma validate_role_output_errors_witness :
  validate_role_output ANALYST (sample_output [sample_finding (PList [])]) = Err TypeError /\
  exists d, sample_output [sample_finding (PList [])] = PDict d /\ crash d.
Proof.
  split; [by vm_compute|].
  destruct (validate_role_output_errors ANALYST (sample_output [sample_finding (PList [])])
              TypeError eq_refl) as [E|[_ C]]; [discriminate E | exact C].
Defined.

(** The validator is not crash-free: a document that [json.loads] accepts and
    whose only defect is a list in place of a finding's severity makes it raise
    [TypeError] (membership test of an unhashable value) instead of rejecting
    the output as malformed. *)
Theorem unhashable_severity_crashes :
  exists text v,
    json_loads text = Ok v /\
    validate_role_output ANALYST v = Err TypeError /\
    is_ok (validate_role_output ANALYST (sample_output [sample_finding (PStr "low")])) = true.
Proof.
  exists (enc (sample_output [sample_finding (PList [])])).
  exists (match json_loads (enc (sample_output [sample_finding (PList [])])) with
          | Ok v => v | Err _ => PNone end).
  split_and!; by vm_compute.
Qed.
