(* ===== verification/JobState.v ===== *)
(** * JobState: the operational projection of a supervisor job
    (src/argent_core/job_state.py). *)
From S2P Require Import Prelude PyVal Models.
#[local] Open Scope string_scope.

Inductive PrimaryState : Type :=
| PS_QUEUED
| PS_RUNNING
| PS_WAITING_EXTERNAL
| PS_OWNER_GATE
| PS_BLOCKED
| PS_FAILED
| PS_LOST
| PS_DONE.
Definition PrimaryState_value (x : PrimaryState) : string :=
  match x with
  | PS_QUEUED => "QUEUED"
  | PS_RUNNING => "RUNNING"
  | PS_WAITING_EXTERNAL => "WAITING_EXTERNAL"
  | PS_OWNER_GATE => "OWNER_GATE"
  | PS_BLOCKED => "BLOCKED"
  | PS_FAILED => "FAILED"
  | PS_LOST => "LOST"
  | PS_DONE => "DONE"
  end.
#[export] Instance PrimaryState_eq_dec : EqDecision PrimaryState.
Proof. solve_decision. Defined.
#[export] Program Instance PrimaryState_enum : PyEnum PrimaryState := {|
  members := [PS_QUEUED; PS_RUNNING; PS_WAITING_EXTERNAL; PS_OWNER_GATE; PS_BLOCKED; PS_FAILED; PS_LOST; PS_DONE];
  value := PrimaryState_value |}.
Next Obligation. solve_complete. Qed.
Next Obligation. solve_value_inj. Qed.

Definition PRIMARY_STATE_VALUES : list string := map value (members (A := PrimaryState)).

Inductive QueueReason : Type :=
| QR_NEW
| QR_RETRY_BACKOFF
| QR_WAIT_EVENT
| QR_WAIT_DEADLINE
| QR_GATE_APPROVED
| QR_RECOVERY
| QR_RESOURCE_DEFERRED
| QR_RESOURCE_DENIED
| QR_CONCURRENCY_SERIALIZED.
Definition QueueReason_value (x : QueueReason) : string :=
  match x with
  | QR_NEW => "NEW"
  | QR_RETRY_BACKOFF => "RETRY_BACKOFF"
  | QR_WAIT_EVENT => "WAIT_EVENT"
  | QR_WAIT_DEADLINE => "WAIT_DEADLINE"
  | QR_GATE_APPROVED => "GATE_APPROVED"
  | QR_RECOVERY => "RECOVERY"
  | QR_RESOURCE_DEFERRED => "RESOURCE_DEFERRED"
  | QR_RESOURCE_DENIED => "RESOURCE_DENIED"
  | QR_CONCURRENCY_SERIALIZED => "CONCURRENCY_SERIALIZED"
  end.
#[export] Instance QueueReason_eq_dec : EqDecision QueueReason.
Proof. solve_decision. Defined.
#[export] Program Instance QueueReason_enum : PyEnum QueueReason := {|
  members := [QR_NEW; QR_RETRY_BACKOFF; QR_WAIT_EVENT; QR_WAIT_DEADLINE; QR_GATE_APPROVED; QR_RECOVERY; QR_RESOURCE_DEFERRED; QR_RESOURCE_DENIED; QR_CONCURRENCY_SERIALIZED];
  value := QueueReason_value |}.
Next Obligation. solve_complete. Qed.
Next Obligation. solve_value_inj. Qed.

Inductive ErrorClass : Type :=
| EC_NONE
| EC_TRANSIENT
| EC_DETERMINISTIC
| EC_RESOURCE
| EC_EXTERNAL
| EC_SECURITY
| EC_OWNER_REQUIRED
| EC_CONTEXT
| EC_PROVIDER.
Definition ErrorClass_value (x : ErrorClass) : string :=
  match x with
  | EC_NONE => "NONE"
  | EC_TRANSIENT => "TRANSIENT"
  | EC_DETERMINISTIC => "DETERMINISTIC"
  | EC_RESOURCE => "RESOURCE"
  | EC_EXTERNAL => "EXTERNAL"
  | EC_SECURITY => "SECURITY"
  | EC_OWNER_REQUIRED => "OWNER_REQUIRED"
  | EC_CONTEXT => "CONTEXT"
  | EC_PROVIDER => "PROVIDER"
  end.
#[export] Instance ErrorClass_eq_dec : EqDecision ErrorClass.
Proof. solve_decision. Defined.
#[export] Program Instance ErrorClass_enum : PyEnum ErrorClass := {|
  members := [EC_NONE; EC_TRANSIENT; EC_DETERMINISTIC; EC_RESOURCE; EC_EXTERNAL; EC_SECURITY; EC_OWNER_REQUIRED; EC_CONTEXT; EC_PROVIDER];
  value := ErrorClass_value |}.
Next Obligation. solve_complete. Qed.
Next Obligation. solve_value_inj. Qed.

Inductive WaitKind : Type :=
| WK_NONE
| WK_CI
| WK_UPSTREAM
| WK_RATE_LIMIT
| WK_NETWORK
| WK_TIMER.
Definition WaitKind_value (x : WaitKind) : string :=
  match x with
  | WK_NONE => "NONE"
  | WK_CI => "CI"
  | WK_UPSTREAM => "UPSTREAM"
  | WK_RATE_LIMIT => "RATE_LIMIT"
  | WK_NETWORK => "NETWORK"
  | WK_TIMER => "TIMER"
  end.
#[export] Instance WaitKind_eq_dec : EqDecision WaitKind.
Proof. solve_decision. Defined.
#[export] Program Instance WaitKind_enum : PyEnum WaitKind := {|
  members := [WK_NONE; WK_CI; WK_UPSTREAM; WK_RATE_LIMIT; WK_NETWORK; WK_TIMER];
  value := WaitKind_value |}.
Next Obligation. solve_complete. Qed.
Next Obligation. solve_value_inj. Qed.

(** ** status and primary state *)
(** [_STATUS_TO_PRIMARY.get(status)]; the [TERMINAL] entry maps to [None]. *)
Definition _STATUS_TO_PRIMARY (status : string) : option PrimaryState :=
  if String.eqb status "ACTIVE" then Some PS_RUNNING
  else if String.eqb status "WAITING_RUN" then Some PS_QUEUED
  else if String.eqb status "WAITING_GATE" then Some PS_OWNER_GATE
  else if String.eqb status "BACKOFF" then Some PS_QUEUED
  else if String.eqb status "RECOVERING" then Some PS_LOST
  else if String.eqb status "ERROR" then Some PS_BLOCKED
  else None.

Definition _PRIMARY_TO_STATUS (p : PrimaryState) : string :=
  match p with
  | PS_QUEUED => "WAITING_RUN"
  | PS_RUNNING => "ACTIVE"
  | PS_WAITING_EXTERNAL => "WAITING_RUN"
  | PS_OWNER_GATE => "WAITING_GATE"
  | PS_BLOCKED => "TERMINAL"
  | PS_FAILED => "TERMINAL"
  | PS_DONE => "TERMINAL"
  | PS_LOST => "RECOVERING"
  end.

(** [_TERMINAL_TO_PRIMARY.get(terminal)]. *)
Definition _TERMINAL_TO_PRIMARY (terminal : option string) : option PrimaryState :=
  if ostr_eqb terminal (Some "DONE") then Some PS_DONE
  else if ostr_eqb terminal (Some "FAILED") then Some PS_FAILED
  else if ostr_eqb terminal (Some "BLOCKED") then Some PS_BLOCKED
  else None.

Definition derive_primary_state (status : string)
    (terminal recovery_state wait_kind queue_reason : option string) : PrimaryState :=
  match _TERMINAL_TO_PRIMARY terminal with
  | Some p => p
  | None =>
      if String.eqb status "TERMINAL" then PS_BLOCKED
      else if String.eqb status "WAITING_RUN" then
        if otruthy wait_kind && negb (ostr_eqb wait_kind (Some (value WK_NONE)))
        then PS_WAITING_EXTERNAL else PS_QUEUED
      else match _STATUS_TO_PRIMARY status with Some p => p | None => PS_BLOCKED end
  end.

Definition primary_state_to_status (primary_state : PrimaryState) : string :=
  _PRIMARY_TO_STATUS primary_state.

Definition status_for_enqueue (queue_reason : string) : string :=
  if String.eqb queue_reason (value QR_RETRY_BACKOFF) then "BACKOFF" else "WAITING_RUN".

(** ** Lemmas *)
(** The columns a job in primary state [p] carries. *)
Definition terminal_column (p : PrimaryState) : option string :=
  match p with
  | PS_DONE => Some "DONE" | PS_FAILED => Some "FAILED" | PS_BLOCKED => Some "BLOCKED"
  | _ => None
  end.
Definition wait_column_ok (p : PrimaryState) (wait_kind : option string) : bool :=
  match p with
  | PS_WAITING_EXTERNAL => otruthy wait_kind && negb (ostr_eqb wait_kind (Some "NONE"))
  | PS_QUEUED => negb (otruthy wait_kind) || ostr_eqb wait_kind (Some "NONE")
  | _ => true
  end.

(** The two projections agree: writing the V2C status of a primary state
    together with its terminal and wait columns and deriving the primary state
    again gives it back, whatever the recovery and queue columns are. *)
Theorem primary_state_roundtrip p recovery_state wait_kind queue_reason :
  wait_column_ok p wait_kind = true ->
  derive_primary_state (primary_state_to_status p) (terminal_column p) recovery_state wait_kind
    queue_reason = p.
Proof.
  unfold derive_primary_state. destruct p; cbn; try done.
  - intros W. apply orb_true_iff in W as [W|W].
    + apply negb_true_iff in W. by rewrite W.
    + rewrite W. by rewrite andb_false_r.
  - intros W. by rewrite W.
Qed.

Lemma primary_state_roundtrip_witness :
  derive_primary_state "WAITING_RUN" None None (Some "CI") None = PS_WAITING_EXTERNAL.
Proof. exact (primary_state_roundtrip PS_WAITING_EXTERNAL None (Some "CI") None eq_refl). Defined.

(** The projection fails closed: a row is claimable (QUEUED) only when its
    status is WAITING_RUN without a real wait or BACKOFF and no sticky terminal
    is recorded; every unknown status projects to BLOCKED; and a recorded
    terminal decides the projection whatever the other columns say. *)
Theorem derive_fail_closed status terminal rs wk qr :
  (derive_primary_state status terminal rs wk qr = PS_QUEUED ->
   _TERMINAL_TO_PRIMARY terminal = None /\
   (status = "BACKOFF" \/ (status = "WAITING_RUN" /\ wait_column_ok PS_QUEUED wk = true))) /\
  (~ In status ["ACTIVE"; "WAITING_RUN"; "WAITING_GATE"; "BACKOFF"; "RECOVERING"; "ERROR"] ->
   _TERMINAL_TO_PRIMARY terminal = None ->
   derive_primary_state status terminal rs wk qr = PS_BLOCKED) /\
  (forall p, In p [PS_DONE; PS_FAILED; PS_BLOCKED] ->
   derive_primary_state status (terminal_column p) rs wk qr = p).
Proof.
  split_and!.
  - unfold derive_primary_state. destruct (_TERMINAL_TO_PRIMARY terminal) as [p|] eqn:T.
    + intros ->. exfalso. unfold _TERMINAL_TO_PRIMARY in T. case_tests; discriminate.
    + intros D. split; [done|]. unfold _STATUS_TO_PRIMARY in D.
      destruct (String.eqb_spec status "TERMINAL"); [discriminate|].
      destruct (String.eqb_spec status "WAITING_RUN") as [E|_].
      * right. split; [done|]. cbn.
        change (value WK_NONE) with "NONE" in D.
        destruct (otruthy wk), (ostr_eqb wk (Some "NONE")); try done; discriminate D.
      * left. destruct (String.eqb_spec status "BACKOFF") as [->|]; [done|].
        revert D. case_tests; discriminate.
  - intros N T. unfold derive_primary_state. rewrite T. unfold _STATUS_TO_PRIMARY.
    repeat match goal with
    | |- context [String.eqb status ?s] => destruct (String.eqb_spec status s)
    end; try done; subst; cbn in N; tauto.
  - intros p I. cbn in I. by destruct I as [<-|[<-|[<-|[]]]].
Qed.
