(* ===== verification/Concurrency.v ===== *)
(** * Concurrency: may a job run in parallel with the active jobs?
    (src/argent_core/concurrency_policy.py, with the resource classes of
    src/argent_core/resource_policy.py).

    Lexical path roots, footprint overlap, the structural decision, and the
    bounded JSON form of a footprint.  The main results: two roots conflict
    exactly when one is a component-wise prefix of the other; an accepted root
    never escapes the repository; a stored footprint reads back; two writers
    admitted side by side have provably disjoint footprints. *)
From S2P Require Import Prelude PyVal Models Json.
#[local] Open Scope string_scope.

Inductive ResourceClass : Type :=
| RC_LIGHT
| RC_MEDIUM
| RC_HEAVY
| RC_EXCLUSIVE.
Definition ResourceClass_value (x : ResourceClass) : string :=
  match x with
  | RC_LIGHT => "LIGHT"
  | RC_MEDIUM => "MEDIUM"
  | RC_HEAVY => "HEAVY"
  | RC_EXCLUSIVE => "EXCLUSIVE"
  end.
#[export] Instance ResourceClass_eq_dec : EqDecision ResourceClass.
Proof. solve_decision. Defined.
#[export] Program Instance ResourceClass_enum : PyEnum ResourceClass := {|
  members := [RC_LIGHT; RC_MEDIUM; RC_HEAVY; RC_EXCLUSIVE];
  value := ResourceClass_value |}.
Next Obligation. solve_complete. Qed.
Next Obligation. solve_value_inj. Qed.
Definition RESOURCE_CLASS_VALUES : list string := map value (members (A := ResourceClass)).
Definition _WRITER_CLASSES : list string := [value RC_MEDIUM; value RC_HEAVY; value RC_EXCLUSIVE].
Definition is_writer_class (resource_class : ResourceClass) : bool :=
  str_in (value resource_class) _WRITER_CLASSES.

Inductive ConcurrencyVerdict : Type :=
| CV_ALLOW_PARALLEL
| CV_SERIALIZE
| CV_DEFER
| CV_BLOCK.
Definition ConcurrencyVerdict_value (x : ConcurrencyVerdict) : string :=
  match x with
  | CV_ALLOW_PARALLEL => "ALLOW_PARALLEL"
  | CV_SERIALIZE => "SERIALIZE"
  | CV_DEFER => "DEFER"
  | CV_BLOCK => "BLOCK"
  end.
#[export] Instance ConcurrencyVerdict_eq_dec : EqDecision ConcurrencyVerdict.
Proof. solve_decision. Defined.
#[export] Program Instance ConcurrencyVerdict_enum : PyEnum ConcurrencyVerdict := {|
  members := [CV_ALLOW_PARALLEL; CV_SERIALIZE; CV_DEFER; CV_BLOCK];
  value := ConcurrencyVerdict_value |}.
Next Obligation. solve_complete. Qed.
Next Obligation. solve_value_inj. Qed.
Inductive ConcurrencyReasonCode : Type :=
| CR_READONLY_SAFE
| CR_DISTINCT_WORKTREE
| CR_DISTINCT_REPO
| CR_WORKTREE_CONFLICT
| CR_REPO_OVERLAP
| CR_UNKNOWN_OVERLAP
| CR_DEPENDENCY_NOT_MET
| CR_DEPENDENCY_UNKNOWN
| CR_ACTION_GLOBAL_SERIALIZE
| CR_WRITER_SLOT_FULL
| CR_HEAVY_ALONE
| CR_EXCLUSIVE_ALONE
| CR_LIGHT_SLOT_FULL
| CR_RESOURCE_RESERVE.
Definition ConcurrencyReasonCode_value (x : ConcurrencyReasonCode) : string :=
  match x with
  | CR_READONLY_SAFE => "READONLY_SAFE"
  | CR_DISTINCT_WORKTREE => "DISTINCT_WORKTREE"
  | CR_DISTINCT_REPO => "DISTINCT_REPO"
  | CR_WORKTREE_CONFLICT => "WORKTREE_CONFLICT"
  | CR_REPO_OVERLAP => "REPO_OVERLAP"
  | CR_UNKNOWN_OVERLAP => "UNKNOWN_OVERLAP"
  | CR_DEPENDENCY_NOT_MET => "DEPENDENCY_NOT_MET"
  | CR_DEPENDENCY_UNKNOWN => "DEPENDENCY_UNKNOWN"
  | CR_ACTION_GLOBAL_SERIALIZE => "ACTION_GLOBAL_SERIALIZE"
  | CR_WRITER_SLOT_FULL => "WRITER_SLOT_FULL"
  | CR_HEAVY_ALONE => "HEAVY_ALONE"
  | CR_EXCLUSIVE_ALONE => "EXCLUSIVE_ALONE"
  | CR_LIGHT_SLOT_FULL => "LIGHT_SLOT_FULL"
  | CR_RESOURCE_RESERVE => "RESOURCE_RESERVE"
  end.
#[export] Instance ConcurrencyReasonCode_eq_dec : EqDecision ConcurrencyReasonCode.
Proof. solve_decision. Defined.
#[export] Program Instance ConcurrencyReasonCode_enum : PyEnum ConcurrencyReasonCode := {|
  members := [CR_READONLY_SAFE; CR_DISTINCT_WORKTREE; CR_DISTINCT_REPO; CR_WORKTREE_CONFLICT; CR_REPO_OVERLAP; CR_UNKNOWN_OVERLAP; CR_DEPENDENCY_NOT_MET; CR_DEPENDENCY_UNKNOWN; CR_ACTION_GLOBAL_SERIALIZE; CR_WRITER_SLOT_FULL; CR_HEAVY_ALONE; CR_EXCLUSIVE_ALONE; CR_LIGHT_SLOT_FULL; CR_RESOURCE_RESERVE];
  value := ConcurrencyReasonCode_value |}.
Next Obligation. solve_complete. Qed.
Next Obligation. solve_value_inj. Qed.
Definition DEPENDENCY_SATISFIED_TERMINALS : list string := ["DONE"].
Definition READONLY_ROLES : list string := ["lead"; "analyst"; "reviewer"].
Definition WRITE_ROLES : list string := ["implementer"; "qa"].
Definition ACTION_GLOBAL : string := "GLOBAL".
Definition ACTION_REPO_GLOBAL : string := "REPO_GLOBAL".
Definition DEPENDENCY_MISSING : string := "MISSING".
Definition MAX_PATH_ROOTS : nat := 64.
Definition MAX_MODULES : nat := 64.
Definition MAX_ROOT_LEN : nat := 512.
Definition MAX_MODULE_LEN : nat := 256.

Record MutationFootprint : Type := mkFootprintFacts {
  mf_repo_identity : option string;
  mf_canonical_worktree_path : option string;
  mf_branch_identity : option string;
  mf_path_roots : list string;
  mf_modules : list string;
  mf_external_action_class : option string;
  mf_integration_target : option string
}.
Record JobFacts : Type := mkJobFacts {
  jf_job_id : string;
  jf_role : option string;
  jf_resource_class : string;
  jf_footprint : MutationFootprint;
  jf_depends_on : option string;
  jf_dependency_terminal : option string;
  jf_action_class : option string
}.
Record ConcurrencyDecision : Type := mkConcurrencyDecision {
  cd_verdict : ConcurrencyVerdict;
  cd_reason_code : ConcurrencyReasonCode;
  cd_detail : option string;
  cd_conflict_job_id : option string
}.

Definition ostr_in (x : option string) (l : list string) : bool :=
  match x with Some s => str_in s l | None => false end.
Definition is_writer (j : JobFacts) : bool :=
  ostr_in (jf_role j) WRITE_ROLES
  || match of_value (jf_resource_class j) with Some rc => is_writer_class rc | None => false end.
Definition is_readonly (j : JobFacts) : bool :=
  negb (is_writer j) && ostr_in (jf_role j) READONLY_ROLES.

(** ** Lexical paths *)
(** [s.replace(a, b)] for single characters. *)
Fixpoint replace_char (a b : ascii) (s : string) : string :=
  match s with
  | EmptyString => EmptyString
  | String c s' => String (if Ascii.eqb c a then b else c) (replace_char a b s')
  end.
(** [s.split(sep)] for a single-character separator. *)
Fixpoint split_on (sep : ascii) (s : string) : list string :=
  match s with
  | EmptyString => [EmptyString]
  | String c s' =>
      if Ascii.eqb c sep then EmptyString :: split_on sep s'
      else match split_on sep s' with
           | [] => [String c EmptyString]
           | x :: l => String c x :: l
           end
  end.
Fixpoint lstrip_char (c : ascii) (s : string) : string :=
  match s with
  | String x s' => if Ascii.eqb x c then lstrip_char c s' else s
  | EmptyString => EmptyString
  end.
Definition rstrip_char (c : ascii) (s : string) : string :=
  string_rev (lstrip_char c (string_rev s)).

(** The loop over the segments; [parts] is kept reversed (its top first). *)
Definition norm_step (parts : list string) (seg : string) : list string :=
  if String.eqb seg "" || String.eqb seg "." then parts
  else if String.eqb seg ".." then tl parts
  else seg :: parts.
Definition norm_parts (segs : list string) : list string := rev (fold_left norm_step segs []).
Definition _norm_rel (path : string) : string :=
  let p := strip (replace_char "\" "/" path) in
  rstrip_char "/" (join "/" (norm_parts (split_on "/" p))).

(** ASCII letters only: [str.isalpha] on a first character. *)
Definition is_alpha (c : ascii) : bool :=
  let n := N_of_ascii c in
  ((65 <=? n)%N && (n <=? 90)%N) || ((97 <=? n)%N && (n <=? 122)%N).
Definition drive_letter (raw : string) : bool :=
  match raw with String a (String ":" _) => is_alpha a | _ => false end.
(** The loop of the validation: [None] when a [..] pops above the root. *)
Definition rel_step (acc : option (list string)) (seg : string) : option (list string) :=
  out ← acc;
  if String.eqb seg "" || String.eqb seg "." then Some out
  else if String.eqb seg ".." then match out with [] => None | _ :: t => Some t end
  else Some (seg :: out).
Definition _validate_rel_root (path : string) : res exc string :=
  let raw := strip path in
  _ ← res_unless (truthy raw) ValueError;
  _ ← res_when (String.prefix "/" raw || String.prefix "\" raw) ValueError;
  _ ← res_when (drive_letter raw) ValueError;
  match fold_left rel_step (split_on "/" (replace_char "\" "/" raw)) (Some []) with
  | None => Err ValueError
  | Some out =>
      let norm := join "/" (rev out) in
      _ ← res_unless (truthy norm) ValueError;
      _ ← res_when (String.eqb norm ".." || String.prefix "../" norm) ValueError;
      Ok norm
  end.

Definition _is_prefix (prefix path : string) : bool :=
  truthy prefix && (String.eqb prefix path || String.prefix (prefix ++ "/") path).
Definition path_roots_conflict (roots_a roots_b : list string) : bool :=
  let ra := List.filter truthy (map _norm_rel roots_a) in
  let rb := List.filter truthy (map _norm_rel roots_b) in
  existsb (fun a => existsb (fun b => _is_prefix a b || _is_prefix b a) rb) ra.

(** ** Footprint overlap *)
Inductive Overlap : Type := OVERLAP | DISJOINT | UNKNOWN.
#[export] Instance Overlap_eq_dec : EqDecision Overlap.
Proof. solve_decision. Defined.

(** [a and b and a == b]. *)
Definition both_eq (a b : option string) : bool := otruthy a && otruthy b && ostr_eqb a b.
Definition footprint_overlap (a b : MutationFootprint) : Overlap :=
  if negb (otruthy (mf_repo_identity a)) || negb (otruthy (mf_repo_identity b)) then UNKNOWN
  else if negb (ostr_eqb (mf_repo_identity a) (mf_repo_identity b)) then DISJOINT
  else if both_eq (mf_branch_identity a) (mf_branch_identity b) then OVERLAP
  else if both_eq (mf_integration_target a) (mf_integration_target b) then OVERLAP
  else if bool_decide (mf_path_roots a = []) || bool_decide (mf_path_roots b = []) then UNKNOWN
  else if path_roots_conflict (mf_path_roots a) (mf_path_roots b) then OVERLAP
  else DISJOINT.

(** ** The decision *)
Definition orepr (o : option string) : string := match o with Some s => repr (PStr s) | None => "None" end.
Definition _decision (verdict : ConcurrencyVerdict) (reason : ConcurrencyReasonCode)
    (detail conflict_job_id : option string) : ConcurrencyDecision :=
  mkConcurrencyDecision verdict reason detail conflict_job_id.

(** 1. the dependency gate *)
Definition decide_dependency (candidate : JobFacts) : option ConcurrencyDecision :=
  match jf_depends_on candidate with
  | None => None
  | Some dep =>
      if ostr_eqb (jf_dependency_terminal candidate) (Some DEPENDENCY_MISSING) then
        Some (_decision CV_BLOCK CR_DEPENDENCY_UNKNOWN
                (Some ("prerequisite " ++ repr (PStr dep) ++ " missing")) None)
      else if negb (ostr_in (jf_dependency_terminal candidate) DEPENDENCY_SATISFIED_TERMINALS) then
        Some (_decision CV_DEFER CR_DEPENDENCY_NOT_MET
                (Some ("prerequisite " ++ repr (PStr dep) ++ " terminal state "
                       ++ orepr (jf_dependency_terminal candidate) ++ " is not satisfied")) None)
      else None
  end.

(** [a.repo_identity is not None and a.repo_identity == b.repo_identity]. *)
Definition same_repo (a b : JobFacts) : bool :=
  bool_decide (mf_repo_identity (jf_footprint a) <> None)
  && ostr_eqb (mf_repo_identity (jf_footprint a)) (mf_repo_identity (jf_footprint b)).
Definition serialize_action (detail : string) (a : JobFacts) : ConcurrencyDecision :=
  _decision CV_SERIALIZE CR_ACTION_GLOBAL_SERIALIZE (Some detail) (Some (jf_job_id a)).
Definition is_action (c : string) (j : JobFacts) : bool := ostr_eqb (jf_action_class j) (Some c).

(** 2(a) the candidate's own action class *)
Definition decide_own_action (candidate : JobFacts) (active_jobs : list JobFacts)
  : option ConcurrencyDecision :=
  if is_action ACTION_GLOBAL candidate then
    serialize_action "global action while jobs active" <$> head active_jobs
  else if is_action ACTION_REPO_GLOBAL candidate then
    serialize_action "repo-global action while same-repo job active" <$>
      find (fun a => same_repo a candidate) active_jobs
  else None.
(** 2(b) the action classes of the active jobs *)
Fixpoint decide_active_action (candidate : JobFacts) (active_jobs : list JobFacts)
  : option ConcurrencyDecision :=
  match active_jobs with
  | [] => None
  | a :: rest =>
      if is_action ACTION_GLOBAL a then Some (serialize_action "global action active" a)
      else if is_action ACTION_REPO_GLOBAL a && same_repo a candidate then
        Some (serialize_action "repo-global action active in same repo" a)
      else decide_active_action candidate rest
  end.

(** 3. structural overlap with the active writers *)
Definition same_worktree (a b : JobFacts) : bool :=
  both_eq (mf_canonical_worktree_path (jf_footprint a)) (mf_canonical_worktree_path (jf_footprint b)).
Fixpoint decide_overlap (candidate : JobFacts) (active_jobs : list JobFacts)
  : option ConcurrencyDecision :=
  match active_jobs with
  | [] => None
  | a :: rest =>
      if negb (is_writer a) then decide_overlap candidate rest
      else if same_worktree candidate a then
        Some (_decision CV_SERIALIZE CR_WORKTREE_CONFLICT
                (Some ("same worktree "
                       ++ orepr (mf_canonical_worktree_path (jf_footprint candidate))))
                (Some (jf_job_id a)))
      else match footprint_overlap (jf_footprint candidate) (jf_footprint a) with
           | OVERLAP => Some (_decision CV_SERIALIZE CR_REPO_OVERLAP
                                (Some "overlapping mutation footprints") (Some (jf_job_id a)))
           | UNKNOWN => Some (_decision CV_SERIALIZE CR_UNKNOWN_OVERLAP
                                (Some "cannot prove disjoint footprints") (Some (jf_job_id a)))
           | DISJOINT => decide_overlap candidate rest
           end
  end.
Definition other_repo (candidate a : JobFacts) : bool :=
  bool_decide (mf_repo_identity (jf_footprint candidate) <> None)
  && bool_decide (mf_repo_identity (jf_footprint a) <> None)
  && negb (ostr_eqb (mf_repo_identity (jf_footprint candidate)) (mf_repo_identity (jf_footprint a))).

(** First match wins. *)
Definition or_else {A} (o : option A) (d : A) : A := match o with Some x => x | None => d end.
Definition concurrency_decide (candidate : JobFacts) (active_jobs : list JobFacts) : ConcurrencyDecision :=
  or_else (decide_dependency candidate)
  (or_else (decide_own_action candidate active_jobs)
  (or_else (decide_active_action candidate active_jobs)
  (if is_writer candidate then
     or_else (decide_overlap candidate active_jobs)
       (if existsb (fun a => is_writer a && other_repo candidate a) active_jobs
        then _decision CV_ALLOW_PARALLEL CR_DISTINCT_REPO None None
        else _decision CV_ALLOW_PARALLEL CR_DISTINCT_WORKTREE None None)
   else _decision CV_ALLOW_PARALLEL CR_READONLY_SAFE None None))).

(** ** Stored footprints *)
Definition dump_strings (l : list string) : res exc string := json_dumps (PList (map PStr l)).
Definition checked_root (r : string) : res exc string :=
  _ ← res_when (blank r) ValueError;
  norm ← _validate_rel_root r;
  _ ← res_when (Nat.ltb MAX_ROOT_LEN (String.length norm)) ValueError;
  Ok norm.
Fixpoint res_map {E A B} (f : A -> res E B) (l : list A) : res E (list B) :=
  match l with
  | [] => Ok []
  | x :: l' => y ← f x; ys ← res_map f l'; Ok (y :: ys)
  end.
Definition serialize_footprint_paths (roots : list string) : res exc string :=
  _ ← res_when (Nat.ltb MAX_PATH_ROOTS (List.length roots)) ValueError;
  out ← res_map checked_root roots;
  dump_strings out.
Definition checked_module (m : string) : res exc string :=
  _ ← res_when (blank m) ValueError;
  _ ← res_when (Nat.ltb MAX_MODULE_LEN (String.length m)) ValueError;
  Ok (strip m).
Definition serialize_footprint_modules (modules : list string) : res exc string :=
  _ ← res_when (Nat.ltb MAX_MODULES (List.length modules)) ValueError;
  out ← res_map checked_module modules;
  dump_strings out.
Definition parse_footprint_list (raw : option string) : list string :=
  match raw with
  | None => []
  | Some s =>
      if negb (truthy s) then []
      else match json_loads s with
           | Ok (PList l) =>
               omap (fun v => match v with
                              | PStr t => if blank t then None else Some t
                              | _ => None
                              end) l
           | _ => []
           end
  end.
Definition action_lock_name (action_class : string) (repo_identity : option string) (name : string)
  : res exc string :=
  if String.eqb action_class ACTION_GLOBAL then Ok ("global:" ++ name)
  else if String.eqb action_class ACTION_REPO_GLOBAL then
    match repo_identity with
    | Some r => if truthy r then Ok ("repo:" ++ r ++ ":" ++ name) else Err ValueError
    | None => Err ValueError
    end
  else Err ValueError.

(** ** Segments and joins *)
Definition slash_free (s : string) : Prop := ~ In "/"%char (list_ascii_of_string s).
Definition safe_seg (s : string) : Prop := slash_free s /\ s <> "" /\ s <> "." /\ s <> "..".

Lemma slash_free_cons c s : slash_free (String c s) <-> c <> "/"%char /\ slash_free s.
Proof. unfold slash_free. cbn. tauto. Qed.

Lemma split_nonempty sep s : split_on sep s <> [].
Proof.
  induction s as [|c s IH]; cbn; [done|]. destruct (Ascii.eqb c sep); [done|].
  by destruct (split_on sep s).
Qed.
Lemma split_app sep a t : split_on sep (a ++ String sep t) = (split_on sep a ++ split_on sep t)%list.
Proof.
  induction a as [|c a IH]; [cbn; by rewrite Ascii.eqb_refl|]. cbn [String.append split_on].
  rewrite IH. destruct (Ascii.eqb c sep); [done|].
  pose proof (split_nonempty sep a). by destruct (split_on sep a).
Qed.
Lemma split_on_nonempty s : split_on "/" s <> [].
Proof. apply split_nonempty. Qed.
Lemma split_on_free s : slash_free s -> split_on "/" s = [s].
Proof.
  induction s as [|c s IH]; [done|]. rewrite slash_free_cons. intros [N F].
  cbn. apply Ascii.eqb_neq in N. by rewrite N, IH.
Qed.
Lemma split_on_app a t : split_on "/" (a ++ "/" ++ t) = (split_on "/" a ++ split_on "/" t)%list.
Proof. apply (split_app "/"). Qed.
Lemma split_on_join l : l <> [] -> Forall slash_free l -> split_on "/" (join "/" l) = l.
Proof.
  induction l as [|x l IH]; [done|]. intros _ F. apply Forall_cons in F as [Fx Fl].
  destruct l as [|y l]; [by apply split_on_free|].
  change (join "/" (x :: y :: l)) with (x ++ "/" ++ join "/" (y :: l)).
  rewrite split_on_app, split_on_free, IH by done. done.
Qed.
Lemma split_on_segs s : Forall slash_free (split_on "/" s).
Proof.
  induction s as [|c s IH]; cbn.
  - constructor; [|constructor]. intros [].
  - destruct (Ascii.eqb_spec c "/") as [->|N]; [constructor; [intros []|done]|].
    destruct (split_on "/" s) as [|x l]; [constructor; [|constructor]|].
    + apply slash_free_cons. split; [done|intros []].
    + apply Forall_cons in IH as [Fx Fl]. constructor; [by apply slash_free_cons|done].
Qed.

Lemma join_cons x y l : join "/" (x :: y :: l) = x ++ "/" ++ join "/" (y :: l).
Proof. done. Qed.
Lemma join_app p q : p <> [] -> q <> [] -> join "/" (p ++ q) = join "/" p ++ "/" ++ join "/" q.
Proof.
  intros P Q. induction p as [|x p IH]; [done|]. destruct p as [|y p].
  - destruct q; [done|]. done.
  - rewrite join_cons, string_app_assoc, (string_app_assoc "/"), <- IH by done. done.
Qed.
Lemma join_truthy l : Forall safe_seg l -> truthy (join "/" l) = negb (bool_decide (l = [])).
Proof.
  intros F. destruct l as [|x l]; [done|]. rewrite bool_decide_false by done. cbn [negb].
  apply Forall_cons in F as [(_ & N & _) _]. destruct x; [done|]. by destruct l.
Qed.

Lemma safe_slash_free l : Forall safe_seg l -> Forall slash_free l.
Proof. intros F. eapply Forall_impl; [exact F|]. by intros ? []. Qed.
Lemma join_inj p q : p <> [] -> q <> [] -> Forall slash_free p -> Forall slash_free q ->
  join "/" p = join "/" q -> p = q.
Proof. intros P Q Fp Fq E. by rewrite <- (split_on_join p), <- (split_on_join q), E. Qed.

(** A string prefix up to a slash is a prefix of the list of segments. *)
Lemma is_prefix_join p q : Forall safe_seg p -> Forall safe_seg q -> q <> [] ->
  _is_prefix (join "/" p) (join "/" q) = true <-> p <> [] /\ p `prefix_of` q.
Proof.
  intros Fp Fq Q. unfold _is_prefix. rewrite join_truthy by done.
  rewrite andb_true_iff, negb_true_iff, bool_decide_eq_false, orb_true_iff, String.eqb_eq, prefix_app.
  split; intros [P H]; split; try done.
  - destruct H as [E|[t E]].
    + apply join_inj in E; [by rewrite E | done | done | by apply safe_slash_free ..].
    + exists (split_on "/" t). rewrite <- (split_on_join p) by (done || by apply safe_slash_free).
      rewrite <- split_on_app, <- string_app_assoc, <- E, split_on_join; [done | done |].
      by apply safe_slash_free.
  - destruct H as [r ->]. destruct r as [|y r]; [left; by rewrite app_nil_r|].
    right. exists (join "/" (y :: r)). by rewrite join_app, string_app_assoc.
Qed.

(** ** Normalisation *)
Definition path_segs (path : string) : list string :=
  norm_parts (split_on "/" (strip (replace_char "\" "/" path))).

Lemma norm_step_safe parts seg : slash_free seg -> Forall safe_seg parts ->
  Forall safe_seg (norm_step parts seg).
Proof.
  intros S F. unfold norm_step.
  destruct (String.eqb_spec seg ""), (String.eqb_spec seg "."), (String.eqb_spec seg "..");
    cbn; try done.
  - by destruct F.
  - by constructor.
Qed.
Lemma norm_fold_safe segs parts : Forall slash_free segs -> Forall safe_seg parts ->
  Forall safe_seg (fold_left norm_step segs parts).
Proof.
  revert parts. induction segs as [|x segs IH]; intros parts S F; [done|].
  apply Forall_cons in S as [Sx Ss]. cbn. apply IH; [done|]. by apply norm_step_safe.
Qed.
Lemma path_segs_safe path : Forall safe_seg (path_segs path).
Proof.
  apply Forall_rev, norm_fold_safe; [apply split_on_segs | constructor].
Qed.

Lemma list_ascii_app a b :
  list_ascii_of_string (a ++ b) = (list_ascii_of_string a ++ list_ascii_of_string b)%list.
Proof. induction a as [|c a IH]; [done|]. cbn. by rewrite IH. Qed.
Lemma string_rev_snoc s c : string_rev (s ++ String c EmptyString) = String c (string_rev s).
Proof. unfold string_rev. by rewrite list_ascii_app, rev_app_distr. Qed.
Lemma string_rev_involutive s : string_rev (string_rev s) = s.
Proof.
  unfold string_rev.
  by rewrite list_ascii_of_string_of_list_ascii, rev_involutive, string_of_list_ascii_of_string.
Qed.
Lemma rstrip_char_snoc c d s : d <> c ->
  rstrip_char c (s ++ String d EmptyString) = s ++ String d EmptyString.
Proof.
  intros N. unfold rstrip_char. rewrite string_rev_snoc. cbn [lstrip_char].
  apply Ascii.eqb_neq in N. rewrite N, <- string_rev_snoc. apply string_rev_involutive.
Qed.

Lemma string_snoc s : s = EmptyString \/ exists a d, s = a ++ String d EmptyString.
Proof.
  induction s as [|c s [->|(a & d & ->)]]; [by left | right ..].
  - by exists EmptyString, c.
  - by exists (String c a), d.
Qed.
Lemma slash_free_app a b : slash_free (a ++ b) <-> slash_free a /\ slash_free b.
Proof. unfold slash_free. rewrite list_ascii_app, in_app_iff. tauto. Qed.
Lemma join_ends l : l <> [] -> Forall safe_seg l ->
  exists a d, join "/" l = a ++ String d EmptyString /\ d <> "/"%char.
Proof.
  induction l as [|x l IH]; [done|]. intros _ F. apply Forall_cons in F as [(Sx & Nx & _) Fl].
  destruct l as [|y l].
  - destruct (string_snoc x) as [->|(a & d & ->)]; [done|]. exists a, d. split; [done|].
    apply slash_free_app in Sx as [_ S]. by apply slash_free_cons in S as [S _].
  - destruct IH as (a & d & E & N); [done | done |]. exists (x ++ "/" ++ a), d.
    rewrite join_cons, E, !string_app_assoc. done.
Qed.
Lemma norm_rel_segs path : _norm_rel path = join "/" (path_segs path).
Proof.
  unfold _norm_rel. fold (path_segs path).
  pose proof (path_segs_safe path) as F. destruct (path_segs path) as [|x l] eqn:E; [done|].
  destruct (join_ends (x :: l)) as (a & d & J & N); [done..|]. rewrite J. by apply rstrip_char_snoc.
Qed.

(** Two sets of path roots conflict exactly when, after normalisation, some
    root of one is a component-wise prefix of a root of the other: a directory
    covers itself and what is below it, never a sibling whose name it starts. *)
Theorem path_roots_conflict_spec roots_a roots_b :
  path_roots_conflict roots_a roots_b = true <->
  exists a b, In a roots_a /\ In b roots_b /\ path_segs a <> [] /\ path_segs b <> [] /\
    (path_segs a `prefix_of` path_segs b \/ path_segs b `prefix_of` path_segs a).
Proof.
  assert (K : forall x, truthy (_norm_rel x) = true <-> path_segs x <> []).
  { intros x. rewrite norm_rel_segs, join_truthy by apply path_segs_safe.
    by rewrite negb_true_iff, bool_decide_eq_false. }
  unfold path_roots_conflict. rewrite existsb_exists. setoid_rewrite existsb_exists.
  setoid_rewrite filter_In. setoid_rewrite in_map_iff. setoid_rewrite orb_true_iff. split.
  - intros (? & [(a & <- & Ia) Ta] & ? & [(b & <- & Ib) Tb] & C). apply K in Ta, Tb.
    rewrite !norm_rel_segs, !is_prefix_join in C by (done || apply path_segs_safe).
    exists a, b. tauto.
  - intros (a & b & Ia & Ib & Ta & Tb & C). exists (_norm_rel a). rewrite K.
    split; [eauto|]. exists (_norm_rel b). rewrite K. split; [eauto|].
    rewrite !norm_rel_segs, !is_prefix_join by (done || apply path_segs_safe). tauto.
Qed.

(** ** Accepted roots stay inside the repository *)
Lemma is_ws_replace c : is_ws (if Ascii.eqb c "\" then "/"%char else c) = is_ws c.
Proof. destruct (Ascii.eqb_spec c "\") as [->|]; done. Qed.
Lemma replace_list s :
  list_ascii_of_string (replace_char "\" "/" s) =
  map (fun c => if Ascii.eqb c "\" then "/"%char else c) (list_ascii_of_string s).
Proof. induction s as [|c s IH]; cbn; by rewrite ?IH. Qed.
Lemma replace_lstrip s : replace_char "\" "/" (lstrip s) = lstrip (replace_char "\" "/" s).
Proof.
  induction s as [|c s IH]; [done|]. cbn. rewrite is_ws_replace. by destruct (is_ws c).
Qed.
Lemma replace_rev s : replace_char "\" "/" (string_rev s) = string_rev (replace_char "\" "/" s).
Proof.
  rewrite <- (string_of_list_ascii_of_string (replace_char _ _ (string_rev s))).
  unfold string_rev at 2. f_equal. rewrite !replace_list. unfold string_rev.
  rewrite list_ascii_of_string_of_list_ascii. apply map_rev.
Qed.
Lemma replace_strip s : replace_char "\" "/" (strip s) = strip (replace_char "\" "/" s).
Proof. unfold strip. by rewrite replace_rev, replace_lstrip, replace_rev, replace_lstrip. Qed.

(** The number of names less the number of [..] in a list of segments. *)
Definition seg_height (seg : string) : Z :=
  if String.eqb seg "" || String.eqb seg "." then 0
  else if String.eqb seg ".." then -1 else 1.
Definition height (segs : list string) : Z := fold_right Z.add 0%Z (map seg_height segs).

Lemma rel_step_some acc seg out :
  rel_step acc seg = Some out -> exists o, acc = Some o /\ norm_step o seg = out /\
    Z.of_nat (List.length out) = (Z.of_nat (List.length o) + seg_height seg)%Z.
Proof.
  unfold rel_step, norm_step, seg_height. intros H.
  apply bind_Some in H as (o & -> & H). exists o. split; [done|].
  destruct (_ || _); [injection H as <-; split; [done|lia]|].
  destruct (String.eqb seg ".."); [destruct o; [done|]|]; injection H as <-; cbn [tl List.length];
    split; (done || lia).
Qed.
Lemma rel_fold_none segs : fold_left rel_step segs None = None.
Proof. by induction segs. Qed.
Lemma rel_fold_some segs o out :
  fold_left rel_step segs (Some o) = Some out ->
  fold_left norm_step segs o = out /\
  forall pre suf, segs = (pre ++ suf)%list -> (0 <= Z.of_nat (List.length o) + height pre)%Z.
Proof.
  revert o. induction segs as [|x segs IH]; intros o H.
  - split; [by injection H|]. intros [|] suf [=]. cbn. lia.
  - cbn [fold_left] in H. destruct (rel_step (Some o) x) as [o1|] eqn:R;
      [|by rewrite rel_fold_none in H].
    apply rel_step_some in R as (? & [= <-] & N & L). apply IH in H as [H P].
    split; [cbn; by rewrite N|]. intros [|y pre] suf E; [cbn; lia|].
    injection E as <- E. specialize (P _ _ E). unfold height in *. cbn [map fold_right]. lia.
Qed.

Lemma valid_root path norm :
  _validate_rel_root path = Ok norm ->
  norm = join "/" (path_segs path) /\ path_segs path <> [] /\
  forall pre suf,
    split_on "/" (strip (replace_char "\" "/" path)) = (pre ++ suf)%list -> (0 <= height pre)%Z.
Proof.
  unfold _validate_rel_root. intros H.
  apply res_seq_ok in H as [_ H]. apply res_seq_ok in H as [_ H]. apply res_seq_ok in H as [_ H].
  rewrite replace_strip in H. destruct (fold_left _ _ _) as [out|] eqn:F; [|done].
  apply res_seq_ok in H as [T H]. apply res_seq_ok in H as [_ [= <-]]. apply res_unless_ok in T.
  apply rel_fold_some in F as [<- P].
  fold (norm_parts (split_on "/" (strip (replace_char "\" "/" path)))) in *.
  fold (path_segs path) in *. rewrite join_truthy in T by apply path_segs_safe.
  by apply negb_true_iff, bool_decide_eq_false in T.
Qed.

(** A mutation root that the validator accepts stays inside the repository:
    at no point do its [..] segments climb above the root, its normal form is a
    non-empty list of plain names, and it is the form conflicts are decided on. *)
Theorem rel_root_contained path norm :
  _validate_rel_root path = Ok norm ->
  norm = _norm_rel path /\
  norm = join "/" (path_segs path) /\ path_segs path <> [] /\ Forall safe_seg (path_segs path) /\
  forall pre suf,
    split_on "/" (strip (replace_char "\" "/" path)) = (pre ++ suf)%list -> (0 <= height pre)%Z.
Proof.
  intros H. apply valid_root in H as (-> & N & P). rewrite norm_rel_segs.
  pose proof (path_segs_safe path). by repeat split.
Qed.
Lemma rel_root_contained_witness :
  _validate_rel_root " src\core/../api//v1/ " = Ok "src/api/v1" /\
  "src/api/v1" = _norm_rel " src\core/../api//v1/ ".
Proof. split; [reflexivity|]. apply (rel_root_contained " src\core/../api//v1/ "). reflexivity. Defined.

(** ** Footprints as JSON *)
Lemma quote_parse k s rest : parse_value (S k) (quote s ++ rest) = Some (PStr s, rest).
Proof.
  unfold quote. rewrite !string_app_assoc. pose proof (parse_str_esc s rest) as P.
  change (match parse_str (esc s ++ DQ ++ rest) with
          | Some (t, r) => Some (PStr t, r) | None => None end = Some (PStr s, rest)).
  by rewrite P.
Qed.
Lemma skip_ws_quote s rest : skip_ws (quote s ++ rest) = quote s ++ rest.
Proof. reflexivity. Qed.
Lemma parse_elems_strings l k s :
  parse_elems (List.length l + S (S k)) (join ", " (map quote (s :: l)) ++ "]") =
  Some (map PStr (s :: l), EmptyString).
Proof.
  revert s. induction l as [|t l IH]; intros s.
  - cbn [List.length Nat.add map join parse_elems]. by rewrite quote_parse.
  - replace (join ", " (map quote (s :: t :: l)) ++ "]")
      with (quote s ++ String "," (String " " (join ", " (map quote (t :: l)) ++ "]")))
      by (cbn [map join]; by rewrite !string_app_assoc).
    cbn [List.length Nat.add parse_elems]. rewrite Nat.add_succ_r, quote_parse.
    change (skip_ws (String "," ?x)) with (String "," x). cbv iota.
    change (skip_ws (String " " ?x)) with (skip_ws x). rewrite <- Nat.add_succ_r.
    replace (skip_ws (join ", " (map quote (t :: l)) ++ "]"))
      with (join ", " (map quote (t :: l)) ++ "]").
    { rewrite IH. done. }
    destruct l as [|u l]; cbn [map join]; rewrite ?string_app_assoc; by rewrite skip_ws_quote.
Qed.
Lemma length_app_str a b : String.length (a ++ b) = String.length a + String.length b.
Proof. induction a as [|c a IH]; cbn; [done|]. by rewrite IH. Qed.
Lemma join_quote_length l : List.length l <= String.length (join ", " (map quote l)).
Proof.
  induction l as [|x [|y l] IH]; [done | cbn [map join]; unfold quote; cbn; lia |].
  cbn [map join] in *. rewrite !length_app_str. change (String.length ", ") with 2.
  cbn [List.length] in *. lia.
Qed.
Lemma dump_strings_load l :
  exists s, dump_strings l = Ok s /\ truthy s = true /\ json_loads s = Ok (PList (map PStr l)).
Proof.
  assert (D : dump_strings l = Ok ("[" ++ join ", " (map quote l) ++ "]")).
  { unfold dump_strings, json_dumps. replace (serializable (PList (map PStr l))) with true.
    - cbn [enc]. by rewrite map_map.
    - cbn. induction l as [|x l IH]; [done|]. exact IH. }
  eexists. split; [exact D|]. split; [done|].
  destruct l as [|x l]; [reflexivity|].
  pose proof (join_quote_length (x :: l)) as L.
  set (body := join ", " (map quote (x :: l)) ++ "]").
  assert (B : exists k, 3 * S (String.length ("[" ++ body)) = S (List.length l + S (S k))).
  { exists (3 * S (String.length ("[" ++ body)) - 3 - List.length l).
    subst body. rewrite !length_app_str. cbn [List.length] in L. cbn [String.length]. lia. }
  destruct B as [k B]. unfold json_loads. rewrite B.
  change (skip_ws ("[" ++ body)) with ("[" ++ body).
  assert (Q : exists y, body = String (ascii_of_N 34) y) by (subst body; destruct l; by eexists).
  destruct Q as [y Q].
  change (parse_value (S ?n) ("[" ++ body)) with
    (match skip_ws body with
     | String "]" rest => Some (PList [], rest)
     | r1 => match parse_elems n r1 with
             | Some (l, rest) => Some (PList l, rest)
             | None => None
             end
     end).
  assert (S1 : skip_ws body = body) by (rewrite Q; done). rewrite S1.
  pose proof (parse_elems_strings l k x) as E. fold body in E.
  set (pe := parse_elems (List.length l + S (S k))) in *. clearbody pe.
  rewrite Q in E |- *. cbn. cbn in E. by rewrite E.
Qed.

Lemma res_map_ok {E A B} (f : A -> res E B) l ys :
  res_map f l = Ok ys <-> Forall2 (fun x y => f x = Ok y) l ys.
Proof.
  revert ys. induction l as [|x l IH]; intros ys; cbn; split.
  - intros [= <-]. constructor.
  - intros H. by inversion H.
  - intros H. apply res_bind_ok in H as (y & Fy & H). apply res_bind_ok in H as (r & Fr & [= <-]).
    constructor; [done | by apply IH].
  - intros H. inversion H as [|? y ? r Fy Fr]; subst. apply IH in Fr. by rewrite Fy; cbn; rewrite Fr.
Qed.
Lemma parse_dumped l s : dump_strings l = Ok s ->
  parse_footprint_list (Some s) = List.filter (fun t => negb (blank t)) l.
Proof.
  intros D. destruct (dump_strings_load l) as (s' & D' & T & L). rewrite D in D'. injection D' as <-.
  unfold parse_footprint_list. rewrite T, L. cbn [negb]. clear. induction l as [|x l IH]; [done|].
  cbn. destruct (blank x); cbn; by rewrite IH.
Qed.

(** The mutation roots written with a job are the normal forms the policy
    compares, and they read back from the column (all-blank names excepted, whose
    absence can only make the policy more cautious). *)
Theorem footprint_round_trip roots s :
  serialize_footprint_paths roots = Ok s ->
  parse_footprint_list (Some s) = List.filter (fun t => negb (blank t)) (map _norm_rel roots) /\
  Forall (fun r => String.length (_norm_rel r) <= MAX_ROOT_LEN) roots /\
  List.length roots <= MAX_PATH_ROOTS.
Proof.
  unfold serialize_footprint_paths. intros H. apply res_seq_ok in H as [Len H].
  apply res_bind_ok in H as (out & M & D). apply res_map_ok in M. apply res_when_ok, Nat.ltb_ge in Len.
  assert (F : Forall2 (fun r o => o = _norm_rel r /\ String.length o <= MAX_ROOT_LEN) roots out).
  { eapply Forall2_impl; [exact M|]. intros r o C. unfold checked_root in C.
    apply res_seq_ok in C as [_ C]. apply res_bind_ok in C as (n & V & C).
    apply res_seq_ok in C as [L [= <-]]. apply res_when_ok, Nat.ltb_ge in L.
    apply valid_root in V as [-> _]. by rewrite norm_rel_segs in *. }
  assert (E : out = map _norm_rel roots) by (clear -F; induction F as [|?? ?? [-> _]]; cbn; congruence).
  split; [by rewrite (parse_dumped _ _ D), E|]. split; [|done].
  clear -F. induction F as [|?? ?? [-> ?]]; by constructor.
Qed.
Definition dq_text : string -> string := replace_char "'" (ascii_of_N 34).
Lemma footprint_round_trip_witness :
  serialize_footprint_paths ["src/core/../api"; "./docs/"] = Ok (dq_text "['src/api', 'docs']") /\
  parse_footprint_list (Some (dq_text "['src/api', 'docs']")) = ["src/api"; "docs"].
Proof.
  assert (S : serialize_footprint_paths ["src/core/../api"; "./docs/"]
              = Ok (dq_text "['src/api', 'docs']")) by reflexivity.
  split; [exact S|]. destruct (footprint_round_trip _ _ S) as [R _]. rewrite R. reflexivity.
Defined.

(** ** Admission *)
Definition dependency_met (c : JobFacts) : Prop :=
  jf_depends_on c <> None -> jf_dependency_terminal c = Some "DONE".
Definition action_free (c : JobFacts) (active : list JobFacts) : Prop :=
  (is_action ACTION_GLOBAL c = true -> active = []) /\
  (forall a, In a active -> is_action ACTION_GLOBAL a = false) /\
  (forall a, In a active -> same_repo a c = true ->
     is_action ACTION_REPO_GLOBAL c = false /\ is_action ACTION_REPO_GLOBAL a = false).
Definition separate (c a : JobFacts) : Prop :=
  same_worktree c a = false /\ footprint_overlap (jf_footprint c) (jf_footprint a) = DISJOINT.

Lemma decide_dependency_none c : decide_dependency c = None <-> dependency_met c.
Proof.
  unfold decide_dependency, dependency_met. destruct (jf_depends_on c) as [d|]; [|tauto].
  destruct (ostr_eqb _ _) eqn:M; [apply ostr_eqb_eq in M; rewrite M; split; [done | intros H; by discriminate H]|].
  destruct (jf_dependency_terminal c) as [t|]; cbn; [|split; [done | intros H; by discriminate H]].
  destruct (String.eqb_spec t "DONE") as [->|N]; cbn; [done|].
  split; [done|]. intros H. by injection (H ltac:(done)).
Qed.
Lemma decide_dependency_some c d : decide_dependency c = Some d -> cd_verdict d <> CV_ALLOW_PARALLEL.
Proof. unfold decide_dependency. intros H. by repeat case_match; simplify_eq. Qed.
Lemma decide_actions_none c active :
  decide_own_action c active = None /\ decide_active_action c active = None <-> action_free c active.
Proof.
  unfold action_free, decide_own_action. split.
  - intros [O A]. split; [|split].
    + intros G. rewrite G in O. by destruct active.
    + intros a I. clear O. induction active as [|x l IH]; [done|]. cbn in A.
      destruct (is_action ACTION_GLOBAL x) eqn:G; [done|].
      destruct (_ && _); [done|]. destruct I as [<-|I]; auto.
    + intros a I R. split.
      * destruct (is_action ACTION_REPO_GLOBAL c) eqn:G; [|done].
        destruct (is_action ACTION_GLOBAL c); [by destruct active|].
        apply fmap_None in O. eapply find_none in O; [|exact I]. congruence.
      * clear O. induction active as [|x l IH]; [done|]. cbn in A.
        destruct (is_action ACTION_GLOBAL x); [done|]. destruct (_ && _) eqn:B; [done|].
        destruct I as [<-|I]; [|auto]. rewrite R, andb_true_r in B. done.
  - intros (G & A & R). split.
    + destruct (is_action ACTION_GLOBAL c); [by rewrite G|].
      destruct (is_action ACTION_REPO_GLOBAL c) eqn:G'; [|done].
      apply fmap_None. destruct (find _ _) as [x|] eqn:F; [|done]. exfalso.
      apply find_some in F as [I S]. by destruct (R x I S).
    + clear G. induction active as [|x l IH]; [done|]. cbn. rewrite A by by left.
      destruct (is_action ACTION_REPO_GLOBAL x) eqn:B; cbn.
      * destruct (same_repo x c) eqn:S; [|apply IH; intros a I; [apply A | apply R]; by right].
        destruct (R x ltac:(by left) S). congruence.
      * apply IH; intros a I; [apply A | apply R]; by right.
Qed.
Lemma decide_own_serialize c active d :
  decide_own_action c active = Some d -> cd_verdict d <> CV_ALLOW_PARALLEL.
Proof.
  unfold decide_own_action. intros H. repeat case_match; try done;
    apply fmap_Some in H as (? & _ & ->); done.
Qed.
Lemma decide_active_serialize c active d :
  decide_active_action c active = Some d -> cd_verdict d <> CV_ALLOW_PARALLEL.
Proof.
  induction active as [|x l IH]; [done|]. cbn. intros H. by repeat case_match; simplify_eq; auto.
Qed.
Lemma decide_overlap_none c active :
  decide_overlap c active = None <-> forall a, In a active -> is_writer a = true -> separate c a.
Proof.
  unfold separate. induction active as [|x l IH]; cbn; [done|].
  destruct (is_writer x) eqn:W; cbn.
  - destruct (same_worktree c x) eqn:S; [split; [done|]; intros H; destruct (H x); auto; congruence|].
    destruct (footprint_overlap _ _) eqn:F.
    + split; [done|]. intros H. destruct (H x); auto; congruence.
    + rewrite IH. split; [intros H a [<-|I]; auto | intros H a I; apply H; auto].
    + split; [done|]. intros H. destruct (H x); auto; congruence.
  - rewrite IH. split; [intros H a [<-|I] Wa; [congruence|auto] | intros H a I; apply H; auto].
Qed.
Lemma decide_overlap_serialize c active d :
  decide_overlap c active = Some d -> cd_verdict d <> CV_ALLOW_PARALLEL.
Proof.
  induction active as [|x l IH]; [done|]. cbn. intros H. by repeat case_match; simplify_eq; auto.
Qed.

(** A job is admitted next to the active ones exactly when its prerequisite
    is done, no global action (or one of its repository) is involved on either
    side, and, if it can write, every active writer works in another worktree on
    a footprint proved disjoint from its own; a missing fact never admits. *)
Theorem parallel_admission c active :
  cd_verdict (concurrency_decide c active) = CV_ALLOW_PARALLEL <->
  dependency_met c /\ action_free c active /\
  (is_writer c = true -> forall a, In a active -> is_writer a = true -> separate c a).
Proof.
  rewrite <- decide_dependency_none, <- decide_actions_none, <- decide_overlap_none.
  unfold concurrency_decide, or_else. split.
  - destruct (decide_dependency c) as [d|] eqn:D; [by apply decide_dependency_some in D|].
    destruct (decide_own_action c active) as [d|] eqn:O; [by apply decide_own_serialize in O|].
    destruct (decide_active_action c active) as [d|] eqn:A; [by apply decide_active_serialize in A|].
    destruct (is_writer c); [|done].
    destruct (decide_overlap c active) as [d|] eqn:V; [by apply decide_overlap_serialize in V | done].
  - intros (-> & (-> & ->) & V). destruct (is_writer c); [|done]. rewrite V by done.
    by destruct (existsb _ _).
Qed.

(** Disjoint footprints of one repository: no root of one lies on, above or below
    a root of the other, and the branches and integration targets differ. *)
Lemma disjoint_roots a b : footprint_overlap a b = DISJOINT ->
  mf_repo_identity a = mf_repo_identity b ->
  path_roots_conflict (mf_path_roots a) (mf_path_roots b) = false /\
  mf_path_roots a <> [] /\ mf_path_roots b <> [].
Proof.
  unfold footprint_overlap. intros H R. rewrite R, ostr_eqb_refl in H.
  repeat case_match; try done.
  match goal with E : _ || _ = false |- _ => apply orb_false_iff in E as [?%bool_decide_eq_false ?%bool_decide_eq_false] end.
  done.
Qed.
