(* ===== verification/Recovery.v ===== *)
(** * Recovery: from termination evidence to a bounded recovery decision
    (src/argent_core/resource_failure.py, src/argent_core/resource_recovery.py).

    The classification of a terminated process is a function of bounded
    evidence; the recovery decision is a function of the failure class, the
    attempt counter and a policy that can only bound retries.  The main results:
    every decision is an allowed pair, resource evidence is never relabelled, and
    the shared budget bounds how often a job is sent back to the queue. *)
From S2P Require Import Prelude PyVal Models.
#[local] Open Scope string_scope.

Inductive TerminationClass : Type :=
| TC_NORMAL_EXIT
| TC_NONZERO_EXIT
| TC_TIMEOUT
| TC_OOM_KILL
| TC_MEMORY_LIMIT
| TC_SCOPE_CREATION_FAILED
| TC_SCOPE_VERIFICATION_FAILED
| TC_ENFORCEMENT_UNAVAILABLE
| TC_SCOPE_CLEANUP_UNVERIFIED
| TC_UNKNOWN_TERMINATION.
Definition TerminationClass_value (x : TerminationClass) : string :=
  match x with
  | TC_NORMAL_EXIT => "NORMAL_EXIT"
  | TC_NONZERO_EXIT => "NONZERO_EXIT"
  | TC_TIMEOUT => "TIMEOUT"
  | TC_OOM_KILL => "OOM_KILL"
  | TC_MEMORY_LIMIT => "MEMORY_LIMIT"
  | TC_SCOPE_CREATION_FAILED => "SCOPE_CREATION_FAILED"
  | TC_SCOPE_VERIFICATION_FAILED => "SCOPE_VERIFICATION_FAILED"
  | TC_ENFORCEMENT_UNAVAILABLE => "ENFORCEMENT_UNAVAILABLE"
  | TC_SCOPE_CLEANUP_UNVERIFIED => "SCOPE_CLEANUP_UNVERIFIED"
  | TC_UNKNOWN_TERMINATION => "UNKNOWN_TERMINATION"
  end.
#[export] Instance TerminationClass_eq_dec : EqDecision TerminationClass.
Proof. solve_decision. Defined.
#[export] Program Instance TerminationClass_enum : PyEnum TerminationClass := {|
  members := [TC_NORMAL_EXIT; TC_NONZERO_EXIT; TC_TIMEOUT; TC_OOM_KILL; TC_MEMORY_LIMIT; TC_SCOPE_CREATION_FAILED; TC_SCOPE_VERIFICATION_FAILED; TC_ENFORCEMENT_UNAVAILABLE; TC_SCOPE_CLEANUP_UNVERIFIED; TC_UNKNOWN_TERMINATION];
  value := TerminationClass_value |}.
Next Obligation. solve_complete. Qed.
Next Obligation. solve_value_inj. Qed.
Inductive FailureClass : Type :=
| FC_NORMAL_EXIT
| FC_CODE_OR_PROCESS_FAILURE
| FC_RESOURCE_OOM
| FC_RESOURCE_MEMORY_LIMIT
| FC_RESOURCE_TIMEOUT
| FC_RESOURCE_ENFORCEMENT_FAILURE
| FC_RESOURCE_CAPACITY_FAILURE
| FC_SCOPE_CLEANUP_UNVERIFIED
| FC_UNKNOWN_TERMINATION.
Definition FailureClass_value (x : FailureClass) : string :=
  match x with
  | FC_NORMAL_EXIT => "NORMAL_EXIT"
  | FC_CODE_OR_PROCESS_FAILURE => "CODE_OR_PROCESS_FAILURE"
  | FC_RESOURCE_OOM => "RESOURCE_OOM"
  | FC_RESOURCE_MEMORY_LIMIT => "RESOURCE_MEMORY_LIMIT"
  | FC_RESOURCE_TIMEOUT => "RESOURCE_TIMEOUT"
  | FC_RESOURCE_ENFORCEMENT_FAILURE => "RESOURCE_ENFORCEMENT_FAILURE"
  | FC_RESOURCE_CAPACITY_FAILURE => "RESOURCE_CAPACITY_FAILURE"
  | FC_SCOPE_CLEANUP_UNVERIFIED => "SCOPE_CLEANUP_UNVERIFIED"
  | FC_UNKNOWN_TERMINATION => "UNKNOWN_TERMINATION"
  end.
#[export] Instance FailureClass_eq_dec : EqDecision FailureClass.
Proof. solve_decision. Defined.
#[export] Program Instance FailureClass_enum : PyEnum FailureClass := {|
  members := [FC_NORMAL_EXIT; FC_CODE_OR_PROCESS_FAILURE; FC_RESOURCE_OOM; FC_RESOURCE_MEMORY_LIMIT; FC_RESOURCE_TIMEOUT; FC_RESOURCE_ENFORCEMENT_FAILURE; FC_RESOURCE_CAPACITY_FAILURE; FC_SCOPE_CLEANUP_UNVERIFIED; FC_UNKNOWN_TERMINATION];
  value := FailureClass_value |}.
Next Obligation. solve_complete. Qed.
Next Obligation. solve_value_inj. Qed.
Inductive RecoveryDecision : Type :=
| RD_COMPLETE
| RD_RETRY_BOUNDED
| RD_DEFER_RESOURCE
| RD_BLOCK_RESOURCE
| RD_PREFER_EXTERNAL
| RD_QUARANTINE_LOST
| RD_FAIL_NONRESOURCE.
Definition RecoveryDecision_value (x : RecoveryDecision) : string :=
  match x with
  | RD_COMPLETE => "COMPLETE"
  | RD_RETRY_BOUNDED => "RETRY_BOUNDED"
  | RD_DEFER_RESOURCE => "DEFER_RESOURCE"
  | RD_BLOCK_RESOURCE => "BLOCK_RESOURCE"
  | RD_PREFER_EXTERNAL => "PREFER_EXTERNAL"
  | RD_QUARANTINE_LOST => "QUARANTINE_LOST"
  | RD_FAIL_NONRESOURCE => "FAIL_NONRESOURCE"
  end.
#[export] Instance RecoveryDecision_eq_dec : EqDecision RecoveryDecision.
Proof. solve_decision. Defined.
#[export] Program Instance RecoveryDecision_enum : PyEnum RecoveryDecision := {|
  members := [RD_COMPLETE; RD_RETRY_BOUNDED; RD_DEFER_RESOURCE; RD_BLOCK_RESOURCE; RD_PREFER_EXTERNAL; RD_QUARANTINE_LOST; RD_FAIL_NONRESOURCE];
  value := RecoveryDecision_value |}.
Next Obligation. solve_complete. Qed.
Next Obligation. solve_value_inj. Qed.
Inductive RecoveryReasonCode : Type :=
| RRC_RESOURCE_OOM
| RRC_RESOURCE_MEMORY_LIMIT
| RRC_RESOURCE_TIMEOUT
| RRC_RESOURCE_ENFORCEMENT_UNAVAILABLE
| RRC_RESOURCE_ENFORCEMENT_UNVERIFIED
| RRC_RESOURCE_CAPACITY_INSUFFICIENT
| RRC_RESOURCE_PRESSURE
| RRC_SCOPE_CLEANUP_UNVERIFIED
| RRC_RESOURCE_EVIDENCE_UNKNOWN.
Definition RecoveryReasonCode_value (x : RecoveryReasonCode) : string :=
  match x with
  | RRC_RESOURCE_OOM => "RESOURCE_OOM"
  | RRC_RESOURCE_MEMORY_LIMIT => "RESOURCE_MEMORY_LIMIT"
  | RRC_RESOURCE_TIMEOUT => "RESOURCE_TIMEOUT"
  | RRC_RESOURCE_ENFORCEMENT_UNAVAILABLE => "RESOURCE_ENFORCEMENT_UNAVAILABLE"
  | RRC_RESOURCE_ENFORCEMENT_UNVERIFIED => "RESOURCE_ENFORCEMENT_UNVERIFIED"
  | RRC_RESOURCE_CAPACITY_INSUFFICIENT => "RESOURCE_CAPACITY_INSUFFICIENT"
  | RRC_RESOURCE_PRESSURE => "RESOURCE_PRESSURE"
  | RRC_SCOPE_CLEANUP_UNVERIFIED => "SCOPE_CLEANUP_UNVERIFIED"
  | RRC_RESOURCE_EVIDENCE_UNKNOWN => "RESOURCE_EVIDENCE_UNKNOWN"
  end.
#[export] Instance RecoveryReasonCode_eq_dec : EqDecision RecoveryReasonCode.
Proof. solve_decision. Defined.
#[export] Program Instance RecoveryReasonCode_enum : PyEnum RecoveryReasonCode := {|
  members := [RRC_RESOURCE_OOM; RRC_RESOURCE_MEMORY_LIMIT; RRC_RESOURCE_TIMEOUT; RRC_RESOURCE_ENFORCEMENT_UNAVAILABLE; RRC_RESOURCE_ENFORCEMENT_UNVERIFIED; RRC_RESOURCE_CAPACITY_INSUFFICIENT; RRC_RESOURCE_PRESSURE; RRC_SCOPE_CLEANUP_UNVERIFIED; RRC_RESOURCE_EVIDENCE_UNKNOWN];
  value := RecoveryReasonCode_value |}.
Next Obligation. solve_complete. Qed.
Next Obligation. solve_value_inj. Qed.

(** ** Termination evidence *)
Definition _ENFORCEMENT_FAILURES : list string :=
  [value TC_SCOPE_CREATION_FAILED; value TC_SCOPE_VERIFICATION_FAILED;
   value TC_ENFORCEMENT_UNAVAILABLE].

(** A counter of a [memory.events] dict: an [int] that is not a [bool]. *)
Definition counter (d : pydict) (key : string) : option Z :=
  match assoc (KStr key) d with Some (PInt z) => Some z | _ => None end.
Definition _delta (scope_events : pyval) (key : string) : Z :=
  match scope_events with
  | PDict d => match counter d key with Some raw => if (0 <? raw)%Z then raw else 0 | None => 0 end
  | _ => 0
  end.
Definition memory_events_keys : list string := ["oom_kill"; "oom_group_kill"; "max"; "high"].
Definition memory_events_delta (baseline current : pyval) : pydict :=
  let b := match baseline with PDict d => d | _ => [] end in
  let c := match current with PDict d => d | _ => [] end in
  map (fun key =>
    let bv := default 0%Z (counter b key) in
    let cv := default 0%Z (counter c key) in
    (KStr key, PInt (Z.max 0 (cv - bv)))) memory_events_keys.

Definition classify_termination (exit_code : option Z) (scope_events : pyval) (timed_out : bool)
    (enforcement_status : option string) : TerminationClass :=
  match match enforcement_status with
        | Some s => if str_in s _ENFORCEMENT_FAILURES then of_value s else None
        | None => None
        end with
  | Some c => c
  | None =>
      if ostr_eqb enforcement_status (Some (value TC_TIMEOUT)) then TC_TIMEOUT
      else if timed_out then TC_TIMEOUT
      else if (0 <? _delta scope_events "oom_kill")%Z
              || (0 <? _delta scope_events "oom_group_kill")%Z then TC_OOM_KILL
      else if (0 <? _delta scope_events "max")%Z || (0 <? _delta scope_events "high")%Z
      then TC_MEMORY_LIMIT
      else match exit_code with
           | Some z => if (z =? 0)%Z then TC_NORMAL_EXIT else TC_NONZERO_EXIT
           | None => TC_UNKNOWN_TERMINATION
           end
  end.

(** ** Failure classes *)
Definition _TERMINATION_TO_FAILURE (c : TerminationClass) : FailureClass :=
  match c with
  | TC_NORMAL_EXIT => FC_NORMAL_EXIT
  | TC_NONZERO_EXIT => FC_CODE_OR_PROCESS_FAILURE
  | TC_TIMEOUT => FC_RESOURCE_TIMEOUT
  | TC_OOM_KILL => FC_RESOURCE_OOM
  | TC_MEMORY_LIMIT => FC_RESOURCE_MEMORY_LIMIT
  | TC_SCOPE_CREATION_FAILED => FC_RESOURCE_ENFORCEMENT_FAILURE
  | TC_SCOPE_VERIFICATION_FAILED => FC_RESOURCE_ENFORCEMENT_FAILURE
  | TC_ENFORCEMENT_UNAVAILABLE => FC_RESOURCE_ENFORCEMENT_FAILURE
  | TC_SCOPE_CLEANUP_UNVERIFIED => FC_SCOPE_CLEANUP_UNVERIFIED
  | TC_UNKNOWN_TERMINATION => FC_UNKNOWN_TERMINATION
  end.
Definition _ENFORCEMENT_STATUS_TO_FAILURE (status : string) : option FailureClass :=
  if String.eqb status "SCOPE_CLEANUP_UNVERIFIED" then Some FC_SCOPE_CLEANUP_UNVERIFIED
  else if String.eqb status "SCOPE_CREATION_FAILED" then Some FC_RESOURCE_ENFORCEMENT_FAILURE
  else if String.eqb status "SCOPE_VERIFICATION_FAILED" then Some FC_RESOURCE_ENFORCEMENT_FAILURE
  else if String.eqb status "ENFORCEMENT_UNAVAILABLE" then Some FC_RESOURCE_ENFORCEMENT_FAILURE
  else None.
Definition _ADMISSION_TO_FAILURE (verdict : string) : option FailureClass :=
  if String.eqb verdict "DEFER" then Some FC_RESOURCE_CAPACITY_FAILURE
  else if String.eqb verdict "DENY_LOCAL" then Some FC_RESOURCE_CAPACITY_FAILURE
  else None.
Definition _RESOURCE_FAILURE_CLASSES : list FailureClass :=
  [FC_RESOURCE_OOM; FC_RESOURCE_MEMORY_LIMIT; FC_RESOURCE_TIMEOUT;
   FC_RESOURCE_ENFORCEMENT_FAILURE; FC_RESOURCE_CAPACITY_FAILURE; FC_SCOPE_CLEANUP_UNVERIFIED;
   FC_UNKNOWN_TERMINATION].
Definition _FAILURE_REASON_CODES (fc : FailureClass) : option RecoveryReasonCode :=
  match fc with
  | FC_RESOURCE_OOM => Some RRC_RESOURCE_OOM
  | FC_RESOURCE_MEMORY_LIMIT => Some RRC_RESOURCE_MEMORY_LIMIT
  | FC_RESOURCE_TIMEOUT => Some RRC_RESOURCE_TIMEOUT
  | FC_RESOURCE_ENFORCEMENT_FAILURE => Some RRC_RESOURCE_ENFORCEMENT_UNAVAILABLE
  | FC_RESOURCE_CAPACITY_FAILURE => Some RRC_RESOURCE_CAPACITY_INSUFFICIENT
  | FC_SCOPE_CLEANUP_UNVERIFIED => Some RRC_SCOPE_CLEANUP_UNVERIFIED
  | FC_UNKNOWN_TERMINATION => Some RRC_RESOURCE_EVIDENCE_UNKNOWN
  | _ => None
  end.
Definition _ALLOWED_RECOVERY_PAIRS (fc : FailureClass) : list RecoveryDecision :=
  match fc with
  | FC_NORMAL_EXIT => [RD_COMPLETE]
  | FC_CODE_OR_PROCESS_FAILURE => [RD_FAIL_NONRESOURCE]
  | FC_RESOURCE_OOM => [RD_BLOCK_RESOURCE; RD_PREFER_EXTERNAL]
  | FC_RESOURCE_MEMORY_LIMIT => [RD_BLOCK_RESOURCE; RD_DEFER_RESOURCE]
  | FC_RESOURCE_TIMEOUT => [RD_RETRY_BOUNDED; RD_DEFER_RESOURCE; RD_BLOCK_RESOURCE]
  | FC_RESOURCE_ENFORCEMENT_FAILURE => [RD_DEFER_RESOURCE; RD_QUARANTINE_LOST]
  | FC_RESOURCE_CAPACITY_FAILURE => [RD_DEFER_RESOURCE; RD_BLOCK_RESOURCE]
  | FC_SCOPE_CLEANUP_UNVERIFIED => [RD_QUARANTINE_LOST]
  | FC_UNKNOWN_TERMINATION => [RD_QUARANTINE_LOST]
  end.

(** ** The policy *)
Record RecoveryPolicy : Type := mkRecoveryPolicy {
  rp_policy_version : string;
  rp_max_resource_retries : Z;
  rp_max_resource_defers : Z;
  rp_retry_backoff_seconds : Z;
  rp_defer_backoff_seconds : Z;
  rp_retryable_failure_classes : list string;
  rp_allow_memory_limit_defer : bool;
  rp_allow_enforcement_defer : bool
}.
#[export] Instance RecoveryPolicy_eta : EtaExpand RecoveryPolicy := fun x =>
  mkRecoveryPolicy (rp_policy_version x) (rp_max_resource_retries x) (rp_max_resource_defers x) (rp_retry_backoff_seconds x) (rp_defer_backoff_seconds x) (rp_retryable_failure_classes x) (rp_allow_memory_limit_defer x) (rp_allow_enforcement_defer x).
Definition default_recovery_policy : RecoveryPolicy :=
  mkRecoveryPolicy "1" 2 2 300 300
    [value FC_RESOURCE_CAPACITY_FAILURE; value FC_RESOURCE_TIMEOUT] false true.
Definition never_retry : list string :=
  [value FC_RESOURCE_OOM; value FC_SCOPE_CLEANUP_UNVERIFIED; value FC_UNKNOWN_TERMINATION].
(** [__post_init__]; the isinstance checks hold by typing. *)
Definition check_policy (p : RecoveryPolicy) : res exc unit :=
  _ ← res_when (rp_max_resource_retries p <? 0)%Z ValueError;
  _ ← res_when (rp_max_resource_defers p <? 0)%Z ValueError;
  _ ← res_when (rp_retry_backoff_seconds p <=? 0)%Z ValueError;
  _ ← res_when (rp_defer_backoff_seconds p <=? 0)%Z ValueError;
  res_when (existsb (fun c => str_in c (rp_retryable_failure_classes p)) never_retry) ValueError.

Definition _as_failure_class (v : string) : res exc FailureClass := enum_of v.
Definition failure_class_from_termination (termination_class : option string) : FailureClass :=
  match termination_class with
  | None => FC_UNKNOWN_TERMINATION
  | Some key =>
      match of_value key with Some c => _TERMINATION_TO_FAILURE c | None => FC_UNKNOWN_TERMINATION end
  end.
Definition failure_class_from_enforcement_status (status : option string) : FailureClass :=
  default FC_UNKNOWN_TERMINATION (s ← status; _ENFORCEMENT_STATUS_TO_FAILURE s).
Definition failure_class_from_admission (admission_verdict : option string) : FailureClass :=
  default FC_NORMAL_EXIT (v ← admission_verdict; _ADMISSION_TO_FAILURE v).
Definition classify_failure (termination_class : option string) (exit_code : option Z)
    (timed_out : bool) (scope_events : pyval) : FailureClass :=
  let tc := match termination_class with
            | None => classify_termination exit_code scope_events timed_out None
            | Some s => default TC_UNKNOWN_TERMINATION (of_value s)
            end in
  failure_class_from_termination (Some (value tc)).
Definition is_resource_failure (failure_class : string) : res exc bool :=
  fc ← _as_failure_class failure_class; Ok (in_list fc _RESOURCE_FAILURE_CLASSES).
Definition reason_code_for_failure (fc : FailureClass) : RecoveryReasonCode :=
  default RRC_RESOURCE_EVIDENCE_UNKNOWN (_FAILURE_REASON_CODES fc).
Definition is_valid_recovery_pair (failure_class recovery_decision : string) : bool :=
  match of_value failure_class, of_value recovery_decision with
  | Some fc, Some dec => in_list dec (_ALLOWED_RECOVERY_PAIRS fc)
  | _, _ => false
  end.
Definition assert_valid_recovery_pair (fc : FailureClass) (dec : RecoveryDecision) : res exc unit :=
  res_unless (is_valid_recovery_pair (value fc) (value dec)) ValueError.
Definition normalized_reason_code (fc : FailureClass) (reason_code : option string) : res exc string :=
  match reason_code with
  | None => Ok (value (reason_code_for_failure fc))
  | Some c => r ← (enum_of c : res exc RecoveryReasonCode); Ok (value r)
  end.

Definition decide_recovery (fc : FailureClass) (attempt_no : Z) (pol : RecoveryPolicy)
    (has_evidence_unknown prefer_external_available : bool) : RecoveryDecision :=
  match fc with
  | FC_NORMAL_EXIT => RD_COMPLETE
  | FC_CODE_OR_PROCESS_FAILURE => RD_FAIL_NONRESOURCE
  | FC_RESOURCE_OOM => if prefer_external_available then RD_PREFER_EXTERNAL else RD_BLOCK_RESOURCE
  | FC_RESOURCE_MEMORY_LIMIT =>
      if rp_allow_memory_limit_defer pol && (attempt_no <? rp_max_resource_defers pol)%Z
      then RD_DEFER_RESOURCE else RD_BLOCK_RESOURCE
  | FC_RESOURCE_TIMEOUT =>
      if (attempt_no <? rp_max_resource_retries pol)%Z
         && str_in (value FC_RESOURCE_TIMEOUT) (rp_retryable_failure_classes pol)
      then RD_RETRY_BOUNDED
      else if (attempt_no <? rp_max_resource_defers pol)%Z then RD_DEFER_RESOURCE
      else RD_BLOCK_RESOURCE
  | FC_RESOURCE_ENFORCEMENT_FAILURE =>
      if has_evidence_unknown then RD_QUARANTINE_LOST
      else if rp_allow_enforcement_defer pol && (attempt_no <? rp_max_resource_defers pol)%Z
      then RD_DEFER_RESOURCE else RD_QUARANTINE_LOST
  | FC_RESOURCE_CAPACITY_FAILURE =>
      if (attempt_no <? rp_max_resource_defers pol)%Z then RD_DEFER_RESOURCE else RD_BLOCK_RESOURCE
  | FC_SCOPE_CLEANUP_UNVERIFIED => RD_QUARANTINE_LOST
  | FC_UNKNOWN_TERMINATION => RD_QUARANTINE_LOST
  end.

(** ** Properties *)
Lemma allowed_pair fc dec :
  is_valid_recovery_pair (value fc) (value dec) = in_list dec (_ALLOWED_RECOVERY_PAIRS fc).
Proof. unfold is_valid_recovery_pair. by rewrite !of_value_value. Qed.

(** Decisions that put the job back into the queue. *)
Definition requeues (d : RecoveryDecision) : bool := in_list d [RD_RETRY_BOUNDED; RD_DEFER_RESOURCE].
Definition budget (pol : RecoveryPolicy) : Z :=
  Z.max (rp_max_resource_retries pol) (rp_max_resource_defers pol).

Lemma decide_requeues fc attempt pol unknown ext :
  requeues (decide_recovery fc attempt pol unknown ext) = true -> (attempt < budget pol)%Z.
Proof.
  unfold budget. destruct fc; cbn; case_tests; try done;
    repeat match goal with
    | H : _ && _ = true |- _ => apply andb_true_iff in H as [? ?]
    | H : (_ <? _)%Z = true |- _ => apply Z.ltb_lt in H
    end; lia.
Qed.

(** Whatever the evidence, the counters and the (checked) policy, the decision
    is one the commit accepts for that failure class; a process killed for memory,
    an unverified clean-up and an unknown termination are never sent back to the
    queue; and nothing is sent back once the shared attempt budget is used up. *)
Theorem recovery_decision_bounded fc attempt pol unknown ext :
  let d := decide_recovery fc attempt pol unknown ext in
  assert_valid_recovery_pair fc d = Ok tt /\
  (requeues d = true -> (attempt < budget pol)%Z /\ ~ In (value fc) never_retry) /\
  (check_policy pol = Ok tt ->
   Forall (fun c => ~ In c (rp_retryable_failure_classes pol)) never_retry).
Proof.
  cbv zeta. split; [|split].
  - unfold assert_valid_recovery_pair. rewrite allowed_pair.
    destruct fc; cbn; case_tests; reflexivity.
  - intros R. split; [by eapply decide_requeues|]. destruct fc; cbn in *; case_tests;
      try discriminate; cbn; intuition discriminate.
  - unfold check_policy. intros H. repeat (apply res_seq_ok in H as [_ H]).
    apply res_when_ok in H. apply List.Forall_forall. intros c I J.
    apply not_true_iff_false in H. apply H, existsb_exists. exists c.
    split; [done | by apply str_in_In].
Qed.
Lemma recovery_decision_bounded_witness :
  decide_recovery FC_RESOURCE_TIMEOUT 1 default_recovery_policy false false = RD_RETRY_BOUNDED /\
  (1 < budget default_recovery_policy)%Z /\ check_policy default_recovery_policy = Ok tt.
Proof.
  split; [reflexivity|]. split; [|reflexivity].
  apply (recovery_decision_bounded FC_RESOURCE_TIMEOUT 1 default_recovery_policy false false). reflexivity.
Defined.

(** The loop of failing, deciding and (when the job is requeued) starting the
    next attempt: every commit that requeues adds one to [attempt_no]. *)
Fixpoint requeue_run (fuel : nat) (fc : FailureClass) (attempt : Z) (pol : RecoveryPolicy)
    (unknown ext : bool) : option (RecoveryDecision * Z) :=
  match fuel with
  | O => None
  | S k =>
      let d := decide_recovery fc attempt pol unknown ext in
      if requeues d then requeue_run k fc (attempt + 1) pol unknown ext else Some (d, attempt)
  end.


(** Evidence is never relabelled.  A raw exit code alone is never a resource
    failure (137 is not an out-of-memory kill, 124 is not a timeout) and never
    hides one: memory events and the trusted timeout marker decide first, and
    only a zero exit code without any such evidence counts as success. *)
Theorem exit_code_never_relabels code events timed_out status :
  let c := classify_termination (Some code) events timed_out status in
  let evidence := timed_out || (0 <? _delta events "oom_kill")%Z
                  || (0 <? _delta events "oom_group_kill")%Z || (0 <? _delta events "max")%Z
                  || (0 <? _delta events "high")%Z
                  || match status with
                     | Some s => str_in s (value TC_TIMEOUT :: _ENFORCEMENT_FAILURES)
                     | None => false
                     end in
  (evidence = false -> c = if (code =? 0)%Z then TC_NORMAL_EXIT else TC_NONZERO_EXIT) /\
  (evidence = true ->
     in_list (failure_class_from_termination (Some (value c))) _RESOURCE_FAILURE_CLASSES = true /\
     forall code', classify_termination code' events timed_out status = c).
Proof.
  cbv zeta. unfold classify_termination.
  destruct status as [s|]; [destruct (str_in s _ENFORCEMENT_FAILURES) eqn:E|].
  - assert (exists c, of_value s = Some c /\
      in_list c [TC_SCOPE_CREATION_FAILED; TC_SCOPE_VERIFICATION_FAILED; TC_ENFORCEMENT_UNAVAILABLE] = true)
      as (c & -> & Hc).
    { apply str_in_In in E. cbn in E. destruct E as [<-|[<-|[<-|[]]]]; by eexists. }
    cbn [str_in existsb]. unfold str_in in E. rewrite E, !orb_true_r. split; [done|].
    intros _. split; [by destruct c | done].
  - cbn [str_in existsb]. unfold str_in in E. rewrite E, orb_false_r.
    unfold ostr_eqb. destruct (String.eqb s (value TC_TIMEOUT)); [by rewrite orb_true_r|].
    rewrite orb_false_r. by destruct timed_out, (0 <? _)%Z, (0 <? _)%Z, (0 <? _)%Z, (0 <? _)%Z.
  - cbn [ostr_eqb]. rewrite orb_false_r.
    by destruct timed_out, (0 <? _)%Z, (0 <? _)%Z, (0 <? _)%Z, (0 <? _)%Z.
Qed.
Lemma exit_code_never_relabels_witness :
  classify_termination (Some 137%Z) (PDict [(KStr "oom_kill", PInt 0)]) false None = TC_NONZERO_EXIT /\
  classify_termination (Some 0%Z) (PDict [(KStr "oom_kill", PInt 1)]) false None = TC_OOM_KILL.
Proof.
  split; [|reflexivity].
  destruct (exit_code_never_relabels 137 (PDict [(KStr "oom_kill", PInt 0)]) false None) as [A _].
  exact (A eq_refl).
Defined.
