(* ===== verification/IsoParse.v ===== *)
(** * IsoParse: reading timestamps back
    ([_parse_iso] of src/argent_core/supervisor.py and [datetime.fromisoformat]).

    The extended calendar format is parsed: [YYYY-MM-DD], any separator, a time down
    to hours, minutes, seconds or a fraction, an optional offset.  The round trip with
    the text the store writes is proved; a naive time is read as UTC. *)
From S2P Require Import Prelude PyVal Models Timestamps Concurrency.
#[local] Open Scope Z_scope.

Definition digit_value (c : ascii) : option Z :=
  let n := Z.of_N (N_of_ascii c) - 48 in
  if (0 <=? n) && (n <=? 9) then Some n else None.
(** Exactly [width] digits. *)
Fixpoint take_digits (width : nat) (s : string) : option (Z * string) :=
  match width with
  | O => Some (0, s)
  | S w =>
      match s with
      | EmptyString => None
      | String c s' =>
          d ← digit_value c;
          '(r, rest) ← take_digits w s';
          Some (d * 10 ^ Z.of_nat w + r, rest)
      end
  end.
Definition take_char (c : ascii) (s : string) : option string :=
  match s with String d s' => if Ascii.eqb c d then Some s' else None | EmptyString => None end.
(** The digits of a fraction: the first six count, the rest is dropped. *)
Fixpoint take_fraction (width : nat) (s : string) : Z * string :=
  match s with
  | String c s' =>
      match digit_value c with
      | Some d => match width with
                  | S w => let '(r, rest) := take_fraction w s' in (d * 10 ^ Z.of_nat w + r, rest)
                  | O => take_fraction O s'
                  end
      | None => (0, s)
      end
  | EmptyString => (0, s)
  end.
Definition starts_digit (s : string) : bool :=
  match s with String c _ => match digit_value c with Some _ => true | None => false end | EmptyString => false end.

Definition month_length (leap : bool) (m : Z) : Z :=
  if m =? 12 then 31 else days_before_month leap (m + 1) - days_before_month leap m.
Definition ymd2days (ymd : Z * Z * Z) : Z :=
  let '(y, m, d) := ymd in days_before_year y + days_before_month (is_leap y) m + d - 1.
Definition parse_date (s : string) : option (Z * string) :=
  '(y, s) ← take_digits 4 s; s ← take_char "-" s;
  '(m, s) ← take_digits 2 s; s ← take_char "-" s;
  '(d, s) ← take_digits 2 s;
  if (1 <=? y) && (1 <=? m) && (m <=? 12) && (1 <=? d) && (d <=? month_length (is_leap y) m)
  then Some (ymd2days (y, m, d), s) else None.
(** [:MM] and the like. *)
Definition colon_field (s : string) : option (Z * string) := s ← take_char ":" s; take_digits 2 s.
Definition parse_fraction (s : string) : option (Z * string) :=
  match s with
  | String c s' =>
      if Ascii.eqb c "." || Ascii.eqb c "," then
        if starts_digit s' then Some (take_fraction 6 s') else None
      else Some (0, s)
  | EmptyString => Some (0, s)
  end.
(** Hours, minutes, seconds and microseconds, in microseconds. *)
Definition parse_hms (s : string) : option (Z * string) :=
  '(h, s) ← take_digits 2 s;
  match colon_field s with
  | None => if h <? 24 then Some (h * 3600 * US_PER_SECOND, s) else None
  | Some (mi, s) =>
      match colon_field s with
      | None => if (h <? 24) && (mi <? 60) then Some ((h * 3600 + mi * 60) * US_PER_SECOND, s) else None
      | Some (se, s) =>
          '(us, s) ← parse_fraction s;
          if (h <? 24) && (mi <? 60) && (se <? 60)
          then Some ((h * 3600 + mi * 60 + se) * US_PER_SECOND + us, s) else None
      end
  end.
Definition parse_offset (s : string) : option (option Z) :=
  match s with
  | EmptyString => Some None
  | String c s' =>
      if Ascii.eqb c "Z" && String.eqb s' EmptyString then Some (Some 0)
      else if Ascii.eqb c "+" || Ascii.eqb c "-" then
        '(o, rest) ← parse_hms s';
        if String.eqb rest EmptyString then Some (Some (if Ascii.eqb c "-" then - o else o)) else None
      else None
  end.
Definition fromisoformat (s : string) : res exc datetime :=
  match parse_date s with
  | None => Err ValueError
  | Some (days, EmptyString) => Ok (mkDatetime (days * US_PER_DAY) None)
  | Some (days, String _ s) =>
      match parse_hms s with
      | None => Err ValueError
      | Some (us, s) =>
          match parse_offset s with
          | None => Err ValueError
          | Some off => Ok (mkDatetime (days * US_PER_DAY + us) off)
          end
      end
  end.
(** The instant, in microseconds; supervisor.py rewrites a trailing [Z] first, which
    [fromisoformat] reads anyway. *)
Definition _parse_iso (iso : string) : res exc Z := dt ← fromisoformat (strip iso); Ok (to_utc dt).

(** ** Round trip *)
Lemma digit_value_digit n : 0 <= n < 10 -> digit_value (digit n) = Some n.
Proof.
  intros H. unfold digit_value, digit. rewrite N_ascii_embedding by lia.
  rewrite Z2N.id by lia. replace (48 + n - 48) with n by lia.
  by rewrite (proj2 (Z.leb_le 0 n)), (proj2 (Z.leb_le n 9)) by lia.
Qed.
Lemma take_digits_pad w n s : 0 <= n < 10 ^ Z.of_nat w ->
  take_digits w (pad w n ++ s)%string = Some (n, s).
Proof.
  revert n. induction w as [|w IH]; intros n H; cbn [pad take_digits].
  - cbn in H. replace n with 0 by lia. done.
  - rewrite Nat2Z.inj_succ, Z.pow_succ_r in H by lia.
    pose proof (Z.pow_pos_nonneg 10 (Z.of_nat w) ltac:(lia) ltac:(lia)) as P.
    cbn [append]. rewrite digit_value_digit.
    + cbn [mbind option_bind]. rewrite IH by (apply Z.mod_pos_bound; lia). cbn.
      do 2 f_equal. rewrite (Z.div_mod n (10 ^ Z.of_nat w)) at 3 by lia. lia.
    + split; [apply Z.div_pos; lia | apply Z.div_lt_upper_bound; lia].
Qed.
Lemma take_fraction_pad w n s : 0 <= n < 10 ^ Z.of_nat w -> starts_digit s = false ->
  take_fraction w (pad w n ++ s)%string = (n, s).
Proof.
  revert n. induction w as [|w IH]; intros n H D; cbn [pad].
  - cbn in H. replace n with 0 by lia. destruct s as [|c s]; [done|]. cbn in D |- *.
    destruct (digit_value c); [done|]. done.
  - rewrite Nat2Z.inj_succ, Z.pow_succ_r in H by lia.
    pose proof (Z.pow_pos_nonneg 10 (Z.of_nat w) ltac:(lia) ltac:(lia)) as P.
    cbn [append take_fraction]. rewrite digit_value_digit.
    + rewrite IH by (done || apply Z.mod_pos_bound; lia). cbn.
      f_equal. rewrite (Z.div_mod n (10 ^ Z.of_nat w)) at 3 by lia. lia.
    + split; [apply Z.div_pos; lia | apply Z.div_lt_upper_bound; lia].
Qed.

Definition month_day_inverts (leap : bool) (r : Z) : bool :=
  let '(m, d) := month_day leap r in
  (days_before_month leap m + d - 1 =? r) && (d <=? month_length leap m).
Lemma month_day_inverts_ok (leap : bool) r : 0 <= r < (if leap then 366 else 365) ->
  month_day_inverts leap r = true.
Proof.
  intros H. assert (C : all_below 366 (month_day_inverts true) && all_below 365 (month_day_inverts false) = true)
    by (by vm_compute). apply andb_true_iff in C as [C1 C2].
  destruct leap; [exact (all_below_spec _ _ _ C1 H) | exact (all_below_spec _ _ _ C2 H)].
Qed.
Lemma is_leap_cycle y k : is_leap (y + 400 * k) = is_leap y.
Proof.
  unfold is_leap. replace (y + 400 * k) with (y + (100 * k) * 4) at 1 by lia.
  replace (y + 400 * k) with (y + (4 * k) * 100) at 1 by lia.
  replace (y + 400 * k) with (y + k * 400) by lia. by rewrite !Z.mod_add by lia.
Qed.
Lemma days_before_year_cycle y k : days_before_year (y + 400 * k) = days_before_year y + 146097 * k.
Proof.
  unfold days_before_year. replace (y + 400 * k - 1) with (y - 1 + (100 * k) * 4) by lia.
  rewrite Z.div_add by lia. replace (y - 1 + 100 * k * 4) with (y - 1 + (4 * k) * 100) by lia.
  rewrite Z.div_add by lia. replace (y - 1 + 4 * k * 100) with (y - 1 + k * 400) by lia.
  rewrite Z.div_add by lia. lia.
Qed.
(** The day number of the date of a day is the day. *)
Lemma ymd2days_days2ymd a : 0 <= a -> let '(y, m, d) := days2ymd a in
  ymd2days (y, m, d) = a /\ d <= month_length (is_leap y) m.
Proof.
  intros H. unfold days2ymd, cycle_ymd. pose proof (Z.mod_pos_bound a 146097 ltac:(lia)) as M.
  pose proof (cycle_yd_spec _ M) as S. destruct (cycle_yd (a mod 146097)) as [y r]. destruct S as (_ & R & E).
  pose proof (month_day_inverts_ok (is_leap y) r R) as I. unfold month_day_inverts in I.
  destruct (month_day (is_leap y) r) as [m d]. rewrite andb_true_iff, Z.eqb_eq, Z.leb_le in I. destruct I as [I L].
  unfold ymd2days. rewrite is_leap_cycle, days_before_year_cycle. split; [|done].
  pose proof (Z.div_mod a 146097 ltac:(lia)). lia.
Qed.

Ltac reassoc := repeat first [rewrite string_app_assoc' | progress (cbn [append])].
Lemma parse_date_iso days s : 0 <= days < MAX_DAYS ->
  parse_date (iso_date (days2ymd days) ++ s)%string = Some (days, s).
Proof.
  intros H. pose proof (days2ymd_range days H) as R. pose proof (ymd2days_days2ymd days ltac:(lia)) as I.
  destruct (days2ymd days) as [[y m] d]. destruct R as (Y & Mo & D), I as [I L]. unfold iso_date, parse_date.
  assert (A : ((pad 4 y ++ "-" ++ pad 2 m ++ "-" ++ pad 2 d) ++ s
    = pad 4 y ++ String "-" (pad 2 m ++ String "-" (pad 2 d ++ s)))%string)
    by by reassoc.
  rewrite A. repeat (rewrite take_digits_pad by (cbn; lia); cbn [mbind option_bind take_char Ascii.eqb Bool.eqb]).
  rewrite !(proj2 (Z.leb_le _ _)) by lia. cbn [andb]. by rewrite I.
Qed.
Lemma parse_hms_iso us : 0 <= us < US_PER_DAY ->
  exists t, iso_time us = (t ++ "+00:00")%string /\ forall s, starts_digit s = false ->
    (forall c r, s = String c r -> Ascii.eqb c ":" || Ascii.eqb c "." || Ascii.eqb c "," = false) ->
    parse_hms (t ++ s)%string = Some (us, s).
Proof.
  unfold US_PER_DAY, US_PER_SECOND. intros H. unfold iso_time, US_PER_SECOND.
  set (q := us / 1000000). assert (Q : 0 <= q < 86400) by (subst q; Z.to_euclidean_division_equations; lia).
  set (f := us mod 1000000). assert (F : 0 <= f < 1000000) by (by apply Z.mod_pos_bound).
  assert (U : us = q * 1000000 + f) by (subst q f; rewrite (Z.div_mod us 1000000) at 1 by lia; lia).
  assert (D : q = q / 3600 * 3600 + q / 60 mod 60 * 60 + q mod 60 /\ 0 <= q / 3600 < 24
              /\ 0 <= q / 60 mod 60 < 60 /\ 0 <= q mod 60 < 60) by (Z.to_euclidean_division_equations; lia).
  destruct D as (D & Hh & Hm & Hs).
  set (h := q / 3600) in *. set (mi := q / 60 mod 60) in *. set (se := q mod 60) in *.
  exists (pad 2 h ++ ":" ++ pad 2 mi ++ ":" ++ pad 2 se ++ fraction f)%string. split.
  { by reassoc. }
  intros s Ds Cs.
  assert (A : ((pad 2 h ++ ":" ++ pad 2 mi ++ ":" ++ pad 2 se ++ fraction f) ++ s
    = pad 2 h ++ String ":" (pad 2 mi ++ String ":" (pad 2 se ++ (fraction f ++ s))))%string).
  { by reassoc. }
  rewrite A. unfold parse_hms, colon_field.
  do 3 (rewrite ?take_digits_pad by (cbn; lia); cbn [mbind option_bind take_char Ascii.eqb Bool.eqb]).
  assert (P : parse_fraction (fraction f ++ s)%string = Some (f, s)).
  { unfold fraction. destruct (Z.eqb_spec f 0) as [->|N].
    - cbn [append]. unfold parse_fraction. destruct s as [|c r]; [done|]. specialize (Cs c r eq_refl).
      rewrite !orb_false_iff in Cs. destruct Cs as [[_ ->] ->]. done.
    - unfold parse_fraction. cbn [append Ascii.eqb Bool.eqb orb].
      assert (St : starts_digit (pad 6 f ++ s) = true).
      { cbn [pad append starts_digit]. rewrite digit_value_digit; [done|].
        split; [apply Z.div_pos; lia | apply Z.div_lt_upper_bound; lia]. }
      rewrite St. by rewrite take_fraction_pad by (done || lia). }
  rewrite P. cbn [mbind option_bind]. rewrite !(proj2 (Z.ltb_lt _ _)) by lia. cbn [andb]. do 2 f_equal. unfold US_PER_SECOND. lia.
Qed.

Lemma strip_framed c s e : is_ws c = false -> is_ws e = false ->
  strip (String c s ++ String e EmptyString)%string = (String c s ++ String e EmptyString)%string.
Proof.
  intros C E. unfold strip. cbn [append lstrip]. rewrite C.
  change (String c (s ++ String e EmptyString)%string) with (String c s ++ String e EmptyString)%string.
  rewrite string_rev_snoc. cbn [lstrip]. rewrite E, <- string_rev_snoc. apply string_rev_involutive.
Qed.
Lemma digit_not_ws n : 0 <= n < 10 -> is_ws (digit n) = false.
Proof.
  intros H. unfold is_ws, digit. rewrite N_ascii_embedding by lia.
  rewrite andb_false_intro2, andb_false_intro2; [done | | ]; apply N.leb_gt; lia.
Qed.
Lemma strip_iso us : 0 <= us < MAX_US -> strip (iso_utc us) = iso_utc us.
Proof.
  unfold MAX_US. intros R. assert (D : 0 <= us / US_PER_DAY < MAX_DAYS)
    by (unfold US_PER_DAY, US_PER_SECOND in *; Z.to_euclidean_division_equations; lia).
  pose proof (days2ymd_range _ D) as Y. unfold iso_utc, iso_time.
  destruct (days2ymd (us / US_PER_DAY)) as [[y m] d]. destruct Y as [Y _].
  set (s := us mod US_PER_DAY / US_PER_SECOND). set (f := fraction _).
  assert (A : exists r, (iso_date (y, m, d) ++ "T" ++ pad 2 (s / 3600) ++ ":" ++ pad 2 (s / 60 mod 60) ++ ":"
     ++ pad 2 (s mod 60) ++ f ++ "+00:00")%string = (String (digit (y / 1000)) r ++ String "0" EmptyString)%string).
  { exists (pad 3 (y mod 1000) ++ "-" ++ pad 2 m ++ "-" ++ pad 2 d ++ "T" ++ pad 2 (s / 3600) ++ ":"
      ++ pad 2 (s / 60 mod 60) ++ ":" ++ pad 2 (s mod 60) ++ f ++ "+00:0")%string.
    unfold iso_date. by reassoc. }
  destruct A as [r ->]. apply strip_framed; [|done]. apply digit_not_ws.
  split; [apply Z.div_pos; lia | apply Z.div_lt_upper_bound; lia].
Qed.

