(* ===== verification/Governor.v ===== *)
(** * Governor: may a job start on this host?
    (src/argent_core/resource_policy.py, src/argent_core/resource_governor.py and the
    snapshot record of src/argent_core/host_snapshot.py).

    Ratios and loads are Python floats: IEEE doubles ([SpecFloat], radix 2, 53 digits),
    with the true division of two integers rounded once as CPython does.  Admission is a
    pure function of a snapshot, a policy and a clock; the first rule that applies
    decides. *)
From Stdlib Require Import SpecFloat.
From S2P Require Import Prelude PyVal Models Timestamps Concurrency IsoParse.
#[local] Open Scope string_scope.

(** ** Doubles *)
Definition double : Type := spec_float.
Definition PREC : Z := 53.
Definition EMAX : Z := 1024.
Definition dbl_round (x : double) : res exc double :=
  match x with S754_infinity _ => Err OverflowError | _ => Ok x end.
(** [float(n)] of an integer. *)
Definition dbl_of_Z (n : Z) : res exc double := dbl_round (binary_normalize PREC EMAX n 0 false).
(** [a / b] of two integers, [b] positive. *)
Definition truediv (a b : Z) : res exc double :=
  match a, b with
  | Z0, _ => Ok (S754_zero false)
  | Zpos p, Zpos q | Zneg p, Zpos q =>
      let '(m, e, l) := SFdiv_core_binary PREC EMAX (Zpos p) 0 (Zpos q) 0 in
      dbl_round (binary_round_aux PREC EMAX (a <? 0)%Z m e l)
  | _, _ => Err ValueError
  end.
Definition dbl_mul : double -> double -> double := SFmul PREC EMAX.
Definition dbl_ltb : double -> double -> bool := SFltb.
Definition dbl_leb : double -> double -> bool := SFleb.
(** [int(x)]: towards zero. *)
Definition dbl_trunc (x : double) : res exc Z :=
  match x with
  | S754_zero _ => Ok 0%Z
  | S754_finite s m e =>
      let a := if (0 <=? e)%Z then (Zpos m * 2 ^ e)%Z else (Zpos m / 2 ^ (- e))%Z in
      Ok (if s then - a else a)%Z
  | S754_infinity _ => Err OverflowError
  | S754_nan => Err ValueError
  end.
(** A decimal literal [n / d]. *)
Definition lit (n d : Z) : double := match truediv n d with Ok x => x | Err _ => S754_nan end.

Example lit_20 : lit 20 100 = S754_finite false 7205759403792794 (-55).
Proof. vm_compute. reflexivity. Qed.
Example third_rounds : truediv 1 3 = Ok (S754_finite false 6004799503160661 (-54)).
Proof. vm_compute. reflexivity. Qed.
Example trunc_ratio : (x ← dbl_of_Z 8000000001; dbl_trunc (dbl_mul (lit 20 100) x)) = Ok 1600000000%Z.
Proof. vm_compute. reflexivity. Qed.

(** ** Policy *)
Definition _MIB : Z := 1024 * 1024.
Definition _GIB : Z := 1024 * _MIB.
Definition mib (n : Z) : Z := n * _MIB.
(** [gib(n)] for the float [n / d]. *)
Definition gib (n d : Z) : Z :=
  match (g ← dbl_of_Z _GIB; dbl_trunc (dbl_mul (lit n d) g)) with Ok z => z | Err _ => 0 end.
Record ResourceLimits : Type := mkResourceLimits {
  rl_memory_high_bytes : Z;
  rl_memory_max_bytes : Z;
  rl_swap_max_bytes : Z;
  rl_cpu_quota_percent : Z;
  rl_timeout_seconds : option Z
}.
#[export] Instance ResourceLimits_eta : EtaExpand ResourceLimits := fun x =>
  mkResourceLimits (rl_memory_high_bytes x) (rl_memory_max_bytes x) (rl_swap_max_bytes x) (rl_cpu_quota_percent x) (rl_timeout_seconds x).
Record ResourcePolicy : Type := mkResourcePolicy {
  rcp_policy_version : string;
  rcp_light_limits : ResourceLimits;
  rcp_medium_limits : ResourceLimits;
  rcp_heavy_limits : ResourceLimits;
  rcp_exclusive_limits : ResourceLimits;
  rcp_minimum_host_reserve_bytes : Z;
  rcp_host_reserve_ram_ratio : double;
  rcp_swap_warning_ratio : double;
  rcp_swap_block_ratio : double;
  rcp_minimum_disk_free_bytes : Z;
  rcp_minimum_disk_free_ratio : double;
  rcp_large_temp_factor : double;
  rcp_tmp_forbidden_markers : list string;
  rcp_max_writers_global : Z;
  rcp_max_light : Z;
  rcp_max_medium : Z;
  rcp_max_heavy : Z;
  rcp_defer_retry_seconds : Z;
  rcp_load_multiplier_5min : double
}.
#[export] Instance ResourcePolicy_eta : EtaExpand ResourcePolicy := fun x =>
  mkResourcePolicy (rcp_policy_version x) (rcp_light_limits x) (rcp_medium_limits x) (rcp_heavy_limits x) (rcp_exclusive_limits x) (rcp_minimum_host_reserve_bytes x) (rcp_host_reserve_ram_ratio x) (rcp_swap_warning_ratio x) (rcp_swap_block_ratio x) (rcp_minimum_disk_free_bytes x) (rcp_minimum_disk_free_ratio x) (rcp_large_temp_factor x) (rcp_tmp_forbidden_markers x) (rcp_max_writers_global x) (rcp_max_light x) (rcp_max_medium x) (rcp_max_heavy x) (rcp_defer_retry_seconds x) (rcp_load_multiplier_5min x).
(** The defaults of the dataclass. *)
Definition default_policy : ResourcePolicy := {|
  rcp_policy_version := "1";
  rcp_light_limits := mkResourceLimits (mib 768) (gib 1 1) (mib 256) 100 (Some (15 * 60)%Z);
  rcp_medium_limits := mkResourceLimits (gib 2 1) (gib 25 10) (mib 512) 200 (Some (45 * 60)%Z);
  rcp_heavy_limits := mkResourceLimits (gib 3 1) (gib 4 1) (gib 1 1) 300 (Some (120 * 60)%Z);
  rcp_exclusive_limits := mkResourceLimits (gib 45 10) (gib 55 10) (gib 15 10) 400 None;
  rcp_minimum_host_reserve_bytes := gib 15 10;
  rcp_host_reserve_ram_ratio := lit 20 100;
  rcp_swap_warning_ratio := lit 70 100;
  rcp_swap_block_ratio := lit 85 100;
  rcp_minimum_disk_free_bytes := gib 10 1;
  rcp_minimum_disk_free_ratio := lit 15 100;
  rcp_large_temp_factor := lit 2 1;
  rcp_tmp_forbidden_markers := ["node_modules"; "site-packages"; ".venv"; "venv"; "env"; "repo"; "worktree"; "build"; "dist";
    "cache"; "artifact"; "store"; ".pnpm-store"; ".npm"; ".cargo"; ".yarn"; "target"];
  rcp_max_writers_global := 1; rcp_max_light := 2; rcp_max_medium := 1; rcp_max_heavy := 1;
  rcp_defer_retry_seconds := 300;
  rcp_load_multiplier_5min := lit 3 2
|}.
Definition limits_for (p : ResourcePolicy) (resource_class : ResourceClass) : ResourceLimits :=
  match resource_class with
  | RC_LIGHT => rcp_light_limits p
  | RC_MEDIUM => rcp_medium_limits p
  | RC_HEAVY => rcp_heavy_limits p
  | RC_EXCLUSIVE => rcp_exclusive_limits p
  end.
Definition required_host_reserve (mem_total_bytes minimum_host_reserve_bytes : Z) (host_reserve_ram_ratio : double) : res exc Z :=
  if (mem_total_bytes <=? 0)%Z then Ok minimum_host_reserve_bytes
  else
    t ← dbl_of_Z mem_total_bytes;
    ratio_reserve ← dbl_trunc (dbl_mul host_reserve_ram_ratio t);
    Ok (Z.max minimum_host_reserve_bytes ratio_reserve).
Definition effective_memory_max (class_memory_max_bytes mem_available_bytes reserve_bytes : Z) : Z :=
  let headroom := (mem_available_bytes - reserve_bytes)%Z in
  Z.max 0 (Z.min class_memory_max_bytes headroom).

(** ** The snapshot *)
Definition FIELD_ACTIVE_JOBS : string := "active_jobs".
Record HostResourceSnapshot : Type := mkHostResourceSnapshot {
  hs_timestamp : string;
  hs_mem_total_bytes : option Z;
  hs_mem_available_bytes : option Z;
  hs_swap_total_bytes : option Z;
  hs_swap_free_bytes : option Z;
  hs_root_free_bytes : option Z;
  hs_root_free_ratio : option double;
  hs_workspace_free_bytes : option Z;
  hs_workspace_free_ratio : option double;
  hs_tmp_fs_type : option string;
  hs_tmp_free_bytes : option Z;
  hs_load_1min : option double;
  hs_load_5min : option double;
  hs_load_15min : option double;
  hs_cpu_count : option Z;
  hs_active_jobs : list (list pyval);
  hs_psi_memory_avg10 : option double;
  hs_psi_cpu_avg10 : option double;
  hs_unknown_fields : list string;
  hs_snapshot_hash : string
}.
#[export] Instance HostResourceSnapshot_eta : EtaExpand HostResourceSnapshot := fun x =>
  mkHostResourceSnapshot (hs_timestamp x) (hs_mem_total_bytes x) (hs_mem_available_bytes x) (hs_swap_total_bytes x) (hs_swap_free_bytes x) (hs_root_free_bytes x) (hs_root_free_ratio x) (hs_workspace_free_bytes x) (hs_workspace_free_ratio x) (hs_tmp_fs_type x) (hs_tmp_free_bytes x) (hs_load_1min x) (hs_load_5min x) (hs_load_15min x) (hs_cpu_count x) (hs_active_jobs x) (hs_psi_memory_avg10 x) (hs_psi_cpu_avg10 x) (hs_unknown_fields x) (hs_snapshot_hash x).

(** ** Decisions *)
Inductive ResourceReasonCode : Type :=
| RR_OK
| RR_INSUFFICIENT_MEMORY_RESERVE
| RR_SWAP_PRESSURE
| RR_DISK_LOW
| RR_TMPFS_POLICY_VIOLATION
| RR_LOAD_PRESSURE
| RR_CONCURRENCY_LIMIT
| RR_RESOURCE_EVIDENCE_UNKNOWN
| RR_LOCAL_CAPACITY_INSUFFICIENT
| RR_EXTERNAL_CI_PREFERRED
| RR_RESOURCE_ENFORCEMENT_UNAVAILABLE.
Definition ResourceReasonCode_value (x : ResourceReasonCode) : string :=
  match x with
  | RR_OK => "OK"
  | RR_INSUFFICIENT_MEMORY_RESERVE => "INSUFFICIENT_MEMORY_RESERVE"
  | RR_SWAP_PRESSURE => "SWAP_PRESSURE"
  | RR_DISK_LOW => "DISK_LOW"
  | RR_TMPFS_POLICY_VIOLATION => "TMPFS_POLICY_VIOLATION"
  | RR_LOAD_PRESSURE => "LOAD_PRESSURE"
  | RR_CONCURRENCY_LIMIT => "CONCURRENCY_LIMIT"
  | RR_RESOURCE_EVIDENCE_UNKNOWN => "RESOURCE_EVIDENCE_UNKNOWN"
  | RR_LOCAL_CAPACITY_INSUFFICIENT => "LOCAL_CAPACITY_INSUFFICIENT"
  | RR_EXTERNAL_CI_PREFERRED => "EXTERNAL_CI_PREFERRED"
  | RR_RESOURCE_ENFORCEMENT_UNAVAILABLE => "RESOURCE_ENFORCEMENT_UNAVAILABLE"
  end.
#[export] Instance ResourceReasonCode_eq_dec : EqDecision ResourceReasonCode.
Proof. solve_decision. Defined.
#[export] Program Instance ResourceReasonCode_enum : PyEnum ResourceReasonCode := {|
  members := [RR_OK; RR_INSUFFICIENT_MEMORY_RESERVE; RR_SWAP_PRESSURE; RR_DISK_LOW; RR_TMPFS_POLICY_VIOLATION; RR_LOAD_PRESSURE; RR_CONCURRENCY_LIMIT; RR_RESOURCE_EVIDENCE_UNKNOWN; RR_LOCAL_CAPACITY_INSUFFICIENT; RR_EXTERNAL_CI_PREFERRED; RR_RESOURCE_ENFORCEMENT_UNAVAILABLE];
  value := ResourceReasonCode_value |}.
Next Obligation. solve_complete. Qed.
Next Obligation. solve_value_inj. Qed.
Inductive AdmissionVerdict : Type :=
| AV_ALLOW
| AV_DEFER
| AV_DENY_LOCAL
| AV_PREFER_EXTERNAL.
Definition AdmissionVerdict_value (x : AdmissionVerdict) : string :=
  match x with
  | AV_ALLOW => "ALLOW"
  | AV_DEFER => "DEFER"
  | AV_DENY_LOCAL => "DENY_LOCAL"
  | AV_PREFER_EXTERNAL => "PREFER_EXTERNAL"
  end.
#[export] Instance AdmissionVerdict_eq_dec : EqDecision AdmissionVerdict.
Proof. solve_decision. Defined.
#[export] Program Instance AdmissionVerdict_enum : PyEnum AdmissionVerdict := {|
  members := [AV_ALLOW; AV_DEFER; AV_DENY_LOCAL; AV_PREFER_EXTERNAL];
  value := AdmissionVerdict_value |}.
Next Obligation. solve_complete. Qed.
Next Obligation. solve_value_inj. Qed.
Record AdmissionDecision : Type := mkAdmissionDecision {
  ad_resource_class : string;
  ad_policy_version : string;
  ad_snapshot_ref : string;
  ad_decision : AdmissionVerdict;
  ad_reason_code : ResourceReasonCode;
  ad_next_eligible_at : option string;
  ad_effective_limits : option ResourceLimits;
  ad_timestamp : string
}.
#[export] Instance AdmissionDecision_eta : EtaExpand AdmissionDecision := fun x =>
  mkAdmissionDecision (ad_resource_class x) (ad_policy_version x) (ad_snapshot_ref x) (ad_decision x) (ad_reason_code x) (ad_next_eligible_at x) (ad_effective_limits x) (ad_timestamp x).

(** [isoformat] of an aware time at an offset other than UTC's. *)
Definition iso_offset (off : Z) : string :=
  let a := Z.abs off in
  let s := (a / US_PER_SECOND)%Z in
  (if (off <? 0)%Z then "-" else "+") ++ pad 2 (s / 3600) ++ ":" ++ pad 2 (s / 60 mod 60)
    ++ (if (s mod 60 =? 0)%Z && (a mod US_PER_SECOND =? 0)%Z then "" else ":" ++ pad 2 (s mod 60))
    ++ fraction (a mod US_PER_SECOND).
Definition isoformat (wall off : Z) : string :=
  let us := (wall mod US_PER_DAY)%Z in
  let s := (us / US_PER_SECOND)%Z in
  iso_date (days2ymd (wall / US_PER_DAY)) ++ "T" ++ pad 2 (s / 3600) ++ ":" ++ pad 2 (s / 60 mod 60) ++ ":" ++ pad 2 (s mod 60)
    ++ fraction (us mod US_PER_SECOND) ++ iso_offset off.

Section Decide.
(** The wall clock of the process, [datetime.now(timezone.utc)]. *)
Variable wall : Z.
Definition now_or_default (now_iso : option string) : string :=
  match now_iso with Some s => if truthy s then s else iso_utc wall | None => iso_utc wall end.
Definition _add_seconds_iso (now_iso : option string) (seconds : Z) : res exc string :=
  if (seconds <=? 0)%Z then Ok (now_or_default now_iso)
  else
    let dt := match now_iso with
              | Some s => match fromisoformat s with Ok dt => dt | Err _ => mkDatetime wall (Some 0%Z) end
              | None => mkDatetime wall (Some 0%Z)
              end in
    let w := (dt_wall dt + seconds * US_PER_SECOND)%Z in
    _ ← res_unless (in_range w) OverflowError;
    Ok (isoformat w (default 0%Z (dt_offset dt))).

Definition _is_tmp_path_forbidden (path : pyval) (p : ResourcePolicy) : bool :=
  match path with
  | PStr path =>
      let norm := rstrip_char "/" (replace_char "\" "/" (strip path)) in
      truthy norm && (String.eqb norm "/tmp" || String.prefix "/tmp/" norm)
        && existsb (fun part => str_in (lower part) (rcp_tmp_forbidden_markers p)) (split_on "/" norm)
  | _ => false
  end.

(** The class of an active job, [item[1]]. *)
Definition class_of (item : list pyval) : option ResourceClass :=
  match nth_error item 1 with Some (PStr c) => of_value c | _ => None end.
(** [cls in counts] hashes the class. *)
Definition unhashable_class (item : list pyval) : bool :=
  match nth_error item 1 with Some v => negb (hashable v) | None => false end.
Definition is_class (c : ResourceClass) (item : list pyval) : bool := bool_decide (class_of item = Some c).
Definition count (c : ResourceClass) (active_jobs : list (list pyval)) : Z :=
  Z.of_nat (length (List.filter (is_class c) active_jobs)).
Definition _active_counts (active_jobs : list (list pyval)) : res exc (ResourceClass -> Z) :=
  _ ← res_when (existsb unhashable_class active_jobs) TypeError;
  Ok (fun c => count c active_jobs).
Definition heavy_class (c : ResourceClass) : bool := in_list c [RC_MEDIUM; RC_HEAVY; RC_EXCLUSIVE].
Definition missing_if {A} (o : option A) (name : string) : list string := match o with None => [name] | Some _ => [] end.
Definition _missing_critical (snapshot : HostResourceSnapshot) (resource_class : ResourceClass) : list string :=
  missing_if (hs_mem_total_bytes snapshot) "mem_total_bytes" ++ missing_if (hs_mem_available_bytes snapshot) "mem_available_bytes"
  ++ missing_if (hs_swap_total_bytes snapshot) "swap_total_bytes" ++ missing_if (hs_swap_free_bytes snapshot) "swap_free_bytes"
  ++ missing_if (hs_root_free_bytes snapshot) "root_free" ++ missing_if (hs_tmp_fs_type snapshot) "tmp_fs_type"
  ++ (if str_in FIELD_ACTIVE_JOBS (hs_unknown_fields snapshot) then [FIELD_ACTIVE_JOBS] else [])
  ++ (if heavy_class resource_class
      then missing_if (hs_load_5min snapshot) "load" ++ missing_if (hs_cpu_count snapshot) "cpu_count" else []).
Definition _active_reserved_bytes (active_jobs : list (list pyval)) (p : ResourcePolicy) : Z :=
  fold_left (fun total item =>
    match class_of item with Some rc => (total + rl_memory_max_bytes (limits_for p rc))%Z | None => total end) active_jobs 0%Z.
Definition _effective_limits (self_policy : ResourcePolicy) (resource_class : ResourceClass) (snapshot : HostResourceSnapshot)
    (reserve : Z) : ResourceLimits :=
  let limits := limits_for self_policy resource_class in
  match hs_mem_available_bytes snapshot with
  | Some avail => limits <| rl_memory_max_bytes := effective_memory_max (rl_memory_max_bytes limits) avail reserve |>
  | None => limits
  end.

Section Verdict.
Variables (self_policy policy : ResourcePolicy) (resource_class : ResourceClass) (snapshot : HostResourceSnapshot).
Variables (now_iso : option string) (prefer_external_ci : bool).
Variables (estimated_temp_bytes : option Z) (tmp_paths : list pyval).

Definition decision (d : AdmissionVerdict) (reason : ResourceReasonCode) (next : option string) (limits : option ResourceLimits) :
    AdmissionDecision := {|
  ad_resource_class := value resource_class; ad_policy_version := rcp_policy_version policy;
  ad_snapshot_ref := hs_snapshot_hash snapshot; ad_decision := d; ad_reason_code := reason;
  ad_next_eligible_at := next; ad_effective_limits := limits; ad_timestamp := now_or_default now_iso |}.
Definition defer (reason : ResourceReasonCode) : res exc (option AdmissionDecision) :=
  next ← _add_seconds_iso now_iso (rcp_defer_retry_seconds policy);
  Ok (Some (decision AV_DEFER reason (Some next) None)).
Definition deny (reason : ResourceReasonCode) : res exc (option AdmissionDecision) :=
  Ok (Some (decision AV_DENY_LOCAL reason None None)).
Definition pass : res exc (option AdmissionDecision) := Ok None.
Definition is_writer : bool := is_writer_class resource_class.

(** 1. Missing evidence. *)
Definition gate_evidence : res exc (option AdmissionDecision) :=
  match _missing_critical snapshot resource_class with
  | [] => pass
  | _ => if heavy_class resource_class then deny RR_RESOURCE_EVIDENCE_UNKNOWN else defer RR_RESOURCE_EVIDENCE_UNKNOWN
  end.
(** 2. Concurrency limits. *)
Definition crowded (counts : ResourceClass -> Z) : bool :=
  let writer_active := (counts RC_MEDIUM + counts RC_HEAVY + counts RC_EXCLUSIVE)%Z in
  (bool_decide (resource_class = RC_EXCLUSIVE) && (0 <? writer_active + counts RC_LIGHT)%Z)
  || (0 <? counts RC_EXCLUSIVE)%Z
  || (is_writer && (rcp_max_writers_global policy <=? writer_active)%Z)
  || (bool_decide (resource_class = RC_LIGHT) && (rcp_max_light policy <=? counts RC_LIGHT)%Z).
Definition gate_concurrency : res exc (option AdmissionDecision) :=
  counts ← _active_counts (hs_active_jobs snapshot);
  if crowded counts then defer RR_CONCURRENCY_LIMIT else pass.
(** 3. Swap pressure. *)
Definition swap_ratio : res exc (option double) :=
  match hs_swap_total_bytes snapshot with
  | Some total => if (0 <? total)%Z
      then r ← truediv (total - default 0%Z (hs_swap_free_bytes snapshot)) total; Ok (Some r) else Ok None
  | None => Ok None
  end.
Definition gate_swap : res exc (option AdmissionDecision) :=
  ratio ← swap_ratio;
  match ratio with
  | Some r =>
      if dbl_leb (rcp_swap_block_ratio policy) r && is_writer then defer RR_SWAP_PRESSURE
      else if dbl_leb (rcp_swap_warning_ratio policy) r && heavy_class resource_class then defer RR_SWAP_PRESSURE
      else pass
  | None => pass
  end.
(** 4. Disk. *)
Definition disk_low : res exc bool :=
  let root_low := match hs_root_free_bytes snapshot with
    | Some free => (free <? rcp_minimum_disk_free_bytes policy)%Z
                   || match hs_root_free_ratio snapshot with
                      | Some ratio => dbl_ltb ratio (rcp_minimum_disk_free_ratio policy)
                      | None => false
                      end
    | None => false
    end in
  temp_low ← match estimated_temp_bytes with
    | Some n =>
        x ← dbl_of_Z n; required_persistent ← dbl_trunc (dbl_mul x (rcp_large_temp_factor policy));
        Ok match hs_workspace_free_bytes snapshot with Some free => (free <? required_persistent)%Z | None => false end
    | None => Ok false
    end;
  Ok (root_low || temp_low).
Definition gate_disk : res exc (option AdmissionDecision) :=
  low ← disk_low; if low : bool then deny RR_DISK_LOW else pass.
(** 5. Large data on a tmpfs. *)
Definition tmp_violation : bool :=
  ostr_eqb (hs_tmp_fs_type snapshot) (Some "tmpfs") && existsb (fun p => _is_tmp_path_forbidden p policy) tmp_paths.
Definition gate_tmpfs : res exc (option AdmissionDecision) :=
  if tmp_violation then deny RR_TMPFS_POLICY_VIOLATION else pass.
(** 6. The host reserve, after the ceilings of the active jobs and of this one. *)
Definition reserve : res exc Z :=
  match hs_mem_total_bytes snapshot with
  | Some total => required_host_reserve total (rcp_minimum_host_reserve_bytes policy) (rcp_host_reserve_ram_ratio policy)
  | None => Err TypeError
  end.
Definition ceiling : Z := rl_memory_max_bytes (limits_for policy resource_class).
Definition active_reserved : Z := _active_reserved_bytes (hs_active_jobs snapshot) policy.
Definition gate_reserve (r : Z) : res exc (option AdmissionDecision) :=
  match hs_mem_available_bytes snapshot with
  | Some avail => if (avail - active_reserved - ceiling <? r)%Z then defer RR_INSUFFICIENT_MEMORY_RESERVE else pass
  | None => pass
  end.
(** 7. Load. *)
Definition gate_load : res exc (option AdmissionDecision) :=
  if heavy_class resource_class then
    match hs_load_5min snapshot, hs_cpu_count snapshot with
    | Some load, Some cpus =>
        if (0 <? cpus)%Z then
          c ← dbl_of_Z cpus;
          if dbl_ltb (dbl_mul c (rcp_load_multiplier_5min policy)) load then defer RR_LOAD_PRESSURE else pass
        else pass
    | _, _ => pass
    end
  else pass.
(** 8 and 9. *)
Definition grant (r : Z) : AdmissionDecision :=
  let limits := Some (_effective_limits self_policy resource_class snapshot r) in
  if prefer_external_ci then decision AV_PREFER_EXTERNAL RR_EXTERNAL_CI_PREFERRED None limits
  else decision AV_ALLOW RR_OK None limits.
Definition or_else (g : res exc (option AdmissionDecision)) (next : res exc AdmissionDecision) : res exc AdmissionDecision :=
  d ← g; match d with Some d => Ok d | None => next end.
Definition _decide : res exc AdmissionDecision :=
  or_else gate_evidence (or_else gate_concurrency (or_else gate_swap (or_else gate_disk (or_else gate_tmpfs
    (r ← reserve; or_else (gate_reserve r) (or_else gate_load (Ok (grant r)))))))).
End Verdict.

(** [resource_class] may be a member or its text. *)
Definition decide (self_policy : ResourcePolicy) (resource_class : pyval) (snapshot : HostResourceSnapshot)
    (policy : option ResourcePolicy) (now_iso : option string) (prefer_external_ci : bool)
    (estimated_temp_bytes : option Z) (tmp_paths : list pyval) : res exc AdmissionDecision :=
  match resource_class with
  | PStr c =>
      match of_value c with
      | Some rc => _decide self_policy (default self_policy policy) rc snapshot now_iso prefer_external_ci estimated_temp_bytes tmp_paths
      | None => Err ValueError
      end
  | _ => Err ValueError
  end.
End Decide.

(** ** What an admission means *)
Definition admitted (d : AdmissionDecision) : bool :=
  bool_decide (ad_decision d = AV_ALLOW \/ ad_decision d = AV_PREFER_EXTERNAL).

Section Spec.
Variables (wall : Z) (self_policy p : ResourcePolicy) (rc : ResourceClass) (h : HostResourceSnapshot).
Variables (now_iso : option string) (prefer : bool) (temp : option Z) (paths : list pyval).

(** Every fact the class needs was read. *)
Definition evidence_complete : Prop :=
  is_Some (hs_mem_total_bytes h) /\ is_Some (hs_mem_available_bytes h) /\
  is_Some (hs_swap_total_bytes h) /\ is_Some (hs_swap_free_bytes h) /\
  is_Some (hs_root_free_bytes h) /\ is_Some (hs_tmp_fs_type h) /\
  FIELD_ACTIVE_JOBS ∉ hs_unknown_fields h /\
  (rc <> RC_LIGHT -> is_Some (hs_load_5min h) /\ is_Some (hs_cpu_count h)).
(** The jobs of the classes of [l] among the active ones. *)
Definition in_classes (l : list ResourceClass) (item : list pyval) : bool :=
  match class_of item with Some c => in_list c l | None => false end.
Definition running (l : list ResourceClass) : Z := Z.of_nat (length (List.filter (in_classes l) (hs_active_jobs h))).
Definition room : Prop :=
  running [RC_EXCLUSIVE] = 0%Z /\
  match rc with
  | RC_LIGHT => (running [RC_LIGHT] < rcp_max_light p)%Z
  | RC_EXCLUSIVE => running [RC_LIGHT; RC_MEDIUM; RC_HEAVY; RC_EXCLUSIVE] = 0%Z /\ (0 < rcp_max_writers_global p)%Z
  | _ => (running [RC_MEDIUM; RC_HEAVY; RC_EXCLUSIVE] < rcp_max_writers_global p)%Z
  end.
(** The ratio of swap in use stays under both thresholds. *)
Definition swap_calm : Prop := rc <> RC_LIGHT -> forall total free r,
  hs_swap_total_bytes h = Some total -> hs_swap_free_bytes h = Some free -> (0 < total)%Z ->
  truediv (total - free) total = Ok r -> dbl_leb (rcp_swap_warning_ratio p) r = false /\ dbl_leb (rcp_swap_block_ratio p) r = false.
Definition disk_fits : Prop :=
  (forall free, hs_root_free_bytes h = Some free -> (rcp_minimum_disk_free_bytes p <= free)%Z /\
     forall ratio, hs_root_free_ratio h = Some ratio -> dbl_ltb ratio (rcp_minimum_disk_free_ratio p) = false) /\
  (forall n free x need, temp = Some n -> hs_workspace_free_bytes h = Some free ->
     dbl_of_Z n = Ok x -> dbl_trunc (dbl_mul x (rcp_large_temp_factor p)) = Ok need -> (need <= free)%Z).
Definition tmp_clean : Prop :=
  hs_tmp_fs_type h = Some "tmpfs" -> forall path, path ∈ paths -> _is_tmp_path_forbidden path p = false.
(** The available memory covers the ceilings of all active jobs, this one and the reserve. *)
Definition memory_fits : Prop := forall total avail r,
  hs_mem_total_bytes h = Some total -> hs_mem_available_bytes h = Some avail ->
  required_host_reserve total (rcp_minimum_host_reserve_bytes p) (rcp_host_reserve_ram_ratio p) = Ok r ->
  (_active_reserved_bytes (hs_active_jobs h) p + rl_memory_max_bytes (limits_for p rc) + r <= avail)%Z.
Definition load_fits : Prop := rc <> RC_LIGHT -> forall load cpus c,
  hs_load_5min h = Some load -> hs_cpu_count h = Some cpus -> (0 < cpus)%Z -> dbl_of_Z cpus = Ok c ->
  dbl_ltb (dbl_mul c (rcp_load_multiplier_5min p)) load = false.
Definition admissible : Prop :=
  evidence_complete /\ room /\ swap_calm /\ disk_fits /\ tmp_clean /\ memory_fits /\ load_fits.

#[local] Notation the_decision := (_decide wall self_policy p rc h now_iso prefer temp paths).

(** A gate that refuses when its condition fails. *)
Definition gates (g : res exc (option AdmissionDecision)) (P : Prop) : Prop :=
  forall o, g = Ok o -> match o with Some d => ~ P /\ admitted d = false | None => P end.
Lemma or_else_gate g next P d : gates g P -> or_else g next = Ok d ->
  (~ P /\ admitted d = false) \/ (P /\ next = Ok d).
Proof.
  intros G. unfold or_else. destruct g as [[d'|]|e] eqn:E; cbn; [|by right; split; [apply (G None)|]|done].
  intros [= <-]. left. exact (G _ eq_refl).
Qed.
Lemma gates_defer reason (P : Prop) : ~ P -> gates (defer wall p rc h now_iso reason) P.
Proof. intros N o. unfold defer. destruct (_add_seconds_iso _ _ _); [|done]. by intros [= <-]. Qed.
Lemma gates_deny reason (P : Prop) : ~ P -> gates (deny wall p rc h now_iso reason) P.
Proof. intros N o [= <-]. done. Qed.
Lemma gates_pass (P : Prop) : P -> gates pass P.
Proof. intros H o [= <-]. done. Qed.
Lemma gates_if (b : bool) x y (P : Prop) : (b = true -> gates x P) -> (b = false -> gates y P) -> gates (if b then x else y) P.
Proof. destruct b; eauto. Qed.
Lemma heavy_not_light : heavy_class rc = true <-> rc <> RC_LIGHT.
Proof. by destruct rc. Qed.
Lemma writer_not_light : is_writer rc = true <-> rc <> RC_LIGHT.
Proof. by destruct rc. Qed.
Lemma count_running c : count c (hs_active_jobs h) = running [c].
Proof.
  unfold count, running. do 2 f_equal. apply List.filter_ext. intros item. unfold is_class, in_classes.
  destruct (class_of item) as [c'|]; [|done]. by destruct c, c'.
Qed.
Lemma running_cons c l : c ∉ l -> running (c :: l) = (running [c] + running l)%Z.
Proof.
  intros N. unfold running. rewrite <- Nat2Z.inj_add. f_equal. induction (hs_active_jobs h) as [|item js IH]; [done|]. cbn [List.filter].
  assert (E : in_classes (c :: l) item = in_classes [c] item || in_classes l item).
  { unfold in_classes. destruct (class_of item) as [c'|]; [|done]. unfold in_list; cbn. by rewrite orb_false_r. }
  assert (D : in_classes [c] item && in_classes l item = false).
  { unfold in_classes. destruct (class_of item) as [c'|]; [|done]. cbn. rewrite orb_false_r.
    destruct (bool_decide_reflect (c' = c)) as [->|]; [|done]. apply in_list_false. by rewrite <- list_elem_of_In. }
  rewrite E. destruct (in_classes [c] item), (in_classes l item); cbn in D |- *; try discriminate D; rewrite ?IH; cbn; lia.
Qed.

Lemma missing_nil : _missing_critical h rc = [] <-> evidence_complete.
Proof.
  unfold _missing_critical, evidence_complete, missing_if.
  destruct (hs_mem_total_bytes h), (hs_mem_available_bytes h), (hs_swap_total_bytes h), (hs_swap_free_bytes h),
    (hs_root_free_bytes h), (hs_tmp_fs_type h); cbn;
    try (split; [discriminate | intros (A & B & C & D & E & F & _);
      first [by destruct A | by destruct B | by destruct C | by destruct D | by destruct E | by destruct F]]).
  assert (U : str_in FIELD_ACTIVE_JOBS (hs_unknown_fields h) = true <-> FIELD_ACTIVE_JOBS ∈ hs_unknown_fields h)
    by (rewrite str_in_In, list_elem_of_In; done).
  destruct (str_in _ _); cbn.
  { split; [discriminate|]. intros (_ & _ & _ & _ & _ & _ & N & _). by destruct N; apply U. }
  assert (N : FIELD_ACTIVE_JOBS ∉ hs_unknown_fields h) by (intros I; apply U in I; discriminate I).
  destruct rc; cbn; [by split|..]; destruct (hs_load_5min h), (hs_cpu_count h); cbn;
    (split; [first [discriminate | by intros _; repeat (split; [done|])] |
             intros (_ & _ & _ & _ & _ & _ & _ & L); by destruct L as [A B]; [|first [destruct A | destruct B]] ]).
Qed.
Lemma gate_evidence_ok : gates (gate_evidence wall p rc h now_iso) evidence_complete.
Proof.
  unfold gate_evidence. destruct (_missing_critical h rc) eqn:E.
  - apply gates_pass. by apply missing_nil.
  - assert (~ evidence_complete) by (rewrite <- missing_nil, E; discriminate).
    destruct (heavy_class rc); [by apply gates_deny | by apply gates_defer].
Qed.
Lemma crowded_room : crowded p rc (fun c => count c (hs_active_jobs h)) = false <-> room.
Proof.
  unfold crowded, room. rewrite !count_running.
  rewrite (running_cons RC_LIGHT [RC_MEDIUM; RC_HEAVY; RC_EXCLUSIVE]), (running_cons RC_MEDIUM [RC_HEAVY; RC_EXCLUSIVE]),
    (running_cons RC_HEAVY [RC_EXCLUSIVE]) by (rewrite list_elem_of_In; cbn; intuition discriminate).
  assert (P : forall c, (0 <= running [c])%Z) by (intros c; unfold running; lia).
  pose proof (P RC_LIGHT). pose proof (P RC_MEDIUM). pose proof (P RC_HEAVY). pose proof (P RC_EXCLUSIVE). clear P.
  rewrite !orb_false_iff, !andb_false_iff. destruct rc; cbn; rewrite ?Z.ltb_ge, ?Z.leb_gt; intuition (try discriminate; lia).
Qed.
Lemma gate_concurrency_ok : gates (gate_concurrency wall p rc h now_iso) room.
Proof.
  intros o. unfold gate_concurrency, _active_counts. destruct (existsb _ _); [done|]. cbn.
  apply gates_if; intros C.
  - apply gates_defer. rewrite <- crowded_room, C. discriminate.
  - apply gates_pass. by apply crowded_room.
Qed.

Lemma gate_swap_ok : evidence_complete -> gates (gate_swap wall p rc h now_iso) swap_calm.
Proof.
  intros (_ & _ & [total T] & [free F] & _) o. unfold gate_swap, swap_ratio. rewrite T, F. cbn [default].
  assert (W : is_writer rc = heavy_class rc) by by destruct rc. rewrite W. clear W.
  pose proof heavy_not_light as HN. revert HN. generalize (heavy_class rc) as heavy. intros heavy HN.
  destruct (0 <? total)%Z eqn:Z0; cbn.
  - destruct (truediv (total - free) total) as [r|e] eqn:R; [|done]. cbn.
    assert (X : heavy = true -> dbl_leb (rcp_swap_block_ratio p) r = true \/ dbl_leb (rcp_swap_warning_ratio p) r = true -> ~ swap_calm).
    { intros HV D C. destruct (C (proj1 HN HV) total free r T F ltac:(lia) R). destruct D; congruence. }
    apply gates_if; intros B.
    { apply andb_true_iff in B as [B HV]. apply gates_defer; eauto. }
    apply gates_if; intros B'.
    { apply andb_true_iff in B' as [B' HV]. apply gates_defer; eauto. }
    apply gates_pass. intros NL t f r' T' F' _ R'. rewrite T in T'; rewrite F in F'. injection T' as <-. injection F' as <-.
    rewrite R in R'. injection R' as <-. apply HN in NL. rewrite NL, ?andb_true_r in *. done.
  - apply gates_pass. intros _ t f r T' _ P. rewrite T in T'. injection T' as <-. lia.
Qed.
Lemma disk_low_fits b : evidence_complete -> disk_low p h temp = Ok b -> b = false <-> disk_fits.
Proof.
  intros (_ & _ & _ & _ & [free F] & _). unfold disk_low, disk_fits. rewrite F.
  destruct temp as [n|]; cbn.
  - destruct (dbl_of_Z n) as [x|e] eqn:X; [|done]. cbn. destruct (dbl_trunc _) as [need|e] eqn:N; [|done]. cbn. intros [= <-].
    rewrite !orb_false_iff. split.
    + intros [[A B] C]. split; [intros ? [= <-]; split; [lia|]; intros r R; by rewrite R in B|].
      intros ? f ? ? [= <-] W X' N'. rewrite X in X'. injection X' as <-. rewrite W in C. rewrite N in N'. injection N' as <-. lia.
    + intros [A B]. destruct (A _ eq_refl) as [A1 A2]. split; [split; [lia|]|].
      * destruct (hs_root_free_ratio h); auto.
      * destruct (hs_workspace_free_bytes h) as [f|]; [|done]. pose proof (B _ _ _ _ eq_refl eq_refl X N). lia.
  - intros [= <-]. rewrite orb_false_r, orb_false_iff. split.
    + intros [A B]. split; [|done]. intros ? [= <-]. split; [lia|]. intros r R. by rewrite R in B.
    + intros [A _]. destruct (A _ eq_refl) as [A1 A2]. split; [lia|]. destruct (hs_root_free_ratio h); auto.
Qed.
Lemma gate_disk_ok : evidence_complete -> gates (gate_disk wall p rc h now_iso temp) disk_fits.
Proof.
  intros EC o. unfold gate_disk. destruct (disk_low p h temp) as [b|e] eqn:D; [|done]. cbn. pose proof (disk_low_fits b EC D) as I.
  destruct b; [apply gates_deny | apply gates_pass; by apply I]. rewrite <- I. discriminate.
Qed.
Lemma gate_tmpfs_ok : gates (gate_tmpfs wall p rc h now_iso paths) tmp_clean.
Proof.
  unfold gate_tmpfs, tmp_violation. apply gates_if; intros B.
  - apply andb_true_iff in B as [T E]. apply ostr_eqb_eq in T. apply existsb_exists in E as (x & I & X).
    apply gates_deny. intros C. rewrite (C T x) in X by (by apply list_elem_of_In). discriminate X.
  - apply gates_pass. intros T x I. apply ostr_eqb_eq in T. rewrite T in B. apply list_elem_of_In in I.
    apply not_true_is_false. intros X. assert (E : existsb (fun p0 => _is_tmp_path_forbidden p0 p) paths = true)
      by (apply existsb_exists; eauto). by rewrite E in B.
Qed.
Lemma gate_reserve_ok r : evidence_complete -> reserve p h = Ok r -> gates (gate_reserve wall p rc h now_iso r) memory_fits.
Proof.
  intros ([total T] & [avail A] & _). unfold reserve. rewrite T. intros R. unfold gate_reserve. rewrite A.
  unfold active_reserved, ceiling. apply gates_if; intros B.
  - apply gates_defer. intros F. pose proof (F total avail r T A R). lia.
  - apply gates_pass. intros t a r' T' A' R'. rewrite T in T'; rewrite A in A'. injection T' as <-. injection A' as <-.
    rewrite R in R'. injection R' as <-. lia.
Qed.
Lemma gate_load_ok : evidence_complete -> gates (gate_load wall p rc h now_iso) load_fits.
Proof.
  intros (_ & _ & _ & _ & _ & _ & _ & L). unfold gate_load. apply gates_if; intros HV.
  - destruct (L (proj1 heavy_not_light HV)) as [[load X] [cpus C]]. rewrite X, C. apply gates_if; intros P.
    + destruct (dbl_of_Z cpus) as [c|e] eqn:D; [|by intros o]. cbn. apply gates_if; intros B.
      * apply gates_defer. intros F. by rewrite (F (proj1 heavy_not_light HV) load cpus c X C) in B by (lia || done).
      * apply gates_pass. intros _ l cp c' X' C' _ D'. rewrite X in X'; rewrite C in C'. injection X' as <-. injection C' as <-.
        rewrite D in D'. by injection D' as <-.
    + apply gates_pass. intros _ l cp c' _ C' P'. rewrite C in C'. injection C' as <-. lia.
  - apply gates_pass. intros NL. apply heavy_not_light in NL. congruence.
Qed.

Lemma admission_cases d : the_decision = Ok d -> admitted d = true <-> admissible.
Proof.
  unfold _decide, admissible. intros H.
  destruct (or_else_gate _ _ _ _ gate_evidence_ok H) as [[N R]|[EC H1]]; [rewrite R; split; [discriminate|intuition]|].
  destruct (or_else_gate _ _ _ _ gate_concurrency_ok H1) as [[N R]|[RM H2]]; [rewrite R; split; [discriminate|intuition]|].
  destruct (or_else_gate _ _ _ _ (gate_swap_ok EC) H2) as [[N R]|[SW H3]]; [rewrite R; split; [discriminate|intuition]|].
  destruct (or_else_gate _ _ _ _ (gate_disk_ok EC) H3) as [[N R]|[DF H4]]; [rewrite R; split; [discriminate|intuition]|].
  destruct (or_else_gate _ _ _ _ gate_tmpfs_ok H4) as [[N R]|[TC H5]]; [rewrite R; split; [discriminate|intuition]|].
  destruct (reserve p h) as [r|e] eqn:RE; [|done]. cbn in H5.
  destruct (or_else_gate _ _ _ _ (gate_reserve_ok r EC RE) H5) as [[N R]|[MF H6]]; [rewrite R; split; [discriminate|intuition]|].
  destruct (or_else_gate _ _ _ _ (gate_load_ok EC) H6) as [[N R]|[LF H7]]; [rewrite R; split; [discriminate|intuition]|].
  injection H7 as <-. split; [done|]. intros _. unfold grant. by destruct prefer.
Qed.
End Spec.

(** ** The jobs of a host *)
Definition row_item (j : string * ResourceClass) : list pyval := [PStr (fst j); PStr (value (snd j))].
(** The snapshot sees the running jobs, as the reader of the store lists them. *)
Definition seen (jobs : list (string * ResourceClass)) (h : HostResourceSnapshot) : HostResourceSnapshot :=
  h <| hs_active_jobs := map row_item jobs |>.
Inductive host_ev : Type :=
| Start (job_id : string) (rc : ResourceClass) (h : HostResourceSnapshot) (now : Z) (prefer : bool) (temp : option Z) (paths : list pyval)
| Finish (job_id : string).
Definition admits (r : res exc AdmissionDecision) : bool := match r with Ok d => admitted d | Err _ => false end.
Definition host_step (p : ResourcePolicy) (jobs : list (string * ResourceClass)) (e : host_ev) : list (string * ResourceClass) :=
  match e with
  | Start id rc h now prefer temp paths =>
      if admits (_decide now p p rc (seen jobs h) (Some (iso_utc now)) prefer temp paths)
      then (jobs ++ [(id, rc)])%list else jobs
  | Finish id => List.filter (fun j => negb (String.eqb (fst j) id)) jobs
  end.
Definition host_run (p : ResourcePolicy) (evs : list host_ev) : list (string * ResourceClass) := fold_left (host_step p) evs [].
Definition of_classes (l : list ResourceClass) (jobs : list (string * ResourceClass)) : nat :=
  length (List.filter (fun j => in_list (snd j) l) jobs).
Definition writers : list ResourceClass := [RC_MEDIUM; RC_HEAVY; RC_EXCLUSIVE].
Definition mix_ok (p : ResourcePolicy) (jobs : list (string * ResourceClass)) : Prop :=
  (Z.of_nat (of_classes writers jobs) <= Z.max 0 (rcp_max_writers_global p))%Z /\
  (Z.of_nat (of_classes [RC_LIGHT] jobs) <= Z.max 0 (rcp_max_light p))%Z /\
  (of_classes [RC_EXCLUSIVE] jobs = 0 \/ length jobs = 1).

Lemma in_classes_row l j : in_classes l (row_item j) = in_list (snd j) l.
Proof. unfold in_classes, class_of, row_item. cbn [nth_error]. by rewrite of_value_value. Qed.
Lemma running_seen jobs h l : running (seen jobs h) l = Z.of_nat (of_classes l jobs).
Proof.
  unfold running, of_classes, seen. cbn. f_equal. induction jobs as [|j jobs IH]; [done|]. cbn [map List.filter].
  rewrite in_classes_row. destruct (in_list (snd j) l); cbn [length]; by rewrite IH.
Qed.
Lemma of_classes_snoc l jobs id rc : of_classes l (jobs ++ [(id, rc)]) = of_classes l jobs + (if in_list rc l then 1 else 0).
Proof. unfold of_classes. rewrite List.filter_app, length_app. cbn. by destruct (in_list rc l). Qed.
Lemma filter_filter_le {A} (f g : A -> bool) l : length (List.filter f (List.filter g l)) <= length (List.filter f l).
Proof. induction l as [|x l IH]; [done|]. cbn. destruct (g x); cbn; destruct (f x); cbn; lia. Qed.
Lemma of_classes_all jobs : of_classes [RC_LIGHT; RC_MEDIUM; RC_HEAVY; RC_EXCLUSIVE] jobs = length jobs.
Proof. unfold of_classes. induction jobs as [|[id c] jobs IH]; [done|]. cbn [List.filter snd].
  assert (E : in_list c [RC_LIGHT; RC_MEDIUM; RC_HEAVY; RC_EXCLUSIVE] = true) by by destruct c. rewrite E. cbn [length]. by rewrite IH.
Qed.
Lemma host_step_mix p jobs e : mix_ok p jobs -> mix_ok p (host_step p jobs e).
Proof.
  destruct e as [id rc h now prefer temp paths|id]; cbn [host_step].
  - intros (W & L & X). destruct (_decide _ _ _ _ _ _ _ _ _) as [d|ex] eqn:D; [|done]. cbn [admits].
    destruct (admitted d) eqn:A; [|done]. apply (admission_cases _ _ _ _ _ _ _ _ _ _ D) in A as (_ & (NE & R) & _).
    rewrite !running_seen in NE. unfold mix_ok. rewrite !of_classes_snoc, length_app.
    unfold writers in *. destruct rc; cbn [app] in *;
      repeat match goal with |- context [in_list ?c ?l] => let b := eval vm_compute in (in_list c l) in change (in_list c l) with b end;
      cbn [length]; rewrite ?running_seen in R; [lia..|].
    destruct R as [R M]. rewrite of_classes_all in R. assert (jobs = []) as -> by (destruct jobs; [done | cbn in R; lia]). cbn. lia.
  - intros (W & L & X). unfold mix_ok, of_classes in *.
    pose proof (filter_filter_le (fun j : string * ResourceClass => in_list (snd j) writers) (fun j => negb (String.eqb (fst j) id)) jobs).
    pose proof (filter_filter_le (fun j : string * ResourceClass => in_list (snd j) [RC_LIGHT]) (fun j => negb (String.eqb (fst j) id)) jobs).
    pose proof (filter_filter_le (fun j : string * ResourceClass => in_list (snd j) [RC_EXCLUSIVE]) (fun j => negb (String.eqb (fst j) id)) jobs).
    pose proof (List.filter_length_le (fun j : string * ResourceClass => negb (String.eqb (fst j) id)) jobs).
    pose proof (List.filter_length_le (fun j : string * ResourceClass => in_list (snd j) [RC_EXCLUSIVE]) (List.filter (fun j : string * ResourceClass => negb (String.eqb (fst j) id)) jobs)).
    lia.
Qed.


Definition roomy : HostResourceSnapshot := mkHostResourceSnapshot "" (Some (gib 16 1)) (Some (gib 12 1)) (Some (gib 4 1)) (Some (gib 3 1))
  (Some (gib 100 1)) (Some (lit 1 2)) None None (Some "ext4") None (Some (lit 1 2)) (Some (lit 1 2)) (Some (lit 1 2)) (Some 8%Z)
  [[PStr "supervisor:t0"; PStr "LIGHT"]] None None [] "ref".
