(* ===== verification/Canonical.v ===== *)
(** * Sha256: [hashlib.sha256(...).hexdigest()] (FIPS 180-4)

    The digest the core binds owner gates and replayed commands with.  Words
    are [N] values below [2^32]; a message is the byte list of a string.  The
    tests at the end are the published vectors. *)
From S2P Require Import Prelude PyVal Json Models.
#[local] Open Scope N_scope.

Definition wadd (a b : N) : N := (a + b) mod 4294967296.
Definition wnot (a : N) : N := N.lxor a 4294967295.
Definition shr (n a : N) : N := N.shiftr a n.
Definition rotr (n a : N) : N :=
  N.lor (N.shiftr a n) (N.shiftl a (32 - n) mod 4294967296).

Definition Ch (x y z : N) : N := N.lxor (N.land x y) (N.land (wnot x) z).
Definition Maj (x y z : N) : N := N.lxor (N.lxor (N.land x y) (N.land x z)) (N.land y z).
Definition bsig0 (x : N) : N := N.lxor (N.lxor (rotr 2 x) (rotr 13 x)) (rotr 22 x).
Definition bsig1 (x : N) : N := N.lxor (N.lxor (rotr 6 x) (rotr 11 x)) (rotr 25 x).
Definition ssig0 (x : N) : N := N.lxor (N.lxor (rotr 7 x) (rotr 18 x)) (shr 3 x).
Definition ssig1 (x : N) : N := N.lxor (N.lxor (rotr 17 x) (rotr 19 x)) (shr 10 x).

(** The constants are the first 32 fractional bits of the cube roots of the
    first 64 primes (rounds) and of the square roots of the first 8 (state). *)
Fixpoint cbrt_bits (bits : nat) (n acc : N) : N :=
  match bits with
  | O => acc
  | S k => let x := acc + N.shiftl 1 (N.of_nat k) in
           cbrt_bits k n (if x * x * x <=? n then x else acc)
  end.
Definition cbrt_word (p : N) : N := cbrt_bits 36 (N.shiftl p 96) 0 mod 4294967296.
Definition sqrt_word (p : N) : N := N.sqrt (N.shiftl p 64) mod 4294967296.

Fixpoint primes_from (count fuel : nat) (found : list N) (n : N) : list N :=
  match fuel with
  | O => found
  | S k =>
      if Nat.eqb (List.length found) count then found
      else primes_from count k
             (if existsb (fun p => n mod p =? 0) found then found else found ++ [n]) (n + 1)
  end.
Definition first_primes (count : nat) : list N := primes_from count 320 [] 2.

Definition round_constants : list N := Eval vm_compute in map cbrt_word (first_primes 64).
Definition initial_state : list N := Eval vm_compute in map sqrt_word (first_primes 8).

(** The message schedule: 16 block words, then 48 derived ones.  [w] holds the
    last 16 words, oldest first. *)
Fixpoint schedule (n : nat) (w : list N) : list N :=
  match n with
  | O => w
  | S k =>
      match w with
      | w0 :: rest =>
          let nw := wadd (wadd (ssig1 (nth 14 w 0)) (nth 9 w 0)) (wadd (ssig0 (nth 1 w 0)) w0) in
          w0 :: schedule k (rest ++ [nw])
      | [] => []
      end
  end.

Definition round (s : list N) (kw : N * N) : list N :=
  match s with
  | [a; b; c; d; e; f; g; h] =>
      let t1 := wadd (wadd (wadd h (bsig1 e)) (wadd (Ch e f g) (fst kw))) (snd kw) in
      let t2 := wadd (bsig0 a) (Maj a b c) in
      [wadd t1 t2; a; b; c; wadd d t1; e; f; g]
  | _ => s
  end.

Definition compress (s block : list N) : list N :=
  map (fun p => wadd (fst p) (snd p))
      (combine s (fold_left round (combine round_constants (schedule 48 block)) s)).

(** Padding to a multiple of 64 bytes, and the split in big-endian words. *)
Definition be_bytes (count : nat) (n : N) : list N :=
  map (fun i => N.shiftr n (8 * N.of_nat i) mod 256) (rev (seq 0 count)).
Definition pad (msg : list N) : list N :=
  let l := N.of_nat (List.length msg) in
  msg ++ [128] ++ repeat 0 (N.to_nat ((119 - l mod 64) mod 64)) ++ be_bytes 8 (8 * l).

Fixpoint words (l : list N) : list N :=
  match l with
  | a :: b :: c :: d :: rest => (a * 16777216 + b * 65536 + c * 256 + d) :: words rest
  | _ => []
  end.
Fixpoint blocks (n : nat) (w : list N) : list (list N) :=
  match n with
  | O => []
  | S k => firstn 16 w :: blocks k (skipn 16 w)
  end.

Definition hex_char (n : N) : ascii := ascii_of_N (if n <? 10 then 48 + n else 87 + n).
Fixpoint hex_bytes (l : list N) : string :=
  match l with
  | [] => EmptyString
  | b :: l' => String (hex_char (b / 16)) (String (hex_char (b mod 16)) (hex_bytes l'))
  end.

Definition sha256 (msg : string) : string :=
  let w := words (pad (map N_of_ascii (list_ascii_of_string msg))) in
  let digest := fold_left compress (blocks (List.length w / 16) w) initial_state in
  hex_bytes (flat_map (be_bytes 4) digest).

(** Published test vectors. *)
Example sha256_abc :
  sha256 "abc" = "ba7816bf8f01cfea414140de5dae2223b00361a396177a9cb410ff61f20015ad"%string.
Proof. by vm_compute. Qed.
Example sha256_two_blocks :
  sha256 "abcdbcdecdefdefgefghfghighijhijkijkljklmklmnlmnomnopnopq" =
  "248d6a61d20638b8e5c026930c3e6039a33ce45964ff2167f6ecedd419db06c1"%string.
Proof. by vm_compute. Qed.
Example sha256_empty :
  sha256 EmptyString = "e3b0c44298fc1c149afbf4c8996fb92427ae41e4649b934ca495991b7852b855"%string.
Proof. by vm_compute. Qed.

(** ** Canonical: bytes under the hashes
    (src/argent_core/test_planning.py, [canonical_bytes]; the standard library's
    [str.encode] and [hmac]).

    A string is a sequence of characters U+0000..U+00FF; its UTF-8 encoding is the
    sequence of its bytes. *)
#[local] Close Scope N_scope.
#[local] Open Scope string_scope.
(** [s.encode("utf-8")]. *)
Fixpoint utf8 (s : string) : string :=
  match s with
  | EmptyString => EmptyString
  | String c s =>
      let n := N_of_ascii c in
      if (n <? 128)%N then String c (utf8 s)
      else String (ascii_of_N (192 + n / 64)) (String (ascii_of_N (128 + n mod 64)) (utf8 s))
  end.

(** [json.dumps(obj, sort_keys=True, separators=(",", ":"), ensure_ascii=False)]. *)
Definition raw_char (c : ascii) : string :=
  if (127 <=? N_of_ascii c)%N then String c EmptyString else esc_char c.
Fixpoint raw_esc (s : string) : string :=
  match s with
  | EmptyString => EmptyString
  | String c s' => raw_char c ++ raw_esc s'
  end.
Definition raw_quote (s : string) : string := DQ ++ raw_esc s ++ DQ.
Definition raw_key (k : pykey) : string :=
  match k with KStr s => raw_quote s | KInt z => DQ ++ z_text z ++ DQ end.
Definition raw_item (kt : pykey * string) : string := raw_key (fst kt) ++ ":" ++ snd kt.
Fixpoint compact (v : pyval) : string :=
  match v with
  | PNone => "null"
  | PBool b => if b then "true" else "false"
  | PInt z => z_text z
  | PFloat f => float_text f
  | PStr s => raw_quote s
  | PList l => "[" ++ join "," (map compact l) ++ "]"
  | PTuple l => "[" ++ join "," (map compact l) ++ "]"
  | PDict d =>
      "{" ++ join "," (map raw_item (sort_items (map (fun kv => (fst kv, compact (snd kv))) d))) ++ "}"
  | PObj text => raw_quote text
  end.
Definition canonical_bytes (obj : pyval) : res exc string :=
  if serializable obj then Ok (utf8 (compact obj)) else Err TypeError.
Definition sha256_hex (data : string) : string := sha256 data.

(** ** HMAC-SHA256 *)
(** [hmac.compare_digest] of two strings: [TypeError] outside ASCII. *)
Definition ascii_only (s : string) : bool :=
  forallb (fun c => (N_of_ascii c <? 128)%N) (list_ascii_of_string s).
Definition compare_digest (a b : string) : res exc bool :=
  if ascii_only a && ascii_only b then Ok (String.eqb a b) else Err TypeError.
Definition digest (msg : list N) : list N :=
  let w := words (pad msg) in
  flat_map (be_bytes 4) (fold_left compress (blocks (List.length w / 16) w) initial_state).
Definition bytes_of (s : string) : list N := map N_of_ascii (list_ascii_of_string s).
Definition hmac_key (key : list N) : list N :=
  let k := if Nat.ltb 64 (List.length key) then digest key else key in
  (k ++ repeat 0%N (64 - List.length k))%list.
Definition hmac_sha256 (key msg : string) : string :=
  let k := hmac_key (bytes_of key) in
  hex_bytes (digest (map (N.lxor 92) k ++ digest (map (N.lxor 54) k ++ bytes_of msg))).

(** RFC 4231, test cases 2 and 6. *)
Example hmac_jefe : hmac_sha256 "Jefe" "what do ya want for nothing?" =
  "5bdcc146bf60754e6a042426089575c75a003f089d2739839dec58b964ec3843".
Proof. vm_compute. reflexivity. Qed.
Example hmac_large_key :
  hmac_sha256 (string_of_list_ascii (repeat (ascii_of_N 170) 131)) "Test Using Larger Than Block-Size Key - Hash Key First" =
  "60e431591ee0b67f0d8a26aacbf5b77f8e0bc6213728c5140546040f0ee37f54".
Proof. vm_compute. reflexivity. Qed.
