(* ===== verification/Gates.v ===== *)
(** * Gates: action classification and the owner-gate binding hash
    (src/argent_core/gates.py). *)
From S2P Require Import Prelude PyVal Models Json Canonical Trust.
#[local] Open Scope string_scope.

Definition AUTONOMOUS_ACTIONS : list string :=
  ["analyze"; "implement"; "run_tests"; "review"; "rework"; "create_local_artifact";
   "git_local_commit"; "create_handoff"].
Definition OWNER_APPROVAL_ACTIONS : list string :=
  ["deploy_production"; "change_secrets"; "expose_gateway"; "modify_allowlist";
   "promote_stable"; "modify_policy"; "external_send"; "install_software";
   "raise_privileges"; "enable_self_improvement"; "production_write"].
Definition FORBIDDEN_ACTIONS : list string :=
  ["bypass_owner_approval"; "forge_owner_approval"; "treat_untrusted_as_owner_approval";
   "disclose_secrets"; "disable_security_boundary"; "exfiltrate_data"].
Definition EXTERNAL_ACTIONS : list string :=
  ["install_software"; "download_dependency"; "system_install"; "network_fetch";
   "external_send"; "deploy_production"; "change_secrets"; "expose_gateway";
   "modify_allowlist"; "promote_stable"; "modify_policy"; "raise_privileges";
   "enable_self_improvement"; "production_write"].

Definition ACTION_PERMISSIONS : list (string * (ArtifactCategory * Permission)) :=
  [("analyze", (OTHER, WRITE));
   ("implement", (PRODUCT_CODE, WRITE));
   ("run_tests", (TEST_CODE, WRITE));
   ("review", (PRODUCT_CODE, READ));
   ("rework", (PRODUCT_CODE, WRITE));
   ("create_local_artifact", (OTHER, WRITE));
   ("git_local_commit", (PRODUCT_CODE, WRITE));
   ("create_handoff", (OTHER, WRITE))].

(** The canonical document that is hashed: the JSON array of the version tag
    and the three bound strings. *)
Definition gate_document (task_id action scope : string) : pyval :=
  PList [PStr "argent-gate-v1"; PStr task_id; PStr action; PStr scope].
Definition binding_hash (task_id action scope : string) : string :=
  sha256 (enc (gate_document task_id action scope)).

Definition classify_action (action : string) (external_actions_policy : ExternalActionsPolicy)
  : ActionClass :=
  if bool_decide (external_actions_policy = POLICY_FORBIDDEN) && str_in action EXTERNAL_ACTIONS
  then AC_FORBIDDEN
  else if str_in action AUTONOMOUS_ACTIONS then AUTONOMOUS
  else if str_in action OWNER_APPROVAL_ACTIONS then AC_OWNER_APPROVAL_REQUIRED
  else if str_in action EXTERNAL_ACTIONS then AC_OWNER_APPROVAL_REQUIRED
  else AC_FORBIDDEN.

(** [ACTION_PERMISSIONS[action]]: [KeyError] when the action is not listed. *)
Definition permission_for (action : string) : res exc (ArtifactCategory * Permission) :=
  match find (fun p => String.eqb action (fst p)) ACTION_PERMISSIONS with
  | Some p => Ok (snd p)
  | None => Err KeyError
  end.

(** ** Lemmas *)
Lemma gate_document_text t a s :
  enc (gate_document t a s) =
  "[" ++ quote "argent-gate-v1" ++ ", " ++ quote t ++ ", " ++ quote a ++ ", " ++ quote s ++ "]".
Proof. unfold gate_document. cbn [enc map join]. by rewrite !string_app_assoc. Qed.

Lemma gate_document_inj t a s t' a' s' :
  enc (gate_document t a s) = enc (gate_document t' a' s') -> t = t' /\ a = a' /\ s = s'.
Proof.
  rewrite !gate_document_text. intros E. apply string_app_inj in E.
  apply quote_app_inj in E as [_ E]. apply string_app_inj in E.
  apply quote_app_inj in E as [-> E]. apply string_app_inj in E.
  apply quote_app_inj in E as [-> E]. apply string_app_inj in E.
  by apply quote_app_inj in E as [-> _].
Qed.

Lemma classify_autonomous a pol :
  classify_action a pol = AUTONOMOUS <-> In a AUTONOMOUS_ACTIONS.
Proof.
  unfold classify_action. rewrite <- str_in_In. split.
  - case_tests; congruence.
  - intros H. rewrite H. destruct (bool_decide _); [|done].
    apply str_in_In in H. cbn in H.
    repeat destruct H as [<-|H]; try done.
Qed.

Lemma classify_gated a pol :
  classify_action a pol = AC_OWNER_APPROVAL_REQUIRED ->
  In a EXTERNAL_ACTIONS /\ pol = ALLOWED_WITH_GATE.
Proof.
  unfold classify_action.
  destruct (str_in a EXTERNAL_ACTIONS) eqn:X.
  - apply str_in_In in X. destruct pol; simpl_tests; [done|]. discriminate.
  - rewrite andb_false_r. case_tests; try discriminate. intros _. exfalso.
    match goal with H : str_in a OWNER_APPROVAL_ACTIONS = true |- _ => apply str_in_In in H; cbn in H;
      repeat destruct H as [<-|H]; try done end.
Qed.

(** Classification fails closed: the owner-gated actions are exactly the
    closed set of external actions, and only under the policy that allows a
    gate; under the FORBIDDEN policy none of them is approvable; the forbidden
    list and every unlisted name is FORBIDDEN under both policies; and an
    action is autonomous iff it is listed, whatever the policy. *)
Theorem classification_fail_closed action pol :
  (classify_action action pol = AC_OWNER_APPROVAL_REQUIRED <->
   In action EXTERNAL_ACTIONS /\ pol = ALLOWED_WITH_GATE) /\
  (classify_action action pol = AUTONOMOUS <-> In action AUTONOMOUS_ACTIONS) /\
  (In action FORBIDDEN_ACTIONS -> classify_action action pol = AC_FORBIDDEN) /\
  (In action EXTERNAL_ACTIONS -> classify_action action POLICY_FORBIDDEN = AC_FORBIDDEN).
Proof.
  split_and!.
  - split; [apply classify_gated|]. intros [H ->]. cbn in H.
    repeat destruct H as [<-|H]; try done.
  - apply classify_autonomous.
  - intros H. cbn in H. destruct pol; repeat destruct H as [<-|H]; try done.
  - intros H. cbn in H. repeat destruct H as [<-|H]; try done.
Qed.

(** The permission lookup is total on what is classified autonomous: the
    required permission exists exactly for the autonomous actions, every other
    name raises [KeyError], and an action that modifies product code is
    permitted to the implementer alone. *)
Theorem autonomous_has_permission action pol :
  (classify_action action pol = AUTONOMOUS <->
   exists p, permission_for action = Ok p) /\
  (forall mode, permission_for action = Ok (PRODUCT_CODE, mode) -> mode = WRITE ->
   forall role, check_permission role PRODUCT_CODE mode = Ok tt -> role = IMPLEMENTER).
Proof.
  split.
  - rewrite classify_autonomous. split.
    + intros H. cbn in H. repeat destruct H as [<-|H]; try done; eexists; reflexivity.
    + intros [p H]. unfold permission_for in H. destruct (find _ _) as [q|] eqn:F; [|done].
      apply find_some in F as [I E]. apply String.eqb_eq in E as ->.
      unfold ACTION_PERMISSIONS in I. cbn in I. unfold AUTONOMOUS_ACTIONS.
      repeat destruct I as [<-|I]; cbn; tauto.
  - intros mode _ -> [] H; vm_compute in H; congruence.
Qed.

(** A gate binding cannot be substituted silently: two owner gates with
    the same binding hash are for the same task, action and scope, or they
    exhibit a SHA-256 collision between two distinct canonical documents. *)
Theorem binding_hash_binds t a s t' a' s' :
  binding_hash t a s = binding_hash t' a' s' ->
  (t = t' /\ a = a' /\ s = s') \/
  (enc (gate_document t a s) <> enc (gate_document t' a' s') /\
   sha256 (enc (gate_document t a s)) = sha256 (enc (gate_document t' a' s'))).
Proof.
  intros H. destruct (String.eqb_spec (enc (gate_document t a s)) (enc (gate_document t' a' s')))
    as [E|N]; [left; by apply gate_document_inj | right; by split].
Qed.

Lemma binding_hash_binds_witness :
  binding_hash "t1" "external_send" "*" = binding_hash "t1" "external_send" "*" /\
  ("t1" = "t1" /\ "external_send" = "external_send" /\ "*" = "*").
Proof.
  split; [reflexivity|].
  destruct (binding_hash_binds "t1" "external_send" "*" "t1" "external_send" "*" eq_refl)
    as [E|[N _]]; [exact E | destruct (N eq_refl)].
Defined.
