(* ===== verification/Registry.v ===== *)
(** * Registry: model identities and routing decisions at the dispatch gate
    (src/argent_core/model_registry.py: descriptors, construction and identity
    validation; src/argent_core/model_router.py: routing decisions and attempt
    classification; the validation of routing decisions in
    src/argent_core/core.py).  The loading of the registry files and the router
    that produces decisions are not modelled: a registry and a decision are
    arbitrary values here. *)
From S2P Require Import Prelude PyVal Models Json Canonical JobState.
#[local] Open Scope string_scope.

(** ** model_registry.py *)
Definition REGISTRY_VERSION : string := "1".
Definition POLICY_VERSION : string := "1".
Definition EVIDENCE_REGISTRY_VERSION : string := "1".

Inductive AvailabilityState : Type :=
| AV_AVAILABLE
| AV_DEGRADED
| AV_UNAVAILABLE
| AV_DISABLED
| AV_UNKNOWN.
Definition AvailabilityState_value (x : AvailabilityState) : string :=
  match x with
  | AV_AVAILABLE => "AVAILABLE"
  | AV_DEGRADED => "DEGRADED"
  | AV_UNAVAILABLE => "UNAVAILABLE"
  | AV_DISABLED => "DISABLED"
  | AV_UNKNOWN => "UNKNOWN"
  end.
#[export] Instance AvailabilityState_eq_dec : EqDecision AvailabilityState.
Proof. solve_decision. Defined.
#[export] Program Instance AvailabilityState_enum : PyEnum AvailabilityState := {|
  members := [AV_AVAILABLE; AV_DEGRADED; AV_UNAVAILABLE; AV_DISABLED; AV_UNKNOWN];
  value := AvailabilityState_value |}.
Next Obligation. solve_complete. Qed.
Next Obligation. solve_value_inj. Qed.

Inductive LifecycleState : Type :=
| LC_ACTIVE
| LC_DEPRECATED
| LC_RETIRED.
Definition LifecycleState_value (x : LifecycleState) : string :=
  match x with
  | LC_ACTIVE => "ACTIVE"
  | LC_DEPRECATED => "DEPRECATED"
  | LC_RETIRED => "RETIRED"
  end.
#[export] Instance LifecycleState_eq_dec : EqDecision LifecycleState.
Proof. solve_decision. Defined.
#[export] Program Instance LifecycleState_enum : PyEnum LifecycleState := {|
  members := [LC_ACTIVE; LC_DEPRECATED; LC_RETIRED];
  value := LifecycleState_value |}.
Next Obligation. solve_complete. Qed.
Next Obligation. solve_value_inj. Qed.

Definition PROVIDER_UNAVAILABLE : string := "PROVIDER_UNAVAILABLE".
Definition MODEL_UNAVAILABLE : string := "MODEL_UNAVAILABLE".
Definition MODEL_NOT_ALLOWED : string := "MODEL_NOT_ALLOWED".
Definition MODEL_CONFIG_INVALID : string := "MODEL_CONFIG_INVALID".

Record ClaimProvenance : Type := mkClaimProvenance {
  cp_source : string;
  cp_benchmarked : bool
}.
#[export] Instance ClaimProvenance_eta : EtaExpand ClaimProvenance := fun x =>
  mkClaimProvenance (cp_source x) (cp_benchmarked x).

Record ModelAbilities : Type := mkModelAbilities {
  ab_vision : option bool;
  ab_coding : option string;
  ab_review : option bool
}.
#[export] Instance ModelAbilities_eta : EtaExpand ModelAbilities := fun x =>
  mkModelAbilities (ab_vision x) (ab_coding x) (ab_review x).

Record ProviderDescriptor : Type := mkProviderDescriptor {
  pd_provider_id : string;
  pd_provider_type : string;
  pd_display_name : string;
  pd_enabled : bool;
  pd_availability_state : string;
  pd_capabilities_supported : list string;
  pd_credential_ref : option string;
  pd_auth_mode : option string;
  pd_endpoint_ref : option string;
  pd_profile_ref : option string;
  pd_policy_version : string
}.
#[export] Instance ProviderDescriptor_eta : EtaExpand ProviderDescriptor := fun x =>
  mkProviderDescriptor (pd_provider_id x) (pd_provider_type x) (pd_display_name x) (pd_enabled x) (pd_availability_state x) (pd_capabilities_supported x) (pd_credential_ref x) (pd_auth_mode x) (pd_endpoint_ref x) (pd_profile_ref x) (pd_policy_version x).

Record ModelDescriptor : Type := mkModelDescriptor {
  md_model_id : string;
  md_provider_id : string;
  md_canonical_model_name : string;
  md_enabled : bool;
  md_lifecycle_state : string;
  md_context_window_metadata : option Z;
  md_output_limit_metadata : option Z;
  md_reasoning_levels_supported : list string;
  md_tool_capabilities : list string;
  md_abilities : ModelAbilities;
  md_latency_class : string;
  md_cost_class : string;
  md_reliability_class : string;
  md_capability_tags : list string;
  md_policy_version : string;
  md_provenance : ClaimProvenance
}.
#[export] Instance ModelDescriptor_eta : EtaExpand ModelDescriptor := fun x =>
  mkModelDescriptor (md_model_id x) (md_provider_id x) (md_canonical_model_name x) (md_enabled x) (md_lifecycle_state x) (md_context_window_metadata x) (md_output_limit_metadata x) (md_reasoning_levels_supported x) (md_tool_capabilities x) (md_abilities x) (md_latency_class x) (md_cost_class x) (md_reliability_class x) (md_capability_tags x) (md_policy_version x) (md_provenance x).

(** A registry: the two dicts, as association lists. *)
Record ModelRegistry : Type := mkModelRegistry {
  mr_version : string;
  mr_providers : list (string * ProviderDescriptor);
  mr_models : list (string * ModelDescriptor);
  mr_content_hash : string
}.
Definition lookup_id {A} (k : string) (l : list (string * A)) : option A :=
  snd <$> find (fun p => String.eqb k (fst p)) l.
Definition get_provider (r : ModelRegistry) (provider_id : string) : option ProviderDescriptor :=
  lookup_id provider_id (mr_providers r).
Definition get_model (r : ModelRegistry) (model_id : string) : option ModelDescriptor :=
  lookup_id model_id (mr_models r).

Definition config_unless (b : bool) : res exc unit :=
  res_unless b (ModelRegistryError MODEL_CONFIG_INVALID).

Definition _validate_cross_references (r : ModelRegistry) : res exc unit :=
  res_for (fun kv =>
    match get_provider r (md_provider_id (snd kv)) with
    | None => Err (ModelRegistryError MODEL_CONFIG_INVALID)
    | Some provider =>
        config_unless (forallb (fun t => str_in t (pd_capabilities_supported provider))
                               (md_capability_tags (snd kv)))
    end) (mr_models r).

(** [ModelRegistry(providers, models, version, content_hash)]. *)
Definition new_registry (providers : list (string * ProviderDescriptor))
    (models : list (string * ModelDescriptor)) (version content_hash : string)
  : res exc ModelRegistry :=
  _ ← config_unless (String.eqb version REGISTRY_VERSION);
  _ ← res_for (fun kv => config_unless
        (String.eqb (fst kv) (pd_provider_id (snd kv))
         && String.eqb (pd_policy_version (snd kv)) POLICY_VERSION)) providers;
  _ ← res_for (fun kv => config_unless
        (String.eqb (fst kv) (md_model_id (snd kv))
         && String.eqb (md_policy_version (snd kv)) POLICY_VERSION)) models;
  let r := mkModelRegistry version providers models content_hash in
  _ ← _validate_cross_references r;
  Ok r.

Definition validate_identity (r : ModelRegistry) (provider_id model_id : option string)
  : res exc ModelDescriptor :=
  match provider_id ≫= get_provider r with
  | None => Err (ModelRegistryError MODEL_CONFIG_INVALID)
  | Some provider =>
      _ ← res_unless (pd_enabled provider) (ModelRegistryError PROVIDER_UNAVAILABLE);
      _ ← res_unless (str_in (pd_availability_state provider)
                             [value AV_AVAILABLE; value AV_DEGRADED])
            (ModelRegistryError PROVIDER_UNAVAILABLE);
      match model_id ≫= get_model r with
      | None => Err (ModelRegistryError MODEL_CONFIG_INVALID)
      | Some model =>
          _ ← config_unless (ostr_eqb (Some (md_provider_id model)) provider_id);
          _ ← res_unless (md_enabled model) (ModelRegistryError MODEL_NOT_ALLOWED);
          _ ← res_when (String.eqb (md_lifecycle_state model) (value LC_RETIRED))
                (ModelRegistryError MODEL_UNAVAILABLE);
          Ok model
      end
  end.

(** ** model_router.py *)
Definition ROUTING_POLICY_VERSION : string := "2".
Definition LEVEL_OWNER : Z := 4.

Inductive RoutingReasonCode : Type :=
| RC_MINIMUM_SUFFICIENT
| RC_REPEATED_FIX_FAILURE
| RC_TESTS_STILL_RED
| RC_ROOT_CAUSE_UNPROVEN
| RC_CONTRADICTORY_EVIDENCE
| RC_REVIEWER_REJECTED_CANDIDATE
| RC_UNEXPECTED_SCOPE_GROWTH
| RC_SECURITY_COMPLEXITY
| RC_CONCURRENCY_COMPLEXITY
| RC_RECOVERY_COMPLEXITY
| RC_PROVIDER_FAILURE
| RC_MODEL_FAILURE
| RC_CAPABILITY_FLOOR_UNMET
| RC_MISSING_REQUIRED_EXTERNAL_INFO
| RC_OWNER_GATE
| RC_NO_ELIGIBLE_CANDIDATE
| RC_VALIDATED_FALLBACK
| RC_NO_VALID_FALLBACK.
Definition RoutingReasonCode_value (x : RoutingReasonCode) : string :=
  match x with
  | RC_MINIMUM_SUFFICIENT => "MINIMUM_SUFFICIENT"
  | RC_REPEATED_FIX_FAILURE => "REPEATED_FIX_FAILURE"
  | RC_TESTS_STILL_RED => "TESTS_STILL_RED"
  | RC_ROOT_CAUSE_UNPROVEN => "ROOT_CAUSE_UNPROVEN"
  | RC_CONTRADICTORY_EVIDENCE => "CONTRADICTORY_EVIDENCE"
  | RC_REVIEWER_REJECTED_CANDIDATE => "REVIEWER_REJECTED_CANDIDATE"
  | RC_UNEXPECTED_SCOPE_GROWTH => "UNEXPECTED_SCOPE_GROWTH"
  | RC_SECURITY_COMPLEXITY => "SECURITY_COMPLEXITY"
  | RC_CONCURRENCY_COMPLEXITY => "CONCURRENCY_COMPLEXITY"
  | RC_RECOVERY_COMPLEXITY => "RECOVERY_COMPLEXITY"
  | RC_PROVIDER_FAILURE => "PROVIDER_FAILURE"
  | RC_MODEL_FAILURE => "MODEL_FAILURE"
  | RC_CAPABILITY_FLOOR_UNMET => "CAPABILITY_FLOOR_UNMET"
  | RC_MISSING_REQUIRED_EXTERNAL_INFO => "MISSING_REQUIRED_EXTERNAL_INFO"
  | RC_OWNER_GATE => "OWNER_GATE"
  | RC_NO_ELIGIBLE_CANDIDATE => "NO_ELIGIBLE_CANDIDATE"
  | RC_VALIDATED_FALLBACK => "VALIDATED_FALLBACK"
  | RC_NO_VALID_FALLBACK => "NO_VALID_FALLBACK"
  end.
#[export] Instance RoutingReasonCode_eq_dec : EqDecision RoutingReasonCode.
Proof. solve_decision. Defined.
#[export] Program Instance RoutingReasonCode_enum : PyEnum RoutingReasonCode := {|
  members := [RC_MINIMUM_SUFFICIENT; RC_REPEATED_FIX_FAILURE; RC_TESTS_STILL_RED; RC_ROOT_CAUSE_UNPROVEN; RC_CONTRADICTORY_EVIDENCE; RC_REVIEWER_REJECTED_CANDIDATE; RC_UNEXPECTED_SCOPE_GROWTH; RC_SECURITY_COMPLEXITY; RC_CONCURRENCY_COMPLEXITY; RC_RECOVERY_COMPLEXITY; RC_PROVIDER_FAILURE; RC_MODEL_FAILURE; RC_CAPABILITY_FLOOR_UNMET; RC_MISSING_REQUIRED_EXTERNAL_INFO; RC_OWNER_GATE; RC_NO_ELIGIBLE_CANDIDATE; RC_VALIDATED_FALLBACK; RC_NO_VALID_FALLBACK];
  value := RoutingReasonCode_value |}.
Next Obligation. solve_complete. Qed.
Next Obligation. solve_value_inj. Qed.

Definition _TERMINAL_REASON_CODES : list string :=
  [value RC_OWNER_GATE; value RC_NO_ELIGIBLE_CANDIDATE; value RC_NO_VALID_FALLBACK].

Record RoutingDecision : Type := mkRoutingDecision {
  rd_decision_id : string;
  rd_job_id : string;
  rd_task_id : string;
  rd_role : string;
  rd_dispatch_id : option string;
  rd_provider : option string;
  rd_model : option string;
  rd_reasoning_level : option string;
  rd_escalation_level : Z;
  rd_required_capabilities : list string;
  rd_matched_capabilities : list string;
  rd_requirements_hash : string;
  rd_decision_reason_code : string;
  rd_policy_version : string;
  rd_registry_version : string;
  rd_evidence_version : string;
  rd_policy_hash : string;
  rd_registry_hash : string;
  rd_evidence_hash : string;
  rd_inputs_hash : string;
  rd_evidence_refs : list string;
  rd_reference_model_id : option string;
  rd_independence_requirement : option string;
  rd_canonical_json : string;
  rd_created_at : string;
  rd_sha256 : string
}.
#[export] Instance RoutingDecision_eta : EtaExpand RoutingDecision := fun x =>
  mkRoutingDecision (rd_decision_id x) (rd_job_id x) (rd_task_id x) (rd_role x) (rd_dispatch_id x) (rd_provider x) (rd_model x) (rd_reasoning_level x) (rd_escalation_level x) (rd_required_capabilities x) (rd_matched_capabilities x) (rd_requirements_hash x) (rd_decision_reason_code x) (rd_policy_version x) (rd_registry_version x) (rd_evidence_version x) (rd_policy_hash x) (rd_registry_hash x) (rd_evidence_hash x) (rd_inputs_hash x) (rd_evidence_refs x) (rd_reference_model_id x) (rd_independence_requirement x) (rd_canonical_json x) (rd_created_at x) (rd_sha256 x).

Definition rd_is_terminal (d : RoutingDecision) : bool :=
  bool_decide (rd_provider d = None) || bool_decide (rd_model d = None)
  || (LEVEL_OWNER <=? rd_escalation_level d)%Z
  || str_in (rd_decision_reason_code d) _TERMINAL_REASON_CODES.
Definition rd_thinking_tier (d : RoutingDecision) : option string := lower <$> rd_reasoning_level d.

Definition ATTEMPT_OUTCOME_CAPABILITY : string := "CAPABILITY".
Definition ATTEMPT_OUTCOME_TRANSIENT : string := "TRANSIENT".
Definition ATTEMPT_OUTCOME_EXTERNAL : string := "EXTERNAL".
Definition ATTEMPT_OUTCOME_PROVIDER : string := "PROVIDER".
Definition ATTEMPT_OUTCOME_RESOURCE : string := "RESOURCE".
Definition ATTEMPT_OUTCOME_CONTEXT : string := "CONTEXT".
Definition ATTEMPT_OUTCOME_SECURITY : string := "SECURITY".
Definition ATTEMPT_OUTCOME_OWNER : string := "OWNER_REQUIRED".
Definition ATTEMPT_OUTCOME_SUCCESS : string := "SUCCESS".
Definition ATTEMPT_OUTCOME_OTHER : string := "OTHER".
Definition _ATTEMPT_OUTCOMES : list string :=
  [ATTEMPT_OUTCOME_CAPABILITY; ATTEMPT_OUTCOME_TRANSIENT; ATTEMPT_OUTCOME_EXTERNAL; ATTEMPT_OUTCOME_PROVIDER; ATTEMPT_OUTCOME_RESOURCE; ATTEMPT_OUTCOME_CONTEXT; ATTEMPT_OUTCOME_SECURITY; ATTEMPT_OUTCOME_OWNER; ATTEMPT_OUTCOME_SUCCESS; ATTEMPT_OUTCOME_OTHER].
Definition _PROVIDER_OUTCOME_CODES : list string := ["PROVIDER_UNAVAILABLE"; "MODEL_UNAVAILABLE"].
Definition _TRANSIENT_OUTCOME_CODES : list string := ["RATE_LIMIT"; "REQUEST_TIMEOUT"].

(** [(text or "").strip().upper()]. *)
Definition norm_code (o : option string) : string :=
  match o with Some s => upper (strip s) | None => EmptyString end.

Definition classify_attempt (dispatch_status error_class : option string)
    (tests_red reviewer_rejected : bool) (error_code : option string) : string :=
  let code := norm_code error_code in
  let ec := norm_code error_class in
  let status := norm_code dispatch_status in
  if str_in code _PROVIDER_OUTCOME_CODES then ATTEMPT_OUTCOME_PROVIDER
  else if str_in code _TRANSIENT_OUTCOME_CODES then ATTEMPT_OUTCOME_TRANSIENT
  else if String.eqb ec (value EC_TRANSIENT) then ATTEMPT_OUTCOME_TRANSIENT
  else if String.eqb ec (value EC_EXTERNAL) then ATTEMPT_OUTCOME_EXTERNAL
  else if String.eqb ec (value EC_PROVIDER) then ATTEMPT_OUTCOME_PROVIDER
  else if String.eqb ec (value EC_RESOURCE) then ATTEMPT_OUTCOME_RESOURCE
  else if String.eqb ec (value EC_CONTEXT) then ATTEMPT_OUTCOME_CONTEXT
  else if String.eqb ec (value EC_SECURITY) then ATTEMPT_OUTCOME_SECURITY
  else if String.eqb ec (value EC_OWNER_REQUIRED) then ATTEMPT_OUTCOME_OWNER
  else if String.eqb ec (value EC_DETERMINISTIC) then ATTEMPT_OUTCOME_CAPABILITY
  else if String.eqb status (value DCONSUMED) then
    if tests_red || reviewer_rejected then ATTEMPT_OUTCOME_CAPABILITY else ATTEMPT_OUTCOME_SUCCESS
  else if str_in status [value DFAILED; value DREJECTED] then ATTEMPT_OUTCOME_CAPABILITY
  else ATTEMPT_OUTCOME_OTHER.

(** ** core.py: re-validation of a routing decision *)
Definition is_hex_char (c : ascii) : bool :=
  let n := N_of_ascii c in ((48 <=? n) && (n <=? 57) || (97 <=? n) && (n <=? 102))%N.
Definition _is_sha256_hex (value : string) : bool :=
  Nat.eqb (String.length value) 64 && forallb is_hex_char (list_ascii_of_string (lower value)).

(** [canonical.get(field) == expected] for the expected values that occur:
    strings, [None], integers (equal to a numerically equal bool or float) and
    lists of strings. *)
Definition py_eq_int (v : pyval) (z : Z) : bool :=
  match v with
  | PInt x => Z.eqb x z
  | PBool b => Z.eqb (if b then 1 else 0) z
  | PFloat (FDec neg m e) =>
      let m := (if neg then - Z.of_N m else Z.of_N m)%Z in
      if (0 <=? e)%Z then (m * 10 ^ e =? z)%Z else (m =? z * 10 ^ (- e))%Z
  | _ => false
  end.
Fixpoint eq_strs (l : list pyval) (ss : list string) : bool :=
  match l, ss with
  | [], [] => true
  | v :: l', s :: ss' => is_str v s && eq_strs l' ss'
  | _, _ => false
  end.
Definition eq_str_list (v : pyval) (ss : list string) : bool :=
  match v with PList l => eq_strs l ss | _ => false end.

Fixpoint insert_str (x : string) (l : list string) : list string :=
  match l with
  | [] => [x]
  | y :: l' => if String.leb x y then x :: l else y :: insert_str x l'
  end.
Definition sorted_strs (l : list string) : list string := fold_right insert_str [] l.

Definition field_checks (c : pydict) (d : RoutingDecision) : list bool :=
  let str f v := is_str (dget0 c f) v in
  let ostr f v := eq_ostr (dget0 c f) v in
  [str "job_id" (rd_job_id d); str "task_id" (rd_task_id d); str "role" (rd_role d);
   ostr "reference_model_id" (rd_reference_model_id d);
   ostr "independence_requirement" (rd_independence_requirement d);
   ostr "provider" (rd_provider d); ostr "model" (rd_model d);
   ostr "reasoning_level" (rd_reasoning_level d);
   py_eq_int (dget0 c "escalation_level") (rd_escalation_level d);
   eq_str_list (dget0 c "required_capabilities") (sorted_strs (rd_required_capabilities d));
   str "reason_code" (rd_decision_reason_code d);
   str "policy_version" (rd_policy_version d); str "registry_version" (rd_registry_version d);
   str "evidence_version" (rd_evidence_version d); str "policy_hash" (rd_policy_hash d);
   str "registry_hash" (rd_registry_hash d); str "evidence_hash" (rd_evidence_hash d);
   str "inputs_hash" (rd_inputs_hash d);
   eq_str_list (dget0 c "evidence_refs") (rd_evidence_refs d)].

Definition policy (b : bool) : res exc unit := res_unless b RolePolicyViolation.

Definition _validate_routing_decision (d : RoutingDecision) (task_id : string) (role : Role)
  : res exc unit :=
  _ ← policy (String.eqb (sha256 (rd_canonical_json d)) (rd_sha256 d));
  _ ← policy (String.eqb (rd_decision_id d) (String.substring 0 32 (rd_sha256 d)));
  match json_loads (rd_canonical_json d) with
  | Ok (PDict canonical) =>
      _ ← policy (forallb (fun b => b) (field_checks canonical d));
      _ ← policy (_is_sha256_hex (rd_inputs_hash d));
      _ ← policy (_is_sha256_hex (rd_policy_hash d) && _is_sha256_hex (rd_registry_hash d)
                  && _is_sha256_hex (rd_evidence_hash d));
      _ ← policy (String.eqb (rd_task_id d) task_id);
      _ ← policy (String.eqb (rd_role d) (value role));
      _ ← policy (String.eqb (rd_policy_version d) ROUTING_POLICY_VERSION);
      _ ← policy ((0 <=? rd_escalation_level d)%Z && (rd_escalation_level d <=? 4)%Z);
      _ ← policy (str_in (rd_decision_reason_code d) (map value (members (A := RoutingReasonCode))));
      _ ← policy (String.eqb (rd_registry_version d) REGISTRY_VERSION);
      policy (String.eqb (rd_evidence_version d) EVIDENCE_REGISTRY_VERSION)
  | _ => Err RolePolicyViolation
  end.

(** ** Lemmas *)
Lemma lookup_id_In {A} k (l : list (string * A)) v : lookup_id k l = Some v -> In (k, v) l.
Proof.
  unfold lookup_id. destruct (find _ _) as [[k' v']|] eqn:F; cbn; [|discriminate].
  intros [= <-]. apply find_some in F as [I E]. cbn in E. by apply String.eqb_eq in E as ->.
Qed.

Definition usable_provider (p : ProviderDescriptor) : Prop :=
  pd_enabled p = true /\
  (pd_availability_state p = value AV_AVAILABLE \/ pd_availability_state p = value AV_DEGRADED).
Definition usable_model (m : ModelDescriptor) : Prop :=
  md_enabled m = true /\ md_lifecycle_state m <> value LC_RETIRED.

Lemma availability_in s :
  str_in s [value AV_AVAILABLE; value AV_DEGRADED] = true <->
  s = value AV_AVAILABLE \/ s = value AV_DEGRADED.
Proof. rewrite str_in_In. cbn. intuition. Qed.

Lemma validate_identity_ok r p m md :
  validate_identity r (Some p) (Some m) = Ok md <->
  (exists pd, get_provider r p = Some pd /\ usable_provider pd) /\
  get_model r m = Some md /\ md_provider_id md = p /\ usable_model md.
Proof.
  unfold validate_identity, usable_provider, usable_model. cbn [mbind option_bind].
  destruct (get_provider r p) as [pd|] eqn:P; [|split; [discriminate | intros [(? & [=] & _) _]]].
  rewrite !res_seq_ok, !res_unless_ok, availability_in.
  destruct (get_model r m) as [md'|] eqn:Md;
    [|split; [intros (_ & _ & [=]) | intros (_ & [=] & _)]].
  rewrite !res_seq_ok, res_when_ok. unfold config_unless.
  rewrite !res_unless_ok, ostr_eqb_eq, String.eqb_neq. split.
  - intros (E & A & [= O] & En & L & [= ->]). split_and!; try done. by exists pd.
  - intros [(pd' & [= <-] & E & A) ([= ->] & -> & En & L)]. by split_and!.
Qed.

(** The dispatch gate accepts exactly the usable identities: a
    provider/model pair is valid iff the provider is registered, enabled and
    available or degraded and the model is registered under that provider,
    enabled and not retired; a missing name is never valid, and every refusal
    is a [ModelRegistryError] with one of the bounded codes. *)
Theorem validate_identity_gate r p m md :
  (validate_identity r p m = Ok md <->
   exists p' m' pd, p = Some p' /\ m = Some m' /\
     get_provider r p' = Some pd /\ usable_provider pd /\
     get_model r m' = Some md /\ md_provider_id md = p' /\ usable_model md) /\
  raises_only (fun e => exists c, e = ModelRegistryError c /\
    In c [MODEL_CONFIG_INVALID; PROVIDER_UNAVAILABLE; MODEL_NOT_ALLOWED; MODEL_UNAVAILABLE])
    (validate_identity r p m).
Proof.
  split.
  - destruct p as [p|]; [|split; [discriminate | by intros (? & ? & ? & [=] & _)]].
    destruct m as [m|].
    + rewrite validate_identity_ok. split.
      * intros [(pd & G & U) (Gm & Pm & Um)]. by exists p, m, pd.
      * intros (p' & m' & pd & [= <-] & [= <-] & G & U & Gm & Pm & Um).
        split; [by exists pd | done].
    + split; [|by intros (? & ? & ? & _ & [=] & _)].
      unfold validate_identity. cbn [mbind option_bind].
      destruct (get_provider r p); [|discriminate]. rewrite !res_seq_ok. intros (_ & _ & [=]).
  - unfold validate_identity, config_unless.
    assert (X : forall c, In c [MODEL_CONFIG_INVALID; PROVIDER_UNAVAILABLE; MODEL_NOT_ALLOWED;
      MODEL_UNAVAILABLE] -> exists c', ModelRegistryError c = ModelRegistryError c' /\
      In c' [MODEL_CONFIG_INVALID; PROVIDER_UNAVAILABLE; MODEL_NOT_ALLOWED; MODEL_UNAVAILABLE])
      by (intros c I; by exists c).
    destruct (p ≫= get_provider r); [|apply raises_err, X; cbn; tauto].
    do 2 (apply raises_bind; [apply raises_unless, X; cbn; tauto | intros _ _]).
    destruct (m ≫= get_model r); [|apply raises_err, X; cbn; tauto].
    do 2 (apply raises_bind; [apply raises_unless, X; cbn; tauto | intros _ _]).
    apply raises_bind; [apply raises_when, X; cbn; tauto | intros _ _; apply raises_ok].
Qed.

(** What a validated decision determines. *)
Definition decision_identity (d : RoutingDecision) :=
  (rd_provider d, rd_model d, rd_reasoning_level d, rd_escalation_level d,
   (rd_job_id d, rd_task_id d, rd_role d, rd_decision_reason_code d, rd_inputs_hash d,
    rd_evidence_refs d)).

Lemma is_str_inj v a b : is_str v a = true -> is_str v b = true -> a = b.
Proof. rewrite !is_str_eq. congruence. Qed.
Lemma eq_ostr_inj v a b : eq_ostr v a = true -> eq_ostr v b = true -> a = b.
Proof.
  rewrite !eq_ostr_eq. intros -> E. destruct a, b; cbn in E; congruence.
Qed.
Lemma py_eq_int_inj v a b : py_eq_int v a = true -> py_eq_int v b = true -> a = b.
Proof.
  destruct v as [|c|z|[| |neg m e]| | | | |]; cbn; try discriminate.
  - rewrite !Z.eqb_eq. congruence.
  - rewrite !Z.eqb_eq. congruence.
  - destruct (0 <=? e)%Z eqn:L; rewrite !Z.eqb_eq; [congruence|].
    intros -> E. apply Z.leb_gt in L.
    assert (0 < 10 ^ (- e))%Z by (apply Z.pow_pos_nonneg; lia). nia.
Qed.
Lemma eq_strs_inj l a b : eq_strs l a = true -> eq_strs l b = true -> a = b.
Proof.
  revert a b. induction l as [|v l IH]; intros [|x a] [|y b]; cbn; try discriminate; [done|].
  rewrite !andb_true_iff. intros [X A] [Y B]. f_equal; [exact (is_str_inj v x y X Y) | auto].
Qed.
Lemma eq_str_list_inj v a b : eq_str_list v a = true -> eq_str_list v b = true -> a = b.
Proof. destruct v; cbn; try discriminate. apply eq_strs_inj. Qed.

Lemma validated_document d t r :
  _validate_routing_decision d t r = Ok tt ->
  rd_sha256 d = sha256 (rd_canonical_json d) /\ rd_task_id d = t /\ rd_role d = value r /\
  exists c, json_loads (rd_canonical_json d) = Ok (PDict c) /\
            forallb (fun b => b) (field_checks c d) = true.
Proof.
  unfold _validate_routing_decision. rewrite !res_seq_ok. unfold policy.
  rewrite !res_unless_ok, !String.eqb_eq. intros (<- & _ & H).
  destruct (json_loads _) as [[| | | | | | |c|]|]; try discriminate.
  rewrite !res_seq_ok, !res_unless_ok, !String.eqb_eq in H.
  destruct H as (F & _ & _ & T & R & _). split_and!; try done. by exists c.
Qed.

(** A routing decision is tamper-evident: two decisions that both pass the
    validation and carry the same sha256 have the same provider, model,
    reasoning and escalation level, job, task, role, reason, inputs hash and
    evidence references, unless they exhibit a SHA-256 collision between two
    different canonical documents. *)
Theorem decision_tamper_evident d1 d2 t1 r1 t2 r2 :
  _validate_routing_decision d1 t1 r1 = Ok tt ->
  _validate_routing_decision d2 t2 r2 = Ok tt ->
  rd_sha256 d1 = rd_sha256 d2 ->
  (decision_identity d1 = decision_identity d2 /\ t1 = t2 /\ r1 = r2) \/
  (rd_canonical_json d1 <> rd_canonical_json d2 /\
   sha256 (rd_canonical_json d1) = sha256 (rd_canonical_json d2)).
Proof.
  intros V1 V2 S.
  apply validated_document in V1 as (S1 & <- & R1 & c1 & J1 & F1).
  apply validated_document in V2 as (S2 & <- & R2 & c2 & J2 & F2).
  destruct (String.eqb_spec (rd_canonical_json d1) (rd_canonical_json d2)) as [E|N];
    [left | right; split; [done | congruence]].
  rewrite E, J2 in J1. injection J1 as <-.
  unfold field_checks in F1, F2. cbn [forallb] in F1, F2. rewrite !andb_true_iff in F1, F2.
  destruct F1 as (A1 & A2 & A3 & A4 & A5 & A6 & A7 & A8 & A9 & A10 & A11 & A12 & A13 & A14 & A15 & A16 & A17 & A18 & A19 & _).
  destruct F2 as (B1 & B2 & B3 & B4 & B5 & B6 & B7 & B8 & B9 & B10 & B11 & B12 & B13 & B14 & B15 & B16 & B17 & B18 & B19 & _).
  pose proof (is_str_inj _ _ _ A2 B2) as Et. pose proof (is_str_inj _ _ _ A3 B3) as Er.
  split; [|split; [exact Et | apply value_inj; congruence]].
  unfold decision_identity.
  rewrite (eq_ostr_inj _ _ _ A6 B6), (eq_ostr_inj _ _ _ A7 B7), (eq_ostr_inj _ _ _ A8 B8),
    (py_eq_int_inj _ _ _ A9 B9), (is_str_inj _ _ _ A1 B1), Et, Er, (is_str_inj _ _ _ A11 B11),
    (is_str_inj _ _ _ A18 B18), (eq_str_list_inj _ _ _ A19 B19).
  reflexivity.
Qed.

(** A decision that validates, with its canonical document. *)
Definition sample_decision : RoutingDecision :=
  let h := sha256 "x" in
  let doc := PDict (map (fun kv => (KStr (fst kv), snd kv))
    [("job_id", PStr "j"); ("task_id", PStr "t"); ("role", PStr "qa");
     ("reference_model_id", PNone); ("independence_requirement", PNone);
     ("provider", PStr "deepseek"); ("model", PStr "deepseek-v4-pro");
     ("reasoning_level", PStr "MEDIUM"); ("escalation_level", PInt 0);
     ("required_capabilities", PList []); ("reason_code", PStr "MINIMUM_SUFFICIENT");
     ("policy_version", PStr "2"); ("registry_version", PStr "1"); ("evidence_version", PStr "1");
     ("policy_hash", PStr h); ("registry_hash", PStr h); ("evidence_hash", PStr h);
     ("inputs_hash", PStr h); ("evidence_refs", PList [])]) in
  let c := enc doc in
  mkRoutingDecision (String.substring 0 32 (sha256 c)) "j" "t" "qa" None (Some "deepseek")
    (Some "deepseek-v4-pro") (Some "MEDIUM") 0 [] [] h "MINIMUM_SUFFICIENT" "2" "1" "1" h h h h []
    None None c "2024-01-01T00:00:00+00:00" (sha256 c).

Lemma decision_tamper_evident_witness :
  _validate_routing_decision sample_decision "t" QA = Ok tt /\
  (decision_identity sample_decision = decision_identity sample_decision /\ "t" = "t" /\ QA = QA).
Proof.
  assert (V : _validate_routing_decision sample_decision "t" QA = Ok tt) by (vm_compute; reflexivity).
  split; [exact V|].
  destruct (decision_tamper_evident sample_decision sample_decision "t" QA "t" QA V V eq_refl)
    as [H|[N _]]; [exact H | destruct (N eq_refl)].
Defined.

(** An attempt outcome is one of the bounded values, and a provider,
    transport, resource, context, security or owner signal is never classified
    as a capability gap, whatever the dispatch status and test signals are. *)
Theorem classify_attempt_bounded status error_class tests_red rejected error_code :
  let out := classify_attempt status error_class tests_red rejected error_code in
  In out _ATTEMPT_OUTCOMES /\
  (In (norm_code error_class) (map value [EC_TRANSIENT; EC_EXTERNAL; EC_PROVIDER; EC_RESOURCE;
     EC_CONTEXT; EC_SECURITY; EC_OWNER_REQUIRED]) \/
   In (norm_code error_code) (_PROVIDER_OUTCOME_CODES ++ _TRANSIENT_OUTCOME_CODES) ->
   out <> ATTEMPT_OUTCOME_CAPABILITY).
Proof.
  cbv zeta. unfold classify_attempt. split.
  - case_tests; cbn; tauto.
  - intros S.
    destruct (str_in (norm_code error_code) _PROVIDER_OUTCOME_CODES) eqn:P; [done|].
    destruct (str_in (norm_code error_code) _TRANSIENT_OUTCOME_CODES) eqn:T; [done|].
    apply str_in_false in P, T. destruct S as [S|S]; [|apply in_app_iff in S; tauto].
    cbn in S. destruct S as [E|[E|[E|[E|[E|[E|[E|[]]]]]]]]; by rewrite <- E.
Qed.
