(* ===== verification/CoreStore.v ===== *)
(** * CoreStore: the tables of the team-control core and their operations
    (src/argent_core/store.py, the tables of projects, tasks, runs, handoffs,
    findings, tests, reviews, decisions, approvals, executions, events, command
    idempotency, dispatches, routing decisions, quarantine and snapshots).

    A table is the list of its rows in rowid order.  [db_ok] states what the
    schema declares (primary keys, foreign keys, unique and partial unique
    indexes, the range check of escalation levels; enum checks hold by typing);
    a statement whose result violates it raises [IntegrityError] and changes
    nothing.  [Env] holds what the core takes from outside: fresh UUIDs, the
    clock, SQLite's rendering of a float as text, the iteration order of a
    Python set and the model registry the core was built with. *)
From S2P Require Import Prelude PyVal Models Json Canonical Timestamps Trust Gates Events Registry.
#[local] Open Scope string_scope.

Class Env : Type := {
  uuid4 : nat -> string;
  clock : nat -> datetime;
  sqlite_float : pyfloat -> option string;
  set_order : list string -> list string;
  set_order_perm : forall l, Permutation (set_order l) l;
  registry : ModelRegistry
}.

Record EventRow : Type := mkEventRow {
  er_id : string;
  er_type : string;
  er_task_id : option string;
  er_role : option string;
  er_state : option string;
  er_payload_json : string;
  er_created_at : string
}.
#[export] Instance EventRow_eta : EtaExpand EventRow := fun x =>
  mkEventRow (er_id x) (er_type x) (er_task_id x) (er_role x) (er_state x) (er_payload_json x) (er_created_at x).

Record IdemRow : Type := mkIdemRow {
  ci_key : string;
  ci_command : string;
  ci_result_id : string;
  ci_args_hash : string;
  ci_created_at : string
}.
#[export] Instance IdemRow_eta : EtaExpand IdemRow := fun x =>
  mkIdemRow (ci_key x) (ci_command x) (ci_result_id x) (ci_args_hash x) (ci_created_at x).

Record RoutingRow : Type := mkRoutingRow {
  ro_decision_id : string;
  ro_job_id : string;
  ro_provider : option string;
  ro_model : option string;
  ro_reasoning_level : option string;
  ro_escalation_level : Z;
  ro_decision_reason_code : string;
  ro_policy_version : string;
  ro_requirements_hash : string;
  ro_evidence_refs_json : string;
  ro_decision_sha256 : string;
  ro_registry_version : string;
  ro_evidence_version : string;
  ro_policy_hash : string;
  ro_registry_hash : string;
  ro_evidence_hash : string;
  ro_inputs_hash : string;
  ro_created_at : string
}.
#[export] Instance RoutingRow_eta : EtaExpand RoutingRow := fun x =>
  mkRoutingRow (ro_decision_id x) (ro_job_id x) (ro_provider x) (ro_model x) (ro_reasoning_level x) (ro_escalation_level x) (ro_decision_reason_code x) (ro_policy_version x) (ro_requirements_hash x) (ro_evidence_refs_json x) (ro_decision_sha256 x) (ro_registry_version x) (ro_evidence_version x) (ro_policy_hash x) (ro_registry_hash x) (ro_evidence_hash x) (ro_inputs_hash x) (ro_created_at x).

Record DB : Type := mkDB {
  db_projects : list Project;
  db_tasks : list Task;
  db_task_runs : list TaskRun;
  db_role_runs : list RoleRun;
  db_handoffs : list Handoff;
  db_findings : list Finding;
  db_test_runs : list TestRun;
  db_reviews : list Review;
  db_decisions : list Decision;
  db_approvals : list OwnerApproval;
  db_executions : list ActionExecution;
  db_events : list EventRow;
  db_idempotency : list IdemRow;
  db_dispatches : list AgentDispatch;
  db_routing : list RoutingRow;
  db_quarantine : list AgentResultQuarantine;
  db_snapshots : list AgentContextSnapshot
}.
#[export] Instance DB_eta : EtaExpand DB := fun x =>
  mkDB (db_projects x) (db_tasks x) (db_task_runs x) (db_role_runs x) (db_handoffs x) (db_findings x) (db_test_runs x) (db_reviews x) (db_decisions x) (db_approvals x) (db_executions x) (db_events x) (db_idempotency x) (db_dispatches x) (db_routing x) (db_quarantine x) (db_snapshots x).

Definition empty_db : DB := mkDB [] [] [] [] [] [] [] [] [] [] [] [] [] [] [] [] [].

Record St : Type := mkSt {
  st_db : DB;
  st_uuids : nat;
  st_ticks : nat
}.
#[export] Instance St_eta : EtaExpand St := fun x =>
  mkSt (st_db x) (st_uuids x) (st_ticks x).
Definition init_st : St := mkSt empty_db 0 0.
Notation cmd := (M St exc).

(** ** Constraints *)
Definition uniq {A K} `{EqDecision K} (key : A -> K) (l : list A) : bool :=
  bool_decide (NoDup (map key l)).
(** A partial unique index: only the rows that satisfy the condition count. *)
Definition uniq_where {A K} `{EqDecision K} (cond : A -> bool) (key : A -> K) (l : list A) : bool :=
  uniq key (List.filter cond l).
(** A unique nullable column: NULLs are distinct. *)
Definition uniq_opt {A K} `{EqDecision K} (key : A -> option K) (l : list A) : bool :=
  bool_decide (NoDup (omap key l)).
Definition fk {A B} (ref : A -> string) (rows : list A) (key : B -> string) (target : list B)
  : bool :=
  forallb (fun r => existsb (fun t => String.eqb (ref r) (key t)) target) rows.
Definition fk_opt {A B} (ref : A -> option string) (rows : list A) (key : B -> string)
    (target : list B) : bool :=
  forallb (fun r => match ref r with
                    | None => true
                    | Some x => existsb (fun t => String.eqb x (key t)) target
                    end) rows.

Definition is_started (r : RoleRun) : bool := bool_decide (rr_status r = RR_STARTED).
Definition is_live (a : OwnerApproval) : bool := in_list (ap_status a) [AP_PENDING; AP_APPROVED].
Definition is_active (d : AgentDispatch) : bool :=
  in_list (d_status d) [DPENDING; DRUNNING; DRECOVERY_PENDING].

Definition projects_ok (db : DB) : bool :=
  uniq pr_id (db_projects db) && uniq_opt pr_idempotency_key (db_projects db).
Definition tasks_ok (db : DB) : bool :=
  uniq t_id (db_tasks db) && uniq_opt t_idempotency_key (db_tasks db)
  && fk t_project_id (db_tasks db) pr_id (db_projects db).
Definition task_runs_ok (db : DB) : bool :=
  uniq tr_id (db_task_runs db) && fk tr_task_id (db_task_runs db) t_id (db_tasks db).
Definition role_runs_ok (db : DB) : bool :=
  uniq rr_id (db_role_runs db) && fk rr_task_id (db_role_runs db) t_id (db_tasks db)
  && uniq_where is_started rr_task_id (db_role_runs db).
Definition evidence_ok (db : DB) : bool :=
  uniq h_id (db_handoffs db) && fk h_task_id (db_handoffs db) t_id (db_tasks db)
  && uniq f_id (db_findings db) && fk f_task_id (db_findings db) t_id (db_tasks db)
  && uniq ts_id (db_test_runs db) && fk ts_task_id (db_test_runs db) t_id (db_tasks db)
  && uniq rv_id (db_reviews db) && fk rv_task_id (db_reviews db) t_id (db_tasks db)
  && uniq dc_id (db_decisions db) && fk dc_task_id (db_decisions db) t_id (db_tasks db).
Definition approvals_ok (db : DB) : bool :=
  uniq ap_id (db_approvals db) && fk ap_task_id (db_approvals db) t_id (db_tasks db)
  && uniq_where is_live (fun a => (ap_task_id a, ap_action a, ap_scope a)) (db_approvals db).
Definition executions_ok (db : DB) : bool :=
  uniq ex_id (db_executions db) && fk ex_task_id (db_executions db) t_id (db_tasks db)
  && fk_opt ex_approval_id (db_executions db) ap_id (db_approvals db).
Definition level_ok (z : Z) : bool := (0 <=? z)%Z && (z <=? 4)%Z.
Definition dispatches_ok (db : DB) : bool :=
  uniq d_id (db_dispatches db)
  && fk d_task_id (db_dispatches db) t_id (db_tasks db)
  && fk d_task_run_id (db_dispatches db) tr_id (db_task_runs db)
  && fk_opt d_parent_dispatch_id (db_dispatches db) d_id (db_dispatches db)
  && forallb (fun d => level_ok (d_escalation_level d)) (db_dispatches db)
  && uniq (fun d => (d_task_id d, d_cycle_no d, d_position d, d_attempt_no d)) (db_dispatches db)
  && uniq_where is_active d_task_id (db_dispatches db)
  && uniq_opt d_child_session_id (db_dispatches db)
  && uniq_opt d_openclaw_run_id (db_dispatches db).
Definition logs_ok (db : DB) : bool :=
  uniq er_id (db_events db)
  && uniq (fun r => (ci_key r, ci_command r)) (db_idempotency db)
  && uniq ro_decision_id (db_routing db)
  && forallb (fun r => level_ok (ro_escalation_level r)) (db_routing db)
  && uniq q_id (db_quarantine db)
  && uniq cs_dispatch_id (db_snapshots db)
  && fk cs_dispatch_id (db_snapshots db) d_id (db_dispatches db).

Definition db_ok (db : DB) : bool :=
  projects_ok db && tasks_ok db && task_runs_ok db && role_runs_ok db && evidence_ok db
  && approvals_ok db && executions_ok db && dispatches_ok db && logs_ok db.

(** ** Statements *)
Definition write (f : DB -> DB) : cmd unit := fun s =>
  let db := f (st_db s) in
  if db_ok db then (Ok tt, s <| st_db := db |>) else (Err IntegrityError, s).
Definition query {A} (f : DB -> A) : cmd A := gets (fun s => f (st_db s)).

Definition update_where {A} (p : A -> bool) (f : A -> A) (l : list A) : list A :=
  map (fun x => if p x then f x else x) l.
Definition count_where {A} (p : A -> bool) (l : list A) : nat := List.length (List.filter p l).

(** [UPDATE ... WHERE p], returning [cursor.rowcount]. *)
Definition update_rows {A} (tbl : DB -> list A) `{Setter DB (list A) tbl} (p : A -> bool) (f : A -> A)
  : cmd nat :=
  n ← query (fun db => count_where p (tbl db));
  _ ← write (set tbl (update_where p f));
  mret n.
Definition insert_row {A} (tbl : DB -> list A) `{Setter DB (list A) tbl} (x : A) : cmd unit :=
  write (set tbl (fun l => (l ++ [x])%list)).

(** [with self._transaction():] an exception rolls the tables back; fresh
    UUIDs and clock readings stay consumed.  The action fence of the supervisor
    is not armed on the core's own connection ([_action_fence] is [None]). *)
Definition transaction {A} (m : cmd A) : cmd A := fun s =>
  match m s with
  | (Ok a, s') => (Ok a, s')
  | (Err e, s') => (Err e, s' <| st_db := st_db s |>)
  end.

Definition by_id {A} (key : A -> string) (id : string) (l : list A) : option A :=
  find (fun x => String.eqb (key x) id) l.
Definition of_task {A} (key : A -> string) (task_id : string) (l : list A) : list A :=
  List.filter (fun x => String.eqb (key x) task_id) l.

Section Store.
Context {env : Env}.

Definition uuid : cmd string := fun s => (Ok (uuid4 (st_uuids s)), s <| st_uuids ::= S |>).
Definition now : cmd datetime := fun s => (Ok (clock (st_ticks s)), s <| st_ticks ::= S |>).
Definition format_in_range (dt : datetime) : res exc string :=
  if in_range (to_utc dt) then Ok (_format_dt dt) else Err OverflowError.
Definition now_iso : cmd string := dt ← now; lift (format_in_range dt).
Definition expiry_iso (ttl_seconds : Z) : cmd string :=
  dt ← now;
  let w := (dt_wall dt + ttl_seconds * US_PER_SECOND)%Z in
  _ ← raise_unless (in_range w) OverflowError;
  lift (format_in_range (mkDatetime w (dt_offset dt))).

(** *** projects, tasks *)
Definition _insert_project (p : Project) : cmd unit := insert_row db_projects p.
Definition get_project (project_id : string) : cmd (option Project) :=
  query (fun db => by_id pr_id project_id (db_projects db)).
Definition _insert_task (t : Task) : cmd unit := insert_row db_tasks t.
Definition get_task (task_id : string) : cmd (option Task) :=
  query (fun db => by_id t_id task_id (db_tasks db)).
Definition _update_task_state (task_id : string) (state : TaskState)
    (resume_state : option TaskState) (updated_at : string) : cmd unit :=
  _ ← update_rows db_tasks (fun t => String.eqb (t_id t) task_id)
        (fun t => t <| t_state := state |> <| t_resume_state := resume_state |>
                    <| t_updated_at := updated_at |>);
  mret tt.
Definition list_tasks : cmd (list Task) := query db_tasks.
(** Every stored [resume_state] is a member (CHECK constraint): all rows valid. *)
Definition list_tasks_for_recovery : cmd (list (Task * bool)) :=
  query (fun db => map (fun t => (t, true)) (db_tasks db)).

(** *** task runs, role runs, handoffs *)
Definition _insert_task_run (tr : TaskRun) : cmd unit := insert_row db_task_runs tr.
Definition get_task_run (run_id : string) : cmd (option TaskRun) :=
  query (fun db => by_id tr_id run_id (db_task_runs db)).
Definition _update_task_run_status (run_id : string) (status : TaskRunStatus)
    (finished_at : string) : cmd unit :=
  _ ← update_rows db_task_runs (fun r => String.eqb (tr_id r) run_id)
        (fun r => r <| tr_status := status |> <| tr_finished_at := Some finished_at |>);
  mret tt.
Definition list_task_runs (status : TaskRunStatus) : cmd (list TaskRun) :=
  query (fun db => List.filter (fun r => bool_decide (tr_status r = status)) (db_task_runs db)).
Definition get_latest_task_run (task_id : string) : cmd (option TaskRun) :=
  query (fun db => last (of_task tr_task_id task_id (db_task_runs db))).

Definition _insert_role_run (rr : RoleRun) : cmd unit := insert_row db_role_runs rr.
Definition get_role_run (run_id : string) : cmd (option RoleRun) :=
  query (fun db => by_id rr_id run_id (db_role_runs db)).
Definition _update_role_run_status (run_id : string) (status : RoleRunStatus)
    (finished_at : string) : cmd unit :=
  _ ← update_rows db_role_runs (fun r => String.eqb (rr_id r) run_id)
        (fun r => r <| rr_status := status |> <| rr_finished_at := Some finished_at |>);
  mret tt.
Definition active_role_run (task_id : string) (db : DB) : option RoleRun :=
  find (fun r => String.eqb (rr_task_id r) task_id && is_started r) (db_role_runs db).
Definition get_active_role_run (task_id : string) : cmd (option RoleRun) :=
  query (active_role_run task_id).
Definition list_role_runs (status : RoleRunStatus) : cmd (list RoleRun) :=
  query (fun db => List.filter (fun r => bool_decide (rr_status r = status)) (db_role_runs db)).

Definition _insert_handoff (h : Handoff) : cmd unit := insert_row db_handoffs h.
Definition get_latest_handoff (task_id : string) : cmd (option Handoff) :=
  query (fun db => last (of_task h_task_id task_id (db_handoffs db))).

(** *** findings, tests, reviews, decisions *)
Definition _insert_finding (f : Finding) : cmd unit := insert_row db_findings f.
Definition get_finding (finding_id : string) : cmd (option Finding) :=
  query (fun db => by_id f_id finding_id (db_findings db)).
Definition _update_finding_status (finding_id : string) (status : FindingStatus)
    (resolved_at : string) : cmd unit :=
  _ ← update_rows db_findings (fun f => String.eqb (f_id f) finding_id)
        (fun f => f <| f_status := status |> <| f_resolved_at := Some resolved_at |>);
  mret tt.
Definition list_findings (task_id : string) : cmd (list Finding) :=
  query (fun db => of_task f_task_id task_id (db_findings db)).
Definition _insert_test_run (tr : TestRun) : cmd unit := insert_row db_test_runs tr.
Definition get_test_run (run_id : string) : cmd (option TestRun) :=
  query (fun db => by_id ts_id run_id (db_test_runs db)).
Definition _insert_review (rv : Review) : cmd unit := insert_row db_reviews rv.
Definition get_review (review_id : string) : cmd (option Review) :=
  query (fun db => by_id rv_id review_id (db_reviews db)).
Definition _insert_decision (d : Decision) : cmd unit := insert_row db_decisions d.
Definition get_decision (decision_id : string) : cmd (option Decision) :=
  query (fun db => by_id dc_id decision_id (db_decisions db)).
Definition list_decisions (task_id : string) : cmd (list Decision) :=
  query (fun db => of_task dc_task_id task_id (db_decisions db)).

(** *** owner approvals *)
(** The stored binding hash is recomputed by the insert. *)
Definition _insert_approval (a : OwnerApproval) : cmd unit :=
  insert_row db_approvals
    (a <| ap_binding_hash := Some (binding_hash (ap_task_id a) (ap_action a) (ap_scope a)) |>).
Definition get_approval (approval_id : string) : cmd (option OwnerApproval) :=
  query (fun db => by_id ap_id approval_id (db_approvals db)).
Definition list_approvals (task_id : string) : cmd (list OwnerApproval) :=
  query (fun db => of_task ap_task_id task_id (db_approvals db)).

Definition unexpired (a : OwnerApproval) (now_iso : string) : bool :=
  str_ltb now_iso (ap_expires_at a).
Definition _mark_approved (approval_id now_iso : string) : cmd nat :=
  update_rows db_approvals
    (fun a => String.eqb (ap_id a) approval_id && bool_decide (ap_status a = AP_PENDING)
              && unexpired a now_iso)
    (fun a => a <| ap_status := AP_APPROVED |> <| ap_decided_at := Some now_iso |>
                <| ap_approved_at := Some now_iso |>).
Definition _mark_rejected (approval_id now_iso : string) : cmd nat :=
  update_rows db_approvals
    (fun a => String.eqb (ap_id a) approval_id && bool_decide (ap_status a = AP_PENDING))
    (fun a => a <| ap_status := AP_REJECTED |> <| ap_decided_at := Some now_iso |>
                <| ap_closed_at := Some now_iso |>).
Definition _consume_approval (approval_id now_iso : string) : cmd nat :=
  update_rows db_approvals
    (fun a => String.eqb (ap_id a) approval_id && bool_decide (ap_status a = AP_APPROVED)
              && unexpired a now_iso)
    (fun a => a <| ap_status := AP_CONSUMED |> <| ap_consumed_at := Some now_iso |>).
Definition _consume_approval_with_execution (approval_id now_iso execution_id : string) : cmd nat :=
  update_rows db_approvals
    (fun a => String.eqb (ap_id a) approval_id && bool_decide (ap_status a = AP_APPROVED)
              && unexpired a now_iso)
    (fun a => a <| ap_status := AP_CONSUMED |> <| ap_consumed_at := Some now_iso |>
                <| ap_execution_id := Some execution_id |> <| ap_executed_at := Some now_iso |>
                <| ap_closed_at := Some now_iso |>).
Definition _mark_expired (approval_id now_iso : string) : cmd nat :=
  update_rows db_approvals
    (fun a => String.eqb (ap_id a) approval_id && is_live a && str_leb (ap_expires_at a) now_iso)
    (fun a => a <| ap_status := AP_EXPIRED |> <| ap_closed_at := Some (ap_expires_at a) |>).

(** *** action executions, events, command idempotency *)
Definition _insert_action_execution (ex : ActionExecution) : cmd unit := insert_row db_executions ex.
Definition get_action_execution (execution_id : string) : cmd (option ActionExecution) :=
  query (fun db => by_id ex_id execution_id (db_executions db)).

(** [INSERT OR IGNORE] after the privacy check. *)
Definition _insert_event (ev : Event) : cmd unit :=
  _ ← lift (check_event ev);
  payload_json ← lift (json_dumps (PDict (ev_payload ev)));
  existing ← query (fun db => existsb (fun r => String.eqb (er_id r) (ev_id ev)) (db_events db));
  mwhen (negb existing)
    (insert_row db_events (mkEventRow (ev_id ev) (ev_type ev) (ev_task_id ev) (ev_role ev)
                             (ev_state ev) payload_json (ev_created_at ev))).

Definition get_command_idempotency (key command : string) : cmd (option (string * string)) :=
  query (fun db =>
    (fun r => (ci_result_id r, ci_args_hash r)) <$>
    find (fun r => String.eqb (ci_key r) key && String.eqb (ci_command r) command)
         (db_idempotency db)).
Definition _set_command_idempotency (key command result_id args_hash created_at : string)
  : cmd unit :=
  existing ← get_command_idempotency key command;
  match existing with
  | Some _ => mret tt
  | None => insert_row db_idempotency (mkIdemRow key command result_id args_hash created_at)
  end.

(** *** dispatches *)
Definition _insert_dispatch (d : AgentDispatch) : cmd unit := insert_row db_dispatches d.
Definition get_dispatch (dispatch_id : string) : cmd (option AgentDispatch) :=
  query (fun db => by_id d_id dispatch_id (db_dispatches db)).

(** [ORDER BY cycle_no, position, attempt_no], stable in rowid order. *)
Definition dispatch_leb (a b : AgentDispatch) : bool :=
  (d_cycle_no a <? d_cycle_no b)%Z
  || ((d_cycle_no a =? d_cycle_no b)%Z
      && ((d_position a <? d_position b)%Z
          || ((d_position a =? d_position b)%Z && (d_attempt_no a <=? d_attempt_no b)%Z))).
Fixpoint insert_dispatch (x : AgentDispatch) (l : list AgentDispatch) : list AgentDispatch :=
  match l with
  | [] => [x]
  | y :: l' => if dispatch_leb x y then x :: l else y :: insert_dispatch x l'
  end.
Definition order_dispatches (l : list AgentDispatch) : list AgentDispatch :=
  fold_right insert_dispatch [] l.

Definition task_dispatches (task_id : string) (db : DB) : list AgentDispatch :=
  order_dispatches (of_task d_task_id task_id (db_dispatches db)).
Definition list_dispatches (task_id : option string) (status : option DispatchStatus)
  : cmd (list AgentDispatch) :=
  query (fun db => order_dispatches (List.filter (fun d =>
    (match task_id with None => true | Some t => String.eqb (d_task_id d) t end)
    && (match status with None => true | Some st => bool_decide (d_status d = st) end))
    (db_dispatches db))).

Definition bindable (d : AgentDispatch) : bool := in_list (d_status d) [DPENDING; DRECOVERY_PENDING].
Definition _update_dispatch_bind (dispatch_id child_session_id openclaw_run_id actual_provider
    actual_model thinking_tier started_at : string) : cmd nat :=
  update_rows db_dispatches (fun d => String.eqb (d_id d) dispatch_id && bindable d)
    (fun d => d <| d_status := DRUNNING |> <| d_child_session_id := Some child_session_id |>
                <| d_openclaw_run_id := Some openclaw_run_id |>
                <| d_actual_provider := Some actual_provider |>
                <| d_actual_model := Some actual_model |>
                <| d_thinking_tier := Some thinking_tier |> <| d_started_at := Some started_at |>).
Definition _reject_dispatch_cas (dispatch_id : string) : cmd nat :=
  update_rows db_dispatches (fun d => String.eqb (d_id d) dispatch_id && bindable d)
    (fun d => d <| d_status := DREJECTED |>).
Definition _update_dispatch_status (dispatch_id : string) (status : DispatchStatus) (now : string)
  : cmd nat :=
  update_rows db_dispatches (fun d => String.eqb (d_id d) dispatch_id)
    (fun d => d <| d_status := status |>).
Definition _set_dispatch_attempt_outcome (dispatch_id attempt_outcome : string) : cmd nat :=
  _ ← raise_unless (str_in attempt_outcome _ATTEMPT_OUTCOMES) ValueError;
  update_rows db_dispatches (fun d => String.eqb (d_id d) dispatch_id)
    (fun d => d <| d_attempt_outcome := Some attempt_outcome |>).
Definition consumable (d : AgentDispatch) : bool :=
  in_list (d_status d) [DRUNNING; DRECOVERY_PENDING].
Definition _consume_dispatch (dispatch_id result_json consumed_at : string) : cmd nat :=
  update_rows db_dispatches (fun d => String.eqb (d_id d) dispatch_id && consumable d)
    (fun d => d <| d_status := DCONSUMED |> <| d_result_json := Some result_json |>
                <| d_consumed_at := Some consumed_at |>).

(** *** routing decisions *)
Definition same_routing (a b : RoutingRow) : bool :=
  String.eqb (ro_job_id a) (ro_job_id b) && ostr_eqb (ro_provider a) (ro_provider b)
  && ostr_eqb (ro_model a) (ro_model b) && ostr_eqb (ro_reasoning_level a) (ro_reasoning_level b)
  && Z.eqb (ro_escalation_level a) (ro_escalation_level b)
  && String.eqb (ro_decision_reason_code a) (ro_decision_reason_code b)
  && String.eqb (ro_policy_version a) (ro_policy_version b)
  && String.eqb (ro_requirements_hash a) (ro_requirements_hash b)
  && String.eqb (ro_evidence_refs_json a) (ro_evidence_refs_json b)
  && String.eqb (ro_decision_sha256 a) (ro_decision_sha256 b)
  && String.eqb (ro_registry_version a) (ro_registry_version b)
  && String.eqb (ro_evidence_version a) (ro_evidence_version b)
  && String.eqb (ro_inputs_hash a) (ro_inputs_hash b)
  && String.eqb (ro_policy_hash a) (ro_policy_hash b)
  && String.eqb (ro_registry_hash a) (ro_registry_hash b)
  && String.eqb (ro_evidence_hash a) (ro_evidence_hash b).
Definition get_routing_decision (decision_id : string) : cmd (option RoutingRow) :=
  query (fun db => by_id ro_decision_id decision_id (db_routing db)).
Definition _insert_routing_decision (rec : RoutingRow) : cmd unit :=
  existing ← get_routing_decision (ro_decision_id rec);
  match existing with
  | Some e => raise_unless (same_routing e rec) DispatchError
  | None => insert_row db_routing rec
  end.

(** *** quarantine, context snapshots *)
Definition _insert_quarantine (q : AgentResultQuarantine) : cmd unit := insert_row db_quarantine q.
Definition _insert_context_snapshot (s : AgentContextSnapshot) : cmd unit :=
  insert_row db_snapshots s.
Definition get_context_snapshot (dispatch_id : string) : cmd (option AgentContextSnapshot) :=
  query (fun db => by_id cs_dispatch_id dispatch_id (db_snapshots db)).
End Store.

(** *** rows added to a table *)
Lemma by_id_app {A} (key : A -> string) id l m x : by_id key id l = Some x -> by_id key id (l ++ m)%list = Some x.
Proof. unfold by_id. induction l as [|y l IH]; [done|]. cbn. by destruct (String.eqb (key y) id). Qed.
Lemma by_id_snoc {A} (key : A -> string) id l x :
  by_id key id (l ++ [x])%list = match by_id key id l with
                                 | Some y => Some y
                                 | None => if String.eqb (key x) id then Some x else None
                                 end.
Proof. unfold by_id. induction l as [|y l IH]; [done|]. cbn. by destruct (String.eqb (key y) id). Qed.
