(* ===== verification/Core.v ===== *)
(** * Core: the command layer of the team-control core
    (src/argent_core/core.py up to the orchestration layer).

    Every command is a state-passing program over [St]: it checks its source
    first, then runs its work in one transaction, with the idempotent replay of
    [_idempotent] around it.  A role, state or result argument is the string it
    was passed as (an enum member is passed as its value). *)
From S2P Require Import Prelude PyVal Models Json Canonical Timestamps StateMachine Trust Workflow.
From S2P Require Import Gates Events Registry CoreStore.
#[local] Open Scope string_scope.

Definition APPROVAL_TTL_SECONDS : Z := 3600.

Definition CANONICAL_VERDICT_APPROVE : string := "approve".
Definition CANONICAL_VERDICT_REJECT : string := "reject".
Definition _REVIEWER_REJECT_RECOMMENDATIONS : list string :=
  ["reject"; "rejected"; "request_changes"; "changes_requested"; "fail"; "failed"; "revise";
   "rework"; "no"].
Definition _REVIEWER_APPROVE_RECOMMENDATIONS : list string :=
  ["approve"; "approved"; "accept"; "accepted"; "pass"; "passed"; "yes"; "ok"].

Definition _canonical_review_verdict (recommendation : string) : string :=
  let v := lower (strip recommendation) in
  if str_in v _REVIEWER_REJECT_RECOMMENDATIONS then CANONICAL_VERDICT_REJECT
  else if str_in v _REVIEWER_APPROVE_RECOMMENDATIONS then CANONICAL_VERDICT_APPROVE
  else CANONICAL_VERDICT_REJECT.

Record ActionRequestResult : Type := mkActionRequestResult {
  ar_action : string;
  ar_scope : string;
  ar_action_class : ActionClass;
  ar_allowed : bool;
  ar_approval : option OwnerApproval;
  ar_execution_id : option string
}.

(** Command arguments, as the dict that is hashed. *)
Definition args_dict (l : list (string * pyval)) : pyval :=
  PDict (map (fun kv => (KStr (fst kv), snd kv)) l).
Definition _hash_args (args : list (string * pyval)) : res exc string :=
  s ← json_dumps_default_str (args_dict args); Ok (sha256 s).

Definition _check_source (source : string) : cmd unit :=
  raise_unless (bool_decide (classify_source source = TRUSTED)) UntrustedSource.
Definition _require_owner (source : string) : cmd unit := lift (require_owner source).

Definition _coerce_state (v : string) : cmd TaskState :=
  some_or (of_value v) InvalidTransition.
Definition _coerce_role (v : string) : cmd Role := some_or (of_value v) ValueError.
Definition _coerce_result (v : string) : cmd TestResult := some_or (of_value v) ValueError.

Definition need {A} (m : cmd (option A)) (e : exc) : cmd A := o ← m; some_or o e.

Section Core.
Context {env : Env}.

(** ** Role authorization *)
Definition _require_role_actor (task_id : string) (actor_role : Role) (source : string) : cmd unit :=
  _ ← raise_unless (String.eqb source (role_source actor_role)) PermissionDenied;
  active ← need (get_active_role_run task_id) PermissionDenied;
  raise_unless (bool_decide (rr_role active = actor_role)) PermissionDenied.

Definition _require_active_role_in (task_id : string) (allowed_roles : list Role) (source : string)
  : cmd unit :=
  active ← need (get_active_role_run task_id) PermissionDenied;
  _ ← raise_unless (in_list (rr_role active) allowed_roles) PermissionDenied;
  raise_unless (String.eqb source (role_source (rr_role active))) PermissionDenied.

Definition _require_actionable_state (task : Task) : cmd unit :=
  raise_unless (is_actionable (t_state task)) InvalidTransition.

(** ** Events and transitions *)
Definition _emit (type_ : string) (task_id role state : option string)
    (payload : list (string * pyval)) : cmd unit :=
  id ← uuid;
  created_at ← now_iso;
  _insert_event (mkEvent id type_ task_id role state
                   (map (fun kv => (KStr (fst kv), snd kv)) payload) created_at).

Definition _apply_transition (task : Task) (to_state : TaskState) (new_resume : option TaskState)
  : cmd unit :=
  at_ ← now_iso;
  _ ← _update_task_state (t_id task) to_state new_resume at_;
  _ ← _emit "task.state_changed" (Some (t_id task)) None (Some (value to_state))
        [("from_state", PStr (value (t_state task))); ("to_state", PStr (value to_state))];
  mwhen (bool_decide (to_state = DONE))
    (_emit "task.completed" (Some (t_id task)) None (Some (value DONE)) []).

Definition _check_full_binding (approval : OwnerApproval) (task_id action scope : string)
  : cmd unit :=
  _ ← raise_when (negb (String.eqb (ap_task_id approval) task_id)
                  || negb (String.eqb (ap_action approval) action)
                  || negb (String.eqb (ap_scope approval) scope)) ApprovalError;
  raise_unless (ostr_eqb (ap_binding_hash approval) (Some (binding_hash task_id action scope)))
    ApprovalError.

(** ** Idempotency *)
Definition _idempotent {A} (key : option string) (command : string) (args : list (string * pyval))
    (work : cmd (A * string)) (refetch : string -> cmd A) : cmd A :=
  args_hash ← lift (_hash_args args);
  match key with
  | None => transaction (r ← work; mret (fst r))
  | Some key =>
      transaction (
        existing ← get_command_idempotency key command;
        match existing with
        | Some (result_id, stored_hash) =>
            _ ← raise_unless (String.eqb stored_hash args_hash) IdempotencyError;
            refetch result_id
        | None =>
            r ← work;
            at_ ← now_iso;
            _ ← _set_command_idempotency key command (snd r) args_hash at_;
            mret (fst r)
        end)
  end.

(** [_refetch]: the lookup of the command's kind, which must succeed. *)
Definition _refetch {A} (lookup : string -> cmd (option A)) (result_id : string) : cmd A :=
  need (lookup result_id) IdempotencyError.

Definition _approval_binding_refetch (task_id action scope result_id : string)
  : cmd OwnerApproval :=
  ap ← need (get_approval result_id) IdempotencyError;
  _ ← _check_full_binding ap task_id action scope;
  mret ap.

Definition strip_prefix (p s : string) : option string :=
  if String.prefix p s
  then Some (String.substring (String.length p) (String.length s) s) else None.

(** A replayed [blocked:] result is [None]. *)
Definition _request_action_refetch (result_id : string) : cmd (option ActionRequestResult) :=
  match strip_prefix "approval:" result_id with
  | Some aid =>
      ap ← need (get_approval aid) IdempotencyError;
      mret (Some (mkActionRequestResult (ap_action ap) (ap_scope ap) AC_OWNER_APPROVAL_REQUIRED
                    false (Some ap) None))
  | None =>
  match strip_prefix "execution:" result_id with
  | Some eid =>
      ex ← need (get_action_execution eid) IdempotencyError;
      mret (Some (mkActionRequestResult (ex_action ex) (ex_scope ex)
                    (classify_action (ex_action ex) ALLOWED_WITH_GATE)
                    (bool_decide (ex_status ex = EX_EXECUTED)) None (Some (ex_id ex))))
  | None =>
  match strip_prefix "blocked:" result_id with
  | Some _ => mret None
  | None => raise IdempotencyError
  end end end.

Definition args_src (source : string) : string * pyval := ("source", PStr source).
Definition some_result {A B} (r : A) (id : B) : cmd (A * B) := mret (r, id).

(** ** Projects and tasks *)
Definition create_project (name source : string) (idempotency_key : option string) : cmd Project :=
  _ ← _require_owner source;
  _idempotent idempotency_key "create_project" [("name", PStr name); args_src source]
    (pid ← uuid;
     created_at ← now_iso;
     let p := mkProject pid name created_at idempotency_key in
     _ ← _insert_project p;
     mret (p, pid))
    (_refetch get_project).

Definition create_task (project_id title source : string) (idempotency_key description : option string)
    (risk_class external_actions_policy : string) : cmd Task :=
  _ ← _require_owner source;
  risk ← some_or (of_value (A := RiskClass) risk_class) ValueError;
  policy ← some_or (of_value (A := ExternalActionsPolicy) external_actions_policy) ValueError;
  _idempotent idempotency_key "create_task"
    [("project_id", PStr project_id); ("title", PStr title); args_src source;
     ("description", ostr_val description); ("risk_class", PStr (value risk));
     ("external_actions_policy", PStr (value policy))]
    (_ ← need (get_project project_id) NotFound;
     tid ← uuid;
     at_ ← now_iso;
     let t := mkTask tid project_id title NEW None source TRUSTED at_ at_ idempotency_key
                description risk policy in
     _ ← _insert_task t;
     _ ← _emit "task.created" (Some tid) None (Some (value NEW)) [("project_id", PStr project_id)];
     mret (t, tid))
    (_refetch get_task).

(** The entity a command returns after its update ([get_...] of an existing id). *)
Definition reread {A} (lookup : string -> cmd (option A)) (id : string) : cmd (option A * string) :=
  o ← lookup id; mret (o, id).
Definition _refetch_some {A} (lookup : string -> cmd (option A)) (result_id : string)
  : cmd (option A) := a ← _refetch lookup result_id; mret (Some a).

Definition transition (task_id to_state source : string) (idempotency_key : option string)
  : cmd (option Task) :=
  _ ← _check_source source;
  to ← _coerce_state to_state;
  _idempotent idempotency_key "transition"
    [("task_id", PStr task_id); ("to_state", PStr (value to)); args_src source]
    (task ← need (get_task task_id) NotFound;
     _ ← _require_role_actor task_id LEAD source;
     _ ← raise_when (is_pause (t_state task) || is_pause to) InvalidTransition;
     _ ← lift (validate_transition (t_state task) to (t_resume_state task));
     _ ← _apply_transition task to None;
     reread get_task task_id)
    (_refetch_some get_task).

Definition resume (task_id source : string) (idempotency_key : option string) : cmd (option Task) :=
  _ ← _check_source source;
  _idempotent idempotency_key "resume" [("task_id", PStr task_id); args_src source]
    (task ← need (get_task task_id) NotFound;
     _ ← _require_role_actor task_id LEAD source;
     _ ← raise_unless (bool_decide (t_state task = PAUSED)) InvalidTransition;
     rs ← some_or (t_resume_state task) InvalidTransition;
     _ ← lift (validate_transition (t_state task) rs (Some rs));
     _ ← _apply_transition task rs None;
     reread get_task task_id)
    (_refetch_some get_task).

(** ** Role runs *)
Definition models_handoff (task_id : string) (from_role to_role : Role) (created_at : string)
  : cmd Handoff :=
  id ← uuid; mret (mkHandoff id task_id from_role to_role created_at).

Definition start_role (task_id role source : string) (idempotency_key : option string)
  : cmd RoleRun :=
  _ ← _check_source source;
  role ← _coerce_role role;
  _idempotent idempotency_key "start_role"
    [("task_id", PStr task_id); ("role", PStr (value role)); args_src source]
    (task ← need (get_task task_id) NotFound;
     _ ← raise_unless (String.eqb source (role_source LEAD)) PermissionDenied;
     _ ← raise_when (is_terminal (t_state task) || is_pause (t_state task)
                     || bool_decide (t_state task = BLOCKED)) InvalidTransition;
     active ← get_active_role_run task_id;
     _ ← raise_when (bool_decide (is_Some active)) RoleConflict;
     latest ← get_latest_handoff task_id;
     let expected := match latest with None => LEAD | Some h => h_to_role h end in
     _ ← raise_unless (bool_decide (role = expected)) RoleConflict;
     rid ← uuid;
     at_ ← now_iso;
     let rr := mkRoleRun rid task_id role RR_STARTED at_ None in
     _ ← _insert_role_run rr;
     _ ← _emit "role.started" (Some task_id) (Some (value role)) None [("role", PStr (value role))];
     mret (rr, rid))
    (_refetch get_role_run).

(** The common end of [complete_role] and [fail_role]. *)
Definition finish_role (role_run_id source : string) (status : RoleRunStatus) (event : string)
    (detail : option string) : cmd (option RoleRun * string) :=
  rr ← need (get_role_run role_run_id) NotFound;
  _ ← raise_unless (bool_decide (rr_status rr = RR_STARTED)) IdempotencyError;
  _ ← raise_unless (String.eqb source (role_source (rr_role rr))) PermissionDenied;
  at_ ← now_iso;
  _ ← _update_role_run_status role_run_id status at_;
  let to_role := DEFAULT_NEXT_ROLE (rr_role rr) in
  h ← models_handoff (rr_task_id rr) (rr_role rr) to_role at_;
  _ ← _insert_handoff h;
  _ ← _emit event (Some (rr_task_id rr)) (Some (value (rr_role rr))) None
        (("role", PStr (value (rr_role rr)))
         :: match detail with Some d => [("detail", PStr d)] | None => [] end);
  _ ← _emit "handoff.created" (Some (rr_task_id rr)) None None
        [("from_role", PStr (value (rr_role rr))); ("to_role", PStr (value to_role))];
  reread get_role_run role_run_id.

Definition complete_role (role_run_id source : string) (idempotency_key : option string)
  : cmd (option RoleRun) :=
  _ ← _check_source source;
  _idempotent idempotency_key "complete_role"
    [("role_run_id", PStr role_run_id); args_src source]
    (finish_role role_run_id source RR_COMPLETED "role.completed" None)
    (_refetch_some get_role_run).

Definition fail_role (role_run_id source : string) (detail idempotency_key : option string)
  : cmd (option RoleRun) :=
  _ ← _check_source source;
  _idempotent idempotency_key "fail_role"
    [("role_run_id", PStr role_run_id); args_src source; ("detail", ostr_val detail)]
    (finish_role role_run_id source RR_FAILED "role.failed" detail)
    (_refetch_some get_role_run).

(** ** Task runs *)
Definition start_task_run (task_id source : string) (idempotency_key : option string)
  : cmd TaskRun :=
  _ ← _check_source source;
  _idempotent idempotency_key "start_task_run" [("task_id", PStr task_id); args_src source]
    (_ ← need (get_task task_id) NotFound;
     rid ← uuid;
     at_ ← now_iso;
     let tr := mkTaskRun rid task_id TR_STARTED at_ None in
     _ ← _insert_task_run tr;
     mret (tr, rid))
    (_refetch get_task_run).

Definition finish_task_run (task_run_id : string) (status : TaskRunStatus)
  : cmd (option TaskRun * string) :=
  tr ← need (get_task_run task_run_id) NotFound;
  _ ← raise_unless (bool_decide (tr_status tr = TR_STARTED)) IdempotencyError;
  at_ ← now_iso;
  _ ← _update_task_run_status task_run_id status at_;
  reread get_task_run task_run_id.

Definition complete_task_run (task_run_id source : string) (idempotency_key : option string)
  : cmd (option TaskRun) :=
  _ ← _check_source source;
  _idempotent idempotency_key "complete_task_run"
    [("task_run_id", PStr task_run_id); args_src source]
    (finish_task_run task_run_id TR_COMPLETED) (_refetch_some get_task_run).

Definition fail_task_run (task_run_id source : string) (idempotency_key : option string)
  : cmd (option TaskRun) :=
  _ ← _check_source source;
  _idempotent idempotency_key "fail_task_run"
    [("task_run_id", PStr task_run_id); args_src source]
    (finish_task_run task_run_id TR_FAILED) (_refetch_some get_task_run).

(** ** Gated actions *)
Definition request_forbidden_work (task_id action scope : string) (actor_role : Role)
    (source : string) : cmd (option ActionRequestResult * string) :=
  task ← need (get_task task_id) NotFound;
  _ ← _require_role_actor task_id actor_role source;
  _ ← _require_actionable_state task;
  eid ← uuid;
  at_ ← now_iso;
  _ ← _insert_action_execution
        (mkActionExecution eid task_id None action scope (value actor_role) EX_BLOCKED at_);
  _ ← _emit "lead.decision" (Some task_id) None None [("blocked", PBool true)];
  mret (None, "blocked:" ++ eid).

Definition request_gated_work (task_id action scope : string) (actor_role : Role)
    (source : string) : cmd (option ActionRequestResult * string) :=
  task ← need (get_task task_id) NotFound;
  _ ← _require_role_actor task_id actor_role source;
  _ ← _require_actionable_state task;
  approvals ← list_approvals task_id;
  _ ← raise_when (existsb (fun a => String.eqb (ap_action a) action
                    && String.eqb (ap_scope a) scope && is_live a) approvals) ApprovalError;
  aid ← uuid;
  at_ ← now_iso;
  expires_at ← expiry_iso APPROVAL_TTL_SECONDS;
  let ap := mkOwnerApproval aid task_id action scope AP_PENDING (value actor_role) TRUSTED at_
              None None expires_at (Some (binding_hash task_id action scope))
              None None None None in
  _ ← _insert_approval ap;
  task ← need (get_task task_id) AttributeError;
  _ ← lift (validate_transition (t_state task) OWNER_APPROVAL_REQUIRED (t_resume_state task));
  _ ← _apply_transition task OWNER_APPROVAL_REQUIRED (Some (t_state task));
  _ ← _emit "gate.owner_required" (Some task_id) None None [("approval_id", PStr aid)];
  mret (Some (mkActionRequestResult action scope AC_OWNER_APPROVAL_REQUIRED false (Some ap) None),
        "approval:" ++ aid).

Definition request_autonomous_work (task_id action scope : string) (actor_role : Role)
    (source : string) : cmd (option ActionRequestResult * string) :=
  task ← need (get_task task_id) NotFound;
  _ ← _require_role_actor task_id actor_role source;
  _ ← _require_actionable_state task;
  p ← lift (permission_for action);
  _ ← lift (check_permission actor_role (fst p) (snd p));
  eid ← uuid;
  at_ ← now_iso;
  _ ← _insert_action_execution
        (mkActionExecution eid task_id None action scope (value actor_role) EX_EXECUTED at_);
  mret (Some (mkActionRequestResult action scope AUTONOMOUS true None (Some eid)),
        "execution:" ++ eid).

Definition request_action (task_id action scope actor_role source : string)
    (idempotency_key : option string) : cmd (option ActionRequestResult) :=
  _ ← _check_source source;
  role ← _coerce_role actor_role;
  task_for_policy ← need (get_task task_id) NotFound;
  let cls := classify_action action (t_external_actions_policy task_for_policy) in
  let args := [("task_id", PStr task_id); ("action", PStr action); ("scope", PStr scope);
               ("actor_role", PStr (value role)); args_src source] in
  _ ← mwhen (bool_decide (cls = AUTONOMOUS))
        (p ← lift (permission_for action);
         match check_permission role (fst p) (snd p) with
         | Err PermissionDenied =>
             _ ← _emit "policy.role_violation" (Some task_id) (Some (value role)) None
                   [("reason", PStr "permission_denied"); ("action", PStr action)];
             raise PermissionDenied
         | r => lift r
         end);
  match cls with
  | AC_FORBIDDEN =>
      _ ← _idempotent idempotency_key "request_action" args
            (request_forbidden_work task_id action scope role source) (fun _ => mret None);
      raise ForbiddenAction
  | AC_OWNER_APPROVAL_REQUIRED =>
      _idempotent idempotency_key "request_action" args
        (request_gated_work task_id action scope role source) _request_action_refetch
  | AUTONOMOUS =>
      _idempotent idempotency_key "request_action" args
        (request_autonomous_work task_id action scope role source) _request_action_refetch
  end.

(** ** Owner gates *)
Definition _approve_work_in_transaction (ap : OwnerApproval) (task_id action scope : string)
  : cmd (option OwnerApproval) :=
  _ ← _check_full_binding ap task_id action scope;
  at_ ← now_iso;
  _ ← raise_unless (bool_decide (ap_status ap = AP_PENDING)) ApprovalError;
  _ ← raise_when (str_leb (ap_expires_at ap) at_) (ApprovalExpired (ap_id ap));
  rc ← _mark_approved (ap_id ap) at_;
  _ ← raise_when (Nat.eqb rc 0) ApprovalError;
  _ ← _emit "gate.owner_approved" (Some (ap_task_id ap)) None None
        [("approval_id", PStr (ap_id ap))];
  get_approval (ap_id ap).

Definition _reject_work_in_transaction (ap : OwnerApproval) (task_id action scope : string)
  : cmd (option OwnerApproval) :=
  _ ← _check_full_binding ap task_id action scope;
  at_ ← now_iso;
  _ ← raise_when (str_leb (ap_expires_at ap) at_) (ApprovalExpired (ap_id ap));
  rc ← _mark_rejected (ap_id ap) at_;
  _ ← raise_when (Nat.eqb rc 0) ApprovalError;
  task ← get_task (ap_task_id ap);
  _ ← match task with
      | Some task =>
          mwhen (bool_decide (t_state task = OWNER_APPROVAL_REQUIRED))
            (_ ← lift (validate_transition (t_state task) BLOCKED (t_resume_state task));
             _apply_transition task BLOCKED None)
      | None => mret tt
      end;
  _ ← _emit "gate.owner_rejected" (Some (ap_task_id ap)) None None
        [("approval_id", PStr (ap_id ap))];
  get_approval (ap_id ap).

Definition _expire_and_release (approval_id : string) : cmd unit :=
  at_ ← now_iso;
  _ ← _mark_expired approval_id at_;
  ap ← get_approval approval_id;
  match ap with
  | None => mret tt
  | Some ap =>
      task ← get_task (ap_task_id ap);
      match task with
      | None => mret tt
      | Some task =>
          if negb (bool_decide (t_state task = OWNER_APPROVAL_REQUIRED)) then mret tt
          else
            match t_resume_state task with
            | Some r =>
                if is_valid_resume_target (Some r) then
                  _ ← lift (validate_transition (t_state task) r (t_resume_state task));
                  _apply_transition task r None
                else
                  _ ← lift (validate_transition (t_state task) BLOCKED (t_resume_state task));
                  _apply_transition task BLOCKED None
            | None =>
                _ ← lift (validate_transition (t_state task) BLOCKED (t_resume_state task));
                _apply_transition task BLOCKED None
            end
      end
  end.

(** [except _ApprovalExpired]: the approval is expired and its task released in
    a transaction of their own, then the command fails. *)
Definition or_expire {A} (m : cmd A) : cmd A := fun s =>
  match m s with
  | (Err (ApprovalExpired approval_id), s') =>
      (_ ← transaction (_expire_and_release approval_id); raise ApprovalError) s'
  | r => r
  end.

Definition gate_args (approval_id task_id action scope source : string) : list (string * pyval) :=
  [("approval_id", PStr approval_id); ("task_id", PStr task_id); ("action", PStr action);
   ("scope", PStr scope); args_src source].
Definition binding_refetch_some (task_id action scope result_id : string)
  : cmd (option OwnerApproval) :=
  ap ← _approval_binding_refetch task_id action scope result_id; mret (Some ap).

Definition approve (approval_id source task_id action scope : string)
    (idempotency_key : option string) : cmd (option OwnerApproval) :=
  _ ← _require_owner source;
  or_expire (_idempotent idempotency_key "approve" (gate_args approval_id task_id action scope source)
    (ap ← need (get_approval approval_id) ApprovalError;
     r ← _approve_work_in_transaction ap task_id action scope;
     mret (r, approval_id))
    (binding_refetch_some task_id action scope)).

Definition reject (approval_id source task_id action scope : string)
    (idempotency_key : option string) : cmd (option OwnerApproval) :=
  _ ← _require_owner source;
  or_expire (_idempotent idempotency_key "reject" (gate_args approval_id task_id action scope source)
    (ap ← need (get_approval approval_id) ApprovalError;
     r ← _reject_work_in_transaction ap task_id action scope;
     mret (r, approval_id))
    (binding_refetch_some task_id action scope)).

Definition execute_work (approval_id task_id action scope : string)
  : cmd (option OwnerApproval * string) :=
  ap ← need (get_approval approval_id) ApprovalError;
  _ ← _check_full_binding ap task_id action scope;
  at_ ← now_iso;
  _ ← raise_unless (bool_decide (ap_status ap = AP_APPROVED)) ApprovalError;
  _ ← raise_when (str_leb (ap_expires_at ap) at_) (ApprovalExpired approval_id);
  _ ← raise_when (bool_decide (classify_action (ap_action ap) ALLOWED_WITH_GATE = AC_FORBIDDEN))
        ForbiddenAction;
  _ ← raise_unless (bool_decide (ap_source_class ap = TRUSTED)) ApprovalError;
  eid ← uuid;
  created_at ← now_iso;
  _ ← _insert_action_execution
        (mkActionExecution eid (ap_task_id ap) (Some approval_id) (ap_action ap) (ap_scope ap)
           (ap_requested_by ap) EX_EXECUTED created_at);
  rc ← _consume_approval_with_execution approval_id at_ eid;
  _ ← raise_when (Nat.eqb rc 0) ApprovalError;
  task ← get_task (ap_task_id ap);
  _ ← match task with
      | Some task =>
          mwhen (bool_decide (t_state task = OWNER_APPROVAL_REQUIRED))
            match t_resume_state task with
            | Some r =>
                _ ← lift (validate_transition (t_state task) r (t_resume_state task));
                _apply_transition task r None
            | None => mret tt
            end
      | None => mret tt
      end;
  reread get_approval approval_id.

Definition execute_approved (approval_id source task_id action scope : string)
    (idempotency_key : option string) : cmd (option OwnerApproval) :=
  _ ← _require_owner source;
  or_expire (_idempotent idempotency_key "execute_approved"
    (gate_args approval_id task_id action scope source)
    (execute_work approval_id task_id action scope)
    (binding_refetch_some task_id action scope)).

(** ** Findings, tests, reviews, decisions *)
Definition add_finding (task_id severity description source : string)
    (idempotency_key : option string) : cmd Finding :=
  _ ← _check_source source;
  _idempotent idempotency_key "add_finding"
    [("task_id", PStr task_id); ("severity", PStr severity); ("description", PStr description);
     args_src source]
    (_ ← need (get_task task_id) NotFound;
     _ ← _require_active_role_in task_id [REVIEWER; QA] source;
     fid ← uuid;
     at_ ← now_iso;
     let f := mkFinding fid task_id severity description F_OPEN at_ None
                (Some SOURCE_CLASS_CONTROLLER) in
     _ ← _insert_finding f;
     _ ← _emit "finding.created" (Some task_id) None None
           [("finding_id", PStr fid); ("severity", PStr severity)];
     mret (f, fid))
    (_refetch get_finding).

Definition resolve_finding (finding_id source : string) (idempotency_key : option string)
  : cmd (option Finding) :=
  _ ← _check_source source;
  _idempotent idempotency_key "resolve_finding" [("finding_id", PStr finding_id); args_src source]
    (f ← need (get_finding finding_id) NotFound;
     _ ← _require_active_role_in (f_task_id f) [REVIEWER; QA] source;
     _ ← raise_unless (bool_decide (f_status f = F_OPEN)) IdempotencyError;
     at_ ← now_iso;
     _ ← _update_finding_status finding_id F_RESOLVED at_;
     _ ← _emit "finding.resolved" (Some (f_task_id f)) None None [("finding_id", PStr finding_id)];
     reread get_finding finding_id)
    (_refetch_some get_finding).

Definition record_test_run (task_id result source : string) (detail idempotency_key : option string)
  : cmd TestRun :=
  _ ← _check_source source;
  result ← _coerce_result result;
  _idempotent idempotency_key "record_test_run"
    [("task_id", PStr task_id); ("result", PStr (value result)); args_src source;
     ("detail", ostr_val detail)]
    (_ ← need (get_task task_id) NotFound;
     _ ← _require_active_role_in task_id [QA; IMPLEMENTER] source;
     rid ← uuid;
     at_ ← now_iso;
     let tr := mkTestRun rid task_id result detail at_ (Some SOURCE_CLASS_CONTROLLER) in
     _ ← _insert_test_run tr;
     _ ← _emit "test.started" (Some task_id) None None [("test_run_id", PStr rid)];
     _ ← _emit "test.completed" (Some task_id) None None
           [("test_run_id", PStr rid); ("result", PStr (value result))];
     mret (tr, rid))
    (_refetch get_test_run).

Definition record_review (task_id verdict source : string) (detail idempotency_key : option string)
  : cmd Review :=
  _ ← _check_source source;
  _idempotent idempotency_key "record_review"
    [("task_id", PStr task_id); ("verdict", PStr verdict); args_src source;
     ("detail", ostr_val detail)]
    (_ ← need (get_task task_id) NotFound;
     _ ← _require_active_role_in task_id [REVIEWER] source;
     rid ← uuid;
     at_ ← now_iso;
     let rv := mkReview rid task_id (_canonical_review_verdict verdict) detail at_
                 (Some SOURCE_CLASS_CONTROLLER) in
     _ ← _insert_review rv;
     _ ← _emit "review.started" (Some task_id) None None [("review_id", PStr rid)];
     _ ← _emit "review.completed" (Some task_id) None None
           [("review_id", PStr rid); ("verdict", PStr (_canonical_review_verdict verdict))];
     mret (rv, rid))
    (_refetch get_review).

Definition record_decision (task_id decision source : string) (detail idempotency_key : option string)
  : cmd Decision :=
  _ ← _check_source source;
  _idempotent idempotency_key "record_decision"
    [("task_id", PStr task_id); ("decision", PStr decision); args_src source;
     ("detail", ostr_val detail)]
    (_ ← need (get_task task_id) NotFound;
     _ ← _require_role_actor task_id LEAD source;
     did ← uuid;
     at_ ← now_iso;
     let d := mkDecision did task_id decision detail at_ in
     _ ← _insert_decision d;
     _ ← _emit "lead.decision" (Some task_id) None None [("decision_id", PStr did)];
     mret (d, did))
    (_refetch get_decision).
End Core.
