(* ===== verification/Dispatch.v ===== *)
(** * Dispatch: the orchestration layer of the core
    (src/argent_core/core.py: workflow frontier, dispatches, agent results,
    state synchronisation, recovery). *)
From S2P Require Import Prelude PyVal Models Json Canonical Timestamps StateMachine Trust Workflow.
From S2P Require Import Gates Events Outputs JobState Registry CoreStore Core.
#[local] Open Scope string_scope.

Record RecoveryReport : Type := mkRecoveryReport {
  rp_interrupted_role_runs : Z;
  rp_interrupted_task_runs : Z;
  rp_rolled_back : list (string * string * string);
  rp_recovery_pending_dispatches : Z
}.
Record ReceiveResult : Type := mkReceiveResult {
  rc_dispatch_id : string;
  rc_status : string;
  rc_reason : option string
}.

(** ** Pure helpers *)
Definition _parse_decision_detail (detail : option string) : pydict :=
  match detail with
  | None => []
  | Some s =>
      if negb (truthy s) then []
      else match json_loads s with Ok (PDict d) => d | _ => [] end
  end.

Fixpoint _rework_include_for_cycle (cycle_no : Z) (rev_decisions : list Decision)
    (open_findings : bool) : bool :=
  match rev_decisions with
  | [] => rework_include_reviewer None open_findings
  | d :: ds =>
      let detail := _parse_decision_detail (dc_detail d) in
      if String.eqb (dc_decision d) "rework" && py_eq_int (dget0 detail "cycle_no") (cycle_no - 1)
      then rework_include_reviewer (Some detail) open_findings
      else _rework_include_for_cycle cycle_no ds open_findings
  end.

Definition max_cycle (l : list AgentDispatch) : Z :=
  match l with
  | [] => 0
  | d :: ds => fold_left (fun m x => Z.max m (d_cycle_no x)) ds (d_cycle_no d)
  end.

(** The first position of the sequence that is not consumed. *)
Fixpoint first_open (seq : list Role) (pos : Z) (consumed : list Z) : option (Z * Role) :=
  match seq with
  | [] => None
  | r :: rest =>
      if existsb (Z.eqb pos) consumed then first_open rest (pos + 1) consumed
      else Some (pos, r)
  end.

Definition frontier_of (dispatches : list AgentDispatch) (open_findings : bool)
    (decisions : list Decision) : WorkflowFrontier :=
  match last dispatches with
  | None => mkWorkflowFrontier 1 0 STANDARD true (Some LEAD)
  | Some _ =>
      let mc := max_cycle dispatches in
      let in_cycle := List.filter (fun d => Z.eqb (d_cycle_no d) mc) dispatches in
      let kind := match last in_cycle with Some d => d_sequence_kind d | None => STANDARD end in
      let normal :=
        let include_reviewer :=
          match kind with
          | REWORK_SEQ => _rework_include_for_cycle mc (rev decisions) open_findings
          | STANDARD => true
          end in
        let consumed := map d_position
          (List.filter (fun d => bool_decide (d_status d = DCONSUMED)) in_cycle) in
        let seq := effective_sequence kind include_reviewer in
        match first_open seq 0 consumed with
        | Some (pos, r) => mkWorkflowFrontier mc pos kind include_reviewer (Some r)
        | None => mkWorkflowFrontier mc (Z.of_nat (List.length seq)) kind include_reviewer None
        end in
      match last decisions with
      | Some ld =>
          let detail := _parse_decision_detail (dc_detail ld) in
          if String.eqb (dc_decision ld) "rework" && py_eq_int (dget0 detail "cycle_no") mc
          then mkWorkflowFrontier (mc + 1) 0 REWORK_SEQ
                 (rework_include_reviewer (Some detail) open_findings) (Some LEAD)
          else normal
      | None => normal
      end
  end.

Definition db_frontier (task_id : string) (db : DB) : WorkflowFrontier :=
  frontier_of (task_dispatches task_id db)
    (existsb (fun f => bool_decide (f_status f = F_OPEN)) (of_task f_task_id task_id (db_findings db)))
    (of_task dc_task_id task_id (db_decisions db)).

(** [{0: (NEW, PLANNING), ...}.get(pos)]. *)
Definition standard_step (pos : Z) : list (TaskState * TaskState) :=
  if Z.eqb pos 0 then [(NEW, PLANNING)]
  else if Z.eqb pos 1 then [(PLANNING, ANALYZING)]
  else if Z.eqb pos 2 then [(ANALYZING, LEAD_DECISION)]
  else if Z.eqb pos 3 then [(LEAD_DECISION, IMPLEMENTING)]
  else if Z.eqb pos 4 then [(IMPLEMENTING, TESTING)]
  else if Z.eqb pos 5 then [(TESTING, REVIEWING)]
  else if Z.eqb pos 6 then [(REVIEWING, FINAL_DECISION)]
  else [].

Definition rework_step (role : Role) (pos : Z) (current_state : TaskState)
  : list (TaskState * TaskState) :=
  match role with
  | IMPLEMENTER => [(REWORK, IMPLEMENTING)]
  | QA => [(IMPLEMENTING, TESTING)]
  | REVIEWER => [(TESTING, REVIEWING)]
  | LEAD =>
      if (0 <? pos)%Z then
        match current_state with
        | REVIEWING => [(REVIEWING, FINAL_DECISION)]
        | TESTING => [(TESTING, REVIEWING); (REVIEWING, FINAL_DECISION)]
        | _ => []
        end
      else []
  | ANALYST => []
  end.

Definition is_dec (decision : option string) (s : string) : bool := ostr_eqb decision (Some s).

Definition _state_sync_plan (d : AgentDispatch) (decision : option string)
    (current_state : TaskState) : list (TaskState * TaskState) :=
  let kind := d_sequence_kind d in
  let pos := d_position d in
  let role := d_role d in
  let base := match kind with
              | STANDARD => standard_step pos
              | REWORK_SEQ => rework_step role pos current_state
              end in
  let final_lead := match kind with
                    | STANDARD => Z.eqb pos 6
                    | REWORK_SEQ => bool_decide (role = LEAD) && (0 <? pos)%Z
                    end in
  let standard := bool_decide (kind = STANDARD) in
  let decided :=
    if negb (bool_decide (role = LEAD)) then []
    else if standard && Z.eqb pos 0 && is_dec decision "rework" then [(PLANNING, REWORK)]
    else if standard && Z.eqb pos 2 then
      if is_dec decision "rework" then [(LEAD_DECISION, REWORK)]
      else if is_dec decision "cancel" then [(LEAD_DECISION, CANCELLED)]
      else []
    else if final_lead then
      if is_dec decision "accept" then [(FINAL_DECISION, DONE)]
      else if is_dec decision "rework" then [(FINAL_DECISION, REWORK)]
      else if is_dec decision "cancel" then [(FINAL_DECISION, CANCELLED)]
      else []
    else if negb standard && Z.eqb pos 0 && is_dec decision "cancel" then [(REWORK, CANCELLED)]
    else [] in
  (base ++ decided)%list.

(** *** Metadata checks *)
Definition _SANITIZE_VALUE_LIMIT : Z := 512.
Definition _redact_event_value (value : string) : string :=
  "<redacted:" ++ String.substring 0 12 (sha256 value) ++ ">".
Definition clean_value (v : pyval) : string :=
  let s := match v with PNone => "<none>" | _ => py_str v end in
  let s := if (_SANITIZE_VALUE_LIMIT <? str_len s)%Z
           then String.substring 0 (Z.to_nat _SANITIZE_VALUE_LIMIT) s else s in
  match scan_value_for_denylist (PStr s) with Some _ => _redact_event_value s | None => s end.
Definition _sanitize_event_meta (event_meta : pyval) : pydict :=
  match event_meta with
  | PDict m =>
      [(KStr "session_key", PStr (clean_value (dget0 m "child_session_id")));
       (KStr "run_id", PStr (clean_value (dget0 m "run_id")));
       (KStr "event_type", PStr (clean_value (dget0 m "event_type")));
       (KStr "status", PStr (clean_value (dget0 m "status")))]
  | _ => []
  end.

Definition META_KEYS : list string :=
  ["task_id"; "child_session_id"; "run_id"; "parent_dispatch_id"; "event_type"; "status"].
Definition _event_meta_mismatch (d : AgentDispatch) (event_meta : pyval) : option string :=
  match event_meta with
  | PDict m =>
      if negb (forallb (dhas m) META_KEYS) then Some "missing_metadata"
      else if negb (is_str (dget0 m "task_id") (d_task_id d)) then Some "task_mismatch"
      else if negb (eq_ostr (dget0 m "child_session_id") (d_child_session_id d))
      then Some "session_mismatch"
      else if negb (eq_ostr (dget0 m "run_id") (d_openclaw_run_id d)) then Some "run_id_mismatch"
      else if negb (eq_ostr (dget0 m "parent_dispatch_id") (d_parent_dispatch_id d))
      then Some "parent_mismatch"
      else if negb (is_str (dget0 m "status") "completed" || is_str (dget0 m "status") "succeeded")
      then Some "invalid_status"
      else None
  | _ => Some "missing_metadata"
  end.
Definition _result_envelope_mismatch (d : AgentDispatch) (result : pyval) : option string :=
  match result with
  | PDict r =>
      if negb (is_str (dget0 r "task_id") (d_task_id d)) then Some "task_mismatch"
      else if negb (is_str (dget0 r "dispatch_id") (d_id d)) then Some "dispatch_mismatch"
      else if negb (is_str (dget0 r "role") (value (d_role d))) then Some "role_mismatch"
      else None
  | _ => Some "malformed_output"
  end.
Definition _model_mismatch (d : AgentDispatch) : option string :=
  if negb (ostr_eqb (d_actual_provider d) (Some (d_expected_agent_class d)))
  then Some "provider_mismatch"
  else if negb (ostr_eqb (d_actual_model d) (Some (d_expected_model_class d)))
  then Some "model_mismatch"
  else if negb (ostr_eqb (d_thinking_tier d) (Some (d_expected_thinking_tier d)))
  then Some "thinking_mismatch"
  else None.

(** [validated.get(field) or []], for a list field. *)
Definition list_field (d : pydict) (field : string) : list pyval := elements (dget0 d field).
Definition text_elements (l : list pyval) : list string :=
  omap (fun v => match v with PStr s => Some s | _ => None end) l.
Definition str_opt (v : pyval) : option string := match v with PStr s => Some s | _ => None end.

(** The policy check on a model choice whose entries may be any value. *)
Definition choice_ok (role : Role) (provider model thinking : pyval) (risk : RiskClass) : bool :=
  match provider, model with
  | PStr p, PStr m =>
      validate_model_choice role p m
        (match thinking with PStr t => t | _ => EmptyString end) risk
  | _, _ => false
  end.

Section Dispatch.
Context {env : Env}.

(** The text SQLite stores for a value bound to a TEXT column. *)
Definition column_text (v : pyval) : res exc (option string) :=
  match v with
  | PNone => Ok None
  | PStr s => Ok (Some s)
  | PBool b => Ok (Some (if b then "1" else "0"))
  | PInt z => if (- 2 ^ 63 <=? z)%Z && (z <? 2 ^ 63)%Z then Ok (Some (z_text z)) else Err OverflowError
  | PFloat f => Ok (sqlite_float f)
  | _ => Err SqliteError
  end.

Definition _require_controller (source : string) : cmd unit :=
  _ ← _check_source source;
  raise_unless (String.eqb source (role_source LEAD)) PermissionDenied.

Definition _workflow_frontier (task_id : string) : cmd WorkflowFrontier :=
  query (db_frontier task_id).

Definition workflow_frontier (task_id source : string) : cmd WorkflowFrontier :=
  _ ← _require_controller source;
  _ ← need (get_task task_id) NotFound;
  _workflow_frontier task_id.
Definition expected_next_role (task_id source : string) : cmd (option Role) :=
  f ← workflow_frontier task_id source; mret (wf_expected_role f).

(** ** create_dispatch *)
Definition resolve_identity (role : Role) (task_id : string) (risk : RiskClass)
    (model_choice : option pydict) (routing_decision : option RoutingDecision)
  : cmd (pyval * pyval * pyval) :=
  match model_choice, routing_decision with
  | None, Some rd =>
      match rd_provider rd, rd_model rd, rd_thinking_tier rd with
      | Some p, Some m, Some t => mret (PStr p, PStr m, PStr t)
      | _, _, _ =>
          _ ← _emit "policy.role_violation" (Some task_id) (Some (value role)) None
                [("reason", PStr "router_decision_terminal")];
          raise RolePolicyViolation
      end
  | None, None =>
      let '(p, m, t) := resolve_model role risk in mret (PStr p, PStr m, PStr t)
  | Some c, _ => mret (dget0 c "provider", dget0 c "model", dget0 c "thinking_tier")
  end.

Definition routing_row (rd : RoutingDecision) (provider model : option string) (created_at : string)
  : RoutingRow :=
  mkRoutingRow (rd_decision_id rd) (rd_job_id rd) provider model (rd_reasoning_level rd)
    (rd_escalation_level rd) (rd_decision_reason_code rd) (rd_policy_version rd)
    (rd_requirements_hash rd) (enc (PList (map PStr (rd_evidence_refs rd)))) (rd_sha256 rd)
    (rd_registry_version rd) (rd_evidence_version rd) (rd_policy_hash rd) (rd_registry_hash rd)
    (rd_evidence_hash rd) (rd_inputs_hash rd) created_at.

Definition dispatch_work (task_id task_run_id : string) (role : Role) (position cycle_no : Z)
    (sequence_kind : SequenceKind) (identity : pyval * pyval * pyval)
    (parent_dispatch_id : option string) (routing_decision : option RoutingDecision)
  : cmd (AgentDispatch * string) :=
  let '(provider, model, thinking) := identity in
  task ← need (get_task task_id) NotFound;
  active ← need (get_active_role_run task_id) PermissionDenied;
  _ ← raise_unless (bool_decide (rr_role active = role)) PermissionDenied;
  _ ← raise_when (is_terminal (t_state task) || is_pause (t_state task)) InvalidTransition;
  frontier ← _workflow_frontier task_id;
  _ ← raise_unless (bool_decide (wf_expected_role frontier = Some role)) RoleConflict;
  _ ← raise_when (negb (Z.eqb cycle_no (wf_cycle_no frontier))
                  || negb (Z.eqb position (wf_position frontier))
                  || negb (bool_decide (sequence_kind = wf_sequence_kind frontier))) DispatchError;
  ds ← list_dispatches (Some task_id) None;
  _ ← raise_when (existsb is_active ds) DispatchError;
  tr ← need (get_task_run task_run_id) DispatchError;
  _ ← raise_unless (String.eqb (tr_task_id tr) task_id) DispatchError;
  _ ← match parent_dispatch_id with
      | Some p => _ ← need (get_dispatch p) DispatchError; mret tt
      | None => mret tt
      end;
  let existing := List.filter (fun d => Z.eqb (d_cycle_no d) cycle_no
                                        && Z.eqb (d_position d) position) ds in
  let attempt_no := (Z.of_nat (List.length existing) + 1)%Z in
  latest ← get_latest_handoff task_id;
  _ ← lift (validate_identity registry (str_opt provider) (str_opt model));
  _ ← match routing_decision with
      | Some rd =>
          created_at ← now_iso;
          _insert_routing_decision (routing_row rd (str_opt provider) (str_opt model) created_at)
      | None => mret tt
      end;
  did ← uuid;
  created_at ← now_iso;
  p ← (t ← lift (column_text provider); some_or t IntegrityError);
  m ← (t ← lift (column_text model); some_or t IntegrityError);
  th ← (t ← lift (column_text thinking); some_or t IntegrityError);
  let d := mkAgentDispatch did task_id task_run_id role parent_dispatch_id p m th
             None None None None None DPENDING cycle_no position sequence_kind attempt_no
             (h_id <$> latest) None created_at None None (rd_decision_id <$> routing_decision)
             (match routing_decision with Some rd => rd_escalation_level rd | None => 0%Z end)
             (rd_decision_reason_code <$> routing_decision) None in
  _ ← _insert_dispatch d;
  _ ← _emit "agent.dispatch_created" (Some task_id) (Some (value role)) None
        [("dispatch_id", PStr did); ("position", PInt position); ("cycle_no", PInt cycle_no)];
  _ ← _emit "handoff.expected" (Some task_id) (Some (value role)) None
        [("dispatch_id", PStr did)];
  mret (d, did).

Definition create_dispatch (task_id task_run_id role : string) (position cycle_no : Z)
    (sequence_kind : string) (model_choice : option pydict) (source : string)
    (parent_dispatch_id idempotency_key : option string)
    (routing_decision : option RoutingDecision) : cmd AgentDispatch :=
  _ ← _require_controller source;
  role ← _coerce_role role;
  _ ← match routing_decision with
      | Some rd =>
          _ ← mwhen (bool_decide (is_Some model_choice))
                (_ ← _emit "policy.role_violation" (Some task_id) (Some (value role)) None
                       [("reason", PStr "model_choice_and_decision")];
                 raise RolePolicyViolation);
          lift (_validate_routing_decision rd task_id role)
      | None => mret tt
      end;
  kind ← some_or (of_value (A := SequenceKind) sequence_kind) ValueError;
  let args := [("task_id", PStr task_id); ("task_run_id", PStr task_run_id);
               ("role", PStr (value role)); ("position", PInt position); ("cycle_no", PInt cycle_no);
               ("sequence_kind", PStr (value kind));
               ("model_choice", match model_choice with Some c => PDict c | None => PNone end);
               args_src source; ("parent_dispatch_id", ostr_val parent_dispatch_id);
               ("routing_decision_id", ostr_val (rd_decision_id <$> routing_decision))] in
  task0 ← need (get_task task_id) NotFound;
  identity ← resolve_identity role task_id (t_risk_class task0) model_choice routing_decision;
  let '(provider, model, thinking) := identity in
  _ ← mwhen (bool_decide (routing_decision = None)
             && negb (choice_ok role provider model thinking (t_risk_class task0)))
        (_ ← _emit "policy.role_violation" (Some task_id) (Some (value role)) None
               [("reason", PStr "model_choice")];
         raise RolePolicyViolation);
  _idempotent idempotency_key "create_dispatch" args
    (dispatch_work task_id task_run_id role position cycle_no kind identity parent_dispatch_id
       routing_decision)
    (_refetch get_dispatch).

(** ** bind_spawn_result *)
Inductive bind_outcome : Type :=
| Replayed (d : AgentDispatch)
| Rejected
| Bound.

Definition on_integrity_error {A} (e : exc) (m : cmd A) : cmd A := fun s =>
  match m s with
  | (Err IntegrityError, s') => (Err e, s')
  | r => r
  end.

Definition bind_policy_ok (d : AgentDispatch) (actual_provider actual_model thinking_tier : string)
  : cmd bool :=
  match d_routing_decision_id d with
  | Some _ => mret true
  | None =>
      task ← need (get_task (d_task_id d)) AttributeError;
      mret (validate_model_choice (d_role d) actual_provider actual_model thinking_tier
              (t_risk_class task))
  end.

Definition bind_work (dispatch_id child_session_id openclaw_run_id actual_provider actual_model
    thinking_tier : string) : cmd bind_outcome :=
  d ← need (get_dispatch dispatch_id) NotFound;
  _ ← raise_unless (bindable d) DispatchError;
  policy_ok ← bind_policy_ok d actual_provider actual_model thinking_tier;
  let exact_ok := String.eqb actual_provider (d_expected_agent_class d)
                  && String.eqb actual_model (d_expected_model_class d)
                  && String.eqb thinking_tier (d_expected_thinking_tier d) in
  if negb policy_ok || negb exact_ok then
    rc ← _reject_dispatch_cas dispatch_id;
    _ ← raise_unless (Nat.eqb rc 1) DispatchError;
    _ ← _emit "policy.role_violation" (Some (d_task_id d)) (Some (value (d_role d))) None
          [("reason", PStr "model_mismatch")];
    mret Rejected
  else
    at_ ← now_iso;
    rc ← on_integrity_error DispatchError
           (_update_dispatch_bind dispatch_id child_session_id openclaw_run_id actual_provider
              actual_model thinking_tier at_);
    _ ← raise_unless (Nat.eqb rc 1) DispatchError;
    _ ← _emit "agent.started" (Some (d_task_id d)) (Some (value (d_role d))) None
          [("dispatch_id", PStr dispatch_id)];
    mret Bound.

Definition bind_spawn_result (dispatch_id child_session_id openclaw_run_id actual_provider
    actual_model thinking_tier source : string) (idempotency_key : option string)
  : cmd (option AgentDispatch) :=
  _ ← _require_controller source;
  args_hash ← lift (_hash_args
    [("dispatch_id", PStr dispatch_id); ("child_session_id", PStr child_session_id);
     ("openclaw_run_id", PStr openclaw_run_id); ("actual_provider", PStr actual_provider);
     ("actual_model", PStr actual_model); ("thinking_tier", PStr thinking_tier);
     args_src source]);
  let work := bind_work dispatch_id child_session_id openclaw_run_id actual_provider actual_model
                thinking_tier in
  outcome ← transaction
    match idempotency_key with
    | None => work
    | Some key =>
        existing ← get_command_idempotency key "bind_spawn_result";
        match existing with
        | Some (result_id, stored_hash) =>
            _ ← raise_unless (String.eqb stored_hash args_hash) IdempotencyError;
            d ← _refetch get_dispatch result_id;
            mret (Replayed d)
        | None =>
            r ← work;
            at_ ← now_iso;
            _ ← _set_command_idempotency key "bind_spawn_result" dispatch_id args_hash at_;
            mret r
        end
    end;
  match outcome with
  | Replayed d => mret (Some d)
  | Rejected => raise RolePolicyViolation
  | Bound => get_dispatch dispatch_id
  end.

(** ** receive_agent_result *)
Definition _quarantine (task_id : pyval) (dispatch_id reason : string) (event_meta : pyval)
  : cmd unit :=
  qid ← uuid;
  meta ← lift (json_dumps (PDict (_sanitize_event_meta event_meta)));
  created_at ← now_iso;
  tid ← lift (column_text task_id);
  _insert_quarantine (mkAgentResultQuarantine qid tid (Some dispatch_id) reason meta created_at).

Definition _emit_rejected (task_id : pyval) (reason dispatch_id : string) : cmd unit :=
  tid ← lift (column_text task_id);
  _emit "agent.result_rejected" tid None None
    [("reason", PStr reason); ("dispatch_id", PStr dispatch_id)].

(** Quarantine, rejection event and result of a refused delivery. *)
Definition refuse (task_id : pyval) (dispatch_id reason status : string) (event_meta : pyval)
  : cmd ReceiveResult :=
  _ ← _quarantine task_id dispatch_id reason event_meta;
  _ ← _emit_rejected task_id reason dispatch_id;
  mret (mkReceiveResult dispatch_id status (Some reason)).

Definition _validate_effect_bindings (task_id : string) (validated : pydict) : cmd unit :=
  mfor ["accepted_findings"; "rejected_findings"] (fun field =>
    mfor (text_elements (list_field validated field)) (fun fid =>
      f ← need (get_finding fid) DispatchError;
      raise_unless (String.eqb (f_task_id f) task_id) DispatchError)).

Definition effect_findings (d : AgentDispatch) (validated : pydict) (at_ : string) : cmd unit :=
  mfor (list_field validated "findings") (fun f =>
    match f with
    | PDict f =>
        fid ← uuid;
        let severity := py_str (match dget f "severity" with Some v => v | None => PStr "medium" end) in
        let description := dget0 f "description" in
        let description := if py_truthy description then description
                           else if py_truthy (dget0 f "title") then dget0 f "title"
                           else PStr EmptyString in
        _ ← _insert_finding (mkFinding fid (d_task_id d) severity (py_str description) F_OPEN at_
                               None (Some SOURCE_CLASS_AGENT));
        _emit "finding.created" (Some (d_task_id d)) None None
          [("finding_id", PStr fid); ("severity", PStr severity)]
    | _ => mret tt
    end).

Definition get_or (d : pydict) (field : string) (default : pyval) : pyval :=
  match dget d field with Some v => v | None => default end.

Definition effect_lead (d : AgentDispatch) (validated : pydict) (at_ : string) : cmd unit :=
  decision ← some_or (str_opt (dget0 validated "decision")) KeyError;
  detail ← lift (json_dumps (args_dict
    [("rationale", get_or validated "rationale" (PStr EmptyString));
     ("rework_include_reviewer", dget0 validated "rework_include_reviewer");
     ("accepted_findings", get_or validated "accepted_findings" (PList []));
     ("rejected_findings", get_or validated "rejected_findings" (PList []));
     ("cycle_no", PInt (d_cycle_no d)); ("position", PInt (d_position d))]));
  did ← uuid;
  _ ← _insert_decision (mkDecision did (d_task_id d) decision (Some detail) at_);
  _ ← _emit "lead.decision" (Some (d_task_id d)) None None
        [("decision_id", PStr did); ("decision", PStr decision)];
  mwhen (String.eqb decision "accept")
    (mfor (text_elements (list_field validated "accepted_findings")) (fun fid =>
       f ← get_finding fid;
       match f with
       | Some f =>
           mwhen (bool_decide (f_status f = F_OPEN))
             (_ ← _update_finding_status fid F_RESOLVED at_;
              _emit "finding.resolved" (Some (d_task_id d)) None None [("finding_id", PStr fid)])
       | None => mret tt
       end)).

Definition effect_test (d : AgentDispatch) (at_ : string) (t : pyval) : cmd unit :=
  let '(name, result) :=
    match t with
    | PDict t => (py_str (get_or t "name" (PStr EmptyString)),
                  py_str (get_or t "result" (PStr "passed")))
    | PStr s => (EmptyString, s)
    | _ => (EmptyString, "passed")
    end in
  id ← uuid;
  res ← _coerce_result result;
  _ ← _insert_test_run (mkTestRun id (d_task_id d) res
        (if truthy name then Some name else None) at_ (Some SOURCE_CLASS_AGENT));
  _ ← _emit "test.started" (Some (d_task_id d)) None None [("test_run_id", PStr id)];
  _emit "test.completed" (Some (d_task_id d)) None None
    [("test_run_id", PStr id); ("result", PStr (value res))].

Definition effect_review (d : AgentDispatch) (validated : pydict) (at_ : string) : cmd unit :=
  rid ← uuid;
  let recommendation := py_str (get_or validated "recommendation" (PStr EmptyString)) in
  let verdict := _canonical_review_verdict recommendation in
  detail ← lift (json_dumps (args_dict
    [("severity", get_or validated "severity" (PStr EmptyString));
     ("security_findings", get_or validated "security_findings" (PList []));
     ("architecture_findings", get_or validated "architecture_findings" (PList []));
     ("recommendation", PStr recommendation)]));
  _ ← _insert_review (mkReview rid (d_task_id d) verdict (Some detail) at_ (Some SOURCE_CLASS_AGENT));
  _ ← _emit "review.started" (Some (d_task_id d)) None None [("review_id", PStr rid)];
  _emit "review.completed" (Some (d_task_id d)) None None
    [("review_id", PStr rid); ("verdict", PStr verdict)].

Definition _apply_role_effects (d : AgentDispatch) (validated : pydict) : cmd unit :=
  at_ ← now_iso;
  _ ← effect_findings d validated at_;
  match d_role d with
  | LEAD => effect_lead d validated at_
  | QA => mfor (list_field validated "tests") (effect_test d at_)
  | REVIEWER => effect_review d validated at_
  | _ => mret tt
  end.

Definition _complete_active_role (d : AgentDispatch) : cmd unit :=
  active ← get_active_role_run (d_task_id d);
  match active with
  | Some a =>
      mwhen (bool_decide (rr_role a = d_role d))
        (at_ ← now_iso;
         _ ← _update_role_run_status (rr_id a) RR_COMPLETED at_;
         _emit "role.completed" (Some (d_task_id d)) (Some (value (d_role d))) None
           [("role", PStr (value (d_role d)))])
  | None => mret tt
  end.

Definition _sequence_handoff (d : AgentDispatch) : cmd unit :=
  frontier ← _workflow_frontier (d_task_id d);
  match wf_expected_role frontier with
  | Some nxt =>
      at_ ← now_iso;
      h ← models_handoff (d_task_id d) (d_role d) nxt at_;
      _ ← _insert_handoff h;
      let payload := [("from_role", PStr (value (d_role d))); ("to_role", PStr (value nxt))] in
      _ ← _emit "handoff.created" (Some (d_task_id d)) None None payload;
      _emit "handoff.accepted" (Some (d_task_id d)) None None payload
  | None => mret tt
  end.

Fixpoint run_plan (task_id : string) (plan : list (TaskState * TaskState)) (current : Task)
  : cmd Task :=
  match plan with
  | [] => mret current
  | (from_state, to_state) :: rest =>
      _ ← raise_unless (bool_decide (t_state current = from_state)) InvalidTransition;
      _ ← lift (validate_transition (t_state current) to_state (t_resume_state current));
      _ ← _apply_transition current to_state None;
      current ← need (get_task task_id) AttributeError;
      run_plan task_id rest current
  end.

Definition _apply_state_sync (task : Task) (d : AgentDispatch) (decision : option string)
  : cmd Task :=
  current ← (if bool_decide (t_state task = RECOVERING) then
               rs ← some_or (t_resume_state task) InvalidTransition;
               _ ← lift (validate_transition (t_state task) rs (Some rs));
               _ ← _apply_transition task rs None;
               need (get_task (d_task_id d)) AttributeError
             else mret task);
  run_plan (d_task_id d) (_state_sync_plan d decision (t_state current)) current.

(** The effects of an accepted result, after its validation. *)
Definition accept_result (d : AgentDispatch) (task : Task) (dispatch_id : string)
    (validated : pydict) : cmd ReceiveResult :=
  _ ← _validate_effect_bindings (d_task_id d) validated;
  result_json ← lift (json_dumps (PDict validated));
  consumed_at ← now_iso;
  rc ← _consume_dispatch dispatch_id result_json consumed_at;
  let ids := [("dispatch_id", PStr dispatch_id)] in
  if negb (Nat.eqb rc 1) then
    _ ← _emit "agent.result_duplicate" (Some (d_task_id d)) None None ids;
    mret (mkReceiveResult dispatch_id "duplicate" None)
  else
    let role := Some (value (d_role d)) in
    _ ← _set_dispatch_attempt_outcome dispatch_id ATTEMPT_OUTCOME_SUCCESS;
    _ ← _emit "agent.result_received" (Some (d_task_id d)) role None ids;
    _ ← _apply_role_effects d validated;
    _ ← _complete_active_role d;
    _ ← _sequence_handoff d;
    _ ← _apply_state_sync task d (str_opt (dget0 validated "decision"));
    _ ← _emit "agent.result_accepted" (Some (d_task_id d)) role None ids;
    _ ← _emit "agent.completed" (Some (d_task_id d)) role None ids;
    mret (mkReceiveResult dispatch_id "consumed" None).

(** The checks after the identity checks, in order; each refusal is a reason. *)
Definition binding_problem (d : AgentDispatch) (event_meta result : pyval) : option string :=
  match _event_meta_mismatch d event_meta with
  | Some m => Some m
  | None =>
      match _result_envelope_mismatch d result with
      | Some m => Some m
      | None =>
          match _model_mismatch d with
          | Some m => Some m
          | None =>
              if bool_decide (d_child_session_id d = None) || bool_decide (d_openclaw_run_id d = None)
              then Some "not_bound" else None
          end
      end
  end.
Definition context_problem (d : AgentDispatch) (task : option Task) (db : DB) : option string :=
  let latest_run := last (of_task tr_task_id (d_task_id d) (db_task_runs db)) in
  if negb (ostr_eqb (tr_id <$> latest_run) (Some (d_task_run_id d))) then Some "stale_run"
  else if negb (bool_decide ((rr_role <$> active_role_run (d_task_id d) db) = Some (d_role d)))
  then Some "role_mismatch"
  else if negb (ostr_eqb (d_handoff_id d)
                  (h_id <$> last (of_task h_task_id (d_task_id d) (db_handoffs db))))
  then Some "handoff_mismatch"
  else match task with
       | Some t => if is_terminal (t_state t) then Some "task_ended" else None
       | None => Some "task_ended"
       end.

Definition _receive_work (dispatch_id : string) (event_meta result : pyval) : cmd ReceiveResult :=
  d ← get_dispatch dispatch_id;
  match d with
  | None =>
      let claimed_task := match event_meta with PDict m => dget0 m "task_id" | _ => PNone end in
      refuse claimed_task dispatch_id "dispatch_unknown" "unknown" event_meta
  | Some d =>
      let tid := PStr (d_task_id d) in
      task ← get_task (d_task_id d);
      if bool_decide (d_status d = DCONSUMED) then
        match _event_meta_mismatch d event_meta with
        | None =>
            _ ← _emit "agent.result_duplicate" (Some (d_task_id d)) None None
                  [("dispatch_id", PStr dispatch_id)];
            mret (mkReceiveResult dispatch_id "duplicate" None)
        | Some mismatch => refuse tid dispatch_id mismatch "rejected" event_meta
        end
      else if in_list (d_status d) [DFAILED; DREJECTED; DQUARANTINED] then
        refuse tid dispatch_id "stale_dispatch" "rejected" event_meta
      else if bool_decide (d_status d = DPENDING) then
        refuse tid dispatch_id "pending_injection" "rejected" event_meta
      else
        match binding_problem d event_meta result with
        | Some mismatch => refuse tid dispatch_id mismatch "rejected" event_meta
        | None =>
            problem ← query (context_problem d task);
            match problem, task with
            | Some reason, _ => refuse tid dispatch_id reason "rejected" event_meta
            | None, None => refuse tid dispatch_id "task_ended" "rejected" event_meta
            | None, Some task =>
                match validate_role_output (d_role d) result with
                | Err OutputValidationError =>
                    at_ ← now_iso;
                    _ ← _update_dispatch_status dispatch_id DREJECTED at_;
                    refuse tid dispatch_id "malformed_output" "rejected" event_meta
                | Err e => raise e
                | Ok (PDict validated) => accept_result d task dispatch_id validated
                | Ok _ => raise TypeError
                end
            end
        end
  end.

Definition receive_agent_result (dispatch_id : string) (event_meta result : pyval)
    (source : string) (idempotency_key : option string) : cmd ReceiveResult :=
  _ ← _require_controller source;
  args_hash ← lift (_hash_args
    [("dispatch_id", PStr dispatch_id); ("event_meta", event_meta); ("result", result);
     args_src source]);
  transaction
    match idempotency_key with
    | None => _receive_work dispatch_id event_meta result
    | Some key =>
        existing ← get_command_idempotency key "receive_agent_result";
        match existing with
        | Some (_, stored_hash) =>
            _ ← raise_unless (String.eqb stored_hash args_hash) IdempotencyError;
            d ← get_dispatch dispatch_id;
            mret (mkReceiveResult dispatch_id
                    (match d with
                     | Some d => if bool_decide (d_status d = DCONSUMED) then "duplicate" else "rejected"
                     | None => "rejected" end) None)
        | None =>
            res ← _receive_work dispatch_id event_meta result;
            at_ ← now_iso;
            _ ← _set_command_idempotency key "receive_agent_result" dispatch_id args_hash at_;
            mret res
        end
    end.

(** ** mark_agent_failed *)
Definition mark_failed_work (dispatch_id reason : string) (error_class error_code : option string)
  : cmd (option AgentDispatch * string) :=
  d ← need (get_dispatch dispatch_id) NotFound;
  _ ← raise_unless (consumable d) DispatchError;
  at_ ← now_iso;
  _ ← _update_dispatch_status dispatch_id DFAILED at_;
  _ ← _set_dispatch_attempt_outcome dispatch_id
        (classify_attempt (Some (value DFAILED)) error_class false false error_code);
  active ← get_active_role_run (d_task_id d);
  _ ← match active with
      | Some a =>
          mwhen (bool_decide (rr_role a = d_role d))
            (_ ← _update_role_run_status (rr_id a) RR_FAILED at_;
             _emit "role.failed" (Some (d_task_id d)) (Some (value (d_role d))) None
               [("role", PStr (value (d_role d))); ("detail", PStr "agent_failed")])
      | None => mret tt
      end;
  h ← models_handoff (d_task_id d) (d_role d) (d_role d) at_;
  _ ← _insert_handoff h;
  _ ← _emit "handoff.created" (Some (d_task_id d)) None None
        [("from_role", PStr (value (d_role d))); ("to_role", PStr (value (d_role d)))];
  _ ← _emit "agent.failed" (Some (d_task_id d)) (Some (value (d_role d))) None
        [("dispatch_id", PStr dispatch_id); ("reason", PStr reason)];
  reread get_dispatch dispatch_id.

Definition mark_agent_failed (dispatch_id reason source : string)
    (idempotency_key error_class error_code : option string) : cmd (option AgentDispatch) :=
  _ ← _require_controller source;
  _ ← match error_class with
      | Some c => raise_unless (str_in c (map value (members (A := ErrorClass)))) DispatchError
      | None => mret tt
      end;
  _idempotent idempotency_key "mark_agent_failed"
    [("dispatch_id", PStr dispatch_id); ("reason", PStr reason); args_src source;
     ("error_class", ostr_val error_class); ("error_code", ostr_val error_code)]
    (mark_failed_work dispatch_id reason error_class error_code)
    (_refetch_some get_dispatch).

(** ** recover *)
Definition set_add (x : string) (l : list string) : list string :=
  if str_in x l then l else (l ++ [x])%list.

(** The dispatches a recovery leaves unresolved, and their tasks. *)
Definition pending_acc : Type := (list string * list AgentDispatch)%type.

Definition recover_dispatch (at_ : string) (acc : pending_acc) (d : AgentDispatch)
  : cmd pending_acc :=
  let to_pending :=
    _ ← _update_dispatch_status (d_id d) DRECOVERY_PENDING at_;
    _ ← _emit "agent.recovery_pending" (Some (d_task_id d)) (Some (value (d_role d))) None
          [("dispatch_id", PStr (d_id d))];
    d' ← need (get_dispatch (d_id d)) AttributeError;
    mret (set_add (d_task_id d) (fst acc), (snd acc ++ [d'])%list) in
  if negb (in_list (d_status d) [DPENDING; DRUNNING]) then mret acc
  else if bool_decide (d_role d = IMPLEMENTER) then to_pending
  else if bool_decide (d_status d = DPENDING) then
    _ ← _update_dispatch_status (d_id d) DFAILED at_; mret acc
  else to_pending.

Definition state_changed (task : Task) (to : TaskState) : cmd unit :=
  _emit "task.state_changed" (Some (t_id task)) None (Some (value to))
    [("from_state", PStr (value (t_state task))); ("to_state", PStr (value to))].

Definition park_task (at_ tid : string) : cmd unit :=
  task ← get_task tid;
  match task with
  | Some task =>
      if is_terminal (t_state task) || is_pause (t_state task) then mret tt
      else
        _ ← _update_task_state tid RECOVERING (Some (t_state task)) at_;
        state_changed task RECOVERING
  | None => mret tt
  end.

Definition recover_role_run (at_ : string) (unresolved : list (string * Role)) (rr : RoleRun)
  : cmd unit :=
  if in_list (rr_task_id rr, rr_role rr) unresolved then mret tt
  else
    _ ← _update_role_run_status (rr_id rr) RR_FAILED at_;
    _emit "role.failed" (Some (rr_task_id rr)) (Some (value (rr_role rr))) None
      [("role", PStr (value (rr_role rr))); ("detail", PStr "interrupted")].

Definition recover_task_run (at_ : string) (unresolved : list string) (tr : TaskRun) : cmd unit :=
  if str_in (tr_id tr) unresolved then mret tt
  else _update_task_run_status (tr_id tr) TR_FAILED at_.

Definition recover_task (at_ : string) (conservative : list string)
    (acc : list (string * string * string)) (tv : Task * bool)
  : cmd (list (string * string * string)) :=
  let '(task, valid) := tv in
  let move to :=
    _ ← _update_task_state (t_id task) to None at_;
    _ ← state_changed task to;
    mret (acc ++ [(t_id task, value (t_state task), value to)])%list in
  if str_in (t_id task) conservative then mret acc
  else if negb valid then move BLOCKED
  else
    let target := recovery_target task in
    if bool_decide (target = t_state task) then mret acc
    else
      let target := match validate_transition RECOVERING target (t_resume_state task) with
                    | Ok _ => target
                    | Err _ => BLOCKED
                    end in
      if bool_decide (target = t_state task) then mret acc else move target.

Definition _recover_work : cmd RecoveryReport :=
  at_ ← now_iso;
  _ ← _emit "system.recovery_started" None None None [];
  pending0 ← list_dispatches None (Some DRECOVERY_PENDING);
  all ← list_dispatches None None;
  acc ← mfold (recover_dispatch at_) all
          (fold_left (fun l d => set_add (d_task_id d) l) pending0 [], pending0);
  let '(conservative, pending) := acc in
  _ ← mfor (set_order conservative) (park_task at_);
  role_runs ← list_role_runs RR_STARTED;
  _ ← mfor role_runs (recover_role_run at_ (map (fun d => (d_task_id d, d_role d)) pending));
  task_runs ← list_task_runs TR_STARTED;
  _ ← mfor task_runs (recover_task_run at_ (map d_task_run_id pending));
  tasks ← list_tasks_for_recovery;
  rolled_back ← mfold (recover_task at_ conservative) tasks [];
  let count {A} (l : list A) := Z.of_nat (List.length l) in
  _ ← _emit "system.recovery_completed" None None None
        [("interrupted_role_runs", PInt (count role_runs));
         ("interrupted_task_runs", PInt (count task_runs));
         ("recovery_pending_dispatches", PInt (count pending))];
  mret (mkRecoveryReport (count role_runs) (count task_runs) rolled_back (count pending)).

Definition recover (source : string) (idempotency_key : option string) : cmd RecoveryReport :=
  _ ← _require_owner source;
  _idempotent idempotency_key "recover" [args_src source]
    (report ← _recover_work; mret (report, "recovered"))
    (fun _ => mret (mkRecoveryReport 0 0 [] 0)).
End Dispatch.
