(* ===== verification/Frames.v ===== *)
(** * Frames: reasoning about what a command does to a part of the tables.

    [focus tbl T strict P m]: when the part [tbl] of the tables satisfies [P]
    and [m] runs, the part before and the part after are related by [T]; with
    [strict = false] this is only claimed of the runs that return (an exception
    inside a transaction is rolled back).  [T] is a preorder, so the relation
    composes along a program, and [keep tbl m] ([m] leaves the part as it is)
    carries the knowledge [P] over the steps that do not concern it. *)
From S2P Require Import Prelude Models CoreStore Core Dispatch.

(** The updates of table [t] do not concern the part [tbl]. *)
Class Frame {X A} (tbl : DB -> X) (t : DB -> list A) `{Setter DB (list A) t} : Prop :=
  frame_eq : forall f db, tbl (set t f db) = tbl db.
#[export] Hint Extern 1 (Frame _ _) => (intros ? ?; reflexivity) : typeclass_instances.

Section Focus.
  Context {X : Type} (tbl : DB -> X) (T : X -> X -> Prop).
Definition part (s : St) : X := tbl (st_db s).
Definition focus (strict : bool) (P : X -> Prop) {A} (m : cmd A) : Prop :=
    forall s r s', P (part s) -> m s = (r, s') -> strict = true \/ is_ok r = true ->
    T (part s) (part s').
End Focus.
Definition keep {X} (tbl : DB -> X) {A} (m : cmd A) : Prop :=
  focus tbl eq true (fun _ => True) m.
Definition any {X} (x : X) : Prop := True.

(** An assertion about the part that a program preserves. *)
Definition stable {X} (Q : X -> Prop) (x x' : X) : Prop := Q x -> Q x'.
#[export] Instance stable_preorder {X} (Q : X -> Prop) : PreOrder (stable Q).
Proof. split; unfold stable; [intros x; auto | intros x y z; auto]. Qed.

Section Rules.
  Context {X : Type} (tbl : DB -> X) (T : X -> X -> Prop) {pre : PreOrder T}.
  Implicit Types (P Q : X -> Prop) (strict : bool).
  Abbreviation focus_of := focus.
  Abbreviation focus := (focus tbl T).

Lemma focus_mono strict P Q {A} (m : cmd A) :
  focus strict Q m -> (forall x, P x -> Q x) -> focus strict P m.
Proof. intros H I s r s' p. by apply H, I. Qed.
Lemma focus_fact strict P (Q : Prop) {A} (m : cmd A) :
  (forall x, P x -> Q) -> (Q -> focus strict P m) -> focus strict P m.
Proof. intros F H s r s' p. exact (H (F _ p) s r s' p). Qed.
Lemma focus_strict strict P {A} (m : cmd A) : focus true P m -> focus strict P m.
Proof. intros H s r s' p E _. apply (H _ _ _ p E). by left. Qed.
Lemma focus_keep strict P {A} (m : cmd A) : keep tbl m -> focus strict P m.
Proof. intros H s r s' _ E _. rewrite (H _ _ _ I E); [reflexivity | by left]. Qed.
Lemma focus_const strict P {A} (m : cmd A) :
  (forall s, st_db (m s).2 = st_db s) -> focus strict P m.
Proof.
  intros H s r s' _ E _. specialize (H s). rewrite E in H. cbn in H.
  unfold part. rewrite H. reflexivity.
Qed.

Lemma focus_bind strict P {A B} (m : cmd A) (k : A -> cmd B) :
  focus strict P m -> (forall a, focus strict any (k a)) -> focus strict P (x ← m; k x).
Proof.
  intros Hm Hk s r s' p. unfold mbind, M_bind. destruct (m s) as [[a|e] s1] eqn:E.
  - intros E2 ok. transitivity (part tbl s1).
    + apply (Hm _ _ _ p E). by right.
    + exact (Hk a _ _ _ I E2 ok).
  - intros [= <- <-] ok. exact (Hm _ _ _ p E ok).
Qed.

(** The knowledge survives a step that keeps the part. *)
Lemma focus_bind_keep strict P {A B} (m : cmd A) (k : A -> cmd B) :
  keep tbl m -> (forall a, focus strict P (k a)) -> focus strict P (x ← m; k x).
Proof.
  intros Hm Hk s r s' p. unfold mbind, M_bind. destruct (m s) as [[a|e] s1] eqn:E.
  - intros E2 ok. pose proof (Hm _ _ _ I E (or_introl eq_refl)) as K. cbn in K.
    rewrite K in p |- *. exact (Hk a _ _ _ p E2 ok).
  - intros [= <- <-] _. by rewrite (Hm _ _ _ I E (or_introl eq_refl)).
Qed.

(** What is asserted after a step that preserves it. *)
Lemma focus_bind_stable strict P Q {A B} (m : cmd A) (k : A -> cmd B) :
  focus strict P m -> (forall x, P x -> Q x) -> focus_of tbl (stable Q) strict P m ->
  (forall a, focus strict Q (k a)) -> focus strict P (x ← m; k x).
Proof.
  intros Hm PQ Hs Hk s r s' p. unfold mbind, M_bind. destruct (m s) as [[a|e] s1] eqn:E.
  - intros E2 ok. transitivity (part tbl s1).
    + apply (Hm _ _ _ p E). by right.
    + refine (Hk a _ _ _ _ E2 ok). apply (Hs _ _ _ p E); [by right | exact (PQ _ p)].
  - intros [= <- <-] ok. exact (Hm _ _ _ p E ok).
Qed.

(** A query teaches what it returned. *)
Lemma focus_bind_query strict P {A B} (f : DB -> A) (k : A -> cmd B) :
  (forall db, focus strict (fun x => P x /\ x = tbl db) (k (f db))) ->
  focus strict P (x ← query f; k x).
Proof. intros Hk s r s' p E. by apply (Hk (st_db s) s r s' (conj p eq_refl)). Qed.

(** Guards teach what they tested. *)
Lemma focus_bind_pure strict P {A B} (m : cmd A) (Q : A -> Prop) (k : A -> cmd B) :
  (forall s r s', m s = (r, s') -> s' = s /\ forall a, r = Ok a -> Q a) ->
  (forall a, Q a -> focus strict P (k a)) -> focus strict P (x ← m; k x).
Proof.
  intros Hm Hk s r s' p. unfold mbind, M_bind. destruct (m s) as [[a|e] s1] eqn:E;
    destruct (Hm _ _ _ E) as [-> Q1].
  - intros E2 ok. exact (Hk a (Q1 _ eq_refl) _ _ _ p E2 ok).
  - intros [= <- <-] _. reflexivity.
Qed.
Lemma focus_bind_unless strict P {B} b e (k : unit -> cmd B) :
  (b = true -> focus strict P (k tt)) -> focus strict P (x ← raise_unless b e; k x).
Proof.
  intros Hk. apply (focus_bind_pure _ _ _ (fun _ => b = true)); [|by intros []].
  intros s r s'. destruct b; intros [= <- <-]; split; try done; discriminate.
Qed.
Lemma focus_bind_when strict P {B} b e (k : unit -> cmd B) :
  (b = false -> focus strict P (k tt)) -> focus strict P (x ← raise_when b e; k x).
Proof.
  intros Hk. apply (focus_bind_pure _ _ _ (fun _ => b = false)); [|by intros []].
  intros s r s'. destruct b; intros [= <- <-]; split; try done; discriminate.
Qed.
Lemma focus_bind_lift strict P {A B} (r : res exc A) (k : A -> cmd B) :
  (forall a, r = Ok a -> focus strict P (k a)) -> focus strict P (x ← lift r; k x).
Proof.
  intros Hk. apply (focus_bind_pure _ _ _ (fun a => r = Ok a)); [|done].
  intros s r' s' [= <- <-]. by split.
Qed.
Lemma focus_bind_some strict P {A B} (o : option A) e (k : A -> cmd B) :
  (forall a, o = Some a -> focus strict P (k a)) -> focus strict P (x ← some_or o e; k x).
Proof.
  intros Hk. apply (focus_bind_pure _ _ _ (fun a => o = Some a)); [|done].
  intros s r s'. destruct o; intros [= <- <-]; split; try done; congruence.
Qed.
Lemma focus_bind_ret strict P {A B} (a : A) (k : A -> cmd B) :
  focus strict P (k a) -> focus strict P (x ← mret a; k x).
Proof. exact (fun H => H). Qed.
Lemma focus_bind_assoc strict P {A B C} (m : cmd A) (k : A -> cmd B) (l : B -> cmd C) :
  focus strict P (x ← m; y ← k x; l y) -> focus strict P (y ← (x ← m; k x); l y).
Proof.
  intros H s r s' p E. apply (H s r s' p). revert E.
  unfold mbind, M_bind. by destruct (m s) as [[a|e] s1].
Qed.
Lemma focus_bind_need strict P {A B} (f : DB -> option A) e (k : A -> cmd B) :
  (forall db a, f db = Some a -> focus strict (fun x => P x /\ x = tbl db) (k a)) ->
  focus strict P (x ← need (query f) e; k x).
Proof.
  intros Hk. unfold need. apply focus_bind_assoc, focus_bind_query. intros db.
  apply focus_bind_some. intros a. apply Hk.
Qed.

Lemma focus_raise strict P {A} e : focus strict P (@raise _ _ A e).
Proof. by apply focus_const. Qed.
Lemma focus_ret strict P {A} (a : A) : focus strict P (mret a).
Proof. by apply focus_const. Qed.
Lemma focus_lift strict P {A} (r : res exc A) : focus strict P (lift r).
Proof. by apply focus_const. Qed.
Lemma focus_gets strict P {A} (f : St -> A) : focus strict P (gets f).
Proof. by apply focus_const. Qed.
Lemma focus_query strict P {A} (f : DB -> A) : focus strict P (query f).
Proof. by apply focus_const. Qed.
Lemma focus_raise_when strict P b e : focus strict P (raise_when b e).
Proof. destruct b; by apply focus_const. Qed.
Lemma focus_raise_unless strict P b e : focus strict P (raise_unless b e).
Proof. destruct b; by apply focus_const. Qed.
Lemma focus_some_or strict P {A} (o : option A) e : focus strict P (some_or o e).
Proof. destruct o; by apply focus_const. Qed.

Lemma focus_when strict P b m : focus strict P m -> focus strict P (mwhen b m).
Proof. destruct b; [done | intros _; apply focus_ret]. Qed.
Lemma focus_for strict {A} (l : list A) f :
  (forall x, focus strict any (f x)) -> focus strict any (mfor l f).
Proof.
  intros H. induction l as [|x l IH]; [apply focus_ret | cbn].
  apply focus_bind; auto.
Qed.
Lemma focus_fold strict {A B} (f : B -> A -> cmd B) l b :
  (forall b x, focus strict any (f b x)) -> focus strict any (mfold f l b).
Proof.
  intros H. revert b. induction l as [|x l IH]; intros b; [apply focus_ret | cbn].
  apply focus_bind; auto.
Qed.

Lemma focus_transaction strict P {A} (m : cmd A) :
  focus false P m -> focus strict P (transaction m).
Proof.
  intros H s r s' p. unfold transaction. destruct (m s) as [[a|e] s1] eqn:E; intros [= <- <-] _.
  - apply (H _ _ _ p E). by right.
  - reflexivity.
Qed.

Lemma focus_integrity strict P {A} e (m : cmd A) :
  focus strict P m -> focus strict P (on_integrity_error e m).
Proof.
  intros H s r s' p. unfold on_integrity_error. destruct (m s) as [[a|e'] s1] eqn:E.
  - intros [= <- <-] ok. by apply (H _ _ _ p E).
  - destruct e'; intros [= <- <-] ok; by apply (H _ _ _ p E).
Qed.
Lemma focus_or_expire `{Env} strict P {A} (m : cmd A) :
  focus true P m -> (forall id, focus false any (_expire_and_release id)) ->
  focus strict P (or_expire m).
Proof.
  intros Hm He s r s' p. unfold or_expire. destruct (m s) as [[a|e] s1] eqn:E.
  - intros [= <- <-] _. apply (Hm _ _ _ p E). by left.
  - pose proof (Hm _ _ _ p E (or_introl eq_refl)) as H1.
    destruct e; try (by intros [= <- <-] _).
    intros E2 _. transitivity (part tbl s1); [exact H1 |].
    apply (focus_bind true any _ _
             (focus_transaction true any _ (He approval_id)) (fun _ => focus_raise true any _)
             s1 r s' I E2).
    by left.
Qed.

Lemma focus_write strict P f :
  (forall db, db_ok (f db) = true -> P (tbl db) -> T (tbl db) (tbl (f db))) ->
  focus strict P (write f).
Proof.
  intros H s r s' p. unfold write. destruct (db_ok _) eqn:ok; intros [= <- <-] _.
  - by apply H.
  - reflexivity.
Qed.
Lemma focus_update strict P {A} t `{Setter DB (list A) t} p f :
  (forall db, db_ok (set t (update_where p f) db) = true -> P (tbl db) ->
     T (tbl db) (tbl (set t (update_where p f) db))) ->
  focus strict P (update_rows t p f).
Proof.
  intros K. unfold update_rows. intros s r s' HP E ok. revert E.
  unfold mbind, M_bind, query, gets. cbn. unfold write.
  destruct (db_ok _) eqn:D; intros [= <- <-]; [by apply K | reflexivity].
Qed.
Lemma focus_insert strict P {A} t `{Setter DB (list A) t} (x : A) :
  (forall db, db_ok (set t (fun l => (l ++ [x])%list) db) = true -> P (tbl db) ->
     T (tbl db) (tbl (set t (fun l => (l ++ [x])%list) db))) ->
  focus strict P (insert_row t x).
Proof. apply focus_write. Qed.
End Rules.

Section Keep.
  Context {X : Type} (tbl : DB -> X).
Lemma keep_update {A} t `{Setter DB (list A) t} p f : Frame tbl t -> keep tbl (update_rows t p f).
Proof. intros F. apply focus_update; [apply _ |]. intros db _ _. by rewrite F. Qed.
Lemma keep_insert {A} t `{Setter DB (list A) t} (x : A) : Frame tbl t -> keep tbl (insert_row t x).
Proof. intros F. apply focus_insert; [apply _ |]. intros db _ _. by rewrite F. Qed.
End Keep.

(** [focus] goals, down to the statements; hints of the database [focus] come
    first, then the structure of the program, then its definition. *)
Create HintDb focus.
Ltac head t := lazymatch t with ?f _ => head f | _ => t end.
(** [know], down to the first statement that touches the part, whose lemma is
    [L]; the rest is automation. *)
Ltac known_keep := fail.
Ltac focus_done := first [solve [eauto 2 with focus nocore | assumption] | solve [known_keep]].
Ltac focus_step :=
  lazymatch goal with
  | |- keep _ _ => unfold keep
  | |- focus _ _ _ _ (mbind _ _) => apply focus_bind; [typeclasses eauto | | intros ?]
  | |- focus _ _ _ _ (mret _) => apply focus_ret; typeclasses eauto
  | |- focus _ _ _ _ (raise _) => apply focus_raise; typeclasses eauto
  | |- focus _ _ _ _ (lift _) => apply focus_lift; typeclasses eauto
  | |- focus _ _ _ _ (gets _) => apply focus_gets; typeclasses eauto
  | |- focus _ _ _ _ (query _) => apply focus_query; typeclasses eauto
  | |- focus _ _ _ _ (raise_when _ _) => apply focus_raise_when; typeclasses eauto
  | |- focus _ _ _ _ (raise_unless _ _) => apply focus_raise_unless; typeclasses eauto
  | |- focus _ _ _ _ (some_or _ _) => apply focus_some_or; typeclasses eauto
  | |- focus _ _ _ _ uuid => apply focus_const; [typeclasses eauto | reflexivity]
  | |- focus _ _ _ _ now => apply focus_const; [typeclasses eauto | reflexivity]
  | |- focus _ _ _ _ (on_integrity_error _ _) => apply focus_integrity
  | |- focus _ _ _ _ (or_expire _) => apply focus_or_expire; [typeclasses eauto | | intros ?]
  | |- focus _ _ _ _ (mwhen _ _) => apply focus_when; [typeclasses eauto |]
  | |- focus _ _ _ _ (mfor _ _) =>
      eapply focus_mono; [apply focus_for; [typeclasses eauto | intros ?] | done]
  | |- focus _ _ _ _ (mfold _ _ _) =>
      eapply focus_mono; [apply focus_fold; [typeclasses eauto | intros ? ?] | done]
  | |- focus _ _ _ _ (transaction _) => apply focus_transaction; [typeclasses eauto |]
  | |- focus _ _ _ _ (update_rows _ _ _) =>
      apply focus_keep; [typeclasses eauto | apply keep_update; typeclasses eauto]
  | |- focus _ _ _ _ (insert_row _ _) =>
      apply focus_keep; [typeclasses eauto | apply keep_insert; typeclasses eauto]
  | |- focus _ _ _ _ (match ?x with _ => _ end) => destruct x
  | |- focus _ _ _ _ (let _ := _ in _) => cbv zeta
  | |- focus _ _ _ _ ?m => let h := head m in unfold h
  end.
(** The steps that keep what is known: guards, and the statements on other
    tables. *)
Ltac keep_tac := solve [repeat first [focus_done | progress cbv beta zeta | focus_step]].
Ltac know_step :=
  lazymatch goal with
  | |- focus _ _ _ _ (mbind _ (raise_unless _ _)) => apply focus_bind_unless; [typeclasses eauto |]; intros ?
  | |- focus _ _ _ _ (mbind _ (raise_when _ _)) => apply focus_bind_when; [typeclasses eauto |]; intros ?
  | |- focus _ _ _ _ (mbind _ (lift _)) => apply focus_bind_lift; [typeclasses eauto |]; intros ? ?
  | |- focus _ _ _ _ (mbind _ (some_or _ _)) => apply focus_bind_some; [typeclasses eauto |]; intros ? ?
  | |- focus _ _ _ _ (mbind _ (mret _)) => apply focus_bind_ret
  | |- focus _ _ _ _ (mbind _ _) => apply focus_bind_keep; [typeclasses eauto | keep_tac | intros ?]
  | |- focus _ _ _ _ (mret _) => apply focus_ret; typeclasses eauto
  | |- focus _ _ _ _ (raise _) => apply focus_raise; typeclasses eauto
  | |- focus _ _ _ _ (transaction _) => apply focus_transaction; [typeclasses eauto |]
  end.
(** The booleans of the guards, as propositions. *)
Ltac bools := repeat match goal with
  | u : unit |- _ => destruct u
  | H : _ || _ = false |- _ => apply orb_false_iff in H as [? ?]
  | H : bool_decide _ = true |- _ => apply bool_decide_eq_true in H
  | H : negb _ = true |- _ => apply negb_true_iff in H
  end.

(** The branches of the program at hand. *)
Ltac branch := lazymatch goal with
  | |- focus _ _ _ _ (match ?x with _ => _ end) => let E := fresh "E" in destruct x eqn:E
  end.
Ltac know := repeat (progress cbv beta zeta || know_step).
Ltac focus_tac := repeat first [focus_done | progress cbv beta zeta | focus_step].
Ltac focus_pure := solve [intros; focus_tac].

(** Shared programs, once for every part they do not concern. *)
Section SharedKeep.
Context {env : Env} {X : Type} (tbl : DB -> X).
Lemma keep_emit type_ tid role state payload :
  Frame tbl db_events -> keep tbl (_emit type_ tid role state payload).
Proof. focus_pure. Qed.
Hint Resolve keep_emit : focus.
Lemma keep_apply_transition task to rs :
  Frame tbl db_events -> Frame tbl db_tasks -> keep tbl (_apply_transition task to rs).
Proof. focus_pure. Qed.
Hint Resolve keep_apply_transition : focus.
Lemma keep_run_plan tid plan cur :
  Frame tbl db_events -> Frame tbl db_tasks -> keep tbl (run_plan tid plan cur).
Proof.
  intros FE FT. revert cur. induction plan as [|[f t] plan IH]; intros cur; cbn [run_plan]; focus_tac. apply IH.
Qed.
End SharedKeep.
Ltac known_keep ::= lazymatch goal with
  | |- keep _ (_emit _ _ _ _ _) => apply keep_emit; typeclasses eauto
  | |- keep _ (_apply_transition _ _ _) => apply keep_apply_transition; typeclasses eauto
  | |- keep _ (run_plan _ _ _) => apply keep_run_plan; typeclasses eauto
  | |- focus _ _ _ _ (_emit _ _ _ _ _) =>
      apply focus_keep; [typeclasses eauto | apply keep_emit; typeclasses eauto]
  | |- focus _ _ _ _ (_apply_transition _ _ _) =>
      apply focus_keep; [typeclasses eauto | apply keep_apply_transition; typeclasses eauto]
  | |- focus _ _ _ _ (run_plan _ _ _) =>
      apply focus_keep; [typeclasses eauto | apply keep_run_plan; typeclasses eauto]
  end.
