(* ===== verification/Session.v ===== *)
(** * Session: the public commands of the core as one transition system.

    A session is any sequence of commands, from any source and with any
    arguments, run one after the other on the store; a failed command leaves
    whatever it left in the tables.  [reachable] is the set of states a session
    can produce from an empty store. *)
From S2P Require Import Prelude PyVal Models Trust Registry CoreStore Core Dispatch Frames.
#[local] Open Scope string_scope.

Inductive command : Type :=
| CreateProject (name source : string) (key : option string)
| CreateTask (project_id title source : string) (key description : option string)
    (risk_class policy : string)
| Transition (task_id to_state source : string) (key : option string)
| Resume (task_id source : string) (key : option string)
| StartRole (task_id role source : string) (key : option string)
| CompleteRole (role_run_id source : string) (key : option string)
| FailRole (role_run_id source : string) (detail key : option string)
| StartTaskRun (task_id source : string) (key : option string)
| CompleteTaskRun (task_run_id source : string) (key : option string)
| FailTaskRun (task_run_id source : string) (key : option string)
| RequestAction (task_id action scope actor_role source : string) (key : option string)
| Approve (approval_id source task_id action scope : string) (key : option string)
| Reject (approval_id source task_id action scope : string) (key : option string)
| ExecuteApproved (approval_id source task_id action scope : string) (key : option string)
| AddFinding (task_id severity description source : string) (key : option string)
| ResolveFinding (finding_id source : string) (key : option string)
| RecordTestRun (task_id result source : string) (detail key : option string)
| RecordReview (task_id verdict source : string) (detail key : option string)
| RecordDecision (task_id decision source : string) (detail key : option string)
| CreateDispatch (task_id task_run_id role : string) (position cycle_no : Z) (kind : string)
    (model_choice : option pydict) (source : string) (parent key : option string)
    (decision : option RoutingDecision)
| BindSpawnResult (dispatch_id child_session_id run_id provider model tier source : string)
    (key : option string)
| ReceiveAgentResult (dispatch_id : string) (event_meta result : pyval) (source : string)
    (key : option string)
| MarkAgentFailed (dispatch_id reason source : string) (key error_class error_code : option string)
| Recover (source : string) (key : option string).

Definition command_source (c : command) : string :=
  match c with
  | CreateProject _ s _ | CreateTask _ _ s _ _ _ _ | Transition _ _ s _ | Resume _ s _
  | StartRole _ _ s _ | CompleteRole _ s _ | FailRole _ s _ _ | StartTaskRun _ s _
  | CompleteTaskRun _ s _ | FailTaskRun _ s _ | RequestAction _ _ _ _ s _
  | Approve _ s _ _ _ _ | Reject _ s _ _ _ _ | ExecuteApproved _ s _ _ _ _
  | AddFinding _ _ _ s _ | ResolveFinding _ s _ | RecordTestRun _ _ s _ _
  | RecordReview _ _ s _ _ | RecordDecision _ _ s _ _ | CreateDispatch _ _ _ _ _ _ _ s _ _ _
  | BindSpawnResult _ _ _ _ _ _ s _ | ReceiveAgentResult _ _ _ s _ | MarkAgentFailed _ _ s _ _ _
  | Recover s _ => s
  end.

(** The commands the owner reserves. *)
Definition owner_command (c : command) : bool :=
  match c with
  | CreateProject _ _ _ | CreateTask _ _ _ _ _ _ _ | Approve _ _ _ _ _ _ | Reject _ _ _ _ _ _
  | ExecuteApproved _ _ _ _ _ _ | Recover _ _ => true
  | _ => false
  end.
(** The commands of the orchestration layer, reserved to the controller. *)
Definition controller_command (c : command) : bool :=
  match c with
  | CreateDispatch _ _ _ _ _ _ _ _ _ _ _ | BindSpawnResult _ _ _ _ _ _ _ _
  | ReceiveAgentResult _ _ _ _ _ | MarkAgentFailed _ _ _ _ _ _ => true
  | _ => false
  end.
Definition is_recover (c : command) : bool :=
  match c with Recover _ _ => true | _ => false end.

Definition void {A} (m : cmd A) : cmd unit := _ ← m; mret tt.

Section Session.
Context {env : Env}.

Definition run (c : command) : cmd unit :=
  match c with
  | CreateProject name source key => void (create_project name source key)
  | CreateTask pid title source key description risk policy =>
      void (create_task pid title source key description risk policy)
  | Transition tid to source key => void (transition tid to source key)
  | Resume tid source key => void (resume tid source key)
  | StartRole tid role source key => void (start_role tid role source key)
  | CompleteRole rid source key => void (complete_role rid source key)
  | FailRole rid source detail key => void (fail_role rid source detail key)
  | StartTaskRun tid source key => void (start_task_run tid source key)
  | CompleteTaskRun rid source key => void (complete_task_run rid source key)
  | FailTaskRun rid source key => void (fail_task_run rid source key)
  | RequestAction tid action scope role source key =>
      void (request_action tid action scope role source key)
  | Approve aid source tid action scope key => void (approve aid source tid action scope key)
  | Reject aid source tid action scope key => void (reject aid source tid action scope key)
  | ExecuteApproved aid source tid action scope key =>
      void (execute_approved aid source tid action scope key)
  | AddFinding tid severity description source key =>
      void (add_finding tid severity description source key)
  | ResolveFinding fid source key => void (resolve_finding fid source key)
  | RecordTestRun tid result source detail key => void (record_test_run tid result source detail key)
  | RecordReview tid verdict source detail key => void (record_review tid verdict source detail key)
  | RecordDecision tid decision source detail key =>
      void (record_decision tid decision source detail key)
  | CreateDispatch tid trid role pos cyc kind choice source parent key decision =>
      void (create_dispatch tid trid role pos cyc kind choice source parent key decision)
  | BindSpawnResult did child rid p m t source key =>
      void (bind_spawn_result did child rid p m t source key)
  | ReceiveAgentResult did meta result source key =>
      void (receive_agent_result did meta result source key)
  | MarkAgentFailed did reason source key cls code =>
      void (mark_agent_failed did reason source key cls code)
  | Recover source key => void (recover source key)
  end.

Inductive reachable : St -> Prop :=
| reach_init : reachable init_st
| reach_step c s r s' : reachable s -> run c s = (r, s') -> reachable s'.

Fixpoint run_all (cs : list command) (s : St) : St :=
  match cs with [] => s | c :: cs => run_all cs (run c s).2 end.
Lemma run_all_reachable cs s : reachable s -> reachable (run_all cs s).
Proof.
  revert s. induction cs as [|c cs IH]; intros s H; [exact H | cbn].
  apply IH. destruct (run c s) as [r s'] eqn:E. exact (reach_step c s r s' H E).
Qed.

(** A relation kept by every command is kept by every session; an invariant of
    the empty store kept by every command holds of every reachable state. *)
Lemma reachable_invariant (I : DB -> Prop) :
  I empty_db -> (forall c, focus id (fun a b => I a -> I b) true any (run c)) ->
  forall s, reachable s -> I (st_db s).
Proof.
  intros I0 IS s H. induction H as [|c s r s' H IH E]; [exact I0 |].
  exact (IS c s r s' Logic.I E (or_introl eq_refl) IH).
Qed.
End Session.
