(* ===== verification/Scenario.v ===== *)
(** * Scenario: a concrete environment and sample sessions.

    The environment instantiates what the core takes from outside: numbered
    identifiers, a clock that advances five minutes per reading from
    2024-02-29, SQLite's rendering of a float as its shortest text, insertion
    order for sets and a registry without models.  The sessions are evaluated
    to witness that hypotheses can hold and to exhibit behaviours. *)
From S2P Require Import Prelude PyVal Models Json Timestamps Trust Registry CoreStore Session.
#[local] Open Scope string_scope.

Definition sample_env : Env := {|
  uuid4 n := "u" ++ z_text (Z.of_nat n);
  clock n := mkDatetime (738944 * US_PER_DAY + Z.of_nat n * (300 * US_PER_SECOND))%Z None;
  sqlite_float f := Some (float_text f);
  set_order l := l;
  set_order_perm l := Permutation_refl l;
  registry := mkModelRegistry "1" [] [] EmptyString
|}.

Definition lead : string := "role:lead".
Definition start_session : list command :=
  [CreateProject "p" OWNER_SOURCE None;
   CreateTask "u0" "t" OWNER_SOURCE None None "NORMAL" "ALLOWED_WITH_GATE";
   StartRole "u1" "lead" lead None].
(** The lead requests an owner-gated action. *)
Definition gate_session : list command :=
  (start_session ++ [RequestAction "u1" "external_send" "mail" "lead" lead None])%list.
(** The owner approves it and it is executed. *)
Definition used_session : list command :=
  (gate_session ++ [Approve "u5" OWNER_SOURCE "u1" "external_send" "mail" None;
                    ExecuteApproved "u5" OWNER_SOURCE "u1" "external_send" "mail" None])%list.
(** A second request, and a late rejection of the first, used approval. *)
Definition again_session : list command :=
  (used_session ++ [RequestAction "u1" "external_send" "fax" "lead" lead None])%list.
Definition stale_session : list command :=
  (again_session ++ [Reject "u5" OWNER_SOURCE "u1" "external_send" "mail" None])%list.

#[local] Existing Instance sample_env.
Definition summary (cs : list command) :=
  let db := st_db (run_all cs init_st) in
  (map (fun t => (t_state t, t_resume_state t)) (db_tasks db),
   map (fun a => (ap_id a, ap_status a)) (db_approvals db),
   map (fun e => (ex_id e, ex_approval_id e, ex_status e)) (db_executions db)).
Example gate_summary :
  summary gate_session = ([(OWNER_APPROVAL_REQUIRED, Some NEW)], [("u5", AP_PENDING)], []).
Proof. vm_compute. reflexivity. Qed.
Example used_summary :
  summary used_session
  = ([(NEW, None)], [("u5", AP_CONSUMED)], [("u9", Some "u5", EX_EXECUTED)]).
Proof. vm_compute. reflexivity. Qed.
