(* ===== verification/History.v ===== *)
(** * History: what every command of the core does to the recorded history.

    [evolves] relates the tables before and after a command: no row is ever
    deleted, the logs only grow at their end, a row keeps its identity and the
    fields it was created with, an approval moves forward through its life
    cycle, and the declared constraints keep holding.  It is a preorder and
    every statement of the store respects it, so every command and every
    session does. *)
From S2P Require Import Prelude PyVal Models Timestamps Trust Events Registry CoreStore Core.
From S2P Require Import Dispatch Frames Session.
#[local] Open Scope string_scope.

(** ** Tables that keep their rows *)
Definition grows {A} (R : A -> A -> Prop) (l l' : list A) : Prop :=
  exists l1 l2, l' = (l1 ++ l2)%list /\ Forall2 R l l1.

Section Grows.
  Context {A : Type} (R : A -> A -> Prop).
#[export] Instance grows_preorder `{PreOrder A R} : PreOrder (grows R).
Proof.
  split.
  - intros l. exists l, []. split; [by rewrite app_nil_r |]. reflexivity.
  - intros a b c (b1 & b2 & -> & H1) (c1 & c2 & -> & H2).
    apply Forall2_app_inv_l in H2 as (c11 & c12 & H11 & H12 & ->).
    exists c11, (c12 ++ c2)%list. split; [by rewrite app_assoc |].
    by transitivity b1.
Qed.
Lemma grows_app `{Reflexive A R} l x : grows R l (l ++ [x])%list.
Proof. exists l, [x]. split; [done |]. reflexivity. Qed.
Lemma grows_update `{Reflexive A R} p f l :
  (forall x, p x = true -> R x (f x)) -> grows R l (update_where p f l).
Proof.
  intros K. exists (update_where p f l), []. split; [by rewrite app_nil_r |].
  induction l as [|x l IH]; cbn; constructor; [|exact IH].
  destruct (p x) eqn:E; [by apply K | reflexivity].
Qed.
Lemma grows_lookup l l' i x :
  grows R l l' -> l !! i = Some x -> exists x', l' !! i = Some x' /\ R x x'.
Proof.
  intros (l1 & l2 & -> & H) E. destruct (Forall2_lookup_l _ _ _ _ _ H E) as (x' & E' & HR).
  exists x'. split; [by apply lookup_app_l_Some | exact HR].
Qed.
Lemma grows_In l l' x : grows R l l' -> In x l -> exists x', In x' l' /\ R x x'.
Proof.
  intros G [i E]%list_elem_of_In%list_elem_of_lookup.
  destruct (grows_lookup _ _ _ _ G E) as (x' & E' & HR).
  exists x'. split; [|exact HR]. apply list_elem_of_In. by eapply list_elem_of_lookup_2.
Qed.
End Grows.
(** A log: its rows never change. *)
Lemma Forall2_eq {A} (l l' : list A) : Forall2 eq l l' <-> l = l'.
Proof.
  split; [induction 1; congruence | intros ->; reflexivity].
Qed.
Lemma grows_eq {A} (l l' : list A) : grows eq l l' <-> exists l2, l' = (l ++ l2)%list.
Proof.
  split.
  - intros (l1 & l2 & -> & H). apply Forall2_eq in H as ->. by exists l2.
  - intros [l2 ->]. exists l, l2. split; [done |]. by apply Forall2_eq.
Qed.

(** A unique index leaves at most one row for a key. *)
Lemma uniq_where_count {A K} `{EqDecision K} (cond : A -> bool) (key : A -> K) l p k :
  uniq_where cond key l = true -> (forall x, p x = true -> cond x = true /\ key x = k) ->
  (count_where p l <= 1)%nat.
Proof.
  unfold uniq_where, uniq, count_where. intros N%bool_decide_eq_true Hp.
  induction l as [|x l IH]; cbn in *; [lia |].
  assert (Z : forall l, ~ In k (map key (List.filter cond l)) -> List.filter p l = []).
  { clear -Hp. induction l as [|y l IH]; intros NI; [done | cbn].
    destruct (p y) eqn:E.
    - destruct (Hp y E) as [C <-]. exfalso. apply NI. cbn. rewrite C. by left.
    - apply IH. intros I. apply NI. cbn. destruct (cond y); [by right | done]. }
  destruct (p x) eqn:E.
  - destruct (Hp x E) as [C K1]. rewrite C in N. cbn in N. apply NoDup_cons in N as [N _].
    rewrite Z; [cbn; lia |]. rewrite <- K1. by rewrite <- list_elem_of_In.
  - apply IH. destruct (cond x); [by apply NoDup_cons in N as [_ N] | exact N].
Qed.

(** ** Row relations *)
Definition same_on {A K} (key : A -> K) (a b : A) : Prop := key a = key b.
#[export] Instance same_on_equiv {A K} (key : A -> K) : Equivalence (same_on key).
Proof. split; unfold same_on; congruence. Qed.

Definition task_base (t : Task) :=
  (t_id t, t_project_id t, t_title t, t_source t, t_source_class t, t_created_at t,
   t_idempotency_key t, t_description t, t_risk_class t, t_external_actions_policy t).
Definition task_run_base (r : TaskRun) := (tr_id r, tr_task_id r, tr_started_at r).
Definition role_run_base (r : RoleRun) := (rr_id r, rr_task_id r, rr_role r, rr_started_at r).
Definition finding_base (f : Finding) :=
  (f_id f, f_task_id f, f_severity f, f_description f, f_created_at f, f_source_class f).
Definition dispatch_base (d : AgentDispatch) :=
  (d_id d, d_task_id d, d_task_run_id d, d_role d, d_parent_dispatch_id d,
   (d_expected_agent_class d, d_expected_model_class d, d_expected_thinking_tier d),
   (d_cycle_no d, d_position d, d_sequence_kind d, d_attempt_no d), d_handoff_id d,
   d_created_at d, (d_routing_decision_id d, d_escalation_level d)).
Definition approval_base (a : OwnerApproval) :=
  (ap_id a, ap_task_id a, ap_action a, ap_scope a, ap_requested_by a, ap_source_class a,
   ap_created_at a, ap_expires_at a, ap_binding_hash a).

(** The life cycle of an approval. *)
Definition approval_forward (a b : ApprovalStatus) : bool :=
  match a, b with
  | AP_PENDING, _ => true
  | AP_APPROVED, (AP_APPROVED | AP_CONSUMED | AP_EXPIRED) => true
  | AP_REJECTED, AP_REJECTED | AP_CONSUMED, AP_CONSUMED | AP_EXPIRED, AP_EXPIRED => true
  | _, _ => false
  end.
Record approval_evolves (a b : OwnerApproval) : Prop := {
  ae_base : same_on approval_base a b;
  ae_forward : approval_forward (ap_status a) (ap_status b) = true;
  ae_closed : is_live a = false -> b = a
}.
#[export] Instance approval_evolves_preorder : PreOrder approval_evolves.
Proof.
  split.
  - intros a. split; [reflexivity | by destruct (ap_status a) | done].
  - intros a b c [B1 F1 C1] [B2 F2 C2]. split.
    + by transitivity b.
    + destruct (ap_status a), (ap_status b), (ap_status c); cbn in *; congruence.
    + intros L. rewrite (C1 L) in C2. exact (C2 L).
Qed.

(** ** The relation on the tables *)
Record evolves (a b : DB) : Prop := {
  ev_ok : db_ok a = true -> db_ok b = true;
  ev_projects : grows eq (db_projects a) (db_projects b);
  ev_tasks : grows (same_on task_base) (db_tasks a) (db_tasks b);
  ev_task_runs : grows (same_on task_run_base) (db_task_runs a) (db_task_runs b);
  ev_role_runs : grows (same_on role_run_base) (db_role_runs a) (db_role_runs b);
  ev_handoffs : grows eq (db_handoffs a) (db_handoffs b);
  ev_findings : grows (same_on finding_base) (db_findings a) (db_findings b);
  ev_test_runs : grows eq (db_test_runs a) (db_test_runs b);
  ev_reviews : grows eq (db_reviews a) (db_reviews b);
  ev_decisions : grows eq (db_decisions a) (db_decisions b);
  ev_approvals : grows approval_evolves (db_approvals a) (db_approvals b);
  ev_executions : grows eq (db_executions a) (db_executions b);
  ev_events : grows eq (db_events a) (db_events b);
  ev_idempotency : grows eq (db_idempotency a) (db_idempotency b);
  ev_dispatches : grows (same_on dispatch_base) (db_dispatches a) (db_dispatches b);
  ev_routing : grows eq (db_routing a) (db_routing b);
  ev_quarantine : grows eq (db_quarantine a) (db_quarantine b);
  ev_snapshots : grows eq (db_snapshots a) (db_snapshots b)
}.
#[export] Instance evolves_preorder : PreOrder evolves.
Proof.
  split.
  - intros a. split; [done | reflexivity ..].
  - intros a b c [] []. split; [auto | etransitivity; eassumption ..].
Qed.

(** A statement touches one table: its rows must be related. *)
Ltac one_table :=
  intros db ok _; split; cbn -[is_live]; try reflexivity; [intros _; exact ok |].
Ltac updates :=
  apply focus_update; [apply _ | one_table; apply grows_update; [apply _ |]; intros].

Section History.
Context {env : Env}.
Abbreviation hist := (focus id evolves).

Ltac history := intros; repeat first
  [ focus_done
  | apply focus_insert; [apply _ | one_table; apply grows_app; apply _]
  | apply focus_update; [apply _ | one_table; apply grows_update; [apply _ | intros; reflexivity]]
  | progress cbv beta zeta | focus_step ].

(** The guarded updates of the approvals table. *)
Ltac approval_update :=
  updates; cbv beta in *;
  repeat match goal with
  | H : (_ && _) = true |- _ => apply andb_true_iff in H as [? ?]
  | H : bool_decide _ = true |- _ => apply bool_decide_eq_true in H
  end;
  split; [reflexivity | .. ].
Lemma live_cases a : is_live a = true -> ap_status a = AP_PENDING \/ ap_status a = AP_APPROVED.
Proof. unfold is_live. destruct (ap_status a); cbn; auto; discriminate. Qed.

Lemma hist_mark_approved strict id at_ : hist strict any (_mark_approved id at_).
Proof.
  approval_update; [by rewrite H1 | unfold is_live; by rewrite H1].
Qed.
Lemma hist_mark_rejected strict id at_ : hist strict any (_mark_rejected id at_).
Proof.
  approval_update; [by rewrite H0 | unfold is_live; by rewrite H0].
Qed.
Lemma hist_consume strict id at_ ex : hist strict any (_consume_approval_with_execution id at_ ex).
Proof.
  approval_update; [by rewrite H1 | unfold is_live; by rewrite H1].
Qed.
Lemma hist_mark_expired strict id at_ : hist strict any (_mark_expired id at_).
Proof.
  approval_update; [by destruct (live_cases _ H1) as [-> | ->] | by rewrite H1].
Qed.
Hint Resolve hist_mark_approved hist_mark_rejected hist_consume hist_mark_expired : focus.

Lemma hist_emit strict type_ task_id role state payload :
  hist strict any (_emit type_ task_id role state payload).
Proof. history. Qed.
Hint Resolve hist_emit : focus.
Lemma hist_apply_transition strict task to rs : hist strict any (_apply_transition task to rs).
Proof. history. Qed.
Hint Resolve hist_apply_transition : focus.
Lemma hist_run_plan strict tid plan cur : hist strict any (run_plan tid plan cur).
Proof. revert cur. induction plan as [|[f t] plan IH]; cbn [run_plan]; history. Qed.
Lemma hist_idempotent strict {A} key command args (work : cmd (A * string)) refetch :
  (forall st, hist st any work) -> (forall st id, hist st any (refetch id)) ->
  hist strict any (_idempotent key command args work refetch).
Proof. intros Hw Hr. history. Qed.
Lemma hist_expire_and_release strict id : hist strict any (_expire_and_release id).
Proof. history. Qed.
Hint Resolve hist_run_plan hist_idempotent hist_expire_and_release : focus.

Lemma hist_core strict c : controller_command c = false -> is_recover c = false ->
  hist strict any (run c).
Proof. destruct c; intros C R; try discriminate C; try discriminate R; clear C R; history. Qed.
Lemma hist_create_dispatch strict tid trid role pos cyc kind choice source parent key rd :
  hist strict any (create_dispatch tid trid role pos cyc kind choice source parent key rd).
Proof. history. Qed.
Lemma hist_bind strict did child rid p m t source key :
  hist strict any (bind_spawn_result did child rid p m t source key).
Proof. history. Qed.
Lemma hist_receive strict did meta result source key :
  hist strict any (receive_agent_result did meta result source key).
Proof. history. Qed.
Lemma hist_mark_failed strict did reason source key cls code :
  hist strict any (mark_agent_failed did reason source key cls code).
Proof. history. Qed.
Lemma hist_recover strict source key : hist strict any (recover source key).
Proof. history. Qed.
Hint Resolve hist_create_dispatch hist_bind hist_receive hist_mark_failed hist_recover : focus.

Lemma hist_run strict c : hist strict any (run c).
Proof.
  destruct (controller_command c) eqn:C; [|destruct (is_recover c) eqn:R; [|by apply hist_core]].
  - destruct c; try discriminate C; cbn [run]; unfold void; history.
  - destruct c; try discriminate R; cbn [run]; unfold void; history.
Qed.

Lemma run_evolves c s : evolves (st_db s) (st_db (run c s).2).
Proof.
  destruct (run c s) as [r s'] eqn:E. exact (hist_run true c s r s' I E (or_introl eq_refl)).
Qed.
Lemma run_all_evolves cs s : evolves (st_db s) (st_db (run_all cs s)).
Proof.
  revert s. induction cs as [|c cs IH]; intros s; [reflexivity | cbn].
  etransitivity; [apply run_evolves | apply IH].
Qed.
Lemma run_all_ok cs : db_ok (st_db (run_all cs init_st)) = true.
Proof. by apply (ev_ok _ _ (run_all_evolves cs init_st)). Qed.

(** No session of the core ever deletes or rewrites history: every table
    keeps its rows in order, the logs (events, executions, handoffs, decisions,
    reviews, test runs, idempotency keys, routing decisions, quarantine) only
    grow at their end, every row keeps its identity and creation fields, a
    closed approval never changes again, and the schema's constraints hold. *)
Theorem session_history cs s :
  evolves (st_db s) (st_db (run_all cs s)) /\ db_ok (st_db (run_all cs init_st)) = true.
Proof. split; [apply run_all_evolves | apply run_all_ok]. Qed.

(** Whatever sequence of commands ran, a task has at most one started role
    run, at most one active dispatch, and at most one open approval for the same
    action and scope. *)
Theorem exclusive_work cs task_id action scope :
  let db := st_db (run_all cs init_st) in
  (count_where (fun r => is_started r && String.eqb (rr_task_id r) task_id) (db_role_runs db) <= 1)%nat
  /\ (count_where (fun d => is_active d && String.eqb (d_task_id d) task_id) (db_dispatches db) <= 1)%nat
  /\ (count_where (fun a => is_live a && String.eqb (ap_task_id a) task_id
          && String.eqb (ap_action a) action && String.eqb (ap_scope a) scope) (db_approvals db) <= 1)%nat.
Proof.
  cbn zeta. pose proof (run_all_ok cs) as ok. unfold db_ok in ok.
  repeat apply andb_true_iff in ok as [ok ?]. unfold role_runs_ok, approvals_ok, dispatches_ok in *.
  repeat match goal with H : _ && _ = true |- _ => apply andb_true_iff in H as [? ?] end.
  split; [|split].
  1: eapply (uniq_where_count _ _ _ _ task_id).
  3: eapply (uniq_where_count _ _ _ _ task_id).
  5: eapply (uniq_where_count _ _ _ _ (task_id, action, scope)).
  all: try eassumption.
  all: cbv beta; intros x; rewrite ?andb_true_iff, ?String.eqb_eq; intuition congruence.
Qed.
End History.
#[export] Hint Resolve hist_mark_approved hist_mark_rejected hist_consume hist_mark_expired hist_emit
  hist_apply_transition hist_run_plan hist_expire_and_release hist_run : focus.
