(* ===== verification/Lifecycle.v ===== *)
(** * Lifecycle: the commands move tasks only along the state machine.

    The abstract machine is [StateMachine.task_step].  [moves] says that every
    task row before a command is still there after it, at a point the machine
    reaches from where it was; every command is shown to respect it, which is a
    refinement of the machine by the whole command layer. *)
From S2P Require Import Prelude PyVal Models StateMachine Trust Workflow Outputs Registry.
From S2P Require Import CoreStore Core Dispatch Frames Session History.
#[local] Open Scope string_scope.

Definition point (t : Task) : TaskState * option TaskState := (t_state t, t_resume_state t).
Definition tasks_by_id : string -> list Task -> option Task := by_id t_id.
(** Where a task is; one that is not there yet starts NEW. *)
Definition place (id : string) (x : list Task) : TaskState * option TaskState :=
  match tasks_by_id id x with Some t => point t | None => (NEW, None) end.
Definition moves (x x' : list Task) : Prop :=
  forall id, (is_Some (tasks_by_id id x) -> is_Some (tasks_by_id id x'))
             /\ task_reach (place id x) (place id x').

(** What a program knows of the row of a task it has read. *)
Definition row (t : Task) (x : list Task) : Prop := tasks_by_id (t_id t) x = Some t.

Lemma by_id_key {A} (key : A -> string) id l x : by_id key id l = Some x -> key x = id.
Proof. intros [_ H%String.eqb_eq]%find_some. exact H. Qed.
Lemma by_id_update {A} (key : A -> string) id id' f l :
  (forall x, key (f x) = key x) ->
  by_id key id (update_where (fun x => String.eqb (key x) id') f l)
  = (if String.eqb id id' then f <$> by_id key id l else by_id key id l).
Proof.
  intros K. unfold by_id. induction l as [|z l IH]; cbn; [by destruct (String.eqb id id') |].
  destruct (String.eqb (key z) id') eqn:E1, (String.eqb (key z) id) eqn:E2;
    rewrite ?K, ?E2, ?IH; try done.
  - apply String.eqb_eq in E1 as <-. apply String.eqb_eq in E2 as <-. by rewrite String.eqb_refl.
  - apply String.eqb_eq in E2 as <-. by rewrite E1.
Qed.

#[export] Instance moves_preorder : PreOrder moves.
Proof.
  split.
  - intros x id. split; [done | constructor].
  - intros x y z H1 H2 id. destruct (H1 id) as [S1 R1], (H2 id) as [S2 R2].
    split; [tauto | by eapply task_reach_trans].
Qed.
Lemma moves_app x t : point t = (NEW, None) -> moves x (x ++ [t])%list.
Proof.
  intros N id. unfold place, tasks_by_id. destruct (by_id t_id id x) as [u|] eqn:E.
  - rewrite (by_id_app _ _ _ _ _ E). split; [done | constructor].
  - split; [by intros [? ?] |]. unfold by_id in *.
    assert (F : find (fun u => String.eqb (t_id u) id) (x ++ [t])%list
                = if String.eqb (t_id t) id then Some t else None).
    { clear -E. induction x as [|y x IH]; cbn in *; [by destruct (String.eqb _ _) |].
      destruct (String.eqb (t_id y) id); [discriminate | by apply IH]. }
    rewrite F. destruct (String.eqb _ _); [rewrite N |]; constructor.
Qed.
Lemma moves_update t to rs at_ x :
  row t x -> task_step (point t) (to, rs) ->
  moves x (update_where (fun u => String.eqb (t_id u) (t_id t))
             (fun u => u <| t_state := to |> <| t_resume_state := rs |> <| t_updated_at := at_ |>) x).
Proof.
  intros R St id. unfold place, tasks_by_id, row in *. rewrite by_id_update; [|done].
  destruct (String.eqb id (t_id t)) eqn:E; [|split; [done | constructor]].
  apply String.eqb_eq in E as ->. unfold tasks_by_id in R. rewrite R. cbn.
  split; [done | by apply task_reach_one].
Qed.

(** Facts of the transition table. *)
Lemma pause_exit from to rs :
  is_pause from = true -> is_allowed from to rs = true -> is_pause to = false.
Proof. by_states. Qed.
Lemma resume_step s rs o :
  is_pause s = true -> validate_transition s rs o = Ok tt -> task_step (s, o) (rs, None).
Proof.
  intros P V%validate_transition_ok. apply step_allowed; [exact V | exact (pause_exit _ _ _ P V)].
Qed.
Lemma plain_step s s' o :
  validate_transition s s' o = Ok tt -> is_pause s' = false -> task_step (s, o) (s', None).
Proof. intros V%validate_transition_ok P. by apply step_allowed. Qed.
Lemma sync_plan_no_pause d decision cur :
  Forall (fun p => is_pause (snd p) = false) (_state_sync_plan d decision cur).
Proof.
  unfold _state_sync_plan, standard_step, rework_step. apply Forall_app. split.
  all: repeat case_match; repeat constructor.
Qed.

Section Lifecycle.
Context {env : Env}.
Abbreviation life := (focus db_tasks moves).

Lemma life_emit strict P type_ tid role state payload :
  life strict P (_emit type_ tid role state payload).
Proof. focus_pure. Qed.
Hint Resolve life_emit : focus.
Lemma life_insert_task strict P t : point t = (NEW, None) -> life strict P (_insert_task t).
Proof. intros N. apply focus_insert; [apply _ |]. intros db _ _. by apply moves_app. Qed.
Hint Extern 1 (focus _ _ _ _ (_insert_task _)) => apply life_insert_task; reflexivity : focus.

Lemma life_update strict P t to rs at_ :
  (forall x, P x -> row t x) -> task_step (point t) (to, rs) ->
  life strict P (_update_task_state (t_id t) to rs at_).
Proof.
  intros R St. unfold _update_task_state. apply focus_bind; [apply _ | | focus_pure].
  apply focus_update; [apply _ |]. intros db _ p. by apply moves_update; [apply R |].
Qed.
Lemma life_apply strict P t to rs :
  (forall x, P x -> row t x) -> task_step (point t) (to, rs) ->
  life strict P (_apply_transition t to rs).
Proof.
  intros R St. unfold _apply_transition. know. apply focus_bind; [apply _ | | focus_pure].
  by apply life_update.
Qed.

(** Reading a task. *)
Lemma life_get strict P {B} id (k : option Task -> cmd B) :
  (forall t, t_id t = id -> life strict (fun x => P x /\ row t x) (k (Some t))) ->
  life strict P (k None) -> life strict P (t ← get_task id; k t).
Proof.
  intros S N. apply focus_bind_query. intros db. destruct (by_id t_id id (db_tasks db)) as [t|] eqn:E.
  - pose proof (by_id_key _ _ _ _ E) as K. eapply focus_mono; [exact (S t K) |].
    intros x [p ->]. split; [exact p |]. unfold row, tasks_by_id. by rewrite K.
  - eapply focus_mono; [exact N |]. by intros x [p _].
Qed.
Lemma life_need strict P {B} id e (k : Task -> cmd B) :
  (forall t, t_id t = id -> life strict (fun x => P x /\ row t x) (k t)) ->
  life strict P (t ← need (get_task id) e; k t).
Proof.
  intros S. unfold need. apply focus_bind_assoc, life_get.
  - intros t E. apply focus_bind_some; [apply _ |]. intros t' [= <-]. by apply S.
  - apply focus_bind_some; [apply _ |]. discriminate.
Qed.
Lemma life_reread strict P id : life strict P (reread get_task id).
Proof. focus_pure. Qed.
Hint Resolve life_reread : focus.

Ltac known := intros ? Hx; tauto.
Ltac task_tac := repeat first
  [ progress cbv beta zeta
  | lazymatch goal with
    | |- focus _ _ _ _ (mbind _ (get_task _)) => apply life_get; [intros ? ? |]
    | |- focus _ _ _ _ (mbind _ (need (get_task _) _)) => apply life_need; intros ? ?
    end
  | know_step ].

Lemma life_idempotent strict {A} key command args (work : cmd (A * string)) refetch :
  life false any work -> (forall id, life false any (refetch id)) ->
  life strict any (_idempotent key command args work refetch).
Proof. intros Hw Hr. focus_pure. Qed.

(** The move a validated transition makes. *)
Ltac machine := unfold point;
  repeat match goal with
  | H : t_resume_state ?t = _ |- context [t_resume_state ?t] => rewrite H in *
  | H : t_state ?t = _ |- context [t_state ?t] => rewrite H in *
  end;
  first [ apply resume_step; [reflexivity | assumption] | apply plain_step; [assumption | done] ].

Lemma life_transition strict tid to source key : life strict any (transition tid to source key).
Proof.
  unfold transition. know. apply life_idempotent; [|focus_pure].
  task_tac. bools. apply focus_bind; [apply _ | | focus_pure].
  apply life_apply; [known |]. by apply plain_step.
Qed.
Lemma life_resume strict tid source key : life strict any (resume tid source key).
Proof.
  unfold resume. know. apply life_idempotent; [|focus_pure].
  task_tac. bools. apply focus_bind; [apply _ | | focus_pure].
  apply life_apply; [known |]. machine.
Qed.

(** A transition of a task just read, then anything. *)
Ltac apply_move := apply focus_bind; [apply _ | apply life_apply; [known | try machine] | focus_pure].

Lemma life_gated strict tid action scope role source :
  life strict any (request_gated_work tid action scope role source).
Proof.
  unfold request_gated_work, _require_actionable_state. task_tac.
  apply (focus_fact _ _ _ _ (t0 = t)); [unfold row; intros x [[_ R] R0]; congruence | intros ->].
  apply_move. by constructor.
Qed.
Lemma life_request strict tid action scope role source key :
  life strict any (request_action tid action scope role source key).
Proof.
  unfold request_action. know. case_match.
  - apply life_idempotent; [focus_pure | focus_pure].
  - apply life_idempotent; [apply life_gated | focus_pure].
  - apply focus_bind; [apply _ | apply life_idempotent; focus_pure | focus_pure].
Qed.
Lemma life_expire_and_release strict id : life strict any (_expire_and_release id).
Proof.
  unfold _expire_and_release. know. case_match; [|focus_pure]. task_tac.
  destruct (bool_decide (t_state t = OWNER_APPROVAL_REQUIRED)) eqn:S; cbn [negb]; [|focus_pure].
  bools. case_match; [case_match |]; know; bools; apply life_apply; try known; machine.
Qed.
Hint Resolve life_expire_and_release : focus.

(** The gate commands. *)
Lemma life_approve strict aid source tid action scope key :
  life strict any (approve aid source tid action scope key).
Proof. focus_pure. Qed.
Lemma life_reject strict aid source tid action scope key :
  life strict any (reject aid source tid action scope key).
Proof.
  unfold reject. know. apply focus_or_expire; [apply _ | | auto with focus].
  apply life_idempotent; [|focus_pure]. unfold _reject_work_in_transaction.
  know. apply focus_bind; [apply _ | | focus_pure]. task_tac; [|focus_pure].
  apply focus_bind; [apply _ | | focus_pure].
  unfold mwhen. destruct (bool_decide (t_state t = _)) eqn:S; [|focus_pure]. bools. task_tac. bools.
  apply life_apply; [known |]. machine.
Qed.
Lemma life_execute strict aid source tid action scope key :
  life strict any (execute_approved aid source tid action scope key).
Proof.
  unfold execute_approved. know. apply focus_or_expire; [apply _ | | auto with focus].
  apply life_idempotent; [|focus_pure]. unfold execute_work. task_tac; [|focus_pure].
  apply focus_bind; [apply _ | | focus_pure].
  unfold mwhen. destruct (bool_decide (t_state t = _)) eqn:S; [|focus_pure]. bools. destruct (t_resume_state t) eqn:R; [|focus_pure].
  task_tac. bools. apply life_apply; [known |]. machine.
Qed.

(** *** State synchronisation *)
Lemma life_run_plan strict P tid plan cur :
  (forall x, P x -> row cur x) -> Forall (fun p => is_pause (snd p) = false) plan ->
  life strict P (run_plan tid plan cur).
Proof.
  revert P cur. induction plan as [|[from to] plan IH]; intros P cur R F; cbn [run_plan]; [focus_pure |].
  apply Forall_cons in F as [F1 F]. know. bools.
  apply focus_bind; [apply _ | apply life_apply; [exact R | by apply plain_step] | intros].
  apply life_need. intros t _. apply IH; [known | exact F].
Qed.
Lemma life_state_sync strict P task d decision :
  (forall x, P x -> row task x) -> life strict P (_apply_state_sync task d decision).
Proof.
  intros R. unfold _apply_state_sync. destruct (bool_decide _) eqn:S; bools.
  - do 3 (apply focus_bind_assoc; know; bools).
    apply focus_bind; [apply _ | apply life_apply; [exact R | machine] | intros].
    apply life_need. intros t _. apply life_run_plan; [known | apply sync_plan_no_pause].
  - know. apply life_run_plan; [exact R | apply sync_plan_no_pause].
Qed.
Lemma life_accept strict P d task did validated :
  (forall x, P x -> row task x) -> life strict P (accept_result d task did validated).
Proof.
  intros R. unfold accept_result. know. case_match; [focus_pure |]. know.
  apply focus_bind; [apply _ | by apply life_state_sync | focus_pure].
Qed.
Lemma life_receive_work strict did meta result : life strict any (_receive_work did meta result).
Proof.
  unfold _receive_work. know. branch; [|focus_pure]. apply life_get; [|focus_pure]. intros t _.
  do 3 (branch; [focus_pure |]). branch; [focus_pure |]. know. branch; [focus_pure |].
  branch; [|focus_pure]. branch; try focus_pure. apply life_accept. known.
Qed.
Lemma life_receive strict did meta result source key :
  life strict any (receive_agent_result did meta result source key).
Proof.
  pose proof (life_receive_work false did meta result) as W.
  unfold receive_agent_result. know. branch; know; [branch |]; focus_tac.
Qed.

(** *** Recovery *)
Lemma life_park strict at_ tid : life strict any (park_task at_ tid).
Proof.
  unfold park_task. apply life_get; [|focus_pure]. intros t E.
  destruct (is_terminal _ || is_pause _) eqn:S; [focus_pure |]. bools.
  apply focus_bind; [apply _ | rewrite <- E; apply life_update; [known | by constructor] | focus_pure].
Qed.
Hint Resolve life_park : focus.

(** The rows of the tasks still to be visited are those of the snapshot. *)
Definition to_visit (l : list (Task * bool)) (x : list Task) : Prop :=
  forall t v, In (t, v) l -> row t x /\ v = true.
Lemma to_visit_update l t v f x :
  NoDup (map (fun tv => t_id tv.1) ((t, v) :: l)) -> (forall u, t_id (f u) = t_id u) ->
  to_visit l x -> to_visit l (update_where (fun u => String.eqb (t_id u) (t_id t)) f x).
Proof.
  intros N K V u w I. destruct (V u w I) as [R ->]. split; [|done].
  unfold row, tasks_by_id. rewrite by_id_update; [|done].
  destruct (String.eqb (t_id u) (t_id t)) eqn:E; [|exact R].
  exfalso. apply String.eqb_eq in E. cbn in N. apply NoDup_cons in N as [N _]. apply N.
  rewrite <- E. apply list_elem_of_In. exact (in_map (fun tv => t_id tv.1) _ _ I).
Qed.
Lemma recovery_move t :
  recovery_target t <> t_state t ->
  validate_transition RECOVERING (recovery_target t) (t_resume_state t) = Ok tt /\
  task_step (point t) (recovery_target t, None).
Proof.
  intros N. assert (S : t_state t = RECOVERING).
  { unfold recovery_target in N. destruct (t_state t); try done; by cbn in N. }
  unfold recovery_target in *. rewrite S in *. unfold point. rewrite S. cbn in *.
  destruct (t_resume_state t) as [[]|]; cbn; (split; [reflexivity | by constructor]).
Qed.

Lemma visit_recover_task strict P at_ cons acc t v l :
  NoDup (map (fun tv => t_id tv.1) ((t, v) :: l)) ->
  focus db_tasks (stable (to_visit l)) strict P (recover_task at_ cons acc (t, v)).
Proof.
  intros N.
  assert (U : forall to, focus db_tasks (stable (to_visit l)) strict P
                           (_update_task_state (t_id t) to None at_)).
  { intros to. apply focus_bind; [apply _ | | focus_pure]. apply focus_update; [apply _ |].
    intros db _ _ V. by apply (to_visit_update _ _ _ _ _ N). }
  unfold recover_task. focus_tac.
  all: by eapply focus_bind; [apply _ | apply U | focus_pure].
Qed.
Lemma life_recover_task strict P at_ cons acc t v :
  (forall x, P x -> row t x /\ v = true) ->
  life strict P (recover_task at_ cons acc (t, v)).
Proof.
  intros R. unfold recover_task. cbv zeta beta. branch; [focus_pure |].
  apply (focus_fact _ _ _ _ (v = true)); [intros x p; by apply R in p as [_ ->] | intros ->].
  cbn [negb]. case_bool_decide as B; [focus_pure |].
  destruct (recovery_move t B) as [-> M]. rewrite bool_decide_false; [|done].
  apply focus_bind; [apply _ | apply life_update; [intros x p; apply (R x p) | exact M] | focus_pure].
Qed.
Lemma life_recover_tasks strict at_ cons l acc :
  NoDup (map (fun tv : Task * bool => t_id tv.1) l) ->
  life strict (to_visit l) (mfold (recover_task at_ cons) l acc).
Proof.
  revert acc. induction l as [|[t v] l IH]; intros acc N; cbn [mfold]; [focus_pure |].
  apply (focus_bind_stable _ _ _ _ (to_visit l)).
  - apply life_recover_task. intros x V. apply V. by left.
  - intros x V u w I. apply V. by right.
  - by apply visit_recover_task.
  - intros acc'. apply IH. by apply NoDup_cons in N as [_ N].
Qed.

(** The snapshot of the tasks lists every row once, in a table with unique
    identifiers. *)
Definition ids_unique (x : list Task) : Prop := NoDup (map t_id x).
Lemma snapshot_visit x :
  ids_unique x -> NoDup (map (fun tv : Task * bool => t_id tv.1) (map (fun t => (t, true)) x))
                  /\ to_visit (map (fun t => (t, true)) x) x.
Proof.
  intros N. split; [by rewrite map_map |].
  intros t v [u [[= <- <-] I]]%in_map_iff. split; [|done].
  unfold row, tasks_by_id, by_id, ids_unique in *. clear -N I.
  induction x as [|y x IH]; [done | cbn in *]. apply NoDup_cons in N as [N1 N2].
  destruct I as [-> | I]; [by rewrite String.eqb_refl |].
  destruct (String.eqb (t_id y) (t_id u)) eqn:E; [|by apply IH].
  exfalso. apply String.eqb_eq in E. apply N1. rewrite E. by apply list_elem_of_In, in_map.
Qed.
Lemma ids_unique_update strict P id to rs at_ :
  focus db_tasks (stable ids_unique) strict P (_update_task_state id to rs at_).
Proof.
  apply focus_bind; [apply _ | | focus_pure]. apply focus_update; [apply _ |].
  intros db _ _ N. cbn. unfold ids_unique, update_where in *. rewrite map_map.
  erewrite map_ext; [exact N |]. intros t. cbn. by destruct (String.eqb _ _).
Qed.
Hint Resolve ids_unique_update : focus.

Lemma life_recover_work strict : life strict ids_unique _recover_work.
Proof.
  unfold _recover_work. know. match goal with p : _ * _ |- _ => destruct p as [cons pending] end.
  apply (focus_bind_stable _ _ _ _ ids_unique); [focus_pure | done | focus_pure | intros].
  do 4 know_step. apply focus_bind_query. intros db.
  apply focus_bind; [apply _ | | focus_pure].
  apply (focus_fact _ _ _ _ (ids_unique (db_tasks db))); [by intros x [N ->] | intros N].
  destruct (snapshot_visit _ N) as [N' V].
  eapply focus_mono; [by apply life_recover_tasks |]. by intros x [_ ->].
Qed.
Lemma life_recover strict source key : life strict ids_unique (recover source key).
Proof.
  assert (W : life false ids_unique (report ← _recover_work; mret (report, "recovered"))).
  { apply focus_bind; [apply _ | apply life_recover_work | focus_pure]. }
  unfold recover. know. unfold _idempotent. know. branch; know.
  - branch; [focus_pure |]. apply focus_bind; [apply _ | exact W | focus_pure].
  - apply focus_bind; [apply _ | exact W | focus_pure].
Qed.

Hint Resolve life_transition life_resume life_request life_approve life_reject life_execute
  life_receive : focus.
Lemma life_create_task strict pid title source key d r p :
  life strict any (create_task pid title source key d r p).
Proof. focus_pure. Qed.
Lemma life_run strict c : life strict ids_unique (run c).
Proof.
  destruct (is_recover c) eqn:R.
  - destruct c; try discriminate R. apply focus_bind; [apply _ | apply life_recover | focus_pure].
  - apply (focus_mono _ _ _ _ any); [|done]. destruct c; try discriminate R; cbn [run]; unfold void.
    all: apply focus_bind; [apply _ | | focus_pure].
    all: first [solve [auto 2 using life_create_task with focus nocore] | focus_pure].
Qed.

Lemma db_ok_ids db : db_ok db = true -> ids_unique (db_tasks db).
Proof.
  unfold db_ok, tasks_ok, uniq. rewrite !andb_true_iff, !bool_decide_eq_true. unfold ids_unique. tauto.
Qed.
Lemma run_moves c s : db_ok (st_db s) = true -> moves (db_tasks (st_db s)) (db_tasks (st_db (run c s).2)).
Proof.
  intros ok. destruct (run c s) as [r s'] eqn:E.
  exact (life_run true c s r s' (db_ok_ids _ ok) E (or_introl eq_refl)).
Qed.
Lemma run_all_moves cs s :
  db_ok (st_db s) = true -> moves (db_tasks (st_db s)) (db_tasks (st_db (run_all cs s))).
Proof.
  revert s. induction cs as [|c cs IH]; intros s ok; [reflexivity | cbn].
  etransitivity; [by apply run_moves | apply IH]. by apply (ev_ok _ _ (run_evolves c s)).
Qed.
Definition tasks_after (cs : list command) : list Task := db_tasks (st_db (run_all cs init_st)).
Lemma run_all_app cs cs' s : run_all (cs ++ cs') s = run_all cs' (run_all cs s).
Proof. revert s. induction cs as [|c cs IH]; intros s; [done | apply IH]. Qed.
Lemma session_moves cs cs' : moves (tasks_after cs) (tasks_after (cs ++ cs')).
Proof. unfold tasks_after. rewrite run_all_app. apply run_all_moves, run_all_ok. Qed.

(** C15: the command layer refines the task state machine: whatever commands
    follow (including failing ones, gate decisions, agent results and recovery),
    a task is never lost, it only moves along the machine's steps from where it
    was, and every task of a session got where it is from NEW. *)
Theorem tasks_follow_machine cs cs' id :
  (is_Some (tasks_by_id id (tasks_after cs)) -> is_Some (tasks_by_id id (tasks_after (cs ++ cs')))) /\
  task_reach (place id (tasks_after cs)) (place id (tasks_after (cs ++ cs'))) /\
  task_reach (NEW, None) (place id (tasks_after cs)).
Proof.
  destruct (session_moves cs cs' id) as [S R]. split; [exact S |]. split; [exact R |].
  exact (proj2 (session_moves [] cs id)).
Qed.

(** A finished task stays finished: once a task is DONE or CANCELLED, no
    later command of any source changes its state or resume point. *)
Theorem finished_tasks_final cs cs' id :
  is_terminal (fst (place id (tasks_after cs))) = false \/
  place id (tasks_after (cs ++ cs')) = place id (tasks_after cs).
Proof.
  destruct (is_terminal _) eqn:T; [right | by left].
  apply terminal_reach; [exact T | apply session_moves].
Qed.

(** Parking is always reversible: at every point of every session a task in
    a pause state has a resume target that is neither terminal nor a pause
    state, and a task elsewhere has none. *)
Theorem parked_tasks_resumable cs id : resume_ok (place id (tasks_after cs)).
Proof.
  apply (task_reach_inv resume_ok (NEW, None)); [|done | apply (session_moves [] cs id)].
  intros a b _ St. exact (task_step_resume_ok _ _ St).
Qed.
End Lifecycle.
