(* ===== verification/Authority.v ===== *)
(** * Authority: what a source can do, and what an executed action proves.

    The source checks of the commands, and the chain from an executed action
    back to the owner's approval.  [authorised] is the meaning of an execution
    row: an EXECUTED row is an autonomous action, or it carries the identifier
    of an approval that the owner approved, that is bound by hash to the same
    task, action and scope, and that was consumed by this very execution. *)
From S2P Require Import Prelude PyVal Models Timestamps StateMachine Trust Gates Registry.
From S2P Require Import CoreStore Core Dispatch Frames Session Scenario History Lifecycle.
#[local] Open Scope string_scope.

Section Authority.
Context {env : Env}.

(** ** Source checks *)
Lemma bind_err {A B} (m : cmd A) (k : A -> cmd B) s e s' :
  m s = (Err e, s') -> (x ← m; k x) s = (Err e, s').
Proof. intros E. unfold mbind, M_bind. by rewrite E. Qed.

Lemma check_source_err source s :
  classify_source source <> TRUSTED -> _check_source source s = (Err UntrustedSource, s).
Proof. intros N. unfold _check_source, raise_unless. by rewrite bool_decide_false. Qed.
Lemma require_owner_err source s :
  source <> OWNER_SOURCE ->
  _require_owner source s
  = (Err (if bool_decide (classify_source source = TRUSTED) then OwnerAuthorityRequired
          else UntrustedSource), s).
Proof.
  intros N. unfold _require_owner, lift, require_owner, res_unless. f_equal.
  case_bool_decide; cbn; [|done]. by apply String.eqb_neq in N as ->.
Qed.
Lemma require_controller_err source s :
  source <> role_source LEAD ->
  _require_controller source s
  = (Err (if bool_decide (classify_source source = TRUSTED) then PermissionDenied
          else UntrustedSource), s).
Proof.
  intros N. unfold _require_controller, _check_source, raise_unless, mbind, M_bind.
  apply String.eqb_neq in N. rewrite N. by case_bool_decide.
Qed.
Lemma untrusted_not_owner source : classify_source source <> TRUSTED -> source <> OWNER_SOURCE.
Proof. intros N ->. by apply N. Qed.
Lemma untrusted_not_lead source : classify_source source <> TRUSTED -> source <> role_source LEAD.
Proof. intros N ->. by apply N. Qed.
Lemma owner_not_lead : OWNER_SOURCE <> role_source LEAD.
Proof. done. Qed.

Lemma run_untrusted c s :
  classify_source (command_source c) <> TRUSTED -> run c s = (Err UntrustedSource, s).
Proof.
  intros N. pose proof (untrusted_not_owner _ N) as NO. pose proof (untrusted_not_lead _ N) as NL.
  destruct c; cbn [run command_source] in *; unfold void; apply bind_err.
  all: try (apply bind_err, check_source_err; exact N).
  all: try (apply bind_err; rewrite require_owner_err by exact NO; by rewrite bool_decide_false).
  all: apply bind_err; rewrite require_controller_err by exact NL; by rewrite bool_decide_false.
Qed.
Lemma run_not_owner c s :
  owner_command c = true -> command_source c <> OWNER_SOURCE -> exists e, run c s = (Err e, s).
Proof.
  intros O N. destruct c; try discriminate O; cbn [run command_source] in *; unfold void.
  all: eexists; do 2 apply bind_err; by apply require_owner_err.
Qed.
Lemma run_not_lead c s :
  controller_command c = true -> command_source c <> role_source LEAD -> exists e, run c s = (Err e, s).
Proof.
  intros O N. destruct c; try discriminate O; cbn [run command_source] in *; unfold void.
  all: eexists; do 2 apply bind_err; by apply require_controller_err.
Qed.

(** No command takes effect without the authority of its source: from a
    source that is not trusted every command raises [UntrustedSource]; an
    owner command from anyone else, and an orchestration command from anyone
    but the lead, is refused; and a refused command leaves the state exactly
    as it was. *)
Theorem source_authority c s :
  (classify_source (command_source c) = TRUSTED \/ run c s = (Err UntrustedSource, s)) /\
  (owner_command c = false \/ command_source c = OWNER_SOURCE \/ exists e, run c s = (Err e, s)) /\
  (controller_command c = false \/ command_source c = role_source LEAD \/
   exists e, run c s = (Err e, s)).
Proof.
  split; [|split].
  - destruct (decide (classify_source (command_source c) = TRUSTED)) as [D|D]; [by left | right].
    by apply run_untrusted.
  - destruct (owner_command c) eqn:O; [right | by left].
    destruct (decide (command_source c = OWNER_SOURCE)) as [D|D]; [by left | right].
    by apply run_not_owner.
  - destruct (controller_command c) eqn:O; [right | by left].
    destruct (decide (command_source c = role_source LEAD)) as [D|D]; [by left | right].
    by apply run_not_lead.
Qed.

(** ** Only the owner decides on approvals *)
Definition gate_decision (c : command) : bool :=
  match c with Approve _ _ _ _ _ _ | Reject _ _ _ _ _ _ | ExecuteApproved _ _ _ _ _ _ => true | _ => false end.
Lemma approvals_insert strict P a : focus db_approvals (grows eq) strict P (_insert_approval a).
Proof. apply focus_insert; [apply _ |]. intros db _ _. cbn. apply grows_app. apply _. Qed.
Hint Resolve approvals_insert : focus.
Lemma approvals_kept strict c :
  gate_decision c = false -> focus db_approvals (grows eq) strict any (run c).
Proof.
  intros G. destruct c; try discriminate G; clear G; cbn [run]; unfold void.
  all: try (apply focus_keep; [apply _ | keep_tac]).
  all: focus_pure.
Qed.

(** Only the owner decides on an approval: a command that changes an
    existing approval row in any way is approve, reject or execute_approved,
    issued from the authenticated owner source; any other command at most
    appends a new request. *)
Theorem owner_decides c s :
  (gate_decision c = true /\ command_source c = OWNER_SOURCE) \/
  exists new, db_approvals (st_db (run c s).2) = (db_approvals (st_db s) ++ new)%list.
Proof.
  destruct (gate_decision c) eqn:G.
  - destruct (decide (command_source c = OWNER_SOURCE)) as [D|D]; [by left | right].
    assert (O : owner_command c = true) by (destruct c; try discriminate G; reflexivity).
    destruct (run_not_owner c s O D) as [e ->]. exists []. by rewrite app_nil_r.
  - right. apply grows_eq. destruct (run c s) as [r s'] eqn:E.
    exact (approvals_kept true c G s r s' I E (or_introl eq_refl)).
Qed.

(** ** What an execution row proves *)
Definition approved_by (aps : list OwnerApproval) (ex : ActionExecution) (a : OwnerApproval) : Prop :=
  In a aps /\ ex_approval_id ex = Some (ap_id a) /\ ap_status a = AP_CONSUMED /\
  ap_execution_id a = Some (ex_id ex) /\ ap_source_class a = TRUSTED /\
  ex_task_id ex = ap_task_id a /\ ex_action ex = ap_action a /\ ex_scope ex = ap_scope a /\
  ap_binding_hash a = Some (binding_hash (ex_task_id ex) (ex_action ex) (ex_scope ex)) /\
  (exists at_, ap_executed_at a = Some at_ /\ str_ltb at_ (ap_expires_at a) = true) /\
  classify_action (ex_action ex) ALLOWED_WITH_GATE <> AC_FORBIDDEN.
Definition authorised (aps : list OwnerApproval) (ex : ActionExecution) : Prop :=
  ex_status ex = EX_EXECUTED ->
  (ex_approval_id ex = None /\ In (ex_action ex) AUTONOMOUS_ACTIONS) \/
  exists a, approved_by aps ex a.
Definition gate_log (db : DB) := (db_approvals db, db_executions db).
Definition all_authorised (x : list OwnerApproval * list ActionExecution) : Prop :=
  Forall (authorised x.1) x.2.

Lemma authorised_grows aps aps' ex :
  grows approval_evolves aps aps' -> authorised aps ex -> authorised aps' ex.
Proof.
  intros G A X. destruct (A X) as [? | (a & I1 & B)]; [by left | right].
  destruct (grows_In _ _ _ _ G I1) as (a' & I2 & [_ _ C]).
  assert (a' = a) as -> by (apply C; unfold is_live; destruct B as (_ & -> & _); reflexivity).
  by exists a.
Qed.
Abbreviation gated := (focus gate_log (stable all_authorised)).
Lemma gated_of_history strict {A} (m : cmd A) :
  focus id evolves strict any m -> focus db_executions eq strict any m -> gated strict any m.
Proof.
  intros H K s r s' _ E ok F. specialize (H s r s' I E ok). specialize (K s r s' I E ok).
  unfold part, gate_log, all_authorised, id in *. cbn in *. rewrite <- K.
  eapply Forall_impl; [exact F |]. intros ex. apply authorised_grows, H.
Qed.
Lemma gated_insert strict P ex :
  (forall aps, authorised aps ex) -> gated strict P (_insert_action_execution ex).
Proof.
  intros A. apply focus_insert; [apply _ |]. intros db _ _ F.
  apply Forall_app. split; [exact F | by constructor].
Qed.
Lemma gated_approval strict P a : gated strict P (_insert_approval a).
Proof.
  apply focus_insert; [apply _ |]. intros db _ _ F. eapply Forall_impl; [exact F |].
  intros ex. apply authorised_grows. cbn. apply grows_app. apply _.
Qed.
Hint Resolve gated_approval : focus.

Lemma permission_autonomous action p : permission_for action = Ok p -> In action AUTONOMOUS_ACTIONS.
Proof.
  unfold permission_for. destruct (find _ _) as [q|] eqn:F; [intros _ | discriminate].
  apply find_some in F as [I E%String.eqb_eq]. subst action. apply str_in_In.
  cbn in I. repeat destruct I as [<- | I]; try reflexivity. destruct I.
Qed.
Lemma gated_forbidden strict tid action scope role source :
  gated strict any (request_forbidden_work tid action scope role source).
Proof.
  unfold request_forbidden_work. know. apply focus_bind; [apply _ | | focus_pure].
  apply gated_insert. by intros aps X.
Qed.
Lemma gated_autonomous strict tid action scope role source :
  gated strict any (request_autonomous_work tid action scope role source).
Proof.
  unfold request_autonomous_work. know. apply focus_bind; [apply _ | | focus_pure].
  apply gated_insert. intros aps _. left. split; [done |]. by eapply permission_autonomous.
Qed.
Lemma gated_request strict tid action scope role source key :
  gated strict any (request_action tid action scope role source key).
Proof.
  pose proof gated_forbidden. pose proof gated_autonomous.
  unfold request_action. know. branch; focus_tac.
Qed.

Lemma update_rows_ok {A} (t : DB -> list A) `{Setter DB (list A) t} p f n s s' :
  update_rows t p f s = (Ok n, s') ->
  st_db s' = set t (update_where p f) (st_db s) /\ n = count_where p (t (st_db s)).
Proof.
  unfold update_rows. intros E. apply M_bind_ok in E as (n' & s1 & [-> <-]%gets_ok & E).
  apply M_bind_ok in E as ([] & s2 & W & [<- <-]%mret_ok). revert W. unfold write.
  destruct (db_ok _); [intros [= <-] | discriminate]. by split.
Qed.
Lemma insert_row_ok {A} (t : DB -> list A) `{Setter DB (list A) t} x u s s' :
  insert_row t x s = (Ok u, s') -> st_db s' = set t (fun l => (l ++ [x])%list) (st_db s).
Proof. unfold insert_row, write. destruct (db_ok _); [by intros [= _ <-] | discriminate]. Qed.

Lemma authorised_use aps ex a at_ p f :
  In a aps -> p a = true ->
  unexpired a at_ = true ->
  f = (fun a => a <| ap_status := AP_CONSUMED |> <| ap_consumed_at := Some at_ |>
                  <| ap_execution_id := Some (ex_id ex) |> <| ap_executed_at := Some at_ |>
                  <| ap_closed_at := Some at_ |>) ->
  ap_source_class a = TRUSTED ->
  ap_binding_hash a = Some (binding_hash (ap_task_id a) (ap_action a) (ap_scope a)) ->
  classify_action (ap_action a) ALLOWED_WITH_GATE <> AC_FORBIDDEN ->
  ex_approval_id ex = Some (ap_id a) -> ex_task_id ex = ap_task_id a ->
  ex_action ex = ap_action a -> ex_scope ex = ap_scope a ->
  authorised (update_where p f aps) ex.
Proof.
  intros I1 pa U -> T B C E1 E2 E3 E4 _. right. eexists. split.
  - apply in_map_iff. exists a. split; [reflexivity | exact I1].
  - rewrite pa. cbn. rewrite E2, E3, E4. repeat split; try done. by exists at_.
Qed.

(** The execution row and the consumption of its approval, as one step. *)
Lemma gated_use (P : _ -> Prop) a ex eid at_ {B} (k : nat -> cmd B) :
  (forall x, P x -> by_id ap_id (ap_id a) x.1 = Some a) ->
  ap_status a = AP_APPROVED -> str_leb (ap_expires_at a) at_ = false ->
  ap_source_class a = TRUSTED ->
  ap_binding_hash a = Some (binding_hash (ap_task_id a) (ap_action a) (ap_scope a)) ->
  classify_action (ap_action a) ALLOWED_WITH_GATE <> AC_FORBIDDEN ->
  ex_id ex = eid -> ex_approval_id ex = Some (ap_id a) -> ex_task_id ex = ap_task_id a ->
  ex_action ex = ap_action a -> ex_scope ex = ap_scope a ->
  (forall rc, gated false any (k rc)) ->
  gated false P (_ ← _insert_action_execution ex;
                 rc ← _consume_approval_with_execution (ap_id a) at_ eid;
                 _ ← raise_when (Nat.eqb rc 0) ApprovalError; k rc).
Proof.
  intros R S U T H C <- E1 E2 E3 E4 K s r s' p E ok F. destruct r as [b|e]; [|by destruct ok].
  apply M_bind_ok in E as ([] & s1 & W1 & E). apply insert_row_ok in W1.
  apply M_bind_ok in E as (rc & s2 & W2 & E). apply update_rows_ok in W2 as [W2 _].
  apply M_bind_ok in E as ([] & s3 & [_ <-]%raise_when_ok & E).
  refine (K rc s2 _ s' I E (or_intror eq_refl) _).
  assert (Hin : In a (db_approvals (st_db s))) by (apply R, find_some in p; tauto).
  unfold part, gate_log, all_authorised in *. rewrite W2, W1. cbn [fst snd] in *.
  assert (U' : unexpired a at_ = true) by (by unfold unexpired; rewrite str_ltb_leb, U).
  apply Forall_app. split.
  - eapply Forall_impl; [exact F |]. intros ex'. apply authorised_grows.
    apply grows_update; [apply _ |]. intros c [[_ S1%bool_decide_eq_true]%andb_true_iff _]%andb_true_iff.
    split; [reflexivity | by rewrite S1 | unfold is_live; rewrite S1; discriminate].
  - constructor; [|constructor].
    eapply (authorised_use _ _ a at_); try eassumption; try reflexivity.
    by rewrite String.eqb_refl, S, U'.
Qed.

Lemma check_binding_ok ap tid action scope s u s' :
  _check_full_binding ap tid action scope s = (Ok u, s') ->
  s' = s /\ ap_task_id ap = tid /\ ap_action ap = action /\ ap_scope ap = scope /\
  ap_binding_hash ap = Some (binding_hash tid action scope).
Proof.
  unfold _check_full_binding. intros E. apply M_bind_ok in E as ([] & s1 & [H <-]%raise_when_ok & E).
  apply raise_unless_ok in E as [H2 <-]. autorewrite with argent_b in *. tauto.
Qed.
Lemma gated_execute_work aid tid action scope :
  gated false any (execute_work aid tid action scope).
Proof.
  unfold execute_work. apply focus_bind_need; [apply _ |]. intros db a Ea.
  pose proof (by_id_key _ _ _ _ Ea) as <-.
  set (bound := ap_task_id a = tid /\ ap_action a = action /\ ap_scope a = scope /\
                ap_binding_hash a = Some (binding_hash tid action scope)).
  apply (focus_bind_pure _ _ _ _ _ (fun _ => bound)).
  { intros s r s' E. destruct r as [u|e].
    - apply check_binding_ok in E as (-> & ? & ? & ? & ?). split; [done |]. by intros.
    - split; [|discriminate]. revert E. unfold _check_full_binding, mbind, M_bind, raise_when, raise_unless.
      destruct (_ || _); [by intros [= _ <-] | cbn; by case_match; intros [= _ <-]]. }
  intros _ (<- & <- & <- & H). do 7 know_step. bools.
  apply (gated_use _ a); try assumption.
  - intros x [_ ->]. exact Ea.
  - by apply bool_decide_eq_false in H2.
  - done.
  - done.
  - done.
  - done.
  - done.
  - intros rc. apply gated_of_history; focus_pure.
Qed.

Lemma all_authorised_run c s :
  all_authorised (gate_log (st_db s)) -> all_authorised (gate_log (st_db (run c s).2)).
Proof.
  destruct (run c s) as [r s'] eqn:E. revert E.
  enough (G : gated true any (run c)) by (intros E; exact (G s r s' I E (or_introl eq_refl))).
  pose proof (hist_run true c) as Hc. destruct c; cbn [run] in *; unfold void in *.
  11: apply focus_bind; [apply _ | apply gated_request | focus_pure].
  13: { apply focus_bind; [apply _ | | focus_pure]. unfold execute_approved. know.
        pose proof gated_execute_work as W.
        apply focus_or_expire; [apply _ | | intros; apply gated_of_history; focus_pure].
        unfold _idempotent. know. branch; know; [branch |].
        all: try (apply gated_of_history; focus_pure).
        all: apply focus_bind; [apply _ | apply W | focus_pure]. }
  all: apply gated_of_history; [exact Hc | focus_pure].
Qed.

Definition db_after (cs : list command) : DB := st_db (run_all cs init_st).
Lemma all_authorised_after cs : all_authorised (gate_log (db_after cs)).
Proof.
  unfold db_after. enough (forall s, all_authorised (gate_log (st_db s)) ->
    all_authorised (gate_log (st_db (run_all cs s)))) as H by (apply H; constructor).
  induction cs as [|c cs IH]; intros s A; [exact A | apply IH, all_authorised_run, A].
Qed.


Lemma uniq_inj {A K} `{EqDecision K} (key : A -> K) l x y :
  uniq key l = true -> In x l -> In y l -> key x = key y -> x = y.
Proof.
  unfold uniq. intros N%bool_decide_eq_true. induction l as [|z l IH]; [done | cbn in *].
  apply NoDup_cons in N as [N1 N2]. rewrite list_elem_of_In, in_map_iff in N1.
  intros [-> | Hx] [-> | Hy] E; [done | | | by apply IH].
  - exfalso. apply N1. by exists y.
  - exfalso. apply N1. by exists x.
Qed.

(** An approval is used once: two EXECUTED actions of a session that name
    the same approval are the same execution. *)
Theorem approval_single_use cs e1 e2 :
  In e1 (db_executions (db_after cs)) -> In e2 (db_executions (db_after cs)) ->
  ex_status e1 = EX_EXECUTED -> ex_status e2 = EX_EXECUTED ->
  ex_approval_id e1 = ex_approval_id e2 -> ex_approval_id e1 <> None -> e1 = e2.
Proof.
  intros I1 I2 S1 S2 E N.
  pose proof (all_authorised_after cs) as A. unfold all_authorised in A. rewrite List.Forall_forall in A.
  destruct (A e1 I1 S1) as [[? _] | (a1 & J1 & X1 & _ & Y1 & _)]; [done |].
  destruct (A e2 I2 S2) as [[? _] | (a2 & J2 & X2 & _ & Y2 & _)]; [congruence |].
  pose proof (run_all_ok cs) as ok. unfold db_ok, approvals_ok, executions_ok in ok.
  rewrite !andb_true_iff in ok. fold (db_after cs) in ok.
  assert (a1 = a2) as -> by (eapply (uniq_inj ap_id); [|exact J1 | exact J2 | congruence]; tauto).
  eapply (uniq_inj ex_id); [|exact I1 | exact I2 | congruence]. tauto.
Qed.
End Authority.

Definition used_execution : ActionExecution :=
  mkActionExecution "u9" "u1" (Some "u5") "external_send" "mail" "lead" EX_EXECUTED
    "2024-02-29T01:05:00+00:00".
Lemma approval_single_use_witness :
  In used_execution (db_executions (@db_after sample_env used_session)) /\
  used_execution = used_execution.
Proof.
  assert (H : In used_execution (db_executions (@db_after sample_env used_session)))
    by (vm_compute; left; reflexivity).
  split; [exact H |].
  exact (@approval_single_use sample_env used_session _ _ H H eq_refl eq_refl eq_refl ltac:(discriminate)).
Defined.
