(* ===== verification/Gate.v ===== *)
(** * Gate: an owner gate can always be resolved.

    A task parked in OWNER_APPROVAL_REQUIRED has an open approval the owner can
    decide on.  The commands that close an approval (reject, expiry, execution)
    break this for one task inside their transaction and repair it by moving
    that task out of the gate; [gate_open] is the invariant and
    [open_but E] what holds in between.  The converse is not an invariant of
    the code: the last theorem exhibits a session where an approval is still
    pending although its task has left the gate. *)
From S2P Require Import Prelude PyVal Models Timestamps StateMachine Trust Gates Registry.
From S2P Require Import CoreStore Core Dispatch Frames Session Scenario History Lifecycle.
From S2P Require Import Authority.
#[local] Open Scope string_scope.

Definition has_open (db : DB) (id : string) : Prop :=
  exists a, In a (db_approvals db) /\ ap_task_id a = id /\ is_live a = true.
Definition in_gate (db : DB) (id : string) : Prop :=
  fst (place id (db_tasks db)) = OWNER_APPROVAL_REQUIRED.
(** Every gated task outside [E] has an open approval. *)
Definition open_but (E : string -> Prop) (db : DB) : Prop :=
  forall id, in_gate db id -> E id \/ has_open db id.
Definition gate_open : DB -> Prop := open_but (fun _ => False).

(** Partial correctness of a program that returns. *)
Definition triple (P : DB -> Prop) {A} (m : cmd A) (Q : A -> DB -> Prop) : Prop :=
  forall s a s', P (st_db s) -> m s = (Ok a, s') -> Q a (st_db s').
Lemma triple_bind P {A B} (m : cmd A) (k : A -> cmd B) Q R :
  triple P m Q -> (forall a, triple (Q a) (k a) R) -> triple P (x ← m; k x) R.
Proof.
  intros Hm Hk s b s' p E. apply M_bind_ok in E as (a & s1 & E1 & E2).
  exact (Hk a s1 b s' (Hm s a s1 p E1) E2).
Qed.
Lemma triple_stable (Q : DB -> Prop) {A} (m : cmd A) :
  focus id (stable Q) false any m -> triple Q m (fun _ => Q).
Proof. intros F s a s' q E. exact (F s _ s' I E (or_intror eq_refl) q). Qed.
Lemma focus_triple (Q : DB -> Prop) {A} (m : cmd A) :
  triple Q m (fun _ => Q) -> focus id (stable Q) false any m.
Proof. intros H s r s' _ E ok q. destruct r as [a|e]; [exact (H s a s' q E) | by destruct ok]. Qed.
Lemma triple_conseq (P P' : DB -> Prop) {A} (m : cmd A) Q (Q' : A -> DB -> Prop) :
  triple P' m Q -> (forall db, P db -> P' db) -> (forall a db, Q a db -> Q' a db) -> triple P m Q'.
Proof. intros H H1 H2 s a s' p E. apply H2, (H s a s'); auto. Qed.

Lemma triple_keep P {A B} (m : cmd A) (k : A -> cmd B) R :
  keep id m -> (forall a, triple P (k a) R) -> triple P (x ← m; k x) R.
Proof.
  intros K Hk. apply (triple_bind _ _ _ (fun _ => P)); [|exact Hk].
  intros s a s' p E. pose proof (K s _ s' I E (or_introl eq_refl)) as Q. unfold part, id in Q. by rewrite <- Q.
Qed.
Lemma triple_read (P : DB -> Prop) {A B} (f : DB -> A) (k : A -> cmd B) R :
  (forall a, triple (fun db => P db /\ f db = a) (k a) R) -> triple P (x ← query f; k x) R.
Proof. intros Hk s b s' p E. exact (Hk (f (st_db s)) s b s' (conj p eq_refl) E). Qed.
Lemma triple_lift P {A B} (r : res exc A) (k : A -> cmd B) R :
  (forall a, r = Ok a -> triple P (k a) R) -> triple P (x ← lift r; k x) R.
Proof.
  intros Hk s b s' p E. apply M_bind_ok in E as (a & s1 & [Er <-]%lift_ok & E).
  exact (Hk a Er s b s' p E).
Qed.
Lemma triple_unless P {B} b e (k : unit -> cmd B) R :
  (b = true -> triple P (k tt) R) -> triple P (x ← raise_unless b e; k x) R.
Proof.
  intros Hk s c s' p E. apply M_bind_ok in E as ([] & s1 & [Er <-]%raise_unless_ok & E).
  exact (Hk Er s c s' p E).
Qed.
Lemma triple_when P {B} b e (k : unit -> cmd B) R :
  (b = false -> triple P (k tt) R) -> triple P (x ← raise_when b e; k x) R.
Proof.
  intros Hk s c s' p E. apply M_bind_ok in E as ([] & s1 & [Er <-]%raise_when_ok & E).
  exact (Hk Er s c s' p E).
Qed.
Lemma triple_need (P : DB -> Prop) {A B} (f : DB -> option A) e (k : A -> cmd B) R :
  (forall a, triple (fun db => P db /\ f db = Some a) (k a) R) -> triple P (x ← need (query f) e; k x) R.
Proof.
  intros Hk s b s' p E. apply M_bind_ok in E as (a & s1 & E1 & E).
  apply M_bind_ok in E1 as (o & s2 & [-> <-]%gets_ok & [Eo <-]%some_or_ok).
  exact (Hk a s b s' (conj p Eo) E).
Qed.
Lemma triple_ret P {A} (a : A) (Q : A -> DB -> Prop) :
  (forall db, P db -> Q a db) -> triple P (mret a) Q.
Proof. intros H s b s' p [<- <-]%mret_ok. by apply H. Qed.
Lemma triple_update (P : DB -> Prop) {A} (t : DB -> list A) `{Setter DB (list A) t} p f Q :
  (forall db, P db -> db_ok (set t (update_where p f) db) = true ->
     Q (count_where p (t db)) (set t (update_where p f) db)) ->
  triple P (update_rows t p f) Q.
Proof.
  intros K s n s' HP E. unfold update_rows in E.
  apply M_bind_ok in E as (n' & s1 & [-> <-]%gets_ok & E).
  apply M_bind_ok in E as ([] & s2 & W & [<- <-]%mret_ok). revert W. unfold write.
  destruct (db_ok _) eqn:ok; [intros [= <-] | discriminate]. by apply K.
Qed.

(** ** How statements affect the gate *)
Lemma place_update id to rs at_ x id' :
  place id' (update_where (fun u => String.eqb (t_id u) id)
    (fun u => u <| t_state := to |> <| t_resume_state := rs |> <| t_updated_at := at_ |>) x)
  = if String.eqb id' id && bool_decide (is_Some (tasks_by_id id x)) then (to, rs) else place id' x.
Proof.
  unfold place, tasks_by_id. rewrite by_id_update; [|done].
  destruct (String.eqb id' id) eqn:E; cbn; [|done]. apply String.eqb_eq in E as ->.
  by destruct (by_id t_id id x).
Qed.
Definition gate_part (db : DB) := (db_tasks db, db_approvals db).

Lemma place_app id t x : point t = (NEW, None) -> place id (x ++ [t])%list = place id x.
Proof.
  intros N. unfold place, tasks_by_id. induction x as [|y x IH]; cbn.
  - destruct (String.eqb (t_id t) id); [exact N | done].
  - unfold by_id in *. cbn. by destruct (String.eqb (t_id y) id).
Qed.

(** Assertions about the tasks and approvals survive everything else. *)
Definition on_part (P : DB -> Prop) : Prop :=
  forall db db', gate_part db = gate_part db' -> P db -> P db'.
Lemma triple_part P {A B} (m : cmd A) (k : A -> cmd B) R :
  on_part P -> keep gate_part m -> (forall a, triple P (k a) R) -> triple P (x ← m; k x) R.
Proof.
  intros O K Hk. apply (triple_bind _ _ _ (fun _ => P)); [|exact Hk].
  intros s a s' p E. exact (O _ _ (K s _ s' I E (or_introl eq_refl)) p).
Qed.
Ltac on_part :=
  intros [] []; unfold gate_part; cbn; intros [= -> ->];
  unfold open_but, in_gate, has_open, row, tasks_by_id; cbn; tauto.

Section Gate.
Context {env : Env} (E : string -> Prop).
Abbreviation gate := (focus id (stable (open_but E))).

Lemma gate_same strict {A} (m : cmd A) : focus gate_part eq strict any m -> gate strict any m.
Proof.
  intros K s r s' _ R ok G. specialize (K s r s' I R ok). unfold part, gate_part, id in *.
  injection K as K1 K2. unfold open_but, in_gate, has_open in *. by rewrite <- K1, <- K2.
Qed.
Lemma gate_mono db db' :
  (forall id, in_gate db' id -> in_gate db id) -> (forall id, has_open db id -> has_open db' id) ->
  stable (open_but E) db db'.
Proof. intros HI HO G id I. destruct (G id (HI id I)) as [e | o]; [by left | right; auto]. Qed.
Lemma gate_insert_approval strict a : gate strict any (_insert_approval a).
Proof.
  apply focus_insert; [apply _ |]. intros db _ _. apply gate_mono; [done |].
  intros id (b & I1 & H). exists b. split; [|exact H]. cbn. apply in_or_app. by left.
Qed.
Lemma gate_mark_approved strict aid at_ : gate strict any (_mark_approved aid at_).
Proof.
  apply focus_update; [apply _ |]. intros db _ _. apply gate_mono; [done |].
  intros id (b & I1 & T & L).
  eexists. split; [apply in_map_iff; exists b; split; [reflexivity | exact I1] |].
  by case_match.
Qed.
Lemma gate_insert_task strict t : point t = (NEW, None) -> gate strict any (_insert_task t).
Proof.
  intros N. apply focus_insert; [apply _ |]. intros db _ _. apply gate_mono; [|done].
  unfold in_gate. cbn. intros id. rewrite place_app by exact N. done.
Qed.
Lemma gate_update strict id to rs at_ :
  to <> OWNER_APPROVAL_REQUIRED -> gate strict any (_update_task_state id to rs at_).
Proof.
  intros N. apply focus_bind; [apply _ | | focus_pure]. apply focus_update; [apply _ |].
  intros db _ _. apply gate_mono; [|done]. unfold in_gate. cbn. intros id'.
  rewrite place_update. by case_match.
Qed.
Lemma gate_emit strict type_ tid role state payload :
  gate strict any (_emit type_ tid role state payload).
Proof. apply gate_same. focus_pure. Qed.
Hint Resolve gate_insert_approval gate_mark_approved gate_update gate_emit : focus.
Lemma gate_apply strict t to rs :
  to <> OWNER_APPROVAL_REQUIRED -> gate strict any (_apply_transition t to rs).
Proof. intros N. focus_pure. Qed.
Hint Resolve gate_apply : focus.

Ltac gate_tac := repeat first
  [ progress cbv beta zeta
  | focus_done
  | lazymatch goal with
    | |- focus _ _ _ _ (mbind _ (raise_unless _ _)) => know_step
    | |- focus _ _ _ _ (mbind _ (raise_when _ _)) => know_step
    | |- focus _ _ _ _ (mbind _ (lift _)) => know_step
    | |- focus _ _ _ _ (mbind _ (some_or _ _)) => know_step
    | |- focus _ _ _ _ (mbind _ (mret _)) => know_step
    end
  | lazymatch goal with
    | |- focus _ _ _ _ (_apply_transition _ _ _) => apply gate_apply
    | |- focus _ _ _ _ (_update_task_state _ _ _ _) => apply gate_update
    end
  | lazymatch goal with
    | |- focus _ _ _ _ (mbind _ _) => focus_step
    | |- focus _ _ _ _ (match _ with _ => _ end) => branch
    end
  | solve [apply gate_same; keep_tac]
  | focus_step ].

(** A target that is not a pause state is not the gate. *)
Lemma no_gate to : is_pause to = false -> to <> OWNER_APPROVAL_REQUIRED.
Proof. by intros H ->. Qed.
Lemma validate_no_gate from to rs :
  is_pause from = true -> validate_transition from to rs = Ok tt -> to <> OWNER_APPROVAL_REQUIRED.
Proof. intros P V%validate_transition_ok. by apply no_gate, (pause_exit _ _ _ P V). Qed.

Lemma gate_idempotent strict {A} key command args (work : cmd (A * string)) refetch :
  gate false any work -> (forall id, gate false any (refetch id)) ->
  gate strict any (_idempotent key command args work refetch).
Proof. intros Hw Hr. unfold _idempotent. gate_tac. Qed.
Lemma gate_transition strict tid to source key : gate strict any (transition tid to source key).
Proof.
  unfold transition. know. apply gate_idempotent; intros; gate_tac; bools. by apply no_gate.
Qed.
Lemma gate_resume strict tid source key : gate strict any (resume tid source key).
Proof.
  unfold resume. know. apply gate_idempotent; intros; gate_tac; bools.
  eapply validate_no_gate; [|eassumption].
  match goal with H : t_state _ = PAUSED |- _ => by rewrite H end.
Qed.
Lemma gate_create_task strict pid title source key d r p :
  gate strict any (create_task pid title source key d r p).
Proof.
  unfold create_task. know. apply gate_idempotent; intros; gate_tac. by apply gate_insert_task.
Qed.
Lemma gate_run_plan strict tid plan cur :
  Forall (fun p => is_pause (snd p) = false) plan -> gate strict any (run_plan tid plan cur).
Proof.
  revert cur. induction plan as [|[f t] plan IH]; intros cur F; cbn [run_plan]; [gate_tac |].
  apply Forall_cons in F as [F1 F]. know. apply focus_bind; [apply _ | by apply gate_apply, no_gate | intros].
  apply focus_bind; [apply _ | gate_tac | intros t']. by apply IH.
Qed.
Lemma gate_state_sync strict task d decision : gate strict any (_apply_state_sync task d decision).
Proof.
  unfold _apply_state_sync. apply focus_bind; [apply _ | |].
  - destruct (bool_decide _) eqn:S; [|gate_tac]. gate_tac. bools. eapply validate_no_gate; [|eassumption]. by rewrite S.
  - intros t. apply gate_run_plan, sync_plan_no_pause.
Qed.
Lemma gate_receive strict did meta result source key :
  gate strict any (receive_agent_result did meta result source key).
Proof.
  pose proof gate_state_sync as W. unfold receive_agent_result, _receive_work, accept_result. gate_tac.
Qed.
Lemma gate_recover_task strict at_ cons acc tv : gate strict any (recover_task at_ cons acc tv).
Proof.
  destruct tv as [t v]. unfold recover_task. cbv zeta beta. branch; [gate_tac |].
  branch; [gate_tac; discriminate |]. branch; [gate_tac |].
  apply bool_decide_eq_false in E2. destruct (recovery_move t E2) as [V M]. rewrite V.
  rewrite bool_decide_false; [|exact E2]. gate_tac. apply no_gate.
  by inversion M.
Qed.
Lemma gate_recover strict source key : gate strict any (recover source key).
Proof.
  pose proof gate_recover_task as W. unfold recover, _recover_work. know. apply gate_idempotent; intros; gate_tac.
  unfold park_task. gate_tac. discriminate.
Qed.

(** *** Closing an approval, and leaving the gate *)
Definition or_task (tid id : string) : Prop := E id \/ id = tid.
Definition closing (aid : string) (db : DB) : Prop :=
  uniq ap_id (db_approvals db) = true /\
  forall id, in_gate db id ->
    E id \/ has_open db id \/ exists a, In a (db_approvals db) /\ ap_id a = aid /\ ap_task_id a = id.

Lemma approvals_unique db : db_ok db = true -> uniq ap_id (db_approvals db) = true.
Proof. unfold db_ok, approvals_ok. rewrite !andb_true_iff. tauto. Qed.
Lemma close_approval aid p f :
  (forall x, p x = true -> ap_id x = aid) ->
  (forall x, ap_id (f x) = ap_id x /\ ap_task_id (f x) = ap_task_id x) ->
  triple (open_but E) (update_rows db_approvals p f) (fun _ => closing aid).
Proof.
  intros Hp Hf. apply triple_update. intros db G ok. split; [exact (approvals_unique _ ok) |].
  intros id I. destruct (G id I) as [e | (a & I1 & T & L)]; [by left | right].
  assert (I2 : In (if p a then f a else a) (update_where p f (db_approvals db)))
    by (apply in_map_iff; by exists a).
  destruct (p a) eqn:pa; [right | left]; eexists; (split; [exact I2 |]); [|done].
  destruct (Hf a) as [-> ->]. by rewrite Hp.
Qed.
Lemma closing_task aid a db :
  by_id ap_id aid (db_approvals db) = Some a -> closing aid db -> open_but (or_task (ap_task_id a)) db.
Proof.
  intros [I1 J1%String.eqb_eq]%find_some [U C] id I. destruct (C id I) as [e | [o | (b & I2 & J2 & <-)]].
  - left. by left.
  - by right.
  - left. right. by rewrite (uniq_inj ap_id _ a b U I1 I2) by congruence.
Qed.
Lemma not_gated tid db : open_but (or_task tid) db -> ~ in_gate db tid -> open_but E db.
Proof. intros G N id I. destruct (G id I) as [[e | ->] | o]; [by left | done | by right]. Qed.

Lemma leave_gate t to rs :
  to <> OWNER_APPROVAL_REQUIRED ->
  triple (fun db => open_but (or_task (t_id t)) db /\ row t (db_tasks db))
    (_apply_transition t to rs) (fun _ => open_but E).
Proof.
  intros N. unfold _apply_transition. apply triple_keep; [keep_tac | intros at_].
  apply (triple_bind _ _ _ (fun _ => open_but E)).
  - unfold _update_task_state. apply (triple_bind _ _ _ (fun _ => open_but E));
      [|intros; apply triple_ret; done].
    apply triple_update. intros db [G R] _ id. unfold in_gate. cbn. rewrite place_update.
    unfold row in R. rewrite R, bool_decide_true, andb_true_r by done.
    destruct (String.eqb id (t_id t)) eqn:Eq; [by intros [=] |]. apply String.eqb_neq in Eq.
    intros I. destruct (G id I) as [[e | e] | o]; [by left | done | right; exact o].
  - intros []. apply triple_stable. gate_tac.
Qed.

Lemma closing_none aid db :
  by_id ap_id aid (db_approvals db) = None -> closing aid db -> open_but E db.
Proof.
  intros N [_ C] id I. destruct (C id I) as [e | [o | (a & I1 & J & _)]]; [by left | by right |].
  pose proof (find_none _ _ N a I1) as F. cbn in F. by rewrite J, String.eqb_refl in F.
Qed.
Lemma no_task_no_gate tid db : tasks_by_id tid (db_tasks db) = None -> ~ in_gate db tid.
Proof. unfold in_gate, place. by intros ->. Qed.
Lemma task_no_gate t db :
  row t (db_tasks db) -> t_state t <> OWNER_APPROVAL_REQUIRED -> ~ in_gate db (t_id t).
Proof. unfold in_gate, place, row. by intros ->. Qed.

Lemma leave_validated t to rs :
  t_state t = OWNER_APPROVAL_REQUIRED ->
  triple (fun db => open_but (or_task (t_id t)) db /\ row t (db_tasks db))
    (_ ← lift (validate_transition (t_state t) to rs); _apply_transition t to None)
    (fun _ => open_but E).
Proof.
  intros S. apply triple_lift. intros [] V. apply leave_gate.
  eapply validate_no_gate; [|exact V]. by rewrite S.
Qed.

(** What the closing commands do with the task of the closed approval. *)
Lemma settle (Q : DB -> Prop) tid {B} (k : option Task -> cmd B) R :
  (triple (open_but E) (k None) R) ->
  (forall t, t_id t = tid -> (exists db, Q db /\ row t (db_tasks db)) ->
     (t_state t = OWNER_APPROVAL_REQUIRED ->
      triple (fun db => open_but (or_task (t_id t)) db /\ row t (db_tasks db)) (k (Some t)) R) /\
     (t_state t <> OWNER_APPROVAL_REQUIRED -> triple (open_but E) (k (Some t)) R)) ->
  triple (fun db => open_but (or_task tid) db /\ Q db) (t ← get_task tid; k t) R.
Proof.
  intros HN HS. apply triple_read. intros [t|].
  - intros s b s' [[G q] F] Ek. pose proof (by_id_key _ _ _ _ F) as K.
    assert (Rw : row t (db_tasks (st_db s))) by (unfold row, tasks_by_id; by rewrite K).
    destruct (HS t K (ex_intro _ _ (conj q Rw))) as [H1 H2].
    destruct (decide (t_state t = OWNER_APPROVAL_REQUIRED)) as [D|D].
    + refine (H1 D s b s' _ Ek). by rewrite K.
    + refine (H2 D s b s' _ Ek). apply (not_gated tid); [exact G |]. rewrite <- K. by apply task_no_gate.
  - intros s b s' [[G q] F] Ek. refine (HN s b s' _ Ek). apply (not_gated tid); [exact G |].
    by apply no_task_no_gate.
Qed.

Lemma expire_triple aid : triple (open_but E) (_expire_and_release aid) (fun _ => open_but E).
Proof.
  unfold _expire_and_release. apply triple_keep; [keep_tac | intros at_].
  apply (triple_bind _ _ _ (fun _ => closing aid)).
  { apply close_approval; [|done]. intros x H. autorewrite with argent_b in H. tauto. }
  intros n. apply triple_read. intros [ap|].
  2: { apply triple_ret. intros db [C N]. by eapply closing_none. }
  apply (triple_conseq _ (fun db => open_but (or_task (ap_task_id ap)) db /\ True) _ (fun _ => open_but E));
    [apply (settle (fun _ => True)) | intros db [C F]; split; [exact (closing_task _ _ _ F C) | done] | by intros].
  - by apply triple_ret.
  - intros t _ _. split; intros S; [rewrite bool_decide_true by exact S | rewrite bool_decide_false by exact S]; cbn [negb].
    + destruct (t_resume_state t) as [r|]; [case_match |]; by apply leave_validated.
    + by apply triple_ret.
Qed.

(** Closing an approval that was read before. *)
Lemma close_known (Q : list Task -> Prop) a p f :
  (forall x, p x = true -> ap_id x = ap_id a) ->
  (forall x, ap_id (f x) = ap_id x /\ ap_task_id (f x) = ap_task_id x) ->
  triple (fun db => (open_but E db /\ Q (db_tasks db)) /\ by_id ap_id (ap_id a) (db_approvals db) = Some a)
    (update_rows db_approvals p f)
    (fun _ db => open_but (or_task (ap_task_id a)) db /\ Q (db_tasks db)).
Proof.
  intros Hp Hf s n s' [[G q] F] U. pose proof (close_approval (ap_id a) p f Hp Hf s n s' G U) as C.
  apply update_rows_ok in U as [U _]. rewrite U in C |- *. split; [|exact q].
  apply find_some in F as [I1 _].
  assert (I2 : In (if p a then f a else a) (update_where p f (db_approvals (st_db s))))
    by (apply in_map_iff; by exists a).
  destruct C as [Uq C]. intros id I.
  destruct (C id I) as [e | [o | (b & J & K1 & <-)]]; [left; by left | by right | left; right].
  assert (K2 : ap_id (if p a then f a else a) = ap_id a /\ ap_task_id (if p a then f a else a) = ap_task_id a)
    by (destruct (p a); [apply Hf | done]).
  rewrite (uniq_inj ap_id _ b _ Uq J I2); [apply K2 | rewrite K1; symmetry; apply K2].
Qed.
Definition resumable (x : list Task) : Prop := forall id, resume_ok (place id x).
Definition holds (Q : list Task -> Prop) (a : OwnerApproval) (db : DB) : Prop :=
  (open_but E db /\ Q (db_tasks db)) /\ by_id ap_id (ap_id a) (db_approvals db) = Some a.
Lemma holds_part Q a : on_part (holds Q a).
Proof. unfold holds. on_part. Qed.
Lemma triple_need_approval (P : DB -> Prop) aid {B} e (k : OwnerApproval -> cmd B) R :
  (forall a, ap_id a = aid ->
     triple (fun db => P db /\ by_id ap_id (ap_id a) (db_approvals db) = Some a) (k a) R) ->
  triple P (a ← need (get_approval aid) e; k a) R.
Proof.
  intros Hk. apply triple_need. intros a s b s' [p F] E1. pose proof (by_id_key _ _ _ _ F) as K.
  refine (Hk a K s b s' _ E1). by rewrite K.
Qed.
Lemma reject_triple ap tid action scope :
  triple (holds (fun _ => True) ap)
    (_reject_work_in_transaction ap tid action scope) (fun _ => open_but E).
Proof.
  unfold _reject_work_in_transaction.
  apply triple_keep; [keep_tac | intros _]. apply triple_keep; [keep_tac | intros at_].
  apply triple_when. intros _. eapply triple_bind.
  { apply (close_known (fun _ => True)); [|done]. intros x H. autorewrite with argent_b in H. tauto. }
  intros n. apply triple_when. intros _. apply settle.
  - apply triple_stable. gate_tac.
  - intros t _ _. unfold mwhen. split; intros S.
    + rewrite bool_decide_true by exact S.
      eapply triple_bind; [by apply leave_validated | intros []]. apply triple_stable. gate_tac.
    + rewrite bool_decide_false by exact S. apply triple_stable. gate_tac.
Qed.
Lemma execute_triple aid tid action scope :
  triple (fun db => open_but E db /\ resumable (db_tasks db))
    (execute_work aid tid action scope) (fun _ => open_but E).
Proof.
  unfold execute_work. apply triple_need_approval. intros ap <-.
  apply (triple_conseq _ (holds resumable ap) _ (fun _ => open_but E)); [| done | done].
  apply triple_keep; [keep_tac | intros _]. apply triple_keep; [keep_tac | intros at_].
  apply triple_unless. intros _. apply triple_when. intros _. apply triple_when. intros _.
  apply triple_unless. intros _. apply triple_keep; [keep_tac | intros eid].
  apply triple_keep; [keep_tac | intros created_at].
  apply triple_part; [apply holds_part | keep_tac | intros _]. eapply triple_bind.
  { apply (close_known resumable); [|done]. intros x H. autorewrite with argent_b in H. tauto. }
  intros n. apply triple_when. intros _. apply settle.
  - apply triple_stable. gate_tac.
  - intros t _ (db & Rs & Rw). unfold mwhen. split; intros S.
    + rewrite bool_decide_true by exact S. specialize (Rs (t_id t)).
      unfold place in Rs. unfold row in Rw. rewrite Rw in Rs. unfold point in Rs. rewrite S in Rs.
      destruct (t_resume_state t) as [r|]; [|discriminate Rs].
      eapply triple_bind; [by apply leave_validated | intros []]. apply triple_stable. gate_tac.
    + rewrite bool_decide_false by exact S. apply triple_stable. gate_tac.
Qed.

(** Entering the gate with an open approval. *)
Lemma enter_gate t to rs :
  triple (fun db => open_but E db /\ has_open db (t_id t)) (_apply_transition t to rs) (fun _ => open_but E).
Proof.
  unfold _apply_transition. apply triple_keep; [keep_tac | intros at_].
  apply (triple_bind _ _ _ (fun _ => open_but E)).
  - unfold _update_task_state. apply (triple_bind _ _ _ (fun _ => open_but E));
      [|intros; apply triple_ret; done].
    apply triple_update. intros db [G O] _ id. unfold in_gate. cbn. rewrite place_update.
    destruct (String.eqb id (t_id t)) eqn:Eq; [|exact (G id)]. apply String.eqb_eq in Eq as ->.
    by right.
  - intros []. apply triple_stable. gate_tac.
Qed.
Lemma triple_need_task (P : DB -> Prop) tid {B} e (k : Task -> cmd B) R :
  (forall t, t_id t = tid -> triple P (k t) R) -> triple P (t ← need (get_task tid) e; k t) R.
Proof.
  intros Hk. apply triple_need. intros t s b s' [p F] E1.
  exact (Hk t (by_id_key _ _ _ _ F) s b s' p E1).
Qed.
Lemma request_triple tid action scope role source :
  triple (open_but E) (request_gated_work tid action scope role source) (fun _ => open_but E).
Proof.
  unfold request_gated_work. apply triple_need. intros t0.
  apply (triple_conseq _ (open_but E) _ (fun _ => open_but E)); [| tauto | done].
  apply triple_keep; [keep_tac | intros _]. apply triple_keep; [keep_tac | intros _].
  apply triple_keep; [keep_tac | intros aps]. apply triple_when. intros _.
  apply triple_keep; [keep_tac | intros aid]. apply triple_keep; [keep_tac | intros at_].
  apply triple_keep; [keep_tac | intros exp].
  apply (triple_bind _ _ _ (fun _ db => open_but E db /\ has_open db tid)).
  - intros s u s' G I1. pose proof (gate_insert_approval false _ s _ s' I I1 (or_intror eq_refl) G) as G'.
    split; [exact G' |]. apply insert_row_ok in I1. rewrite I1. unfold part, id in *.
    eexists. split; [apply in_or_app; right; left; reflexivity |]. by split.
  - intros []. apply triple_need_task. intros t <-. apply triple_lift. intros [] _.
    eapply triple_bind; [apply enter_gate | intros []]. apply triple_stable. gate_tac.
Qed.

(** *** Every command *)
Definition resumable_db (db : DB) : Prop := resumable (db_tasks db).
Lemma gate_expire strict aid : focus id (stable (open_but E)) strict any (transaction (_expire_and_release aid)).
Proof. apply focus_transaction; [apply _ |]. apply focus_triple, expire_triple. Qed.
Lemma gate_or_expire strict P {A} (m : cmd A) :
  focus id (stable (open_but E)) true P m -> focus id (stable (open_but E)) strict P (or_expire m).
Proof.
  intros H. apply focus_or_expire; [apply _ | exact H |]. intros aid. apply focus_triple, expire_triple.
Qed.
Lemma gate_request strict tid action scope role source key :
  gate strict any (request_action tid action scope role source key).
Proof.
  unfold request_action. know. apply focus_bind; [apply _ | gate_tac | intros]. branch.
  - apply gate_idempotent; intros; gate_tac.
  - apply gate_idempotent; intros; [apply focus_triple, request_triple | gate_tac].
  - apply focus_bind; [apply _ | apply gate_idempotent; intros; gate_tac | intros; gate_tac].
Qed.
Lemma gate_reject strict aid source tid action scope key :
  gate strict any (reject aid source tid action scope key).
Proof.
  unfold reject. know. apply gate_or_expire, gate_idempotent; intros; [|gate_tac].
  apply focus_triple. apply triple_need_approval. intros ap <-.
  eapply triple_bind; [|intros r; apply triple_ret; intros db H; exact H].
  apply (triple_conseq _ (holds (fun _ => True) ap) _ (fun _ => open_but E));
    [apply reject_triple | | done]. intros db [G F]. by split.
Qed.
Lemma gate_approve strict aid source tid action scope key :
  gate strict any (approve aid source tid action scope key).
Proof.
  unfold approve. know. apply gate_or_expire, gate_idempotent; intros; [|gate_tac].
  unfold _approve_work_in_transaction. gate_tac.
Qed.
Lemma gate_execute strict aid source tid action scope key :
  focus id (stable (open_but E)) strict resumable_db (execute_approved aid source tid action scope key).
Proof.
  assert (W : focus id (stable (open_but E)) false resumable_db (execute_work aid tid action scope)).
  { intros s r s' Rs Ex ok G. destruct r as [a|e]; [|by destruct ok].
    exact (execute_triple aid tid action scope s a s' (conj G Rs) Ex). }
  unfold execute_approved. know. apply gate_or_expire. unfold _idempotent. know. branch; know.
  - branch; [gate_tac |]. apply focus_bind; [apply _ | exact W | intros; gate_tac].
  - apply focus_bind; [apply _ | exact W | intros; gate_tac].
Qed.
End Gate.

Section Sessions.
Context {env : Env}.
Abbreviation gate_inv := (focus id (stable gate_open)).

Lemma gate_run strict c : gate_inv strict resumable_db (run c).
Proof.
  destruct c; cbn [run]; unfold void.
  all: apply focus_bind; [apply _ | | intros; apply focus_ret; apply _].
  all: lazymatch goal with
    | |- focus _ _ _ _ (execute_approved _ _ _ _ _ _) => apply gate_execute
    | |- _ => apply (focus_mono _ _ _ _ any); [|done]
    end.
  all: lazymatch goal with
    | |- focus _ _ _ _ (execute_approved _ _ _ _ _ _) => idtac
    | |- focus _ _ _ _ (transition _ _ _ _) => apply gate_transition
    | |- focus _ _ _ _ (resume _ _ _) => apply gate_resume
    | |- focus _ _ _ _ (create_task _ _ _ _ _ _ _) => apply gate_create_task
    | |- focus _ _ _ _ (receive_agent_result _ _ _ _ _) => apply gate_receive
    | |- focus _ _ _ _ (recover _ _) => apply gate_recover
    | |- focus _ _ _ _ (request_action _ _ _ _ _ _) => apply gate_request
    | |- focus _ _ _ _ (reject _ _ _ _ _ _) => apply gate_reject
    | |- focus _ _ _ _ (approve _ _ _ _ _ _) => apply gate_approve
    | |- _ => apply gate_same; keep_tac
    end.
Qed.
Lemma resumable_after cs : resumable (tasks_after cs).
Proof.
  intros id. apply (task_reach_inv resume_ok (NEW, None)); [|done | apply (session_moves [] cs id)].
  intros a b _ St. exact (task_step_resume_ok _ _ St).
Qed.
Lemma run_all_snoc cs c : run_all (cs ++ [c]) init_st = (run c (run_all cs init_st)).2.
Proof. by rewrite run_all_app. Qed.
Lemma gate_after cs : gate_open (db_after cs).
Proof.
  unfold db_after. induction cs as [|c cs IH] using rev_ind.
  - intros id. unfold in_gate. by cbn.
  - rewrite run_all_snoc. destruct (run c _) as [r s'] eqn:E.
    exact (gate_run true c _ r s' (resumable_after cs) E (or_introl eq_refl) IH).
Qed.

(** C21: an owner gate never deadlocks: at every point of every session each task
    in OWNER_APPROVAL_REQUIRED has an open (pending or approved) approval of its
    own that the owner can decide, and a resume point it returns to that is
    neither terminal nor a pause state. *)
Theorem gated_task_has_approval cs t :
  let db := db_after cs in
  by_id t_id (t_id t) (db_tasks db) = Some t ->
  t_state t = OWNER_APPROVAL_REQUIRED ->
  existsb (fun a => String.eqb (ap_task_id a) (t_id t) && is_live a) (db_approvals db) = true /\
  is_valid_resume_target (t_resume_state t) = true.
Proof.
  cbn zeta. intros R S. pose proof (resumable_after cs (t_id t)) as V.
  assert (G : in_gate (db_after cs) (t_id t)) by (unfold in_gate, place, tasks_by_id; by rewrite R).
  split.
  - destruct (gate_after cs _ G) as [[] | (a & I1 & T & L)]. apply existsb_exists. exists a.
    split; [exact I1 |]. by rewrite T, String.eqb_refl, L.
  - unfold place, tasks_by_id in V. unfold tasks_after in V. fold (db_after cs) in V.
    rewrite R in V. unfold point in V. rewrite S in V. cbn in V.
    destruct (t_resume_state t); [apply V | discriminate V].
Qed.
End Sessions.

Definition gated_task : Task :=
  mkTask "u1" "u0" "t" OWNER_APPROVAL_REQUIRED (Some NEW) OWNER_SOURCE TRUSTED
    "2024-02-29T00:05:00+00:00" "2024-02-29T00:35:00+00:00" None None NORMAL ALLOWED_WITH_GATE.
Lemma gated_task_has_approval_witness :
  existsb (fun a => String.eqb (ap_task_id a) "u1" && is_live a)
    (db_approvals (@db_after sample_env gate_session)) = true /\
  is_valid_resume_target (Some NEW) = true.
Proof.
  exact (@gated_task_has_approval sample_env gate_session gated_task
           ltac:(vm_compute; reflexivity) eq_refl).
Defined.

(** The converse does not hold of the code: rejecting an approval that was
    already used and has since passed its expiry is refused with
    [ApprovalError], but it releases the task from the gate it entered for
    another request, whose approval stays pending; [_expire_and_release] does
    not look at how many rows [_mark_expired] changed. *)
Theorem late_reject_opens_gate :
  let before := @run_all sample_env again_session init_st in
  let after := @run sample_env (Reject "u5" OWNER_SOURCE "u1" "external_send" "mail" None) before in
  summary again_session
  = ([(OWNER_APPROVAL_REQUIRED, Some NEW)],
     [("u5", AP_CONSUMED); ("u11", AP_PENDING)], [("u9", Some "u5", EX_EXECUTED)]) /\
  fst after = Err ApprovalError /\
  map point (db_tasks (st_db (snd after))) = [(NEW, None)] /\
  map (fun a => (ap_id a, ap_status a)) (db_approvals (st_db (snd after)))
  = [("u5", AP_CONSUMED); ("u11", AP_PENDING)].
Proof. vm_compute. repeat split. Qed.
