(* ===== verification/Replay.v ===== *)
(** * Replay: idempotency keys.

    A command that succeeded under an idempotency key is replayed, not run
    again: whatever happened in between, repeating it changes no table.  The
    proof splits a command into its pure checks and its idempotent work; the
    recorded key persists because the idempotency log only grows. *)
From S2P Require Import Prelude PyVal Models Json Trust Workflow Gates Registry CoreStore Core.
From S2P Require Import Dispatch Frames Session Scenario History Lifecycle Authority.
#[local] Open Scope string_scope.

Definition command_key (c : command) : option string :=
  match c with
  | CreateProject _ _ k | CreateTask _ _ _ k _ _ _ | Transition _ _ _ k | Resume _ _ k
  | StartRole _ _ _ k | CompleteRole _ _ k | FailRole _ _ _ k | StartTaskRun _ _ k
  | CompleteTaskRun _ _ k | FailTaskRun _ _ k | RequestAction _ _ _ _ _ k
  | Approve _ _ _ _ _ k | Reject _ _ _ _ _ k | ExecuteApproved _ _ _ _ _ k
  | AddFinding _ _ _ _ k | ResolveFinding _ _ k | RecordTestRun _ _ _ _ k
  | RecordReview _ _ _ _ k | RecordDecision _ _ _ _ k | CreateDispatch _ _ _ _ _ _ _ _ _ k _
  | BindSpawnResult _ _ _ _ _ _ _ k | ReceiveAgentResult _ _ _ _ k | MarkAgentFailed _ _ _ k _ _
  | Recover _ k => k
  end.

(** The log of keys. *)
Definition key_entry (key name : string) (db : DB) : option (string * string) :=
  (fun r => (ci_result_id r, ci_args_hash r)) <$>
  find (fun r => String.eqb (ci_key r) key && String.eqb (ci_command r) name) (db_idempotency db).
Definition has_key (key name hash : string) (db : DB) : Prop :=
  exists rid, key_entry key name db = Some (rid, hash).
Definition persistent (K : DB -> Prop) : Prop := forall a b, evolves a b -> K a -> K b.
Lemma find_app_some {A} (p : A -> bool) l l' x : find p l = Some x -> find p (l ++ l')%list = Some x.
Proof. induction l as [|y l IH]; [discriminate | cbn]. by destruct (p y). Qed.
Lemma has_key_persistent key name hash : persistent (has_key key name hash).
Proof.
  intros a b Ev [rid H]. exists rid. unfold key_entry in *.
  destruct (proj1 (grows_eq _ _) (ev_idempotency _ _ Ev)) as [l ->].
  destruct (find _ (db_idempotency a)) as [r|] eqn:F; [|discriminate].
  by rewrite (find_app_some _ _ _ _ F).
Qed.

(** What a first success leaves, and what that makes of a second run. *)
Definition leaves (K : DB -> Prop) {A} (m : cmd A) : Prop :=
  forall s a s', m s = (Ok a, s') -> K (st_db s').
Definition idle (K : DB -> Prop) {A} (m : cmd A) : Prop :=
  forall s, K (st_db s) -> st_db (m s).2 = st_db s.
Definition replayable {A} (m : cmd A) : Prop :=
  exists K, persistent K /\ leaves K m /\ idle K m.

Section Replay.
Context {env : Env}.

Lemma replayable_fails {A} (m : cmd A) :
  (forall s, exists e, m s = (Err e, s)) -> replayable m.
Proof.
  intros F. exists (fun _ => True). split; [done |]. split.
  - intros s a s' E. destruct (F s) as [e Ee]. congruence.
  - intros s _. by destruct (F s) as [e ->].
Qed.
Lemma replayable_lift {A B} (r : res exc A) (k : A -> cmd B) :
  (forall a, r = Ok a -> replayable (k a)) -> replayable (x ← lift r; k x).
Proof.
  destruct r as [a|e]; intros H; [exact (H a eq_refl) |].
  apply replayable_fails. intros s. by exists e.
Qed.
Lemma replayable_some {A B} (o : option A) e (k : A -> cmd B) :
  (forall a, o = Some a -> replayable (k a)) -> replayable (x ← some_or o e; k x).
Proof.
  destruct o as [a|]; intros H; [exact (H a eq_refl) |].
  apply replayable_fails. intros s. by exists e.
Qed.
Lemma replayable_unless {B} b e (k : unit -> cmd B) :
  (b = true -> replayable (k tt)) -> replayable (x ← raise_unless b e; k x).
Proof.
  destruct b; intros H; [exact (H eq_refl) |]. apply replayable_fails. intros s. by exists e.
Qed.
Lemma replayable_ext {A} (m m' : cmd A) : (forall s, m s = m' s) -> replayable m' -> replayable m.
Proof.
  intros E (K & P & L & D). exists K. split; [exact P |]. split.
  - intros s a s'. rewrite E. apply L.
  - intros s H. rewrite E. by apply D.
Qed.
Lemma replayable_controller {B} source (k : unit -> cmd B) :
  replayable (k tt) -> replayable (x ← _require_controller source; k x).
Proof.
  intros H. destruct (decide (source = role_source LEAD)) as [-> | N]; [exact H |].
  apply replayable_fails. intros s. eexists. apply bind_err. by apply require_controller_err.
Qed.
Lemma replayable_void {A} (m : cmd A) : replayable m -> replayable (void m).
Proof.
  intros (K & P & L & D). exists K. split; [exact P |]. unfold void. split.
  - intros s a s' E. apply M_bind_ok in E as (b & s1 & E & [_ <-]%mret_ok). by eapply L.
  - intros s H. specialize (D s H). unfold mbind, M_bind. by destruct (m s) as [[b|e] s1].
Qed.

(** *** The idempotent work *)
Lemma transaction_ok {A} (m : cmd A) s a s' : transaction m s = (Ok a, s') -> m s = (Ok a, s').
Proof. unfold transaction. by destruct (m s) as [[b|e] s1]. Qed.
Lemma transaction_db {A} (m : cmd A) s :
  (forall a s', m s = (Ok a, s') -> st_db s' = st_db s) -> st_db (transaction m s).2 = st_db s.
Proof.
  intros H. unfold transaction. destruct (m s) as [[a|e] s'] eqn:E; [exact (H a s' eq_refl) | done].
Qed.
Lemma set_key_ok key name rid hash at_ s u s' :
  key_entry key name (st_db s) = None ->
  _set_command_idempotency key name rid hash at_ s = (Ok u, s') -> has_key key name hash (st_db s').
Proof.
  intros N E. unfold _set_command_idempotency in E.
  apply M_bind_ok in E as (o & s1 & [-> <-]%gets_ok & E).
  unfold key_entry in N. rewrite N in E. apply insert_row_ok in E. exists rid. rewrite E.
  unfold key_entry. cbn. destruct (find _ (db_idempotency (st_db s))) eqn:F; [discriminate N |].
  assert (G : forall l, find (fun r => String.eqb (ci_key r) key && String.eqb (ci_command r) name) l = None ->
    find (fun r => String.eqb (ci_key r) key && String.eqb (ci_command r) name)
      (l ++ [mkIdemRow key name rid hash at_])%list = Some (mkIdemRow key name rid hash at_)).
  { clear. induction l as [|y l IH]; cbn; [by rewrite !String.eqb_refl |]. by case_match. }
  by rewrite (G _ F).
Qed.

(** The common body: look the key up, else work and record it. *)
Definition keyed {A} (key name hash : string) (work : cmd (A * string)) (replay : string -> cmd A) : cmd A :=
  transaction (
    existing ← get_command_idempotency key name;
    match existing with
    | Some (rid, stored) =>
        _ ← raise_unless (String.eqb stored hash) IdempotencyError; replay rid
    | None =>
        r ← work; at_ ← now_iso;
        _ ← _set_command_idempotency key name (snd r) hash at_;
        mret (fst r)
    end).
Lemma keep_id_db {A} (m : cmd A) s r s' : keep id m -> m s = (r, s') -> st_db s' = st_db s.
Proof. intros K E. symmetry. exact (K s r s' I E (or_introl eq_refl)). Qed.
Lemma keyed_leaves {A} key name hash (work : cmd (A * string)) replay :
  keep db_idempotency work -> (forall rid, keep id (replay rid)) ->
  leaves (has_key key name hash) (keyed key name hash work replay).
Proof.
  intros Kw Kr s a s' E. apply transaction_ok in E.
  apply M_bind_ok in E as (o & s1 & [-> <-]%gets_ok & E). fold (key_entry key name (st_db s)) in E.
  destruct (key_entry key name (st_db s)) as [[rid stored]|] eqn:F.
  - apply M_bind_ok in E as (u & s2 & [H%String.eqb_eq <-]%raise_unless_ok & E).
    rewrite (keep_id_db _ _ _ _ (Kr rid) E). exists rid. by rewrite F, H.
  - apply M_bind_ok in E as (r & s1 & Ew & E).
    pose proof (Kw s _ s1 I Ew (or_introl eq_refl)) as Q. unfold part in Q.
    apply M_bind_ok in E as (at_ & s2 & En & E).
    assert (Kn : keep id now_iso) by focus_pure.
    pose proof (keep_id_db _ _ _ _ Kn En) as Q2.
    apply M_bind_ok in E as (u & s3 & Es & [_ <-]%mret_ok).
    apply set_key_ok in Es; [exact Es |]. rewrite Q2. unfold key_entry in *. by rewrite <- Q.
Qed.
Lemma keyed_idle {A} key name hash (work : cmd (A * string)) replay :
  (forall rid, keep id (replay rid)) -> idle (has_key key name hash) (keyed key name hash work replay).
Proof.
  intros Kr s [rid H]. apply transaction_db. intros a s' E.
  apply M_bind_ok in E as (o & s1 & [-> <-]%gets_ok & E). fold (key_entry key name (st_db s)) in E.
  rewrite H in E. apply M_bind_ok in E as (u & s2 & [_ <-]%raise_unless_ok & E).
  exact (keep_id_db _ _ _ _ (Kr rid) E).
Qed.
Lemma keyed_replayable {A} key name hash (work : cmd (A * string)) replay :
  keep db_idempotency work -> (forall rid, keep id (replay rid)) ->
  replayable (keyed key name hash work replay).
Proof.
  intros Kw Kr. exists (has_key key name hash). split; [apply has_key_persistent |].
  split; [by apply keyed_leaves | by apply keyed_idle].
Qed.
Lemma idempotent_replayable {A} key name args (work : cmd (A * string)) refetch :
  keep db_idempotency work -> (forall rid, keep id (refetch rid)) ->
  replayable (_idempotent (Some key) name args work refetch).
Proof.
  intros Kw Kr. unfold _idempotent. apply replayable_lift. intros h _.
  exact (keyed_replayable key name h work refetch Kw Kr).
Qed.
Lemma or_expire_replayable {A} K (m : cmd A) :
  leaves K m -> idle K m -> (forall s e s', K (st_db s) -> m s = (Err (ApprovalExpired e), s') -> False) ->
  leaves K (or_expire m) /\ idle K (or_expire m).
Proof.
  intros L D N. split.
  - intros s a s' E. unfold or_expire in E. destruct (m s) as [[b|e] s1] eqn:Em.
    + injection E as <- <-. by eapply L.
    + destruct e; try discriminate E. unfold mbind, M_bind in E.
      destruct (transaction _ s1) as [[] ?]; discriminate E.
  - intros s H. unfold or_expire. pose proof (D s H) as Q. destruct (m s) as [[b|e] s1] eqn:Em; [exact Q |].
    destruct e; try exact Q. by destruct (N s _ s1 H Em).
Qed.

Lemma binding_refetch_not_expired tid action scope rid s e s' :
  binding_refetch_some tid action scope rid s = (Err (ApprovalExpired e), s') -> False.
Proof.
  unfold binding_refetch_some, _approval_binding_refetch, _check_full_binding, need, mbind, M_bind,
    some_or, raise_when, raise_unless. destruct (get_approval rid s) as [[[a|]|e'] s1] eqn:G; cbn.
  - case_tests; discriminate.
  - discriminate.
  - unfold get_approval, query, gets in G. discriminate G.
Qed.
Lemma hash_args_err args e : _hash_args args = Err e -> e = TypeError.
Proof.
  unfold _hash_args, json_dumps_default_str, mbind, res_bind. case_tests; congruence.
Qed.
Lemma gate_replayable key name args tid action scope (work : cmd (option OwnerApproval * string)) :
  keep db_idempotency work ->
  replayable (or_expire (_idempotent (Some key) name args work (binding_refetch_some tid action scope))).
Proof.
  intros Kw. assert (Kr : forall rid, keep id (binding_refetch_some tid action scope rid)) by focus_pure.
  destruct (_hash_args args) as [h|e] eqn:H.
  2: { apply hash_args_err in H as He. subst e. apply replayable_fails. intros s. exists TypeError.
       unfold or_expire, _idempotent. rewrite H. reflexivity. }
  pose proof (keyed_leaves key name h _ _ Kw Kr) as L. pose proof (keyed_idle key name h work _ Kr) as D.
  assert (Eq : forall s, _idempotent (Some key) name args work (binding_refetch_some tid action scope) s
                         = keyed key name h work (binding_refetch_some tid action scope) s)
    by (intros s; unfold _idempotent; by rewrite H).
  exists (has_key key name h). split; [apply has_key_persistent |].
  apply or_expire_replayable.
  - intros s a s'. rewrite Eq. apply L.
  - intros s K. rewrite Eq. by apply D.
  - intros s e s' [rid K]. rewrite Eq. unfold keyed, transaction, mbind, M_bind at 1.
    cbn. fold (key_entry key name (st_db s)). rewrite K. unfold raise_unless. rewrite String.eqb_refl. cbn.
    destruct (binding_refetch_some tid action scope rid s) as [[a|e1] s1] eqn:E; [discriminate |].
    intros [= -> _]. exact (binding_refetch_not_expired _ _ _ _ _ _ _ E).
Qed.

(** The two commands that inline the protocol. *)
Lemma M_bind_ext {A B} (m m' : cmd A) (k k' : A -> cmd B) s :
  m s = m' s -> (forall a s', k a s' = k' a s') -> (x ← m; k x) s = (x ← m'; k' x) s.
Proof. intros E H. unfold mbind, M_bind. rewrite E. destruct (m' s) as [[a|e] s']; auto. Qed.
Lemma transaction_ext {A} (m m' : cmd A) s : m s = m' s -> transaction m s = transaction m' s.
Proof. intros E. unfold transaction. by rewrite E. Qed.
Lemma keyed_inline {A} key name hash did (work : cmd A) replay s :
  transaction (
    existing ← get_command_idempotency key name;
    match existing with
    | Some (rid, stored) =>
        _ ← raise_unless (String.eqb stored hash) IdempotencyError; replay rid
    | None =>
        r ← work; at_ ← now_iso;
        _ ← _set_command_idempotency key name did hash at_; mret r
    end) s
  = keyed key name hash (r ← work; mret (r, did)) replay s.
Proof.
  apply transaction_ext, M_bind_ext; [done |]. intros [[rid stored]|] s1; [done |].
  unfold mbind, M_bind. by destruct (work s1) as [[r|e] s2].
Qed.

(** *** The commands *)
Ltac replay_step := lazymatch goal with
  | |- replayable (mbind _ (lift _)) => apply replayable_lift; intros ? _
  | |- replayable (mbind _ (_require_owner _)) => apply replayable_lift; intros ? _
  | |- replayable (mbind _ (_check_source _)) => apply replayable_unless; intros _
  | |- replayable (mbind _ (raise_unless _ _)) => apply replayable_unless; intros _
  | |- replayable (mbind _ (_require_controller _)) => apply replayable_controller
  | |- replayable (mbind _ (some_or _ _)) => apply replayable_some; intros ? _
  | |- replayable (mbind _ (_coerce_state _)) => apply replayable_some; intros ? _
  | |- replayable (mbind _ (_coerce_role _)) => apply replayable_some; intros ? _
  | |- replayable (mbind _ (_coerce_result _)) => apply replayable_some; intros ? _
  | |- replayable (or_expire _) => apply gate_replayable; keep_tac
  | |- replayable (_idempotent _ _ _ _ _) =>
      apply idempotent_replayable; [keep_tac | intros ?; keep_tac]
  | |- replayable (void _) => apply replayable_void
  | |- replayable (mbind _ (match ?x with _ => _ end)) => destruct x
  | |- replayable (mbind ?k (mret ?a)) => change (replayable (k a))
  end.
Ltac replay := repeat (progress cbv beta zeta || replay_step).

Lemma replayable_never {A} (m : cmd A) : (forall s a s', m s <> (Ok a, s')) -> replayable m.
Proof.
  intros N. exists (fun _ => False). split; [intros ? ? _ H; exact H |]. split; [|intros s []].
  intros s a s' E. exact (N s a s' E).
Qed.

Lemma replayable_bind key did child rid p m t source :
  replayable (bind_spawn_result did child rid p m t source (Some key)).
Proof.
  unfold bind_spawn_result. replay. cbv zeta.
  set (work := bind_work did child rid p m t).
  set (kd := keyed key "bind_spawn_result" a (r ← work; mret (r, did))
               (fun rid => d ← _refetch get_dispatch rid; mret (Replayed d))).
  apply (replayable_ext _ (o ← kd; match o with Replayed d => mret (Some d)
                                   | Rejected => raise RolePolicyViolation | Bound => get_dispatch did end)).
  { intros s. apply M_bind_ext; [apply keyed_inline | done]. }
  assert (R : replayable kd) by (apply keyed_replayable; [keep_tac | intros ?; keep_tac]).
  destruct R as (K & P & L & D). exists K. split; [exact P |]. split.
  - intros s o s' E. apply M_bind_ok in E as (oc & s1 & E1 & E). specialize (L _ _ _ E1).
    destruct oc; [by apply mret_ok in E as [_ <-] | discriminate E |].
    by apply gets_ok in E as [_ <-].
  - intros s H. specialize (D s H). unfold mbind, M_bind. destruct (kd s) as [[[]|e] s1]; exact D.
Qed.
Lemma replayable_receive key did meta result source :
  replayable (receive_agent_result did meta result source (Some key)).
Proof.
  unfold receive_agent_result. replay.
  set (work := _receive_work did meta result).
  eapply (replayable_ext _ (keyed key "receive_agent_result" a (r ← work; mret (r, did))
    (fun _ => d ← get_dispatch did;
              mret (mkReceiveResult did
                (match d with
                 | Some d => if bool_decide (d_status d = DCONSUMED) then "duplicate" else "rejected"
                 | None => "rejected" end) None)))).
  { intros s. apply keyed_inline. }
  apply keyed_replayable; [keep_tac | intros ?; keep_tac].
Qed.
Lemma replayable_plain c key :
  command_key c = Some key ->
  match c with RequestAction _ _ _ _ _ _ | CreateDispatch _ _ _ _ _ _ _ _ _ _ _ => False | _ => True end ->
  replayable (run c).
Proof.
  intros K N. destruct c; try destruct N; cbn [run command_key] in *; subst.
  all: apply replayable_void.
  all: lazymatch goal with
    | |- replayable (bind_spawn_result _ _ _ _ _ _ _ _) => apply replayable_bind
    | |- replayable (receive_agent_result _ _ _ _ _) => apply replayable_receive
    | |- replayable ?m => let h := head m in unfold h; replay
    end.
Qed.

(** The permission check of an autonomous action, before the transaction. *)
Definition permission_check (cls : ActionClass) (action : string) (role : Role) (violation : cmd unit)
  : cmd unit :=
  mwhen (bool_decide (cls = AUTONOMOUS))
    (p ← lift (permission_for action);
     match check_permission role (fst p) (snd p) with
     | Err PermissionDenied => _ ← violation; raise PermissionDenied
     | r => lift r
     end).
Definition permitted (action : string) (role : Role) : Prop :=
  In action AUTONOMOUS_ACTIONS -> forall p, permission_for action = Ok p ->
  check_permission role (fst p) (snd p) <> Err PermissionDenied.
Lemma permission_check_ok pol action role violation s u s' :
  permission_check (classify_action action pol) action role violation s = (Ok u, s') ->
  permitted action role.
Proof.
  intros E Ia p Hp N. apply classify_autonomous with (pol := pol) in Ia. rewrite Ia in E.
  unfold permission_check, mwhen in E. rewrite bool_decide_true in E by done.
  apply M_bind_ok in E as (p' & s1 & [Hp' <-]%lift_ok & E). rewrite Hp in Hp'. injection Hp' as <-.
  rewrite N in E. apply M_bind_ok in E as (? & ? & _ & E). discriminate E.
Qed.
Lemma permission_check_idle pol action role violation s :
  permitted action role ->
  (permission_check (classify_action action pol) action role violation s).2 = s.
Proof.
  intros F. unfold permission_check, mwhen. case_bool_decide as C; [|done].
  apply classify_autonomous in C. specialize (F C). unfold mbind, M_bind, lift.
  destruct (permission_for action) as [p|e]; [|done]. specialize (F p eq_refl).
  destruct (check_permission role (fst p) (snd p)) as [|[]]; done.
Qed.
Lemma replayable_request key tid action scope role source :
  replayable (request_action tid action scope role source (Some key)).
Proof.
  unfold request_action. replay.
  set (args := [("task_id", PStr tid); ("action", PStr action); ("scope", PStr scope);
                ("actor_role", PStr (value a)); args_src source]).
  set (violation := _emit "policy.role_violation" _ _ _ _).
  destruct (_hash_args args) as [h|e] eqn:H.
  2: { apply replayable_never. intros s r s' E. apply M_bind_ok in E as (t & s1 & _ & E).
       apply M_bind_ok in E as (u & s2 & _ & E). unfold _idempotent in E. rewrite H in E.
       by case_match. }
  set (K := has_key key "request_action" h).
  exists (fun db => K db /\ permitted action a).
  split; [intros x y Ev [Hk F]; split; [by eapply has_key_persistent | exact F] |].
  assert (L : forall w rf, keep db_idempotency w -> (forall rid, keep id (rf rid)) ->
             leaves K (_idempotent (A := option ActionRequestResult) (Some key) "request_action" args w rf)).
  { intros w rf Kw Kr s r s' E. unfold _idempotent in E. rewrite H in E.
    by apply (keyed_leaves key _ h _ _ Kw Kr) in E. }
  assert (D : forall w rf, (forall rid, keep id (rf rid)) ->
             idle K (_idempotent (A := option ActionRequestResult) (Some key) "request_action" args w rf)).
  { intros w rf Kr s Hk. unfold _idempotent. rewrite H. by apply (keyed_idle key _ h w _ Kr). }
  split.
  - intros s r s' E. apply M_bind_ok in E as (t & s1 & _ & E). apply M_bind_ok in E as (u & s2 & Ep & E).
    split; [|by eapply permission_check_ok]. destruct (classify_action _ _).
    + eapply L; [| |exact E]; [keep_tac | intros ?; keep_tac].
    + eapply L; [| |exact E]; [keep_tac | intros ?; keep_tac].
    + apply M_bind_ok in E as (? & ? & _ & E). discriminate E.
  - intros s [Hk F]. unfold mbind at 1, M_bind at 1.
    assert (Kn : keep id (need (get_task tid) NotFound)) by keep_tac.
    destruct (need (get_task tid) NotFound s) as [[t|e] s1] eqn:En;
      pose proof (keep_id_db _ _ _ _ Kn En) as Q; [|exact Q].
    pose proof (permission_check_idle (t_external_actions_policy t) action a violation s1 F) as Pi.
    unfold mbind at 1, M_bind at 1. unfold permission_check in Pi.
    destruct (mwhen _ _ s1) as [[u|e] s2] eqn:Ep in Pi |- *; cbn in Pi; subst s2; [|exact Q].
    rewrite <- Q in Hk |- *. destruct (classify_action _ _).
    + apply D; [intros ?; keep_tac | exact Hk].
    + apply D; [intros ?; keep_tac | exact Hk].
    + assert (Df := D (request_forbidden_work tid action scope a source) (fun _ => mret None)
                      ltac:(intros ?; keep_tac) s1 Hk).
      unfold mbind at 1, M_bind at 1. destruct (_idempotent _ _ _ _ _ s1) as [[?|?] ?]; exact Df.
Qed.

(** The identity of a dispatch depends on the state only through the risk class
    of its task, which never changes. *)
Lemma task_persistent (P : RiskClass -> Prop) tid :
  persistent (fun db => exists t, tasks_by_id tid (db_tasks db) = Some t /\ P (t_risk_class t)).
Proof.
  intros a b Ev (t & E & H). destruct (ev_tasks _ _ Ev) as (l1 & l2 & -> & F). unfold tasks_by_id in *.
  assert (exists t', by_id t_id tid l1 = Some t' /\ t_risk_class t' = t_risk_class t) as (t' & E' & R).
  { clear -E F. induction F as [|x y l l' B F IH]; [discriminate E | cbn in *]. unfold by_id in *. cbn in *.
    injection B as Bi _ _ _ _ _ _ _ Br _. rewrite <- Bi.
    destruct (String.eqb (t_id x) tid); [injection E as <-; by exists y | by apply IH]. }
  exists t'. split; [by apply find_app_some | by rewrite R].
Qed.
Lemma resolve_identity_pure role tid risk mc rd s idn s' :
  resolve_identity role tid risk mc rd s = (Ok idn, s') ->
  s' = s /\ forall s2, resolve_identity role tid risk mc rd s2 = (Ok idn, s2).
Proof.
  unfold resolve_identity. intros E.
  destruct mc as [c|]; [by injection E as <- <- |]. destruct rd as [rd|].
  - destruct (rd_provider rd), (rd_model rd), (rd_thinking_tier rd);
      try (apply M_bind_ok in E as (? & ? & _ & E); discriminate E). by injection E as <- <-.
  - destruct (resolve_model role risk) as [[p m] t]. by injection E as <- <-.
Qed.
Definition tail_dispatch (key tid trid : string) (role : Role) (pos cyc : Z) (kind : SequenceKind)
    (mc : option pydict) (parent : option string) (rd : option RoutingDecision)
    (args : list (string * pyval)) : cmd AgentDispatch :=
  task0 ← need (get_task tid) NotFound;
  identity ← resolve_identity role tid (t_risk_class task0) mc rd;
  let '(provider, model, thinking) := identity in
  _ ← mwhen (bool_decide (rd = None) && negb (choice_ok role provider model thinking (t_risk_class task0)))
        (_ ← _emit "policy.role_violation" (Some tid) (Some (value role)) None
               [("reason", PStr "model_choice")];
         raise RolePolicyViolation);
  _idempotent (Some key) "create_dispatch" args
    (dispatch_work tid trid role pos cyc kind identity parent rd) (_refetch get_dispatch).
Lemma replayable_tail key tid trid role pos cyc kind mc parent rd args :
  replayable (tail_dispatch key tid trid role pos cyc kind mc parent rd args).
Proof.
  destruct (_hash_args args) as [h|e] eqn:H.
  2: { apply replayable_never. intros s r s' E. unfold tail_dispatch in E.
       apply M_bind_ok in E as (t & s1 & _ & E). apply M_bind_ok in E as ([[p m] th] & s2 & _ & E).
       apply M_bind_ok in E as (u & s3 & _ & E). unfold _idempotent in E. rewrite H in E. discriminate E. }
  set (K := has_key key "create_dispatch" h).
  set (good := fun risk => exists p m th,
    (forall s, resolve_identity role tid risk mc rd s = (Ok (p, m, th), s)) /\
    bool_decide (rd = None) && negb (choice_ok role p m th risk) = false).
  exists (fun db => K db /\ exists t, tasks_by_id tid (db_tasks db) = Some t /\ good (t_risk_class t)).
  split; [|split].
  - intros x y Ev [Hk G]. split; [by eapply has_key_persistent | by eapply task_persistent].
  - intros s r s' E.
    assert (Kt : keep db_tasks (tail_dispatch key tid trid role pos cyc kind mc parent rd args)) by keep_tac.
    pose proof (Kt s _ s' I E (or_introl eq_refl)) as Q. unfold part in Q. unfold tail_dispatch in E.
    apply M_bind_ok in E as (t & s1 & En & E). apply M_bind_ok in En as (o & s0 & [-> <-]%gets_ok & [Ht <-]%some_or_ok).
    apply M_bind_ok in E as ([[p m] th] & s2 & Ei & E). apply resolve_identity_pure in Ei as [-> Pi].
    apply M_bind_ok in E as (u & s3 & Ew & E).
    destruct (bool_decide (rd = None) && _) eqn:C; cbn [mwhen] in Ew.
    { apply M_bind_ok in Ew as (? & ? & _ & Ew). discriminate Ew. }
    split.
    + unfold _idempotent in E. rewrite H in E. eapply keyed_leaves; [| |exact E]; [keep_tac | intros ?; keep_tac].
    + exists t. rewrite <- Q. split; [exact Ht | by exists p, m, th].
  - intros s [Hk (t & Ht & p & m & th & Pi & C)]. unfold tail_dispatch.
    assert (En : need (get_task tid) NotFound s = (Ok t, s)).
    { unfold need, get_task, query, gets, mbind, M_bind. unfold tasks_by_id in Ht. by rewrite Ht. }
    unfold mbind at 1, M_bind at 1. rewrite En. unfold mbind at 1, M_bind at 1. rewrite Pi, C.
    unfold mwhen, mbind at 1, M_bind at 1, mret, M_ret. unfold _idempotent. rewrite H.
    apply (keyed_idle key _ h); [intros ?; keep_tac | exact Hk].
Qed.
Lemma replayable_dispatch key tid trid role pos cyc kind mc source parent rd :
  replayable (create_dispatch tid trid role pos cyc kind mc source parent (Some key) rd).
Proof.
  unfold create_dispatch. replay.
  - destruct mc as [c|].
    + apply replayable_never. intros s o s' E. apply M_bind_ok in E as (u & s1 & E1 & _).
      apply M_bind_ok in E1 as (v & s2 & E1 & _). apply M_bind_ok in E1 as (? & ? & _ & E1). discriminate E1.
    + lazymatch goal with |- replayable (mbind ?k _) =>
        apply (replayable_ext _ (mbind k (lift (_validate_routing_decision r tid a))));
          [by intros s |] end.
      replay. apply replayable_tail.
  - apply replayable_tail.
Qed.

Lemma run_replayable c key : command_key c = Some key -> replayable (run c).
Proof.
  intros K. destruct c; try exact (replayable_plain _ key K I).
  all: cbn [command_key] in K; rewrite K; cbn [run]; apply replayable_void.
  - apply replayable_request.
  - apply replayable_dispatch.
Qed.

(** C35: commands are idempotent under their key: once a command carrying an
    idempotency key has succeeded, then after any further commands of the
    session, repeating it changes no table, whatever it now returns. *)
Theorem replay_changes_nothing c key s u s1 cs :
  command_key c = Some key -> run c s = (Ok u, s1) ->
  st_db (run c (run_all cs s1)).2 = st_db (run_all cs s1).
Proof.
  intros K E. destruct (run_replayable c key K) as (P & Pp & L & D).
  apply D, (Pp (st_db s1)); [apply run_all_evolves | exact (L _ _ _ E)].
Qed.

(** A key cannot be reused for something else: when the log holds another
    argument hash for the key and command, the command is refused with
    [IdempotencyError], its work is not run and the state stays as it is. *)
Theorem key_conflict {A} key name args (work : cmd (A * string)) refetch s h rid stored :
  _hash_args args = Ok h -> key_entry key name (st_db s) = Some (rid, stored) -> stored <> h ->
  _idempotent (Some key) name args work refetch s = (Err IdempotencyError, s).
Proof.
  intros H F N. unfold _idempotent. rewrite H. apply String.eqb_neq in N.
  unfold mbind at 1, M_bind at 1, lift, transaction, mbind, M_bind. cbn.
  unfold key_entry in F. rewrite F, N. by destruct s.
Qed.
End Replay.

Definition keyed_session : list command := [CreateProject "p" OWNER_SOURCE (Some "k")].
Lemma replay_changes_nothing_witness :
  let s1 := @run_all sample_env keyed_session init_st in
  st_db (@run sample_env (CreateProject "p" OWNER_SOURCE (Some "k"))
           (@run_all sample_env start_session s1)).2
  = st_db (@run_all sample_env start_session s1).
Proof.
  exact (@replay_changes_nothing sample_env (CreateProject "p" OWNER_SOURCE (Some "k")) "k"
           init_st tt _ start_session eq_refl ltac:(vm_compute; reflexivity)).
Defined.
Definition other_args : list (string * pyval) := [("name", PStr "q"); args_src OWNER_SOURCE].
Lemma key_conflict_witness :
  let s1 := @run_all sample_env keyed_session init_st in
  @_idempotent sample_env Project (Some "k") "create_project" other_args (raise KeyError)
    (fun _ => raise KeyError) s1 = (Err IdempotencyError, s1).
Proof.
  refine (@key_conflict sample_env Project "k" "create_project" other_args _ _ _
    (match _hash_args other_args with Ok h => h | Err _ => EmptyString end) "u0"
    (match key_entry "k" "create_project" (st_db (@run_all sample_env keyed_session init_st)) with
     | Some (_, h) => h | None => EmptyString end) _ _ _).
  - vm_compute. reflexivity.
  - vm_compute. reflexivity.
  - vm_compute. discriminate.
Defined.
