(* ===== verification/Orchestration.v ===== *)
(** * Orchestration: the workflow frontier, the state synchronisation plan and
    the life cycle of dispatches.

    The frontier is the first open position of the current cycle's sequence;
    the plan of an accepted result is a path of the task state machine; a
    dispatch that reached a closed status is never touched again, so a result
    is consumed at most once. *)
From S2P Require Import Prelude PyVal Models Json StateMachine Trust Workflow Outputs Registry.
From S2P Require Import CoreStore Core Dispatch Frames Session Scenario History Lifecycle.
From S2P Require Import Authority Gate.
#[local] Open Scope string_scope.

(** ** The synchronisation plan *)
Fixpoint path (from : TaskState) (plan : list (TaskState * TaskState)) : option TaskState :=
  match plan with
  | [] => Some from
  | (f, t) :: rest =>
      if bool_decide (f = from) && is_allowed f t None && negb (is_pause t) then path t rest else None
  end.
Definition plan_start (plan : list (TaskState * TaskState)) : option TaskState := fst <$> hd_error plan.

(** The plan by which an accepted agent result moves its task is always a
    path of the task state machine: the steps are consecutive, each is a
    transition the table allows without a resume state, none enters a pause
    state; and a standard sequence's positions 0..6 without a decision walk the
    main path from NEW to FINAL_DECISION, one state each. *)
Theorem sync_plan_is_path d decision cur :
  let plan := _state_sync_plan d decision cur in
  match plan_start plan with
  | Some s => is_Some (path s plan)
  | None => plan = []
  end /\
  (d_sequence_kind d = STANDARD -> is_dec decision "rework" = false ->
   is_dec decision "cancel" = false -> is_dec decision "accept" = false ->
   forall i, (i < 7)%nat -> d_position d = Z.of_nat i ->
   plan = match nth_error MAIN_PATH i, nth_error MAIN_PATH (S i) with
          | Some a, Some b => [(a, b)]
          | _, _ => []
          end).
Proof.
  cbn zeta. split.
  - unfold _state_sync_plan, standard_step, rework_step. generalize (d_position d). intros pos.
    destruct (d_sequence_kind d), (d_role d).
    all: cbn [bool_decide decide_rel TaskState_eq_dec negb].
    all: simpl_tests.
    all: repeat match goal with
      | |- context [Z.eqb ?p ?k] => destruct (Z.eqb_spec p k); [subst; cbn [Z.eqb] | ]
      | |- context [is_dec ?x ?y] => destruct (is_dec x y)
      | |- context [(0 <? ?p)%Z] => destruct (0 <? p)%Z
      end; try destruct cur; vm_compute; eauto.
  - intros K R C A i Hi P. unfold _state_sync_plan. rewrite K, P, R, C, A.
    do 7 (destruct i as [|i]; [destruct (d_role d); reflexivity |]). lia.
Qed.

(** ** The frontier *)
Definition consumed_at (ds : list AgentDispatch) (cycle pos : Z) : Prop :=
  exists d, In d ds /\ d_cycle_no d = cycle /\ d_position d = pos /\ d_status d = DCONSUMED.
Record frontier_spec (ds : list AgentDispatch) (f : WorkflowFrontier) : Prop := {
  fs_role : wf_expected_role f
            = next_role (wf_sequence_kind f) (wf_position f) (wf_include_reviewer f);
  fs_pos : (0 <= wf_position f)%Z;
  fs_before : forall p, (0 <= p < wf_position f)%Z -> consumed_at ds (wf_cycle_no f) p;
  fs_open : wf_expected_role f <> None -> ~ consumed_at ds (wf_cycle_no f) (wf_position f)
}.

Lemma first_open_spec seq base consumed :
  (0 <= base)%Z ->
  match first_open seq base consumed with
  | Some (p, r) => (base <= p)%Z /\ nth_error seq (Z.to_nat (p - base)) = Some r /\
                   ~ In p consumed /\ forall q, (base <= q < p)%Z -> In q consumed
  | None => forall q, (base <= q < base + Z.of_nat (List.length seq))%Z -> In q consumed
  end.
Proof.
  revert base. induction seq as [|r seq IH]; intros base B; cbn [first_open].
  - cbn. intros q Hq. lia.
  - assert (Hin : existsb (Z.eqb base) consumed = true <-> In base consumed).
    { rewrite existsb_exists. split; [by intros (x & I & ->%Z.eqb_eq) | intros I; exists base; split; [done | apply Z.eqb_refl]]. }
    destruct (existsb (Z.eqb base) consumed) eqn:E.
    + specialize (IH (base + 1)%Z ltac:(lia)). apply proj1 in Hin. specialize (Hin eq_refl).
      destruct (first_open seq (base + 1) consumed) as [[p r']|].
      * destruct IH as (L & N & O & Q). split; [lia |].
        replace (Z.to_nat (p - base)) with (S (Z.to_nat (p - (base + 1)))) by lia.
        split; [exact N |]. split; [exact O |]. intros q Hq.
        destruct (Z.eq_dec q base) as [-> | D]; [exact Hin | apply Q; lia].
      * intros q Hq. cbn [List.length] in Hq. destruct (Z.eq_dec q base) as [-> | D]; [exact Hin | apply IH; lia].
    + split; [lia |]. rewrite Z.sub_diag. split; [reflexivity |]. split.
      * intros I. apply Hin in I. discriminate.
      * intros q Hq. lia.
Qed.
Lemma max_cycle_le ds d : In d ds -> (d_cycle_no d <= max_cycle ds)%Z.
Proof.
  assert (F : forall l m, (m <= fold_left (fun m x => Z.max m (d_cycle_no x)) l m)%Z /\
    forall x, In x l -> (d_cycle_no x <= fold_left (fun m x => Z.max m (d_cycle_no x)) l m)%Z).
  { induction l as [|y l IH]; intros m; cbn; [split; [lia | done] |].
    destruct (IH (Z.max m (d_cycle_no y))) as [H1 H2]. split; [lia |].
    intros x [-> | I]; [lia | by apply H2]. }
  destruct ds as [|d0 ds]; [done |]. cbn. intros [-> | Hd]; [exact (proj1 (F _ _)) | exact (proj2 (F _ _) d Hd)].
Qed.
Lemma consumed_in_cycle ds mc p :
  In p (map d_position (List.filter (fun d => bool_decide (d_status d = DCONSUMED))
                          (List.filter (fun d => Z.eqb (d_cycle_no d) mc) ds)))
  <-> consumed_at ds mc p.
Proof.
  rewrite in_map_iff. unfold consumed_at. split; intros (d & H).
  - destruct H as [<- [[I C%Z.eqb_eq]%filter_In S%bool_decide_eq_true]%filter_In]. by exists d.
  - destruct H as (I & C & P & S). exists d. rewrite !filter_In, bool_decide_eq_true, Z.eqb_eq. tauto.
Qed.

(** The workflow frontier is the first open position of the current cycle:
    the expected role is the one the sequence has at that position (none at its
    end), every earlier position of the cycle has a consumed dispatch and the
    frontier position itself has none. *)
Theorem frontier_first_open ds open_findings decisions :
  frontier_spec ds (frontier_of ds open_findings decisions).
Proof.
  unfold frontier_of. destruct (last ds) as [dl|] eqn:L.
  2: { assert (ds = []) as -> by (by apply last_None). split; cbn; [done | lia | lia |].
       intros _ (d & [] & _). }
  assert (N : forall kind inc,
    let in_cycle := List.filter (fun d => Z.eqb (d_cycle_no d) (max_cycle ds)) ds in
    let consumed := map d_position (List.filter (fun d => bool_decide (d_status d = DCONSUMED)) in_cycle) in
    frontier_spec ds
      (match first_open (effective_sequence kind inc) 0 consumed with
       | Some (pos, r) => mkWorkflowFrontier (max_cycle ds) pos kind inc (Some r)
       | None => mkWorkflowFrontier (max_cycle ds) (Z.of_nat (List.length (effective_sequence kind inc))) kind inc None
       end)).
  { intros kind inc in_cycle consumed.
    pose proof (first_open_spec (effective_sequence kind inc) 0 consumed ltac:(lia)) as S.
    destruct (first_open _ 0 consumed) as [[p r]|]; split; cbn [wf_expected_role wf_position wf_cycle_no wf_sequence_kind wf_include_reviewer].
    - destruct S as (B & E & _). symmetry. apply next_role_some. rewrite Z.sub_0_r in E. by split.
    - apply S.
    - intros q Hq. apply consumed_in_cycle, S, Hq.
    - intros _ C%consumed_in_cycle. by apply S in C.
    - symmetry. apply next_role_none. right. lia.
    - lia.
    - intros q Hq. apply consumed_in_cycle, S. lia.
    - done. }
  cbv zeta in N |- *. case_match; [| apply N]. case_match; [|apply N].
  split; cbn [wf_expected_role wf_position wf_cycle_no wf_sequence_kind wf_include_reviewer];
    [symmetry; apply next_role_some; split; [lia |]; by unfold effective_sequence, rework_sequence; case_match
    | lia | lia |].
  intros _ (x & I & C & _). apply max_cycle_le in I. lia.
Qed.

(** ** The life cycle of a dispatch *)
Definition is_closed (d : AgentDispatch) : bool :=
  in_list (d_status d) [DCONSUMED; DFAILED; DREJECTED; DQUARANTINED].
(** What may happen to a row: an open one moves on but never back to PENDING; of
    a closed one only the recorded attempt outcome may still be filled in. *)
Record dispatch_next (d d' : AgentDispatch) : Prop := {
  dn_base : same_on dispatch_base d d';
  dn_pending : d_status d' = DPENDING -> d_status d = DPENDING;
  dn_closed : is_closed d = true -> d' = d <| d_attempt_outcome := d_attempt_outcome d' |>
}.
#[export] Instance dispatch_next_preorder : PreOrder dispatch_next.
Proof.
  split.
  - intros []. split; [reflexivity | done | by intros _].
  - intros a b c [B1 P1 C1] [B2 P2 C2]. split; [by transitivity b | auto |].
    intros L. specialize (C1 L). rewrite C1 in C2. exact (C2 L).
Qed.
Definition dispatch_moves (x x' : list AgentDispatch) : Prop :=
  forall id d, by_id d_id id x = Some d ->
  exists d', by_id d_id id x' = Some d' /\ dispatch_next d d'.
#[export] Instance dispatch_moves_preorder : PreOrder dispatch_moves.
Proof.
  split.
  - intros x id d E. exists d. split; [exact E | reflexivity].
  - intros x y z H1 H2 id d E. destruct (H1 id d E) as (d1 & E1 & R1).
    destruct (H2 id d1 E1) as (d2 & E2 & R2). exists d2. split; [exact E2 | by transitivity d1].
Qed.
Lemma by_id_map {A} (key : A -> string) id f l :
  (forall x, key (f x) = key x) -> by_id key id (map f l) = f <$> by_id key id l.
Proof.
  intros K. unfold by_id. induction l as [|x l IH]; [done | cbn]. rewrite K.
  by destruct (String.eqb (key x) id).
Qed.
Lemma dispatch_update p f x :
  (forall d, d_id (f d) = d_id d) ->
  (forall d, by_id d_id (d_id d) x = Some d -> p d = true -> dispatch_next d (f d)) ->
  dispatch_moves x (update_where p f x).
Proof.
  intros K H id d E. unfold update_where. rewrite by_id_map; [|intros y; by destruct (p y)].
  rewrite E. eexists. split; [reflexivity |]. pose proof (by_id_key _ _ _ _ E) as <-.
  destruct (p d) eqn:P; [by apply H | reflexivity].
Qed.
Lemma open_next d d' :
  same_on dispatch_base d d' -> d_status d' <> DPENDING -> is_closed d = false -> dispatch_next d d'.
Proof. intros B P C. split; [exact B | done | congruence]. Qed.
Definition drow (d : AgentDispatch) (x : list AgentDispatch) : Prop := by_id d_id (d_id d) x = Some d.

Section DispatchLife.
Context {env : Env}.
Abbreviation dlife := (focus db_dispatches dispatch_moves).

Lemma dlife_insert strict P d : dlife strict P (_insert_dispatch d).
Proof.
  apply focus_insert; [apply _ |]. intros db _ _ id d' E. exists d'. split; [by apply by_id_app | reflexivity].
Qed.
Ltac guarded := apply focus_update; [apply _ |]; intros db _ _; apply dispatch_update; [done |];
  intros row _ H; try (apply andb_true_iff in H as [_ H]).
Lemma bindable_open d : bindable d = true -> is_closed d = false.
Proof. unfold bindable, is_closed. by destruct (d_status d). Qed.
Lemma consumable_open d : consumable d = true -> is_closed d = false.
Proof. unfold consumable, is_closed. by destruct (d_status d). Qed.
Lemma dlife_bind strict P id a b c d e f : dlife strict P (_update_dispatch_bind id a b c d e f).
Proof. guarded. apply open_next; [done | done | by apply bindable_open]. Qed.
Lemma dlife_reject strict P id : dlife strict P (_reject_dispatch_cas id).
Proof. guarded. apply open_next; [done | done | by apply bindable_open]. Qed.
Lemma dlife_consume strict P id r at_ : dlife strict P (_consume_dispatch id r at_).
Proof. guarded. apply open_next; [done | done | by apply consumable_open]. Qed.
Lemma dlife_outcome strict P id o : dlife strict P (_set_dispatch_attempt_outcome id o).
Proof.
  apply focus_bind; [apply _ | focus_pure | intros _]. guarded. by split.
Qed.
Lemma dlife_status strict (P : _ -> Prop) d st at_ :
  (forall x, P x -> drow d x) -> is_closed d = false -> st <> DPENDING ->
  dlife strict P (_update_dispatch_status (d_id d) st at_).
Proof.
  intros R C S. apply focus_update; [apply _ |]. intros db _ p. apply dispatch_update; [done |].
  intros d' E Q%String.eqb_eq. rewrite Q in E. rewrite (R _ p) in E. injection E as <-.
  by apply open_next.
Qed.
Hint Resolve dlife_insert dlife_bind dlife_reject dlife_consume dlife_outcome : focus.

Lemma dlife_get strict P {B} id (k : option AgentDispatch -> cmd B) :
  (forall d, d_id d = id -> dlife strict (fun x => P x /\ drow d x) (k (Some d))) ->
  dlife strict P (k None) -> dlife strict P (d ← get_dispatch id; k d).
Proof.
  intros S N. apply focus_bind_query. intros db. destruct (by_id d_id id (db_dispatches db)) as [d|] eqn:E.
  - pose proof (by_id_key _ _ _ _ E) as K. eapply focus_mono; [exact (S d K) |].
    intros x [p ->]. split; [exact p |]. unfold drow. by rewrite K.
  - eapply focus_mono; [exact N |]. by intros x [p _].
Qed.
Lemma dlife_receive_work strict did meta result : dlife strict any (_receive_work did meta result).
Proof.
  unfold _receive_work. apply dlife_get; [intros d <- | focus_pure]. know.
  branch; [focus_pure |]. branch; [focus_pure |]. branch; [focus_pure |].
  branch; [focus_pure |]. know. branch; [focus_pure |]. branch; [|focus_pure].
  branch; [branch; focus_pure |].
  destruct e; try focus_pure. know. apply focus_bind; [apply _ | | focus_pure].
  apply dlife_status; [by intros x [_ H] | | done].
  unfold is_closed. apply bool_decide_eq_false in E.
  destruct (d_status d); try done.
Qed.
Lemma dlife_mark_failed strict did reason cls code :
  dlife strict any (mark_failed_work did reason cls code).
Proof.
  unfold mark_failed_work. unfold need at 1. apply focus_bind_assoc, dlife_get.
  - intros d <-. apply focus_bind_some; [apply _ |]. intros d' [= <-]. know.
    apply focus_bind; [apply _ | | focus_pure].
    apply dlife_status; [by intros x [_ H0] | by apply consumable_open | done].
  - apply focus_bind_some; [apply _ |]. discriminate.
Qed.

(** *** Recovery: the snapshot of the dispatches names every row once. *)
Definition dispatch_ids (x : list AgentDispatch) : Prop := NoDup (map d_id x).
Definition dvisit (l x : list AgentDispatch) : Prop := Forall (fun d => drow d x) l.
Lemma dvisit_update l d f x :
  NoDup (map d_id (d :: l)) -> (forall u, d_id (f u) = d_id u) -> dvisit l x ->
  dvisit l (update_where (fun u => String.eqb (d_id u) (d_id d)) f x).
Proof.
  intros N K V. unfold dvisit in *. rewrite List.Forall_forall in *. intros u I. unfold drow.
  rewrite by_id_update by done. destruct (String.eqb (d_id u) (d_id d)) eqn:E; [|exact (V u I)].
  exfalso. apply String.eqb_eq in E. cbn in N. apply NoDup_cons in N as [N _]. apply N.
  rewrite <- E. by apply list_elem_of_In, in_map.
Qed.
Lemma dvisit_recover strict P at_ acc d l :
  NoDup (map d_id (d :: l)) ->
  focus db_dispatches (stable (dvisit l)) strict P (recover_dispatch at_ acc d).
Proof.
  intros N.
  assert (U : forall st, focus db_dispatches (stable (dvisit l)) strict P (_update_dispatch_status (d_id d) st at_)).
  { intros st. apply focus_update; [apply _ |]. intros db _ _ V. by apply dvisit_update. }
  unfold recover_dispatch. cbv zeta. focus_tac.
  all: by eapply focus_bind; [apply _ | apply U | focus_pure].
Qed.
Lemma dlife_recover_dispatch strict (P : _ -> Prop) at_ acc d :
  (forall x, P x -> drow d x) -> dlife strict P (recover_dispatch at_ acc d).
Proof.
  intros R. unfold recover_dispatch. cbv zeta. branch; [focus_pure |].
  assert (O : is_closed d = false) by (unfold is_closed; by destruct (d_status d)).
  assert (U : forall st, st <> DPENDING -> dlife strict P (_update_dispatch_status (d_id d) st at_))
    by (intros st S; by apply dlife_status).
  branch; [|branch]; (apply focus_bind; [apply _ | by apply U | focus_pure]).
Qed.
Lemma dlife_recover_dispatches strict at_ l acc :
  NoDup (map d_id l) -> dlife strict (dvisit l) (mfold (recover_dispatch at_) l acc).
Proof.
  revert acc. induction l as [|d l IH]; intros acc N; cbn [mfold]; [focus_pure |].
  apply (focus_bind_stable _ _ _ _ (dvisit l)).
  - apply dlife_recover_dispatch. by intros x [V _]%Forall_cons.
  - by intros x [_ V]%Forall_cons.
  - by apply dvisit_recover.
  - intros acc'. apply IH. by apply NoDup_cons in N as [_ N].
Qed.
Lemma insert_dispatch_perm d l : Permutation (insert_dispatch d l) (d :: l).
Proof.
  induction l as [|y l IH]; [done | cbn]. destruct (dispatch_leb d y); [done |].
  rewrite IH. constructor.
Qed.
Lemma order_dispatches_perm l : Permutation (order_dispatches l) l.
Proof.
  induction l as [|d l IH]; [done | cbn]. by rewrite insert_dispatch_perm, IH.
Qed.
Lemma snapshot_dvisit x :
  dispatch_ids x ->
  NoDup (map d_id (order_dispatches (List.filter (fun _ => true && true) x))) /\
  dvisit (order_dispatches (List.filter (fun _ => true && true) x)) x.
Proof.
  intros N. assert (F : List.filter (fun _ : AgentDispatch => true && true) x = x)
    by (clear; induction x as [|y x IH]; cbn in *; congruence).
  rewrite F. split.
  - rewrite order_dispatches_perm. exact N.
  - unfold dvisit. rewrite order_dispatches_perm. rewrite List.Forall_forall.
    intros d I. unfold drow, by_id. clear F. induction x as [|y x IH]; [done | cbn in *].
    apply NoDup_cons in N as [N1 N2]. destruct I as [-> | I]; [by rewrite String.eqb_refl |].
    destruct (String.eqb (d_id y) (d_id d)) eqn:E; [|by apply IH].
    exfalso. apply String.eqb_eq in E. apply N1. rewrite E. by apply list_elem_of_In, in_map.
Qed.
Lemma dlife_recover_work strict : dlife strict dispatch_ids _recover_work.
Proof.
  unfold _recover_work. do 3 know_step. apply focus_bind_query. intros db.
  apply focus_bind; [apply _ | | focus_pure].
  apply (focus_fact _ _ _ _ (dispatch_ids (db_dispatches db))); [by intros x [N ->] | intros N].
  destruct (snapshot_dvisit _ N) as [N' V].
  eapply focus_mono; [by apply dlife_recover_dispatches |]. by intros x [_ ->].
Qed.

Lemma dlife_run strict c : dlife strict dispatch_ids (run c).
Proof.
  pose proof dlife_receive_work as W1. pose proof dlife_mark_failed as W2.
  pose proof dlife_recover_work as W3.
  assert (W : dlife false dispatch_ids (report ← _recover_work; mret (report, "recovered")))
    by (apply focus_bind; [apply _ | apply W3 | focus_pure]).
  destruct c; cbn [run]; unfold void; (apply focus_bind; [apply _ | | focus_pure]).
  24: { unfold recover, _idempotent. know. branch; know; [branch; [focus_pure |] |].
        all: apply focus_bind; [apply _ | exact W | focus_pure]. }
  all: apply (focus_mono _ _ _ _ any); [focus_pure | done].
Qed.
Lemma run_all_dispatches cs s :
  db_ok (st_db s) = true -> dispatch_moves (db_dispatches (st_db s)) (db_dispatches (st_db (run_all cs s))).
Proof.
  revert s. induction cs as [|c cs IH]; intros s ok; [reflexivity | cbn].
  etransitivity; [| apply IH; by apply (ev_ok _ _ (run_evolves c s))].
  destruct (run c s) as [r s'] eqn:E. refine (dlife_run true c s r s' _ E (or_introl eq_refl)).
  unfold db_ok, dispatches_ok, uniq in ok. rewrite !andb_true_iff, !bool_decide_eq_true in ok.
  unfold dispatch_ids, part. tauto.
Qed.

(** A dispatch's life cycle is one-way: whatever commands follow, a dispatch
    keeps its identity and planned model, never returns to PENDING, and once it
    is consumed, failed, rejected or quarantined its row (stored result, model
    and session bindings, timestamps) never changes again, the attempt-outcome
    label apart. *)
Theorem dispatch_lifecycle cs cs' id :
  match by_id d_id id (db_dispatches (db_after cs)) with
  | Some d => exists d', by_id d_id id (db_dispatches (db_after (cs ++ cs'))) = Some d' /\
                         dispatch_next d d'
  | None => True
  end.
Proof.
  destruct (by_id _ _ _) as [d|] eqn:E; [|done].
  unfold db_after. rewrite run_all_app. exact (run_all_dispatches cs' _ (run_all_ok cs) id d E).
Qed.

(** ** Results for dispatches that are not awaiting one *)
Definition agent_effects (db : DB) :=
  (db_tasks db, db_role_runs db, db_task_runs db, db_handoffs db, db_findings db, db_test_runs db,
   db_reviews db, db_decisions db, db_approvals db, db_executions db, db_dispatches db).
Lemma keep_refuse tid did reason status meta : keep agent_effects (refuse tid did reason status meta).
Proof. focus_pure. Qed.
Hint Resolve keep_refuse : focus.
Definition awaiting (did : string) (db : DB) : bool :=
  match by_id d_id did (db_dispatches db) with Some d => consumable d | None => false end.
Lemma receive_inert did meta result :
  focus agent_effects eq false (fun x => match by_id d_id did (snd x) with Some d => consumable d | None => false end = false)
    (_receive_work did meta result).
Proof.
  unfold _receive_work. apply focus_bind_query. intros db. cbv beta. branch; [|focus_pure].
  apply (focus_fact _ _ _ _ (consumable a = false)).
  { intros x [H ->]. unfold agent_effects in H. cbn [snd] in H. by rewrite E in H. }
  intros C. know. branch; [focus_pure |]. branch; [focus_pure |]. branch; [focus_pure |].
  exfalso. unfold consumable in C. by destruct (d_status a).
Qed.
(** A result is taken at most once and only by a running dispatch: a result
    delivered for a dispatch that is unknown, still pending, or already
    consumed, failed, rejected or quarantined changes no task, run, handoff,
    finding, test, review, decision, approval, execution or dispatch (it can
    only be logged and quarantined). *)
Theorem late_results_inert did meta result source key s :
  awaiting did (st_db s) = true \/
  agent_effects (st_db (receive_agent_result did meta result source key s).2) = agent_effects (st_db s).
Proof.
  destruct (awaiting did (st_db s)) eqn:A; [by left | right]. symmetry.
  destruct (receive_agent_result _ _ _ _ _ s) as [r s'] eqn:E. cbn. revert E.
  enough (F : focus agent_effects eq true (fun x => match by_id d_id did (snd x) with Some d => consumable d | None => false end = false)
                (receive_agent_result did meta result source key))
    by (intros E; exact (F s r s' A E (or_introl eq_refl))).
  pose proof (receive_inert did meta result) as W. unfold receive_agent_result. know.
  branch; [| exact W]. know. branch; [focus_pure |]. apply focus_bind; [apply _ | exact W | focus_pure].
Qed.

(** ** Recovery leaves no dispatch in flight *)
Definition in_flight (d : AgentDispatch) : bool := in_list (d_status d) [DPENDING; DRUNNING].
Definition to_resolve (l : list AgentDispatch) (db : DB) : Prop :=
  forall d, In d (db_dispatches db) -> in_flight d = true -> In d l.
Lemma resolve_update d l st at_ :
  in_list st [DPENDING; DRUNNING] = false ->
  triple (to_resolve (d :: l)) (_update_dispatch_status (d_id d) st at_) (fun _ => to_resolve l).
Proof.
  intros S. apply triple_update. intros db R _ x I F. cbn in I. apply in_map_iff in I as (y & E & I).
  destruct (String.eqb (d_id y) (d_id d)) eqn:Q; subst x.
  - unfold in_flight in F. cbn in F. unfold in_list in S. cbn in S. congruence.
  - destruct (R y I F) as [-> | H]; [by rewrite String.eqb_refl in Q | exact H].
Qed.
Lemma triple_rest l {A} (m : cmd A) : keep db_dispatches m -> triple (to_resolve l) m (fun _ => to_resolve l).
Proof.
  intros K s a s' R E. pose proof (K s _ s' I E (or_introl eq_refl)) as Q. unfold part in Q.
  unfold to_resolve in *. by rewrite <- Q.
Qed.
Lemma resolve_recover at_ acc d l :
  triple (to_resolve (d :: l)) (recover_dispatch at_ acc d) (fun _ => to_resolve l).
Proof.
  unfold recover_dispatch. cbv zeta. destruct (negb _) eqn:N.
  - apply triple_ret. intros db R x I F. destruct (R x I F) as [<- | H]; [|exact H].
    unfold in_flight in F. by rewrite F in N.
  - destruct (bool_decide (d_role d = IMPLEMENTER)); [|destruct (bool_decide (d_status d = DPENDING))].
    all: (eapply triple_bind; [by apply resolve_update | intros u]); apply triple_rest; keep_tac.
Qed.
Lemma resolve_all at_ l acc :
  triple (to_resolve l) (mfold (recover_dispatch at_) l acc) (fun _ => to_resolve []).
Proof.
  revert acc. induction l as [|d l IH]; intros acc; cbn [mfold]; [by apply triple_ret |].
  eapply triple_bind; [apply resolve_recover | intros acc'; apply IH].
Qed.
(** Recovery leaves nothing in flight: after a recovery no dispatch is
    PENDING or RUNNING; every one was failed or parked as RECOVERY_PENDING. *)
Theorem recovery_resolves_dispatches s :
  match _recover_work s with
  | (Ok _, s') => Forall (fun d => in_flight d = false) (db_dispatches (st_db s'))
  | (Err _, _) => True
  end.
Proof.
  destruct (_recover_work s) as [[rep|e] s'] eqn:E; [|done].
  enough (T : triple (fun _ => True) _recover_work (fun _ => to_resolve [])).
  { specialize (T s rep s' I E). rewrite List.Forall_forall. intros d Hd.
    destruct (in_flight d) eqn:F; [destruct (T d Hd F) | done]. }
  unfold _recover_work. do 2 (apply (triple_bind _ _ _ (fun _ _ => True)); [done | intros ?]).
  apply (triple_bind _ _ _ (fun _ _ => True)); [done | intros pending0].
  apply triple_read. intros all.
  apply (triple_conseq _ (to_resolve all) _ (fun _ => to_resolve [])); [| | done].
  - eapply triple_bind; [apply resolve_all | intros [cons pending]]. apply triple_rest. keep_tac.
  - intros db [_ <-] d Hd _. eapply Permutation_in; [symmetry; apply order_dispatches_perm |].
    apply filter_In. by split.
Qed.
End DispatchLife.

(** ** Agent outputs *)
(** A complete QA output with one test of the given outcome. *)
Definition qa_test (outcome : string) : pyval :=
  args_dict [("name", PStr "t1"); ("result", PStr outcome)].
Definition qa_output (outcome : string) : pyval :=
  args_dict
    [("role", PStr "qa"); ("task_id", PStr "t"); ("dispatch_id", PStr "d");
     ("status", PStr "ok"); ("findings", PList []); ("own_assessment", PStr "fine");
     ("concerns", PList []); ("proposal", PStr "go"); ("alternatives", PList []);
     ("confidence", PFloat (FDec false 9 (-1))); ("blockers", PList []);
     ("requested_next_state", PStr "REVIEWING"); ("tests", PList [qa_test outcome]);
     ("failures", PList []); ("regressions", PList []); ("coverage_concerns", PList [])].

(** The validator and the effects of a QA result disagree on the outcomes: a
    test outcome [error] is on the validator's list, but recording the test
    raises [ValueError] (the outcome enum has passed and failed only), after
    the dispatch was consumed, so the whole delivery is rolled back as a crash
    instead of being rejected; [passed] and [failed] are recorded. *)
Theorem qa_error_outcome_crashes `{Env} d at_ s :
  is_ok (validate_role_output QA (qa_output "error")) = true /\
  fst (effect_test d at_ (qa_test "error") s) = Err ValueError /\
  (forall outcome, of_value (A := TestResult) outcome = None <-> outcome <> "passed" /\ outcome <> "failed").
Proof.
  split; [by vm_compute |]. split; [reflexivity |].
  intros outcome. unfold of_value. cbn -[String.eqb].
  destruct (String.eqb_spec "passed" outcome); [subst; split; [discriminate | intuition congruence] |].
  destruct (String.eqb_spec "failed" outcome); [subst; split; [discriminate | intuition congruence] |].
  split; [intros _; split; congruence | reflexivity].
Qed.
