(* ===== verification/JobRows.v ===== *)
(** * JobRows: the tables of the supervised jobs
    (src/argent_core/store.py, the tables from supervisor_jobs on).

    They live in the same SQLite database as the tables of [CoreStore]; [JT] holds
    them as lists of rows in rowid order and [JSt] pairs them with the core's state
    and the connection's action fence.  [jt_ok] states what the schema declares: a
    statement whose result violates it raises [IntegrityError] and changes
    nothing.  A row of supervisor_jobs groups its columns: [Flow] (the projection of
    the workflow), [Writer] (the worktree binding), [JobAudit] and [Footprint];
    [assign] is one [column = value] of the keyword arguments of an update. *)
From S2P Require Import Prelude PyVal Models JobState Concurrency CoreStore.
#[local] Open Scope string_scope.

(** ** supervisor_jobs *)
Record Flow : Type := mkFlow {
  fl_workflow_state : string;
  fl_expected_role : option string;
  fl_expected_dispatch_id : option string;
  fl_agent_id : option string;
  fl_session_id : option string;
  fl_run_id : option string;
  fl_dispatch_status : option string;
  fl_result_status : string;
  fl_result_consumed : Z;
  fl_current_handoff_id : option string;
  fl_open_findings_count : Z;
  fl_rework_cycle : Z;
  fl_owner_gate_id : option string;
  fl_gate_status : option string;
  fl_gate_scope : option string;
  fl_gate_closed : Z;
  fl_owner_prompted_at : option string;
  fl_owner_prompted_gate_id : option string;
  fl_missing_confirmations : Z
}.
#[export] Instance Flow_eta : EtaExpand Flow := fun x =>
  mkFlow (fl_workflow_state x) (fl_expected_role x) (fl_expected_dispatch_id x) (fl_agent_id x) (fl_session_id x) (fl_run_id x) (fl_dispatch_status x) (fl_result_status x) (fl_result_consumed x) (fl_current_handoff_id x) (fl_open_findings_count x) (fl_rework_cycle x) (fl_owner_gate_id x) (fl_gate_status x) (fl_gate_scope x) (fl_gate_closed x) (fl_owner_prompted_at x) (fl_owner_prompted_gate_id x) (fl_missing_confirmations x).

Record Writer : Type := mkWriter {
  w_canonical_worktree_path : option string;
  w_repo_identity : option string;
  w_base_commit : option string;
  w_branch_identity : option string;
  w_writer_dispatch_id : option string;
  w_writer_owner_instance_id : option string;
  w_writer_lease_epoch : Z;
  w_writer_binding_mode : option string;
  w_expected_head : option string;
  w_current_head : option string
}.
#[export] Instance Writer_eta : EtaExpand Writer := fun x =>
  mkWriter (w_canonical_worktree_path x) (w_repo_identity x) (w_base_commit x) (w_branch_identity x) (w_writer_dispatch_id x) (w_writer_owner_instance_id x) (w_writer_lease_epoch x) (w_writer_binding_mode x) (w_expected_head x) (w_current_head x).

Record JobAudit : Type := mkJobAudit {
  au_last_resource_decision : option string;
  au_last_resource_reason_code : option string;
  au_last_resource_snapshot_hash : option string;
  au_last_resource_at : option string;
  au_last_recovery_decision : option string;
  au_last_failure_class : option string;
  au_last_recovery_at : option string;
  au_last_concurrency_reason_code : option string;
  au_last_concurrency_at : option string
}.
#[export] Instance JobAudit_eta : EtaExpand JobAudit := fun x =>
  mkJobAudit (au_last_resource_decision x) (au_last_resource_reason_code x) (au_last_resource_snapshot_hash x) (au_last_resource_at x) (au_last_recovery_decision x) (au_last_failure_class x) (au_last_recovery_at x) (au_last_concurrency_reason_code x) (au_last_concurrency_at x).

Record Footprint : Type := mkFootprint {
  fp_mutation_path_roots : option string;
  fp_mutation_modules : option string;
  fp_external_action_class : option string;
  fp_integration_target : option string;
  fp_action_scope : option string
}.
#[export] Instance Footprint_eta : EtaExpand Footprint := fun x =>
  mkFootprint (fp_mutation_path_roots x) (fp_mutation_modules x) (fp_external_action_class x) (fp_integration_target x) (fp_action_scope x).

Record Job : Type := mkJob {
  j_id : string;
  j_task_id : string;
  j_status : string;
  j_terminal : option string;
  j_primary_state : string;
  j_queue_reason : string;
  j_priority : Z;
  j_wait_kind : string;
  j_error_class : string;
  j_last_error_code : option string;
  j_next_eligible_at : option string;
  j_next_action : string;
  j_next_wake_at : option string;
  j_attempt_no : Z;
  j_retry_count : Z;
  j_recovery_state : string;
  j_facts_version : Z;
  j_owner_instance_id : option string;
  j_lease_epoch : Z;
  j_lease_expires_at : option string;
  j_resource_class : string;
  j_depends_on : option string;
  j_last_progress_at : string;
  j_created_at : string;
  j_updated_at : string;
  j_flow : Flow;
  j_writer : Writer;
  j_audit : JobAudit;
  j_footprint : Footprint
}.
#[export] Instance Job_eta : EtaExpand Job := fun x =>
  mkJob (j_id x) (j_task_id x) (j_status x) (j_terminal x) (j_primary_state x) (j_queue_reason x) (j_priority x) (j_wait_kind x) (j_error_class x) (j_last_error_code x) (j_next_eligible_at x) (j_next_action x) (j_next_wake_at x) (j_attempt_no x) (j_retry_count x) (j_recovery_state x) (j_facts_version x) (j_owner_instance_id x) (j_lease_epoch x) (j_lease_expires_at x) (j_resource_class x) (j_depends_on x) (j_last_progress_at x) (j_created_at x) (j_updated_at x) (j_flow x) (j_writer x) (j_audit x) (j_footprint x).

Inductive assign : Type :=
| A_task_id (v : string)
| A_status (v : string)
| A_terminal (v : option string)
| A_primary_state (v : string)
| A_queue_reason (v : string)
| A_priority (v : Z)
| A_wait_kind (v : string)
| A_error_class (v : string)
| A_last_error_code (v : option string)
| A_next_eligible_at (v : option string)
| A_next_action (v : string)
| A_next_wake_at (v : option string)
| A_attempt_no (v : Z)
| A_retry_count (v : Z)
| A_recovery_state (v : string)
| A_facts_version (v : Z)
| A_owner_instance_id (v : option string)
| A_lease_epoch (v : Z)
| A_lease_expires_at (v : option string)
| A_resource_class (v : string)
| A_depends_on (v : option string)
| A_last_progress_at (v : string)
| A_updated_at (v : string)
| A_workflow_state (v : string)
| A_expected_role (v : option string)
| A_expected_dispatch_id (v : option string)
| A_agent_id (v : option string)
| A_session_id (v : option string)
| A_run_id (v : option string)
| A_dispatch_status (v : option string)
| A_result_status (v : string)
| A_result_consumed (v : Z)
| A_current_handoff_id (v : option string)
| A_open_findings_count (v : Z)
| A_rework_cycle (v : Z)
| A_owner_gate_id (v : option string)
| A_gate_status (v : option string)
| A_gate_scope (v : option string)
| A_gate_closed (v : Z)
| A_owner_prompted_at (v : option string)
| A_owner_prompted_gate_id (v : option string)
| A_missing_confirmations (v : Z)
| A_canonical_worktree_path (v : option string)
| A_repo_identity (v : option string)
| A_base_commit (v : option string)
| A_branch_identity (v : option string)
| A_writer_dispatch_id (v : option string)
| A_writer_owner_instance_id (v : option string)
| A_writer_lease_epoch (v : Z)
| A_writer_binding_mode (v : option string)
| A_expected_head (v : option string)
| A_current_head (v : option string)
| A_last_resource_decision (v : option string)
| A_last_resource_reason_code (v : option string)
| A_last_resource_snapshot_hash (v : option string)
| A_last_resource_at (v : option string)
| A_last_recovery_decision (v : option string)
| A_last_failure_class (v : option string)
| A_last_recovery_at (v : option string)
| A_last_concurrency_reason_code (v : option string)
| A_last_concurrency_at (v : option string)
| A_mutation_path_roots (v : option string)
| A_mutation_modules (v : option string)
| A_external_action_class (v : option string)
| A_integration_target (v : option string)
| A_action_scope (v : option string).

Definition apply_assign (a : assign) (j : Job) : Job :=
  match a with
  | A_task_id v => j <| j_task_id := v |>
  | A_status v => j <| j_status := v |>
  | A_terminal v => j <| j_terminal := v |>
  | A_primary_state v => j <| j_primary_state := v |>
  | A_queue_reason v => j <| j_queue_reason := v |>
  | A_priority v => j <| j_priority := v |>
  | A_wait_kind v => j <| j_wait_kind := v |>
  | A_error_class v => j <| j_error_class := v |>
  | A_last_error_code v => j <| j_last_error_code := v |>
  | A_next_eligible_at v => j <| j_next_eligible_at := v |>
  | A_next_action v => j <| j_next_action := v |>
  | A_next_wake_at v => j <| j_next_wake_at := v |>
  | A_attempt_no v => j <| j_attempt_no := v |>
  | A_retry_count v => j <| j_retry_count := v |>
  | A_recovery_state v => j <| j_recovery_state := v |>
  | A_facts_version v => j <| j_facts_version := v |>
  | A_owner_instance_id v => j <| j_owner_instance_id := v |>
  | A_lease_epoch v => j <| j_lease_epoch := v |>
  | A_lease_expires_at v => j <| j_lease_expires_at := v |>
  | A_resource_class v => j <| j_resource_class := v |>
  | A_depends_on v => j <| j_depends_on := v |>
  | A_last_progress_at v => j <| j_last_progress_at := v |>
  | A_updated_at v => j <| j_updated_at := v |>
  | A_workflow_state v => j <| j_flow ::= set fl_workflow_state (fun _ => v) |>
  | A_expected_role v => j <| j_flow ::= set fl_expected_role (fun _ => v) |>
  | A_expected_dispatch_id v => j <| j_flow ::= set fl_expected_dispatch_id (fun _ => v) |>
  | A_agent_id v => j <| j_flow ::= set fl_agent_id (fun _ => v) |>
  | A_session_id v => j <| j_flow ::= set fl_session_id (fun _ => v) |>
  | A_run_id v => j <| j_flow ::= set fl_run_id (fun _ => v) |>
  | A_dispatch_status v => j <| j_flow ::= set fl_dispatch_status (fun _ => v) |>
  | A_result_status v => j <| j_flow ::= set fl_result_status (fun _ => v) |>
  | A_result_consumed v => j <| j_flow ::= set fl_result_consumed (fun _ => v) |>
  | A_current_handoff_id v => j <| j_flow ::= set fl_current_handoff_id (fun _ => v) |>
  | A_open_findings_count v => j <| j_flow ::= set fl_open_findings_count (fun _ => v) |>
  | A_rework_cycle v => j <| j_flow ::= set fl_rework_cycle (fun _ => v) |>
  | A_owner_gate_id v => j <| j_flow ::= set fl_owner_gate_id (fun _ => v) |>
  | A_gate_status v => j <| j_flow ::= set fl_gate_status (fun _ => v) |>
  | A_gate_scope v => j <| j_flow ::= set fl_gate_scope (fun _ => v) |>
  | A_gate_closed v => j <| j_flow ::= set fl_gate_closed (fun _ => v) |>
  | A_owner_prompted_at v => j <| j_flow ::= set fl_owner_prompted_at (fun _ => v) |>
  | A_owner_prompted_gate_id v => j <| j_flow ::= set fl_owner_prompted_gate_id (fun _ => v) |>
  | A_missing_confirmations v => j <| j_flow ::= set fl_missing_confirmations (fun _ => v) |>
  | A_canonical_worktree_path v => j <| j_writer ::= set w_canonical_worktree_path (fun _ => v) |>
  | A_repo_identity v => j <| j_writer ::= set w_repo_identity (fun _ => v) |>
  | A_base_commit v => j <| j_writer ::= set w_base_commit (fun _ => v) |>
  | A_branch_identity v => j <| j_writer ::= set w_branch_identity (fun _ => v) |>
  | A_writer_dispatch_id v => j <| j_writer ::= set w_writer_dispatch_id (fun _ => v) |>
  | A_writer_owner_instance_id v => j <| j_writer ::= set w_writer_owner_instance_id (fun _ => v) |>
  | A_writer_lease_epoch v => j <| j_writer ::= set w_writer_lease_epoch (fun _ => v) |>
  | A_writer_binding_mode v => j <| j_writer ::= set w_writer_binding_mode (fun _ => v) |>
  | A_expected_head v => j <| j_writer ::= set w_expected_head (fun _ => v) |>
  | A_current_head v => j <| j_writer ::= set w_current_head (fun _ => v) |>
  | A_last_resource_decision v => j <| j_audit ::= set au_last_resource_decision (fun _ => v) |>
  | A_last_resource_reason_code v => j <| j_audit ::= set au_last_resource_reason_code (fun _ => v) |>
  | A_last_resource_snapshot_hash v => j <| j_audit ::= set au_last_resource_snapshot_hash (fun _ => v) |>
  | A_last_resource_at v => j <| j_audit ::= set au_last_resource_at (fun _ => v) |>
  | A_last_recovery_decision v => j <| j_audit ::= set au_last_recovery_decision (fun _ => v) |>
  | A_last_failure_class v => j <| j_audit ::= set au_last_failure_class (fun _ => v) |>
  | A_last_recovery_at v => j <| j_audit ::= set au_last_recovery_at (fun _ => v) |>
  | A_last_concurrency_reason_code v => j <| j_audit ::= set au_last_concurrency_reason_code (fun _ => v) |>
  | A_last_concurrency_at v => j <| j_audit ::= set au_last_concurrency_at (fun _ => v) |>
  | A_mutation_path_roots v => j <| j_footprint ::= set fp_mutation_path_roots (fun _ => v) |>
  | A_mutation_modules v => j <| j_footprint ::= set fp_mutation_modules (fun _ => v) |>
  | A_external_action_class v => j <| j_footprint ::= set fp_external_action_class (fun _ => v) |>
  | A_integration_target v => j <| j_footprint ::= set fp_integration_target (fun _ => v) |>
  | A_action_scope v => j <| j_footprint ::= set fp_action_scope (fun _ => v) |>
  end.


(** ** The other tables *)
Record SupervisorAction : Type := mkSupervisorAction {
  a_id : string;
  a_supervisor_job_id : string;
  a_dispatch_id : option string;
  a_action_type : string;
  a_action_key : string;
  a_args_hash : string;
  a_input_hash : option string;
  a_precondition_hash : option string;
  a_effect_hash : option string;
  a_patch_set_json : option string;
  a_status : string;
  a_attempt_count : Z;
  a_next_attempt_at : option string;
  a_started_at : option string;
  a_finished_at : option string;
  a_last_error_code : option string;
  a_created_at : string;
  a_updated_at : string
}.
#[export] Instance SupervisorAction_eta : EtaExpand SupervisorAction := fun x =>
  mkSupervisorAction (a_id x) (a_supervisor_job_id x) (a_dispatch_id x) (a_action_type x) (a_action_key x) (a_args_hash x) (a_input_hash x) (a_precondition_hash x) (a_effect_hash x) (a_patch_set_json x) (a_status x) (a_attempt_count x) (a_next_attempt_at x) (a_started_at x) (a_finished_at x) (a_last_error_code x) (a_created_at x) (a_updated_at x).
Record WriteIntent : Type := mkWriteIntent {
  wi_dispatch_id : string;
  wi_canonical_input_hash : string;
  wi_intent_action_id : string;
  wi_created_at : string;
  wi_updated_at : string
}.
#[export] Instance WriteIntent_eta : EtaExpand WriteIntent := fun x =>
  mkWriteIntent (wi_dispatch_id x) (wi_canonical_input_hash x) (wi_intent_action_id x) (wi_created_at x) (wi_updated_at x).
Record RecoveryMarker : Type := mkRecoveryMarker {
  rm_job_id : string;
  rm_process_id : string;
  rm_consumed_at : string
}.
#[export] Instance RecoveryMarker_eta : EtaExpand RecoveryMarker := fun x =>
  mkRecoveryMarker (rm_job_id x) (rm_process_id x) (rm_consumed_at x).
Record ActionLock : Type := mkActionLock {
  al_lock_name : string;
  al_holder_job_id : string;
  al_holder_lease_epoch : Z;
  al_acquired_at : string;
  al_updated_at : string
}.
#[export] Instance ActionLock_eta : EtaExpand ActionLock := fun x =>
  mkActionLock (al_lock_name x) (al_holder_job_id x) (al_holder_lease_epoch x) (al_acquired_at x) (al_updated_at x).
Record Candidate : Type := mkCandidate {
  c_id : string;
  c_repository : string;
  c_integration_target : string;
  c_source_job_id : string;
  c_state : string;
  c_queue_position : Z;
  c_priority : Z;
  c_depends_on : option string;
  c_base_commit : option string;
  c_source_head : option string;
  c_source_branch : option string;
  c_integration_worktree_path : option string;
  c_integration_branch : option string;
  c_integrated_head : option string;
  c_merge_classification : option string;
  c_conflict_detail : option string;
  c_revision : Z;
  c_holder_owner_instance_id : option string;
  c_holder_lease_epoch : Z;
  c_result_json : option string;
  c_last_error_code : option string;
  c_created_at : string;
  c_updated_at : string
}.
#[export] Instance Candidate_eta : EtaExpand Candidate := fun x =>
  mkCandidate (c_id x) (c_repository x) (c_integration_target x) (c_source_job_id x) (c_state x) (c_queue_position x) (c_priority x) (c_depends_on x) (c_base_commit x) (c_source_head x) (c_source_branch x) (c_integration_worktree_path x) (c_integration_branch x) (c_integrated_head x) (c_merge_classification x) (c_conflict_detail x) (c_revision x) (c_holder_owner_instance_id x) (c_holder_lease_epoch x) (c_result_json x) (c_last_error_code x) (c_created_at x) (c_updated_at x).
Record Instance : Type := mkInstance {
  si_instance_id : string;
  si_boot_id : option string;
  si_host_id : option string;
  si_pid : option Z;
  si_process_start_ticks : option Z;
  si_status : string;
  si_acquired_at : string;
  si_lease_expires_at : option string;
  si_last_heartbeat_at : option string;
  si_stopped_at : option string;
  si_stop_reason : option string;
  si_last_error_code : option string;
  si_updated_at : string;
  si_revision : Z
}.
#[export] Instance Instance_eta : EtaExpand Instance := fun x =>
  mkInstance (si_instance_id x) (si_boot_id x) (si_host_id x) (si_pid x) (si_process_start_ticks x) (si_status x) (si_acquired_at x) (si_lease_expires_at x) (si_last_heartbeat_at x) (si_stopped_at x) (si_stop_reason x) (si_last_error_code x) (si_updated_at x) (si_revision x).
Record Wait : Type := mkWait {
  ew_wait_id : string;
  ew_job_id : string;
  ew_kind : string;
  ew_provider : string;
  ew_ref : string;
  ew_expected_subject : option string;
  ew_last_observed_state : option string;
  ew_next_check_at : string;
  ew_deadline_at : option string;
  ew_check_attempt : Z;
  ew_event_version : Z;
  ew_terminal_observed_at : option string;
  ew_ci_policy : option string;
  ew_ci_evidence : option string;
  ew_created_at : string;
  ew_updated_at : string
}.
#[export] Instance Wait_eta : EtaExpand Wait := fun x =>
  mkWait (ew_wait_id x) (ew_job_id x) (ew_kind x) (ew_provider x) (ew_ref x) (ew_expected_subject x) (ew_last_observed_state x) (ew_next_check_at x) (ew_deadline_at x) (ew_check_attempt x) (ew_event_version x) (ew_terminal_observed_at x) (ew_ci_policy x) (ew_ci_evidence x) (ew_created_at x) (ew_updated_at x).
Record Process : Type := mkProcess {
  p_process_id : string;
  p_job_id : string;
  p_dispatch_id : option string;
  p_pid : Z;
  p_boot_id : option string;
  p_process_start_ticks : option Z;
  p_cgroup_ref : option string;
  p_scope_ref : option string;
  p_resource_class : option string;
  p_policy_version : option string;
  p_effective_limits : option string;
  p_termination_class : option string;
  p_timed_out : Z;
  p_scope_events : option string;
  p_status : string;
  p_created_at : string;
  p_last_observed_at : option string;
  p_terminal_at : option string;
  p_exit_code : option Z
}.
#[export] Instance Process_eta : EtaExpand Process := fun x =>
  mkProcess (p_process_id x) (p_job_id x) (p_dispatch_id x) (p_pid x) (p_boot_id x) (p_process_start_ticks x) (p_cgroup_ref x) (p_scope_ref x) (p_resource_class x) (p_policy_version x) (p_effective_limits x) (p_termination_class x) (p_timed_out x) (p_scope_events x) (p_status x) (p_created_at x) (p_last_observed_at x) (p_terminal_at x) (p_exit_code x).
Record Request : Type := mkRequest {
  rq_request_id : string;
  rq_provider : string;
  rq_account : string;
  rq_action : string;
  rq_policy_class : string;
  rq_repository : string;
  rq_resource_ref : string;
  rq_source_job_id : string;
  rq_source_candidate_id : string;
  rq_requested_scope : string;
  rq_parameters : string;
  rq_expected_preconditions : option string;
  rq_idempotency_key : string;
  rq_provenance_version : Z;
  rq_provenance_hash : string;
  rq_state : string;
  rq_authorization_state : option string;
  rq_revision : Z;
  rq_holder_owner_instance_id : option string;
  rq_holder_lease_epoch : Z;
  rq_action_lock_name : option string;
  rq_provider_state : option string;
  rq_provider_object_id : option string;
  rq_attempt_count : Z;
  rq_next_attempt_at : option string;
  rq_last_failure_class : option string;
  rq_last_error_code : option string;
  rq_expires_at : option string;
  rq_created_at : string;
  rq_updated_at : string
}.
#[export] Instance Request_eta : EtaExpand Request := fun x =>
  mkRequest (rq_request_id x) (rq_provider x) (rq_account x) (rq_action x) (rq_policy_class x) (rq_repository x) (rq_resource_ref x) (rq_source_job_id x) (rq_source_candidate_id x) (rq_requested_scope x) (rq_parameters x) (rq_expected_preconditions x) (rq_idempotency_key x) (rq_provenance_version x) (rq_provenance_hash x) (rq_state x) (rq_authorization_state x) (rq_revision x) (rq_holder_owner_instance_id x) (rq_holder_lease_epoch x) (rq_action_lock_name x) (rq_provider_state x) (rq_provider_object_id x) (rq_attempt_count x) (rq_next_attempt_at x) (rq_last_failure_class x) (rq_last_error_code x) (rq_expires_at x) (rq_created_at x) (rq_updated_at x).
Record AuditRow : Type := mkAuditRow {
  xa_audit_id : string;
  xa_request_id : string;
  xa_event_type : string;
  xa_failure_class : option string;
  xa_reason_code : option string;
  xa_detail : option string;
  xa_created_at : string
}.
#[export] Instance AuditRow_eta : EtaExpand AuditRow := fun x =>
  mkAuditRow (xa_audit_id x) (xa_request_id x) (xa_event_type x) (xa_failure_class x) (xa_reason_code x) (xa_detail x) (xa_created_at x).
Record Notification : Type := mkNotification {
  n_id : string;
  n_supervisor_job_id : string;
  n_task_id : string;
  n_dispatch_id : option string;
  n_gate_id : option string;
  n_notification_type : string;
  n_event_ref : string;
  n_event_version : Z;
  n_dedup_key : string;
  n_payload_json : string;
  n_payload_hash : string;
  n_status : string;
  n_attempt_count : Z;
  n_next_attempt_at : option string;
  n_claimed_at : option string;
  n_claim_token : option string;
  n_last_attempt_at : option string;
  n_sent_at : option string;
  n_last_error_code : option string;
  n_created_at : string;
  n_updated_at : string
}.
#[export] Instance Notification_eta : EtaExpand Notification := fun x =>
  mkNotification (n_id x) (n_supervisor_job_id x) (n_task_id x) (n_dispatch_id x) (n_gate_id x) (n_notification_type x) (n_event_ref x) (n_event_version x) (n_dedup_key x) (n_payload_json x) (n_payload_hash x) (n_status x) (n_attempt_count x) (n_next_attempt_at x) (n_claimed_at x) (n_claim_token x) (n_last_attempt_at x) (n_sent_at x) (n_last_error_code x) (n_created_at x) (n_updated_at x).
Record Challenge : Type := mkChallenge {
  ch_id : string;
  ch_approval_id : string;
  ch_task_id : string;
  ch_supervisor_job_id : string;
  ch_binding_hash : string;
  ch_notification_outbox_id : option string;
  ch_token_hash : string;
  ch_status : string;
  ch_created_at : string;
  ch_expires_at : string;
  ch_consumed_at : option string;
  ch_consumed_update_id : option Z;
  ch_invalidated_at : option string
}.
#[export] Instance Challenge_eta : EtaExpand Challenge := fun x =>
  mkChallenge (ch_id x) (ch_approval_id x) (ch_task_id x) (ch_supervisor_job_id x) (ch_binding_hash x) (ch_notification_outbox_id x) (ch_token_hash x) (ch_status x) (ch_created_at x) (ch_expires_at x) (ch_consumed_at x) (ch_consumed_update_id x) (ch_invalidated_at x).
Record UpdateLog : Type := mkUpdateLog {
  ul_update_id : Z;
  ul_message_date : option Z;
  ul_chat_authorized : Z;
  ul_sender_authorized : Z;
  ul_decision : option string;
  ul_challenge_id : option string;
  ul_approval_id : option string;
  ul_outcome : string;
  ul_received_at : string;
  ul_processed_at : string
}.
#[export] Instance UpdateLog_eta : EtaExpand UpdateLog := fun x =>
  mkUpdateLog (ul_update_id x) (ul_message_date x) (ul_chat_authorized x) (ul_sender_authorized x) (ul_decision x) (ul_challenge_id x) (ul_approval_id x) (ul_outcome x) (ul_received_at x) (ul_processed_at x).
Record InboundState : Type := mkInboundState {
  ib_next_update_id : Z;
  ib_updated_at : string
}.
#[export] Instance InboundState_eta : EtaExpand InboundState := fun x =>
  mkInboundState (ib_next_update_id x) (ib_updated_at x).

Record JT : Type := mkJT {
  jt_jobs : list Job;
  jt_actions : list SupervisorAction;
  jt_intents : list WriteIntent;
  jt_markers : list RecoveryMarker;
  jt_locks : list ActionLock;
  jt_candidates : list Candidate;
  jt_instance : option Instance;
  jt_waits : list Wait;
  jt_processes : list Process;
  jt_requests : list Request;
  jt_audit : list AuditRow;
  jt_outbox : list Notification;
  jt_challenges : list Challenge;
  jt_update_log : list UpdateLog;
  jt_inbound : InboundState
}.
#[export] Instance JT_eta : EtaExpand JT := fun x =>
  mkJT (jt_jobs x) (jt_actions x) (jt_intents x) (jt_markers x) (jt_locks x) (jt_candidates x) (jt_instance x) (jt_waits x) (jt_processes x) (jt_requests x) (jt_audit x) (jt_outbox x) (jt_challenges x) (jt_update_log x) (jt_inbound x).

Definition empty_jt : JT :=
  mkJT [] [] [] [] [] [] None [] [] [] [] [] [] [] (mkInboundState 0 EmptyString).

(** ** Constraints *)
Definition nonneg (z : Z) : bool := (0 <=? z)%Z.
Definition flag (z : Z) : bool := (z =? 0)%Z || (z =? 1)%Z.
Definition opt_in (o : option string) (l : list string) : bool :=
  match o with None => true | Some s => str_in s l end.

Definition job_statuses : list string :=
  ["ACTIVE"; "WAITING_RUN"; "WAITING_GATE"; "BACKOFF"; "RECOVERING"; "ERROR"; "TERMINAL"].
Definition terminal_values : list string := ["DONE"; "FAILED"; "BLOCKED"].
Definition result_statuses : list string :=
  ["NOT_OBSERVED"; "NOT_FOUND"; "RUNNING"; "SUCCEEDED"; "FAILED"; "CANCELLED"; "UNKNOWN"; "CONFLICT"].
Definition job_row_ok (j : Job) : bool :=
  str_in (j_status j) job_statuses
  && opt_in (j_terminal j) terminal_values
  && str_in (j_primary_state j) PRIMARY_STATE_VALUES
  && str_in (j_resource_class j) RESOURCE_CLASS_VALUES
  && (bool_decide (j_terminal j = None)
      || (String.eqb (j_status j) "TERMINAL" && String.eqb (j_next_action j) "NONE"))
  && nonneg (j_attempt_no j) && nonneg (j_retry_count j) && nonneg (j_facts_version j)
  && nonneg (j_lease_epoch j) && nonneg (w_writer_lease_epoch (j_writer j))
  && opt_in (w_writer_binding_mode (j_writer j)) ["BOUND"]
  && str_in (fl_result_status (j_flow j)) result_statuses
  && flag (fl_result_consumed (j_flow j)) && flag (fl_gate_closed (j_flow j))
  && nonneg (fl_open_findings_count (j_flow j)) && (1 <=? fl_rework_cycle (j_flow j))%Z
  && nonneg (fl_missing_confirmations (j_flow j)).

Definition nonterminal (j : Job) : bool := bool_decide (j_terminal j = None).
Definition bound_writer (j : Job) : bool :=
  nonterminal j && ostr_eqb (w_writer_binding_mode (j_writer j)) (Some "BOUND").
Definition job_worktree (j : Job) : option string := w_canonical_worktree_path (j_writer j).

Definition jobs_ok (db : DB) (jobs : list Job) : bool :=
  uniq j_id jobs && forallb job_row_ok jobs
  && fk j_task_id jobs t_id (db_tasks db)
  && fk_opt (fun j => fl_expected_dispatch_id (j_flow j)) jobs d_id (db_dispatches db)
  && fk_opt (fun j => fl_owner_gate_id (j_flow j)) jobs ap_id (db_approvals db)
  && uniq_where nonterminal j_task_id jobs
  && uniq_opt job_worktree (List.filter bound_writer jobs).

Definition action_types : list string :=
  ["START_ROLE"; "CREATE_DISPATCH"; "SPAWN_RUN"; "BIND_RUN"; "APPLY_PATCH_SET";
   "RUN_SANDBOX_TESTS"; "RECORD_TEST_RESULT"; "CONSUME_RESULT"; "MARK_RUN_FAILED"; "CORE_RECOVER";
   "PRESENT_OWNER_GATE"; "CLOSE_JOB"].
Definition action_statuses : list string := ["PLANNED"; "RUNNING"; "SUCCEEDED"; "FAILED"; "UNCERTAIN"].
Definition is_spawn (a : SupervisorAction) : bool := String.eqb (a_action_type a) "SPAWN_RUN".
Definition actions_ok (db : DB) (t : JT) : bool :=
  let l := jt_actions t in
  uniq a_id l && uniq a_action_key l
  && fk a_supervisor_job_id l j_id (jt_jobs t)
  && fk_opt a_dispatch_id l d_id (db_dispatches db)
  && forallb (fun a => str_in (a_action_type a) action_types && str_in (a_status a) action_statuses
                       && nonneg (a_attempt_count a)) l
  && uniq_opt a_dispatch_id (List.filter is_spawn l)
  && uniq wi_dispatch_id (jt_intents t)
  && fk wi_dispatch_id (jt_intents t) d_id (db_dispatches db).

Definition candidate_states : list string :=
  ["PENDING"; "READY"; "INTEGRATING"; "CONFLICTED"; "STALE"; "BLOCKED"; "INTEGRATED"; "FAILED"].
Definition integrating (c : Candidate) : bool := String.eqb (c_state c) "INTEGRATING".
Definition locks_ok (t : JT) : bool :=
  uniq (fun m => (rm_job_id m, rm_process_id m)) (jt_markers t)
  && fk rm_job_id (jt_markers t) j_id (jt_jobs t)
  && uniq al_lock_name (jt_locks t) && fk al_holder_job_id (jt_locks t) j_id (jt_jobs t)
  && forallb (fun l => nonneg (al_holder_lease_epoch l)) (jt_locks t).
Definition candidates_ok (t : JT) : bool :=
  let l := jt_candidates t in
  uniq c_id l && fk c_source_job_id l j_id (jt_jobs t)
  && forallb (fun c => str_in (c_state c) candidate_states && nonneg (c_queue_position c)
                       && nonneg (c_revision c) && nonneg (c_holder_lease_epoch c)) l
  && uniq (fun c => (c_source_job_id c, c_integration_target c)) l
  && uniq_where integrating (fun c => (c_repository c, c_integration_target c)) l.

Definition instance_ok (o : option Instance) : bool :=
  match o with
  | None => true
  | Some i => str_in (si_status i) ["ACTIVE"; "RELEASED"] && nonneg (si_revision i)
              && match si_pid i with None => true | Some p => (0 <? p)%Z end
  end.
Definition wait_kinds : list string := ["CI"; "UPSTREAM"; "RATE_LIMIT"; "NETWORK"; "TIMER"].
Definition termination_classes : list string :=
  ["NORMAL_EXIT"; "NONZERO_EXIT"; "TIMEOUT"; "OOM_KILL"; "MEMORY_LIMIT"; "SCOPE_CREATION_FAILED";
   "SCOPE_VERIFICATION_FAILED"; "ENFORCEMENT_UNAVAILABLE"; "SCOPE_CLEANUP_UNVERIFIED";
   "UNKNOWN_TERMINATION"].
Definition waits_ok (t : JT) : bool :=
  uniq ew_wait_id (jt_waits t) && fk ew_job_id (jt_waits t) j_id (jt_jobs t)
  && forallb (fun w => str_in (ew_kind w) wait_kinds && nonneg (ew_check_attempt w)
                       && nonneg (ew_event_version w)) (jt_waits t).
Definition processes_ok (db : DB) (t : JT) : bool :=
  uniq p_process_id (jt_processes t) && fk p_job_id (jt_processes t) j_id (jt_jobs t)
  && fk_opt p_dispatch_id (jt_processes t) d_id (db_dispatches db)
  && forallb (fun p => (0 <? p_pid p)%Z && opt_in (p_resource_class p) RESOURCE_CLASS_VALUES
                       && opt_in (p_termination_class p) termination_classes && flag (p_timed_out p)
                       && str_in (p_status p) ["RUNNING"; "TERMINAL"; "UNKNOWN"]) (jt_processes t).

Definition request_states : list string :=
  ["PENDING"; "AUTHORIZED"; "EXECUTING"; "WAITING_EXTERNAL"; "SUCCEEDED"; "FAILED"; "BLOCKED"; "DENIED"].
Definition action_taxonomies : list string := ["READ"; "BOUNDED_WRITE"; "SENSITIVE"].
Definition ALL_AUDIT_EVENT_TYPES : list string := ["REQUESTED"; "AUTHORIZED"; "EXECUTED"; "RECONCILED"].
Definition ALL_FAILURE_CLASSES : list string :=
  ["AUTHORIZATION"; "POLICY_DENIED"; "RATE_LIMIT"; "PROVIDER_UNAVAILABLE"; "NETWORK";
   "PRECONDITION_FAILED"; "CONFLICT"; "CREDENTIAL"; "REMOTE_VALIDATION"; "LOCAL_CODE_ERROR"; "UNKNOWN"].
Definition requests_ok (t : JT) : bool :=
  uniq rq_request_id (jt_requests t) && uniq rq_idempotency_key (jt_requests t)
  && forallb (fun r => str_in (rq_policy_class r) action_taxonomies && str_in (rq_state r) request_states
                       && nonneg (rq_provenance_version r)
                       && Nat.eqb (String.length (rq_provenance_hash r)) 64
                       && nonneg (rq_revision r) && nonneg (rq_holder_lease_epoch r)
                       && nonneg (rq_attempt_count r)) (jt_requests t)
  && uniq xa_audit_id (jt_audit t)
  && forallb (fun a => str_in (xa_event_type a) ALL_AUDIT_EVENT_TYPES
                       && opt_in (xa_failure_class a) ALL_FAILURE_CLASSES) (jt_audit t).

Definition is_some {A} (o : option A) : bool := match o with Some _ => true | None => false end.
Definition notification_row_ok (n : Notification) : bool :=
  str_in (n_notification_type n) ["DONE"; "FAILED"; "BLOCKED"; "OWNER_APPROVAL_REQUIRED"]
  && (1 <=? n_event_version n)%Z && Nat.eqb (String.length (n_payload_hash n)) 64
  && str_in (n_status n) ["PENDING"; "SENDING"; "SENT"; "FAILED"; "DISCARDED"]
  && nonneg (n_attempt_count n)
  && (if String.eqb (n_status n) "SENDING" then is_some (n_claim_token n) && is_some (n_claimed_at n)
      else negb (is_some (n_claim_token n)))
  && (negb (String.eqb (n_status n) "SENT") || is_some (n_sent_at n)).
Definition outbox_ok (db : DB) (t : JT) : bool :=
  let l := jt_outbox t in
  uniq n_id l && uniq n_dedup_key l && forallb notification_row_ok l
  && fk n_supervisor_job_id l j_id (jt_jobs t) && fk n_task_id l t_id (db_tasks db)
  && fk_opt n_dispatch_id l d_id (db_dispatches db) && fk_opt n_gate_id l ap_id (db_approvals db).

(** The status of a challenge and its timestamps agree, as the table's CHECK says. *)
Definition challenge_row_ok (c : Challenge) : bool :=
  let consumed := is_some (ch_consumed_at c) in
  let update := is_some (ch_consumed_update_id c) in
  let invalidated := is_some (ch_invalidated_at c) in
  Nat.eqb (String.length (ch_binding_hash c)) 64 && Nat.eqb (String.length (ch_token_hash c)) 64
  && Timestamps.str_ltb (ch_created_at c) (ch_expires_at c)
  && ((String.eqb (ch_status c) "ISSUED" && negb consumed && negb update && negb invalidated)
      || (str_in (ch_status c) ["CONSUMED_APPROVED"; "CONSUMED_REJECTED"]
          && consumed && update && negb invalidated)
      || (str_in (ch_status c) ["EXPIRED"; "INVALIDATED"]
          && negb consumed && negb update && invalidated)).
Definition issued (c : Challenge) : bool := String.eqb (ch_status c) "ISSUED".
Definition outcomes : list string :=
  ["PROCESSING"; "APPROVED"; "REJECTED"; "WRONG_CHAT"; "SPOOFED_SENDER"; "MALFORMED"; "UNKNOWN_TOKEN";
   "USED_TOKEN"; "EXPIRED_TOKEN"; "EXPIRED_APPROVAL"; "APPROVAL_NOT_PENDING"; "STALE_MESSAGE";
   "STALE_UPDATE"; "BINDING_MISMATCH"].
Definition challenges_ok (db : DB) (t : JT) : bool :=
  let l := jt_challenges t in
  uniq ch_id l && uniq ch_token_hash l && uniq_where issued ch_approval_id l
  && uniq_opt ch_notification_outbox_id l && uniq_opt ch_consumed_update_id l
  && forallb challenge_row_ok l
  && fk ch_approval_id l ap_id (db_approvals db) && fk ch_task_id l t_id (db_tasks db)
  && fk ch_supervisor_job_id l j_id (jt_jobs t)
  && fk_opt ch_notification_outbox_id l n_id (jt_outbox t).
Definition inbound_ok (db : DB) (t : JT) : bool :=
  let l := jt_update_log t in
  uniq ul_update_id l
  && forallb (fun u => nonneg (ul_update_id u) && flag (ul_chat_authorized u)
                       && flag (ul_sender_authorized u) && opt_in (ul_decision u) ["APPROVE"; "REJECT"]
                       && str_in (ul_outcome u) outcomes) l
  && fk_opt ul_challenge_id l ch_id (jt_challenges t) && fk_opt ul_approval_id l ap_id (db_approvals db)
  && nonneg (ib_next_update_id (jt_inbound t)).

Definition jt_ok (db : DB) (t : JT) : bool :=
  jobs_ok db (jt_jobs t) && actions_ok db t && locks_ok t && candidates_ok t
  && instance_ok (jt_instance t) && waits_ok t && processes_ok db t && requests_ok t
  && outbox_ok db t && challenges_ok db t && inbound_ok db t.

(** ** State and statements *)
Record Fence : Type := mkFence {
  fe_job_id : string;
  fe_owner_instance_id : option string;
  fe_lease_epoch : option Z;
  fe_expected_facts_version : Z
}.
Record JSt : Type := mkJSt {
  js_core : St;
  js_t : JT;
  js_fence : option Fence
}.
#[export] Instance JSt_eta : EtaExpand JSt := fun x => mkJSt (js_core x) (js_t x) (js_fence x).
Notation jcmd := (M JSt exc).

(** A command of the core on its own part of the database. *)
Definition on_core {A} (m : cmd A) : jcmd A := fun s =>
  let (r, c) := m (js_core s) in (r, s <| js_core := c |>).

Definition jquery {A} (f : JT -> A) : jcmd A := gets (fun s => f (js_t s)).
Definition jwrite (f : JT -> JT) : jcmd unit := fun s =>
  let t := f (js_t s) in
  if jt_ok (st_db (js_core s)) t then (Ok tt, s <| js_t := t |>) else (Err IntegrityError, s).
Definition jupdate {A} (tbl : JT -> list A) `{Setter JT (list A) tbl} (p : A -> bool) (f : A -> A)
  : jcmd nat :=
  n ← jquery (fun t => count_where p (tbl t));
  _ ← jwrite (set tbl (update_where p f));
  mret n.
Definition jinsert {A} (tbl : JT -> list A) `{Setter JT (list A) tbl} (x : A) : jcmd unit :=
  jwrite (set tbl (fun l => (l ++ [x])%list)).

(** A transaction without its fence: an exception rolls every table back. *)
Definition rollback {A} (m : jcmd A) : jcmd A := fun s =>
  match m s with
  | (Ok a, s') => (Ok a, s')
  | (Err e, s') =>
      (Err e, s' <| js_core ::= set st_db (fun _ => st_db (js_core s)) |> <| js_t := js_t s |>)
  end.
