(* ===== verification/Worktree.v ===== *)
(** * Worktree: identities, recovery evidence and the writer guard
    (src/argent_core/worktree.py).

    [realpath] is the file system's view of a path, an argument of the guard.
    Reading git and canonicalising a worktree path are I/O and not modelled. *)
From S2P Require Import Prelude PyVal Models Timestamps Concurrency JobRows.
#[local] Open Scope string_scope.

Definition V_KEEP_DIRTY : string := "KEEP_DIRTY".
Definition V_CLEANUP_PENDING : string := "CLEANUP_PENDING".
Definition V_BLOCKED_DIVERGED : string := "BLOCKED_DIVERGED".
Definition V_LOST : string := "LOST".
Definition V_AMBIGUOUS_WRITER : string := "AMBIGUOUS_WRITER".
Definition MAX_REPO_IDENTITY_LEN : nat := 256.
Definition MAX_BRANCH_LEN : nat := 256.
Definition MAX_COMMIT_LEN : nat := 64.
Definition WRITER_BINDING_BOUND : string := "BOUND".

Definition code (c : ascii) : N := N_of_ascii c.
Definition is_hex_sha (c : ascii) : bool :=
  let n := code c in
  ((48 <=? n)%N && (n <=? 57)%N) || ((97 <=? n)%N && (n <=? 102)%N) || ((65 <=? n)%N && (n <=? 70)%N).
Definition is_sha_like (v : string) : bool :=
  Nat.leb 7 (String.length v) && Nat.leb (String.length v) MAX_COMMIT_LEN
  && forallb is_hex_sha (list_ascii_of_string v).

Definition ends_with (suffix s : string) : bool := String.prefix (string_rev suffix) (string_rev s).
Definition any_char (p : ascii -> bool) (s : string) : bool := existsb p (list_ascii_of_string s).
Definition char_in (s : string) (c : ascii) : bool :=
  existsb (Ascii.eqb c) (list_ascii_of_string s).

Definition validate_repo_identity (repo : option string) : res exc (option string) :=
  match repo with
  | None => Ok None
  | Some r =>
      _ ← res_when (blank r) ValueError;
      _ ← res_when (Nat.ltb MAX_REPO_IDENTITY_LEN (String.length r)) ValueError;
      Ok (Some r)
  end.
Definition validate_branch_identity (branch : option string) : res exc (option string) :=
  match branch with
  | None => Ok None
  | Some b =>
      _ ← res_when (blank b) ValueError;
      _ ← res_when (Nat.ltb MAX_BRANCH_LEN (String.length b)) ValueError;
      _ ← res_when (any_char (fun c => in_list (code c) [10; 13; 32; 9]%N) b) ValueError;
      _ ← res_when (any_char (fun c => (code c <? 32)%N || (code c =? 127)%N) b) ValueError;
      _ ← res_when (String.prefix "-" b) ValueError;
      _ ← res_when (String.prefix "/" b || ends_with "/" b) ValueError;
      _ ← res_when (ends_with "." b || ends_with ".lock" b) ValueError;
      _ ← res_when (contains ".." b || contains "~" b || contains "^" b || contains ":" b) ValueError;
      _ ← res_when (contains "@{" b || contains "//" b || contains " " b) ValueError;
      _ ← res_when (any_char (char_in "?*[\") b) ValueError;
      Ok (Some b)
  end.

(** ** Recovery evidence *)
Record WorktreeBinding : Type := mkWorktreeBinding {
  wb_job_id : string;
  wb_canonical_worktree_path : string;
  wb_repo_identity : option string;
  wb_base_commit : option string;
  wb_branch_identity : option string;
  wb_writer_dispatch_id : option string;
  wb_writer_owner_instance_id : option string;
  wb_writer_lease_epoch : Z;
  wb_expected_head : option string;
  wb_current_head : option string
}.
Record WorktreeEvidence : Type := mkWorktreeEvidence {
  we_repo_identity : option string;
  we_head : option string;
  we_dirty : bool
}.

Definition classify_worktree_recovery (binding : WorktreeBinding) (evidence : WorktreeEvidence)
    (writer_terminal : option bool) : string * string :=
  match wb_repo_identity binding, we_repo_identity evidence with
  | Some r, Some r' =>
      if negb (String.eqb r' r) then (V_LOST, "foreign_repo")
      else
        let owned := is_some (wb_writer_dispatch_id binding)
                     && is_some (wb_writer_owner_instance_id binding)
                     && (1 <=? wb_writer_lease_epoch binding)%Z in
        if we_dirty evidence then
          if negb owned then (V_AMBIGUOUS_WRITER, "dirty_unowned")
          else (V_KEEP_DIRTY, "dirty_job_owned")
        else match wb_expected_head binding with
             | None => (V_AMBIGUOUS_WRITER, "missing_expected_head")
             | Some expected =>
                 match we_head evidence with
                 | None => (V_AMBIGUOUS_WRITER, "missing_head")
                 | Some head =>
                     if negb (String.eqb head expected) then (V_BLOCKED_DIVERGED, "head_diverged")
                     else if negb (is_some (wb_base_commit binding)) then
                       (V_AMBIGUOUS_WRITER, "missing_base_commit")
                     else match writer_terminal with
                          | Some true => (V_CLEANUP_PENDING, "clean_terminal")
                          | _ => (V_AMBIGUOUS_WRITER, "writer_terminality_unknown")
                          end
                 end
             end
  | _, _ => (V_LOST, "missing_repo_identity")
  end.

(** ** The writer guard: the token captured when the guard is installed *)
Record WriterToken : Type := mkWriterToken {
  wt_job_id : option string;
  wt_dispatch_id : option string;
  wt_owner_instance_id : option string;
  wt_lease_epoch : option Z;
  wt_facts_version : option Z
}.
Definition deny (b : bool) : res exc unit := res_when b PermissionDenied.
(** [tok is not None and v != tok]. *)
Definition differs (tok : option string) (v : option string) : bool :=
  is_some tok && negb (ostr_eqb v tok).
Definition zdiffers (tok : option Z) (v : Z) : bool :=
  match tok with Some z => negb (v =? z)%Z | None => false end.
Definition oz_eqb (v : Z) (tok : option Z) : bool :=
  match tok with Some z => (v =? z)%Z | None => false end.

(** [guard(scope_root, role, source)] on a fresh read of the job. *)
Definition writer_guard (realpath : string -> string) (token : WriterToken) (now_iso : string)
    (job : option Job) (scope_root : string) : res exc unit :=
  match job with
  | None => Err PermissionDenied
  | Some j =>
      let w := j_writer j in
      let bound := ostr_eqb (w_writer_binding_mode w) (Some WRITER_BINDING_BOUND) in
      if negb bound && negb (is_some (w_canonical_worktree_path w))
         && negb (is_some (w_writer_dispatch_id w)) then Ok tt
      else
        _ ← (if bound then
               _ ← deny (negb (String.eqb (j_primary_state j) "RUNNING")
                         || negb (String.eqb (j_status j) "ACTIVE"));
               deny (negb (is_some (w_canonical_worktree_path w))
                     || negb (is_some (w_writer_dispatch_id w))
                     || negb (is_some (w_writer_owner_instance_id w)))
             else Ok tt);
        _ ← deny (differs (wt_job_id token) (Some (j_id j)));
        _ ← deny (differs (wt_owner_instance_id token) (j_owner_instance_id j));
        _ ← deny (zdiffers (wt_lease_epoch token) (j_lease_epoch j));
        _ ← deny (zdiffers (wt_facts_version token) (j_facts_version j));
        _ ← (if bound then
               _ ← deny (match j_lease_expires_at j with
                         | None => true
                         | Some e => negb (str_ltb now_iso e)
                         end);
               _ ← deny (negb (ostr_eqb (w_writer_owner_instance_id w) (wt_owner_instance_id token)));
               deny (negb (oz_eqb (w_writer_lease_epoch w) (wt_lease_epoch token)))
             else Ok tt);
        _ ← deny (negb (is_some (wt_dispatch_id token))
                  || negb (ostr_eqb (w_writer_dispatch_id w) (wt_dispatch_id token)));
        deny (match w_canonical_worktree_path w with
              | None => true
              | Some p => negb (String.eqb (realpath p) (realpath scope_root))
              end)
  end.

(** ** Properties *)
(** A worktree is only released for clean-up on complete evidence: the bound
    repository, the expected head and a recorded base, nothing uncommitted, and a
    writer known to have terminated.  A foreign or unknown repository is always
    left alone, and a diverged head always blocks. *)
Theorem cleanup_needs_evidence b e t :
  (fst (classify_worktree_recovery b e t) = V_CLEANUP_PENDING <->
   (exists r, wb_repo_identity b = Some r /\ we_repo_identity e = Some r) /\
   we_dirty e = false /\
   (exists h, wb_expected_head b = Some h /\ we_head e = Some h) /\
   wb_base_commit b <> None /\ t = Some true) /\
  (fst (classify_worktree_recovery b e t) = V_LOST <->
   wb_repo_identity b = None \/ we_repo_identity e = None \/
   wb_repo_identity b <> we_repo_identity e).
Proof.
  unfold classify_worktree_recovery.
  destruct (wb_repo_identity b) as [r|], (we_repo_identity e) as [r'|]; cbn;
    try (split; [split; [done | intros ((? & ? & ?) & _); done] | split; tauto]).
  destruct (String.eqb_spec r' r) as [->|N]; cbn.
  2: { split; [split; [done | intros ((? & [= ->] & [= ->]) & _); done] |].
       split; [intros _; right; right; congruence | done]. }
  assert (L : forall v : string, v <> V_LOST ->
      (v = V_LOST <-> Some r = None \/ Some r = None \/ Some r <> Some r)).
  { intros v V. split; [done | intros [?|[?|?]]; done]. }
  destruct (we_dirty e); cbn.
  { destruct (_ && _); cbn; (split; [split; [done | intros (_ & ? & _); done] | by apply L]). }
  destruct (wb_expected_head b) as [h|]; cbn.
  2: { split; [split; [done | intros (_ & _ & (? & ? & _) & _); done] | by apply L]. }
  destruct (we_head e) as [h'|]; cbn.
  2: { split; [split; [done | intros (_ & _ & (? & _ & ?) & _); done] | by apply L]. }
  destruct (String.eqb_spec h' h) as [->|N]; cbn.
  2: { split; [split; [done | intros (_ & _ & (? & [= ->] & [= ->]) & _); done] | by apply L]. }
  destruct (wb_base_commit b); cbn.
  2: { split; [split; [done | tauto] | by apply L]. }
  destruct t as [[]|]; cbn.
  - split; [split; [intros _; repeat split; eauto | done] | by apply L].
  - split; [split; [done | intros (_ & _ & _ & _ & ?); done] | by apply L].
  - split; [split; [done | intros (_ & _ & _ & _ & ?); done] | by apply L].
Qed.

Lemma deny_ok b u : deny b = Ok u <-> b = false.
Proof. unfold deny. apply res_when_ok. Qed.
