(* ===== verification/Leases.v ===== *)
(** * Leases: the durable queue and lease operations of the supervised jobs
    (src/argent_core/store.py, from [_update_supervisor_job] to
    [set_job_metadata] and [enqueue_job] to [commit_recovery_decision]).

    Every operation runs in one transaction of the connection; an armed action
    fence is asserted first.  [lease_epoch] is the fencing token and
    [lease_expires_at], compared as text, the only authority for expiry. *)
From S2P Require Import Prelude PyVal Models Timestamps JobState Concurrency Recovery CoreStore JobRows Worktree.
#[local] Open Scope string_scope.

Definition MAX_LEASE_TTL_SECONDS : Z := 86400.
Definition MAX_POLICY_REF_LEN : nat := 256.

(** [now + timedelta(seconds=n)], then [_format_dt]. *)
Definition format_after (now : datetime) (seconds : Z) : res exc string :=
  let w := (dt_wall now + seconds * US_PER_SECOND)%Z in
  _ ← res_unless (in_range w) OverflowError;
  format_in_range (mkDatetime w (dt_offset now)).

Definition enum_values (A : Type) `{PyEnum A} : list string := map value (members (A := A)).
Definition _validate_enum_field (a : assign) : res exc unit :=
  match a with
  | A_queue_reason v => res_unless (str_in v (enum_values QueueReason)) ValueError
  | A_wait_kind v => res_unless (str_in v (enum_values WaitKind)) ValueError
  | A_error_class v => res_unless (str_in v (enum_values ErrorClass)) ValueError
  | A_resource_class v => res_unless (str_in v (enum_values ResourceClass)) ValueError
  | _ => Ok tt
  end.
Definition _validate_enum_fields (fields : list assign) : res exc unit :=
  res_for _validate_enum_field fields.
Definition apply_all (fields : list assign) (j : Job) : Job :=
  fold_left (fun j a => apply_assign a j) fields j.

(** [fields.get(column)] for the columns an update looks at; a column assigned twice
    would keep its last value. *)
Fixpoint lookup_field {A} (f : assign -> option A) (fields : list assign) : option A :=
  match fields with
  | [] => None
  | a :: l => match lookup_field f l with Some v => Some v | None => f a end
  end.
Definition f_status (a : assign) := match a with A_status v => Some v | _ => None end.
Definition f_terminal (a : assign) := match a with A_terminal v => Some v | _ => None end.
Definition f_recovery_state (a : assign) := match a with A_recovery_state v => Some v | _ => None end.
Definition f_wait_kind (a : assign) := match a with A_wait_kind v => Some v | _ => None end.
Definition f_queue_reason (a : assign) := match a with A_queue_reason v => Some v | _ => None end.
Definition f_primary_state (a : assign) := match a with A_primary_state v => Some v | _ => None end.

Definition _derive_primary_state_for_update (cur : option Job) (fields : list assign) : option string :=
  if is_some (lookup_field f_status fields) || is_some (lookup_field f_terminal fields)
     || is_some (lookup_field f_recovery_state fields) || is_some (lookup_field f_wait_kind fields)
     || is_some (lookup_field f_queue_reason fields)
  then j ← cur;
       Some (value (derive_primary_state
              (default (j_status j) (lookup_field f_status fields))
              (default (j_terminal j) (lookup_field f_terminal fields))
              (Some (default (j_recovery_state j) (lookup_field f_recovery_state fields)))
              (Some (default (j_wait_kind j) (lookup_field f_wait_kind fields)))
              (Some (default (j_queue_reason j) (lookup_field f_queue_reason fields)))))
  else None.

(** The guards of a generic update on a terminal row. *)
Definition check_terminal_update (j : Job) (fields : list assign) : res exc unit :=
  match j_terminal j with
  | None => Ok tt
  | Some cur_terminal =>
      let new_terminal := default (Some cur_terminal) (lookup_field f_terminal fields) in
      let new_ps := default (j_primary_state j) (lookup_field f_primary_state fields) in
      if str_in cur_terminal ["DONE"; "FAILED"] then
        _ ← res_unless (ostr_eqb new_terminal (Some cur_terminal)) LeaseError;
        res_unless (String.eqb new_ps cur_terminal) LeaseError
      else if String.eqb cur_terminal "BLOCKED" then
        _ ← res_when (ostr_in new_terminal ["DONE"; "FAILED"]) LeaseError;
        _ ← res_unless (is_some new_terminal) LeaseError;
        res_unless (String.eqb new_ps "BLOCKED") LeaseError
      else Ok tt
  end.

(** The lease predicates, on a row and the clock's text. *)
Definition lease_open (j : Job) (now_iso : string) : bool :=
  match j_lease_expires_at j with Some e => str_ltb now_iso e | None => false end.
Definition held_by (j : Job) (owner : string) (epoch : Z) : bool :=
  ostr_eqb (j_owner_instance_id j) (Some owner) && (j_lease_epoch j =? epoch)%Z.

Definition _PRIMARY_STATE_STATUSES (ps : string) : option (list string) :=
  if String.eqb ps "QUEUED" then Some ["WAITING_RUN"; "BACKOFF"]
  else if String.eqb ps "RUNNING" then Some ["ACTIVE"]
  else if String.eqb ps "WAITING_EXTERNAL" then Some ["WAITING_RUN"]
  else if String.eqb ps "OWNER_GATE" then Some ["WAITING_GATE"]
  else if String.eqb ps "LOST" then Some ["RECOVERING"]
  else if String.eqb ps "BLOCKED" then Some ["TERMINAL"]
  else if String.eqb ps "FAILED" then Some ["TERMINAL"]
  else if String.eqb ps "DONE" then Some ["TERMINAL"]
  else None.

Record Cas : Type := mkCas {
  cas_primary_state : option string;
  cas_owner_instance_id : option string;
  cas_lease_epoch : option Z;
  cas_lease_unexpired : bool
}.
Definition check_cas (cas : Cas) (j : Job) (now_iso : string) : res exc unit :=
  _ ← res_when (differs (cas_primary_state cas) (Some (j_primary_state j))) LeaseError;
  _ ← res_when (differs (cas_owner_instance_id cas) (j_owner_instance_id j)) LeaseError;
  _ ← res_when (zdiffers (cas_lease_epoch cas) (j_lease_epoch j)) LeaseError;
  res_when (cas_lease_unexpired cas && negb (lease_open j now_iso)) LeaseError.
Definition check_sticky (owner_authorized : bool) (j : Job) : res exc unit :=
  _ ← res_when (ostr_in (j_terminal j) ["DONE"; "FAILED"]) LeaseError;
  if ostr_eqb (j_terminal j) (Some "BLOCKED") || String.eqb (j_primary_state j) "BLOCKED"
  then res_unless owner_authorized LeaseError else Ok tt.
Definition check_projection (to_primary_state to_status : string) : res exc unit :=
  match _PRIMARY_STATE_STATUSES to_primary_state with
  | None => Err ValueError
  | Some allowed => res_unless (str_in to_status allowed) ValueError
  end.
Definition transition_fields (j : Job) (to_primary_state to_status : string) (fields : list assign)
    (bump_facts_version : bool) (now_iso : string) : list assign :=
  (fields ++ [A_primary_state to_primary_state; A_status to_status]
   ++ (if bump_facts_version then [A_facts_version (j_facts_version j + 1)%Z] else [])
   ++ [A_updated_at now_iso])%list.

Definition _job_is_claimable (j : Job) (now_iso : string) : bool * option string :=
  let ps := j_primary_state j in
  if String.eqb ps "QUEUED" then
    if match j_next_eligible_at j with Some e => str_ltb now_iso e | None => false end
    then (false, Some "not_eligible_yet")
    else if is_some (j_owner_instance_id j) && lease_open j now_iso
    then (false, Some "foreign_lease")
    else (true, None)
  else if String.eqb ps "RUNNING" then (false, Some "running_not_claimable")
  else (false, Some ("not_claimable:" ++ ps)).

(** [ORDER BY priority DESC, rowid]. *)
Fixpoint insert_priority (x : Job) (l : list Job) : list Job :=
  match l with
  | [] => [x]
  | y :: l' => if (j_priority y <=? j_priority x)%Z then x :: l else y :: insert_priority x l'
  end.
Definition by_priority (l : list Job) : list Job := fold_right insert_priority [] l.

(** The fields of a stale-scan snapshot ([expected.get]). *)
Record Snapshot : Type := mkSnapshot {
  sn_primary_state : option string;
  sn_owner_instance_id : option string;
  sn_lease_epoch : option Z;
  sn_lease_expires_at : option string;
  sn_facts_version : option Z
}.
Definition snapshot_matches (j : Job) (sn : Snapshot) : bool :=
  ostr_eqb (Some (j_primary_state j)) (sn_primary_state sn)
  && ostr_eqb (j_owner_instance_id j) (sn_owner_instance_id sn)
  && oz_eqb (j_lease_epoch j) (sn_lease_epoch sn)
  && ostr_eqb (j_lease_expires_at j) (sn_lease_expires_at sn)
  && oz_eqb (j_facts_version j) (sn_facts_version sn).
Definition no_cas : Cas := mkCas None None None false.
Definition snapshot_cas (expected : option Snapshot) (unexpired : bool) : Cas :=
  match expected with
  | None => mkCas None None None unexpired
  | Some sn => mkCas (sn_primary_state sn) (sn_owner_instance_id sn) (sn_lease_epoch sn) unexpired
  end.

Definition lost_fields (error_code : string) : list assign :=
  [A_owner_instance_id None; A_lease_expires_at None; A_error_class (value EC_OWNER_REQUIRED);
   A_last_error_code (Some error_code); A_next_action "NONE"; A_next_wake_at None].
Definition blocked_fields (error_class error_code : string) : list assign :=
  [A_terminal (Some "BLOCKED"); A_owner_instance_id None; A_lease_expires_at None;
   A_error_class error_class; A_last_error_code (Some error_code); A_next_action "NONE";
   A_next_wake_at None].
Definition claim_fields (owner : string) (epoch : Z) (expires : string) : list assign :=
  [A_owner_instance_id (Some owner); A_lease_epoch epoch; A_lease_expires_at (Some expires)].

Record Metadata : Type := mkMetadata {
  md_mutation_path_roots : option (list string);
  md_mutation_modules : option (list string);
  md_external_action_class : option string;
  md_integration_target : option string;
  md_action_scope : option string;
  md_depends_on : option string;
  md_repo_identity : option string;
  md_canonical_worktree_path : option string;
  md_branch_identity : option string
}.
(** [if x is not None: fields[...] = ...] *)
Definition opt_field {A} (x : option A) (f : A -> res exc assign) : res exc (list assign) :=
  match x with None => Ok [] | Some v => a ← f v; Ok [a] end.
Definition stripped (f : option string -> assign) (v : string) : res exc assign :=
  _ ← res_when (blank v) ValueError; Ok (f (Some (strip v))).
Definition metadata_fields (m : Metadata) : res exc (list assign) :=
  a ← opt_field (md_mutation_path_roots m)
        (fun l => s ← serialize_footprint_paths l; Ok (A_mutation_path_roots (Some s)));
  b ← opt_field (md_mutation_modules m)
        (fun l => s ← serialize_footprint_modules l; Ok (A_mutation_modules (Some s)));
  c ← opt_field (md_external_action_class m) (stripped A_external_action_class);
  d ← opt_field (md_integration_target m) (stripped A_integration_target);
  e ← opt_field (md_action_scope m) (fun v =>
        _ ← res_unless (str_in v [ACTION_GLOBAL; ACTION_REPO_GLOBAL]) ValueError;
        Ok (A_action_scope (Some v)));
  f ← opt_field (md_depends_on m) (stripped A_depends_on);
  g ← opt_field (md_repo_identity m)
        (fun v => r ← validate_repo_identity (Some v); Ok (A_repo_identity r));
  h ← opt_field (md_canonical_worktree_path m) (stripped A_canonical_worktree_path);
  i ← opt_field (md_branch_identity m)
        (fun v => r ← validate_branch_identity (Some v); Ok (A_branch_identity r));
  Ok (a ++ b ++ c ++ d ++ e ++ f ++ g ++ h ++ i)%list.

Record Enqueue : Type := mkEnqueue {
  en_queue_reason : string;
  en_priority : Z;
  en_next_eligible_at : option string;
  en_wait_kind : string;
  en_error_class : string;
  en_error_code : option string;
  en_bump_attempt : bool;
  en_owner_instance_id : option string;
  en_lease_epoch : option Z;
  en_owner_authorized : bool;
  en_policy_ref : option string;
  en_resource_class : option string;
  en_last_resource_decision : option string;
  en_last_resource_reason_code : option string;
  en_last_resource_snapshot_hash : option string;
  en_last_resource_at : option string;
  en_last_concurrency_reason_code : option string;
  en_last_concurrency_at : option string
}.
Definition default_enqueue : Enqueue :=
  mkEnqueue "NEW" 0 None "NONE" "NONE" None false None None false None None None None None None None None.
Definition audit_field (f : option string -> assign) (v : option string) : list assign :=
  match v with None => [] | Some _ => [f v] end.
Definition enqueue_fields (e : Enqueue) (j : Job) : list assign :=
  ([A_queue_reason (en_queue_reason e); A_priority (en_priority e);
    A_next_eligible_at (en_next_eligible_at e); A_wait_kind (en_wait_kind e);
    A_error_class (en_error_class e); A_last_error_code (en_error_code e);
    A_attempt_no (if en_bump_attempt e then j_attempt_no j + 1 else j_attempt_no j)%Z;
    A_owner_instance_id None; A_lease_expires_at None]
   ++ (match en_resource_class e with None => [] | Some rc => [A_resource_class rc] end)
   ++ audit_field A_last_resource_decision (en_last_resource_decision e)
   ++ audit_field A_last_resource_reason_code (en_last_resource_reason_code e)
   ++ audit_field A_last_resource_snapshot_hash (en_last_resource_snapshot_hash e)
   ++ audit_field A_last_resource_at (en_last_resource_at e)
   ++ audit_field A_last_concurrency_reason_code (en_last_concurrency_reason_code e)
   ++ audit_field A_last_concurrency_at (en_last_concurrency_at e))%list.

Section Store.
Context {env : Env}.

Definition jnow : jcmd datetime := on_core now.
Definition jnow_iso : jcmd string := on_core now_iso.

(** *** Rows and the action fence *)
Definition job_of (job_id : string) (t : JT) : option Job := by_id j_id job_id (jt_jobs t).
Definition get_supervisor_job (job_id : string) : jcmd (option Job) := jquery (job_of job_id).
Definition need_job (job_id : string) : jcmd Job :=
  j ← get_supervisor_job job_id; some_or j NotFound.
Definition is_job (job_id : string) (j : Job) : bool := String.eqb (j_id j) job_id.
Definition get_supervisor_job_for_task (task_id : string) : jcmd (option Job) :=
  jquery (fun t => last (List.filter (fun j => String.eqb (j_task_id j) task_id && nonterminal j)
                                     (jt_jobs t))).
Definition list_supervisor_jobs (nonterminal_only : bool) : jcmd (list Job) :=
  jquery (fun t => List.filter (fun j => negb nonterminal_only || nonterminal j) (jt_jobs t)).
Definition list_supervisor_actions (job_id : string) : jcmd (list SupervisorAction) :=
  jquery (fun t => List.filter (fun a => String.eqb (a_supervisor_job_id a) job_id) (jt_actions t)).
Definition _insert_supervisor_job (row : Job) : jcmd unit := jinsert jt_jobs row.

(** The clock is only read when the lease has an expiry. *)
Definition expired_now (j : Job) : jcmd bool :=
  match j_lease_expires_at j with
  | None => mret true
  | Some e => now ← jnow_iso; mret (negb (str_ltb now e))
  end.
Definition _fence_action (job_id : string) (owner : option string) (epoch : option Z)
    (expected_facts_version : Z) : jcmd unit :=
  match owner with
  | None => mret tt
  | Some o =>
      j ← get_supervisor_job job_id;
      j ← some_or j LeaseFencedError;
      _ ← raise_unless (ostr_eqb (j_owner_instance_id j) (Some o)) LeaseFencedError;
      _ ← raise_unless (oz_eqb (j_lease_epoch j) epoch) LeaseFencedError;
      expired ← expired_now j;
      _ ← raise_when expired LeaseFencedError;
      raise_unless (j_facts_version j =? expected_facts_version)%Z LeaseFencedError
  end.
Definition _set_action_fence (job_id : string) (owner : option string) (epoch : option Z)
    (expected_facts_version : Z) : jcmd unit :=
  modify (fun s => s <| js_fence := Some (mkFence job_id owner epoch expected_facts_version) |>).
Definition _clear_action_fence : jcmd unit := modify (fun s => s <| js_fence := None |>).
Definition _check_action_fence : jcmd unit :=
  fence ← gets js_fence;
  match fence with
  | None => mret tt
  | Some f => _fence_action (fe_job_id f) (fe_owner_instance_id f) (fe_lease_epoch f)
                (fe_expected_facts_version f)
  end.
Definition jtransaction {A} (m : jcmd A) : jcmd A := rollback (_ ← _check_action_fence; m).

Definition _validate_lease_owner (owner : option string) : jcmd unit :=
  raise_when (match owner with None => true | Some o => blank o end) ValueError.
Definition _validate_ttl (ttl_seconds : Z) : jcmd unit :=
  _ ← raise_when (ttl_seconds <=? 0)%Z ValueError;
  raise_when (MAX_LEASE_TTL_SECONDS <? ttl_seconds)%Z ValueError.
Definition _validate_epoch (lease_epoch : Z) : jcmd unit := raise_when (lease_epoch <? 1)%Z ValueError.

(** *** Updates *)
Definition _update_supervisor_job (job_id : string) (fields : list assign) : jcmd nat :=
  match fields with
  | [] => mret 0
  | _ =>
      _ ← lift (_validate_enum_fields fields);
      cur ← get_supervisor_job job_id;
      let fields :=
        match lookup_field f_primary_state fields with
        | Some _ => fields
        | None => match _derive_primary_state_for_update cur fields with
                  | Some ps => (fields ++ [A_primary_state ps])%list
                  | None => fields
                  end
        end in
      _ ← lift (match cur with Some j => check_terminal_update j fields | None => Ok tt end);
      jupdate jt_jobs (is_job job_id) (apply_all fields)
  end.

Definition _transition_job (job_id to_primary_state to_status : string) (fields : list assign)
    (owner_authorized bump_facts_version : bool) (cas : Cas) (now_iso : string) : jcmd Job :=
  _ ← lift (_validate_enum_fields fields);
  j ← need_job job_id;
  _ ← lift (check_sticky owner_authorized j);
  _ ← lift (check_cas cas j now_iso);
  _ ← lift (check_projection to_primary_state to_status);
  n ← jupdate jt_jobs (is_job job_id)
        (apply_all (transition_fields j to_primary_state to_status fields bump_facts_version now_iso));
  _ ← raise_unless (Nat.eqb n 1) LeaseError;
  updated ← get_supervisor_job job_id;
  some_or updated TypeError.

(** *** Claims *)
Definition _do_claim_locked (job_id : string) (owner : string) (ttl_seconds : Z) (now : datetime)
  : jcmd Job :=
  now_iso ← lift (format_in_range now);
  _ ← _validate_lease_owner (Some owner);
  _ ← _validate_ttl ttl_seconds;
  j ← need_job job_id;
  _ ← raise_unless (fst (_job_is_claimable j now_iso)) LeaseError;
  new_expires ← lift (format_after now ttl_seconds);
  _transition_job job_id (value PS_RUNNING) "ACTIVE"
    (claim_fields owner (j_lease_epoch j + 1)%Z new_expires) false true
    (mkCas (Some (j_primary_state j)) None (Some (j_lease_epoch j)) false) now_iso.
Definition claim_job (job_id owner : string) (ttl_seconds : Z) : jcmd Job :=
  now ← jnow;
  jtransaction (_do_claim_locked job_id owner ttl_seconds now).

Definition _block_missing_dependency (j : Job) (now_iso : string) : jcmd unit :=
  if is_some (j_terminal j) then mret tt
  else
    _ ← _transition_job (j_id j) (value PS_BLOCKED) "TERMINAL"
          (blocked_fields (value EC_OWNER_REQUIRED) "DEPENDENCY_UNKNOWN") false true
          (mkCas (Some (j_primary_state j)) None None false) now_iso;
    mret tt.
Fixpoint claim_loop (owner : string) (ttl_seconds : Z) (now : datetime) (now_iso : string)
    (rows : list Job) : jcmd (option Job) :=
  match rows with
  | [] => mret None
  | j :: rest =>
      let claim := r ← _do_claim_locked (j_id j) owner ttl_seconds now; mret (Some r) in
      let continue := claim_loop owner ttl_seconds now now_iso rest in
      if negb (fst (_job_is_claimable j now_iso)) then continue
      else match j_depends_on j with
           | Some dep =>
               if truthy dep then
                 dep_row ← get_supervisor_job dep;
                 match dep_row with
                 | None => _ ← _block_missing_dependency j now_iso; continue
                 | Some d => if negb (ostr_eqb (j_terminal d) (Some "DONE")) then continue else claim
                 end
               else claim
           | None => claim
           end
  end.
Definition claim_next_job (owner : string) (ttl_seconds : Z) : jcmd (option Job) :=
  now ← jnow;
  now_iso ← lift (format_in_range now);
  jtransaction (
    rows ← jquery (fun t => by_priority (jt_jobs t));
    claim_loop owner ttl_seconds now now_iso rows).

(** *** Holding and giving back a lease *)
Definition own_row (job_id owner : string) (epoch : Z) (now_iso : string) (j : Job) : bool :=
  is_job job_id j && held_by j owner epoch && lease_open j now_iso.
Definition check_holder (e : exc) (j : Job) (owner : string) (epoch : Z) (now_iso : string) : jcmd unit :=
  _ ← raise_unless (ostr_eqb (j_owner_instance_id j) (Some owner)) e;
  _ ← raise_unless (j_lease_epoch j =? epoch)%Z e;
  raise_unless (lease_open j now_iso) e.
Definition renew_lease (job_id owner : string) (lease_epoch ttl_seconds : Z) : jcmd Job :=
  now ← jnow;
  now_iso ← lift (format_in_range now);
  _ ← _validate_lease_owner (Some owner);
  _ ← _validate_ttl ttl_seconds;
  new_expires ← lift (format_after now ttl_seconds);
  jtransaction (
    j ← need_job job_id;
    _ ← check_holder LeaseError j owner lease_epoch now_iso;
    n ← jupdate jt_jobs (own_row job_id owner lease_epoch now_iso)
          (apply_all [A_lease_expires_at (Some new_expires); A_updated_at now_iso]);
    _ ← raise_unless (Nat.eqb n 1) LeaseError;
    updated ← get_supervisor_job job_id;
    some_or updated TypeError).
Definition release_lease (job_id owner : string) (lease_epoch : Z) : jcmd Job :=
  now ← jnow;
  now_iso ← lift (format_in_range now);
  _ ← _validate_lease_owner (Some owner);
  jtransaction (
    _transition_job job_id (value PS_QUEUED) "WAITING_RUN"
      [A_owner_instance_id None; A_lease_expires_at None] false true
      (mkCas None (Some owner) (Some lease_epoch) true) now_iso).
Definition clear_lease (job_id owner : string) (lease_epoch : Z) : jcmd Job :=
  now ← jnow;
  now_iso ← lift (format_in_range now);
  _ ← _validate_lease_owner (Some owner);
  jtransaction (
    j ← need_job job_id;
    _ ← check_holder LeaseError j owner lease_epoch now_iso;
    n ← jupdate jt_jobs (own_row job_id owner lease_epoch now_iso)
          (fun j => apply_all [A_owner_instance_id None; A_lease_expires_at None; A_updated_at now_iso;
                               A_facts_version (j_facts_version j + 1)%Z] j);
    _ ← raise_unless (Nat.eqb n 1) LeaseError;
    updated ← get_supervisor_job job_id;
    some_or updated TypeError).

(** *** Quarantine and takeover *)
Definition quarantine (job_id to_primary_state to_status : string) (fields : list assign)
    (expected : option Snapshot) (now_iso : string) : jcmd (option Job) :=
  j ← need_job job_id;
  if match expected with Some sn => negb (snapshot_matches j sn) | None => false end then mret None
  else
    r ← _transition_job job_id to_primary_state to_status fields false true
          (snapshot_cas expected false) now_iso;
    mret (Some r).
Definition quarantine_lost (job_id error_code : string) (expected : option Snapshot)
  : jcmd (option Job) :=
  now ← jnow;
  now_iso ← lift (format_in_range now);
  jtransaction (quarantine job_id (value PS_LOST) "RECOVERING" (lost_fields error_code) expected now_iso).
Definition quarantine_blocked (job_id error_code error_class : string) (expected : option Snapshot)
  : jcmd (option Job) :=
  now ← jnow;
  now_iso ← lift (format_in_range now);
  jtransaction (quarantine job_id (value PS_BLOCKED) "TERMINAL" (blocked_fields error_class error_code)
                  expected now_iso).

Definition in_flight (a : SupervisorAction) : bool :=
  String.eqb (a_action_type a) "APPLY_PATCH_SET" && str_in (a_status a) ["RUNNING"; "UNCERTAIN"].
Definition recover_takeover_job (job_id : string) (expected : Snapshot) (owner : string)
    (ttl_seconds : Z) (process_alive : bool) (worktree_verdict : option string)
  : jcmd (option Job) :=
  _ ← _validate_lease_owner (Some owner);
  _ ← _validate_ttl ttl_seconds;
  now ← jnow;
  now_iso ← lift (format_in_range now);
  new_expires ← lift (format_after now ttl_seconds);
  jtransaction (
    j ← need_job job_id;
    _ ← raise_unless (snapshot_matches j expected) LeaseError;
    _ ← raise_unless (String.eqb (j_primary_state j) (value PS_RUNNING)) LeaseError;
    _ ← raise_when (is_some (j_terminal j)) LeaseError;
    _ ← raise_when (negb (is_some (j_lease_expires_at j)) || lease_open j now_iso) LeaseError;
    _ ← raise_when process_alive LeaseError;
    actions ← list_supervisor_actions job_id;
    _ ← raise_when (existsb in_flight actions) LeaseError;
    let cas := mkCas (Some (j_primary_state j)) None (Some (j_lease_epoch j)) false in
    if ostr_eqb worktree_verdict (Some V_BLOCKED_DIVERGED) then
      _ ← _transition_job job_id (value PS_BLOCKED) "TERMINAL"
            (blocked_fields (value EC_OWNER_REQUIRED) "WORKTREE_DIVERGED") false true cas now_iso;
      get_supervisor_job job_id
    else if negb (ostr_eqb worktree_verdict (Some V_CLEANUP_PENDING)) && is_some worktree_verdict then
      _ ← _transition_job job_id (value PS_LOST) "RECOVERING" (lost_fields "AMBIGUOUS_WRITER") false
            true cas now_iso;
      get_supervisor_job job_id
    else
      r ← _transition_job job_id (value PS_RUNNING) "ACTIVE"
            (claim_fields owner (j_lease_epoch j + 1)%Z new_expires) false true
            (mkCas (Some (value PS_RUNNING)) None (Some (j_lease_epoch j)) false) now_iso;
      mret (Some r)).

(** *** Fencing checks *)
Definition lease_is_current (job_id owner : string) (lease_epoch : Z) : jcmd bool :=
  now ← jnow;
  now_iso ← lift (format_in_range now);
  j ← get_supervisor_job job_id;
  mret (match j with Some j => held_by j owner lease_epoch && lease_open j now_iso | None => false end).
Definition assert_lease_current (job_id owner : string) (lease_epoch : Z) : jcmd unit :=
  now ← jnow;
  now_iso ← lift (format_in_range now);
  j ← get_supervisor_job job_id;
  j ← some_or j LeaseFencedError;
  check_holder LeaseFencedError j owner lease_epoch now_iso.

(** *** The writer binding and the job metadata *)
Definition bind_writer_worktree (job_id dispatch_id owner : string) (lease_epoch : Z)
    (repo_identity base_commit branch_identity : option string) (canonical_worktree_path : string)
    (expected_head current_head : option string) : jcmd (option Job) :=
  _ ← _validate_lease_owner (Some owner);
  _ ← _validate_epoch lease_epoch;
  _ ← raise_when (blank dispatch_id) ValueError;
  _ ← raise_unless (truthy canonical_worktree_path) ValueError;
  now_iso ← jnow_iso;
  jtransaction (
    j ← need_job job_id;
    _ ← check_holder LeaseFencedError j owner lease_epoch now_iso;
    conflict ← jquery (fun t => existsb (fun x =>
        ostr_eqb (job_worktree x) (Some canonical_worktree_path) && bound_writer x
        && negb (is_job job_id x)) (jt_jobs t));
    _ ← raise_when conflict WorktreeConflictError;
    _ ← _update_supervisor_job job_id
          [A_writer_dispatch_id (Some dispatch_id); A_writer_owner_instance_id (Some owner);
           A_writer_lease_epoch lease_epoch; A_repo_identity repo_identity;
           A_base_commit base_commit; A_branch_identity branch_identity;
           A_canonical_worktree_path (Some canonical_worktree_path);
           A_expected_head expected_head; A_current_head current_head;
           A_writer_binding_mode (Some "BOUND")];
    get_supervisor_job job_id).
Definition set_job_metadata (job_id owner : string) (lease_epoch : Z) (m : Metadata)
  : jcmd (option Job) :=
  fields ← lift (metadata_fields m);
  _ ← _validate_lease_owner (Some owner);
  _ ← _validate_epoch lease_epoch;
  jtransaction (
    j ← need_job job_id;
    _ ← raise_unless (ostr_eqb (j_owner_instance_id j) (Some owner)) LeaseFencedError;
    _ ← raise_unless (j_lease_epoch j =? lease_epoch)%Z LeaseFencedError;
    now_iso ← jnow_iso;
    _ ← raise_unless (lease_open j now_iso) LeaseFencedError;
    _ ← match fields with
        | [] => mret 0
        | _ => _update_supervisor_job job_id (fields ++ [A_facts_version (j_facts_version j + 1)%Z])
        end;
    get_supervisor_job job_id).
Definition get_dependency_terminal (depends_on : string) : jcmd (option string) :=
  j ← get_supervisor_job depends_on;
  mret (match j with None => Some DEPENDENCY_MISSING | Some j => j_terminal j end).

(** *** Queueing *)
Definition enqueue_job (job_id : string) (e : Enqueue) : jcmd Job :=
  now ← jnow;
  now_iso ← lift (format_in_range now);
  let status := status_for_enqueue (en_queue_reason e) in
  jtransaction (
    j ← need_job job_id;
    _ ← raise_when (ostr_in (j_terminal j) ["DONE"; "FAILED"]) LeaseError;
    let common := enqueue_fields e j in
    if en_owner_authorized e then
      _ ← raise_when (match en_policy_ref e with None => true | Some p => blank p end) LeaseError;
      _ ← raise_when (match en_policy_ref e with
                      | None => false
                      | Some p => Nat.ltb MAX_POLICY_REF_LEN (String.length p)
                      end) LeaseError;
      _ ← raise_unless (String.eqb (j_primary_state j) (value PS_BLOCKED)) LeaseError;
      _ ← raise_unless (ostr_eqb (j_terminal j) (Some "BLOCKED")) LeaseError;
      _ ← raise_when (is_some (j_owner_instance_id j)) LeaseError;
      _ ← raise_when (is_some (j_lease_expires_at j)) LeaseError;
      _transition_job job_id (value PS_QUEUED) status (common ++ [A_terminal None]) true true no_cas
        now_iso
    else if is_some (en_owner_instance_id e) || is_some (en_lease_epoch e) then
      _ ← _validate_lease_owner (en_owner_instance_id e);
      _transition_job job_id (value PS_QUEUED) status common false true
        (mkCas None (en_owner_instance_id e) (en_lease_epoch e) true) now_iso
    else
      _ ← raise_when (is_some (j_owner_instance_id j)) LeaseError;
      _ ← raise_unless (String.eqb (j_primary_state j) (value PS_QUEUED)) LeaseError;
      _transition_job job_id (value PS_QUEUED) status common false true no_cas now_iso).

Definition persist_resource_decision (job_id owner : string) (lease_epoch : Z)
    (decision reason_code : string) (snapshot_hash at_ : option string) : jcmd (option Job) :=
  _ ← _validate_lease_owner (Some owner);
  now_iso ← jnow_iso;
  jtransaction (
    j ← need_job job_id;
    _ ← raise_when (is_some (j_terminal j)) LeaseError;
    _ ← raise_unless (String.eqb (j_primary_state j) (value PS_RUNNING)) LeaseError;
    _ ← check_holder LeaseFencedError j owner lease_epoch now_iso;
    _ ← jupdate jt_jobs (is_job job_id)
          (apply_all [A_last_resource_decision (Some decision); A_last_resource_reason_code (Some reason_code);
                      A_last_resource_snapshot_hash snapshot_hash; A_last_resource_at at_;
                      A_updated_at now_iso]);
    get_supervisor_job job_id).

(** The transition of a recovery decision. *)
Definition recovery_audit (dec : RecoveryDecision) (fc : FailureClass) (reason now_iso : string)
  : list assign :=
  [A_last_recovery_decision (Some (value dec)); A_last_failure_class (Some (value fc));
   A_last_recovery_at (Some now_iso); A_last_error_code (Some reason)].
Definition requeue_fields (reason : QueueReason) (next_eligible_at : option string) (j : Job)
  : list assign :=
  [A_queue_reason (value reason); A_next_eligible_at next_eligible_at;
   A_error_class (value EC_RESOURCE); A_attempt_no (j_attempt_no j + 1)%Z;
   A_owner_instance_id None; A_lease_expires_at None].
Definition commit_decision (job_id : string) (j : Job) (dec : RecoveryDecision) (audit : list assign)
    (next_eligible_at : option string) (cas : Cas) (now_iso : string) : jcmd Job :=
  let requeue reason :=
    _transition_job job_id (value PS_QUEUED) (status_for_enqueue (value reason))
      (audit ++ requeue_fields reason next_eligible_at j) false true cas now_iso in
  match dec with
  | RD_RETRY_BOUNDED => requeue QR_RETRY_BACKOFF
  | RD_DEFER_RESOURCE => requeue QR_RESOURCE_DEFERRED
  | RD_BLOCK_RESOURCE | RD_PREFER_EXTERNAL =>
      _transition_job job_id (value PS_BLOCKED) "TERMINAL"
        (audit ++ [A_terminal (Some "BLOCKED"); A_owner_instance_id None; A_lease_expires_at None;
                   A_error_class (value EC_RESOURCE); A_next_action "NONE"; A_next_wake_at None])
        false true cas now_iso
  | RD_QUARANTINE_LOST =>
      _transition_job job_id (value PS_LOST) "RECOVERING"
        (audit ++ [A_owner_instance_id None; A_lease_expires_at None;
                   A_error_class (value EC_OWNER_REQUIRED); A_next_action "NONE"; A_next_wake_at None])
        false true cas now_iso
  | RD_COMPLETE | RD_FAIL_NONRESOURCE => raise ValueError
  end.
Definition commit_recovery_decision (job_id owner : string) (lease_epoch : Z)
    (failure_class recovery_decision : string) (reason_code next_eligible_at : option string)
    (expected : option Snapshot) (process_id : option string) : jcmd Job :=
  fc ← lift (enum_of failure_class : res exc FailureClass);
  dec ← lift (enum_of recovery_decision : res exc RecoveryDecision);
  _ ← raise_when (in_list dec [RD_COMPLETE; RD_FAIL_NONRESOURCE]) ValueError;
  _ ← lift (assert_valid_recovery_pair fc dec);
  reason ← lift (normalized_reason_code fc reason_code);
  _ ← _validate_lease_owner (Some owner);
  now ← jnow;
  now_iso ← lift (format_in_range now);
  jtransaction (
    j ← need_job job_id;
    _ ← raise_when (match expected with Some sn => negb (snapshot_matches j sn) | None => false end)
          LeaseFencedError;
    _ ← raise_when (is_some (j_terminal j)) LeaseError;
    _ ← raise_unless (String.eqb (j_primary_state j) (value PS_RUNNING)) LeaseError;
    _ ← check_holder LeaseFencedError j owner lease_epoch now_iso;
    _ ← match process_id with
        | None => mret tt
        | Some p =>
            already ← jquery (fun t => existsb (fun m =>
                String.eqb (rm_job_id m) job_id && String.eqb (rm_process_id m) p) (jt_markers t));
            _ ← raise_when already LeaseFencedError;
            jinsert jt_markers (mkRecoveryMarker job_id p now_iso)
        end;
    commit_decision job_id j dec (recovery_audit dec fc reason now_iso) next_eligible_at
      (snapshot_cas expected true) now_iso).
Definition has_recovery_marker (job_id process_id : string) : jcmd bool :=
  jquery (fun t => existsb (fun m => String.eqb (rm_job_id m) job_id
                                     && String.eqb (rm_process_id m) process_id) (jt_markers t)).

End Store.
