(* ===== verification/JobSteps.v ===== *)
(** * JobSteps: what the lease operations do, one by one.

    The effect of [_transition_job] and of each operation of [Leases] on the
    tables, as an equation, on every run that returns; and: a transaction that
    raises leaves every table as it was. *)
From S2P Require Import Prelude PyVal Models Timestamps JobState Concurrency Recovery CoreStore JobRows Worktree Leases.
#[local] Open Scope string_scope.

Notation jdb s := (st_db (js_core s)).
Definition sok (s : JSt) : Prop := jt_ok (jdb s) (js_t s) = true.

(** ** Rows by id *)
Lemma apply_assign_id a j : j_id (apply_assign a j) = j_id j.
Proof. by destruct a. Qed.
Lemma apply_all_id l j : j_id (apply_all l j) = j_id j.
Proof.
  unfold apply_all. revert j. induction l as [|a l IH]; intros j; [done|].
  cbn [fold_left]. by rewrite IH, apply_assign_id.
Qed.
Lemma apply_all_app l m j : apply_all (l ++ m) j = apply_all m (apply_all l j).
Proof. apply fold_left_app. Qed.

Lemma row_by_id {A} (key : A -> string) id l x : by_id key id l = Some x -> key x = id /\ In x l.
Proof. intros F. apply find_some in F as [I K]. by apply String.eqb_eq in K. Qed.
Lemma row_by_id_update {A} (key : A -> string) (p : A -> bool) (f : A -> A) id l :
  (forall x, key (f x) = key x) ->
  by_id key id (update_where p f l) = (fun x => if p x then f x else x) <$> by_id key id l.
Proof.
  intros K. unfold by_id, update_where. induction l as [|x l IH]; [done|]. cbn.
  assert (E : key (if p x then f x else x) = key x) by (destruct (p x); auto).
  rewrite E. by destruct (String.eqb (key x) id).
Qed.
Lemma count_by_id {A} (key : A -> string) id l : uniq key l = true ->
  forall x, by_id key id l = Some x -> count_where (fun y => String.eqb (key y) id) l = 1.
Proof.
  unfold uniq. rewrite bool_decide_eq_true. unfold by_id, count_where.
  induction l as [|y l IH]; [done|]. intros U%NoDup_cons x F. cbn in *. destruct U as [N U].
  destruct (String.eqb_spec (key y) id) as [<-|D]; [|by eapply IH].
  cbn. f_equal. destruct (List.filter _ l) as [|z r] eqn:E; [done|]. exfalso. apply N.
  assert (I : In z (List.filter (fun a => String.eqb (key a) (key y)) l)) by (rewrite E; by left).
  apply filter_In in I as [I K]. apply String.eqb_eq in K. rewrite <- K.
  apply list_elem_of_In. by apply in_map.
Qed.

Lemma jobs_uniq db t : jt_ok db t = true -> uniq j_id (jt_jobs t) = true.
Proof. unfold jt_ok, jobs_ok. rewrite !andb_true_iff. tauto. Qed.

(** The tables after an update of the rows of one job. *)
Definition put (job_id : string) (f : Job -> Job) (t : JT) : JT :=
  t <| jt_jobs ::= update_where (is_job job_id) f |>.
Lemma job_of_put id id' f t : (forall j, j_id (f j) = j_id j) ->
  job_of id' (put id f t) = (fun j => if is_job id j then f j else j) <$> job_of id' t.
Proof. intros K. unfold job_of, put. cbn. by apply row_by_id_update. Qed.
Lemma job_of_put_same id f t j : (forall j, j_id (f j) = j_id j) ->
  job_of id t = Some j -> job_of id (put id f t) = Some (f j).
Proof.
  intros K J. rewrite job_of_put, J by done. cbn. unfold is_job.
  apply row_by_id in J as [-> _]. by rewrite String.eqb_refl.
Qed.

(** ** Inverting the statements *)
Lemma jwrite_ok f s u s' : jwrite f s = (Ok u, s') ->
  s' = s <| js_t := f (js_t s) |> /\ jt_ok (jdb s) (f (js_t s)) = true.
Proof. unfold jwrite. destruct (jt_ok _ _) eqn:K; [|done]. intros [= _ <-]. done. Qed.
Lemma jupdate_ok {A} (tbl : JT -> list A) `{Setter JT (list A) tbl} p f s n s' :
  jupdate tbl p f s = (Ok n, s') ->
  n = count_where p (tbl (js_t s)) /\ s' = s <| js_t := set tbl (update_where p f) (js_t s) |> /\
  jt_ok (jdb s) (set tbl (update_where p f) (js_t s)) = true.
Proof.
  unfold jupdate, jquery. intros R. inv_ok R.
  lazymatch goal with K : jwrite _ _ = _ |- _ => apply jwrite_ok in K as [-> K] end. done.
Qed.
Lemma jinsert_ok {A} (tbl : JT -> list A) `{Setter JT (list A) tbl} x s u s' :
  jinsert tbl x s = (Ok u, s') ->
  s' = s <| js_t := set tbl (fun l => (l ++ [x])%list) (js_t s) |> /\
  jt_ok (jdb s) (set tbl (fun l => (l ++ [x])%list) (js_t s)) = true.
Proof. apply jwrite_ok. Qed.

(** A step that only reads the clock. *)
Definition quiet (s s' : JSt) : Prop :=
  jdb s' = jdb s /\ js_t s' = js_t s /\ js_fence s' = js_fence s.
Lemma quiet_refl s : quiet s s.
Proof. done. Qed.
Lemma quiet_trans s1 s2 s3 : quiet s1 s2 -> quiet s2 s3 -> quiet s1 s3.
Proof. unfold quiet. intuition congruence. Qed.
Lemma quiet_sok s s' : quiet s s' -> sok s -> sok s'.
Proof. intros (E & T & _). unfold sok. by rewrite E, T. Qed.

(** A program that reads the tables and the clock, and nothing else. *)
Definition reads {A} (m : jcmd A) : Prop := forall s r s', m s = (r, s') -> quiet s s'.
Lemma reads_ret {A} (a : A) : reads (mret a).
Proof. by intros s r s' [= _ <-]. Qed.
Lemma reads_gets {A} (f : JSt -> A) : reads (gets f).
Proof. by intros s r s' [= _ <-]. Qed.
Lemma reads_lift {A} (x : res exc A) : reads (lift x).
Proof. by intros s r s' [= _ <-]. Qed.
Lemma reads_raise {A} e : reads (raise (A := A) e).
Proof. by intros s r s' [= _ <-]. Qed.
Lemma reads_bind {A B} (m : jcmd A) (k : A -> jcmd B) :
  reads m -> (forall a, reads (k a)) -> reads (x ← m; k x).
Proof.
  intros Hm Hk s r s'. unfold mbind, M_bind. destruct (m s) as [[a|e] s1] eqn:R; apply Hm in R.
  - intros K%Hk. by eapply quiet_trans.
  - by intros [= _ <-].
Qed.
Lemma reads_when b e : reads (raise_when b e).
Proof. destruct b; [apply reads_raise | apply reads_ret]. Qed.
Lemma reads_unless b e : reads (raise_unless b e).
Proof. destruct b; [apply reads_ret | apply reads_raise]. Qed.
Lemma reads_some_or {A} (o : option A) e : reads (some_or o e).
Proof. destruct o; [apply reads_ret | apply reads_raise]. Qed.
Create HintDb reads.
#[export] Hint Resolve reads_ret reads_gets reads_lift reads_raise reads_bind reads_when reads_unless
  reads_some_or : reads.

Section Ops.
Context {env : Env}.

Lemma jnow_reads : reads jnow.
Proof. intros s r s'. unfold jnow, on_core, now. intros [= <- <-]. done. Qed.
Lemma jnow_iso_reads : reads jnow_iso.
Proof.
  intros s r s'. unfold jnow_iso, on_core, now_iso, now, mbind, M_bind, lift. intros [= <- <-]. done.
Qed.
Hint Resolve jnow_reads jnow_iso_reads : reads.
Lemma expired_now_reads j : reads (expired_now j).
Proof. unfold expired_now. destruct (j_lease_expires_at j); auto with reads. Qed.
Hint Resolve expired_now_reads : reads.
Lemma fence_reads id o e f : reads (_fence_action id o e f).
Proof.
  unfold _fence_action, get_supervisor_job, jquery.
  destruct o; repeat (apply reads_bind; [auto with reads | intros ?]); auto with reads.
Qed.
Lemma check_fence_reads : reads _check_action_fence.
Proof.
  unfold _check_action_fence. apply reads_bind; [auto with reads|].
  intros [f|]; [apply fence_reads | auto with reads].
Qed.

Lemma jtransaction_ok {A} (m : jcmd A) s a s' : jtransaction m s = (Ok a, s') ->
  exists s1, quiet s s1 /\ _check_action_fence s = (Ok tt, s1) /\ m s1 = (Ok a, s').
Proof.
  unfold jtransaction, rollback, mbind, M_bind.
  destruct (_check_action_fence s) as [[[]|e] s1] eqn:F; [|done]. pose proof F as Q.
  apply check_fence_reads in Q. destruct (m s1) as [[b|e] s2] eqn:R; [|done].
  intros [= -> <-]. eauto.
Qed.
Lemma jtransaction_err {A} (m : jcmd A) s e s' : jtransaction m s = (Err e, s') ->
  jdb s' = jdb s /\ js_t s' = js_t s.
Proof.
  unfold jtransaction, rollback. destruct ((_ ← _check_action_fence; m) s) as [[b|e'] s2]; [done|].
  by intros [= _ <-].
Qed.
End Ops.
#[export] Hint Resolve jnow_reads jnow_iso_reads expired_now_reads fence_reads check_fence_reads : reads.

(** ** The transition primitive *)
Lemma need_job_ok id s j s' : need_job id s = (Ok j, s') -> job_of id (js_t s) = Some j /\ s' = s.
Proof. unfold need_job, get_supervisor_job, jquery. intros R. inv_ok R. by destruct R. Qed.

Lemma get_job_ok id s o s' : get_supervisor_job id s = (Ok o, s') -> o = job_of id (js_t s) /\ s' = s.
Proof. unfold get_supervisor_job, jquery. intros R. inv_ok R. done. Qed.

(** What [_transition_job] requires of the row it reads. *)
Definition may_transition (j : Job) (to_primary_state to_status : string) (fields : list assign)
    (owner_authorized : bool) (cas : Cas) (now_iso : string) : Prop :=
  _validate_enum_fields fields = Ok tt /\ check_sticky owner_authorized j = Ok tt /\
  check_cas cas j now_iso = Ok tt /\ check_projection to_primary_state to_status = Ok tt.

(** [m] returned with the tables of [s], one job rewritten by [f]. *)
Definition rewrote (id : string) (f : Job -> Job) (s s' : JSt) : Prop :=
  jdb s' = jdb s /\ js_t s' = put id f (js_t s) /\ js_fence s' = js_fence s /\ sok s'.

Lemma quiet_rewrote id f s s1 s' : quiet s s1 -> rewrote id f s1 s' -> rewrote id f s s'.
Proof. intros (D & T & F) (D' & T' & F' & K). unfold rewrote. rewrite D', T', F', D, T, F. done. Qed.

Lemma transition_ok id ps st fields oa bump cas now_iso s r s' :
  _transition_job id ps st fields oa bump cas now_iso s = (Ok r, s') ->
  exists j, job_of id (js_t s) = Some j /\ may_transition j ps st fields oa cas now_iso /\
    let f := apply_all (transition_fields j ps st fields bump now_iso) in
    r = f j /\ rewrote id f s s'.
Proof.
  unfold _transition_job. intros R. inv_ok R.
  repeat match goal with
  | H : need_job _ _ = _ |- _ => apply need_job_ok in H as [? ->]
  | H : jupdate _ _ _ _ = _ |- _ => apply jupdate_ok in H as (-> & -> & ?)
  | H : get_supervisor_job _ _ = _ |- _ => apply get_job_ok in H as [H ->]
  | u : unit |- _ => destruct u
  end.
  match goal with J : job_of id _ = Some ?j |- _ => rename J into Hj; rename j into j' end. exists j'; rename j' into j.
  split; [done|]. split; [done|]. cbv zeta.
  match goal with H : Some r = _ |- _ => symmetry in H; rename H into Hr end.
  set (f := apply_all (transition_fields j ps st fields bump now_iso)) in *.
  pose proof (job_of_put_same id f _ j (fun x => apply_all_id _ x) Hj) as P.
  assert (E : Some r = Some (f j)) by (rewrite <- Hr; exact P).
  injection E as ->. done.
Qed.
