(* ===== verification/LeaseSpec.v ===== *)
(** * LeaseSpec: the lease protocol, abstractly.

    [lease] is what the protocol sees of a job and [lstep now] the transitions it
    allows at clock reading [now]; [auth]: the caller is the authorised owner.  Every operation of [Leases] is shown to refine
    it: what the operation does to any job is a sequence of [lstep]s. *)
From S2P Require Import Prelude PyVal Models Timestamps JobState Concurrency Recovery CoreStore JobRows Worktree Leases JobSteps.
From stdpp Require Import relations.
#[local] Open Scope string_scope.

Record lease : Type := mkLease {
  l_state : string;
  l_terminal : option string;
  l_owner : option string;
  l_epoch : Z;
  l_expires : option string;
  l_facts : Z
}.
Definition view (j : Job) : lease :=
  mkLease (j_primary_state j) (j_terminal j) (j_owner_instance_id j) (j_lease_epoch j)
    (j_lease_expires_at j) (j_facts_version j).

Definition alive (v : lease) : Prop := l_terminal v = None /\ l_state v <> "BLOCKED".
Definition unexpired (now : string) (v : lease) : bool :=
  match l_expires v with Some e => str_ltb now e | None => false end.
Definition leased (v : lease) : Prop := l_owner v <> None.
(** No lease, [state], the epoch kept and the facts version bumped. *)
Definition idle (state : string) (terminal : option string) (v : lease) : lease :=
  mkLease state terminal None (l_epoch v) None (l_facts v + 1).
(** A fresh lease: the epoch grows by one. *)
Definition granted (owner expires : string) (v : lease) : lease :=
  mkLease "RUNNING" None (Some owner) (l_epoch v + 1) (Some expires) (l_facts v + 1).

Inductive lstep (auth : bool) (now : string) (v : lease) : lease -> Prop :=
| ls_note : lstep auth now v v
| ls_fact : leased v -> unexpired now v = true ->
    lstep auth now v (mkLease (l_state v) (l_terminal v) (l_owner v) (l_epoch v) (l_expires v) (l_facts v + 1))
| ls_claim owner expires : alive v -> l_state v = "QUEUED" -> (leased v -> unexpired now v = false) ->
    lstep auth now v (granted owner expires v)
| ls_takeover owner expires : alive v -> l_state v = "RUNNING" -> l_expires v <> None ->
    unexpired now v = false -> lstep auth now v (granted owner expires v)
| ls_renew expires : leased v -> unexpired now v = true ->
    lstep auth now v (mkLease (l_state v) (l_terminal v) (l_owner v) (l_epoch v) (Some expires) (l_facts v))
| ls_clear : leased v -> unexpired now v = true ->
    lstep auth now v (idle (l_state v) (l_terminal v) v)
| ls_yield state : alive v -> leased v -> unexpired now v = true ->
    In state ["QUEUED"; "WAITING_EXTERNAL"] -> lstep auth now v (idle state None v)
| ls_park_lost : alive v -> lstep auth now v (idle "LOST" None v)
| ls_park_blocked : alive v -> lstep auth now v (idle "BLOCKED" (Some "BLOCKED") v)
| ls_queue : alive v -> l_owner v = None -> l_state v = "QUEUED" -> lstep auth now v (idle "QUEUED" None v)
| ls_wake : alive v -> l_state v = "WAITING_EXTERNAL" -> lstep auth now v (idle "QUEUED" None v)
| ls_reopen : auth = true -> l_state v = "BLOCKED" -> l_terminal v = Some "BLOCKED" -> l_owner v = None ->
    l_expires v = None -> lstep auth now v (idle "QUEUED" None v).

(** ** The view of an update *)
Definition apply_view (v : lease) (a : assign) : lease :=
  match a with
  | A_primary_state x => mkLease x (l_terminal v) (l_owner v) (l_epoch v) (l_expires v) (l_facts v)
  | A_terminal x => mkLease (l_state v) x (l_owner v) (l_epoch v) (l_expires v) (l_facts v)
  | A_owner_instance_id x => mkLease (l_state v) (l_terminal v) x (l_epoch v) (l_expires v) (l_facts v)
  | A_lease_epoch x => mkLease (l_state v) (l_terminal v) (l_owner v) x (l_expires v) (l_facts v)
  | A_lease_expires_at x => mkLease (l_state v) (l_terminal v) (l_owner v) (l_epoch v) x (l_facts v)
  | A_facts_version x => mkLease (l_state v) (l_terminal v) (l_owner v) (l_epoch v) (l_expires v) x
  | _ => v
  end.
Lemma view_assign a j : view (apply_assign a j) = apply_view (view j) a.
Proof. by destruct a. Qed.
Lemma view_all l j : view (apply_all l j) = fold_left apply_view l (view j).
Proof.
  unfold apply_all. revert j. induction l as [|a l IH]; intros j; [done|].
  cbn [fold_left]. by rewrite IH, view_assign.
Qed.
(** Assignments the protocol does not see. *)
Definition unseen (a : assign) : Prop := forall v, apply_view v a = v.
Lemma view_unseen l v : Forall unseen l -> fold_left apply_view l v = v.
Proof. intros F. induction F as [|a l U _ IH]; [done|]. cbn. by rewrite U. Qed.
Lemma audit_field_unseen f v : (forall x, unseen (f x)) -> Forall unseen (audit_field f v).
Proof. intros U. destruct v; repeat constructor. apply U. Qed.

Lemma idle_fields_view j ps st fields now_iso term :
  fold_left apply_view fields (view j) =
    mkLease (j_primary_state j) term None (j_lease_epoch j) None (j_facts_version j) ->
  view (apply_all (transition_fields j ps st fields true now_iso) j) = idle ps term (view j).
Proof. intros E. unfold transition_fields. by rewrite view_all, fold_left_app, E. Qed.

(** ** Runs of a command on the whole table *)
(** Every job is still there, moved by the protocol at clock reading [now]. *)
Definition protocol (auth : bool) (now : string) (t t' : JT) : Prop :=
  forall id j, job_of id t = Some j ->
  exists j', job_of id t' = Some j' /\ rtc (lstep auth now) (view j) (view j').
#[export] Instance protocol_preorder auth now : PreOrder (protocol auth now).
Proof.
  split.
  - intros t id j J. exists j. split; [done | apply rtc_refl].
  - intros t1 t2 t3 P Q id j J. destruct (P _ _ J) as (j1 & J1 & S1).
    destruct (Q _ _ J1) as (j2 & J2 & S2). exists j2. split; [done | by etrans].
Qed.
Lemma protocol_put auth now id f t : (forall x, j_id (f x) = j_id x) ->
  (forall j, job_of id t = Some j -> lstep auth now (view j) (view (f j))) -> protocol auth now t (put id f t).
Proof.
  intros K S id' j' J'. rewrite job_of_put, J' by done. cbn. eexists. split; [done|].
  unfold is_job. destruct (String.eqb_spec (j_id j') id) as [E|N]; [|apply rtc_refl].
  pose proof (row_by_id _ _ _ _ J') as [E' _]. rewrite E in E'. subst id'.
  by apply rtc_once, S.
Qed.
Lemma protocol_rewrote auth now id f s s' j : (forall x, j_id (f x) = j_id x) ->
  rewrote id f s s' -> job_of id (js_t s) = Some j -> lstep auth now (view j) (view (f j)) ->
  protocol auth now (js_t s) (js_t s').
Proof. intros K (_ & -> & _) J S. apply protocol_put; [done|]. intros x. rewrite J. by intros [= <-]. Qed.
Lemma protocol_quiet auth now s s' : quiet s s' -> protocol auth now (js_t s) (js_t s').
Proof. intros (_ & -> & _). reflexivity. Qed.

(** ** What the guards say *)
Lemma row_terminal s id j : sok s -> job_of id (js_t s) = Some j ->
  j_terminal j = None \/ j_terminal j = Some "DONE" \/ j_terminal j = Some "FAILED" \/
  j_terminal j = Some "BLOCKED".
Proof.
  intros K [_ I]%row_by_id. unfold sok, jt_ok, jobs_ok in K. rewrite !andb_true_iff in K.
  destruct K as [[[[[[[[[[[[[[[[_ F] _] _] _] _] _] _] _] _] _] _] _] _] _] _] _].
  rewrite forallb_forall in F. specialize (F _ I). unfold job_row_ok in F. rewrite !andb_true_iff in F.
  assert (O : opt_in (j_terminal j) terminal_values = true) by tauto.
  destruct (j_terminal j) as [x|]; [|by left]. apply str_in_In in O. cbn in O.
  destruct O as [<-|[<-|[<-|[]]]]; tauto.
Qed.
Lemma sticky_alive s id j : sok s -> job_of id (js_t s) = Some j ->
  check_sticky false j = Ok tt -> alive (view j).
Proof.
  intros K J C. apply res_seq_ok in C as [T C]. apply res_when_ok in T. unfold alive. cbn.
  destruct (row_terminal _ _ _ K J) as [E|[E|[E|E]]]; rewrite E in *; try done.
  cbn in C. split; [done|]. intros B. rewrite B in C. done.
Qed.
Lemma differs_some x v : differs (Some x) v = false -> v = Some x.
Proof. unfold differs. cbn. rewrite negb_false_iff. apply ostr_eqb_eq. Qed.
Lemma check_cas_ok ps o e u j now_iso : check_cas (mkCas ps o e u) j now_iso = Ok tt <->
  differs ps (Some (j_primary_state j)) = false /\ differs o (j_owner_instance_id j) = false /\
  zdiffers e (j_lease_epoch j) = false /\ (u = true -> lease_open j now_iso = true).
Proof.
  unfold check_cas. cbn. rewrite !res_seq_ok, !res_when_ok, andb_false_iff, negb_false_iff.
  destruct u; intuition congruence.
Qed.

(** ** Programs inside a transaction *)
Section Grants.
Context {env : Env} (auth : bool) (now_iso : string).

(** Whenever [m] returns from tables that satisfy [P], every job has moved by the
    protocol and the constraints still hold. *)
Definition grants {A} (P : JT -> Prop) (m : jcmd A) : Prop := forall s a s',
  sok s -> P (js_t s) -> m s = (Ok a, s') ->
  jdb s' = jdb s /\ sok s' /\ protocol auth now_iso (js_t s) (js_t s').

Lemma g_reads {A B} P (m : jcmd A) (k : A -> jcmd B) :
  reads m -> (forall a, grants P (k a)) -> grants P (x ← m; k x).
Proof.
  intros Hm Hk s b s' K Hp R. apply M_bind_ok in R as (a & s1 & R1 & R). apply Hm in R1 as Q.
  destruct Q as (D & T & F). destruct (Hk a s1 b s') as (D' & K' & S); [..|done|].
  - unfold sok. by rewrite D, T.
  - by rewrite T.
  - rewrite D', <- D, <- T. done.
Qed.
Lemma g_pure {A} P (m : jcmd A) : reads m -> grants P m.
Proof.
  intros Hm s a s' K Hp R. apply Hm in R as (D & T & F). unfold sok. rewrite D, T. done.
Qed.
Lemma g_lift {A B} P (x : res exc A) (k : A -> jcmd B) :
  (forall a, x = Ok a -> grants P (k a)) -> grants P (a ← lift x; k a).
Proof.
  intros Hk s b s' K Hp R. apply M_bind_ok in R as (a & s1 & R1 & R). apply lift_ok in R1 as [R1 ->].
  by eapply Hk.
Qed.
Lemma g_unless {A} P b e (k : jcmd A) : (b = true -> grants P k) -> grants P (_ ← raise_unless b e; k).
Proof.
  intros Hk s a s' K Hp R. apply M_bind_ok in R as (u & s1 & R1 & R).
  apply raise_unless_ok in R1 as [B ->]. by eapply Hk.
Qed.
Lemma g_when {A} P b e (k : jcmd A) : (b = false -> grants P k) -> grants P (_ ← raise_when b e; k).
Proof.
  intros Hk s a s' K Hp R. apply M_bind_ok in R as (u & s1 & R1 & R).
  apply raise_when_ok in R1 as [B ->]. by eapply Hk.
Qed.
Lemma g_holder {A} P e j owner epoch now (k : jcmd A) :
  (j_owner_instance_id j = Some owner -> j_lease_epoch j = epoch -> lease_open j now = true ->
   grants P k) -> grants P (_ ← check_holder e j owner epoch now; k).
Proof.
  intros Hk s a s' K Hp R. apply M_bind_ok in R as (u & s1 & R1 & R). unfold check_holder in R1.
  inv_ok R1.
  repeat match goal with
  | H : ostr_eqb _ _ = true |- _ => apply ostr_eqb_eq in H
  | H : (_ =? _)%Z = true |- _ => apply Z.eqb_eq in H
  end. by eapply Hk.
Qed.
Lemma g_need {A} P id (k : Job -> jcmd A) :
  (forall j, grants (fun t => P t /\ job_of id t = Some j) (k j)) ->
  grants P (j ← need_job id; k j).
Proof.
  intros Hk s a s' K Hp R. apply M_bind_ok in R as (j & s1 & R1 & R).
  apply need_job_ok in R1 as [J ->]. by eapply Hk.
Qed.
Lemma g_get {A} P id (k : option Job -> jcmd A) :
  (forall o, grants (fun t => P t /\ job_of id t = o) (k o)) ->
  grants P (o ← get_supervisor_job id; k o).
Proof.
  intros Hk s a s' K Hp R. apply M_bind_ok in R as (j & s1 & R1 & R).
  apply get_job_ok in R1 as [J ->]. by eapply Hk.
Qed.
Lemma g_seq {A B} P (m : jcmd A) (k : A -> jcmd B) :
  grants P m -> (forall a, grants (fun _ => True) (k a)) -> grants P (x ← m; k x).
Proof.
  intros Hm Hk s b s' K Hp R. apply M_bind_ok in R as (a & s1 & R1 & R).
  apply Hm in R1 as (D1 & K1 & S1); [|done..]. apply Hk in R as (D2 & K2 & S2); [|done..].
  split; [congruence|]. split; [done|]. by etrans.
Qed.
Lemma g_ret {A} P (a : A) : grants P (mret a).
Proof. apply g_pure, reads_ret. Qed.
Lemma g_raise {A} P e : grants P (raise (A := A) e).
Proof. by intros s a s'. Qed.
Lemma g_mono {A} (P Q : JT -> Prop) (m : jcmd A) : (forall t, Q t -> P t) -> grants P m -> grants Q m.
Proof. intros I H s a s' K Hq. apply H; auto. Qed.

Lemma g_transition (P : JT -> Prop) id ps st fields oa cas :
  (forall s j, sok s -> P (js_t s) -> job_of id (js_t s) = Some j ->
     may_transition j ps st fields oa cas now_iso ->
     lstep auth now_iso (view j) (view (apply_all (transition_fields j ps st fields true now_iso) j))) ->
  grants P (_transition_job id ps st fields oa true cas now_iso).
Proof.
  intros Hs s a s' K Hp R. apply transition_ok in R as (j & J & M & E & W). cbv zeta in *.
  pose proof W as (D & _ & _ & K'). split; [done|]. split; [done|].
  eapply protocol_rewrote; [intros; apply apply_all_id | exact W | exact J |]. exact (Hs s j K Hp J M).
Qed.

(** An update of the holder's own row. *)
Lemma g_own_update P id owner epoch f (k : nat -> jcmd Job) :
  (forall j, j_id (f j) = j_id j) ->
  (forall s j, sok s -> P (js_t s) -> job_of id (js_t s) = Some j ->
     held_by j owner epoch = true -> lease_open j now_iso = true ->
     lstep auth now_iso (view j) (view (f j))) ->
  (forall n, reads (k n)) ->
  grants P (n ← jupdate jt_jobs (own_row id owner epoch now_iso) f; k n).
Proof.
  intros Kf Hs Hk s a s' K Hp R. apply M_bind_ok in R as (n & s1 & R1 & R).
  apply jupdate_ok in R1 as (_ & -> & K1). apply Hk in R as (D & T & _).
  unfold sok. rewrite D, T. split; [done|]. split; [done|].
  intros id' j J. exists (if own_row id owner epoch now_iso j then f j else j).
  split.
  { change (by_id j_id id' (update_where (own_row id owner epoch now_iso) f (jt_jobs (js_t s))) =
            Some (if own_row id owner epoch now_iso j then f j else j)).
    rewrite row_by_id_update by done. unfold job_of in J. by rewrite J. }
  destruct (own_row id owner epoch now_iso j) eqn:O; [|apply rtc_refl]. apply rtc_once.
  unfold own_row in O. rewrite !andb_true_iff in O. destruct O as [[I H] L].
  apply String.eqb_eq in I. pose proof (row_by_id _ _ _ _ J) as [E _]. subst id'. rewrite I in J.
  by eapply Hs.
Qed.
End Grants.

(** A command: on any outcome, the constraints hold and the jobs moved by the
    protocol at one clock reading. *)
Definition follows {A} (auth : bool) (m : jcmd A) : Prop := forall s r s', sok s -> m s = (r, s') ->
  jdb s' = jdb s /\ sok s' /\ exists now_iso, protocol auth now_iso (js_t s) (js_t s').
Lemma follows_reads {A B} auth (m : jcmd A) (k : A -> jcmd B) :
  reads m -> (forall a, follows auth (k a)) -> follows auth (x ← m; k x).
Proof.
  intros Hm Hk s r s' K. unfold mbind, M_bind. destruct (m s) as [[a|e] s1] eqn:R; apply Hm in R as (D & T & F).
  - intros R. destruct (Hk a s1 r s') as (D' & K' & n & S); [unfold sok; by rewrite D, T | done |].
    rewrite D', <- D, <- T. eauto.
  - intros [= _ <-]. unfold sok. rewrite D, T. repeat split; [done|]. exists EmptyString. reflexivity.
Qed.
Lemma follows_pure {A} auth (m : jcmd A) : reads m -> follows auth m.
Proof.
  intros Hm s r s' K R. apply Hm in R as (D & T & F). unfold sok. rewrite D, T.
  repeat split; [done|]. exists EmptyString. reflexivity.
Qed.
Lemma follows_lift {A B} auth (x : res exc A) (k : A -> jcmd B) :
  (forall a, x = Ok a -> follows auth (k a)) -> follows auth (a ← lift x; k a).
Proof.
  intros Hk s r s' K. destruct x as [a|e]; [by apply Hk|]. intros [= _ <-].
  repeat split; [done|]. exists EmptyString. reflexivity.
Qed.
Lemma follows_transaction_at {env : Env} {A} auth (m : jcmd A) :
  (forall s a s', sok s -> m s = (Ok a, s') ->
     exists now_iso, jdb s' = jdb s /\ sok s' /\ protocol auth now_iso (js_t s) (js_t s')) ->
  follows auth (jtransaction m).
Proof.
  intros G s r s' K R. destruct r as [a|e].
  - apply jtransaction_ok in R as (s1 & (D & T & F) & _ & R).
    destruct (G s1 a s') as (n & D' & K' & S); [unfold sok; by rewrite D, T | done |].
    rewrite D', <- D, <- T. eauto.
  - apply jtransaction_err in R as [D T]. unfold sok. rewrite D, T. repeat split; [done|].
    exists EmptyString. reflexivity.
Qed.
Lemma follows_transaction {env : Env} {A} auth now_iso (m : jcmd A) :
  grants auth now_iso (fun _ => True) m -> follows auth (jtransaction m).
Proof.
  intros G. apply follows_transaction_at. intros s a s' K R. exists now_iso. by eapply G.
Qed.

(** ** Every operation follows the protocol *)
Lemma held_leased j owner epoch : held_by j owner epoch = true -> leased (view j).
Proof.
  unfold held_by, leased. rewrite andb_true_iff. intros [H _]. apply ostr_eqb_eq in H. cbn. by rewrite H.
Qed.
Lemma open_unexpired j now_iso : lease_open j now_iso = unexpired now_iso (view j).
Proof. done. Qed.
Lemma owner_leased j o : j_owner_instance_id j = Some o -> leased (view j).
Proof. unfold leased. cbn. by intros ->. Qed.

Section Operations.
Context {env : Env} (auth : bool).

Ltac idle_step := erewrite idle_fields_view by reflexivity.

Lemma transition_view j ps st fields now_iso :
  view (apply_all (transition_fields j ps st fields true now_iso) j) =
  (let v := fold_left apply_view fields (view j) in
   mkLease ps (l_terminal v) (l_owner v) (l_epoch v) (l_expires v) (j_facts_version j + 1)).
Proof. unfold transition_fields. by rewrite view_all, fold_left_app. Qed.

Lemma claim_grants job_id owner ttl now now_iso P :
  format_in_range now = Ok now_iso -> grants auth now_iso P (_do_claim_locked job_id owner ttl now).
Proof.
  intros F. unfold _do_claim_locked. rewrite F. apply g_lift. intros n [= <-].
  apply g_reads; [unfold _validate_lease_owner; auto with reads | intros _].
  apply g_reads; [unfold _validate_ttl; auto with reads | intros _].
  apply g_need. intros j. apply g_unless. intros C. apply g_lift. intros expires _.
  apply g_transition. intros s j' K [_ J] J' (_ & S & _). rewrite J in J'. injection J' as <-.
  rewrite transition_view. cbn -[Z.add]. apply (sticky_alive s job_id) in S as A; [|done..].
  destruct A as [T B]. cbn in T. rewrite T. unfold _job_is_claimable in C.
  destruct (String.eqb_spec (j_primary_state j) "QUEUED") as [Q|]; [|by destruct (String.eqb _ "RUNNING")].
  apply (ls_claim auth now_iso (view j)); [done | done |].
  intros L. rewrite <- open_unexpired. destruct (lease_open j now_iso) eqn:O; [|done]. exfalso.
  unfold leased in L. cbn in L. destruct (j_owner_instance_id j); [|done].
  cbn in C. destruct (match j_next_eligible_at j with Some _ => _ | None => _ end); done.
Qed.
Lemma claim_job_follows job_id owner ttl : follows auth (claim_job job_id owner ttl).
Proof.
  unfold claim_job. apply follows_reads; [auto with reads | intros now].
  destruct (format_in_range now) as [n|e] eqn:F.
  - apply (follows_transaction auth n). by apply claim_grants.
  - apply (follows_transaction auth EmptyString). unfold _do_claim_locked. rewrite F.
    by apply g_lift.
Qed.

Lemma block_grants j now_iso P : grants auth now_iso P (_block_missing_dependency j now_iso).
Proof.
  unfold _block_missing_dependency. destruct (is_some (j_terminal j)); [apply g_ret|].
  apply g_seq; [|intros; apply g_ret]. apply g_transition.
  intros s j' K _ J (_ & S & _). idle_step. apply ls_park_blocked. by eapply sticky_alive.
Qed.
Lemma claim_loop_grants owner ttl now now_iso rows P :
  format_in_range now = Ok now_iso -> grants auth now_iso P (claim_loop owner ttl now now_iso rows).
Proof.
  intros F. revert P. induction rows as [|j rows IH]; intros P; [apply g_ret|].
  assert (C : forall P, grants auth now_iso P (r ← _do_claim_locked (j_id j) owner ttl now; mret (Some r))).
  { intros Q. apply g_seq; [by apply claim_grants | intros; apply g_ret]. }
  cbn [claim_loop]. destruct (negb _); [apply IH|]. destruct (j_depends_on j) as [dep|]; [|apply C].
  destruct (truthy dep); [|apply C]. apply g_reads; [unfold get_supervisor_job, jquery; auto with reads|].
  intros [d|]; [destruct (negb _); auto|]. apply g_seq; [apply block_grants | intros; apply IH].
Qed.
Lemma claim_next_job_follows owner ttl : follows auth (claim_next_job owner ttl).
Proof.
  unfold claim_next_job. apply follows_reads; [auto with reads | intros now].
  apply follows_lift. intros now_iso F. apply (follows_transaction auth now_iso).
  apply g_reads; [unfold jquery; auto with reads | intros rows]. by apply claim_loop_grants.
Qed.

Lemma renew_lease_follows job_id owner epoch ttl : follows auth (renew_lease job_id owner epoch ttl).
Proof.
  unfold renew_lease. apply follows_reads; [auto with reads | intros now].
  apply follows_lift. intros now_iso _.
  apply follows_reads; [unfold _validate_lease_owner; auto with reads | intros _].
  apply follows_reads; [unfold _validate_ttl; auto with reads | intros _].
  apply follows_lift. intros expires _. apply (follows_transaction auth now_iso).
  apply g_need. intros j. apply g_holder. intros _ _ _. apply g_own_update.
  - intros; apply apply_all_id.
  - intros s x _ _ _ H L. rewrite view_all. cbn. apply (ls_renew auth now_iso (view x)); [|done].
    by eapply held_leased.
  - intros n. unfold get_supervisor_job, jquery. auto with reads.
Qed.
Lemma clear_lease_follows job_id owner epoch : follows auth (clear_lease job_id owner epoch).
Proof.
  unfold clear_lease. apply follows_reads; [auto with reads | intros now].
  apply follows_lift. intros now_iso _.
  apply follows_reads; [unfold _validate_lease_owner; auto with reads | intros _].
  apply (follows_transaction auth now_iso). apply g_need. intros j. apply g_holder. intros _ _ _.
  apply g_own_update.
  - intros; apply apply_all_id.
  - intros s x _ _ _ H L. rewrite view_all. apply (ls_clear auth now_iso (view x)); [|done].
    by eapply held_leased.
  - intros n. unfold get_supervisor_job, jquery. auto with reads.
Qed.

(** A transition that gives the lease back, under the holder's own CAS. *)
Lemma yield_step now_iso s id j ps st fields o e :
  sok s -> job_of id (js_t s) = Some j -> In ps ["QUEUED"; "WAITING_EXTERNAL"] ->
  may_transition j ps st fields false (mkCas None (Some o) e true) now_iso ->
  fold_left apply_view fields (view j) =
    mkLease (j_primary_state j) (j_terminal j) None (j_lease_epoch j) None (j_facts_version j) ->
  lstep auth now_iso (view j) (view (apply_all (transition_fields j ps st fields true now_iso) j)).
Proof.
  intros K J I (_ & S & C & _) E. apply check_cas_ok in C as (_ & O & _ & U).
  apply differs_some in O. rewrite (idle_fields_view _ _ _ _ _ _ E).
  pose proof (sticky_alive _ _ _ K J S) as A. replace (j_terminal j) with (@None string) by (by destruct A).
  apply ls_yield; [done | by eapply owner_leased | by apply U | done].
Qed.
Lemma release_lease_follows job_id owner epoch : follows auth (release_lease job_id owner epoch).
Proof.
  unfold release_lease. apply follows_reads; [auto with reads | intros now].
  apply follows_lift. intros now_iso _.
  apply follows_reads; [unfold _validate_lease_owner; auto with reads | intros _].
  apply (follows_transaction auth now_iso). apply g_transition. intros s j K _ J M.
  eapply yield_step; [exact K | exact J | by left | exact M | done].
Qed.

Lemma quarantine_grants job_id ps st fields expected now_iso P :
  (forall j, alive (view j) -> lstep auth now_iso (view j)
     (view (apply_all (transition_fields j ps st fields true now_iso) j))) ->
  grants auth now_iso P (quarantine job_id ps st fields expected now_iso).
Proof.
  intros H. unfold quarantine. apply g_need. intros j.
  destruct (match expected with Some _ => _ | None => _ end); [apply g_ret|].
  apply g_seq; [|intros; apply g_ret]. apply g_transition. intros s j' K _ J (_ & S & _).
  apply H. by eapply sticky_alive.
Qed.
Lemma quarantine_lost_follows job_id code expected : follows auth (quarantine_lost job_id code expected).
Proof.
  unfold quarantine_lost. apply follows_reads; [auto with reads | intros now].
  apply follows_lift. intros now_iso _. apply (follows_transaction auth now_iso), quarantine_grants.
  intros j A. rewrite (idle_fields_view j (value PS_LOST) _ _ _ (j_terminal j)) by done.
  replace (j_terminal j) with (@None string) by (by destruct A). by apply ls_park_lost.
Qed.
Lemma quarantine_blocked_follows job_id code cls expected :
  follows auth (quarantine_blocked job_id code cls expected).
Proof.
  unfold quarantine_blocked. apply follows_reads; [auto with reads | intros now].
  apply follows_lift. intros now_iso _. apply (follows_transaction auth now_iso), quarantine_grants.
  intros j A. idle_step. by apply ls_park_blocked.
Qed.

Lemma takeover_follows job_id expected owner ttl alive verdict :
  follows auth (recover_takeover_job job_id expected owner ttl alive verdict).
Proof.
  unfold recover_takeover_job.
  apply follows_reads; [unfold _validate_lease_owner; auto with reads | intros _].
  apply follows_reads; [unfold _validate_ttl; auto with reads | intros _].
  apply follows_reads; [auto with reads | intros now].
  apply follows_lift. intros now_iso _. apply follows_lift. intros expires _.
  apply (follows_transaction auth now_iso). apply g_need. intros j.
  apply g_unless. intros _. apply g_unless. intros R%String.eqb_eq. apply g_when. intros T.
  apply g_when. intros E%orb_false_iff. apply g_when. intros _.
  apply g_reads; [unfold list_supervisor_actions, jquery; auto with reads | intros actions].
  apply g_when. intros _. destruct (ostr_eqb _ _).
  { apply g_seq; [|intros; apply g_pure; unfold get_supervisor_job, jquery; auto with reads].
    apply g_transition. intros s x K [_ J] J' (_ & S & _). idle_step. apply ls_park_blocked.
    by eapply sticky_alive. }
  destruct (_ && _).
  { apply g_seq; [|intros; apply g_pure; unfold get_supervisor_job, jquery; auto with reads].
    apply g_transition. intros s x K [_ J] J' (_ & S & _).
    rewrite (idle_fields_view x (value PS_LOST) _ _ _ (j_terminal x)) by done.
    apply (sticky_alive _ _ _ K J') in S as A.
    replace (j_terminal x) with (@None string) by (by destruct A). by apply ls_park_lost. }
  apply g_seq; [|intros; apply g_ret]. apply g_transition.
  intros s x K [_ J] J' (_ & S & _). rewrite J in J'. injection J' as <-. rewrite transition_view.
  cbn -[Z.add]. apply (sticky_alive _ _ _ K J) in S as A. destruct A as [A1 A2]. cbn in A1. rewrite A1.
  apply (ls_takeover auth now_iso (view j)); [done | done | | ]; cbn; destruct E as [E1 E2].
  - by destruct (j_lease_expires_at j).
  - done.
Qed.

(** *** Updates of columns that do not decide the primary state *)
Definition plain (a : assign) : Prop :=
  match a with
  | A_status _ | A_terminal _ | A_recovery_state _ | A_wait_kind _ | A_queue_reason _
  | A_primary_state _ => False
  | _ => True
  end.
Lemma plain_lookup {B} (f : assign -> option B) l :
  (forall a, plain a -> f a = None) -> Forall plain l -> lookup_field f l = None.
Proof. intros H F. induction F as [|a l Pa _ IH]; [done|]. cbn. by rewrite IH, H. Qed.

Lemma update_plain id fields s n s' : Forall plain fields -> sok s ->
  _update_supervisor_job id fields s = (Ok n, s') ->
  rewrote id (apply_all fields) s s' /\ _validate_enum_fields fields = Ok tt.
Proof.
  intros F K R. unfold _update_supervisor_job in R.
  assert (L : forall B (f : assign -> option B), (forall a, plain a -> f a = None) ->
              lookup_field f fields = None) by (intros; by apply plain_lookup).
  destruct fields as [|a l]; [inv_ok R; split; [|done]; repeat split; [|done]|].
  { unfold put, update_where. cbn. destruct (js_t s') as [jobs]. cbn. unfold set. cbn. f_equal.
    induction jobs as [|x jobs IH]; [done|]. cbn. rewrite <- IH. by destruct (is_job id x). }
  apply M_bind_ok in R as (? & s1 & E & R). apply lift_ok in E as [E ->].
  apply M_bind_ok in R as (cur & s2 & G & R). apply get_job_ok in G as [-> ->].
  unfold _derive_primary_state_for_update in R. rewrite !L in R by (by intros []). cbn [is_some orb] in R.
  apply M_bind_ok in R as (? & s3 & T & R). apply lift_ok in T as [T ->].
  apply jupdate_ok in R as (_ & -> & K'). destruct x. split; [|done]. done.
Qed.
Lemma g_update now_iso P id fields :
  Forall plain fields ->
  (forall s j, sok s -> P (js_t s) -> job_of id (js_t s) = Some j ->
     lstep auth now_iso (view j) (fold_left apply_view fields (view j))) ->
  grants auth now_iso P (_update_supervisor_job id fields).
Proof.
  intros F H s n s' K Hp R. apply update_plain in R as [(D & T & _ & K') _]; [|done..].
  split; [done|]. split; [done|]. rewrite T. apply protocol_put; [intros; apply apply_all_id|].
  intros j J. rewrite view_all. exact (H s j K Hp J).
Qed.

Lemma bind_writer_follows job_id d owner epoch r b br p eh ch :
  follows auth (bind_writer_worktree job_id d owner epoch r b br p eh ch).
Proof.
  unfold bind_writer_worktree.
  apply follows_reads; [unfold _validate_lease_owner; auto with reads | intros _].
  apply follows_reads; [unfold _validate_epoch; auto with reads | intros _].
  apply follows_reads; [auto with reads | intros _]. apply follows_reads; [auto with reads | intros _].
  apply follows_reads; [auto with reads | intros now_iso]. apply (follows_transaction auth now_iso).
  apply g_need. intros j. apply g_holder. intros _ _ _.
  apply g_reads; [unfold jquery; auto with reads | intros c]. apply g_when. intros _.
  apply g_seq; [|intros; apply g_pure; unfold get_supervisor_job, jquery; auto with reads].
  apply g_update; [by repeat constructor|]. intros; cbn. constructor.
Qed.

(** The columns a metadata write can contain. *)
Definition metadatum (a : assign) : Prop :=
  match a with
  | A_mutation_path_roots _ | A_mutation_modules _ | A_external_action_class _
  | A_integration_target _ | A_action_scope _ | A_depends_on _ | A_repo_identity _
  | A_canonical_worktree_path _ | A_branch_identity _ => True
  | _ => False
  end.
Lemma opt_field_metadatum {B} (x : option B) f l :
  opt_field x f = Ok l -> (forall v a, f v = Ok a -> metadatum a) -> Forall metadatum l.
Proof.
  unfold opt_field. destruct x as [v|]; [|intros [= <-]; constructor].
  intros R H. apply res_bind_ok in R as (a & F & [= <-]). repeat constructor. by eapply H.
Qed.
Lemma stripped_metadatum f v a : (forall x, metadatum (f x)) -> stripped f v = Ok a -> metadatum a.
Proof. intros H R. apply res_seq_ok in R as [_ [= <-]]. apply H. Qed.
Lemma metadata_fields_columns m l : metadata_fields m = Ok l -> Forall metadatum l.
Proof.
  unfold metadata_fields. intros R.
  repeat (let x := fresh "x" in let E := fresh "E" in
          apply res_bind_ok in R as (x & E & R)). injection R as <-.
  rewrite !Forall_app.
  repeat match goal with
  | H : opt_field _ _ = Ok ?l |- context [Forall metadatum ?l] =>
      apply opt_field_metadatum in H;
      [| intros ? ? G; first
         [ by eapply stripped_metadatum in G
         | apply res_seq_ok in G as [_ [= <-]]; exact I
         | apply res_bind_ok in G as (? & _ & [= <-]); exact I ] ]
  end. done.
Qed.
Lemma metadatum_plain a : metadatum a -> plain a.
Proof. by destruct a. Qed.
Lemma metadatum_unseen a : metadatum a -> unseen a.
Proof. by destruct a. Qed.

Lemma metadata_grants now_iso id j owner fields :
  Forall metadatum fields -> j_owner_instance_id j = Some owner -> lease_open j now_iso = true ->
  grants auth now_iso (fun t => job_of id t = Some j)
    (match fields with
     | [] => mret 0
     | _ => _update_supervisor_job id (fields ++ [A_facts_version (j_facts_version j + 1)%Z])
     end).
Proof.
  intros F O L. assert (G : grants auth now_iso (fun t => job_of id t = Some j)
    (_update_supervisor_job id (fields ++ [A_facts_version (j_facts_version j + 1)%Z]))).
  { apply g_update.
    - apply Forall_app. split; [|by repeat constructor]. eapply Forall_impl; [exact F|]. apply metadatum_plain.
    - intros s x _ Hp J. rewrite Hp in J. injection J as <-. rewrite fold_left_app.
      rewrite (view_unseen fields) by (eapply Forall_impl; [exact F | apply metadatum_unseen]).
      cbn -[Z.add]. apply (ls_fact auth now_iso (view j)); [by eapply owner_leased | exact L]. }
  destruct fields; [apply g_ret | exact G].
Qed.
Lemma set_job_metadata_follows job_id owner epoch m : follows auth (set_job_metadata job_id owner epoch m).
Proof.
  unfold set_job_metadata. apply follows_lift. intros fields F%metadata_fields_columns.
  apply follows_reads; [unfold _validate_lease_owner; auto with reads | intros _].
  apply follows_reads; [unfold _validate_epoch; auto with reads | intros _].
  apply follows_transaction_at. intros s r s' K R. inv_ok R.
  repeat match goal with
  | J : need_job _ _ = _ |- _ => apply need_job_ok in J as [J ->]
  | G : get_supervisor_job _ _ = _ |- _ => apply get_job_ok in G as [_ ->]
  | O : ostr_eqb _ _ = true |- _ => apply ostr_eqb_eq in O
  end.
  match goal with N : jnow_iso _ = (Ok ?n, _) |- _ =>
    apply jnow_iso_reads in N as (D & T & _); exists n; rewrite <- D, <- T end.
  eapply metadata_grants; [exact F | eassumption | eassumption | | | eassumption].
  - unfold sok. by rewrite D, T.
  - by rewrite T.
Qed.

(** *** Queueing and recovery decisions *)
Lemma enqueue_fields_view e j :
  fold_left apply_view (enqueue_fields e j) (view j) =
  mkLease (j_primary_state j) (j_terminal j) None (j_lease_epoch j) None (j_facts_version j).
Proof.
  unfold enqueue_fields. rewrite fold_left_app. cbn [fold_left apply_view]. apply view_unseen.
  rewrite !Forall_app. split; [destruct (en_resource_class e); by repeat constructor|].
  repeat split; by apply audit_field_unseen.
Qed.
Lemma enqueue_job_follows job_id e : follows (auth || en_owner_authorized e) (enqueue_job job_id e).
Proof.
  unfold enqueue_job. remember (auth || en_owner_authorized e) as au eqn:U. apply follows_reads; [auto with reads | intros now].
  apply follows_lift. intros now_iso _. apply (follows_transaction _ now_iso).
  apply g_need. intros j. apply g_when. intros _. destruct (en_owner_authorized e); [rewrite orb_true_r in U | rewrite orb_false_r in U]; subst au.
  - apply g_when. intros _. apply g_when. intros _. apply g_unless. intros B%String.eqb_eq.
    apply g_unless. intros T%ostr_eqb_eq. apply g_when. intros O. apply g_when. intros X.
    apply g_transition. intros s x K [_ J] J' _. rewrite J in J'. injection J' as <-.
    rewrite (idle_fields_view j (value PS_QUEUED) _ _ _ None)
      by (rewrite fold_left_app, enqueue_fields_view; done).
    apply (ls_reopen _ now_iso (view j)); cbn; [done | done | done | |].
    + by destruct (j_owner_instance_id j).
    + by destruct (j_lease_expires_at j).
  - destruct (_ || _) eqn:H.
    + unfold _validate_lease_owner. apply g_when. intros V.
      destruct (en_owner_instance_id e) as [o|]; [|done].
      apply g_transition. intros s x K [_ J] J' M. rewrite J in J'. injection J' as <-.
      eapply yield_step; [exact K | exact J | by left | exact M | apply enqueue_fields_view].
    + apply g_when. intros O. apply g_unless. intros Q%String.eqb_eq.
      apply g_transition. intros s x K [_ J] J' (_ & S & _). rewrite J in J'. injection J' as <-.
      rewrite (idle_fields_view j (value PS_QUEUED) _ _ _ (j_terminal j)) by apply enqueue_fields_view.
      apply (sticky_alive _ _ _ K J) in S as A.
      replace (j_terminal j) with (@None string) by (by destruct A).
      apply ls_queue; [done | | done]. cbn. by destruct (j_owner_instance_id j).
Qed.

Lemma persist_resource_follows job_id owner epoch d c h a :
  follows auth (persist_resource_decision job_id owner epoch d c h a).
Proof.
  unfold persist_resource_decision.
  apply follows_reads; [unfold _validate_lease_owner; auto with reads | intros _].
  apply follows_reads; [auto with reads | intros now_iso]. apply (follows_transaction auth now_iso).
  apply g_need. intros j. apply g_when. intros _. apply g_unless. intros _. apply g_holder. intros _ _ _.
  apply g_seq; [|intros; apply g_pure; unfold get_supervisor_job, jquery; auto with reads].
  intros s n s' K _ R. apply jupdate_ok in R as (_ & -> & K'). split; [done|]. split; [done|].
  apply (protocol_put auth now_iso); [intros; apply apply_all_id|]. intros x _. rewrite view_all. constructor.
Qed.

Lemma commit_step now_iso s id j ps st extra dec fc reason (cas : Cas) :
  sok s -> job_of id (js_t s) = Some j -> j_owner_instance_id j <> None ->
  lease_open j now_iso = true ->
  may_transition j ps st (recovery_audit dec fc reason now_iso ++ extra) false cas now_iso ->
  (exists term, fold_left apply_view extra (view j) =
     mkLease (j_primary_state j) term None (j_lease_epoch j) None (j_facts_version j) /\
     In (ps, term) [("QUEUED", j_terminal j); ("LOST", j_terminal j); ("BLOCKED", Some "BLOCKED")]) ->
  lstep auth now_iso (view j)
    (view (apply_all (transition_fields j ps st (recovery_audit dec fc reason now_iso ++ extra) true
                        now_iso) j)).
Proof.
  intros K J O L (_ & S & _) (term & E & I). apply (sticky_alive _ _ _ K J) in S as A.
  rewrite (idle_fields_view j ps st _ _ term) by (rewrite fold_left_app; exact E).
  destruct A as [A1 A2]. cbn in A1. rewrite A1 in I.
  destruct I as [[= <- <-]|[[= <- <-]|[[= <- <-]|[]]]].
  - apply ls_yield; [done | done | done | by left].
  - by apply ls_park_lost.
  - by apply ls_park_blocked.
Qed.
Lemma commit_recovery_follows job_id owner epoch fcs decs reason eligible expected process_id :
  follows auth (commit_recovery_decision job_id owner epoch fcs decs reason eligible expected process_id).
Proof.
  unfold commit_recovery_decision. apply follows_lift. intros fc _. apply follows_lift. intros dec _.
  apply follows_reads; [auto with reads | intros _]. apply follows_lift. intros _ _.
  apply follows_lift. intros code _.
  apply follows_reads; [unfold _validate_lease_owner; auto with reads | intros _].
  apply follows_reads; [auto with reads | intros now]. apply follows_lift. intros now_iso _.
  apply (follows_transaction auth now_iso). apply g_need. intros j. apply g_when. intros _.
  apply g_when. intros _. apply g_unless. intros _. apply g_holder. intros O _ L.
  assert (C : forall cas, grants auth now_iso (fun t => job_of job_id t = Some j)
    (commit_decision job_id j dec (recovery_audit dec fc code now_iso) eligible cas now_iso)).
  { intros cas. unfold commit_decision. destruct dec; try apply g_raise; apply g_transition;
      intros s x K J J' M; rewrite J in J'; injection J' as <-;
      (eapply commit_step; [exact K | exact J | by rewrite O | exact L | exact M |]);
      eexists; (split; [reflexivity | cbn; tauto]). }
  destruct process_id as [p|].
  - intros s a s' K [_ J] R. inv_ok R.
    repeat match goal with
    | H : (_ ≫= _) _ = (Ok _, _) |- _ => progress inv_ok H
    | H : jquery _ _ = _ |- _ => apply gets_ok in H as [? ->]
    | H : jinsert _ _ _ = _ |- _ => apply jinsert_ok in H as [-> ?]
    end.
    lazymatch goal with H : commit_decision _ _ _ _ _ _ _ _ = (Ok a, s') |- _ => rename H into D end.
    match type of D with _ ?s1 = _ => assert (K1 : sok s1) by assumption end.
    apply C in D as (E & K' & S); [|exact K1 | exact J]. split; [exact E|]. split; [exact K' | exact S].
  - eapply g_mono; [|apply g_reads; [apply reads_ret | intros _; apply C]]. by intros t [_ ?].
Qed.
End Operations.
