(* ===== verification/JobInv.v ===== *)
(** * JobInv: the well-typed job row, and what every lease command keeps.

    The columns queue_reason, wait_kind and error_class have no CHECK in the schema:
    that they always hold a member of their enum, and that status is always one the
    primary state projects to, is kept by the code alone.  [stepwise] lifts a
    preorder on states through the programs of the store, so one pass over an
    operation gives its row types and its clock. *)
From S2P Require Import Prelude PyVal Models Timestamps JobState Concurrency Recovery CoreStore JobRows Worktree Leases JobSteps LeaseSpec.
#[local] Open Scope string_scope.

(** ** Programs as steps of a preorder *)
Section Stepwise.
Context (R : JSt -> JSt -> Prop) `{HR : !PreOrder R}.

Definition stepwise {A} (m : jcmd A) : Prop := forall s r s', m s = (r, s') -> R s s'.
Lemma sw_reads {A} (m : jcmd A) : (forall s s', quiet s s' -> R s s') -> reads m -> stepwise m.
Proof. intros Q Hm s r s' E. by eapply Q, Hm. Qed.
Lemma sw_ret {A} (a : A) : stepwise (mret a).
Proof. intros s r s' [= _ <-]. reflexivity. Qed.
Lemma sw_gets {A} (f : JSt -> A) : stepwise (gets f).
Proof. intros s r s' [= _ <-]. reflexivity. Qed.
Lemma sw_lift {A} (x : res exc A) : stepwise (lift x).
Proof. intros s r s' [= _ <-]. reflexivity. Qed.
Lemma sw_raise {A} e : stepwise (raise (A := A) e).
Proof. intros s r s' [= _ <-]. reflexivity. Qed.
Lemma sw_bind {A B} (m : jcmd A) (k : A -> jcmd B) :
  stepwise m -> (forall a, stepwise (k a)) -> stepwise (x ← m; k x).
Proof.
  intros Hm Hk s r s'. unfold mbind, M_bind. destruct (m s) as [[a|e] s1] eqn:E; apply Hm in E.
  - intros K%Hk. by etrans.
  - by intros [= _ <-].
Qed.
Lemma sw_when b e : stepwise (raise_when b e).
Proof. destruct b; [apply sw_raise | apply sw_ret]. Qed.
Lemma sw_unless b e : stepwise (raise_unless b e).
Proof. destruct b; [apply sw_ret | apply sw_raise]. Qed.
Lemma sw_some_or {A} (o : option A) e : stepwise (some_or o e).
Proof. destruct o; [apply sw_ret | apply sw_raise]. Qed.
End Stepwise.
Create HintDb stepwise.
#[export] Hint Resolve sw_ret sw_gets sw_lift sw_raise sw_bind sw_when sw_unless sw_some_or : stepwise.

(** ** The type of a row *)
Definition projects (primary_state status : string) : bool :=
  match _PRIMARY_STATE_STATUSES primary_state with Some l => str_in status l | None => false end.
Definition enums_ok (j : Job) : bool :=
  str_in (j_queue_reason j) (enum_values QueueReason) && str_in (j_wait_kind j) (enum_values WaitKind)
  && str_in (j_error_class j) (enum_values ErrorClass)
  && str_in (j_resource_class j) (enum_values ResourceClass).
Definition derived (j : Job) : bool :=
  String.eqb (j_primary_state j)
    (value (derive_primary_state (j_status j) (j_terminal j) (Some (j_recovery_state j))
              (Some (j_wait_kind j)) (Some (j_queue_reason j)))).
(** Either a lease transition wrote the pair of states, or a projection derived it. *)
Definition job_typed (j : Job) : bool :=
  enums_ok j && (projects (j_primary_state j) (j_status j) || derived j).
Definition rows_typed (l : list Job) : Prop :=
  uniq j_id l = true /\ Forall (fun j => job_typed j = true) l.
Definition typed (s : JSt) : Prop := rows_typed (jt_jobs (js_t s)).

(** The clock never goes back and the rows stay typed. *)
Definition ticks (s : JSt) : nat := st_ticks (js_core s).
Definition sound (s s' : JSt) : Prop := ticks s <= ticks s' /\ (typed s -> typed s').
#[export] Instance sound_preorder : PreOrder sound.
Proof.
  split; [by split|]. intros s1 s2 s3 [A1 B1] [A2 B2]. split; [|auto]. etrans; eassumption.
Qed.

Lemma sound_tables s s' : ticks s <= ticks s' -> js_t s' = js_t s -> sound s s'.
Proof. intros T E. split; [done|]. unfold typed. by rewrite E. Qed.
Lemma sw_modify_fence f : stepwise sound (modify (fun s => s <| js_fence := f |>)).
Proof. intros s r s' [= _ <-]. by apply sound_tables. Qed.

(** *** Assignments *)
Lemma enums_assign a j : _validate_enum_field a = Ok tt -> enums_ok j = true ->
  enums_ok (apply_assign a j) = true.
Proof.
  unfold enums_ok. rewrite !andb_true_iff. intros V [[[Q W] E] C].
  destruct a; cbn in *; try apply res_unless_ok in V; tauto.
Qed.
Lemma enums_all fields j : _validate_enum_fields fields = Ok tt -> enums_ok j = true ->
  enums_ok (apply_all fields j) = true.
Proof.
  unfold _validate_enum_fields. rewrite res_for_ok. intros V. revert j. unfold apply_all.
  induction V as [|a l Va _ IH]; intros j K; [done|]. cbn. apply IH. by apply enums_assign.
Qed.
(** Only validated assignments of other columns follow the pair of states. *)
Lemma transition_typed j x ps st fields bump now_iso :
  _validate_enum_fields fields = Ok tt -> check_projection ps st = Ok tt ->
  job_typed x = true ->
  job_typed (apply_all (transition_fields j ps st fields bump now_iso) x) = true.
Proof.
  unfold job_typed. rewrite !andb_true_iff. intros V P [E _]. split.
  - apply enums_all; [|done]. unfold transition_fields, _validate_enum_fields in *.
    rewrite res_for_ok in *. apply Forall_app. split; [done|]. destruct bump; by repeat constructor.
  - unfold transition_fields. rewrite apply_all_app. set (y := apply_all fields x).
    unfold check_projection in P. unfold projects. apply orb_true_iff. left.
    destruct bump; cbn -[str_in]; (destruct (_PRIMARY_STATE_STATUSES ps); [|done]); by apply res_unless_ok in P.
Qed.

(** *** Statements *)
Lemma uniq_update {A K} `{EqDecision K} (key : A -> K) p f l : (forall x, key (f x) = key x) ->
  uniq key (update_where p f l) = uniq key l.
Proof.
  intros H. unfold uniq, update_where. rewrite map_map.
  replace (map (fun x => key (if p x then f x else x)) l) with (map key l); [done|].
  apply map_ext. intros x. by destruct (p x).
Qed.
Lemma typed_update p f l : (forall j, j_id (f j) = j_id j) ->
  (forall j, In j l -> p j = true -> job_typed j = true -> job_typed (f j) = true) ->
  rows_typed l -> rows_typed (update_where p f l).
Proof.
  intros K H [U F]. split; [by rewrite uniq_update|]. unfold update_where. apply Forall_map.
  rewrite List.Forall_forall in *. intros j I. cbn. destruct (p j) eqn:E; auto.
Qed.
Lemma jwrite_cases f s r s' : jwrite f s = (r, s') -> s' = s \/ s' = s <| js_t := f (js_t s) |>.
Proof. unfold jwrite. destruct (jt_ok _ _); intros [= _ <-]; auto. Qed.
Lemma jupdate_cases {A} (tbl : JT -> list A) `{Setter JT (list A) tbl} p f s r s' :
  jupdate tbl p f s = (r, s') ->
  s' = s \/ s' = s <| js_t := set tbl (update_where p f) (js_t s) |>.
Proof.
  unfold jupdate, jquery, mbind, M_bind, gets. destruct (jwrite _ s) as [[u|e] s1] eqn:E;
    apply jwrite_cases in E; intros [= _ <-]; exact E.
Qed.
Lemma sw_jupdate_jobs p f : (forall j, j_id (f j) = j_id j) ->
  (forall j, p j = true -> job_typed j = true -> job_typed (f j) = true) ->
  stepwise sound (jupdate jt_jobs p f).
Proof.
  intros K H s r s' E. apply jupdate_cases in E as [->| ->]; [reflexivity|]. split; [done|].
  intros T. apply typed_update; auto.
Qed.
Section Store.
Context {env : Env}.

Lemma jnow_sound : stepwise sound jnow.
Proof. intros s r s'. unfold jnow, on_core, now. intros [= <- <-]. split; [cbn; unfold ticks; cbn; lia | done]. Qed.
Lemma jnow_iso_sound : stepwise sound jnow_iso.
Proof.
  intros s r s'. unfold jnow_iso, on_core, now_iso, now, mbind, M_bind, lift. intros [= <- <-].
  split; [cbn; unfold ticks; cbn; lia | done].
Qed.
Hint Resolve jnow_sound jnow_iso_sound sound_preorder : stepwise.
Hint Extern 1 (PreOrder _) => exact _ : stepwise.

Lemma fence_sound : stepwise sound _check_action_fence.
Proof.
  unfold _check_action_fence. apply sw_bind; [exact _ | auto with stepwise |]. intros [f|]; [|auto with stepwise].
  unfold _fence_action. destruct (fe_owner_instance_id f); [|auto with stepwise].
  apply sw_bind; [exact _ | apply sw_gets; exact _ | intros o].
  apply sw_bind; [exact _ | apply sw_some_or; exact _ | intros x].
  do 2 (apply sw_bind; [exact _ | apply sw_unless; exact _ | intros _]).
  apply sw_bind; [exact _ | | intros b].
  { unfold expired_now. destruct (j_lease_expires_at x); auto with stepwise. }
  auto with stepwise.
Qed.
Lemma sw_transaction {A} (m : jcmd A) : stepwise sound m -> stepwise sound (jtransaction m).
Proof.
  intros Hm s r s'. unfold jtransaction, rollback.
  destruct ((_ ← _check_action_fence; m) s) as [[b|e] s2] eqn:E;
    apply (sw_bind sound) in E; [|auto using fence_sound..]; intros [= _ <-]; [done|].
  destruct E as [T _]. by apply sound_tables.
Qed.

Lemma sw_lift_bind {A B} (x : res exc A) (k : A -> jcmd B) :
  (forall a, x = Ok a -> stepwise sound (k a)) -> stepwise sound (a ← lift x; k a).
Proof.
  intros Hk s r s'. destruct x as [a|e]; [by apply Hk|]. intros [= _ <-]. reflexivity.
Qed.
Lemma sw_transition id ps st fields oa bump cas now_iso :
  stepwise sound (_transition_job id ps st fields oa bump cas now_iso).
Proof.
  unfold _transition_job. apply sw_lift_bind. intros [] V.
  apply sw_bind; [exact _ | unfold need_job, get_supervisor_job, jquery; auto with stepwise | intros j].
  apply sw_lift_bind. intros _ _. apply sw_lift_bind. intros _ _. apply sw_lift_bind. intros [] P.
  apply sw_bind; [exact _ | | unfold get_supervisor_job, jquery; auto with stepwise].
  apply sw_jupdate_jobs; [intros; apply apply_all_id|]. intros x _ T.
  by apply transition_typed.
Qed.


(** *** The generic update *)
(** The value an assignment list leaves in a column. *)
Lemma lookup_apply {B} (proj : Job -> B) (f : assign -> option B) fields j :
  (forall a x, proj (apply_assign a x) = default (proj x) (f a)) ->
  proj (apply_all fields j) = default (proj j) (lookup_field f fields).
Proof.
  intros H. unfold apply_all. revert j. induction fields as [|a l IH]; intros j; [done|].
  cbn [fold_left lookup_field]. rewrite IH, H. destruct (lookup_field f l); done.
Qed.
Lemma by_id_in {A} (key : A -> string) l x : uniq key l = true -> In x l ->
  by_id key (key x) l = Some x.
Proof.
  unfold uniq, by_id. rewrite bool_decide_eq_true. induction l as [|y l IH]; [done|].
  intros [N U]%NoDup_cons [->|I]; cbn; [by rewrite String.eqb_refl|].
  destruct (String.eqb_spec (key y) (key x)) as [E|_]; [|by apply IH].
  exfalso. apply N. rewrite E. apply list_elem_of_In. by apply in_map.
Qed.
Lemma f_status_ok a x : j_status (apply_assign a x) = default (j_status x) (f_status a).
Proof. by destruct a. Qed.
Lemma f_terminal_ok a x : j_terminal (apply_assign a x) = default (j_terminal x) (f_terminal a).
Proof. by destruct a. Qed.
Lemma f_recovery_ok a x : j_recovery_state (apply_assign a x) = default (j_recovery_state x) (f_recovery_state a).
Proof. by destruct a. Qed.
Lemma f_wait_ok a x : j_wait_kind (apply_assign a x) = default (j_wait_kind x) (f_wait_kind a).
Proof. by destruct a. Qed.
Lemma f_queue_ok a x : j_queue_reason (apply_assign a x) = default (j_queue_reason x) (f_queue_reason a).
Proof. by destruct a. Qed.
Lemma f_primary_ok a x : j_primary_state (apply_assign a x) = default (j_primary_state x) (f_primary_state a).
Proof. by destruct a. Qed.

Lemma update_derived j fields ps : _derive_primary_state_for_update (Some j) fields = Some ps ->
  derived (apply_all (fields ++ [A_primary_state ps]) j) = true.
Proof.
  unfold _derive_primary_state_for_update. destruct (_ || _); [|done]. cbn. intros [= <-].
  rewrite apply_all_app. unfold derived. cbn.
  rewrite (lookup_apply j_status f_status), (lookup_apply j_terminal f_terminal),
    (lookup_apply j_recovery_state f_recovery_state), (lookup_apply j_wait_kind f_wait_kind),
    (lookup_apply j_queue_reason f_queue_reason)
    by auto using f_status_ok, f_terminal_ok, f_recovery_ok, f_wait_ok, f_queue_ok.
  apply String.eqb_refl.
Qed.
Lemma update_underived j fields : _derive_primary_state_for_update (Some j) fields = None ->
  lookup_field f_primary_state fields = None ->
  let x := apply_all fields j in
  j_primary_state x = j_primary_state j /\ j_status x = j_status j /\ derived x = derived j.
Proof.
  unfold _derive_primary_state_for_update. destruct (_ || _) eqn:E; [done|]. intros _ P.
  rewrite !orb_false_iff in E. destruct E as [[[[E1 E2] E3] E4] E5].
  repeat match goal with H : is_some ?o = false |- _ => destruct o eqn:?; [done|]; clear H end.
  cbv zeta. unfold derived.
  rewrite (lookup_apply j_status f_status), (lookup_apply j_terminal f_terminal),
    (lookup_apply j_recovery_state f_recovery_state), (lookup_apply j_wait_kind f_wait_kind),
    (lookup_apply j_queue_reason f_queue_reason), (lookup_apply j_primary_state f_primary_state)
    by auto using f_status_ok, f_terminal_ok, f_recovery_ok, f_wait_ok, f_queue_ok, f_primary_ok.
  repeat match goal with H : lookup_field _ _ = None |- _ => rewrite H; clear H end. done.
Qed.
Lemma update_typed j fields : _validate_enum_fields fields = Ok tt -> job_typed j = true ->
  lookup_field f_primary_state fields = None ->
  job_typed (apply_all match _derive_primary_state_for_update (Some j) fields with
                       | Some ps => (fields ++ [A_primary_state ps])%list
                       | None => fields
                       end j) = true.
Proof.
  unfold job_typed. rewrite !andb_true_iff. intros V [E P] L.
  destruct (_derive_primary_state_for_update _ _) as [ps|] eqn:D.
  - split; [|apply orb_true_iff; right; by apply update_derived]. apply enums_all; [|done].
    unfold _validate_enum_fields in *. rewrite res_for_ok in *. apply Forall_app. split; [done|].
    by repeat constructor.
  - split; [by apply enums_all|]. destruct (update_underived j fields D L) as (-> & -> & ->). done.
Qed.
Lemma sw_update id fields : lookup_field f_primary_state fields = None ->
  stepwise sound (_update_supervisor_job id fields).
Proof.
  intros L. unfold _update_supervisor_job. destruct fields as [|a l]; [auto with stepwise|].
  remember (a :: l) as fields. rewrite L. apply sw_lift_bind. intros [] V s r s' R.
  unfold mbind at 1, M_bind at 1 in R. cbn [get_supervisor_job jquery gets] in R.
  unfold mbind, M_bind, lift in R. destruct (match job_of id (js_t s) with Some _ => _ | None => _ end); [|by injection R as _ <-].
  apply jupdate_cases in R as [->| ->]; [reflexivity|]. split; [done|]. intros [U T].
  apply typed_update; [intros; apply apply_all_id | | done]. intros j I J%String.eqb_eq K.
  pose proof (by_id_in _ _ _ U I) as F. rewrite J in F. unfold job_of. rewrite F.
  by apply update_typed.
Qed.

(** ** Every lease command *)
Lemma sw_insert_marker x : stepwise sound (jinsert jt_markers x).
Proof. intros s r s' E. apply jwrite_cases in E as [->| ->]; [reflexivity | by split]. Qed.
Lemma plain_typed fields j : Forall plain fields -> _validate_enum_fields fields = Ok tt ->
  job_typed j = true -> job_typed (apply_all fields j) = true.
Proof.
  intros F V. assert (L : forall B (f : assign -> option B), (forall a, plain a -> f a = None) ->
    lookup_field f fields = None) by (intros; by apply plain_lookup).
  intros T. pose proof (update_typed j fields V T) as U.
  unfold _derive_primary_state_for_update in U. rewrite !L in U by (by intros []). by apply U.
Qed.
Lemma sw_plain_rows p f fields : (forall j, f j = apply_all (fields j) j) ->
  (forall j, Forall plain (fields j)) -> (forall j, _validate_enum_fields (fields j) = Ok tt) ->
  stepwise sound (jupdate jt_jobs p f).
Proof.
  intros E F V. apply sw_jupdate_jobs; intros j; rewrite E; [apply apply_all_id|]. intros _.
  by apply plain_typed.
Qed.
End Store.
#[export] Hint Resolve jnow_sound jnow_iso_sound sound_preorder : stepwise.
#[export] Hint Extern 1 (PreOrder _) => exact _ : stepwise.

Ltac sw_step :=
  first
    [ solve [auto with stepwise]
    | apply sw_transaction | apply sw_transition | apply sw_insert_marker
    | eapply sw_plain_rows; [intros; reflexivity | intros; cbn; by repeat constructor | done]
    | apply sw_lift_bind; intros ? ?
    | apply sw_bind; [exact _ | | intros ?]
    | case_match ].
Ltac sw := repeat sw_step.

Section Ops.
Context {env : Env}.

Lemma need_sound id : stepwise sound (need_job id).
Proof. unfold need_job, get_supervisor_job, jquery. sw. Qed.
Lemma get_sound id : stepwise sound (get_supervisor_job id).
Proof. unfold get_supervisor_job, jquery. sw. Qed.
Lemma jquery_sound {A} (f : JT -> A) : stepwise sound (jquery f).
Proof. unfold jquery. sw. Qed.
Lemma holder_sound e j o ep n : stepwise sound (check_holder e j o ep n).
Proof. unfold check_holder. sw. Qed.
Lemma owner_sound o : stepwise sound (_validate_lease_owner o).
Proof. unfold _validate_lease_owner. sw. Qed.
Lemma ttl_sound t : stepwise sound (_validate_ttl t).
Proof. unfold _validate_ttl. sw. Qed.
Hint Resolve need_sound get_sound jquery_sound holder_sound owner_sound ttl_sound : stepwise.

Lemma claim_locked_sound id o t now : stepwise sound (_do_claim_locked id o t now).
Proof. unfold _do_claim_locked. sw. Qed.
Lemma block_sound j n : stepwise sound (_block_missing_dependency j n).
Proof. unfold _block_missing_dependency. sw. Qed.
Hint Resolve claim_locked_sound block_sound : stepwise.
Lemma claim_loop_sound o t now n rows : stepwise sound (claim_loop o t now n rows).
Proof. induction rows as [|j rows IH]; cbn [claim_loop]; sw. Qed.
Hint Resolve claim_loop_sound : stepwise.
Lemma quarantine_sound id ps st f e n : stepwise sound (quarantine id ps st f e n).
Proof. unfold quarantine. sw. Qed.
Lemma commit_decision_sound id j d a n c t : stepwise sound (commit_decision id j d a n c t).
Proof. unfold commit_decision. sw. Qed.
Hint Resolve quarantine_sound commit_decision_sound : stepwise.

Lemma claim_job_sound id o t : stepwise sound (claim_job id o t).
Proof. unfold claim_job. sw. Qed.
Lemma claim_next_sound o t : stepwise sound (claim_next_job o t).
Proof. unfold claim_next_job. sw. Qed.
Lemma renew_sound id o e t : stepwise sound (renew_lease id o e t).
Proof. unfold renew_lease. sw. Qed.
Lemma release_sound id o e : stepwise sound (release_lease id o e).
Proof. unfold release_lease. sw. Qed.
Lemma clear_sound id o e : stepwise sound (clear_lease id o e).
Proof. unfold clear_lease. sw. Qed.
Lemma lost_sound id c x : stepwise sound (quarantine_lost id c x).
Proof. unfold quarantine_lost. sw. Qed.
Lemma blocked_sound id c k x : stepwise sound (quarantine_blocked id c k x).
Proof. unfold quarantine_blocked. sw. Qed.
Lemma takeover_sound id x o t a v : stepwise sound (recover_takeover_job id x o t a v).
Proof. unfold recover_takeover_job, list_supervisor_actions. sw. Qed.
Lemma enqueue_sound id e : stepwise sound (enqueue_job id e).
Proof. unfold enqueue_job. sw. Qed.
Lemma persist_sound id o e d r h a : stepwise sound (persist_resource_decision id o e d r h a).
Proof. unfold persist_resource_decision. sw. Qed.
Lemma commit_recovery_sound id o e f d r n x p : stepwise sound (commit_recovery_decision id o e f d r n x p).
Proof. unfold commit_recovery_decision. sw. Qed.
Lemma bind_sound id d o e r b br p eh ch : stepwise sound (bind_writer_worktree id d o e r b br p eh ch).
Proof.
  unfold bind_writer_worktree, _validate_epoch. repeat first [apply sw_update; reflexivity | sw_step].
Qed.
Lemma metadata_sound id o e m : stepwise sound (set_job_metadata id o e m).
Proof.
  unfold set_job_metadata, _validate_epoch. apply sw_lift_bind. intros fields F%metadata_fields_columns.
  assert (L : forall v, lookup_field f_primary_state (fields ++ [A_facts_version v]) = None).
  { intros v. apply plain_lookup; [by intros []|]. apply Forall_app. split; [|by repeat constructor].
    eapply Forall_impl; [exact F|]. apply metadatum_plain. }
  repeat first [apply sw_update; apply L | sw_step].
Qed.
End Ops.
#[export] Hint Resolve need_sound get_sound jquery_sound holder_sound owner_sound ttl_sound claim_locked_sound
  block_sound claim_loop_sound quarantine_sound commit_decision_sound : stepwise.
#[export] Hint Resolve claim_job_sound claim_next_sound renew_sound release_sound clear_sound lost_sound
  blocked_sound takeover_sound enqueue_sound persist_sound commit_recovery_sound bind_sound
  metadata_sound : stepwise.
