(* ===== verification/Outbox.v ===== *)
(** * Outbox: the owner notifications (src/argent_core/notifications.py and the
    notification outbox of store.py).

    The pure part: deduplication keys, payload, message text, the mapping of close
    reasons, the backoff.  The delivery worker claims one due row in a transaction of
    its own connection, sends it and completes, fails or discards it by a compare and
    set on its claim token; the transport's receipt is an input of the model. *)
From S2P Require Import Prelude PyVal Models Json Canonical Timestamps JobState Concurrency Recovery CoreStore JobRows Worktree Leases.
#[local] Open Scope string_scope.

Inductive NotificationType : Type :=
| NT_DONE
| NT_FAILED
| NT_BLOCKED
| NT_OWNER_APPROVAL_REQUIRED.
Definition NotificationType_value (x : NotificationType) : string :=
  match x with
  | NT_DONE => "DONE"
  | NT_FAILED => "FAILED"
  | NT_BLOCKED => "BLOCKED"
  | NT_OWNER_APPROVAL_REQUIRED => "OWNER_APPROVAL_REQUIRED"
  end.
#[export] Instance NotificationType_eq_dec : EqDecision NotificationType.
Proof. solve_decision. Defined.
#[export] Program Instance NotificationType_enum : PyEnum NotificationType := {|
  members := [NT_DONE; NT_FAILED; NT_BLOCKED; NT_OWNER_APPROVAL_REQUIRED];
  value := NotificationType_value |}.
Next Obligation. solve_complete. Qed.
Next Obligation. solve_value_inj. Qed.

Inductive NotificationStatus : Type :=
| NS_PENDING
| NS_SENDING
| NS_SENT
| NS_FAILED
| NS_DISCARDED.
Definition NotificationStatus_value (x : NotificationStatus) : string :=
  match x with
  | NS_PENDING => "PENDING"
  | NS_SENDING => "SENDING"
  | NS_SENT => "SENT"
  | NS_FAILED => "FAILED"
  | NS_DISCARDED => "DISCARDED"
  end.
#[export] Instance NotificationStatus_eq_dec : EqDecision NotificationStatus.
Proof. solve_decision. Defined.
#[export] Program Instance NotificationStatus_enum : PyEnum NotificationStatus := {|
  members := [NS_PENDING; NS_SENDING; NS_SENT; NS_FAILED; NS_DISCARDED];
  value := NotificationStatus_value |}.
Next Obligation. solve_complete. Qed.
Next Obligation. solve_value_inj. Qed.

Definition NOTIFICATION_MAX_ATTEMPTS : Z := 5.
Definition NOTIFICATION_BACKOFF_INITIAL_SECONDS : Z := 5.
Definition NOTIFICATION_BACKOFF_MULTIPLIER : Z := 2.
Definition NOTIFICATION_BACKOFF_MAX_SECONDS : Z := 300.
Definition NOTIFICATION_CLAIM_LEASE_SECONDS : Z := 30.
Definition ALLOWED_REASON_CODES : list string :=
  ["TASK_DONE"; "TASK_FAILED"; "TASK_CANCELLED"; "MAX_ATTEMPTS"; "PERSISTENT_ERROR"; "TASK_BLOCKED";
   "GATE_REJECTED"; "SPAWN_UNRESOLVABLE"; "AMBIGUOUS_WRITER"; "WAITING_GATE"].
Definition TEMPLATE_VERSION : string := "v1".
Definition _dedup_ref (dedup_key : string) : string := String.substring 0 16 dedup_key.

(** ** Keys and hashes *)
(** supervisor.py [_canonical_json] and [_sha256]. *)
Definition _canonical_json (v : pyval) : res exc string := json_dumps_default_str v.
Definition event_ref_close (job_id terminal : string) : string :=
  "supervisor:" ++ job_id ++ ":close:" ++ terminal.
Definition event_ref_persistent_error (job_id : string) : string :=
  "supervisor:" ++ job_id ++ ":persistent-error:v1".
Definition event_ref_gate (job_id : string) (gate_id : option string) : string :=
  "supervisor:" ++ job_id ++ ":present-gate:" ++ py_str (ostr_val gate_id).
Definition normal_dedup_key (job_id : string) (t : NotificationType) (event_ref : string)
    (event_version : Z) : res exc string :=
  c ← _canonical_json (PList [PStr "argent-notification-v1"; PStr job_id; PStr (value t);
                              PStr event_ref; PInt event_version]);
  Ok (sha256 c).
Definition gate_dedup_key (job_id : string) (gate_id binding_hash : option string) (event_version : Z)
  : res exc string :=
  c ← _canonical_json (PList [PStr "argent-notification-v1"; PStr job_id; PStr "OWNER_APPROVAL_REQUIRED";
                              ostr_val gate_id; ostr_val binding_hash; PInt event_version]);
  Ok (sha256 c).
Definition outbox_id (dedup_key : string) : string := "notification:" ++ dedup_key.
Definition payload_hash (payload : pyval) : res exc string :=
  c ← _canonical_json payload; Ok (sha256 c).
Definition scope_ref (binding_hash : string) : string := "sha256:" ++ String.substring 0 16 binding_hash.

Definition opt_entry (k : string) (v : option string) : pydict :=
  match v with None => [] | Some s => [(KStr k, PStr s)] end.
Definition build_payload (notification_type job_id task_id event_ref event_at reason_code : string)
    (gate_id scope : option string) : res exc pydict :=
  _ ← res_unless (str_in reason_code ALLOWED_REASON_CODES) ValueError;
  Ok ([(KStr "template_version", PStr TEMPLATE_VERSION); (KStr "notification_type", PStr notification_type);
       (KStr "supervisor_job_id", PStr job_id); (KStr "task_id", PStr task_id);
       (KStr "event_ref", PStr event_ref); (KStr "event_at", PStr event_at);
       (KStr "reason_code", PStr reason_code)]
      ++ opt_entry "gate_id" gate_id ++ opt_entry "scope_ref" scope)%list.

(** ** Message text *)
Definition newline : string := String (ascii_of_nat 10) EmptyString.
Definition join_lines (l : list string) : string := String.concat newline l.
Definition render_message (t : NotificationType) (job_id task_id event_at reason_code : pyval)
    (dedup_key : string) (gate_id scope : pyval) : string :=
  let ref := _dedup_ref dedup_key in
  join_lines
    match t with
    | NT_DONE => ["ARGENT · DONE"; "Job: " ++ py_str job_id; "Task: " ++ py_str task_id;
                  "Time: " ++ py_str event_at; "Ref: " ++ ref]
    | NT_FAILED => ["ARGENT · FAILED"; "Job: " ++ py_str job_id; "Task: " ++ py_str task_id;
                    "Reason: " ++ py_str reason_code; "Time: " ++ py_str event_at; "Ref: " ++ ref]
    | NT_BLOCKED => ["ARGENT · BLOCKED"; "Job: " ++ py_str job_id; "Task: " ++ py_str task_id;
                     "Reason: " ++ py_str reason_code; "Time: " ++ py_str event_at; "Ref: " ++ ref]
    | NT_OWNER_APPROVAL_REQUIRED =>
        ["ARGENT · OWNER APPROVAL REQUIRED"; "Job: " ++ py_str job_id; "Task: " ++ py_str task_id;
         "Gate: " ++ py_str gate_id; "Scope ref: " ++ py_str scope; "Time: " ++ py_str event_at;
         "Ref: " ++ ref; "Informational only. Use the authenticated owner-control path."]
    end.

(** ** Reasons *)
Definition resolve_close_outcome (terminal reason : string) (task_state : option string)
    (gate_rejected : bool) : option (NotificationType * string) :=
  if String.eqb terminal "DONE" then Some (NT_DONE, "TASK_DONE")
  else if String.eqb terminal "FAILED" then
    if String.eqb reason "max_attempts" then Some (NT_FAILED, "MAX_ATTEMPTS")
    else if ostr_eqb task_state (Some "CANCELLED") then Some (NT_FAILED, "TASK_CANCELLED")
    else Some (NT_FAILED, "TASK_FAILED")
  else if String.eqb terminal "BLOCKED" then
    if gate_rejected then Some (NT_BLOCKED, "GATE_REJECTED")
    else if String.eqb reason "spawn_unresolvable" then Some (NT_BLOCKED, "SPAWN_UNRESOLVABLE")
    else if String.eqb reason "ambiguous_writer" then Some (NT_BLOCKED, "AMBIGUOUS_WRITER")
    else Some (NT_BLOCKED, "TASK_BLOCKED")
  else None.
Definition persistent_error_outcome : NotificationType * string := (NT_FAILED, "PERSISTENT_ERROR").
Definition waiting_gate_outcome : NotificationType * string := (NT_OWNER_APPROVAL_REQUIRED, "WAITING_GATE").

Definition ERROR_PAYLOAD_HASH_MISMATCH : string := "PAYLOAD_HASH_MISMATCH".
Definition ERROR_ATTEMPTS_EXHAUSTED : string := "ATTEMPTS_EXHAUSTED".
Definition ERROR_CONFIG : string := "CONFIG_ERROR".
Definition ERROR_TRANSPORT : string := "TRANSPORT_ERROR".
Definition ALLOWED_DELIVERY_ERROR_CODES : list string :=
  ["NETWORK_ERROR"; "TIMEOUT"; "RATE_LIMITED"; "HTTP_5XX"; "HTTP_4XX"; "AUTH_ERROR"; "POLICY_ERROR";
   ERROR_CONFIG; ERROR_PAYLOAD_HASH_MISMATCH; ERROR_ATTEMPTS_EXHAUSTED; ERROR_TRANSPORT].
Definition _normalize_error_code (code : option string) : string :=
  match code with
  | Some c => if str_in c ALLOWED_DELIVERY_ERROR_CODES then c else ERROR_TRANSPORT
  | None => ERROR_TRANSPORT
  end.

(** [2 ** (attempt_count - 1)] is an integer for a claimed row ([attempt_count >= 1]). *)
Definition notification_backoff_seconds (attempt_count : Z) (retry_after_seconds : option Z) : Z :=
  let base := Z.min (NOTIFICATION_BACKOFF_INITIAL_SECONDS
                     * NOTIFICATION_BACKOFF_MULTIPLIER ^ (attempt_count - 1))
                NOTIFICATION_BACKOFF_MAX_SECONDS in
  match retry_after_seconds with
  | Some r => if (0 <? r)%Z then
                Z.max base (Z.min (Z.max r NOTIFICATION_BACKOFF_INITIAL_SECONDS)
                                  NOTIFICATION_BACKOFF_MAX_SECONDS)
              else base
  | None => base
  end.

Record TransportReceipt : Type := mkTransportReceipt {
  tr_accepted : bool;
  tr_retryable : bool;
  tr_error_code : option string;
  tr_retry_after_seconds : option Z
}.
Record NotificationEnvelope : Type := mkNotificationEnvelope {
  ne_outbox_id : string;
  ne_dedup_key : string;
  ne_payload_hash : string;
  ne_notification_type : NotificationType;
  ne_message_text : string
}.
Record DeliveryPassResult : Type := mkDeliveryPassResult {
  dp_claimed : bool;
  dp_outbox_id : option string;
  dp_outcome : option string;
  dp_error_code : option string;
  dp_retry_after_seconds : option Z
}.
Definition pass_result (id outcome : string) (code : option string) : DeliveryPassResult :=
  mkDeliveryPassResult true (Some id) (Some outcome) code None.

(** ** The outbox *)
(** Due: PENDING, FAILED with its retry time reached, SENDING with its claim expired. *)
Definition due (now_iso cutoff : string) (n : Notification) : bool :=
  String.eqb (n_status n) "PENDING"
  || String.eqb (n_status n) "FAILED"
     && match n_next_attempt_at n with Some t => str_leb t now_iso | None => false end
  || String.eqb (n_status n) "SENDING"
     && match n_claimed_at n with Some t => str_leb t cutoff | None => false end.
(** [ORDER BY created_at, rowid LIMIT 1]. *)
Definition earlier (o : option Notification) (n : Notification) : option Notification :=
  match o with
  | Some m => if str_ltb (n_created_at n) (n_created_at m) then Some n else Some m
  | None => Some n
  end.
Definition oldest (l : list Notification) : option Notification := fold_left earlier l None.
Definition open_row (id : string) (n : Notification) : bool :=
  String.eqb (n_id n) id && str_in (n_status n) ["PENDING"; "FAILED"; "SENDING"].
Definition claimed_row (id token : string) (n : Notification) : bool :=
  String.eqb (n_id n) id && String.eqb (n_status n) "SENDING" && ostr_eqb (n_claim_token n) (Some token).

Definition claim_update (token now_iso : string) (n : Notification) : Notification :=
  n <| n_status := "SENDING" |> <| n_claim_token := Some token |> <| n_claimed_at := Some now_iso |>
    <| n_last_attempt_at := Some now_iso |> <| n_attempt_count ::= Z.succ |>
    <| n_next_attempt_at := None |> <| n_updated_at := now_iso |>.
Definition sent_update (now_iso : string) (n : Notification) : Notification :=
  n <| n_status := "SENT" |> <| n_sent_at := Some now_iso |> <| n_claim_token := None |>
    <| n_claimed_at := None |> <| n_next_attempt_at := None |> <| n_last_error_code := None |>
    <| n_last_attempt_at := Some now_iso |> <| n_updated_at := now_iso |>.
Definition failed_update (next_attempt_at error_code now_iso : string) (n : Notification) : Notification :=
  n <| n_status := "FAILED" |> <| n_claim_token := None |> <| n_claimed_at := None |>
    <| n_next_attempt_at := Some next_attempt_at |> <| n_last_error_code := Some error_code |>
    <| n_updated_at := now_iso |>.
Definition discard_update (error_code now_iso : string) (n : Notification) : Notification :=
  n <| n_status := "DISCARDED" |> <| n_claim_token := None |> <| n_claimed_at := None |>
    <| n_next_attempt_at := None |> <| n_last_error_code := Some error_code |> <| n_updated_at := now_iso |>.

Section Delivery.
Context {env : Env}.

Definition notification_of (id : string) (t : JT) : option Notification := by_id n_id id (jt_outbox t).
Definition get_notification (id : string) : jcmd (option Notification) := jquery (notification_of id).

(** [INSERT ... ON CONFLICT(dedup_key) DO NOTHING]: the CHECKs come first. *)
Definition _insert_notification (row : Notification) : jcmd bool :=
  _ ← raise_unless (notification_row_ok row) IntegrityError;
  dup ← jquery (fun t => existsb (fun n => String.eqb (n_dedup_key n) (n_dedup_key row)) (jt_outbox t));
  if dup : bool then mret false else (_ ← jinsert jt_outbox row; mret true).
Definition lease_cutoff (lease_seconds : Z) : jcmd string :=
  now ← jnow; lift (format_after now (- lease_seconds)).
Definition _select_due_notification (now_iso : string) (lease_seconds : Z) : jcmd (option Notification) :=
  cutoff ← lease_cutoff lease_seconds;
  jquery (fun t => oldest (List.filter (due now_iso cutoff) (jt_outbox t))).
(** The store's own claim, without the worker's attempt ceiling. *)
Definition _claim_notification (id token now_iso : string) (lease_seconds : Z) : jcmd bool :=
  jtransaction (
    row ← _select_due_notification now_iso lease_seconds;
    match row with
    | Some n =>
        if String.eqb (n_id n) id then
          k ← jupdate jt_outbox (open_row id) (claim_update token now_iso);
          mret (Nat.eqb k 1)
        else mret false
    | None => mret false
    end).
Definition _complete_notification_sent (id token now_iso : string) : jcmd bool :=
  k ← jupdate jt_outbox (claimed_row id token) (sent_update now_iso); mret (Nat.eqb k 1).
Definition _mark_notification_failed (id token now_iso next_attempt_at error_code : string) : jcmd bool :=
  k ← jupdate jt_outbox (claimed_row id token) (failed_update next_attempt_at error_code now_iso);
  mret (Nat.eqb k 1).
Definition _discard_notification (id token now_iso error_code : string) : jcmd bool :=
  k ← jupdate jt_outbox (claimed_row id token) (discard_update error_code now_iso); mret (Nat.eqb k 1).

(** supervisor.py [_enqueue_notification]: one row in state PENDING. *)
Definition _enqueue_notification (job_id task_id : string) (t : NotificationType)
    (reason_code event_ref : string) (event_version : Z) (gate_id binding_hash : option string)
  : jcmd bool :=
  dedup_key ← lift (match t with
                    | NT_OWNER_APPROVAL_REQUIRED => gate_dedup_key job_id gate_id binding_hash event_version
                    | _ => normal_dedup_key job_id t event_ref event_version
                    end);
  now ← jnow_iso;
  let scope := match binding_hash with
               | Some b => if truthy b then Some (scope_ref b) else None
               | None => None
               end in
  payload ← lift (build_payload (value t) job_id task_id event_ref now reason_code gate_id scope);
  hash ← lift (payload_hash (PDict payload));
  json ← lift (_canonical_json (PDict payload));
  _insert_notification
    (mkNotification (outbox_id dedup_key) job_id task_id None gate_id (value t) event_ref event_version
       dedup_key json hash (value NS_PENDING) 0 None None None None None None now now).

(** *** One pass of the delivery worker *)
Definition hex_of_uuid (u : string) : string :=
  string_of_list_ascii (List.filter (fun c => negb (Ascii.eqb c "-")) (list_ascii_of_string u)).
Definition _new_claim_token : jcmd string := u ← on_core uuid; mret ("claim:" ++ hex_of_uuid u).
Definition _claim (now_iso : string) : jcmd (option Notification * option DeliveryPassResult) :=
  cutoff ← lease_cutoff NOTIFICATION_CLAIM_LEASE_SECONDS;
  rollback (
    d ← jquery (fun t => oldest (List.filter (due now_iso cutoff) (jt_outbox t)));
    match d with
    | None => mret (None, None)
    | Some d =>
        if (NOTIFICATION_MAX_ATTEMPTS <=? n_attempt_count d)%Z then
          _ ← jupdate jt_outbox (open_row (n_id d)) (discard_update ERROR_ATTEMPTS_EXHAUSTED now_iso);
          mret (None, Some (pass_result (n_id d) "DISCARDED" (Some ERROR_ATTEMPTS_EXHAUSTED)))
        else
          token ← _new_claim_token;
          k ← jupdate jt_outbox
                (fun n => open_row (n_id d) n && (n_attempt_count n <? NOTIFICATION_MAX_ATTEMPTS)%Z)
                (claim_update token now_iso);
          if negb (Nat.eqb k 1) then mret (None, None)
          else claimed ← get_notification (n_id d); mret (claimed, None)
    end).

(** [payload[key]]. *)
Definition item (payload : pyval) (key : string) : res exc pyval :=
  match payload with
  | PDict d => match dget d key with Some v => Ok v | None => Err KeyError end
  | _ => Err TypeError
  end.
Definition get_item (payload : pyval) (key : string) : res exc pyval :=
  match payload with PDict d => Ok (dget0 d key) | _ => Err AttributeError end.
Definition _render (row : Notification) (payload : pyval) : res exc string :=
  t ← (enum_of (n_notification_type row) : res exc NotificationType);
  job_id ← item payload "supervisor_job_id";
  task_id ← item payload "task_id";
  event_at ← item payload "event_at";
  reason_code ← item payload "reason_code";
  gate_id ← get_item payload "gate_id";
  scope ← get_item payload "scope_ref";
  Ok (render_message t job_id task_id event_at reason_code (n_dedup_key row) gate_id scope).
(** The decoded payload when the stored hash matches it. *)
Definition _decode_and_verify (row : Notification) : res exc (option pyval) :=
  match json_loads (n_payload_json row) with
  | Err _ => Ok None
  | Ok payload =>
      h ← payload_hash payload;
      Ok (if String.eqb h (n_payload_hash row) then Some payload else None)
  end.
Definition envelope_of (row : Notification) : res exc (option NotificationEnvelope) :=
  payload ← _decode_and_verify row;
  match payload with
  | None => Ok None
  | Some p =>
      t ← (enum_of (n_notification_type row) : res exc NotificationType);
      text ← _render row p;
      Ok (Some (mkNotificationEnvelope (n_id row) (n_dedup_key row) (n_payload_hash row) t text))
  end.

(** What the transport does: its factory or its [send] may raise, with the
    configuration error or with any other exception. *)
Inductive transport_outcome : Type :=
| FactoryConfigError
| FactoryError
| SendConfigError
| SendError
| SendReceipt (r : TransportReceipt).
Definition outcome_sends (o : transport_outcome) : bool :=
  match o with FactoryConfigError | FactoryError => false | _ => true end.

Definition token_of (row : Notification) : string := default EmptyString (n_claim_token row).
Definition discarded (row : Notification) (now_iso code : string) : jcmd DeliveryPassResult :=
  _ ← _discard_notification (n_id row) (token_of row) now_iso code;
  mret (pass_result (n_id row) "DISCARDED" (Some code)).
Definition _finalize (row : Notification) (now_iso : string) (receipt : TransportReceipt)
  : jcmd DeliveryPassResult :=
  let attempt_count := n_attempt_count row in
  if (NOTIFICATION_MAX_ATTEMPTS <? attempt_count)%Z then discarded row now_iso ERROR_ATTEMPTS_EXHAUSTED
  else if tr_accepted receipt then
    _ ← _complete_notification_sent (n_id row) (token_of row) now_iso;
    mret (pass_result (n_id row) "SENT" None)
  else
    let code := _normalize_error_code (tr_error_code receipt) in
    if tr_retryable receipt then
      if (NOTIFICATION_MAX_ATTEMPTS <=? attempt_count)%Z
      then discarded row now_iso ERROR_ATTEMPTS_EXHAUSTED
      else
        let delay := notification_backoff_seconds attempt_count (tr_retry_after_seconds receipt) in
        now ← jnow;
        next_attempt_at ← lift (format_after now delay);
        _ ← _mark_notification_failed (n_id row) (token_of row) now_iso next_attempt_at code;
        mret (mkDeliveryPassResult true (Some (n_id row)) (Some "FAILED") (Some code) (Some delay))
    else discarded row now_iso code.
Definition after_send (row : Notification) (now_iso : string) (o : transport_outcome)
  : jcmd DeliveryPassResult :=
  match o with
  | FactoryConfigError | SendConfigError => discarded row now_iso ERROR_CONFIG
  | FactoryError | SendError =>
      _finalize row now_iso (mkTransportReceipt false true (Some ERROR_TRANSPORT) None)
  | SendReceipt r => _finalize row now_iso r
  end.
(** The pass, given the transport. *)
Definition send_due_once (transport : NotificationEnvelope -> transport_outcome)
  : jcmd DeliveryPassResult :=
  now_iso ← jnow_iso;
  claimed ← _claim now_iso;
  match claimed with
  | (_, Some result) => mret result
  | (None, None) => mret (mkDeliveryPassResult false None (Some "NOT_DUE") None None)
  | (Some row, None) =>
      e ← lift (envelope_of row);
      match e with
      | None => discarded row now_iso ERROR_PAYLOAD_HASH_MISMATCH
      | Some e => after_send row now_iso (transport e)
      end
  end.
End Delivery.
