(* ===== verification/Ledger.v ===== *)
(** * Ledger: the supervisor's view of the jobs (src/argent_core/supervisor.py, the
    enums and [SupervisorStore]).

    [_build_state] projects a job row together with what the core's tables say of its
    task; [create_job] inserts the row of a task, once. *)
From S2P Require Import Prelude PyVal Models Json Canonical Timestamps Trust Workflow JobState Concurrency CoreStore Core Dispatch JobRows Leases.
#[local] Open Scope string_scope.

Inductive RunStatus : Type :=
| RUN_NOT_FOUND
| RUN_RUNNING
| RUN_SUCCEEDED
| RUN_FAILED
| RUN_CANCELLED
| RUN_UNKNOWN
| RUN_CONFLICT.
Definition RunStatus_value (x : RunStatus) : string :=
  match x with
  | RUN_NOT_FOUND => "NOT_FOUND"
  | RUN_RUNNING => "RUNNING"
  | RUN_SUCCEEDED => "SUCCEEDED"
  | RUN_FAILED => "FAILED"
  | RUN_CANCELLED => "CANCELLED"
  | RUN_UNKNOWN => "UNKNOWN"
  | RUN_CONFLICT => "CONFLICT"
  end.
#[export] Instance RunStatus_eq_dec : EqDecision RunStatus.
Proof. solve_decision. Defined.
#[export] Program Instance RunStatus_enum : PyEnum RunStatus := {|
  members := [RUN_NOT_FOUND; RUN_RUNNING; RUN_SUCCEEDED; RUN_FAILED; RUN_CANCELLED; RUN_UNKNOWN; RUN_CONFLICT];
  value := RunStatus_value |}.
Next Obligation. solve_complete. Qed.
Next Obligation. solve_value_inj. Qed.

Inductive SupervisorJobStatus : Type :=
| SJ_ACTIVE
| SJ_WAITING_RUN
| SJ_WAITING_GATE
| SJ_BACKOFF
| SJ_RECOVERING
| SJ_ERROR
| SJ_TERMINAL.
Definition SupervisorJobStatus_value (x : SupervisorJobStatus) : string :=
  match x with
  | SJ_ACTIVE => "ACTIVE"
  | SJ_WAITING_RUN => "WAITING_RUN"
  | SJ_WAITING_GATE => "WAITING_GATE"
  | SJ_BACKOFF => "BACKOFF"
  | SJ_RECOVERING => "RECOVERING"
  | SJ_ERROR => "ERROR"
  | SJ_TERMINAL => "TERMINAL"
  end.
#[export] Instance SupervisorJobStatus_eq_dec : EqDecision SupervisorJobStatus.
Proof. solve_decision. Defined.
#[export] Program Instance SupervisorJobStatus_enum : PyEnum SupervisorJobStatus := {|
  members := [SJ_ACTIVE; SJ_WAITING_RUN; SJ_WAITING_GATE; SJ_BACKOFF; SJ_RECOVERING; SJ_ERROR; SJ_TERMINAL];
  value := SupervisorJobStatus_value |}.
Next Obligation. solve_complete. Qed.
Next Obligation. solve_value_inj. Qed.

Inductive RecoveryState : Type :=
| RV_NONE
| RV_DISCOVERING_RUN
| RV_RESTORING_BINDING
| RV_CONSUMING_RESULT
| RV_RETRYING_STEP
| RV_AMBIGUOUS_WRITER
| RV_RUNTIME_UNKNOWN
| RV_CORE_RECOVERY_REQUIRED
| RV_PERSISTENT_ERROR.
Definition RecoveryState_value (x : RecoveryState) : string :=
  match x with
  | RV_NONE => "NONE"
  | RV_DISCOVERING_RUN => "DISCOVERING_RUN"
  | RV_RESTORING_BINDING => "RESTORING_BINDING"
  | RV_CONSUMING_RESULT => "CONSUMING_RESULT"
  | RV_RETRYING_STEP => "RETRYING_STEP"
  | RV_AMBIGUOUS_WRITER => "AMBIGUOUS_WRITER"
  | RV_RUNTIME_UNKNOWN => "RUNTIME_UNKNOWN"
  | RV_CORE_RECOVERY_REQUIRED => "CORE_RECOVERY_REQUIRED"
  | RV_PERSISTENT_ERROR => "PERSISTENT_ERROR"
  end.
#[export] Instance RecoveryState_eq_dec : EqDecision RecoveryState.
Proof. solve_decision. Defined.
#[export] Program Instance RecoveryState_enum : PyEnum RecoveryState := {|
  members := [RV_NONE; RV_DISCOVERING_RUN; RV_RESTORING_BINDING; RV_CONSUMING_RESULT; RV_RETRYING_STEP; RV_AMBIGUOUS_WRITER; RV_RUNTIME_UNKNOWN; RV_CORE_RECOVERY_REQUIRED; RV_PERSISTENT_ERROR];
  value := RecoveryState_value |}.
Next Obligation. solve_complete. Qed.
Next Obligation. solve_value_inj. Qed.

Inductive ReconcileAction : Type :=
| RA_NONE
| RA_WAIT
| RA_START_ROLE
| RA_CREATE_DISPATCH
| RA_SPAWN_RUN
| RA_BIND_RUN
| RA_APPLY_PATCH_SET
| RA_RUN_SANDBOX_TESTS
| RA_RECORD_TEST_RESULT
| RA_CONSUME_RESULT
| RA_MARK_RUN_FAILED
| RA_CORE_RECOVER
| RA_PRESENT_OWNER_GATE
| RA_CLOSE_DONE
| RA_CLOSE_FAILED
| RA_CLOSE_BLOCKED
| RA_PERSISTENT_ERROR.
Definition ReconcileAction_value (x : ReconcileAction) : string :=
  match x with
  | RA_NONE => "NONE"
  | RA_WAIT => "WAIT"
  | RA_START_ROLE => "START_ROLE"
  | RA_CREATE_DISPATCH => "CREATE_DISPATCH"
  | RA_SPAWN_RUN => "SPAWN_RUN"
  | RA_BIND_RUN => "BIND_RUN"
  | RA_APPLY_PATCH_SET => "APPLY_PATCH_SET"
  | RA_RUN_SANDBOX_TESTS => "RUN_SANDBOX_TESTS"
  | RA_RECORD_TEST_RESULT => "RECORD_TEST_RESULT"
  | RA_CONSUME_RESULT => "CONSUME_RESULT"
  | RA_MARK_RUN_FAILED => "MARK_RUN_FAILED"
  | RA_CORE_RECOVER => "CORE_RECOVER"
  | RA_PRESENT_OWNER_GATE => "PRESENT_OWNER_GATE"
  | RA_CLOSE_DONE => "CLOSE_DONE"
  | RA_CLOSE_FAILED => "CLOSE_FAILED"
  | RA_CLOSE_BLOCKED => "CLOSE_BLOCKED"
  | RA_PERSISTENT_ERROR => "PERSISTENT_ERROR"
  end.
#[export] Instance ReconcileAction_eq_dec : EqDecision ReconcileAction.
Proof. solve_decision. Defined.
#[export] Program Instance ReconcileAction_enum : PyEnum ReconcileAction := {|
  members := [RA_NONE; RA_WAIT; RA_START_ROLE; RA_CREATE_DISPATCH; RA_SPAWN_RUN; RA_BIND_RUN; RA_APPLY_PATCH_SET; RA_RUN_SANDBOX_TESTS; RA_RECORD_TEST_RESULT; RA_CONSUME_RESULT; RA_MARK_RUN_FAILED; RA_CORE_RECOVER; RA_PRESENT_OWNER_GATE; RA_CLOSE_DONE; RA_CLOSE_FAILED; RA_CLOSE_BLOCKED; RA_PERSISTENT_ERROR];
  value := ReconcileAction_value |}.
Next Obligation. solve_complete. Qed.
Next Obligation. solve_value_inj. Qed.

Definition NOT_OBSERVED : string := "NOT_OBSERVED".
Definition AGENT_IDS (r : Role) : string :=
  match r with
  | LEAD => "argent-lead"
  | ANALYST => "argent-analyst"
  | IMPLEMENTER => "argent-implementer"
  | QA => "argent-qa"
  | REVIEWER => "argent-reviewer"
  end.

Record SupervisorState : Type := mkSupervisorState {
  ss_supervisor_job_id : string;
  ss_task_id : string;
  ss_status : string;
  ss_workflow_state : string;
  ss_expected_role : option string;
  ss_expected_dispatch_id : option string;
  ss_agent_id : option string;
  ss_session_id : option string;
  ss_run_id : option string;
  ss_attempt_no : Z;
  ss_dispatch_status : option string;
  ss_result_status : string;
  ss_result_consumed : bool;
  ss_current_handoff_id : option string;
  ss_open_findings_count : Z;
  ss_rework_cycle : Z;
  ss_recovery_state : string;
  ss_owner_gate_id : option string;
  ss_gate_status : option string;
  ss_gate_scope : option string;
  ss_gate_closed : bool;
  ss_owner_prompted_at : option string;
  ss_next_action : string;
  ss_next_wake_at : option string;
  ss_retry_count : Z;
  ss_missing_confirmations : Z;
  ss_last_error_code : option string;
  ss_last_progress_at : string;
  ss_terminal : option string;
  ss_facts_version : Z;
  ss_created_at : string;
  ss_updated_at : string;
  ss_primary_state : string;
  ss_queue_reason : string;
  ss_priority : Z;
  ss_owner_instance_id : option string;
  ss_lease_epoch : Z;
  ss_lease_expires_at : option string;
  ss_next_eligible_at : option string;
  ss_error_class : string;
  ss_wait_kind : string
}.
#[export] Instance SupervisorState_eta : EtaExpand SupervisorState := fun x =>
  mkSupervisorState (ss_supervisor_job_id x) (ss_task_id x) (ss_status x) (ss_workflow_state x) (ss_expected_role x) (ss_expected_dispatch_id x) (ss_agent_id x) (ss_session_id x) (ss_run_id x) (ss_attempt_no x) (ss_dispatch_status x) (ss_result_status x) (ss_result_consumed x) (ss_current_handoff_id x) (ss_open_findings_count x) (ss_rework_cycle x) (ss_recovery_state x) (ss_owner_gate_id x) (ss_gate_status x) (ss_gate_scope x) (ss_gate_closed x) (ss_owner_prompted_at x) (ss_next_action x) (ss_next_wake_at x) (ss_retry_count x) (ss_missing_confirmations x) (ss_last_error_code x) (ss_last_progress_at x) (ss_terminal x) (ss_facts_version x) (ss_created_at x) (ss_updated_at x) (ss_primary_state x) (ss_queue_reason x) (ss_priority x) (ss_owner_instance_id x) (ss_lease_epoch x) (ss_lease_expires_at x) (ss_next_eligible_at x) (ss_error_class x) (ss_wait_kind x).

(** ** Queries on the core's tables *)
(** The single active dispatch of the task. *)
Definition _current_dispatch (task_id : string) (db : DB) : option AgentDispatch :=
  find is_active (task_dispatches task_id db).
(** [max(matches, key=attempt_no)]: the first of the largest. *)
Definition later_attempt (o : option AgentDispatch) (d : AgentDispatch) : option AgentDispatch :=
  match o with
  | Some m => if (d_attempt_no m <? d_attempt_no d)%Z then Some d else Some m
  | None => Some d
  end.
Definition at_position (f : WorkflowFrontier) (d : AgentDispatch) : bool :=
  (d_cycle_no d =? wf_cycle_no f)%Z && (d_position d =? wf_position f)%Z.
Definition frontier_matches (task_id : string) (f : WorkflowFrontier) (db : DB) : list AgentDispatch :=
  List.filter (at_position f) (task_dispatches task_id db).
Definition _dispatch_at_frontier (task_id : string) (f : WorkflowFrontier) (db : DB)
  : option AgentDispatch := fold_left later_attempt (frontier_matches task_id f db) None.
Definition max_attempt (l : list AgentDispatch) : Z := fold_left (fun m d => Z.max m (d_attempt_no d)) l 0%Z.
Definition _max_cycle (task_id : string) (db : DB) : Z :=
  match task_dispatches task_id db with [] => 1%Z | l => max_cycle l end.
Definition task_approvals (task_id : string) (db : DB) : list OwnerApproval :=
  of_task ap_task_id task_id (db_approvals db).
Definition _current_gate (task_id : string) (db : DB) : option OwnerApproval * nat :=
  let active := List.filter is_live (task_approvals task_id db) in
  match active with
  | a :: _ => (Some a, List.length active)
  | [] => (last (task_approvals task_id db), 0)
  end.
Definition open_findings (task_id : string) (db : DB) : Z :=
  Z.of_nat (count_where (fun f => bool_decide (Models.f_status f = F_OPEN)) (of_task f_task_id task_id (db_findings db))).
Definition latest_handoff_id (task_id : string) (db : DB) : option string :=
  h_id <$> last (of_task h_task_id task_id (db_handoffs db)).
Definition find_task (task_id : string) (db : DB) : option Task := by_id t_id task_id (db_tasks db).
Definition consumed (d : AgentDispatch) : bool :=
  bool_decide (d_status d = DCONSUMED) && is_some (d_consumed_at d).

Section Ledger.
Context {env : Env} (controller_source : string).

Definition dbquery {A} (f : DB -> A) : jcmd A := gets (fun s => f (st_db (js_core s))).
Definition frontier_fn (task_id : string) : jcmd WorkflowFrontier :=
  on_core (workflow_frontier task_id controller_source).

Definition _build_state (row : Job) : jcmd SupervisorState :=
  let task_id := j_task_id row in
  db ← dbquery (fun db => db);
  let task := find_task task_id db in
  frontier ← match task with
             | Some _ => f ← frontier_fn task_id; mret (Some f)
             | None => mret None
             end;
  let expected_role := frontier ≫= wf_expected_role in
  let active := _current_dispatch task_id db in
  let at_frontier := frontier ≫= (fun f => _dispatch_at_frontier task_id f db) in
  let disp := match active with Some d => Some d | None => at_frontier end in
  let gate := fst (_current_gate task_id db) in
  mret (mkSupervisorState (j_id row) task_id (j_status row)
    (match task with Some t => value (t_state t) | None => fl_workflow_state (j_flow row) end)
    (value <$> expected_role) (d_id <$> disp) (AGENT_IDS <$> expected_role)
    (disp ≫= d_child_session_id) (disp ≫= d_openclaw_run_id) (default 0%Z (d_attempt_no <$> disp))
    ((fun d => value (d_status d)) <$> disp) (fl_result_status (j_flow row))
    (match disp with Some d => consumed d | None => false end) (latest_handoff_id task_id db)
    (open_findings task_id db) (_max_cycle task_id db) (j_recovery_state row)
    (ap_id <$> gate) ((fun g => value (ap_status g)) <$> gate) (ap_scope <$> gate)
    (match gate with Some g => is_some (ap_closed_at g) | None => false end)
    (fl_owner_prompted_at (j_flow row)) (j_next_action row) (j_next_wake_at row) (j_retry_count row)
    (fl_missing_confirmations (j_flow row)) (j_last_error_code row) (j_last_progress_at row)
    (j_terminal row) (j_facts_version row) (j_created_at row) (j_updated_at row)
    (j_primary_state row) (j_queue_reason row) (j_priority row) (j_owner_instance_id row)
    (j_lease_epoch row) (j_lease_expires_at row) (j_next_eligible_at row) (j_error_class row)
    (j_wait_kind row)).

(** The row of a new job; columns the insert defaults are NULL. *)
Definition new_job (job_id task_id workflow_state resource_class now : string) : Job :=
  mkJob job_id task_id (value SJ_WAITING_RUN) None (value PS_QUEUED) (value QR_NEW) 0 (value WK_NONE)
    (value EC_NONE) None None (value RA_NONE) None 0 0 (value RV_NONE) 0 None 0 None resource_class None
    now now now
    (mkFlow workflow_state None None None None None None NOT_OBSERVED 0 None 0 1 None None None 0 None None 0)
    (mkWriter None None None None None None 0 None None None)
    (mkJobAudit None None None None None None None None None)
    (mkFootprint None None None None None).
Definition create_job (task_id idempotency_key : string) (resource_class : option string)
  : jcmd SupervisorState :=
  let job_id := "supervisor:" ++ task_id in
  let command := "create_supervisor_job" in
  args_hash ← lift (_hash_args [("task_id", PStr task_id)]);
  let rc := match resource_class with Some c => if truthy c then c else value RC_LIGHT | None => value RC_LIGHT end in
  _ ← raise_unless (str_in rc RESOURCE_CLASS_VALUES) ValueError;
  jtransaction (
    existing ← on_core (get_command_idempotency idempotency_key command);
    match existing with
    | Some (result_id, stored_hash) =>
        _ ← raise_unless (String.eqb stored_hash args_hash) IdempotencyError;
        row ← get_supervisor_job result_id;
        row ← some_or row IdempotencyError;
        _build_state row
    | None =>
        existing_job ← get_supervisor_job_for_task task_id;
        match existing_job with
        | Some j =>
            now ← jnow_iso;
            _ ← on_core (_set_command_idempotency idempotency_key command (j_id j) args_hash now);
            _build_state j
        | None =>
            task ← on_core (get_task task_id);
            task ← some_or task NotFound;
            now ← jnow_iso;
            let row := new_job job_id task_id (value (t_state task)) rc now in
            _ ← _insert_supervisor_job row;
            _ ← on_core (_set_command_idempotency idempotency_key command job_id args_hash now);
            _build_state row
        end
    end).
End Ledger.
