(* ===== verification/JobScenario.v ===== *)
(** * JobScenario: a concrete supervised job.

    The start session of [Scenario] gives a task; [create_job] its job.  Later files
    run their commands from here in their witnesses. *)
From S2P Require Import Prelude PyVal Models Timestamps Trust CoreStore Session Scenario JobState Concurrency JobRows Leases JobSteps JobInv Ledger.
#[local] Open Scope string_scope.
#[local] Existing Instance sample_env.

Definition core_st : St := run_all start_session init_st.
Definition idle_st : JSt := mkJSt core_st empty_jt None.
Definition job_id0 : string := "supervisor:u1".
Definition queued_st : JSt := snd (create_job lead "u1" "k" None idle_st).
Definition claimed_st : JSt := snd (claim_job job_id0 "host-a" 3600 queued_st).
Definition the_job (s : JSt) : option Job := job_of job_id0 (js_t s).

Example queued_job : exists j, the_job queued_st = Some j /\ j_primary_state j = "QUEUED".
Proof. eexists. split; [vm_compute; reflexivity | reflexivity]. Qed.
Lemma queued_sok : sok queued_st.
Proof. vm_compute. reflexivity. Qed.
Lemma claimed_sok : sok claimed_st.
Proof. vm_compute. reflexivity. Qed.
Lemma queued_typed : typed queued_st.
Proof. split; [vm_compute; reflexivity | vm_compute; repeat constructor]. Qed.
Example claimed_job : (fun j => (j_primary_state j, j_owner_instance_id j, j_lease_epoch j)) <$> the_job claimed_st
  = Some ("RUNNING", Some "host-a", 1%Z).
Proof. vm_compute. reflexivity. Qed.
