(* ===== verification/LeaseSession.v ===== *)
(** * LeaseSession: any sequence of lease commands.

    [lease_cmd] names the operations of [Leases] with their arguments, [lease_exec]
    runs one on the store and [lease_run] a sequence of them, by any number of
    supervisors: each runs in its own transaction, so a sequence is an interleaving.
    A command that raises is followed by the next.  The clock of the environment is
    read by every command, so any amount of time passes between two of them. *)
From S2P Require Import Prelude PyVal Models Timestamps JobState Concurrency Recovery CoreStore JobRows Worktree Leases JobSteps LeaseSpec JobInv Ledger Scenario JobScenario.
From stdpp Require Import relations.
#[local] Open Scope string_scope.

Inductive lease_cmd : Type :=
| Claim (job_id owner : string) (ttl : Z)
| ClaimNext (owner : string) (ttl : Z)
| Renew (job_id owner : string) (epoch ttl : Z)
| Release (job_id owner : string) (epoch : Z)
| Clear (job_id owner : string) (epoch : Z)
| QuarantineLost (job_id code : string) (expected : option Snapshot)
| QuarantineBlocked (job_id code cls : string) (expected : option Snapshot)
| Takeover (job_id : string) (expected : Snapshot) (owner : string) (ttl : Z) (live : bool)
    (verdict : option string)
| BindWriter (job_id dispatch_id owner : string) (epoch : Z) (repo base branch : option string)
    (path : string) (expected_head current_head : option string)
| SetMetadata (job_id owner : string) (epoch : Z) (m : Metadata)
| EnqueueJob (job_id : string) (e : Enqueue)
| PersistResource (job_id owner : string) (epoch : Z) (decision reason : string) (hash at_ : option string)
| CommitRecovery (job_id owner : string) (epoch : Z) (fc dec : string) (reason eligible : option string)
    (expected : option Snapshot) (process_id : option string)
| SetFence (job_id : string) (owner : option string) (epoch : option Z) (facts : Z)
| ClearFence.

(** The owner's authorisation a command carries. *)
Definition authorised (c : lease_cmd) : bool :=
  match c with EnqueueJob _ e => en_owner_authorized e | _ => false end.
(** The claim of a lease a command makes: job, owner, epoch. *)
Definition fenced_by (c : lease_cmd) : option (string * string * Z) :=
  match c with
  | Renew j o e _ | Release j o e | Clear j o e | BindWriter j _ o e _ _ _ _ _ _
  | SetMetadata j o e _ | PersistResource j o e _ _ _ _ | CommitRecovery j o e _ _ _ _ _ _ =>
      Some (j, o, e)
  | _ => None
  end.

Section Session.
Context {env : Env}.

(** The result is forgotten. *)
Definition done_ {A} (m : jcmd A) : jcmd unit := _ ← m; mret tt.
Definition lease_exec (c : lease_cmd) : jcmd unit :=
  match c with
  | Claim j o t => done_ (claim_job j o t)
  | ClaimNext o t => done_ (claim_next_job o t)
  | Renew j o e t => done_ (renew_lease j o e t)
  | Release j o e => done_ (release_lease j o e)
  | Clear j o e => done_ (clear_lease j o e)
  | QuarantineLost j c x => done_ (quarantine_lost j c x)
  | QuarantineBlocked j c k x => done_ (quarantine_blocked j c k x)
  | Takeover j x o t a v => done_ (recover_takeover_job j x o t a v)
  | BindWriter j d o e r b br p eh ch => done_ (bind_writer_worktree j d o e r b br p eh ch)
  | SetMetadata j o e m => done_ (set_job_metadata j o e m)
  | EnqueueJob j e => done_ (enqueue_job j e)
  | PersistResource j o e d r h a => done_ (persist_resource_decision j o e d r h a)
  | CommitRecovery j o e f d r n x p => done_ (commit_recovery_decision j o e f d r n x p)
  | SetFence j o e f => _set_action_fence j o e f
  | ClearFence => _clear_action_fence
  end.
Fixpoint lease_run (cs : list lease_cmd) (s : JSt) : JSt :=
  match cs with [] => s | c :: cs => lease_run cs (snd (lease_exec c s)) end.

(** ** Refinement of the protocol *)
Lemma follows_done {A} auth (m : jcmd A) : follows auth m -> follows auth (done_ m).
Proof.
  intros F s r s' K. unfold done_, mbind, M_bind. destruct (m s) as [[a|e] s1] eqn:R;
    intros [= _ <-]; by eapply F.
Qed.
Lemma follows_fence f : follows false (modify (fun s => s <| js_fence := f |>)).
Proof. intros s r s' K [= _ <-]. repeat split; [done|]. exists EmptyString. reflexivity. Qed.
Lemma exec_follows c : follows (authorised c) (lease_exec c).
Proof.
  destruct c; try apply follows_fence; apply follows_done.
  - apply claim_job_follows.
  - apply claim_next_job_follows.
  - apply renew_lease_follows.
  - apply release_lease_follows.
  - apply clear_lease_follows.
  - apply quarantine_lost_follows.
  - apply quarantine_blocked_follows.
  - apply takeover_follows.
  - apply bind_writer_follows.
  - apply set_job_metadata_follows.
  - apply (enqueue_job_follows false).
  - apply persist_resource_follows.
  - apply commit_recovery_follows.
Qed.

(** A transition of the protocol at some time, with or without authorisation. *)
Definition moves (auth : bool) (v v' : lease) : Prop := exists now, lstep auth now v v'.
Lemma lstep_weaken auth now v v' : lstep false now v v' -> lstep auth now v v'.
Proof. intros S. destruct S; try done; by constructor. Qed.
Lemma moves_rtc auth auth' now v v' : (auth = true -> auth' = true) ->
  rtc (lstep auth now) v v' -> rtc (moves auth') v v'.
Proof.
  intros I. apply rtc_subrel. intros x y S. exists now.
  destruct auth; [by rewrite I | by apply lstep_weaken].
Qed.
Lemma lease_run_moves auth cs s id j : sok s -> job_of id (js_t s) = Some j ->
  Forall (fun c => authorised c = true -> auth = true) cs ->
  sok (lease_run cs s) /\
  exists j', job_of id (js_t (lease_run cs s)) = Some j' /\ rtc (moves auth) (view j) (view j').
Proof.
  intros K J F. revert s j K J. induction F as [|c cs A _ IH]; intros s j K J.
  - split; [done|]. exists j. split; [done | apply rtc_refl].
  - cbn. destruct (lease_exec c s) as [r s1] eqn:R. cbn.
    destruct (exec_follows c s r s1 K R) as (_ & K1 & now & P). destruct (P id j J) as (j1 & J1 & S1).
    destruct (IH s1 j1 K1 J1) as (K' & j' & J' & S'). split; [done|]. exists j'. split; [done|].
    etrans; [|exact S']. by eapply moves_rtc.
Qed.

(** ** Consequences on a job's history *)
Lemma moves_epoch auth v v' : rtc (moves auth) v v' ->
  (l_epoch v <= l_epoch v')%Z /\
  (l_epoch v' = l_epoch v -> l_owner v' = l_owner v \/ l_owner v' = None).
Proof.
  induction 1 as [v|v1 v2 v3 (now & S) _ [M I]]; [split; [lia | by left]|].
  assert (E : (l_epoch v1 <= l_epoch v2)%Z /\
    (l_epoch v2 = l_epoch v1 -> l_owner v2 = l_owner v1 \/ l_owner v2 = None)).
  { destruct S; cbn; (split; [lia|]); try tauto; lia. }
  destruct E as [E1 E2]. split; [lia|]. intros H. destruct I as [->| ->]; [lia| |by right].
  apply E2. lia.
Qed.
Lemma moves_facts auth v v' : rtc (moves auth) v v' -> (l_facts v <= l_facts v')%Z.
Proof. induction 1 as [|v1 v2 v3 (now & S) _ IH]; [lia|]. destruct S; cbn in *; lia. Qed.
Lemma moves_final auth v v' : rtc (moves auth) v v' -> l_terminal v <> None ->
  (l_terminal v = Some "BLOCKED" -> auth = false) ->
  l_terminal v' = l_terminal v /\ l_state v' = l_state v /\ l_epoch v' = l_epoch v.
Proof.
  induction 1 as [|v1 v2 v3 (now & S) _ IH]; [done|]. intros T B.
  assert (E : l_terminal v2 = l_terminal v1 /\ l_state v2 = l_state v1 /\ l_epoch v2 = l_epoch v1).
  { destruct S; cbn; try done; try (by destruct H as [H _]; rewrite H in T).
    exfalso. assert (auth = false) by auto. congruence. }
  destruct E as (E1 & E2 & E3). rewrite E1 in IH. destruct IH as (-> & -> & ->); auto.
Qed.

(** ** What a stale holder can do *)
(** A reading of the clock between two states. *)
Definition read_between (s s' : JSt) (now_iso : string) : Prop :=
  exists k, ticks s <= k /\ k < ticks s' /\ format_in_range (clock k) = Ok now_iso.
Definition current (id owner : string) (epoch : Z) (now_iso : string) (t : JT) : Prop :=
  exists j, job_of id t = Some j /\ held_by j owner epoch = true /\ lease_open j now_iso = true.

Lemma exec_sound c : stepwise sound (lease_exec c).
Proof.
  destruct c; try apply sw_modify_fence; unfold lease_exec, done_;
    (apply sw_bind; [exact _ | auto with stepwise | intros; apply sw_ret; exact _]).
Qed.
Lemma run_typed cs s : typed s -> typed (lease_run cs s).
Proof.
  revert s. induction cs as [|c cs IH]; intros s T; [done|]. cbn.
  destruct (lease_exec c s) as [r s1] eqn:E. apply IH. by apply exec_sound in E as [_ E]; apply E.
Qed.

Lemma check_holder_ok e j o ep n s u s' : check_holder e j o ep n s = (Ok u, s') ->
  held_by j o ep = true /\ lease_open j n = true /\ s' = s.
Proof. unfold check_holder, held_by. intros R. inv_ok R. by rewrite Hrun, Hrun0. Qed.

(** A command of its own transaction that reads the clock first. *)
Lemma clocked {A} (k : datetime -> jcmd A) s a s' : (forall x, stepwise sound (k x)) ->
  (x ← jnow; k x) s = (Ok a, s') ->
  exists s1, k (clock (ticks s)) s1 = (Ok a, s') /\ js_t s1 = js_t s /\ ticks s < ticks s'.
Proof.
  intros K R. apply M_bind_ok in R as (x & s1 & N & R). unfold jnow, on_core, now in N.
  injection N as <- <-. eexists. split; [exact R|]. split; [done|]. apply K in R as [T _].
  unfold ticks in *. cbn in T. lia.
Qed.
Lemma clocked_iso {A} (k : string -> jcmd A) s a s' : (forall x, stepwise sound (k x)) ->
  (x ← jnow_iso; k x) s = (Ok a, s') ->
  exists s1 n, k n s1 = (Ok a, s') /\ js_t s1 = js_t s /\ read_between s s' n.
Proof.
  intros K R. apply M_bind_ok in R as (x & s1 & N & R). unfold jnow_iso, on_core in N.
  unfold now_iso, now, mbind, M_bind, lift in N. destruct (format_in_range _) as [n|] eqn:F; [|done].
  injection N as <- <-. exists (s <| js_core ::= set st_ticks S |>), n. split; [exact R|]. split; [done|].
  exists (ticks s). apply K in R as [T _]. unfold ticks in *. cbn in T. split; [lia|]. split; [lia | exact F].
Qed.

Lemma transition_current id ps st fields o e now_iso s r s' :
  _transition_job id ps st fields false true (mkCas None (Some o) (Some e) true) now_iso s = (Ok r, s') ->
  current id o e now_iso (js_t s).
Proof.
  intros R. apply transition_ok in R as (j & J & (_ & _ & C & _) & _). apply check_cas_ok in C as (_ & O & E & U).
  exists j. split; [done|]. split; [|by apply U]. unfold held_by. apply differs_some in O.
  unfold zdiffers in E. rewrite O. destruct (Z.eqb_spec (j_lease_epoch j) e) as [_|]; [|done].
  rewrite andb_true_r. by apply ostr_eqb_eq.
Qed.

(** *** The run of a fenced command, opened up to its holder check *)
Ltac opened := repeat match goal with
  | H : (_ ≫= _) _ = (Ok _, _) |- _ => progress inv_ok H
  | H : raise_when _ _ _ = (Ok _, _) |- _ => apply raise_when_ok in H as [H <-]
  | H : jtransaction _ _ = (Ok _, _) |- _ =>
      apply jtransaction_ok in H as (? & (_ & ? & _) & _ & H)
  | J : need_job _ _ = _ |- _ => apply need_job_ok in J as [? ->]
  | C : check_holder _ _ _ _ _ _ = _ |- _ => apply check_holder_ok in C as (? & ? & ->)
  end.
Ltac is_current :=
  lazymatch goal with J : job_of _ ?t = Some ?j |- current _ _ _ _ _ =>
    exists j; split; [congruence | by split] end.
(** Steps before the clock is read. *)
Lemma lift_bind_ok {A B} (x : res exc A) (k : A -> jcmd B) s b s' :
  (a ← lift x; k a) s = (Ok b, s') -> exists a, x = Ok a /\ k a s = (Ok b, s').
Proof. intros R. apply M_bind_ok in R as (a & ? & H & R). apply lift_ok in H as [-> <-]. eauto. Qed.
Lemma when_bind_ok {B} c e (k : jcmd B) s b s' :
  (_ ← raise_when c e; k) s = (Ok b, s') -> c = false /\ k s = (Ok b, s').
Proof. intros R. apply M_bind_ok in R as (? & ? & H & R). apply raise_when_ok in H as [-> <-]. auto. Qed.
Lemma unless_bind_ok {B} c e (k : jcmd B) s b s' :
  (_ ← raise_unless c e; k) s = (Ok b, s') -> c = true /\ k s = (Ok b, s').
Proof. intros R. apply M_bind_ok in R as (? & ? & H & R). apply raise_unless_ok in H as [-> <-]. auto. Qed.
Ltac strip R := unfold _validate_lease_owner, _validate_ttl, _validate_epoch in R;
  repeat lazymatch type of R with
  | (lift _ ≫= _) _ = _ => apply lift_bind_ok in R as (? & ? & R)
  | (raise_when _ _ ≫= _) _ = _ => apply when_bind_ok in R as (? & R)
  | (raise_unless _ _ ≫= _) _ = _ => apply unless_bind_ok in R as (? & R)
  end.
Ltac open_now R :=
  strip R; apply clocked in R as (? & R & ? & ?); [|intros; sw]; strip R; opened; inv_ok R; opened;
  lazymatch goal with F : format_in_range (clock (ticks ?s)) = Ok ?n |- _ =>
    exists n; split; [by exists (ticks s)|] end.
Ltac open_iso R :=
  strip R; apply clocked_iso in R as (? & ?n & R & ? & ?); [|intros; sw]; strip R; opened; inv_ok R; opened;
  lazymatch goal with F : read_between _ _ ?n |- _ => exists n; split; [exact F|] end.

Lemma renew_current id o e t s a s' : renew_lease id o e t s = (Ok a, s') ->
  exists n, read_between s s' n /\ current id o e n (js_t s).
Proof. unfold renew_lease. intros R. open_now R. is_current. Qed.
Lemma clear_current id o e s a s' : clear_lease id o e s = (Ok a, s') ->
  exists n, read_between s s' n /\ current id o e n (js_t s).
Proof. unfold clear_lease. intros R. open_now R. is_current. Qed.
Lemma release_current id o e s a s' : release_lease id o e s = (Ok a, s') ->
  exists n, read_between s s' n /\ current id o e n (js_t s).
Proof.
  unfold release_lease. intros R. open_now R.
  lazymatch goal with T : _transition_job _ _ _ _ _ _ _ _ _ = _ |- _ => apply transition_current in T end.
  congruence.
Qed.
Lemma commit_current id o e f d r n x p s a s' :
  commit_recovery_decision id o e f d r n x p s = (Ok a, s') ->
  exists n, read_between s s' n /\ current id o e n (js_t s).
Proof.
  unfold commit_recovery_decision. intros R. open_now R. is_current.
Qed.
Lemma persist_current id o e d r h a s x s' : persist_resource_decision id o e d r h a s = (Ok x, s') ->
  exists n, read_between s s' n /\ current id o e n (js_t s).
Proof. unfold persist_resource_decision. intros R. open_iso R. is_current. Qed.
Lemma bind_current id d o e r b br p eh ch s x s' :
  bind_writer_worktree id d o e r b br p eh ch s = (Ok x, s') ->
  exists n, read_between s s' n /\ current id o e n (js_t s).
Proof. unfold bind_writer_worktree. intros R. open_iso R. is_current. Qed.
Lemma metadata_current id o e m s x s' : set_job_metadata id o e m s = (Ok x, s') ->
  exists n, read_between s s' n /\ current id o e n (js_t s).
Proof.
  unfold set_job_metadata. intros R.
  apply lift_bind_ok in R as (fields & F%metadata_fields_columns & R). strip R.
  apply jtransaction_ok in R as (s1 & (_ & T & _) & F1%fence_sound & R).
  apply M_bind_ok in R as (j & s2 & J & R). apply need_job_ok in J as [J ->]. strip R.
  assert (L : forall v, lookup_field f_primary_state (fields ++ [A_facts_version v]) = None).
  { intros v. apply plain_lookup; [by intros []|]. apply Forall_app. split; [|by repeat constructor].
    eapply Forall_impl; [exact F|]. apply metadatum_plain. }
  apply clocked_iso in R as (s3 & n & R & _ & k & K1 & K2 & K3).
  2:{ intros n. repeat first [apply sw_update; apply L | sw_step]. }
  strip R. destruct F1 as [F1 _]. exists n. split.
  - exists k. split; [lia|]. by split.
  - exists j. split; [congruence|]. split; [|assumption]. unfold held_by. by apply andb_true_iff.
Qed.
Lemma exec_current c id o e s u s' : fenced_by c = Some (id, o, e) -> lease_exec c s = (Ok u, s') ->
  exists n, read_between s s' n /\ current id o e n (js_t s).
Proof.
  intros F R. destruct c; try done; injection F as -> -> ->;
    apply M_bind_ok in R as (a & s1 & R & [= _ <-]).
  - by eapply renew_current.
  - by eapply release_current.
  - by eapply clear_current.
  - by eapply bind_current.
  - by eapply metadata_current.
  - by eapply persist_current.
  - by eapply commit_current.
Qed.

(** *** A command that raises changes no table *)
Definition atomic {A} (m : jcmd A) : Prop := forall s e s', m s = (Err e, s') -> js_t s' = js_t s.
Lemma at_reads {A B} (m : jcmd A) (k : A -> jcmd B) :
  reads m -> (forall a, atomic (k a)) -> atomic (x ← m; k x).
Proof.
  intros Hm Hk s e s'. unfold mbind, M_bind. destruct (m s) as [[a|e1] s1] eqn:R; apply Hm in R as (_ & T & _).
  - intros K%Hk. congruence.
  - intros [= _ <-]. done.
Qed.
Lemma at_lift {A B} (x : res exc A) (k : A -> jcmd B) :
  (forall a, atomic (k a)) -> atomic (a ← lift x; k a).
Proof. intros Hk. apply at_reads; [auto with reads | done]. Qed.
Lemma at_transaction {A} (m : jcmd A) : atomic (jtransaction m).
Proof. intros s e s' R. by apply jtransaction_err in R as [_ T]. Qed.
Lemma at_done {A} (m : jcmd A) : atomic m -> atomic (done_ m).
Proof.
  intros H s e s'. unfold done_, mbind, M_bind. destruct (m s) as [[a|e1] s1] eqn:R; [done|].
  intros [= _ <-]. by eapply H.
Qed.
Lemma exec_atomic c : atomic (lease_exec c).
Proof.
  destruct c; try (intros s e s'; done); apply at_done;
    unfold claim_job, claim_next_job, renew_lease, release_lease, clear_lease, quarantine_lost,
      quarantine_blocked, recover_takeover_job, bind_writer_worktree, set_job_metadata, enqueue_job,
      persist_resource_decision, commit_recovery_decision, _validate_lease_owner, _validate_ttl, _validate_epoch;
    repeat first [apply at_transaction | apply at_lift; intros ? | apply at_reads; [auto with reads | intros ?]].
Qed.

(** ** The theorems *)
(** C3: whatever sequence of lease commands runs, with their errors, every job stays in
    the table and its lease moves by the abstract protocol [lstep]; a BLOCKED job is only
    reopened by a sequence that contains an owner-authorised enqueue. *)
Theorem lease_protocol_refined cs s id j : sok s -> job_of id (js_t s) = Some j ->
  exists j', job_of id (js_t (lease_run cs s)) = Some j' /\
    rtc (moves (existsb authorised cs)) (view j) (view j').
Proof.
  intros K J. apply (lease_run_moves (existsb authorised cs) cs s id j K J).
  apply List.Forall_forall. intros c I A. apply existsb_exists. eauto.
Qed.

(** C16: mutual exclusion by epochs.  Between any two moments of any interleaving, the
    lease epoch of a job never decreases, and if the lease has passed to another owner
    the epoch has grown: no epoch ever has two holders. *)
Theorem epoch_has_one_holder cs1 cs2 s id j0 j1 : sok s -> job_of id (js_t s) = Some j0 ->
  job_of id (js_t (lease_run cs1 s)) = Some j1 ->
  exists j2, job_of id (js_t (lease_run cs2 (lease_run cs1 s))) = Some j2 /\
    (j_lease_epoch j1 <= j_lease_epoch j2)%Z /\
    (j_owner_instance_id j1 <> j_owner_instance_id j2 -> j_owner_instance_id j2 <> None ->
     (j_lease_epoch j1 < j_lease_epoch j2)%Z) /\
    (j_facts_version j1 <= j_facts_version j2)%Z.
Proof.
  intros K J0 J1. assert (F : forall cs, Forall (fun c => authorised c = true -> true = true) cs)
    by (intros; by apply List.Forall_forall).
  destruct (lease_run_moves true cs1 s id j0 K J0 (F _)) as [K1 _].
  destruct (lease_run_moves true cs2 _ id j1 K1 J1 (F _)) as (_ & j2 & J2 & M). exists j2. split; [done|].
  destruct (moves_epoch _ _ _ M) as [E H]. pose proof (moves_facts _ _ _ M) as V. cbn in E, H, V.
  split; [done|]. split; [|done]. intros N O. destruct (Z.eq_dec (j_lease_epoch j2) (j_lease_epoch j1)) as [Q|]; [|lia].
  destruct (H Q) as [D|D]; congruence.
Qed.

(** C25: a command that presents an (owner, epoch) lease succeeds only if that lease was
    the current one: the job's row had this owner and this epoch, and the expiry in the
    row was after a reading of the clock during the command.  A command that raises
    changes no table. *)
Theorem stale_lease_refused c id owner epoch s r s' :
  fenced_by c = Some (id, owner, epoch) -> lease_exec c s = (r, s') ->
  match r with
  | Ok _ => exists now_iso, read_between s s' now_iso /\ current id owner epoch now_iso (js_t s)
  | Err _ => js_t s' = js_t s
  end.
Proof.
  intros F R. destruct r as [u|e]; [by eapply exec_current | by eapply exec_atomic].
Qed.

(** A terminal job is final: no sequence of lease commands changes the outcome or the
    primary state of a DONE or FAILED job, nor of a BLOCKED one without an
    owner-authorised enqueue; no lease is ever granted on it. *)
Theorem closed_jobs_stay_closed cs s id j : sok s -> job_of id (js_t s) = Some j ->
  j_terminal j <> None -> (j_terminal j = Some "BLOCKED" -> existsb authorised cs = false) ->
  exists j', job_of id (js_t (lease_run cs s)) = Some j' /\
    j_terminal j' = j_terminal j /\ j_primary_state j' = j_primary_state j /\
    j_lease_epoch j' = j_lease_epoch j.
Proof.
  intros K J T B. destruct (lease_run_moves (existsb authorised cs) cs s id j K J) as (_ & j' & J' & M).
  { apply List.Forall_forall. intros c I A. apply existsb_exists. eauto. }
  exists j'. split; [done|]. by apply (moves_final _ _ _ M).
Qed.

End Session.

(** ** Witnesses *)
#[local] Existing Instance sample_env.
(** A claim, a renewal, a stale release, the release, a claim by another host. *)
Definition handover : list lease_cmd :=
  [Claim job_id0 "host-a" 3600; Renew job_id0 "host-a" 1 7200; Release job_id0 "host-b" 1;
   Release job_id0 "host-a" 1; Claim job_id0 "host-b" 3600].
Definition blocked_st : JSt := snd (lease_exec (QuarantineBlocked job_id0 "E" "NONE" None) queued_st).

Lemma lease_protocol_refined_witness : exists j, job_of job_id0 (js_t queued_st) = Some j /\
  exists j', job_of job_id0 (js_t (lease_run handover queued_st)) = Some j' /\
    rtc (moves (existsb authorised handover)) (view j) (view j').
Proof.
  eexists. split; [vm_compute; reflexivity|].
  apply lease_protocol_refined; [exact queued_sok | vm_compute; reflexivity].
Defined.
Lemma epoch_has_one_holder_witness :
  exists j1, job_of job_id0 (js_t (lease_run (firstn 2 handover) queued_st)) = Some j1 /\
  exists j2, job_of job_id0 (js_t (lease_run (skipn 2 handover) (lease_run (firstn 2 handover) queued_st))) = Some j2 /\
    (j_lease_epoch j1 <= j_lease_epoch j2)%Z /\
    (j_owner_instance_id j1 <> j_owner_instance_id j2 -> j_owner_instance_id j2 <> None ->
     (j_lease_epoch j1 < j_lease_epoch j2)%Z) /\
    (j_facts_version j1 <= j_facts_version j2)%Z.
Proof.
  eexists. split; [vm_compute; reflexivity|].
  eapply (epoch_has_one_holder (firstn 2 handover) (skipn 2 handover) queued_st job_id0);
    [exact queued_sok | vm_compute; reflexivity | vm_compute; reflexivity].
Defined.
Lemma stale_lease_refused_witness : exists r s',
  lease_exec (Release job_id0 "host-b" 1) claimed_st = (r, s') /\ r = Err LeaseError /\
  match r with
  | Ok _ => exists now_iso, read_between claimed_st s' now_iso /\ current job_id0 "host-b" 1 now_iso (js_t claimed_st)
  | Err _ => js_t s' = js_t claimed_st
  end.
Proof.
  destruct (lease_exec (Release job_id0 "host-b" 1) claimed_st) as [r s'] eqn:E. exists r, s'. split; [done|].
  split; [vm_compute in E; congruence|].
  exact (stale_lease_refused (Release job_id0 "host-b" 1) job_id0 "host-b" 1%Z _ _ _ eq_refl E).
Defined.
Lemma closed_jobs_stay_closed_witness : exists j, job_of job_id0 (js_t blocked_st) = Some j /\
  exists j', job_of job_id0 (js_t (lease_run handover blocked_st)) = Some j' /\
    j_terminal j' = j_terminal j /\ j_primary_state j' = j_primary_state j /\
    j_lease_epoch j' = j_lease_epoch j.
Proof.
  eexists. split; [vm_compute; reflexivity|].
  apply closed_jobs_stay_closed; [vm_compute; reflexivity.. | vm_compute; discriminate | reflexivity].
Defined.
