(* ===== verification/ClaimOrder.v ===== *)
(** * ClaimOrder: which job [claim_next_job] claims.

    The loop of [claim_next_job] blocks jobs with a missing prerequisite on its way;
    the theorem says that nonetheless the job claimed is the one a plain scan of the
    table would choose: the eligible job of highest priority, first in, first out. *)
From S2P Require Import Prelude PyVal Models Timestamps JobState Concurrency Recovery CoreStore JobRows Worktree Leases JobSteps LeaseSpec JobInv.
From S2P Require Import Ledger Scenario JobScenario.
From Stdlib Require Import Sorted.
#[local] Open Scope string_scope.

(** ** The reference *)
Definition done_job (id : string) (t : JT) : bool :=
  match job_of id t with Some d => ostr_eqb (j_terminal d) (Some "DONE") | None => false end.
(** The prerequisite is DONE, or there is none. *)
Definition unblocked (t : JT) (j : Job) : bool :=
  match j_depends_on j with
  | Some dep => if truthy dep then done_job dep t else true
  | None => true
  end.
Definition eligible (now_iso : string) (t : JT) (j : Job) : bool :=
  fst (_job_is_claimable j now_iso) && unblocked t j.
(** [j] is the first of the highest priority among the rows that satisfy [p]. *)
Definition first_highest (p : Job -> bool) (l : list Job) (j : Job) : Prop :=
  exists l1 l2, l = (l1 ++ j :: l2)%list /\ p j = true /\
    (forall x, In x l1 -> p x = true -> (j_priority x < j_priority j)%Z) /\
    (forall x, In x l2 -> p x = true -> (j_priority x <= j_priority j)%Z).

(** ** Sorting *)
Definition ge_priority (a b : Job) : Prop := (j_priority b <= j_priority a)%Z.
Lemma insert_In x l y : In y (insert_priority x l) <-> y = x \/ In y l.
Proof.
  induction l as [|z l IH]; cbn; [intuition congruence|].
  destruct (_ <=? _)%Z; cbn; [|rewrite IH]; intuition congruence.
Qed.
Lemma by_priority_In l y : In y (by_priority l) <-> In y l.
Proof. induction l as [|x l IH]; [done|]. cbn. rewrite insert_In, IH. intuition congruence. Qed.
Lemma by_priority_perm l : Permutation l (by_priority l).
Proof.
  assert (I : forall x l, Permutation (x :: l) (insert_priority x l)).
  { intros x m. induction m as [|z m IH]; cbn; [done|]. destruct (_ <=? _)%Z; [done|].
    rewrite <- IH. apply perm_swap. }
  induction l as [|x l IH]; [done|]. change (by_priority (x :: l)) with (insert_priority x (by_priority l)).
  rewrite <- I. by constructor.
Qed.
Lemma insert_sorted x l : StronglySorted ge_priority l -> StronglySorted ge_priority (insert_priority x l).
Proof.
  induction 1 as [|y l S IH F]; cbn; [by repeat constructor|].
  destruct (Z.leb_spec (j_priority y) (j_priority x)) as [L|L].
  - constructor; [by constructor|]. constructor; [done|]. eapply Forall_impl; [exact F|]. unfold ge_priority. cbn. lia.
  - constructor; [done|]. rewrite List.Forall_forall in *. intros z [->|I]%insert_In; [unfold ge_priority; lia | auto].
Qed.
Lemma by_priority_sorted l : StronglySorted ge_priority (by_priority l).
Proof. induction l; cbn; [constructor | by apply insert_sorted]. Qed.
Lemma find_insert p x l : StronglySorted ge_priority l ->
  find p (insert_priority x l) =
  if p x then match find p l with
              | Some y => if (j_priority y <=? j_priority x)%Z then Some x else Some y
              | None => Some x
              end
  else find p l.
Proof.
  induction 1 as [|y l S IH F]; [done|]. cbn.
  destruct (Z.leb_spec (j_priority y) (j_priority x)) as [L|L]; cbn.
  - destruct (p x) eqn:P; [|done]. destruct (p y); [by rewrite (proj2 (Z.leb_le _ _) L)|].
    destruct (find p l) as [z|] eqn:E; [|done]. apply find_some in E as [I _].
    rewrite List.Forall_forall in F. specialize (F _ I). unfold ge_priority in F.
    by rewrite (proj2 (Z.leb_le _ _)) by lia.
  - rewrite IH. destruct (p x); [|done]. destruct (p y); [|done].
    by rewrite (proj2 (Z.leb_gt _ _) L).
Qed.
Lemma find_by_priority p l :
  match find p (by_priority l) with
  | Some j => first_highest p l j
  | None => forall x, In x l -> p x = false
  end.
Proof.
  induction l as [|x l IH]; [by intros x []|]. change (by_priority (x :: l)) with (insert_priority x (by_priority l)).
  rewrite find_insert by apply by_priority_sorted.
  revert IH. destruct (p x) eqn:P; destruct (find p (by_priority l)) as [y|]; intros IH.
  - destruct IH as (l1 & l2 & -> & Py & A & B). destruct (Z.leb_spec (j_priority y) (j_priority x)).
    + exists [], (l1 ++ y :: l2)%list. repeat split; [done | done |]. intros z [I|[<-|I]]%in_app_or Pz; [|done|].
      * specialize (A _ I Pz). lia.
      * specialize (B _ I Pz). lia.
    + exists (x :: l1), l2. repeat split; [done | | done]. intros z [<-|I]; [done | auto].
  - exists [], l. repeat split; [done | done |]. intros z I Pz. rewrite IH in Pz; done.
  - destruct IH as (l1 & l2 & -> & Py & A & B). exists (x :: l1), l2. repeat split; [done | | done].
    intros z [<-|I]; [congruence | auto].
  - intros z [<-|I]; auto.
Qed.

(** ** The loop *)
Section Loop.
Context {env : Env}.

(** What a block leaves unchanged for the rest of the scan. *)
Definition same_deps (t t' : JT) : Prop := forall id,
  (is_some (job_of id t') = is_some (job_of id t)) /\ done_job id t' = done_job id t.
Lemma same_deps_refl t : same_deps t t.
Proof. done. Qed.
Lemma same_deps_trans t1 t2 t3 : same_deps t1 t2 -> same_deps t2 t3 -> same_deps t1 t3.
Proof. intros A B id. destruct (A id), (B id). split; congruence. Qed.

Lemma block_ok j n s u s' : sok s -> job_of (j_id j) (js_t s) = Some j ->
  _block_missing_dependency j n s = (Ok u, s') ->
  sok s' /\ same_deps (js_t s) (js_t s') /\
  forall x, job_of (j_id x) (js_t s) = Some x -> j_id x <> j_id j -> job_of (j_id x) (js_t s') = Some x.
Proof.
  intros K J R. unfold _block_missing_dependency in R. destruct (j_terminal j) as [z|] eqn:T; cbn in R.
  { apply mret_ok in R as [_ <-]. done. }
  apply M_bind_ok in R as (r & s1 & R & E). apply mret_ok in E as [_ <-].
  apply transition_ok in R as (j' & J' & (_ & _ & _ & _) & _ & (D & Tt & _ & K')).
  rewrite J in J'. injection J' as <-. split; [exact K'|]. rewrite Tt.
  set (f := apply_all _). assert (Kf : forall x, j_id (f x) = j_id x) by (intros; apply apply_all_id).
  split.
  - intros id. unfold done_job. rewrite job_of_put by done.
    destruct (job_of id (js_t s)) as [x|] eqn:E; [|done]. cbn. split; [done|].
    unfold is_job. destruct (String.eqb_spec (j_id x) (j_id j)) as [I|_]; [|done].
    pose proof (row_by_id _ _ _ _ E) as [I' _]. rewrite I' in I. subst id. rewrite J in E. injection E as <-.
    by rewrite T.
  - intros x X N. rewrite job_of_put, X by done. cbn. unfold is_job.
    destruct (String.eqb_spec (j_id x) (j_id j)); [done|]. done.
Qed.

Definition granted_job (owner : string) (j r : Job) : Prop :=
  j_id r = j_id j /\ j_primary_state r = "RUNNING" /\ j_owner_instance_id r = Some owner /\
  j_lease_epoch r = (j_lease_epoch j + 1)%Z.
Lemma do_claim_ok id owner ttl now j s r s' : job_of id (js_t s) = Some j ->
  _do_claim_locked id owner ttl now s = (Ok r, s') -> granted_job owner j r.
Proof.
  intros J R. unfold _do_claim_locked, _validate_lease_owner, _validate_ttl in R. inv_ok R.
  repeat match goal with
  | H : (_ ≫= _) _ = (Ok _, _) |- _ => progress inv_ok H
  | H : raise_when _ _ _ = (Ok _, _) |- _ => apply raise_when_ok in H as [H <-]
  | J : need_job _ _ = _ |- _ => apply need_job_ok in J as [? ->]
  end.
  apply transition_ok in R as (j' & J' & _ & -> & _).
  lazymatch goal with H : job_of id _ = Some ?x, H' : job_of id _ = Some j' |- _ =>
    assert (x = j) as -> by congruence; assert (j' = j) as -> by congruence end.
  split; [apply apply_all_id|]. split; [reflexivity|]. split; reflexivity.
Qed.

Lemma loop_ok owner ttl now n rows t0 s r s' :
  sok s -> NoDup (map j_id rows) -> (forall j, In j rows -> job_of (j_id j) (js_t s) = Some j) ->
  same_deps t0 (js_t s) -> claim_loop owner ttl now n rows s = (Ok r, s') ->
  match find (eligible n t0) rows with
  | Some j => exists x, r = Some x /\ granted_job owner j x
  | None => r = None
  end.
Proof.
  revert s. induction rows as [|j rows IH]; intros s K U J D R; [by apply mret_ok in R as [<- _]|].
  cbn [claim_loop] in R. cbn [find map] in *. apply NoDup_cons in U as [N U].
  assert (Next : forall s1, sok s1 -> same_deps (js_t s) (js_t s1) ->
    (forall x, In x rows -> job_of (j_id x) (js_t s1) = Some x) ->
    claim_loop owner ttl now n rows s1 = (Ok r, s') ->
    match find (eligible n t0) rows with
    | Some j => exists x, r = Some x /\ granted_job owner j x
    | None => r = None
    end).
  { intros s1 K1 D1 J1 R1. apply (IH s1); [done | done | done | by eapply same_deps_trans | done]. }
  assert (Claim : (r ← _do_claim_locked (j_id j) owner ttl now; mret (Some r)) s = (Ok r, s') ->
    exists x, r = Some x /\ granted_job owner j x).
  { intros C. apply M_bind_ok in C as (x & s1 & C & E). apply mret_ok in E as [<- _]. exists x. split; [done|].
    eapply do_claim_ok; [|exact C]. apply J. by left. }
  unfold eligible, unblocked. destruct (fst (_job_is_claimable j n)); cbn [negb andb] in *;
    [|apply (Next s); auto using same_deps_refl; intros; apply J; by right].
  destruct (j_depends_on j) as [dep|]; [|auto]. destruct (truthy dep); [|auto].
  apply M_bind_ok in R as (d & s1 & G & R). apply get_job_ok in G as [-> ->].
  destruct (D dep) as [_ D2]. rewrite <- D2. unfold done_job.
  destruct (job_of dep (js_t s)) as [d|] eqn:G.
  - destruct (ostr_eqb (j_terminal d) (Some "DONE")); cbn [negb] in R; [auto|].
    apply (Next s); auto using same_deps_refl. intros; apply J; by right.
  - apply M_bind_ok in R as (u & s2 & B & R). apply block_ok in B as (K2 & DB & F); [|done | apply J; by left].
    apply (Next s2); [done | done | | done]. intros x I. apply F; [apply J; by right|].
    intros E. apply N. rewrite <- E. apply list_elem_of_In. by apply in_map.
Qed.

(** C34: [claim_next_job], when it returns, claims exactly the job a scan of the tables it
    started from would choose: of the QUEUED, due and unleased jobs whose prerequisite (if
    any) is DONE, the first one of the highest priority, granting its owner the next epoch;
    it returns None only when no job is eligible.  Jobs it blocks on the way do not change
    the choice. *)
Theorem claim_next_first_highest owner ttl s r s' : sok s -> claim_next_job owner ttl s = (Ok r, s') ->
  exists now_iso, format_in_range (clock (ticks s)) = Ok now_iso /\
  match r with
  | Some x => exists j, granted_job owner j x /\ first_highest (eligible now_iso (js_t s)) (jt_jobs (js_t s)) j
  | None => forall j, In j (jt_jobs (js_t s)) -> eligible now_iso (js_t s) j = false
  end.
Proof.
  intros K R. unfold claim_next_job in R. apply M_bind_ok in R as (now & s1 & N & R).
  assert (Q : quiet s s1) by by eapply jnow_reads. unfold jnow, on_core, CoreStore.now in N. injection N as <- _.
  apply M_bind_ok in R as (n & s2 & F & R). apply lift_ok in F as [F <-]. exists n. split; [exact F|].
  apply jtransaction_ok in R as (s3 & Q3 & _ & R). apply M_bind_ok in R as (rows & s4 & G & R).
  unfold jquery in G. apply gets_ok in G as [-> <-].
  pose proof (quiet_trans _ _ _ Q Q3) as Q'. pose proof (quiet_sok _ _ Q' K) as K3. destruct Q' as (_ & T & _).
  pose proof (jobs_uniq _ _ K3) as U. apply (loop_ok _ _ _ _ _ (js_t s)) in R; [|exact K3 | | |].
  - rewrite T in R. pose proof (find_by_priority (eligible n (js_t s)) (jt_jobs (js_t s))) as P.
    destruct (find _ _) as [j|].
    + destruct R as (x & -> & G). by exists j.
    + by subst r.
  - unfold uniq in U. rewrite bool_decide_eq_true in U.
    by rewrite <- (by_priority_perm (jt_jobs (js_t s3))).
  - intros j I. apply by_id_in; [done|]. by apply by_priority_In.
  - by rewrite T.
Qed.
End Loop.

#[local] Existing Instance sample_env.
Lemma claim_next_first_highest_witness : exists r s', claim_next_job "host-a" 3600 queued_st = (Ok r, s') /\
  exists now_iso, format_in_range (clock (ticks queued_st)) = Ok now_iso /\
  match r with
  | Some x => exists j, granted_job "host-a" j x /\
                        first_highest (eligible now_iso (js_t queued_st)) (jt_jobs (js_t queued_st)) j
  | None => forall j, In j (jt_jobs (js_t queued_st)) -> eligible now_iso (js_t queued_st) j = false
  end.
Proof.
  destruct (claim_next_job "host-a" 3600 queued_st) as [[r|e] s'] eqn:E; [|exfalso; vm_compute in E; discriminate].
  exists r, s'. split; [done|]. eapply claim_next_first_highest; [exact queued_sok | exact E].
Defined.
