(* ===== verification/Delivery.v ===== *)
(** * Delivery: any interleaving of delivery workers.

    A worker claims a row, asks its transport to send it and records the outcome, in
    three steps between which other workers, enqueues and crashes happen.  The log is
    what the transports were asked to send. *)
From S2P Require Import Prelude PyVal Models Json Canonical Timestamps JobState CoreStore JobRows Leases JobSteps JobInv Outbox Ledger Scenario JobScenario.
#[local] Open Scope string_scope.

Inductive worker : Type :=
| Claimed (row : Notification) (now_iso : string)
| Sent (row : Notification) (now_iso : string) (o : transport_outcome).
Record World : Type := mkWorld {
  w_st : JSt;
  w_workers : list worker;
  w_log : list NotificationEnvelope
}.
Inductive delivery_act : Type :=
| DEnqueue (job_id task_id : string) (t : NotificationType) (reason event_ref : string) (version : Z)
    (gate binding : option string)
| DClaim
| DSend (i : nat) (o : transport_outcome)
| DFinish (i : nat)
| DCrash (i : nat).

Section Delivery.
Context {env : Env}.

Definition remove_at {A} (i : nat) (l : list A) : list A := (firstn i l ++ skipn (S i) l)%list.
Definition replace_at {A} (i : nat) (x : A) (l : list A) : list A := (firstn i l ++ x :: skipn (S i) l)%list.
Definition claim_pass : jcmd (string * (option Notification * option DeliveryPassResult)) :=
  now_iso ← jnow_iso; c ← _claim now_iso; mret (now_iso, c).
Definition delivery_step (a : delivery_act) (w : World) : World :=
  let s := w_st w in
  match a with
  | DEnqueue j k t r e v g b =>
      mkWorld (snd (_enqueue_notification j k t r e v g b s)) (w_workers w) (w_log w)
  | DClaim =>
      match claim_pass s with
      | (Ok (now_iso, (Some row, None)), s') => mkWorld s' (w_workers w ++ [Claimed row now_iso]) (w_log w)
      | (_, s') => mkWorld s' (w_workers w) (w_log w)
      end
  | DSend i o =>
      match nth_error (w_workers w) i with
      | Some (Claimed row now_iso) =>
          match envelope_of row with
          | Ok (Some e) =>
              mkWorld s (replace_at i (Sent row now_iso o) (w_workers w))
                (if outcome_sends o then w_log w ++ [e] else w_log w)
          | Ok None =>
              mkWorld (snd (discarded row now_iso ERROR_PAYLOAD_HASH_MISMATCH s))
                (remove_at i (w_workers w)) (w_log w)
          | Err _ => mkWorld s (remove_at i (w_workers w)) (w_log w)
          end
      | _ => w
      end
  | DFinish i =>
      match nth_error (w_workers w) i with
      | Some (Sent row now_iso o) =>
          mkWorld (snd (after_send row now_iso o s)) (remove_at i (w_workers w)) (w_log w)
      | _ => w
      end
  | DCrash i => mkWorld s (remove_at i (w_workers w)) (w_log w)
  end.
Definition delivery_run (l : list delivery_act) (w : World) : World :=
  fold_left (fun w a => delivery_step a w) l w.

(** ** What the statements do to a row *)
Definition is_open (n : Notification) : bool := str_in (n_status n) ["PENDING"; "FAILED"; "SENDING"].
(** A row stays, or is open and keeps its attempts, or is claimed once more. *)
Definition moved (n n' : Notification) : Prop :=
  n' = n \/ (is_open n = true /\
    (n_attempt_count n' = n_attempt_count n \/
     ((n_attempt_count n < NOTIFICATION_MAX_ATTEMPTS)%Z /\ n_attempt_count n' = (n_attempt_count n + 1)%Z))).
(** The attempts a row has used; a row not enqueued yet has used none. *)
Definition attempts (id : string) (t : JT) : Z :=
  match notification_of id t with Some n => n_attempt_count n | None => 0 end.
Definition budget (t : JT) : Prop := forall id, (0 <= attempts id t <= NOTIFICATION_MAX_ATTEMPTS)%Z.

(** Rows move, new rows have used no attempt, and [spent] more attempts are used. *)
Record effect (spent : string -> Z) (t t' : JT) : Prop := mkEffect {
  ef_rows : forall id n, notification_of id t = Some n ->
            exists n', notification_of id t' = Some n' /\ moved n n';
  ef_spent : forall id, (attempts id t + spent id <= attempts id t')%Z;
  ef_budget : budget t -> budget t'
}.
Definition none (id : string) : Z := 0.
Definition one (id0 id : string) : Z := if String.eqb id0 id then 1 else 0.
Lemma effect_same spent t t' : jt_outbox t' = jt_outbox t -> (forall id, spent id = 0%Z) ->
  effect spent t t'.
Proof.
  intros E Z0. assert (N : forall id, notification_of id t' = notification_of id t)
    by (intros; unfold notification_of; by rewrite E).
  split; [intros id n; rewrite N; intros H; exists n; split; [done | by left] | |].
  - intros id. unfold attempts. rewrite N, Z0. lia.
  - intros B id. unfold attempts. rewrite N. apply B.
Qed.

Lemma notification_update (p : Notification -> bool) f t id : (forall n, n_id (f n) = n_id n) ->
  notification_of id (set jt_outbox (update_where p f) t)
  = (fun n => if p n then f n else n) <$> notification_of id t.
Proof. intros K. apply (row_by_id_update n_id p f id (jt_outbox t) K). Qed.
Lemma jupdate_any {A} (tbl : JT -> list A) `{Setter JT (list A) tbl} p f s r s' :
  jupdate tbl p f s = (r, s') ->
  s' = s \/ s' = s <| js_t := set tbl (update_where p f) (js_t s) |>.
Proof.
  unfold jupdate, jquery, mbind, M_bind, gets. unfold jwrite.
  destruct (jt_ok _ _); intros [= _ <-]; auto.
Qed.
(** A statement that closes or requeues open rows. *)
Lemma close_effect p f s r s' : (forall n, n_id (f n) = n_id n) ->
  (forall n, n_attempt_count (f n) = n_attempt_count n) ->
  (forall n, p n = true -> is_open n = true) ->
  jupdate jt_outbox p f s = (r, s') -> effect none (js_t s) (js_t s').
Proof.
  intros K A P E. apply jupdate_any in E as [->| ->]; [by apply effect_same|].
  change (js_t (s <| js_t := ?x |>)) with x.
  assert (Q : forall id, attempts id (set jt_outbox (update_where p f) (js_t s)) = attempts id (js_t s)).
  { intros id. unfold attempts. rewrite notification_update by done.
    destruct (notification_of id (js_t s)) as [n|]; [cbn | done]. by destruct (p n). }
  split.
  - intros id n N. rewrite notification_update, N by done. cbn. eexists. split; [done|].
    destruct (p n) eqn:E; [|by left]. right. auto.
  - intros id. rewrite Q. unfold none. lia.
  - intros B id. rewrite Q. apply B.
Qed.
Lemma claimed_row_open id token n : claimed_row id token n = true -> is_open n = true.
Proof.
  unfold claimed_row, is_open. rewrite !andb_true_iff. intros [[_ S] _]. apply String.eqb_eq in S. by rewrite S.
Qed.
Lemma open_row_open id n : open_row id n = true -> is_open n = true.
Proof. unfold open_row. rewrite andb_true_iff. by intros [_ H]. Qed.

(** A program with that effect on every outcome. *)
Definition affects (spent : string -> Z) {A} (m : jcmd A) : Prop :=
  forall s r s', m s = (r, s') -> effect spent (js_t s) (js_t s').
Lemma af_reads {A} (m : jcmd A) : reads m -> affects none m.
Proof. intros H s r s' E. apply H in E as (_ & T & _). apply effect_same; [by rewrite T | done]. Qed.
Lemma af_bind_reads {A B} spent (m : jcmd A) (k : A -> jcmd B) :
  reads m -> (forall a, affects spent (k a)) -> (forall id, (spent id <= 0)%Z) ->
  affects spent (x ← m; k x).
Proof.
  intros Hm Hk P s r s'. unfold mbind, M_bind. destruct (m s) as [[a|e] s1] eqn:E; apply Hm in E as (_ & T & _).
  - intros K%Hk. by rewrite <- T.
  - intros [= _ <-]. destruct (effect_same none (js_t s) (js_t s1)) as [R S Bu]; [by rewrite T | done |].
    split; [done | | done]. intros id. specialize (S id). specialize (P id). unfold none in S. lia.
Qed.
Lemma af_then_ret {A B} spent (m : jcmd A) (k : A -> B) : affects spent m -> affects spent (x ← m; mret (k x)).
Proof. intros Hm s r s'. unfold mbind, M_bind. destruct (m s) as [[a|e] s1] eqn:E; intros [= _ <-]; by eapply Hm. Qed.

Lemma af_discard row n code : affects none (discarded row n code).
Proof.
  unfold discarded. apply (af_then_ret none). unfold _discard_notification. apply (af_then_ret none).
  intros s r s'. apply close_effect; [done | done | apply claimed_row_open].
Qed.
Lemma af_finalize row n receipt : affects none (_finalize row n receipt).
Proof.
  unfold _finalize. destruct (_ <? _)%Z; [apply af_discard|]. destruct (tr_accepted receipt).
  { apply (af_then_ret none). unfold _complete_notification_sent. apply (af_then_ret none).
    intros s r s'. apply close_effect; [done | done | apply claimed_row_open]. }
  destruct (tr_retryable receipt); [|apply af_discard]. destruct (_ <=? _)%Z; [apply af_discard|].
  cbv zeta. apply af_bind_reads; [auto with reads | intros now | done].
  apply af_bind_reads; [auto with reads | intros next | done].
  apply (af_then_ret none). unfold _mark_notification_failed. apply (af_then_ret none).
  intros s r s'. apply close_effect; [done | done | apply claimed_row_open].
Qed.
Lemma af_after_send row n o : affects none (after_send row n o).
Proof. destruct o; cbn; auto using af_discard, af_finalize. Qed.

(** An enqueued row has used no attempt. *)
Lemma insert_effect row s r s' : n_attempt_count row = 0%Z ->
  _insert_notification row s = (r, s') -> effect none (js_t s) (js_t s').
Proof.
  intros Z0 E. unfold _insert_notification in E. revert E. generalize s r s'.
  change (affects none (_insert_notification row)). unfold _insert_notification.
  apply af_bind_reads; [auto with reads | intros _ | done].
  apply af_bind_reads; [unfold jquery; auto with reads | intros [] | done]; [apply af_reads; auto with reads|].
  apply (af_then_ret none). clear s r s'. intros s r s' E. unfold jinsert, jwrite in E.
  destruct (jt_ok _ _) eqn:K; injection E as _ <-; [|by apply effect_same].
  change (js_t (s <| js_t := ?x |>)) with x. set (t := js_t s) in *.
  assert (N : forall id, notification_of id (set jt_outbox (fun l => (l ++ [row])%list) t)
    = match notification_of id t with
      | Some n => Some n
      | None => if String.eqb (n_id row) id then Some row else None
      end).
  { intros id. unfold notification_of, by_id. cbn. induction (jt_outbox t) as [|x l IH]; [done|].
    cbn. by destruct (String.eqb (n_id x) id). }
  assert (Q : forall id, attempts id (set jt_outbox (fun l => (l ++ [row])%list) t) = attempts id t).
  { intros id. unfold attempts. rewrite N. destruct (notification_of id t); [done|]. by destruct (String.eqb _ _). }
  split.
  - intros id n H. exists n. rewrite N, H. split; [done | by left].
  - intros id. rewrite Q. unfold none. lia.
  - intros B id. rewrite Q. apply B.
Qed.
Lemma af_enqueue j k t r e v g b : affects none (_enqueue_notification j k t r e v g b).
Proof.
  unfold _enqueue_notification. apply af_bind_reads; [auto with reads | intros key | done].
  apply af_bind_reads; [auto with reads | intros now | done].
  do 3 (apply af_bind_reads; [auto with reads | intros ? | done]).
  intros s x s'. by apply insert_effect.
Qed.

(** *** The claim *)
Definition claim_cost (r : res exc (option Notification * option DeliveryPassResult)) : string -> Z :=
  match r with Ok (Some row, None) => one (n_id row) | _ => none end.
Lemma claim_effect id token n s k s' :
  jupdate jt_outbox (fun x => open_row id x && (n_attempt_count x <? NOTIFICATION_MAX_ATTEMPTS)%Z)
    (claim_update token n) s = (Ok k, s') ->
  effect none (js_t s) (js_t s') /\ (k = 1 -> effect (one id) (js_t s) (js_t s')).
Proof.
  intros E. apply jupdate_ok in E as (Hk & -> & U).
  change (js_t (s <| js_t := ?x |>)) with x. set (t := js_t s) in *.
  set (p := fun x => open_row id x && (n_attempt_count x <? NOTIFICATION_MAX_ATTEMPTS)%Z) in *.
  set (t' := set jt_outbox _ t) in *.
  assert (N : forall i, notification_of i t' = (fun x => if p x then claim_update token n x else x) <$> notification_of i t).
  { intros i. subst t'. by apply notification_update. }
  assert (M : forall x, moved x (if p x then claim_update token n x else x)).
  { intros x. destruct (p x) eqn:P; [|by left]. right. unfold p in P. rewrite andb_true_iff in P.
    destruct P as [O L]. split; [by eapply open_row_open|]. right. split; [lia|]. cbn. lia. }
  assert (A : forall i, (attempts i t <= attempts i t')%Z /\ (budget t -> 0 <= attempts i t' <= NOTIFICATION_MAX_ATTEMPTS)%Z).
  { intros i. unfold attempts. rewrite N. destruct (notification_of i t) as [x|] eqn:E.
    - cbn. split.
      + destruct (M x) as [->|[_ [->|[_ ->]]]]; lia.
      + intros B. specialize (B i). unfold attempts in B. rewrite E in B.
        destruct (M x) as [->|[_ [->|[L ->]]]]; lia.
    - cbn. split; [lia|]. intros _. unfold NOTIFICATION_MAX_ATTEMPTS. lia. }
  assert (R : forall i x, notification_of i t = Some x -> exists x', notification_of i t' = Some x' /\ moved x x').
  { intros i x H. rewrite N, H. cbn. eauto. }
  split.
  - split; [exact R | | intros B i; by apply A]. intros i. unfold none. destruct (A i). lia.
  - intros ->. split; [exact R | | intros B i; by apply A]. intros i. unfold one.
    destruct (String.eqb_spec id i) as [<-|_]; [|destruct (A i); lia].
    assert (I : exists x, In x (jt_outbox t) /\ p x = true).
    { unfold count_where in Hk. destruct (List.filter p (jt_outbox t)) as [|x l] eqn:E; [done|].
      exists x. apply filter_In. rewrite E. by left. }
    destruct I as (x & I & P). 
assert (Q : notification_of id t = Some x).
    { unfold p, open_row in P. rewrite !andb_true_iff in P. destruct P as [[P _] _].
      apply String.eqb_eq in P as <-. unfold notification_of. apply by_id_in; [|done].
      rewrite <- (uniq_update n_id p (claim_update token n)) by done.
      change (uniq n_id (jt_outbox t') = true). unfold jt_ok, outbox_ok in U.
      rewrite !andb_true_iff in U. tauto. }
    unfold attempts. rewrite N, Q. cbn. rewrite P. cbn. lia.
Qed.
Lemma af_claim n s r s' : _claim n s = (r, s') -> effect (claim_cost r) (js_t s) (js_t s').
Proof.
  unfold _claim. unfold mbind at 1, M_bind at 1.
  destruct (lease_cutoff NOTIFICATION_CLAIM_LEASE_SECONDS s) as [[c|e] s1] eqn:L;
    (assert (T : js_t s1 = js_t s) by (eapply (reads_bind jnow) in L; [apply L | auto with reads..]));
    [|intros [= <- <-]; apply effect_same; [by rewrite T | done]].
  unfold rollback. lazymatch goal with |- context [match ?b with _ => _ end] => destruct b as [[x|e] s2] eqn:B end;
    [|intros [= <- <-]; apply effect_same; [cbn; by rewrite T | done]].
  intros [= <- <-]. rewrite <- T. clear L T s.
  apply M_bind_ok in B as (d & s3 & Q & B). apply gets_ok in Q as [_ <-]. destruct d as [d|].
  2:{ apply mret_ok in B as [<- <-]. by apply effect_same. }
  destruct (_ <=? _)%Z.
  - apply M_bind_ok in B as (k & s3 & U & B). apply mret_ok in B as [<- <-].
    apply close_effect in U; [done | done | done | apply open_row_open].
  - apply M_bind_ok in B as (tok & s3 & U & B).
    assert (T : js_t s3 = js_t s1).
    { unfold _new_claim_token, on_core, uuid, mbind, M_bind in U. by injection U as _ <-. }
    apply M_bind_ok in B as (k & s4 & C & B). apply claim_effect in C as [C0 C1]. rewrite T in *.
    destruct (Nat.eqb_spec k 1) as [->|]; cbn in B.
    + apply M_bind_ok in B as (cl & s5 & G & B). apply mret_ok in B as [<- <-].
      unfold get_notification, jquery in G. apply gets_ok in G as [-> <-].
      specialize (C1 eq_refl). unfold claim_cost.
      destruct (notification_of (n_id d) (js_t s4)) as [row|] eqn:E; [|exact C0].
      unfold notification_of in E. apply row_by_id in E as [-> _]. exact C1.
    + apply mret_ok in B as [<- <-]. exact C0.
Qed.

Definition pass_cost (r : res exc (string * (option Notification * option DeliveryPassResult)))
  : string -> Z := match r with Ok (_, c) => claim_cost (Ok c) | Err _ => none end.
Lemma pass_effect s r s' : claim_pass s = (r, s') -> effect (pass_cost r) (js_t s) (js_t s').
Proof.
  unfold claim_pass. unfold mbind at 1, M_bind at 1.
  destruct (jnow_iso s) as [[n|x] s1] eqn:N; apply jnow_iso_reads in N as (_ & T & _).
  - unfold mbind, M_bind. destruct (_claim n s1) as [[c|x] s2] eqn:C; apply af_claim in C; rewrite T in C;
      by intros [= <- <-].
  - intros [= <- <-]. apply effect_same; [by rewrite T | done].
Qed.

(** ** The interleaved run *)
Definition is_for (id : string) (row : Notification) : bool := String.eqb (n_id row) id.
Definition pending (id : string) (w : worker) : bool :=
  match w with Claimed row _ => is_for id row | Sent _ _ _ => false end.
Definition sends (id : string) (w : World) : Z :=
  Z.of_nat (count_where (fun e => String.eqb (ne_outbox_id e) id) (w_log w)).
Definition claims (id : string) (w : World) : Z := Z.of_nat (count_where (pending id) (w_workers w)).

(** Sends and claims in flight are paid for by the attempts used since [a0]. *)
Definition paid (a0 : string -> Z) (w : World) : Prop := forall id,
  (a0 id + sends id w + claims id w <= attempts id (js_t (w_st w)))%Z.

Lemma count_app {A} (p : A -> bool) l m : count_where p (l ++ m) = count_where p l + count_where p m.
Proof. unfold count_where. by rewrite List.filter_app, length_app. Qed.
Lemma count_split {A} (p : A -> bool) l i x : nth_error l i = Some x ->
  count_where p l = count_where p (firstn i l) + (if p x then 1 else 0) + count_where p (skipn (S i) l).
Proof.
  intros N. rewrite <- (firstn_skipn i l) at 1. rewrite count_app.
  assert (E : skipn i l = x :: skipn (S i) l).
  { revert i N. induction l as [|y l IH]; intros [|i] N; try done; cbn in *; [by injection N as -> | by apply IH]. }
  rewrite E. unfold count_where at 2. cbn. destruct (p x); cbn; unfold count_where; lia.
Qed.
Lemma count_remove {A} (p : A -> bool) l i x : nth_error l i = Some x ->
  count_where p (remove_at i l) + (if p x then 1 else 0) = count_where p l.
Proof. intros N. rewrite (count_split p l i x N). unfold remove_at. rewrite count_app. lia. Qed.
Lemma count_replace {A} (p : A -> bool) l i x y : nth_error l i = Some x ->
  count_where p (replace_at i y l) + (if p x then 1 else 0) = count_where p l + (if p y then 1 else 0).
Proof.
  intros N. rewrite (count_split p l i x N). unfold replace_at. rewrite count_app.
  unfold count_where at 2. cbn. destruct (p y); cbn; unfold count_where; lia.
Qed.
Lemma count_remove_le {A} (p : A -> bool) l i : count_where p (remove_at i l) <= count_where p l.
Proof.
  destruct (nth_error l i) as [x|] eqn:N; [rewrite <- (count_remove p l i x N); lia|].
  apply nth_error_None in N. unfold remove_at. rewrite firstn_all2, skipn_all2, app_nil_r by lia. done.
Qed.

Lemma envelope_id row e : envelope_of row = Ok (Some e) -> ne_outbox_id e = n_id row.
Proof.
  unfold envelope_of. intros R. apply res_bind_ok in R as (p & _ & R). destruct p as [p|]; [|done].
  apply res_bind_ok in R as (t & _ & R). apply res_bind_ok in R as (x & _ & R). by injection R as <-.
Qed.
Lemma claims_remove id w i s l : 
  (claims id (mkWorld s (remove_at i (w_workers w)) l) <= claims id w)%Z.
Proof. unfold claims. cbn [w_workers]. pose proof (count_remove_le (pending id) (w_workers w) i). lia. Qed.

Ltac tally := unfold none, one, sends, claims in *; cbn [w_log w_workers w_st] in *.
(** One step: the tables change by an effect that pays for the sends and claims it adds. *)
Lemma step_effect a w : exists spent, effect spent (js_t (w_st w)) (js_t (w_st (delivery_step a w))) /\
  forall id, (sends id (delivery_step a w) + claims id (delivery_step a w)
              <= sends id w + claims id w + spent id)%Z.
Proof.
  destruct a as [j k t r e v g b| |i o|i|i]; cbn [delivery_step].
  - exists none. split.
    + destruct (_enqueue_notification j k t r e v g b (w_st w)) as [x s'] eqn:E. by apply af_enqueue in E.
    + intros id. tally. lia.
  - destruct (claim_pass (w_st w)) as [r s2] eqn:C. apply pass_effect in C. exists (pass_cost r).
    destruct r as [[n [[row|] [d|]]]|x]; (split; [exact C|]); intros id; cbn [pass_cost claim_cost]; tally; try lia.
    rewrite count_app. unfold count_where at 3. cbn. unfold is_for. destruct (String.eqb (n_id row) id); cbn; lia.
  - exists none. destruct (nth_error (w_workers w) i) as [[row n|row n o']|] eqn:N;
      try (split; [by apply effect_same | intros id; unfold none; lia]).
    destruct (envelope_of row) as [[e|]|x] eqn:V; cbn.
    + split; [by apply effect_same|]. intros id. tally.
      pose proof (count_replace (pending id) _ _ _ (Sent row n o) N) as R. cbn in R.
      apply envelope_id in V. unfold is_for in R.
      destruct (outcome_sends o); [rewrite count_app; unfold count_where at 2; cbn; rewrite V|];
        destruct (String.eqb (n_id row) id); cbn; lia.
    + split.
      * destruct (discarded row n ERROR_PAYLOAD_HASH_MISMATCH (w_st w)) as [x s'] eqn:E. by apply af_discard in E.
      * intros id. pose proof (claims_remove id w i (snd (discarded row n ERROR_PAYLOAD_HASH_MISMATCH (w_st w))) (w_log w)).
        tally. lia.
    + split; [by apply effect_same|]. intros id. pose proof (claims_remove id w i (w_st w) (w_log w)).
      tally. lia.
  - exists none. destruct (nth_error (w_workers w) i) as [[row n|row n o]|] eqn:N;
      try (split; [by apply effect_same | intros id; unfold none; lia]).
    cbn. split.
    + destruct (after_send row n o (w_st w)) as [x s'] eqn:E. by apply af_after_send in E.
    + intros id. pose proof (claims_remove id w i (snd (after_send row n o (w_st w))) (w_log w)).
      tally. lia.
  - exists none. split; [by apply effect_same|]. intros id. pose proof (claims_remove id w i (w_st w) (w_log w)).
    tally. lia.
Qed.
Lemma run_paid a0 l w : paid a0 w -> budget (js_t (w_st w)) ->
  paid a0 (delivery_run l w) /\ budget (js_t (w_st (delivery_run l w))).
Proof.
  revert w. induction l as [|a l IH]; intros w P B; [done|]. cbn.
  destruct (step_effect a w) as (spent & [_ S Bu] & C). apply IH; [|auto].
  intros id. specialize (P id). specialize (S id). specialize (C id). lia.
Qed.
Lemma run_closed l w id n : notification_of id (js_t (w_st w)) = Some n -> is_open n = false ->
  notification_of id (js_t (w_st (delivery_run l w))) = Some n.
Proof.
  revert w. induction l as [|a l IH]; intros w N O; [done|]. cbn. apply IH; [|done].
  destruct (step_effect a w) as (spent & [R _ _] & _). destruct (R _ _ N) as (n' & N' & [->|[M _]]); congruence.
Qed.

(** C26: at most five sends.  However the claims, sends, completions, crashes and enqueues
    of any number of delivery workers interleave, a notification is handed to a transport
    at most [5 - attempts] times, [attempts] being what its row had used at the start
    (none, when it is enqueued later). *)
Theorem sends_bounded l s id : budget (js_t s) ->
  (sends id (delivery_run l (mkWorld s [] [])) <= NOTIFICATION_MAX_ATTEMPTS - attempts id (js_t s))%Z.
Proof.
  intros B. destruct (run_paid (fun id => attempts id (js_t s)) l (mkWorld s [] [])) as [P B'].
  - intros i. tally. unfold count_where. cbn. lia.
  - exact B.
  - specialize (P id). specialize (B' id). unfold claims in P. cbn beta in P. lia.
Qed.
(** A notification that was SENT or DISCARDED is final: no interleaving of workers
    claims it again or changes its row. *)
Theorem closed_notification_final l s id n : notification_of id (js_t s) = Some n ->
  n_status n = "SENT" \/ n_status n = "DISCARDED" ->
  notification_of id (js_t (w_st (delivery_run l (mkWorld s [] [])))) = Some n.
Proof. intros N S. apply run_closed; [done|]. unfold is_open. by destruct S as [-> | ->]. Qed.
End Delivery.

(** ** Witnesses *)
#[local] Existing Instance sample_env.
Definition accepted : transport_outcome := SendReceipt (mkTransportReceipt true false None None).
Definition refused : transport_outcome := SendReceipt (mkTransportReceipt false true (Some "TIMEOUT") None).
Definition noticed_st : JSt :=
  snd (_enqueue_notification job_id0 "u1" NT_DONE "TASK_DONE" "ref" 1 None None queued_st).
Definition notice_id : string := match jt_outbox (js_t noticed_st) with n :: _ => n_id n | [] => EmptyString end.
(** Two attempts on the same row: the first fails, the second is accepted. *)
Definition two_workers : list delivery_act :=
  [DClaim; DSend 0 refused; DFinish 0; DClaim; DSend 0 accepted; DFinish 0; DClaim].
Example two_workers_sent :
  sends notice_id (delivery_run two_workers (mkWorld noticed_st [] [])) = 2%Z /\
  (n_status <$> notification_of notice_id (js_t (w_st (delivery_run two_workers (mkWorld noticed_st [] [])))))
  = Some "SENT".
Proof. split; vm_compute; reflexivity. Qed.

Lemma noticed_budget : budget (js_t noticed_st).
Proof.
  intros id. unfold attempts, notification_of, by_id.
  change (jt_outbox (js_t noticed_st)) with (jt_outbox (js_t noticed_st)).
  destruct (find _ _) as [n|] eqn:F; [|unfold NOTIFICATION_MAX_ATTEMPTS; lia].
  apply find_some in F as [I _].
  assert (E : forallb (fun n => Z.eqb (n_attempt_count n) 0) (jt_outbox (js_t noticed_st)) = true)
    by (vm_compute; reflexivity).
  rewrite forallb_forall in E. specialize (E _ I). unfold NOTIFICATION_MAX_ATTEMPTS. lia.
Qed.
Lemma sends_bounded_witness :
  (sends notice_id (delivery_run two_workers (mkWorld noticed_st [] []))
   <= NOTIFICATION_MAX_ATTEMPTS - attempts notice_id (js_t noticed_st))%Z.
Proof. apply sends_bounded. exact noticed_budget. Defined.
Definition sent_st : JSt := w_st (delivery_run two_workers (mkWorld noticed_st [] [])).
Lemma closed_notification_final_witness : exists n, notification_of notice_id (js_t sent_st) = Some n /\
  notification_of notice_id (js_t (w_st (delivery_run two_workers (mkWorld sent_st [] [])))) = Some n.
Proof.
  eexists. split; [vm_compute; reflexivity|].
  apply closed_notification_final; [vm_compute; reflexivity | left; reflexivity].
Defined.
