(* ===== verification/Supervisor.v ===== *)
(** * Supervisor: the decision of the reconciler
    (src/argent_core/supervisor.py, [_decide] and what it reads).

    [_Snapshot] is everything a decision depends on, [_decide] the decision table: from
    a snapshot and an observation of the runtime to one next action.  The observation
    is untrusted data of an adapter and an input of the model. *)
From S2P Require Import Prelude PyVal Models Json Canonical Timestamps Workflow JobState CoreStore Dispatch JobRows Leases Outbox Ledger.
#[local] Open Scope string_scope.

Definition RUNNING_POLL_SECONDS : Z := 2.
Definition BACKOFF_MAX_SECONDS : Z := 30.
Definition MAX_SNAPSHOT_RETRIES : nat := 3.
Definition MAX_ACTION_RETRIES : Z := 5.
Definition MAX_RUNTIME_UNKNOWN : Z := 5.
Definition MISSING_BOUND_RUN_CONFIRMATIONS : Z := 8.
Definition MISSING_UNBOUND_SPAWN_CONFIRMATIONS : Z := 15.
Definition MAX_DISPATCH_ATTEMPTS_PER_STEP : Z := 3.

Record RunLookup : Type := mkRunLookup {
  lk_dispatch_id : string;
  lk_agent_id : string;
  lk_expected_session_label : string;
  lk_bound_session_id : option string;
  lk_bound_run_id : option string;
  lk_expected_provider : option string;
  lk_expected_model : option string;
  lk_expected_thinking_tier : option string
}.
Record RunObservation : Type := mkRunObservation {
  ob_status : RunStatus;
  ob_agent_id : option string;
  ob_session_id : option string;
  ob_run_id : option string;
  ob_provider : option string;
  ob_model : option string;
  ob_thinking_tier : option string;
  ob_started_at : option string;
  ob_finished_at : option string;
  ob_result : option pydict;
  ob_result_hash : option string;
  ob_authoritative_not_found : bool;
  ob_evidence_id : string;
  ob_error_code : option string;
  ob_adapter_exception_type : option string
}.
Record _Snapshot : Type := mkSnap {
  sp_job : Job;
  sp_task : Task;
  sp_frontier : WorkflowFrontier;
  sp_active_dispatch : option AgentDispatch;
  sp_dispatch_at_frontier : option AgentDispatch;
  sp_max_attempt_at_frontier : Z;
  sp_active_role_run : option RoleRun;
  sp_gate : option OwnerApproval;
  sp_open_gates_count : nat;
  sp_open_findings_count : Z;
  sp_latest_handoff_id : option string;
  sp_action_journal : list (string * string * Z)
}.
Record _Plan : Type := mkPlan {
  pl_action : ReconcileAction;
  pl_reason : string;
  pl_dispatch_id : option string;
  pl_wake_at : option string;
  pl_status : option string;
  pl_recovery_state : option string;
  pl_retry_count : option Z;
  pl_missing_confirmations : option Z;
  pl_last_error_code : option string;
  pl_terminal : option string
}.
#[export] Instance Plan_eta : EtaExpand _Plan := fun x =>
  mkPlan (pl_action x) (pl_reason x) (pl_dispatch_id x) (pl_wake_at x) (pl_status x) (pl_recovery_state x)
    (pl_retry_count x) (pl_missing_confirmations x) (pl_last_error_code x) (pl_terminal x).
Definition plan (a : ReconcileAction) (reason : string) : _Plan :=
  mkPlan a reason None None None None None None None None.
(** A sticky error. *)
Definition error_plan (reason code : string) : _Plan :=
  (plan RA_PERSISTENT_ERROR reason) <| pl_status := Some (value SJ_ERROR) |> <| pl_last_error_code := Some code |>.
Definition for_dispatch (ad : AgentDispatch) (p : _Plan) : _Plan := p <| pl_dispatch_id := Some (d_id ad) |>.
Definition recovering (r : RecoveryState) (p : _Plan) : _Plan := p <| pl_recovery_state := Some (value r) |>.

(** ** Helpers *)
(** [min(1.0 * 2.0 ** max(retry, 0), 30.0)]: the power of a float overflows from 2^1024 on. *)
Definition backoff_seconds (retry_count : Z) : res exc Z :=
  let r := Z.max retry_count 0 in
  _ ← res_unless (r <? 1024)%Z OverflowError;
  Ok (Z.min (2 ^ r) BACKOFF_MAX_SECONDS).
Definition _is_implementer (r : Role) : bool := bool_decide (r = IMPLEMENTER).
Definition _is_write_role (r : Role) : bool := in_list r [IMPLEMENTER; QA].
Definition _build_lookup (d : AgentDispatch) : RunLookup :=
  mkRunLookup (d_id d) (AGENT_IDS (d_role d)) ("dispatch-" ++ d_id d) (d_child_session_id d) (d_openclaw_run_id d)
    (Some (default (d_expected_agent_class d) (d_actual_provider d)))
    (Some (default (d_expected_model_class d) (d_actual_model d)))
    (Some (default (d_expected_thinking_tier d) (d_thinking_tier d))).
(** The observation that stands for a structural adapter exception. *)
Definition conflict_observation (lookup : RunLookup) (type_name : string) : RunObservation :=
  mkRunObservation RUN_CONFLICT (Some (lk_agent_id lookup)) None None None None None None None None None false
    ("adapter_exception:" ++ type_name) (Some "malformed_runtime_data") (Some type_name).

(** ** The journal, as the decision reads it *)
Definition action_by_key (key : string) (t : JT) : option SupervisorAction :=
  find (fun a => String.eqb (a_action_key a) key) (jt_actions t).
Definition of_dispatch (dispatch_id type_ : string) (a : SupervisorAction) : bool :=
  ostr_eqb (a_dispatch_id a) (Some dispatch_id) && String.eqb (a_action_type a) type_.
Definition dispatch_actions (dispatch_id type_ : string) (t : JT) : list SupervisorAction :=
  List.filter (of_dispatch dispatch_id type_) (jt_actions t).
(** [max(matches, key=created_at)]. *)
Definition later_action (o : option SupervisorAction) (a : SupervisorAction) : option SupervisorAction :=
  match o with
  | Some m => if str_ltb (a_created_at m) (a_created_at a) then Some a else Some m
  | None => Some a
  end.
Definition _latest_action (dispatch_id type_ : string) (t : JT) : option SupervisorAction :=
  fold_left later_action (dispatch_actions dispatch_id type_ t) None.
Definition spawn_key (dispatch_id : string) : string := "supervisor:dispatch:" ++ dispatch_id ++ ":spawn".
Definition _spawn_action (dispatch_id : string) (t : JT) : option SupervisorAction :=
  action_by_key (spawn_key dispatch_id) t.
Definition _action_succeeded (dispatch_id type_ : string) (t : JT) : bool :=
  existsb (fun a => of_dispatch dispatch_id type_ a && String.eqb (a_status a) "SUCCEEDED") (jt_actions t).
Definition _committed_apply_intents (dispatch_id : string) (t : JT) : list SupervisorAction :=
  List.filter (fun a => of_dispatch dispatch_id "APPLY_PATCH_SET" a
                        && str_in (a_status a) ["RUNNING"; "UNCERTAIN"; "SUCCEEDED"]) (jt_actions t).
Definition _diverged_apply_intent (dispatch_id : string) (t : JT) : option SupervisorAction :=
  find (fun a => String.eqb (a_status a) "UNCERTAIN"
                 && ostr_eqb (a_last_error_code a) (Some "workspace_diverged"))
    (_committed_apply_intents dispatch_id t).
Definition write_intent (dispatch_id : string) (t : JT) : option WriteIntent :=
  by_id wi_dispatch_id dispatch_id (jt_intents t).
Definition _frozen_write_result_hash (dispatch_id : string) (t : JT) : option string :=
  match write_intent dispatch_id t with
  | Some w => Some (wi_canonical_input_hash w)
  | None => match _committed_apply_intents dispatch_id t with
            | [] => None
            | a :: _ => a_input_hash a
            end
  end.
(** [result or {}]. *)
Definition _canonical_full_result_hash (result : option pydict) : res exc string :=
  c ← _canonical_json (PDict (default [] result)); Ok (sha256 c).
Definition exhausted_action (o : option SupervisorAction) : bool :=
  match o with
  | Some a => String.eqb (a_status a) "FAILED" && (MAX_ACTION_RETRIES <=? a_attempt_count a)%Z
  | None => false
  end.
Definition write_stages : list string :=
  ["APPLY_PATCH_SET"; "RUN_SANDBOX_TESTS"; "RECORD_TEST_RESULT"; "CONSUME_RESULT"].

(** ** The decision *)
Section Decide.
Context {env : Env}.

(** [_iso(self._now() + timedelta(seconds=...))]. *)
Definition wake_after (seconds : Z) : jcmd string := now ← jnow; lift (format_after now seconds).
Definition wait_until (seconds : Z) (p : _Plan) : jcmd _Plan :=
  w ← wake_after seconds; mret (p <| pl_wake_at := Some w |>).
Definition wait_backoff (retry : Z) (p : _Plan) : jcmd _Plan :=
  now ← jnow;
  b ← lift (backoff_seconds retry);
  w ← lift (format_after now b);
  mret (p <| pl_wake_at := Some w |>).
Definition polled (reason : string) (status : SupervisorJobStatus) : _Plan :=
  (plan RA_WAIT reason) <| pl_status := Some (value status) |>.

(** A bounded backoff: a sticky error once the retry budget is used. *)
Definition bounded_backoff (job : Job) (ad : AgentDispatch) (reason : string) : jcmd _Plan :=
  let retry := (j_retry_count job + 1)%Z in
  if (MAX_RUNTIME_UNKNOWN <=? retry)%Z then
    mret (recovering RV_PERSISTENT_ERROR (for_dispatch ad (error_plan reason reason))
            <| pl_retry_count := Some retry |>)
  else
    wait_backoff retry
      (recovering RV_RUNTIME_UNKNOWN (for_dispatch ad (polled reason SJ_BACKOFF))
         <| pl_retry_count := Some retry |>).
Definition _adapter_backoff (snap : _Snapshot) (ad : AgentDispatch) (obs : RunObservation) : jcmd _Plan :=
  bounded_backoff (sp_job snap) ad ("adapter_" ++ lower (value (ob_status obs))).
Definition _write_hash_mismatch_plan (snap : _Snapshot) (ad : AgentDispatch) : jcmd _Plan :=
  bounded_backoff (sp_job snap) ad "write_result_hash_mismatch".
Definition _apply_diverged_plan (snap : _Snapshot) (ad : AgentDispatch) : jcmd _Plan :=
  bounded_backoff (sp_job snap) ad "workspace_diverged".
(** Wait for a run that is not there, counting the confirmations. *)
Definition _wait_missing (snap : _Snapshot) (ad : AgentDispatch) (reason : string) (r : RecoveryState)
  : jcmd _Plan :=
  let job := sp_job snap in
  let missing := (fl_missing_confirmations (j_flow job) + 1)%Z in
  let retry := (j_retry_count job + 1)%Z in
  wait_backoff (retry - 1)
    (recovering r (for_dispatch ad (polled reason SJ_ACTIVE))
       <| pl_missing_confirmations := Some missing |> <| pl_retry_count := Some retry |>).

Definition gate_open (g : option OwnerApproval) : bool :=
  match g with Some g => is_live g | None => false end.
Definition _decide_gate (snap : _Snapshot) : jcmd (option _Plan) :=
  let job := sp_job snap in
  let gate := sp_gate snap in
  if Nat.ltb 1 (sp_open_gates_count snap)
  then mret (Some (error_plan "multiple_active_gates" "multiple_active_gates"))
  else if bool_decide (t_state (sp_task snap) = OWNER_APPROVAL_REQUIRED) then
    match gate with
    | Some g =>
        if negb (is_live g) then
          mret (Some (error_plan "gate_task_inconsistent_no_gate" "gate_task_inconsistent"))
        else if bool_decide (ap_status g = AP_PENDING) then
          if negb (is_some (fl_owner_prompted_at (j_flow job)))
             || negb (ostr_eqb (fl_owner_prompted_gate_id (j_flow job)) (Some (ap_id g)))
          then mret (Some ((plan RA_PRESENT_OWNER_GATE "present_gate")
                             <| pl_status := Some (value SJ_WAITING_GATE) |>))
          else p ← wait_until RUNNING_POLL_SECONDS (polled "waiting_gate" SJ_WAITING_GATE); mret (Some p)
        else
          p ← wait_until RUNNING_POLL_SECONDS (polled "gate_approved_waiting_execution" SJ_WAITING_GATE);
          mret (Some p)
    | None => mret (Some (error_plan "gate_task_inconsistent_no_gate" "gate_task_inconsistent"))
    end
  else if gate_open gate then
    mret (Some (error_plan "gate_task_inconsistent_active_gate" "gate_task_inconsistent"))
  else mret None.

Definition _decide_no_active (snap : _Snapshot) (role : Role) : _Plan :=
  let latest := sp_dispatch_at_frontier snap in
  let exhausted := match latest with
                   | Some d => in_list (d_status d) [DFAILED; DREJECTED]
                               && (MAX_DISPATCH_ATTEMPTS_PER_STEP <=? d_attempt_no d)%Z
                   | None => false
                   end in
  if exhausted then plan RA_CLOSE_FAILED "max_attempts"
  else if match sp_active_role_run snap with Some r => negb (bool_decide (rr_role r = role)) | None => true end
  then (plan RA_START_ROLE "need_role") <| pl_dispatch_id := d_id <$> latest |>
  else (plan RA_CREATE_DISPATCH "need_dispatch") <| pl_dispatch_id := d_id <$> latest |>
         <| pl_missing_confirmations := Some 0%Z |> <| pl_retry_count := Some 0%Z |>.

Definition no_observation : jcmd _Plan := wait_until RUNNING_POLL_SECONDS (polled "no_observation" SJ_ACTIVE).
Definition _decide_unbound (snap : _Snapshot) (obs : option RunObservation) (role : Role)
    (ad : AgentDispatch) : jcmd _Plan :=
  let job := sp_job snap in
  match obs with
  | None => no_observation
  | Some obs =>
      match ob_status obs with
      | RUN_RUNNING | RUN_SUCCEEDED | RUN_FAILED | RUN_CANCELLED =>
          if negb (is_some (ob_run_id obs)) || negb (is_some (ob_session_id obs)) then
            wait_until RUNNING_POLL_SECONDS
              (recovering RV_DISCOVERING_RUN (for_dispatch ad (polled "run_active_no_binding_values" SJ_ACTIVE)))
          else
            mret (recovering RV_RESTORING_BINDING (for_dispatch ad (plan RA_BIND_RUN "bind_observed_run"))
                    <| pl_missing_confirmations := Some 0%Z |>)
      | RUN_NOT_FOUND =>
          spawn ← jquery (_spawn_action (d_id ad));
          if exhausted_action spawn then
            mret (recovering RV_PERSISTENT_ERROR (for_dispatch ad (error_plan "spawn_run_exhausted" "spawn_run_exhausted")))
          else if negb (ob_authoritative_not_found obs) then
            _wait_missing snap ad "not_found_non_authoritative" RV_DISCOVERING_RUN
          else match spawn with
          | None => mret (recovering RV_DISCOVERING_RUN (for_dispatch ad (plan RA_SPAWN_RUN "spawn_run")))
          | Some _ =>
              let missing := (fl_missing_confirmations (j_flow job) + 1)%Z in
              if (MISSING_UNBOUND_SPAWN_CONFIRMATIONS <=? missing)%Z then
                mret ((plan RA_CLOSE_BLOCKED "spawn_unresolvable")
                        <| pl_recovery_state := if _is_implementer role then Some (value RV_AMBIGUOUS_WRITER) else None |>)
              else _wait_missing snap ad "spawn_pending" RV_DISCOVERING_RUN
          end
      | RUN_UNKNOWN | RUN_CONFLICT => _adapter_backoff snap ad obs
      end
  end.

Definition first_exhausted (dispatch_id : string) (t : JT) : option string :=
  find (fun atype => exhausted_action (_latest_action dispatch_id atype t)) write_stages.
Definition consuming (ad : AgentDispatch) (a : ReconcileAction) (reason : string) : _Plan :=
  recovering RV_CONSUMING_RESULT (for_dispatch ad (plan a reason)).
(** Apply, test, record, consume: each once the previous one succeeded. *)
Definition _decide_write_preconditions (snap : _Snapshot) (obs : RunObservation) (ad : AgentDispatch)
  : jcmd _Plan :=
  let id := d_id ad in
  exhausted ← jquery (first_exhausted id);
  match exhausted with
  | Some atype =>
      let code := lower atype ++ "_exhausted" in
      mret (recovering RV_PERSISTENT_ERROR (for_dispatch ad (error_plan code code)))
  | None =>
      diverged ← jquery (_diverged_apply_intent id);
      if is_some diverged then _apply_diverged_plan snap ad else
      apply_done ← jquery (_action_succeeded id "APPLY_PATCH_SET");
      tests_done ← jquery (_action_succeeded id "RUN_SANDBOX_TESTS");
      record_done ← jquery (_action_succeeded id "RECORD_TEST_RESULT");
      if negb apply_done then mret (consuming ad RA_APPLY_PATCH_SET "apply_patch_set") else
      frozen ← jquery (_frozen_write_result_hash id);
      mismatch ← match frozen with
                 | None => mret false
                 | Some h => c ← lift (_canonical_full_result_hash (ob_result obs)); mret (negb (String.eqb c h))
                 end;
      if mismatch : bool then _write_hash_mismatch_plan snap ad
      else if negb tests_done then mret (consuming ad RA_RUN_SANDBOX_TESTS "run_sandbox_tests")
      else if negb record_done then mret (consuming ad RA_RECORD_TEST_RESULT "record_test_result")
      else mret (consuming ad RA_CONSUME_RESULT "consume_result")
  end.
Definition _decide_bound (snap : _Snapshot) (obs : option RunObservation) (role : Role)
    (ad : AgentDispatch) : jcmd _Plan :=
  let job := sp_job snap in
  match obs with
  | None => no_observation
  | Some obs =>
      match ob_status obs with
      | RUN_RUNNING =>
          wait_until RUNNING_POLL_SECONDS
            (for_dispatch ad (polled "run_running" SJ_ACTIVE) <| pl_retry_count := Some 0%Z |>)
      | RUN_SUCCEEDED =>
          if _is_write_role role then _decide_write_preconditions snap obs ad
          else
            act ← jquery (_latest_action (d_id ad) "CONSUME_RESULT");
            if exhausted_action act then
              mret (recovering RV_RETRYING_STEP (for_dispatch ad (plan RA_MARK_RUN_FAILED "consume_unresolvable")))
            else mret (consuming ad RA_CONSUME_RESULT "consume_result")
      | RUN_FAILED | RUN_CANCELLED =>
          mret (recovering RV_RETRYING_STEP (for_dispatch ad (plan RA_MARK_RUN_FAILED "run_failed")))
      | RUN_NOT_FOUND =>
          let missing := (fl_missing_confirmations (j_flow job) + 1)%Z in
          if (MISSING_BOUND_RUN_CONFIRMATIONS <=? missing)%Z then
            mret (if _is_implementer role
                  then recovering RV_AMBIGUOUS_WRITER (plan RA_CLOSE_BLOCKED "ambiguous_writer")
                  else recovering RV_CORE_RECOVERY_REQUIRED
                         (for_dispatch ad (plan RA_MARK_RUN_FAILED "missing_bound_run")))
          else _wait_missing snap ad "bound_run_missing" RV_DISCOVERING_RUN
      | RUN_UNKNOWN | RUN_CONFLICT => _adapter_backoff snap ad obs
      end
  end.

(** The dispatch has no session yet. *)
Definition unbound (ad : AgentDispatch) : bool :=
  bool_decide (d_status ad = DPENDING)
  || bool_decide (d_status ad = DRECOVERY_PENDING) && negb (is_some (d_child_session_id ad)).
Definition off_frontier (f : WorkflowFrontier) (role : Role) (ad : AgentDispatch) : bool :=
  negb (at_position f ad) || negb (bool_decide (d_role ad = role)).
Definition _decide (snap : _Snapshot) (obs : option RunObservation) : jcmd _Plan :=
  let job := sp_job snap in
  let state := t_state (sp_task snap) in
  if is_some (j_terminal job) then mret (plan RA_NONE "job_terminal")
  else if String.eqb (j_status job) (value SJ_ERROR) then mret (plan RA_NONE "error_state")
  else if bool_decide (state = DONE) then mret (plan RA_CLOSE_DONE "task_done")
  else if in_list state [FAILED; CANCELLED] then mret (plan RA_CLOSE_FAILED "task_failed_cancelled")
  else if bool_decide (state = BLOCKED) then mret (plan RA_CLOSE_BLOCKED "task_blocked")
  else
    gate_plan ← _decide_gate snap;
    match gate_plan with
    | Some p => mret p
    | None =>
        match wf_expected_role (sp_frontier snap) with
        | None => mret (error_plan "frontier_exhausted" "frontier_exhausted")
        | Some role =>
            match sp_active_dispatch snap with
            | None => mret (_decide_no_active snap role)
            | Some ad =>
                if off_frontier (sp_frontier snap) role ad then
                  mret (for_dispatch ad (error_plan "ledger_conflict_active_dispatch" "ledger_conflict_active_dispatch"))
                else if unbound ad then _decide_unbound snap obs role ad
                else _decide_bound snap obs role ad
            end
        end
    end.
End Decide.
