(* ===== verification/Reconcile.v ===== *)
(** * Reconcile: one reconciliation of a job
    (src/argent_core/supervisor.py: snapshot, commit, backoffs, persistent errors).

    [reconcile] reads a snapshot, observes the runtime of the active dispatch and
    commits a decision in one transaction that re-reads every fact; drift makes it retry.
    The supervisor's lease and the runtime adapter are parameters. *)
From S2P Require Import Prelude PyVal Models Json Canonical Timestamps Workflow JobState CoreStore Core Dispatch JobRows Leases Outbox Ledger IsoParse Supervisor.
#[local] Open Scope string_scope.

Record ReconcileDecision : Type := mkReconcileDecision {
  rdc_job_id : string;
  rdc_facts_version : Z;
  rdc_action : ReconcileAction;
  rdc_reason : string;
  rdc_dispatch_id : option string;
  rdc_wake_at : option string;
  rdc_owner_instance_id : option string;
  rdc_lease_epoch : option Z
}.
(** The structural exceptions an adapter's observation may raise, with their names. *)
Definition structural (e : exc) : option string :=
  match e with
  | TypeError => Some "TypeError"
  | AttributeError => Some "AttributeError"
  | ValueError => Some "ValueError"
  | KeyError => Some "KeyError"
  | _ => None
  end.

(** ** The compare-and-set key of a snapshot *)
Definition task_key (t : Task) := (value (t_state t), (value <$> t_resume_state t) : option string).
Definition frontier_key (f : WorkflowFrontier) :=
  (wf_cycle_no f, wf_position f, value (wf_sequence_kind f), (value <$> wf_expected_role f) : option string,
   wf_include_reviewer f).
Definition dispatch_key (d : AgentDispatch) :=
  (d_id d, value (d_status d), d_openclaw_run_id d, d_child_session_id d, value (d_role d),
   (d_cycle_no d, d_position d, d_attempt_no d), d_handoff_id d, d_actual_provider d, d_actual_model d).
Definition snapshot_key (s : _Snapshot) :=
  let job := sp_job s in
  ((j_facts_version job, j_status job, j_retry_count job, fl_missing_confirmations (j_flow job),
    fl_owner_prompted_at (j_flow job), fl_owner_prompted_gate_id (j_flow job)),
   task_key (sp_task s), frontier_key (sp_frontier s), dispatch_key <$> sp_active_dispatch s,
   (fun d => (d_id d, value (d_status d), d_attempt_no d)) <$> sp_dispatch_at_frontier s,
   (fun r => (rr_id r, value (rr_role r), value (rr_status r))) <$> sp_active_role_run s,
   (fun g => (ap_id g, value (ap_status g), ap_closed_at g, ap_binding_hash g)) <$> sp_gate s,
   (sp_open_gates_count s, sp_open_findings_count s, sp_latest_handoff_id s, sp_max_attempt_at_frontier s,
    sp_action_journal s)).
Definition same_facts (a b : _Snapshot) : bool := bool_decide (snapshot_key a = snapshot_key b).

(** [tuple(sorted(...))]: action keys are unique. *)
Definition journal_fingerprint (actions : list SupervisorAction) : list (string * string * Z) :=
  sort_by (fun x y => str_leb (fst (fst x)) (fst (fst y))) (map (fun a => (a_action_key a, a_status a, a_attempt_count a)) actions).

(** ** Projection *)
Definition _projection_fields (snap : _Snapshot) (obs : option RunObservation) (db : DB) : list assign :=
  let task_id := t_id (sp_task snap) in
  let role := wf_expected_role (sp_frontier snap) in
  let disp := match sp_active_dispatch snap with Some d => Some d | None => sp_dispatch_at_frontier snap end in
  let gate := sp_gate snap in
  [A_workflow_state (value (t_state (sp_task snap))); A_expected_role (value <$> role);
   A_expected_dispatch_id (d_id <$> disp); A_agent_id (AGENT_IDS <$> role);
   A_session_id (disp ≫= d_child_session_id); A_run_id (disp ≫= d_openclaw_run_id);
   A_attempt_no (default 0%Z (d_attempt_no <$> disp)); A_dispatch_status ((fun d => value (d_status d)) <$> disp);
   A_result_status (match obs with Some o => value (ob_status o) | None => NOT_OBSERVED end);
   A_result_consumed (match disp with Some d => if consumed d then 1 else 0 | None => 0 end)%Z;
   A_current_handoff_id (latest_handoff_id task_id db); A_open_findings_count (open_findings task_id db);
   A_rework_cycle (_max_cycle task_id db); A_owner_gate_id (ap_id <$> gate);
   A_gate_status ((fun g => value (ap_status g)) <$> gate); A_gate_scope (ap_scope <$> gate);
   A_gate_closed (match gate with Some g => if is_some (ap_closed_at g) then 1 else 0 | None => 0 end)%Z].

Definition progress_actions : list ReconcileAction :=
  [RA_START_ROLE; RA_CREATE_DISPATCH; RA_SPAWN_RUN; RA_BIND_RUN; RA_APPLY_PATCH_SET; RA_RUN_SANDBOX_TESTS;
   RA_RECORD_TEST_RESULT; RA_CONSUME_RESULT; RA_MARK_RUN_FAILED; RA_CORE_RECOVER; RA_PRESENT_OWNER_GATE].
Definition if_some {A} (o : option A) (f : A -> list assign) : list assign :=
  match o with Some x => f x | None => [] end.
(** The columns a plan writes, in the order the code sets them. *)
Definition plan_fields (p : _Plan) (facts_version : Z) (now : string) : list assign :=
  ([A_next_action (value (pl_action p)); A_facts_version (facts_version + 1)%Z; A_updated_at now;
    A_next_wake_at (pl_wake_at p)]
   ++ if_some (pl_status p) (fun x => [A_status x])
   ++ (if ostr_eqb (pl_status p) (Some (value SJ_BACKOFF)) then
         [A_queue_reason (value QR_RETRY_BACKOFF)]
         ++ if_some (pl_wake_at p) (fun w => [A_next_eligible_at (Some w)])
         ++ [A_owner_instance_id None; A_lease_expires_at None]
       else [])
   ++ if_some (pl_recovery_state p) (fun x => [A_recovery_state x])
   ++ if_some (pl_retry_count p) (fun x => [A_retry_count x])
   ++ if_some (pl_missing_confirmations p) (fun x => [A_missing_confirmations x])
   ++ if_some (pl_last_error_code p) (fun x => [A_last_error_code (Some x)])
   ++ if_some (pl_terminal p) (fun x => [A_terminal (Some x); A_status (value SJ_TERMINAL);
                                         A_next_action (value RA_NONE); A_next_wake_at None]))%list.

Section Reconcile.
Context {env : Env} (controller_source : string) (lease_owner : option string) (lease_epoch : option Z)
        (observe : nat -> RunLookup -> res exc RunObservation).

(** *** The fence of the supervisor *)
Definition _enforce_lease_fence (job : Job) : jcmd unit :=
  match j_owner_instance_id job with
  | None => mret tt
  | Some owner =>
      _ ← raise_when (negb (ostr_eqb lease_owner (Some owner))
                      || negb (match lease_epoch with Some e => (e =? j_lease_epoch job)%Z | None => false end))
            LeaseFencedError;
      match j_lease_expires_at job with
      | None => raise LeaseFencedError
      | Some expires =>
          e ← lift (_parse_iso expires);
          now ← jnow;
          raise_when (e <=? to_utc now)%Z LeaseFencedError
      end
  end.
Definition _recheck_lease_fence (job_id : string) : jcmd unit :=
  job ← get_supervisor_job job_id;
  match job with Some j => _enforce_lease_fence j | None => mret tt end.

(** *** Snapshot and observation *)
Definition _read_core_facts (job : Job) (task_id : string) : jcmd (option _Snapshot) :=
  db ← dbquery (fun db => db);
  match find_task task_id db with
  | None => mret None
  | Some task =>
      frontier ← frontier_fn controller_source (t_id task);
      actions ← list_supervisor_actions (j_id job);
      let gate := _current_gate (t_id task) db in
      mret (Some (mkSnap job task frontier (_current_dispatch (t_id task) db)
        (_dispatch_at_frontier (t_id task) frontier db)
        (max_attempt (frontier_matches (t_id task) frontier db)) (active_role_run (t_id task) db)
        (fst gate) (snd gate) (open_findings (t_id task) db) (latest_handoff_id (t_id task) db)
        (journal_fingerprint actions)))
  end.
Definition _read_snapshot (job_id : string) : jcmd (option _Snapshot) :=
  job ← get_supervisor_job job_id;
  match job with Some j => _read_core_facts j (j_task_id j) | None => mret None end.
Definition _guarded_observe (lookup : RunLookup) : jcmd RunObservation :=
  n ← gets (fun s => st_ticks (js_core s));
  match observe n lookup with
  | Ok obs => mret obs
  | Err e => match structural e with
             | Some name => mret (conflict_observation lookup name)
             | None => raise e
             end
  end.
Definition _observe (snap : _Snapshot) : jcmd (option RunObservation) :=
  match sp_active_dispatch snap with
  | None => mret None
  | Some d => o ← _guarded_observe (_build_lookup d); mret (Some o)
  end.

(** *** Notifications *)
Definition _enqueue_persistent_error_notification (job : Job) : jcmd bool :=
  let '(t, code) := persistent_error_outcome in
  _enqueue_notification (j_id job) (j_task_id job) t code (event_ref_persistent_error (j_id job)) 1 None None.
Definition _enqueue_waiting_gate_notification (job : Job) (gate : option OwnerApproval) : jcmd bool :=
  let '(t, code) := waiting_gate_outcome in
  let gate_id := ap_id <$> gate in
  _enqueue_notification (j_id job) (j_task_id job) t code (event_ref_gate (j_id job) gate_id) 1 gate_id
    (gate ≫= ap_binding_hash).
Definition _enqueue_close_notification (job : Job) (terminal reason : string) : jcmd bool :=
  task_state ← dbquery (fun db => (fun t => value (t_state t)) <$> find_task (j_task_id job) db);
  rejected ← dbquery (fun db => existsb (fun a => bool_decide (ap_status a = AP_REJECTED))
                                  (task_approvals (j_task_id job) db));
  match resolve_close_outcome terminal reason task_state rejected with
  | None => mret false
  | Some (t, code) =>
      _enqueue_notification (j_id job) (j_task_id job) t code (event_ref_close (j_id job) terminal) 1 None None
  end.

(** *** Commit: None is the retry *)
Definition _commit (job_id : string) (snap : _Snapshot) (obs : option RunObservation)
  : jcmd (option ReconcileDecision) :=
  jtransaction (
    job ← need_job job_id;
    _ ← _enforce_lease_fence job;
    if negb (j_facts_version job =? j_facts_version (sp_job snap))%Z then mret None else
    fresh ← _read_core_facts job (t_id (sp_task snap));
    match fresh with
    | None => mret None
    | Some fresh =>
        if negb (same_facts fresh snap) then mret None else
        p ← _decide fresh obs;
        proj ← dbquery (_projection_fields fresh obs);
        now ← jnow_iso;
        progress ← (if in_list (pl_action p) progress_actions
                    then n ← jnow_iso; mret [A_last_progress_at n] else mret []);
        _ ← _update_supervisor_job job_id (proj ++ plan_fields p (j_facts_version job) now ++ progress);
        _ ← match pl_action p with
            | RA_PERSISTENT_ERROR => _enqueue_persistent_error_notification job
            | RA_PRESENT_OWNER_GATE => _enqueue_waiting_gate_notification job (sp_gate fresh)
            | _ => mret false
            end;
        mret (Some (mkReconcileDecision job_id (j_facts_version job + 1)%Z (pl_action p) (pl_reason p)
          (pl_dispatch_id p) (pl_wake_at p) (j_owner_instance_id job)
          (match j_owner_instance_id job with Some _ => Some (j_lease_epoch job) | None => None end)))
    end).

(** The compare-and-set tokens of a release under the holder's lease, if any. *)
Definition holder_cas (job : Job) : Cas :=
  match j_owner_instance_id job with
  | Some o => mkCas None (Some o) (Some (j_lease_epoch job)) true
  | None => no_cas
  end.
Definition release_assigns (job : Job) : list assign :=
  match j_owner_instance_id job with
  | Some _ => [A_owner_instance_id None; A_lease_expires_at None]
  | None => []
  end.
Definition _backoff_decision (job_id : string) : jcmd ReconcileDecision :=
  now ← jnow;
  r ← jtransaction (
    job ← need_job job_id;
    _ ← _enforce_lease_fence job;
    b ← lift (backoff_seconds (j_retry_count job));
    wake ← lift (format_after now b);
    now_iso ← jnow_iso;
    updated ← _transition_job job_id (value PS_QUEUED) (value SJ_BACKOFF)
      ([A_queue_reason (value QR_RETRY_BACKOFF); A_next_action (value RA_WAIT); A_next_wake_at (Some wake);
        A_next_eligible_at (Some wake)] ++ release_assigns job) false true (holder_cas job) now_iso;
    mret (wake, j_facts_version updated));
  mret (mkReconcileDecision job_id (snd r) RA_WAIT "snapshot_contention" None (Some (fst r)) None None).

Fixpoint reconcile_loop (tries : nat) (job_id : string) : jcmd ReconcileDecision :=
  match tries with
  | O => _backoff_decision job_id
  | S n =>
      snap ← _read_snapshot job_id;
      snap ← some_or snap NotFound;
      obs ← _observe snap;
      r ← _commit job_id snap obs;
      match r with Some d => mret d | None => reconcile_loop n job_id end
  end.
Definition reconcile (job_id : string) : jcmd ReconcileDecision :=
  reconcile_loop (MAX_SNAPSHOT_RETRIES + 1) job_id.

(** *** Sticky errors and backoffs *)
Definition error_fields (job : Job) (code : string) (retry : option Z) (now : string) : list assign :=
  ([A_status (value SJ_ERROR); A_recovery_state (value RV_PERSISTENT_ERROR); A_last_error_code (Some code);
    A_next_action (value RA_NONE); A_next_wake_at None]
   ++ if_some retry (fun r => [A_retry_count r])
   ++ [A_updated_at now; A_facts_version (j_facts_version job + 1)%Z])%list.
Definition _persist_error (job_id error_code : string) : jcmd unit :=
  jtransaction (
    cur ← get_supervisor_job job_id;
    match cur with
    | None => mret tt
    | Some cur =>
        if is_some (j_terminal cur) then mret tt else
        _ ← _enforce_lease_fence cur;
        now ← jnow_iso;
        _ ← _update_supervisor_job job_id (error_fields cur error_code None now);
        _ ← _enqueue_persistent_error_notification cur;
        mret tt
    end).
Definition backoff_fields (job : Job) (code wake : string) (retry : Z) (now : string) : list assign :=
  [A_status (value SJ_BACKOFF); A_recovery_state (value RV_RUNTIME_UNKNOWN);
   A_queue_reason (value QR_RETRY_BACKOFF); A_next_eligible_at (Some wake); A_owner_instance_id None;
   A_lease_expires_at None; A_last_error_code (Some code); A_next_action (value RA_WAIT);
   A_next_wake_at (Some wake); A_retry_count retry; A_updated_at now;
   A_facts_version (j_facts_version job + 1)%Z].
(** The body shared by [adapter_exception_decision] and [_apply_job_backoff]: the wake
    time of the backoff, None for the sticky error. *)
Definition bounded_job_backoff (job_id code : string) (now : datetime) (job : Job) : jcmd (option string) :=
  _ ← _enforce_lease_fence job;
  let retry := (j_retry_count job + 1)%Z in
  if (MAX_RUNTIME_UNKNOWN <=? retry)%Z then
    n ← jnow_iso;
    _ ← _update_supervisor_job job_id (error_fields job code (Some retry) n);
    _ ← _enqueue_persistent_error_notification job;
    mret None
  else
    b ← lift (backoff_seconds retry);
    wake ← lift (format_after now b);
    n ← jnow_iso;
    _ ← _update_supervisor_job job_id (backoff_fields job code wake retry n);
    mret (Some wake).
Definition adapter_exception_decision (job_id type_name : string) : jcmd ReconcileDecision :=
  now ← jnow;
  let code := "adapter_exception:" ++ type_name in
  jtransaction (
    job ← need_job job_id;
    wake ← bounded_job_backoff job_id code now job;
    mret (mkReconcileDecision job_id (j_facts_version job + 1)%Z
            (match wake with None => RA_PERSISTENT_ERROR | Some _ => RA_WAIT end) code None wake None None)).
Definition _apply_job_backoff (job_id error_code : string) : jcmd unit :=
  now ← jnow;
  jtransaction (
    job ← get_supervisor_job job_id;
    match job with
    | None => mret tt
    | Some job => _ ← bounded_job_backoff job_id error_code now job; mret tt
    end).
End Reconcile.
