(* ===== verification/DecideSpec.v ===== *)
(** * DecideSpec: what the decision table guarantees.

    Theorems about [_decide] on every snapshot and every observation: it only reads,
    respects closed jobs and the owner's gate, never spawns twice, runs the stages of a
    write in order on one frozen result, and keeps its backoffs within the budget. *)
From S2P Require Import Prelude PyVal Models Json Canonical Timestamps Workflow JobState CoreStore Dispatch JobRows Leases JobSteps Outbox Ledger Supervisor Trust Session Scenario JobScenario.
#[local] Open Scope string_scope.

Section Decide.
Context {env : Env}.

(** ** It only reads *)
Lemma wait_until_reads n p : reads (wait_until n p).
Proof. unfold wait_until, wake_after. auto 10 with reads. Qed.
Lemma wait_backoff_reads r p : reads (wait_backoff r p).
Proof. unfold wait_backoff. auto 10 with reads. Qed.
Lemma jquery_reads {A} (f : JT -> A) : reads (jquery f).
Proof. unfold jquery. auto with reads. Qed.
Hint Resolve wait_until_reads wait_backoff_reads jquery_reads : reads.
Ltac all_reads := repeat first
  [ solve [auto with reads] | apply reads_bind; [|intros ?] | case_match ].
Lemma bounded_backoff_reads job ad reason : reads (bounded_backoff job ad reason).
Proof. unfold bounded_backoff. all_reads. Qed.
Hint Resolve bounded_backoff_reads : reads.
Lemma wait_missing_reads snap ad reason r : reads (_wait_missing snap ad reason r).
Proof. unfold _wait_missing. all_reads. Qed.
Hint Resolve wait_missing_reads : reads.
Lemma decide_gate_reads snap : reads (_decide_gate snap).
Proof. unfold _decide_gate. all_reads. Qed.
Lemma decide_unbound_reads snap obs role ad : reads (_decide_unbound snap obs role ad).
Proof. unfold _decide_unbound, no_observation, _adapter_backoff. all_reads. Qed.
Lemma decide_write_reads snap obs ad : reads (_decide_write_preconditions snap obs ad).
Proof. unfold _decide_write_preconditions, _apply_diverged_plan, _write_hash_mismatch_plan. all_reads. Qed.
Hint Resolve decide_gate_reads decide_unbound_reads decide_write_reads : reads.
Lemma decide_bound_reads snap obs role ad : reads (_decide_bound snap obs role ad).
Proof. unfold _decide_bound, no_observation, _adapter_backoff. all_reads. Qed.
Hint Resolve decide_bound_reads : reads.
Lemma decide_reads snap obs : reads (_decide snap obs).
Proof. unfold _decide. all_reads. Qed.

(** ** Plans of the pieces *)
(** Whenever [m] returns from the tables [t], its result satisfies [P]. *)
Definition yields {A} (t : JT) (m : jcmd A) (P : A -> Prop) : Prop :=
  forall s a s', js_t s = t -> m s = (Ok a, s') -> P a.
Lemma y_ret {A} t (a : A) (P : A -> Prop) : P a -> yields t (mret a) P.
Proof. intros H s b s' _ R. by apply mret_ok in R as [<- _]. Qed.
Lemma y_bind {A B} t (m : jcmd A) (k : A -> jcmd B) Q P : reads m -> yields t m Q ->
  (forall a, Q a -> yields t (k a) P) -> yields t (x ← m; k x) P.
Proof.
  intros Hr Hm Hk s b s' E R. apply M_bind_ok in R as (a & s1 & R1 & R).
  refine (Hk a (Hm _ _ _ E R1) _ _ _ _ R). apply Hr in R1 as (_ & T & _). congruence.
Qed.
Lemma y_query {A B} t (f : JT -> A) (k : A -> jcmd B) P : yields t (k (f t)) P ->
  yields t (x ← jquery f; k x) P.
Proof.
  intros Hk s b s' E R. apply M_bind_ok in R as (a & s1 & R1 & R). unfold jquery in R1.
  apply gets_ok in R1 as [-> <-]. rewrite E in R. exact (Hk _ _ _ E R).
Qed.
Lemma y_lift {A B} t (x : res exc A) (k : A -> jcmd B) P :
  (forall a, x = Ok a -> yields t (k a) P) -> yields t (a ← lift x; k a) P.
Proof.
  intros Hk s b s' E R. apply M_bind_ok in R as (a & s1 & R1 & R). apply lift_ok in R1 as [R1 <-].
  exact (Hk a R1 _ _ _ E R).
Qed.
Lemma y_any {A} t (m : jcmd A) : yields t m (fun _ => True).
Proof. by intros s a s'. Qed.
Lemma y_wait_until t n p P : (forall w, P (p <| pl_wake_at := Some w |>)) -> yields t (wait_until n p) P.
Proof.
  intros H. unfold wait_until. eapply y_bind; [unfold wake_after; auto with reads | apply y_any|].
  intros w _. by apply y_ret.
Qed.
Lemma y_wait_backoff t r p P : (forall w b, backoff_seconds r = Ok b -> P (p <| pl_wake_at := Some w |>)) ->
  yields t (wait_backoff r p) P.
Proof.
  intros H. unfold wait_backoff. eapply y_bind; [auto with reads | apply y_any|]. intros now _.
  apply y_lift. intros b B. apply y_lift. intros w _. apply y_ret. by eapply H.
Qed.
Lemma y_bounded t job ad reason P :
  (j_retry_count job + 1 >= MAX_RUNTIME_UNKNOWN -> P (recovering RV_PERSISTENT_ERROR
     (for_dispatch ad (error_plan reason reason)) <| pl_retry_count := Some (j_retry_count job + 1) |>))%Z ->
  (forall w, j_retry_count job + 1 < MAX_RUNTIME_UNKNOWN -> P (recovering RV_RUNTIME_UNKNOWN
     (for_dispatch ad (polled reason SJ_BACKOFF)) <| pl_retry_count := Some (j_retry_count job + 1) |>
       <| pl_wake_at := Some w |>))%Z ->
  yields t (bounded_backoff job ad reason) P.
Proof.
  intros H1 H2. unfold bounded_backoff. destruct (Z.leb_spec MAX_RUNTIME_UNKNOWN (j_retry_count job + 1)).
  - apply y_ret, H1. lia.
  - apply y_wait_backoff. intros w b _. by apply H2.
Qed.

(** ** Why an action is planned *)
Definition stage_done (t : JT) (ad : AgentDispatch) (stage : string) : Prop :=
  _action_succeeded (d_id ad) stage t = true.
(** The observed result is the one the write was frozen on. *)
Definition result_frozen (t : JT) (ad : AgentDispatch) (o : RunObservation) : Prop :=
  forall h, _frozen_write_result_hash (d_id ad) t = Some h -> _canonical_full_result_hash (ob_result o) = Ok h.
Definition applied (t : JT) (ad : AgentDispatch) (o : RunObservation) : Prop :=
  stage_done t ad "APPLY_PATCH_SET" /\ result_frozen t ad o /\ _diverged_apply_intent (d_id ad) t = None.

Definition unbound_reason (t : JT) (job : Job) (role : Role) (o : option RunObservation) (ad : AgentDispatch)
    (p : _Plan) : Prop :=
  match pl_action p with
  | RA_WAIT | RA_PERSISTENT_ERROR => True
  | RA_SPAWN_RUN => exists ob, o = Some ob /\ ob_status ob = RUN_NOT_FOUND /\
      ob_authoritative_not_found ob = true /\ _spawn_action (d_id ad) t = None
  | RA_BIND_RUN => exists ob, o = Some ob /\ ob_run_id ob <> None /\ ob_session_id ob <> None /\
      In (ob_status ob) [RUN_RUNNING; RUN_SUCCEEDED; RUN_FAILED; RUN_CANCELLED]
  | RA_CLOSE_BLOCKED =>
      (MISSING_UNBOUND_SPAWN_CONFIRMATIONS <= fl_missing_confirmations (j_flow job) + 1)%Z
  | _ => False
  end.
Definition bound_reason (t : JT) (job : Job) (role : Role) (o : option RunObservation) (ad : AgentDispatch)
    (p : _Plan) : Prop :=
  match pl_action p with
  | RA_WAIT | RA_PERSISTENT_ERROR => True
  | RA_APPLY_PATCH_SET => exists ob, o = Some ob /\ ob_status ob = RUN_SUCCEEDED /\
      _is_write_role role = true /\ ~ stage_done t ad "APPLY_PATCH_SET" /\
      _diverged_apply_intent (d_id ad) t = None
  | RA_RUN_SANDBOX_TESTS => exists ob, o = Some ob /\ ob_status ob = RUN_SUCCEEDED /\
      _is_write_role role = true /\ applied t ad ob /\ ~ stage_done t ad "RUN_SANDBOX_TESTS"
  | RA_RECORD_TEST_RESULT => exists ob, o = Some ob /\ ob_status ob = RUN_SUCCEEDED /\
      _is_write_role role = true /\ applied t ad ob /\ stage_done t ad "RUN_SANDBOX_TESTS" /\
      ~ stage_done t ad "RECORD_TEST_RESULT"
  | RA_CONSUME_RESULT => exists ob, o = Some ob /\ ob_status ob = RUN_SUCCEEDED /\
      (_is_write_role role = true ->
       applied t ad ob /\ stage_done t ad "RUN_SANDBOX_TESTS" /\ stage_done t ad "RECORD_TEST_RESULT")
  | RA_MARK_RUN_FAILED => exists ob, o = Some ob /\
      In (ob_status ob) [RUN_SUCCEEDED; RUN_FAILED; RUN_CANCELLED; RUN_NOT_FOUND]
  | RA_CLOSE_BLOCKED => _is_implementer role = true /\
      (MISSING_BOUND_RUN_CONFIRMATIONS <= fl_missing_confirmations (j_flow job) + 1)%Z
  | _ => False
  end.
(** A backoff is only planned while the retry budget lasts. *)
Definition backoff_bounded (job : Job) (p : _Plan) : Prop :=
  pl_status p = Some (value SJ_BACKOFF) ->
  pl_retry_count p = Some (j_retry_count job + 1)%Z /\ (j_retry_count job + 1 < MAX_RUNTIME_UNKNOWN)%Z.

Lemma unbound_justified t snap o role ad :
  yields t (_decide_unbound snap o role ad)
    (fun p => unbound_reason t (sp_job snap) role o ad p /\ backoff_bounded (sp_job snap) p).
Proof.
  unfold _decide_unbound, _adapter_backoff, no_observation. destruct o as [ob|].
  2:{ apply y_wait_until. intros w. by split. }
  assert (B : yields t (if negb (is_some (ob_run_id ob)) || negb (is_some (ob_session_id ob)) then
      wait_until RUNNING_POLL_SECONDS
        (recovering RV_DISCOVERING_RUN (for_dispatch ad (polled "run_active_no_binding_values" SJ_ACTIVE)))
    else mret (recovering RV_RESTORING_BINDING (for_dispatch ad (plan RA_BIND_RUN "bind_observed_run"))
                 <| pl_missing_confirmations := Some 0%Z |>))
    (fun p => (In (ob_status ob) [RUN_RUNNING; RUN_SUCCEEDED; RUN_FAILED; RUN_CANCELLED] ->
               unbound_reason t (sp_job snap) role (Some ob) ad p) /\ backoff_bounded (sp_job snap) p)).
  { destruct (ob_run_id ob) as [r|] eqn:R, (ob_session_id ob) as [q|] eqn:Q; cbn;
      try (apply y_wait_until; intros w; by split).
    apply y_ret. split; [|done]. intros I. exists ob. rewrite R, Q. done. }
  assert (A : yields t (bounded_backoff (sp_job snap) ad ("adapter_" ++ lower (value (ob_status ob))))
    (fun p => unbound_reason t (sp_job snap) role (Some ob) ad p /\ backoff_bounded (sp_job snap) p)).
  { apply y_bounded; [by split|]. intros w L. split; [done|]. by intros _. }
  destruct (ob_status ob) eqn:S; try exact A;
    try (intros s p s' E R; destruct (B s p s' E R) as [B1 B2]; split; [apply B1; cbn; tauto | exact B2]).
  apply y_query. destruct (exhausted_action _); [by apply y_ret|].
  destruct (ob_authoritative_not_found ob) eqn:N; cbn [negb].
  2:{ unfold _wait_missing. apply y_wait_backoff. intros w b _. by split. }
  destruct (_spawn_action (d_id ad) t) as [a|] eqn:Sp.
  - destruct (Z.leb_spec MISSING_UNBOUND_SPAWN_CONFIRMATIONS (fl_missing_confirmations (j_flow (sp_job snap)) + 1)).
    + apply y_ret. split; [done|]. by destruct (_is_implementer role).
    + unfold _wait_missing. apply y_wait_backoff. intros w b _. by split.
  - apply y_ret. split; [|done]. by exists ob.
Qed.

Lemma write_justified t snap ob role ad : ob_status ob = RUN_SUCCEEDED -> _is_write_role role = true ->
  yields t (_decide_write_preconditions snap ob ad)
    (fun p => bound_reason t (sp_job snap) role (Some ob) ad p /\ backoff_bounded (sp_job snap) p).
Proof.
  intros S W. assert (A : forall reason, yields t (bounded_backoff (sp_job snap) ad reason)
    (fun p => bound_reason t (sp_job snap) role (Some ob) ad p /\ backoff_bounded (sp_job snap) p)).
  { intros reason. apply y_bounded; [by split|]. intros w L. split; [done|]. by intros _. }
  unfold _decide_write_preconditions. apply y_query. destruct (first_exhausted (d_id ad) t); [by apply y_ret|].
  apply y_query. destruct (_diverged_apply_intent (d_id ad) t) as [x|] eqn:D; cbn [is_some]; [apply A|].
  do 3 apply y_query. destruct (_action_succeeded (d_id ad) "APPLY_PATCH_SET" t) eqn:Ap; cbn [negb].
  2:{ apply y_ret. split; [|done]. exists ob. unfold stage_done. by rewrite Ap. }
  apply y_query. set (h := _frozen_write_result_hash (d_id ad) t).
  eapply (y_bind t _ _ (fun m => m = false -> result_frozen t ad ob)).
  { destruct h; auto with reads. }
  { unfold result_frozen. fold h. destruct h as [x|]; [|by apply y_ret].
    apply y_lift. intros c C. apply y_ret. rewrite negb_false_iff. intros E%String.eqb_eq y [= <-]. by rewrite C, E. }
  intros [] F; [apply A|]. specialize (F eq_refl). assert (Q : applied t ad ob) by done.
  destruct (_action_succeeded (d_id ad) "RUN_SANDBOX_TESTS" t) eqn:T; cbn [negb].
  2:{ apply y_ret. split; [|done]. exists ob. unfold stage_done. by rewrite T. }
  destruct (_action_succeeded (d_id ad) "RECORD_TEST_RESULT" t) eqn:Rc; cbn [negb]; apply y_ret; (split; [|done]);
    exists ob; unfold stage_done; rewrite ?T, ?Rc; done.
Qed.
Lemma bound_justified t snap o role ad :
  yields t (_decide_bound snap o role ad)
    (fun p => bound_reason t (sp_job snap) role o ad p /\ backoff_bounded (sp_job snap) p).
Proof.
  unfold _decide_bound, _adapter_backoff, no_observation. destruct o as [ob|].
  2:{ apply y_wait_until. intros w. by split. }
  destruct (ob_status ob) eqn:S.
  - destruct (Z.leb_spec MISSING_BOUND_RUN_CONFIRMATIONS (fl_missing_confirmations (j_flow (sp_job snap)) + 1)).
    + apply y_ret. destruct (_is_implementer role) eqn:I; (split; [|done]); [by split|].
      exists ob. rewrite S. cbn. tauto.
    + unfold _wait_missing. apply y_wait_backoff. intros w b _. by split.
  - apply y_wait_until. intros w. by split.
  - destruct (_is_write_role role) eqn:W; [by apply write_justified|]. apply y_query.
    destruct (exhausted_action _); apply y_ret; (split; [|done]); exists ob; rewrite S, ?W; cbn; intuition discriminate.
  - apply y_ret. split; [|done]. exists ob. rewrite S. cbn. tauto.
  - apply y_ret. split; [|done]. exists ob. rewrite S. cbn. tauto.
  - apply y_bounded; [by split|]. intros w L. split; [done|]. by intros _.
  - apply y_bounded; [by split|]. intros w L. split; [done|]. by intros _.
Qed.

(** ** The whole table *)
Definition closed_states : list TaskState := [DONE; FAILED; CANCELLED; BLOCKED].
(** The dispatch a decision works on: active, at the frontier, in the expected role. *)
Definition working_on (snap : _Snapshot) (role : Role) (ad : AgentDispatch) : Prop :=
  wf_expected_role (sp_frontier snap) = Some role /\ sp_active_dispatch snap = Some ad /\
  at_position (sp_frontier snap) ad = true /\ d_role ad = role.
Definition gate_actions : list ReconcileAction := [RA_NONE; RA_WAIT; RA_PRESENT_OWNER_GATE; RA_PERSISTENT_ERROR].
Definition gate_blocks (snap : _Snapshot) : bool :=
  Nat.ltb 1 (sp_open_gates_count snap) || bool_decide (t_state (sp_task snap) = OWNER_APPROVAL_REQUIRED)
  || gate_open (sp_gate snap).

Lemma gate_justified t snap : yields t (_decide_gate snap)
  (fun o => match o with
            | Some p => gate_blocks snap = true /\ In (pl_action p) [RA_WAIT; RA_PRESENT_OWNER_GATE; RA_PERSISTENT_ERROR] /\
                        (pl_action p = RA_PRESENT_OWNER_GATE -> exists g, sp_gate snap = Some g /\ ap_status g = AP_PENDING) /\
                        pl_status p <> Some (value SJ_BACKOFF)
            | None => gate_blocks snap = false
            end).
Proof.
  unfold _decide_gate, gate_blocks.
  destruct (Nat.ltb 1 (sp_open_gates_count snap)); cbn [orb]; [apply y_ret; cbn; intuition discriminate|].
  destruct (bool_decide_reflect (t_state (sp_task snap) = OWNER_APPROVAL_REQUIRED)); cbn [orb].
  2:{ destruct (gate_open (sp_gate snap)); apply y_ret; cbn; intuition discriminate. }
  assert (W : forall reason, yields t (p ← wait_until RUNNING_POLL_SECONDS (polled reason SJ_WAITING_GATE); mret (Some p))
    (fun o => match o with
            | Some p => true = true /\ In (pl_action p) [RA_WAIT; RA_PRESENT_OWNER_GATE; RA_PERSISTENT_ERROR] /\
                        (pl_action p = RA_PRESENT_OWNER_GATE -> exists g, sp_gate snap = Some g /\ ap_status g = AP_PENDING) /\
                        pl_status p <> Some (value SJ_BACKOFF)
            | None => true = false
            end)).
  { intros reason. eapply y_bind; [apply wait_until_reads | apply (y_wait_until _ _ _ (fun p => pl_action p = RA_WAIT /\ pl_status p = Some (value SJ_WAITING_GATE))); done |].
    intros p [A S]. apply y_ret. rewrite A, S. cbn. intuition discriminate. }
  destruct (sp_gate snap) as [g|]; [|apply y_ret; cbn; intuition discriminate].
  destruct (is_live g); cbn [negb]; [|apply y_ret; cbn; intuition discriminate].
  destruct (bool_decide_reflect (ap_status g = AP_PENDING)); [|apply W].
  destruct (_ || _); [apply y_ret; cbn; split; [done|]; split; [tauto|]; split; [by exists g | discriminate] | apply W].
Qed.

(** The reasons of a planned action. *)
Definition justified (t : JT) (snap : _Snapshot) (o : option RunObservation) (p : _Plan) : Prop :=
  let job := sp_job snap in
  match pl_action p with
  | RA_NONE => j_terminal job <> None \/ j_status job = value SJ_ERROR
  | RA_CLOSE_DONE => t_state (sp_task snap) = DONE
  | RA_CLOSE_FAILED => In (t_state (sp_task snap)) [FAILED; CANCELLED] \/
      exists d, sp_dispatch_at_frontier snap = Some d /\ (MAX_DISPATCH_ATTEMPTS_PER_STEP <= d_attempt_no d)%Z
  | RA_PRESENT_OWNER_GATE => exists g, sp_gate snap = Some g /\ ap_status g = AP_PENDING
  | RA_START_ROLE | RA_CREATE_DISPATCH => sp_active_dispatch snap = None /\ gate_blocks snap = false
  | RA_WAIT | RA_PERSISTENT_ERROR => True
  | RA_CLOSE_BLOCKED => t_state (sp_task snap) = BLOCKED \/
      exists role ad, working_on snap role ad /\
        (unbound_reason t job role o ad p \/ bound_reason t job role o ad p)
  | RA_SPAWN_RUN | RA_BIND_RUN => gate_blocks snap = false /\
      exists role ad, working_on snap role ad /\ unbound ad = true /\ unbound_reason t job role o ad p
  | _ => gate_blocks snap = false /\
      exists role ad, working_on snap role ad /\ unbound ad = false /\ bound_reason t job role o ad p
  end.
(** No effect on a closed job, a closed task or while a gate is open. *)
Definition quiescent (snap : _Snapshot) (p : _Plan) : Prop :=
  (j_terminal (sp_job snap) <> None \/ j_status (sp_job snap) = value SJ_ERROR -> pl_action p = RA_NONE) /\
  (In (t_state (sp_task snap)) closed_states ->
   In (pl_action p) [RA_NONE; RA_CLOSE_DONE; RA_CLOSE_FAILED; RA_CLOSE_BLOCKED]) /\
  (gate_blocks snap = true -> ~ In (t_state (sp_task snap)) closed_states -> In (pl_action p) gate_actions).

Lemma quiescent_work snap p : j_terminal (sp_job snap) = None -> j_status (sp_job snap) <> value SJ_ERROR ->
  ~ In (t_state (sp_task snap)) closed_states -> gate_blocks snap = false -> quiescent snap p.
Proof. intros T E C G. unfold quiescent. rewrite T, G. intuition congruence. Qed.

Lemma decide_justified t snap o : yields t (_decide snap o)
  (fun p => justified t snap o p /\ quiescent snap p /\ backoff_bounded (sp_job snap) p).
Proof.
  unfold _decide. destruct (j_terminal (sp_job snap)) as [x|] eqn:T; cbn [is_some].
  { apply y_ret. unfold justified, quiescent. cbn. rewrite T. intuition (try discriminate; auto). }
  destruct (String.eqb_spec (j_status (sp_job snap)) (value SJ_ERROR)) as [E|E].
  { apply y_ret. unfold justified, quiescent. cbn. intuition (try discriminate; auto). }
  assert (Q0 : forall p, In (t_state (sp_task snap)) closed_states ->
    In (pl_action p) [RA_CLOSE_DONE; RA_CLOSE_FAILED; RA_CLOSE_BLOCKED] -> quiescent snap p).
  { intros p C I. unfold quiescent. rewrite T. split; [intuition congruence|]. split; [cbn in *; tauto | tauto]. }
  destruct (bool_decide_reflect (t_state (sp_task snap) = DONE)) as [D|D].
  { apply y_ret. split; [exact D|]. split; [apply Q0; [rewrite D|]; cbn; tauto | done]. }
  destruct (in_list (t_state (sp_task snap)) [FAILED; CANCELLED]) eqn:F.
  { apply in_list_In in F. apply y_ret. split; [by left|]. split; [apply Q0; [|cbn; tauto] | done].
    cbn in *. tauto. }
  destruct (bool_decide_reflect (t_state (sp_task snap) = BLOCKED)) as [B|B].
  { apply y_ret. split; [by left|]. split; [apply Q0; [rewrite B|]; cbn; tauto | done]. }
  assert (C : ~ In (t_state (sp_task snap)) closed_states).
  { intros I. assert (N : ~ In (t_state (sp_task snap)) [FAILED; CANCELLED])
      by (rewrite <- in_list_In; congruence). cbn in *. intuition congruence. }
  eapply y_bind; [apply decide_gate_reads | apply gate_justified |]. intros [p|] H.
  { destruct H as (G & I & Pr & Bk). apply y_ret. split; [|split].
    - unfold justified. cbn in I. destruct (pl_action p); try done; try (exfalso; intuition discriminate). by apply Pr.
    - unfold quiescent. rewrite T. split; [intuition congruence|]. split; [done|]. intros _ _.
      unfold gate_actions. cbn in *. tauto.
    - by intros X. }
  pose proof (fun p => quiescent_work snap p T E C H) as Q.
  destruct (wf_expected_role (sp_frontier snap)) as [role|] eqn:R; [|apply y_ret; split; [done|]; split; [apply Q | done]].
  destruct (sp_active_dispatch snap) as [ad|] eqn:A.
  2:{ apply y_ret. unfold _decide_no_active.
      destruct (match sp_dispatch_at_frontier snap with Some _ => _ | None => false end) eqn:X.
      - split; [|split; [apply Q | done]]. right. destruct (sp_dispatch_at_frontier snap) as [d|]; [|done].
        rewrite andb_true_iff, Z.leb_le in X. exists d. tauto.
      - destruct (match sp_active_role_run snap with Some _ => _ | None => true end);
          (split; [by split|]); (split; [apply Q | done]). }
  destruct (off_frontier (sp_frontier snap) role ad) eqn:O; [apply y_ret; split; [done|]; split; [apply Q | done]|].
  assert (W : working_on snap role ad).
  { unfold off_frontier in O. rewrite orb_false_iff, !negb_false_iff, bool_decide_eq_true in O. by destruct O. }
  destruct (unbound ad) eqn:U; intros s p s' Es Rn.
  - destruct (unbound_justified t snap o role ad s p s' Es Rn) as [J K]. split; [|by split].
    unfold justified. unfold unbound_reason in J. destruct (pl_action p) eqn:Pa; try done.
    + split; [done|]. exists role, ad. unfold unbound_reason. by rewrite Pa.
    + split; [done|]. exists role, ad. unfold unbound_reason. by rewrite Pa.
    + right. exists role, ad. split; [done|]. left. unfold unbound_reason. by rewrite Pa.
  - destruct (bound_justified t snap o role ad s p s' Es Rn) as [J K]. split; [|by split].
    unfold justified. unfold bound_reason in J. destruct (pl_action p) eqn:Pa; try done;
      try (split; [done|]; exists role, ad; unfold bound_reason; by rewrite Pa).
    right. exists role, ad. split; [done|]. right. unfold bound_reason. by rewrite Pa.
Qed.

Lemma decide_ok snap obs s p s' : _decide snap obs s = (Ok p, s') ->
  justified (js_t s) snap obs p /\ quiescent snap p /\ backoff_bounded (sp_job snap) p.
Proof. intros R. exact (decide_justified _ snap obs s p s' eq_refl R). Qed.

(** ** The guarantees *)

(** The supervisor works only while nobody else has the word: on a closed or failed
    job it decides NONE; while an owner's gate is open (or the gates contradict the task)
    it only waits, presents the gate or reports a persistent error, and it presents only
    a gate that is pending; on a finished task it only closes the job. *)
Theorem supervisor_yields_to_owner snap obs s p s' : _decide snap obs s = (Ok p, s') ->
  (j_terminal (sp_job snap) <> None \/ j_status (sp_job snap) = value SJ_ERROR -> pl_action p = RA_NONE) /\
  (In (t_state (sp_task snap)) closed_states ->
   In (pl_action p) [RA_NONE; RA_CLOSE_DONE; RA_CLOSE_FAILED; RA_CLOSE_BLOCKED]) /\
  (gate_blocks snap = true -> ~ In (t_state (sp_task snap)) closed_states -> In (pl_action p) gate_actions) /\
  (pl_action p = RA_PRESENT_OWNER_GATE -> exists g, sp_gate snap = Some g /\ ap_status g = AP_PENDING) /\
  (pl_action p = RA_CLOSE_DONE -> t_state (sp_task snap) = DONE).
Proof.
  intros R. apply decide_ok in R as (J & (Q1 & Q2 & Q3) & _). unfold justified in J.
  repeat split; [exact Q1 | exact Q2 | exact Q3 | |]; intros E; by rewrite E in J.
Qed.

(** C29: a run is spawned only when the runtime has proved that there is none: the
    dispatch is the active one at the frontier, in the expected role and without a
    session; the adapter answered NOT_FOUND authoritatively; no spawn was journaled for
    it before; and no owner's gate is open. *)
Theorem spawn_needs_proof_of_absence snap obs s p s' : _decide snap obs s = (Ok p, s') ->
  pl_action p = RA_SPAWN_RUN ->
  gate_blocks snap = false /\ exists role ad ob, working_on snap role ad /\ unbound ad = true /\
    obs = Some ob /\ ob_status ob = RUN_NOT_FOUND /\ ob_authoritative_not_found ob = true /\
    _spawn_action (d_id ad) (js_t s) = None.
Proof.
  intros R E. apply decide_ok in R as (J & _ & _). unfold justified, unbound_reason in J. rewrite E in J.
  destruct J as (G & role & ad & W & U & ob & J). split; [done|]. by exists role, ad, ob.
Qed.

(** The stages of a write run in order and on one result: sandbox tests need the
    applied patch, the record needs the tests, and a write role's result is consumed
    only after all three; from the tests on, the observed result must still hash to
    the one frozen when the patch was applied, and the workspace must not have
    diverged. *)
Theorem write_pipeline_in_order snap obs s p s' : _decide snap obs s = (Ok p, s') ->
  In (pl_action p) [RA_APPLY_PATCH_SET; RA_RUN_SANDBOX_TESTS; RA_RECORD_TEST_RESULT; RA_CONSUME_RESULT] ->
  exists role ad ob, working_on snap role ad /\ unbound ad = false /\ obs = Some ob /\
    ob_status ob = RUN_SUCCEEDED /\
    (_is_write_role role = true ->
     (pl_action p <> RA_APPLY_PATCH_SET -> applied (js_t s) ad ob) /\
     (In (pl_action p) [RA_RECORD_TEST_RESULT; RA_CONSUME_RESULT] -> stage_done (js_t s) ad "RUN_SANDBOX_TESTS") /\
     (pl_action p = RA_CONSUME_RESULT -> stage_done (js_t s) ad "RECORD_TEST_RESULT")) /\
    (_is_write_role role = false -> pl_action p = RA_CONSUME_RESULT).
Proof.
  intros R I. apply decide_ok in R as (J & _ & _). unfold justified, bound_reason in J.
  cbn in I. destruct I as [I|[I|[I|[I|[]]]]]; rewrite <- I in J |- *;
    destruct J as (_ & role & ad & W & U & ob & O & S & J); exists role, ad, ob;
    (split; [exact W|]; split; [exact U|]; split; [exact O|]; split; [exact S|]; split);
    intros Wr; rewrite Wr in J; cbn; intuition congruence.
Qed.

(** The backoffs of a decision stay in their budget: a plan that backs off counts one
    more retry than the job has and is made only below MAX_RUNTIME_UNKNOWN (5); a job at
    the limit gets no more of them. *)
Theorem backoff_within_budget snap obs s p s' : _decide snap obs s = (Ok p, s') ->
  pl_status p = Some (value SJ_BACKOFF) ->
  pl_retry_count p = Some (j_retry_count (sp_job snap) + 1)%Z /\
  (j_retry_count (sp_job snap) + 1 < MAX_RUNTIME_UNKNOWN)%Z.
Proof. intros R E. apply decide_ok in R as (_ & _ & B). exact (B E). Qed.
End Decide.

(** ** Sample snapshots *)
#[local] Existing Instance sample_env.
Definition sample_job : Job := from_option id (new_job "supervisor:u1" "u1" "NEW" "LIGHT" "t") (the_job queued_st).
Definition sample_task : option Task := find_task "u1" (st_db core_st).
Definition dispatch_of (role : Role) (status : DispatchStatus) (session : option string) : AgentDispatch :=
  mkAgentDispatch "d1" "u1" "r1" role None "deepseek" "deepseek-v4-pro" "medium" session session None None None
    status 0 3 STANDARD 1 None None "2024-02-29T00:00:00+00:00" None None None 0 None None.
Definition snap_of (job : Job) (task : Task) (gate : option OwnerApproval) (role : Role) (ad : AgentDispatch) : _Snapshot :=
  mkSnap job task (mkWorkflowFrontier 0 3 STANDARD false (Some role)) (Some ad) (Some ad) 1 None gate 0 0 None [].
Definition observed (status : RunStatus) (authoritative : bool) : RunObservation :=
  mkRunObservation status (Some "implementer") (Some "s") (Some "r") None None None None None None None
    authoritative "e" None None.
Definition open_task : Task :=
  mkTask "u1" "u0" "t" NEW None OWNER_SOURCE TRUSTED "t" "t" None None NORMAL ALLOWED_WITH_GATE.
Definition gated : Task := open_task <| t_state := OWNER_APPROVAL_REQUIRED |> <| t_resume_state := Some NEW |>.
Definition pending_gate : option OwnerApproval := head (db_approvals (st_db (run_all gate_session init_st))).
Definition gate_snap : _Snapshot := snap_of sample_job gated pending_gate IMPLEMENTER (dispatch_of IMPLEMENTER DPENDING None).
Definition spawn_snap : _Snapshot := snap_of sample_job open_task None IMPLEMENTER (dispatch_of IMPLEMENTER DPENDING None).
Definition write_snap : _Snapshot :=
  snap_of sample_job open_task None IMPLEMENTER (dispatch_of IMPLEMENTER DRUNNING (Some "s")).
(** The state with [APPLY_PATCH_SET] journaled as succeeded on the observed result. *)
Definition apply_action : SupervisorAction :=
  mkSupervisorAction "a1" "supervisor:u1" (Some "d1") "APPLY_PATCH_SET" "k" "h" (Some (sha256 "{}")) None None None
    "SUCCEEDED" 1 None None None None "t" "t".
Definition applied_st : JSt := queued_st <| js_t := (js_t queued_st) <| jt_actions := [apply_action] |> |>.
Definition plan_in (snap : _Snapshot) (o : option RunObservation) (s : JSt) : _Plan :=
  match _decide snap o s with (Ok p, _) => p | _ => plan RA_NONE "" end.
Definition after_decide (snap : _Snapshot) (o : option RunObservation) (s : JSt) : JSt := snd (_decide snap o s).

Lemma supervisor_yields_to_owner_witness :
  pl_action (plan_in gate_snap None queued_st) = RA_PRESENT_OWNER_GATE /\
  exists g, sp_gate gate_snap = Some g /\ ap_status g = AP_PENDING.
Proof.
  split; [vm_compute; reflexivity|].
  destruct (supervisor_yields_to_owner gate_snap None queued_st (plan_in gate_snap None queued_st)
    (after_decide gate_snap None queued_st) ltac:(vm_compute; reflexivity)) as (_ & _ & _ & P & _).
  apply P. vm_compute. reflexivity.
Defined.
Lemma spawn_needs_proof_of_absence_witness :
  let p := plan_in spawn_snap (Some (observed RUN_NOT_FOUND true)) queued_st in
  pl_action p = RA_SPAWN_RUN /\ gate_blocks spawn_snap = false.
Proof.
  split; [vm_compute; reflexivity|].
  refine (proj1 (spawn_needs_proof_of_absence spawn_snap (Some (observed RUN_NOT_FOUND true)) queued_st _
    (after_decide spawn_snap (Some (observed RUN_NOT_FOUND true)) queued_st) _ _)); vm_compute; reflexivity.
Defined.
Lemma write_pipeline_in_order_witness :
  let p := plan_in write_snap (Some (observed RUN_SUCCEEDED false)) applied_st in
  pl_action p = RA_RUN_SANDBOX_TESTS /\
  exists role ad ob, working_on write_snap role ad /\ Some (observed RUN_SUCCEEDED false) = Some ob /\
    (_is_write_role role = true -> applied (js_t applied_st) ad ob).
Proof.
  split; [vm_compute; reflexivity|].
  destruct (write_pipeline_in_order write_snap (Some (observed RUN_SUCCEEDED false)) applied_st
    (plan_in write_snap (Some (observed RUN_SUCCEEDED false)) applied_st)
    (after_decide write_snap (Some (observed RUN_SUCCEEDED false)) applied_st))
    as (role & ad & ob & W & _ & O & _ & F & _);
    [vm_compute; reflexivity | right; left; vm_compute; reflexivity |].
  exists role, ad, ob. split; [exact W|]. split; [exact O|]. intros R. apply F; [exact R | vm_compute; discriminate].
Defined.
Lemma backoff_within_budget_witness :
  let p := plan_in spawn_snap (Some (observed RUN_CONFLICT false)) queued_st in
  pl_status p = Some (value SJ_BACKOFF) /\ (j_retry_count (sp_job spawn_snap) + 1 < MAX_RUNTIME_UNKNOWN)%Z.
Proof.
  split; [vm_compute; reflexivity|].
  refine (proj2 (backoff_within_budget spawn_snap (Some (observed RUN_CONFLICT false)) queued_st _
    (after_decide spawn_snap (Some (observed RUN_CONFLICT false)) queued_st) _ _)); vm_compute; reflexivity.
Defined.
