(* ===== verification/ReconcileSpec.v ===== *)
(** * ReconcileSpec: what one reconciliation commits.

    A decision is committed only on the facts it was made from, under the current lease,
    and touches one row of the job table and the outbox; everything else, the core's
    tables and the action journal included, is as it was. *)
From S2P Require Import Prelude PyVal Models Json Canonical Timestamps Trust Workflow JobState CoreStore Core Dispatch JobRows Leases JobSteps JobInv Outbox Ledger IsoParse Supervisor Reconcile DecideSpec LeaseSpec Session Scenario JobScenario LeaseSession.
From stdpp Require Import relations.
#[local] Open Scope string_scope.

(** ** Only the outbox *)
Definition outbox_only (s s' : JSt) : Prop :=
  jdb s' = jdb s /\ (sok s -> sok s') /\ exists x, js_t s' = (js_t s) <| jt_outbox := x |>.
#[export] Instance outbox_only_preorder : PreOrder outbox_only.
Proof.
  split.
  - intros s. split; [done|]. split; [done|]. exists (jt_outbox (js_t s)). by destruct (js_t s).
  - intros a b c (D1 & F1 & x & X) (D2 & F2 & y & Y). split; [congruence|].
    split; [auto|]. exists y. rewrite Y, X. done.
Qed.
Lemma quiet_outbox s s' : quiet s s' -> outbox_only s s'.
Proof.
  intros Q. pose proof (quiet_sok _ _ Q). destruct Q as (D & T & F). split; [done|]. split; [done|].
  exists (jt_outbox (js_t s)). rewrite T. by destruct (js_t s).
Qed.

Section Spec.
Context {env : Env}.

Lemma sw_quiet {A} (m : jcmd A) : reads m -> stepwise outbox_only m.
Proof. apply sw_reads. exact quiet_outbox. Qed.
Lemma insert_outbox row : stepwise outbox_only (_insert_notification row).
Proof.
  unfold _insert_notification. apply sw_bind; [exact _ | apply sw_quiet; auto with reads | intros _].
  apply sw_bind; [exact _ | apply sw_quiet; unfold jquery; auto with reads | intros [|]].
  - apply sw_quiet. auto with reads.
  - apply sw_bind; [exact _ | | intros _; apply sw_quiet; auto with reads].
    intros s r s'. unfold jinsert, jwrite. destruct (jt_ok _ _) eqn:K; intros [= _ <-]; [|reflexivity].
    split; [done|]. split; [done|]. by eexists.
Qed.
Lemma enqueue_outbox j k t r e v g b : stepwise outbox_only (_enqueue_notification j k t r e v g b).
Proof.
  unfold _enqueue_notification. do 5 (apply sw_bind; [exact _ | apply sw_quiet; auto with reads | intros ?]).
  apply insert_outbox.
Qed.
Lemma commit_notification_outbox p job g : stepwise outbox_only
  match pl_action p with
  | RA_PERSISTENT_ERROR => _enqueue_persistent_error_notification job
  | RA_PRESENT_OWNER_GATE => _enqueue_waiting_gate_notification job g
  | _ => mret false
  end.
Proof.
  unfold _enqueue_persistent_error_notification, _enqueue_waiting_gate_notification.
  destruct persistent_error_outcome as [t c], waiting_gate_outcome as [t' c'].
  case_match; try apply enqueue_outbox; apply sw_quiet; auto with reads.
Qed.

(** ** Reading the facts *)
Lemma workflow_frontier_pure task_id source s : exists r, workflow_frontier task_id source s = (r, s).
Proof.
  unfold workflow_frontier, _require_controller, _check_source, _workflow_frontier, need, raise_unless, get_task, query.
  unfold mbind, M_bind. destruct (bool_decide _); [|by eexists]. cbn -[db_frontier].
  destruct (String.eqb _ _); [|by eexists]. cbn -[db_frontier].
  destruct (by_id _ _ _); cbn -[db_frontier]; by eexists.
Qed.
Lemma frontier_reads source task_id : reads (frontier_fn source task_id).
Proof.
  intros s r s'. unfold frontier_fn, on_core. destruct (workflow_frontier_pure task_id source (js_core s)) as [x ->].
  intros [= _ <-]. done.
Qed.
Lemma dbquery_reads {A} (f : DB -> A) : reads (dbquery f).
Proof. unfold dbquery. auto with reads. Qed.
Hint Resolve frontier_reads dbquery_reads : reads.
Lemma core_facts_reads source job task_id : reads (_read_core_facts source job task_id).
Proof.
  unfold _read_core_facts, list_supervisor_actions, jquery. apply reads_bind; [auto with reads | intros db].
  case_match; auto 10 with reads.
Qed.
Hint Resolve core_facts_reads : reads.
Lemma update_job_ok id fields s n s' : lookup_field f_primary_state fields = None ->
  _update_supervisor_job id fields s = (Ok n, s') ->
  exists tail, (tail = [] \/ exists ps, tail = [A_primary_state ps]) /\ jdb s' = jdb s /\ (sok s -> sok s') /\
    js_t s' = put id (apply_all (fields ++ tail)) (js_t s).
Proof.
  intros L. unfold _update_supervisor_job. destruct fields as [|a l] eqn:E.
  { intros [_ <-]%mret_ok. exists []. split; [by left|]. split; [done|]. split; [done|].
    unfold put, update_where, apply_all. cbn. destruct (js_t s); unfold set, eta_expand, JT_eta; cbn. f_equal.
    rewrite <- (map_id jt_jobs) at 1. apply map_ext. intros j. by destruct (is_job id j). }
  rewrite <- E in *. rewrite L. intros R. inv_ok R.
  repeat match goal with
  | H : get_supervisor_job _ _ = _ |- _ => apply get_job_ok in H as [H ->]
  | H : jupdate _ _ _ _ = _ |- _ => apply jupdate_ok in H as (-> & -> & Hk)
  end.
  destruct (_derive_primary_state_for_update _ _) as [ps|].
  - exists [A_primary_state ps]. split; [right; by exists ps | done].
  - exists []. split; [by left|]. by rewrite app_nil_r.
Qed.

(** Who may commit on a job: anybody when it is unleased, else the current holder. *)
Definition entitled (lease_owner : option string) (lease_epoch : option Z) (job : Job) : Prop :=
  forall owner, j_owner_instance_id job = Some owner ->
  lease_owner = Some owner /\ lease_epoch = Some (j_lease_epoch job) /\
  exists expires e now, j_lease_expires_at job = Some expires /\ _parse_iso expires = Ok e /\ (to_utc now < e)%Z.
Lemma fence_entitled lo le job s u s' : _enforce_lease_fence lo le job s = (Ok u, s') ->
  entitled lo le job.
Proof.
  unfold _enforce_lease_fence, entitled. destruct (j_owner_instance_id job) as [o|]; [|done].
  intros R owner [= <-]. apply M_bind_ok in R as (v & s1 & R1 & R). apply raise_when_ok in R1 as [F _].
  rewrite orb_false_iff, !negb_false_iff in F. destruct F as [O E]. apply ostr_eqb_eq in O.
  split; [done|]. destruct le as [x|]; [|done]. apply Z.eqb_eq in E as ->. split; [done|].
  destruct (j_lease_expires_at job) as [exp|]; [|done]. inv_ok R.
  eexists _, _, _. split; [done|]. split; [eassumption|]. by apply Z.leb_gt.
Qed.
Lemma lease_fence_reads lo le job : reads (_enforce_lease_fence lo le job).
Proof.
  unfold _enforce_lease_fence. case_match; [|auto with reads]. apply reads_bind; [auto with reads | intros _].
  case_match; auto 10 with reads.
Qed.
Hint Resolve lease_fence_reads : reads.

(** ** The columns a commit writes *)
Lemma lookup_field_app {A} (f : assign -> option A) l m :
  lookup_field f (l ++ m) = match lookup_field f m with Some x => Some x | None => lookup_field f l end.
Proof.
  induction l as [|a l IH]; cbn; [by destruct (lookup_field f m)|]. rewrite IH.
  by destruct (lookup_field f m).
Qed.
Definition f_facts_version (a : assign) := match a with A_facts_version v => Some v | _ => None end.
Definition f_next_action (a : assign) := match a with A_next_action v => Some v | _ => None end.
Definition f_lease_epoch (a : assign) := match a with A_lease_epoch v => Some v | _ => None end.
Definition f_owner (a : assign) := match a with A_owner_instance_id v => Some v | _ => None end.
Definition f_retry_count (a : assign) := match a with A_retry_count v => Some v | _ => None end.

Section Written.
Variables (snap : _Snapshot) (obs : option RunObservation) (db : DB) (p : _Plan) (facts : Z) (now : string).
Variables (progress tail : list assign).
Hypothesis (Hp : progress = [] \/ exists n, progress = [A_last_progress_at n]).
Hypothesis (Ht : tail = [] \/ exists ps, tail = [A_primary_state ps]).
Hypothesis (Hn : pl_terminal p = None).
Let written := ((_projection_fields snap obs db ++ plan_fields p facts now ++ progress) ++ tail)%list.
Ltac written_tac :=
  unfold written, _projection_fields, plan_fields, if_some; rewrite Hn, !lookup_field_app;
  destruct Hp as [->|[? ->]], Ht as [->|[? ->]]; cbn;
  destruct (ostr_eqb (pl_status p) _); cbn;
  destruct (pl_status p), (pl_wake_at p), (pl_recovery_state p), (pl_retry_count p), (pl_missing_confirmations p),
    (pl_last_error_code p); reflexivity.
Lemma written_facts : lookup_field f_facts_version written = Some (facts + 1)%Z.
Proof. written_tac. Qed.
Lemma written_action : lookup_field f_next_action written = Some (value (pl_action p)).
Proof. written_tac. Qed.
Lemma written_epoch : lookup_field f_lease_epoch written = None.
Proof. written_tac. Qed.
Lemma written_terminal : lookup_field f_terminal written = None.
Proof. written_tac. Qed.
Lemma written_owner : lookup_field f_owner written =
  if ostr_eqb (pl_status p) (Some (value SJ_BACKOFF)) then Some None else None.
Proof. written_tac. Qed.
Lemma written_retry : lookup_field f_retry_count written = pl_retry_count p.
Proof. written_tac. Qed.
Lemma written_status : lookup_field f_status written = pl_status p.
Proof. written_tac. Qed.
End Written.
Lemma commit_primary snap obs db p facts now progress :
  (progress = [] \/ exists n, progress = [A_last_progress_at n]) ->
  lookup_field f_primary_state (_projection_fields snap obs db ++ plan_fields p facts now ++ progress) = None.
Proof.
  intros Hp. unfold _projection_fields, plan_fields, if_some. rewrite !lookup_field_app.
  destruct Hp as [->|[? ->]]; cbn; destruct (ostr_eqb (pl_status p) _); cbn;
  destruct (pl_status p), (pl_wake_at p), (pl_recovery_state p), (pl_retry_count p), (pl_missing_confirmations p),
    (pl_last_error_code p), (pl_terminal p); reflexivity.
Qed.

(** A decision never closes the job itself. *)
Ltac open_plans := repeat first
  [ solve [apply y_ret; repeat case_match; done] | apply y_query | solve [apply y_wait_until; done]
  | solve [apply y_wait_backoff; done] | solve [apply y_bounded; done] | apply y_lift; intros ? _
  | eapply y_bind; [solve [auto with reads] | apply y_any | intros ? _] | case_match ].
Lemma decide_gate_open t snap : yields t (_decide_gate snap) (fun o => forall p, o = Some p -> pl_terminal p = None).
Proof.
  unfold _decide_gate. repeat first
    [ solve [apply y_ret; intros p [= <-]; done] | case_match
    | eapply y_bind; [apply wait_until_reads | apply (y_wait_until _ _ _ (fun p => pl_terminal p = None)); done
                     | intros p Hp; apply y_ret; intros q [= <-]; exact Hp] ].
Qed.
Lemma decide_write_open t snap o ad : yields t (_decide_write_preconditions snap o ad) (fun p => pl_terminal p = None).
Proof. unfold _decide_write_preconditions, _apply_diverged_plan, _write_hash_mismatch_plan. open_plans. Qed.
Lemma decide_open t snap o : yields t (_decide snap o) (fun p => pl_terminal p = None).
Proof.
  unfold _decide, _decide_no_active. do 5 (case_match; [by apply y_ret|]).
  eapply y_bind; [apply decide_gate_reads | apply decide_gate_open|]. intros [p|] Hg; [by apply y_ret, Hg|].
  destruct (wf_expected_role _) as [role|]; [|by apply y_ret].
  destruct (sp_active_dispatch snap) as [ad|]; [|apply y_ret; by repeat case_match].
  destruct (off_frontier _ _ _); [by apply y_ret|]. destruct (unbound ad).
  - unfold _decide_unbound, _adapter_backoff, no_observation, _wait_missing. open_plans.
  - unfold _decide_bound, _adapter_backoff, no_observation, _wait_missing.
    repeat first [apply decide_write_open | progress open_plans].
Qed.

(** ** The commit *)
Context (source : string) (lo : option string) (le : option Z).
(** [job'] is [job] after decision [d], whose plan was [p]: one more facts version, the
    action recorded, the lease kept or, for a backoff, given back. *)
Definition decided (job job' : Job) (p : _Plan) (d : ReconcileDecision) : Prop :=
  j_id job' = j_id job /\ rdc_job_id d = j_id job /\ j_facts_version job' = (j_facts_version job + 1)%Z /\
  rdc_facts_version d = j_facts_version job' /\ rdc_action d = pl_action p /\
  j_next_action job' = value (pl_action p) /\ j_terminal job' = j_terminal job /\
  j_lease_epoch job' = j_lease_epoch job /\
  j_owner_instance_id job' =
    (if ostr_eqb (pl_status p) (Some (value SJ_BACKOFF)) then None else j_owner_instance_id job) /\
  j_retry_count job' = default (j_retry_count job) (pl_retry_count p) /\
  j_status job' = default (j_status job) (pl_status p).

Lemma core_facts_job job task_id s fresh s' :
  _read_core_facts source job task_id s = (Ok (Some fresh), s') -> sp_job fresh = job.
Proof.
  unfold _read_core_facts. intros R. apply M_bind_ok in R as (db & s1 & _ & R).
  destruct (find_task task_id db); [|done]. inv_ok R. by injection H as <-.
Qed.
Lemma applied_column {B} (proj : Job -> B) (f : assign -> option B) fields job :
  (forall a x, proj (apply_assign a x) = default (proj x) (f a)) -> forall o, lookup_field f fields = o ->
  proj (apply_all fields job) = default (proj job) o.
Proof. intros H o <-. by apply lookup_apply. Qed.
Lemma decided_written fresh obs db p job now progress tail d :
  (progress = [] \/ exists n, progress = [A_last_progress_at n]) ->
  (tail = [] \/ exists ps, tail = [A_primary_state ps]) -> pl_terminal p = None ->
  rdc_job_id d = j_id job -> rdc_facts_version d = (j_facts_version job + 1)%Z -> rdc_action d = pl_action p ->
  decided job (apply_all ((_projection_fields fresh obs db ++ plan_fields p (j_facts_version job) now ++ progress)
                          ++ tail) job) p d.
Proof.
  intros P T O D0 D1 D2. unfold decided.
  rewrite (applied_column j_facts_version f_facts_version _ job ltac:(by intros []) _ (written_facts _ _ _ _ _ _ _ _ P T O)),
    (applied_column j_next_action f_next_action _ job ltac:(by intros []) _ (written_action _ _ _ _ _ _ _ _ P T O)),
    (applied_column j_terminal f_terminal _ job ltac:(by intros []) _ (written_terminal _ _ _ _ _ _ _ _ P T O)),
    (applied_column j_lease_epoch f_lease_epoch _ job ltac:(by intros []) _ (written_epoch _ _ _ _ _ _ _ _ P T O)),
    (applied_column j_owner_instance_id f_owner _ job ltac:(by intros []) _ (written_owner _ _ _ _ _ _ _ _ P T O)),
    (applied_column j_retry_count f_retry_count _ job ltac:(by intros []) _ (written_retry _ _ _ _ _ _ _ _ P T O)),
    (applied_column j_status f_status _ job ltac:(by intros []) _ (written_status _ _ _ _ _ _ _ _ P T O)), apply_all_id.
  repeat split; [done | done | done |]. by destruct (ostr_eqb _ _).
Qed.
Lemma commit_ok job_id snap obs s r s' : _commit source lo le job_id snap obs s = (Ok r, s') ->
  match r with
  | None => jdb s' = jdb s /\ js_t s' = js_t s
  | Some d => (sok s -> sok s') /\ exists job fresh p f, job_of job_id (js_t s) = Some job /\ entitled lo le job /\
      j_facts_version job = j_facts_version (sp_job snap) /\ sp_job fresh = job /\
      snapshot_key fresh = snapshot_key snap /\
      (justified (js_t s) fresh obs p /\ quiescent fresh p /\ backoff_bounded job p) /\
      (forall x, j_id (f x) = j_id x) /\ decided job (f job) p d /\ jdb s' = jdb s /\
      exists outbox, js_t s' = (put job_id f (js_t s)) <| jt_outbox := outbox |>
  end.
Proof.
  intros R. unfold _commit in R. apply jtransaction_ok in R as (s0 & Q0 & _ & R).
  apply M_bind_ok in R as (job & s1 & R1 & R). apply need_job_ok in R1 as [J ->].
  apply M_bind_ok in R as (u & s2 & R2 & R). pose proof R2 as F%fence_entitled. apply lease_fence_reads in R2.
  assert (Q2 : quiet s s2) by (by eapply quiet_trans). clear R2.
  destruct (negb _) eqn:V; [injection R as <- <-; destruct Q2 as (? & ? & _); done|].
  rewrite negb_false_iff in V. apply Z.eqb_eq in V.
  apply M_bind_ok in R as (o & s3 & R3 & R). pose proof R3 as Q3%core_facts_reads.
  assert (Q : quiet s s3) by (by eapply quiet_trans). clear Q3.
  destruct o as [fresh|]; [|injection R as <- <-; destruct Q as (? & ? & _); done].
  destruct (negb _) eqn:K; [injection R as <- <-; destruct Q as (? & ? & _); done|].
  rewrite negb_false_iff in K. unfold same_facts in K. rewrite bool_decide_eq_true in K.
  apply M_bind_ok in R as (p & s4 & R4 & R). pose proof (decide_ok _ _ _ _ _ R4) as D.
  pose proof (decide_open _ _ _ s3 p s4 eq_refl R4) as O. apply decide_reads in R4.
  apply M_bind_ok in R as (proj & s5 & R5 & R). pose proof R5 as Q5%dbquery_reads.
  unfold dbquery in R5. apply gets_ok in R5 as [-> _].
  apply M_bind_ok in R as (now & s6 & R6 & R). apply jnow_iso_reads in R6.
  apply M_bind_ok in R as (progress & s7 & R7 & R).
  assert (P : (progress = [] \/ exists n, progress = [A_last_progress_at n]) /\ quiet s6 s7).
  { destruct (in_list _ _) in R7; [|injection R7 as <- <-; split; [by left | apply quiet_refl]]. apply M_bind_ok in R7 as (n & sn & R7 & Rn).
    injection Rn as <- <-. split; [right; by exists n | by apply jnow_iso_reads in R7]. }
  destruct P as [P Q7].
  assert (Q8 : quiet s s7) by (repeat (eapply quiet_trans; [eassumption|]); apply quiet_refl).
  apply M_bind_ok in R as (n & s8 & R8 & R). apply update_job_ok in R8 as (tail & T & D8 & F8 & T8);
    [|by apply commit_primary].
  apply M_bind_ok in R as (b & s9 & R9 & R). apply commit_notification_outbox in R9 as (D9 & F9 & x & X).
  injection R as <- <-. pose proof (core_facts_job _ _ _ _ _ R3) as Ej.
  split; [intros K0; apply F9, F8; eapply quiet_sok; eassumption|]. exists job, fresh, p.
  exists (apply_all ((_projection_fields fresh obs (jdb s4) ++ plan_fields p (j_facts_version job) now ++ progress) ++ tail)).
  destruct Q0 as (_ & T0 & _), Q as (_ & T3 & _), Q8 as (D' & T' & _).
  rewrite T0 in J. rewrite T3, Ej in D. split; [done|]. split; [done|]. split; [done|]. split; [done|].
  split; [done|]. split; [done|]. split; [intros; apply apply_all_id|]. split.
  { apply decided_written; try done. symmetry. by apply row_by_id in J as [? _]. }
  split; [congruence|]. exists x. rewrite X, T8, T'. done.
Qed.
Lemma job_of_put_other id id' f t : id' <> id -> (forall j, j_id (f j) = j_id j) ->
  job_of id' (put id f t) = job_of id' t.
Proof.
  intros N K. rewrite job_of_put by done. destruct (job_of id' t) as [j|] eqn:J; [cbn | done].
  apply row_by_id in J as [E _]. unfold is_job. by destruct (String.eqb_spec (j_id j) id); [congruence|].
Qed.

End Spec.

(** ** Many supervisors *)
(** Commits of any supervisors, on snapshots read at any time, and lease commands. *)
Inductive recon_event : Type :=
| RCommit (owner : option string) (epoch : option Z) (job_id : string) (snap : _Snapshot)
    (obs : option RunObservation)
| RLease (c : lease_cmd).
Section Many.
Context {env : Env} (source : string).
Definition recon_step (e : recon_event) (s : JSt) : option ReconcileDecision * JSt :=
  match e with
  | RCommit o ep id snap obs =>
      match _commit source o ep id snap obs s with
      | (Ok (Some d), s') => (Some d, s')
      | (_, s') => (None, s')
      end
  | RLease c => (None, snd (lease_exec c s))
  end.
(** The decisions the events commit, in order. *)
Fixpoint recon_trace (es : list recon_event) (s : JSt) : list (option ReconcileDecision) :=
  match es with
  | [] => []
  | e :: es => let (d, s') := recon_step e s in d :: recon_trace es s'
  end.

Definition later_facts (t t' : JT) : Prop := forall id j, job_of id t = Some j ->
  exists j', job_of id t' = Some j' /\ (j_facts_version j <= j_facts_version j')%Z.
Lemma step_facts e s d s' : sok s -> recon_step e s = (d, s') ->
  sok s' /\ later_facts (js_t s) (js_t s') /\
  match d with
  | Some d => exists j j', job_of (rdc_job_id d) (js_t s) = Some j /\ job_of (rdc_job_id d) (js_t s') = Some j' /\
      (j_facts_version j < rdc_facts_version d)%Z /\ rdc_facts_version d = j_facts_version j'
  | None => True
  end.
Proof.
  intros K. destruct e as [o ep id snap obs|c]; cbn.
  - destruct (_commit source o ep id snap obs s) as [r s1] eqn:R.
    assert (Same : js_t s1 = js_t s -> later_facts (js_t s) (js_t s1)).
    { intros ->. intros i j J. exists j. split; [done | lia]. }
    destruct r as [[d'|]|e]; intros [= <- <-].
    + apply commit_ok in R as (K1 & job & fresh & p & f & J & _ & _ & _ & _ & _ & F & D & _ & x & T).
      destruct D as (_ & I & V & W & _). pose proof (row_by_id _ _ _ _ J) as [Ei _]. rewrite I, Ei.
      assert (Jf : job_of id (js_t s1) = Some (f job)) by (rewrite T; by apply (job_of_put_same id f (js_t s))).
      split; [auto|]. split; [|exists job, (f job); split; [done|]; split; [done|]; split; [lia | done]].
      intros i j Ji. destruct (String.eqb_spec i id) as [->|N].
      * exists (f job). split; [done|]. assert (j = job) as -> by congruence. lia.
      * exists j. split; [|lia]. rewrite T. etrans; [|exact Ji]. by apply (job_of_put_other id i f (js_t s)).
    + apply commit_ok in R as [D T]. split; [unfold sok; by rewrite D, T | auto].
    + unfold _commit in R. apply jtransaction_err in R as [D T]. split; [unfold sok; by rewrite D, T | auto].
  - destruct (lease_exec c s) as [r s1] eqn:R. intros [= <- <-]. cbn.
    destruct (exec_follows c s r s1 K R) as (_ & K1 & now & P). split; [done|]. split; [|done].
    intros i j J. destruct (P i j J) as (j' & J' & S). exists j'. split; [done|].
    apply (moves_facts (authorised c) (view j) (view j')). by eapply moves_rtc.
Qed.
Lemma trace_facts es s id j k d : sok s -> job_of id (js_t s) = Some j ->
  nth_error (recon_trace es s) k = Some (Some d) -> rdc_job_id d = id ->
  (j_facts_version j < rdc_facts_version d)%Z.
Proof.
  revert s j k. induction es as [|e es IH]; intros s j k K J N I; [by destruct k|]. cbn in N.
  destruct (recon_step e s) as [o s1] eqn:R. destruct (step_facts _ _ _ _ K R) as (K1 & L & D).
  destruct k as [|k]; cbn in N.
  - injection N as ->. destruct D as (x & x' & X & _ & Lt & _). subst id. assert (x = j) as -> by congruence. done.
  - destruct (L id j J) as (j1 & J1 & Le). pose proof (IH s1 j1 k K1 J1 N I). lia.
Qed.

(** Decisions have distinct tokens.  Whatever supervisors commit on whatever
    snapshots, interleaved with any lease commands, two decisions committed on one job
    carry different facts versions, the later one the greater; since a decision is
    executed only while its facts version is the job's, at most the last is. *)
Theorem decision_tokens_increase es s i k d1 d2 : sok s -> i < k ->
  nth_error (recon_trace es s) i = Some (Some d1) -> nth_error (recon_trace es s) k = Some (Some d2) ->
  rdc_job_id d1 = rdc_job_id d2 -> (rdc_facts_version d1 < rdc_facts_version d2)%Z.
Proof.
  revert s i k. induction es as [|e es IH]; intros s i k K L N1 N2 I; [by destruct i|]. cbn in N1, N2.
  destruct (recon_step e s) as [o s1] eqn:R. destruct (step_facts _ _ _ _ K R) as (K1 & Lf & D).
  destruct k as [|k]; [lia|]. destruct i as [|i]; cbn in N1, N2.
  - injection N1 as ->. destruct D as (x & x' & _ & X' & _ & ->). by eapply trace_facts.
  - eapply (IH s1 i k); [done | lia | done | done | done].
Qed.
End Many.

(** ** The wait for a run that is not there *)
Section Overflow.
Context {env : Env}.
(** A non-authoritative NOT_FOUND for the unbound dispatch of an open job. *)
Definition missing_run (snap : _Snapshot) (ob : RunObservation) (ad : AgentDispatch) (t : JT) : Prop :=
  j_terminal (sp_job snap) = None /\ j_status (sp_job snap) <> value SJ_ERROR /\
  ~ In (t_state (sp_task snap)) closed_states /\ gate_blocks snap = false /\
  (exists role, working_on snap role ad) /\ unbound ad = true /\
  ob_status ob = RUN_NOT_FOUND /\ ob_authoritative_not_found ob = false /\
  exhausted_action (_spawn_action (d_id ad) t) = false.

Lemma decide_missing snap ob ad s : missing_run snap ob ad (js_t s) ->
  _decide snap (Some ob) s = _wait_missing snap ad "not_found_non_authoritative" RV_DISCOVERING_RUN s.
Proof.
  intros (T & E & C & G & (role & W1 & W2 & W3 & W4) & U & S & N & X).
  assert (Ts : forall x, In x closed_states -> t_state (sp_task snap) <> x) by (intros x I <-; done).
  unfold _decide. rewrite T. cbn [is_some]. rewrite (proj2 (String.eqb_neq _ _) E).
  rewrite !bool_decide_false by (apply Ts; cbn; tauto).
  destruct (in_list _ _) eqn:I; [apply in_list_In in I; exfalso; apply C; cbn in *; tauto|].
  unfold gate_blocks in G. rewrite !orb_false_iff in G. destruct G as [[G1 G2] G3].
  unfold _decide_gate. rewrite G1, G2, G3. unfold mbind at 1, M_bind at 1. cbn [mret M_ret].
  rewrite W1, W2. unfold off_frontier. rewrite W3, W4, bool_decide_true by done. cbn [negb orb].
  rewrite U. unfold _decide_unbound. rewrite S. unfold jquery, gets. unfold mbind at 1, M_bind at 1.
  by rewrite X, N.
Qed.

(** The wait for a run that the adapter cannot find has no bound, and its backoff
    overflows.  Each decision on a non-authoritative NOT_FOUND counts one more retry and
    waits again; nothing limits the count; and once the job has 1024 retries the power in
    [backoff_seconds] overflows, so [_decide] raises OverflowError, an exception no
    handler of the loop catches. *)
Theorem missing_run_wait_overflows snap ob ad s : missing_run snap ob ad (js_t s) ->
  (forall p s', _decide snap (Some ob) s = (Ok p, s') ->
     pl_action p = RA_WAIT /\ pl_retry_count p = Some (j_retry_count (sp_job snap) + 1)%Z) /\
  ((1024 <= j_retry_count (sp_job snap))%Z -> exists s', _decide snap (Some ob) s = (Err OverflowError, s')).
Proof.
  intros M. rewrite (decide_missing _ _ _ _ M). split.
  - intros p s' R. refine ((y_wait_backoff (js_t s) _ _ (fun p => pl_action p = RA_WAIT /\
      pl_retry_count p = Some (j_retry_count (sp_job snap) + 1)%Z) _) s p s' eq_refl R). by intros.
  - intros L. unfold _wait_missing, wait_backoff.
    replace (j_retry_count (sp_job snap) + 1 - 1)%Z with (j_retry_count (sp_job snap)) by lia.
    assert (B : backoff_seconds (j_retry_count (sp_job snap)) = Err OverflowError).
    { unfold backoff_seconds. rewrite Z.max_l by lia.
      destruct (Z.ltb_spec (j_retry_count (sp_job snap)) 1024); [lia | done]. }
    unfold mbind at 1, M_bind at 1. destruct (jnow s) as [[now|e] s1] eqn:Jn.
    + rewrite B. by eexists.
    + unfold jnow, on_core, now in Jn. done.
Qed.
End Overflow.

(** ** The sticky error *)
Lemma moves_stuck auth v v' : rtc (moves auth) v v' -> l_state v = "BLOCKED" -> l_terminal v = None ->
  l_state v' = "BLOCKED" /\ l_terminal v' = None /\ l_epoch v' = l_epoch v.
Proof.
  induction 1 as [|v1 v2 v3 (now & S) _ IH]; [done|]. intros B T.
  assert (E : l_state v2 = "BLOCKED" /\ l_terminal v2 = None /\ l_epoch v2 = l_epoch v1).
  { destruct S; cbn; try done; try (by destruct H as [_ H]); congruence. }
  destruct E as (E1 & E2 & E3). destruct (IH E1 E2) as (-> & -> & ->). done.
Qed.
(** A sticky error has no exit.  A job in the state [_persist_error] leaves it,
    BLOCKED without a terminal, stays so under every sequence of lease and queue commands,
    the requeue the owner authorises included, and no lease is ever granted on it. *)
Theorem sticky_error_has_no_exit {env : Env} cs s id j : sok s -> job_of id (js_t s) = Some j ->
  j_primary_state j = "BLOCKED" -> j_terminal j = None ->
  exists j', job_of id (js_t (lease_run cs s)) = Some j' /\
    j_primary_state j' = "BLOCKED" /\ j_terminal j' = None /\ j_lease_epoch j' = j_lease_epoch j.
Proof.
  intros K J B T. destruct (lease_run_moves true cs s id j K J) as (_ & j' & J' & M); [by apply List.Forall_forall|].
  exists j'. split; [done|]. exact (moves_stuck true (view j) (view j') M B T).
Qed.

(** ** Samples *)
#[local] Existing Instance sample_env.
Definition read_snap (s : JSt) : _Snapshot :=
  match _read_snapshot lead job_id0 s with (Ok (Some x), _) => x | _ => spawn_snap end.
Definition queued_snap : _Snapshot := read_snap queued_st.
Definition commit_queued : JSt := snd (_commit lead None None job_id0 queued_snap None queued_st).
(** An unleased commit, a claim, a commit on the old facts, and one on fresh facts by the
    holder. *)
Definition two_commits : list recon_event :=
  [RCommit None None job_id0 queued_snap None; RLease (Claim job_id0 "host-a" 3600);
   RCommit (Some "host-a") (Some 1%Z) job_id0 queued_snap None;
   RCommit (Some "host-a") (Some 1%Z) job_id0 (read_snap (snd (claim_job job_id0 "host-a" 3600 commit_queued))) None].

Example two_commits_decisions : option_map rdc_facts_version <$> recon_trace lead two_commits queued_st
  = [Some 1%Z; None; None; Some 3%Z].
Proof. vm_compute. reflexivity. Qed.
Lemma decision_tokens_increase_witness : exists d1 d2,
  nth_error (recon_trace lead two_commits queued_st) 0 = Some (Some d1) /\
  nth_error (recon_trace lead two_commits queued_st) 3 = Some (Some d2) /\
  (rdc_facts_version d1 < rdc_facts_version d2)%Z.
Proof.
  eexists _, _. split; [vm_compute; reflexivity|]. split; [vm_compute; reflexivity|].
  refine (decision_tokens_increase lead two_commits queued_st 0 3 _ _ queued_sok _ _ _ _);
    [lia | vm_compute; reflexivity | vm_compute; reflexivity | reflexivity].
Defined.
Definition tired_snap : _Snapshot :=
  snap_of (sample_job <| j_retry_count := 1024%Z |>) open_task None IMPLEMENTER (dispatch_of IMPLEMENTER DPENDING None).
Lemma missing_run_wait_overflows_witness :
  exists s', _decide tired_snap (Some (observed RUN_NOT_FOUND false)) queued_st = (Err OverflowError, s').
Proof.
  refine (proj2 (missing_run_wait_overflows tired_snap (observed RUN_NOT_FOUND false)
    (dispatch_of IMPLEMENTER DPENDING None) queued_st _) _); [|vm_compute; discriminate].
  split; [vm_compute; reflexivity|]. split; [vm_compute; discriminate|].
  split; [cbn; intuition discriminate|]. split; [vm_compute; reflexivity|].
  split; [exists IMPLEMENTER; repeat split; vm_compute; reflexivity|]. repeat split; vm_compute; reflexivity.
Defined.

Definition failed_st : JSt := snd (_persist_error (Some "host-a") (Some 1%Z) job_id0 "X" claimed_st).
Definition owner_requeue : lease_cmd :=
  EnqueueJob job_id0
    (mkEnqueue "NEW" 0 None "NONE" "NONE" None false None None true (Some "policy") None None None None None None None).
Lemma sticky_error_has_no_exit_witness : exists j', job_of job_id0 (js_t (lease_run [owner_requeue] failed_st)) = Some j' /\
  j_primary_state j' = "BLOCKED" /\ j_terminal j' = None.
Proof.
  destruct (job_of job_id0 (js_t failed_st)) as [j|] eqn:J; [|exfalso; vm_compute in J; discriminate].
  assert (P : (fun j => (j_primary_state j, j_terminal j)) <$> job_of job_id0 (js_t failed_st) = Some ("BLOCKED", None))
    by (vm_compute; reflexivity).
  rewrite J in P. injection P as P1 P2.
  destruct (sticky_error_has_no_exit [owner_requeue] failed_st job_id0 j ltac:(vm_compute; reflexivity) J P1 P2)
    as (j' & J' & B & T & _). exists j'. auto.
Defined.
