(* ===== verification/ActionLocks.v ===== *)
(** * ActionLocks: named locks held by leased jobs
    (src/argent_core/store.py, [_job_holds_current_lease] to
    [reclaim_stale_action_lock]).

    A lock row names its holder, a job and a lease epoch.  The row outlives the lease:
    a holder whose lease is no longer current may be replaced by a current one. *)
From S2P Require Import Prelude PyVal Models Timestamps JobState CoreStore JobRows Worktree Leases.
#[local] Open Scope string_scope.

(** The lease [(job_id, lease_epoch)] is current in the tables, at time [now_iso]. *)
Definition lease_live (t : JT) (job_id : string) (lease_epoch : Z) (now_iso : string) : bool :=
  match job_of job_id t with
  | None => false
  | Some j => negb (is_some (j_terminal j)) && is_some (j_owner_instance_id j)
              && (j_lease_epoch j =? lease_epoch)%Z && lease_open j now_iso
  end.
Definition is_lock (lock_name : string) (l : ActionLock) : bool := String.eqb (al_lock_name l) lock_name.
Definition lock_of (lock_name : string) (t : JT) : option ActionLock := by_id al_lock_name lock_name (jt_locks t).
Definition held_exactly (job_id : string) (lease_epoch : Z) (l : ActionLock) : bool :=
  String.eqb (al_holder_job_id l) job_id && (al_holder_lease_epoch l =? lease_epoch)%Z.
Definition take_lock (job_id : string) (lease_epoch : Z) (now_iso : string) (l : ActionLock) : ActionLock :=
  l <| al_holder_job_id := job_id |> <| al_holder_lease_epoch := lease_epoch |> <| al_updated_at := now_iso |>.
Definition jdelete {A} (tbl : JT -> list A) `{Setter JT (list A) tbl} (p : A -> bool) : jcmd unit :=
  jwrite (set tbl (List.filter (fun x => negb (p x)))).

Section Locks.
Context {env : Env}.

Definition _job_holds_current_lease (job_id : string) (lease_epoch : Z) (now_iso : string) : jcmd bool :=
  jquery (fun t => lease_live t job_id lease_epoch now_iso).
Definition try_acquire_action_lock (lock_name job_id : string) (lease_epoch : Z) : jcmd bool :=
  _ ← raise_when (blank lock_name) ValueError;
  _ ← raise_when (blank job_id) ValueError;
  _ ← raise_when (lease_epoch <? 1)%Z ValueError;
  jtransaction (
    now_iso ← jnow_iso;
    mine ← _job_holds_current_lease job_id lease_epoch now_iso;
    _ ← raise_unless mine LeaseFencedError;
    row ← jquery (lock_of lock_name);
    match row with
    | None => _ ← jinsert jt_locks (mkActionLock lock_name job_id lease_epoch now_iso now_iso); mret true
    | Some l =>
        if held_exactly job_id lease_epoch l then mret true else
        alive ← _job_holds_current_lease (al_holder_job_id l) (al_holder_lease_epoch l) now_iso;
        if negb alive then
          _ ← jupdate jt_locks (is_lock lock_name) (take_lock job_id lease_epoch now_iso); mret true
        else mret false
    end).
Definition release_action_lock (lock_name job_id : string) (lease_epoch : Z) : jcmd bool :=
  _ ← raise_when (blank lock_name) ValueError;
  jtransaction (
    row ← jquery (lock_of lock_name);
    match row with
    | None => mret true
    | Some l =>
        if negb (held_exactly job_id lease_epoch l) then mret false
        else _ ← jdelete jt_locks (is_lock lock_name); mret true
    end).
Definition job_holds_current_lease (job_id : string) (lease_epoch : Z) : jcmd bool :=
  if blank job_id || (lease_epoch <? 1)%Z then mret false
  else now_iso ← jnow_iso; _job_holds_current_lease job_id lease_epoch now_iso.
Definition action_lock_held_by (lock_name job_id : string) (lease_epoch : Z) : jcmd bool :=
  if blank lock_name then mret false else
  row ← jquery (lock_of lock_name);
  mret match row with Some l => held_exactly job_id lease_epoch l | None => false end.
Definition action_lock_state (lock_name : string) : jcmd (option (string * Z)) :=
  if blank lock_name then mret None else
  row ← jquery (lock_of lock_name);
  mret ((fun l => (al_holder_job_id l, al_holder_lease_epoch l)) <$> row).
Definition reclaim_stale_action_lock (lock_name : string) : jcmd bool :=
  _ ← raise_when (blank lock_name) ValueError;
  jtransaction (
    row ← jquery (lock_of lock_name);
    match row with
    | None => mret false
    | Some l =>
        now_iso ← jnow_iso;
        alive ← _job_holds_current_lease (al_holder_job_id l) (al_holder_lease_epoch l) now_iso;
        if alive : bool then mret false
        else _ ← jdelete jt_locks (is_lock lock_name); mret true
    end).
End Locks.
