(* ===== verification/JobFrame.v ===== *)
(** * JobFrame: the tables a lease command can change.

    Every command of [Leases] leaves the core's tables and all tables but the jobs and
    the recovery markers as they were, whatever its outcome. *)
From S2P Require Import Prelude PyVal Models Timestamps JobState Concurrency Recovery CoreStore JobRows Worktree Leases JobSteps JobInv LeaseSession.
#[local] Open Scope string_scope.

Definition jobs_only (s s' : JSt) : Prop :=
  jdb s' = jdb s /\ exists jobs markers, js_t s' = (js_t s) <| jt_jobs := jobs |> <| jt_markers := markers |>.
#[export] Instance jobs_only_preorder : PreOrder jobs_only.
Proof.
  split.
  - intros s. split; [done|]. exists (jt_jobs (js_t s)), (jt_markers (js_t s)). by destruct (js_t s).
  - intros a b c (D1 & j1 & m1 & E1) (D2 & j2 & m2 & E2). split; [congruence|]. exists j2, m2. by rewrite E2, E1.
Qed.
Lemma jobs_only_same s s' : jdb s' = jdb s -> js_t s' = js_t s -> jobs_only s s'.
Proof.
  intros D E. split; [done|]. exists (jt_jobs (js_t s)), (jt_markers (js_t s)). rewrite E. by destruct (js_t s).
Qed.
Lemma fr_reads {A} (m : jcmd A) : reads m -> stepwise jobs_only m.
Proof. apply sw_reads. intros s s' (D & T & _). by apply jobs_only_same. Qed.
Lemma fr_jobs p f : stepwise jobs_only (jupdate jt_jobs p f).
Proof.
  intros s r s' E. apply jupdate_cases in E as [->| ->]; [reflexivity|]. split; [done|].
  exists (update_where p f (jt_jobs (js_t s))), (jt_markers (js_t s)). by destruct (js_t s).
Qed.
Lemma fr_marker x : stepwise jobs_only (jinsert jt_markers x).
Proof.
  intros s r s' E. apply jwrite_cases in E as [->| ->]; [reflexivity|]. split; [done|].
  exists (jt_jobs (js_t s)), (jt_markers (js_t s) ++ [x])%list. by destruct (js_t s).
Qed.
Lemma fr_transaction {env : Env} {A} (m : jcmd A) : stepwise jobs_only m -> stepwise jobs_only (jtransaction m).
Proof.
  intros Hm s [a|e] s' E.
  - apply jtransaction_ok in E as (s1 & (D & T & _) & _ & E). apply Hm in E. etrans; [|exact E].
    by apply jobs_only_same.
  - apply jtransaction_err in E as [D T]. by apply jobs_only_same.
Qed.
Lemma fr_fence f : stepwise jobs_only (modify (fun s => s <| js_fence := f |>)).
Proof. intros s r s' [= _ <-]. by apply jobs_only_same. Qed.

Ltac fr_step :=
  first
    [ solve [apply fr_reads; auto with reads]
    | apply fr_transaction | apply fr_jobs | apply fr_marker | apply fr_fence
    | apply sw_bind; [exact _ | | intros ?]
    | case_match ].
Ltac fr := repeat fr_step.
Section Frame.
Context {env : Env}.
Lemma fr_need id : reads (need_job id).
Proof. unfold need_job, get_supervisor_job, jquery. auto with reads. Qed.
Lemma fr_get id : reads (get_supervisor_job id).
Proof. unfold get_supervisor_job, jquery. auto with reads. Qed.
Lemma fr_query {A} (f : JT -> A) : reads (jquery f).
Proof. unfold jquery. auto with reads. Qed.
Hint Resolve fr_need fr_get fr_query : reads.
Lemma fr_holder e j o ep n : stepwise jobs_only (check_holder e j o ep n).
Proof. unfold check_holder. fr. Qed.
Lemma fr_transition id ps st f oa b c n : stepwise jobs_only (_transition_job id ps st f oa b c n).
Proof. unfold _transition_job. fr. Qed.
Lemma fr_update id f : stepwise jobs_only (_update_supervisor_job id f).
Proof. unfold _update_supervisor_job. fr. Qed.
Lemma fr_owner o : stepwise jobs_only (_validate_lease_owner o).
Proof. unfold _validate_lease_owner. fr. Qed.
Lemma fr_ttl t : stepwise jobs_only (_validate_ttl t).
Proof. unfold _validate_ttl. fr. Qed.
Lemma fr_epoch t : stepwise jobs_only (_validate_epoch t).
Proof. unfold _validate_epoch. fr. Qed.
Ltac frs := repeat first
  [ solve [eauto using fr_holder, fr_transition, fr_update, fr_owner, fr_ttl, fr_epoch] | fr_step ].
Lemma fr_claim id o t now : stepwise jobs_only (_do_claim_locked id o t now).
Proof. unfold _do_claim_locked. frs. Qed.
Lemma fr_loop o t now n rows : stepwise jobs_only (claim_loop o t now n rows).
Proof.
  induction rows as [|j rows IH]; cbn [claim_loop]; unfold _block_missing_dependency;
    repeat first [exact IH | apply fr_claim | apply fr_transition | fr_step].
Qed.

(** Every lease command changes jobs and recovery markers only. *)
Lemma lease_exec_frame c : stepwise jobs_only (lease_exec c).
Proof.
  destruct c; cbn [lease_exec]; unfold done_, _set_action_fence, _clear_action_fence, claim_job, claim_next_job, renew_lease, release_lease,
    clear_lease, quarantine_lost, quarantine_blocked, quarantine, recover_takeover_job, bind_writer_worktree,
    set_job_metadata, enqueue_job, persist_resource_decision, commit_recovery_decision, commit_decision,
    list_supervisor_actions;
  repeat first [apply fr_claim | apply fr_loop | solve [eauto using fr_holder, fr_transition, fr_update, fr_owner, fr_ttl, fr_epoch] | fr_step].
Qed.
End Frame.

(** ** Failure *)
Section Clean.
Context {env : Env}.
(** An operation that raises changed no table. *)
Definition raises_clean {A} (m : jcmd A) : Prop := forall s e s', m s = (Err e, s') -> js_t s' = js_t s.
Lemma rc_transaction {A} (m : jcmd A) : raises_clean (jtransaction m).
Proof. intros s e s' H. by apply jtransaction_err in H as [_ T]. Qed.
Lemma rc_read_bind {A B} (m : jcmd A) (k : A -> jcmd B) : reads m -> (forall a, raises_clean (k a)) ->
  raises_clean (x ← m; k x).
Proof.
  intros Hm Hk s e s' R. apply M_bind_err in R as [R|(a & s1 & R & K)].
  - by apply Hm in R as (_ & T & _).
  - apply Hm in R as (_ & T & _). apply Hk in K. congruence.
Qed.
End Clean.
Ltac rc := repeat first [apply rc_transaction | apply rc_read_bind; [solve [auto with reads] | intros ?]].
