(* ===== verification/LockSpec.v ===== *)
(** * LockSpec: mutual exclusion of the action locks.

    [lock_ev] interleaves the three operations that write a lock row with any lease
    command: each is one transaction, so every interleaving of the supervisors is a
    list of them. *)
From S2P Require Import Prelude PyVal Models Timestamps JobState Concurrency Recovery CoreStore JobRows Worktree Leases JobSteps JobInv LeaseSpec LeaseSession Scenario JobScenario JobFrame ActionLocks.
#[local] Open Scope string_scope.

Inductive lock_ev : Type :=
| Acquire (lock_name job_id : string) (lease_epoch : Z)
| Unlock (lock_name job_id : string) (lease_epoch : Z)
| Reclaim (lock_name : string)
| OnLease (c : lease_cmd).

(** The row of a lock names this holder. *)
Definition holds (lock_name job_id : string) (epoch : Z) (s : JSt) : Prop :=
  exists l, lock_of lock_name (js_t s) = Some l /\ held_exactly job_id epoch l = true.

Section Spec.
Context {env : Env}.
Definition lock_exec (e : lock_ev) (s : JSt) : JSt :=
  match e with
  | Acquire l j ep => snd (try_acquire_action_lock l j ep s)
  | Unlock l j ep => snd (release_action_lock l j ep s)
  | Reclaim l => snd (reclaim_stale_action_lock l s)
  | OnLease c => snd (lease_exec c s)
  end.
Fixpoint lock_run (evs : list lock_ev) (s : JSt) : JSt :=
  match evs with [] => s | e :: evs => lock_run evs (lock_exec e s) end.
(** At some reading of the clock between two states the lease was not current. *)
Definition lapsed (job_id : string) (epoch : Z) (s s' : JSt) : Prop :=
  exists n, read_between s s' n /\ lease_live (js_t s) job_id epoch n = false.
Definition gives_up (lock_name job_id : string) (epoch : Z) (e : lock_ev) : Prop :=
  e = Unlock lock_name job_id epoch.

(** ** The rows after each statement *)
Lemma is_lock_eq n l : is_lock n l = String.eqb (al_lock_name l) n.
Proof. done. Qed.
Lemma lock_of_insert n x t : lock_of n (set jt_locks (fun l => (l ++ [x])%list) t)
  = match lock_of n t with Some l => Some l | None => if is_lock n x then Some x else None end.
Proof. unfold lock_of, by_id, is_lock. cbn. induction (jt_locks t) as [|y l IH]; cbn; [by destruct (String.eqb _ _)|].
  by destruct (String.eqb (al_lock_name y) n).
Qed.
Lemma lock_of_delete n n' t : n <> n' ->
  lock_of n (set jt_locks (List.filter (fun x => negb (is_lock n' x))) t) = lock_of n t.
Proof.
  intros D. unfold lock_of, by_id. cbn. induction (jt_locks t) as [|x l IH]; [done|].
  cbn [List.filter List.find]. rewrite is_lock_eq. destruct (String.eqb_spec (al_lock_name x) n') as [E|E]; cbn [negb].
  - rewrite IH. destruct (String.eqb_spec (al_lock_name x) n); [congruence | done].
  - cbn [List.find]. by rewrite IH.
Qed.
Lemma lock_of_take n n' j ep now t :
  lock_of n (set jt_locks (update_where (is_lock n') (take_lock j ep now)) t)
  = (fun l => if is_lock n' l then take_lock j ep now l else l) <$> lock_of n t.
Proof. unfold lock_of. cbn. by apply row_by_id_update. Qed.
Lemma lock_name_of n t l : lock_of n t = Some l -> al_lock_name l = n.
Proof. by intros [E _]%row_by_id. Qed.
Lemma other_lock n n' j ep now t : n <> n' ->
  lock_of n (set jt_locks (update_where (is_lock n') (take_lock j ep now)) t) = lock_of n t.
Proof.
  intros D. rewrite lock_of_take. destruct (lock_of n t) as [l|] eqn:L; [|done]. cbn.
  apply lock_name_of in L. rewrite is_lock_eq. destruct (String.eqb_spec (al_lock_name l) n'); [congruence|done].
Qed.

(** ** What each operation does *)
Lemma read_widen s s1 s' n : sound s s1 -> read_between s1 s' n -> read_between s s' n.
Proof. intros [T _] (k & L & R & F). exists k. split; [lia | done]. Qed.
Lemma quiet_fence_sound s s1 : _check_action_fence s = (Ok tt, s1) -> sound s s1.
Proof. apply fence_sound. Qed.
Lemma sound_lock_write f : stepwise sound (jwrite (set jt_locks f)).
Proof.
  intros s r s' E. apply jwrite_cases in E as [->| ->]; [reflexivity|]. split; [done|].
  by intros [U T].
Qed.
Lemma sound_lock_update p f : stepwise sound (jupdate jt_locks p f).
Proof.
  intros s r s' E. apply jupdate_cases in E as [->| ->]; [reflexivity|]. split; [done|].
  by intros [U T].
Qed.
Lemma sound_lives j ep now : stepwise sound (_job_holds_current_lease j ep now).
Proof. unfold _job_holds_current_lease, jquery. auto with stepwise. Qed.

Definition acquired (n j : string) (ep : Z) (now : string) (t : JT) (b : bool) (t' : JT) : Prop :=
  match lock_of n t with
  | None => b = true /\ t' = set jt_locks (fun l => (l ++ [mkActionLock n j ep now now])%list) t
  | Some l =>
      if held_exactly j ep l then b = true /\ t' = t
      else if lease_live t (al_holder_job_id l) (al_holder_lease_epoch l) now then b = false /\ t' = t
      else b = true /\ t' = set jt_locks (update_where (is_lock n) (take_lock j ep now)) t
  end.
Ltac lives H := unfold _job_holds_current_lease, jquery in H; injection H as <- <-.
Lemma acquire_ok n j ep s b s' : try_acquire_action_lock n j ep s = (Ok b, s') ->
  exists now, read_between s s' now /\ lease_live (js_t s) j ep now = true /\
    acquired n j ep now (js_t s) b (js_t s').
Proof.
  unfold try_acquire_action_lock. intros R. do 3 apply when_bind_ok in R as (_ & R).
  apply jtransaction_ok in R as (s1 & (_ & Q & _) & F%quiet_fence_sound & R).
  apply clocked_iso in R as (s2 & now & R & T & B).
  2:{ intros now. unfold _job_holds_current_lease, jquery, jinsert. repeat first
        [ apply sound_lock_write | apply sound_lock_update | solve [auto with stepwise]
        | apply sw_bind; [exact _ | | intros ?] | case_match ]. }
  exists now. split; [by eapply read_widen|]. rewrite <- Q, <- T in *.
  unfold _job_holds_current_lease, jquery in R. inv_ok R.
  split; [done|]. unfold acquired.
  repeat (case_match; inv_ok R); simplify_eq/=; try done.
  all: repeat match goal with
    | H : jinsert _ _ _ = _ |- _ => apply jinsert_ok in H as [-> _]
    | H : jupdate _ _ _ _ = _ |- _ => apply jupdate_ok in H as (_ & -> & _)
    | H : negb _ = _ |- _ => rewrite ?negb_true_iff, ?negb_false_iff in H
    end; try congruence; try done.
  all: by rewrite H1.
Qed.
Lemma release_ok n j ep s b s' : release_action_lock n j ep s = (Ok b, s') ->
  match lock_of n (js_t s) with
  | Some l => if held_exactly j ep l
      then b = true /\ js_t s' = set jt_locks (List.filter (fun x => negb (is_lock n x))) (js_t s)
      else b = false /\ js_t s' = js_t s
  | None => b = true /\ js_t s' = js_t s
  end.
Proof.
  unfold release_action_lock. intros R. apply when_bind_ok in R as (_ & R).
  apply jtransaction_ok in R as (s1 & (_ & Q & _) & _ & R). rewrite <- Q. unfold jquery, jdelete in R. inv_ok R.
  destruct (lock_of n (js_t _)) as [l|]; [|inv_ok R; auto]. destruct (held_exactly j ep l); cbn [negb] in R; inv_ok R; [|auto].
  apply jwrite_ok in Hrun as [-> _]. auto.
Qed.
Lemma reclaim_ok n s b s' : reclaim_stale_action_lock n s = (Ok b, s') ->
  match lock_of n (js_t s) with
  | Some l => exists now, read_between s s' now /\
      let alive := lease_live (js_t s) (al_holder_job_id l) (al_holder_lease_epoch l) now in
      b = negb alive /\
      js_t s' = if alive then js_t s else set jt_locks (List.filter (fun x => negb (is_lock n x))) (js_t s)
  | None => b = false /\ js_t s' = js_t s
  end.
Proof.
  unfold reclaim_stale_action_lock. intros R. apply when_bind_ok in R as (_ & R).
  apply jtransaction_ok in R as (s1 & (_ & Q & _) & F%quiet_fence_sound & R). rewrite <- Q. unfold jquery at 1 in R.
  unfold mbind at 1, M_bind at 1 in R. cbn [gets] in R. destruct (lock_of n (js_t s1)) as [l|] eqn:L; [|inv_ok R; auto].
  apply clocked_iso in R as (s2 & now & R & T & B).
  2:{ intros now. unfold _job_holds_current_lease, jquery, jdelete. repeat first
        [ apply sound_lock_write | solve [auto with stepwise]
        | apply sw_bind; [exact _ | | intros ?] | case_match ]. }
  exists now. split; [by eapply read_widen|]. cbv zeta. rewrite <- T.
  unfold _job_holds_current_lease, jquery, jdelete in R. inv_ok R.
  destruct (lease_live _ _ _ _); cbn [negb] in *; inv_ok R; [auto|]. apply jwrite_ok in Hrun as [-> _]. auto.
Qed.

(** ** The holder keeps its row *)
Lemma held_by_name j ep l : held_exactly j ep l = true -> al_holder_job_id l = j /\ al_holder_lease_epoch l = ep.
Proof. unfold held_exactly. by intros [->%String.eqb_eq ->%Z.eqb_eq]%andb_true_iff. Qed.
Lemma holds_same n j ep s s' : lock_of n (js_t s') = lock_of n (js_t s) -> holds n j ep s -> holds n j ep s'.
Proof. unfold holds. by intros ->. Qed.
Lemma failed_lock_op {A} (m : jcmd A) (bs : list bool) s r s' :
  foldr (fun b k => _ ← raise_when b ValueError; k) (jtransaction m) bs s = (Err r, s') -> js_t s' = js_t s.
Proof.
  induction bs as [|b bs IH]; cbn; [by intros [_ T]%jtransaction_err|].
  destruct b; [by intros [= _ <-] | exact IH].
Qed.
Lemma holds_step n j ep e s : holds n j ep s ->
  holds n j ep (lock_exec e s) \/ gives_up n j ep e \/ lapsed j ep s (lock_exec e s).
Proof.
  intros (l & L & H). pose proof (held_by_name _ _ _ H) as [Hj He]. unfold gives_up, lapsed.
  destruct e as [n' j' ep'|n' j' ep'|n'|c]; cbn [lock_exec].
  - destruct (try_acquire_action_lock n' j' ep' s) as [[b|x] s'] eqn:R; cbn.
    2:{ left. apply (failed_lock_op _ [_; _; _]) in R. exists l. by rewrite R. }
    apply acquire_ok in R as (now & B & _ & A). unfold acquired in A.
    destruct (decide (n = n')) as [<-|D].
    + rewrite L in A. destruct (held_exactly j' ep' l) eqn:H'.
      * left. exists l. by destruct A as [_ ->].
      * rewrite Hj, He in A. destruct (lease_live _ j ep now) eqn:V.
        -- left. exists l. by destruct A as [_ ->].
        -- right. right. by exists now.
    + left. exists l. split; [|done]. destruct (lock_of n' (js_t s)) as [l'|].
      * repeat case_match; destruct A as [_ ->]; [done | done |]. by rewrite other_lock.
      * destruct A as [_ ->]. by rewrite lock_of_insert, L.
  - destruct (release_action_lock n' j' ep' s) as [[b|x] s'] eqn:R; cbn.
    2:{ left. apply (failed_lock_op _ [_]) in R. exists l. by rewrite R. }
    apply release_ok in R. destruct (decide (n = n')) as [<-|D].
    + rewrite L in R. destruct (held_exactly j' ep' l) eqn:H'.
      * apply held_by_name in H' as [<- <-]. right. left. congruence.
      * left. exists l. by destruct R as [_ ->].
    + left. exists l. split; [|done]. repeat case_match; destruct R as [_ ->]; [by rewrite lock_of_delete | done..].
  - destruct (reclaim_stale_action_lock n' s) as [[b|x] s'] eqn:R; cbn.
    2:{ left. apply (failed_lock_op _ [_]) in R. exists l. by rewrite R. }
    apply reclaim_ok in R. destruct (decide (n = n')) as [<-|D].
    + rewrite L in R. destruct R as (now & B & _ & E). rewrite Hj, He in E.
      destruct (lease_live _ j ep now) eqn:V; [|right; right; by exists now].
      left. exists l. by rewrite E.
    + left. exists l. split; [|done]. destruct (lock_of n' (js_t s)) as [l'|]; [|by destruct R as [_ ->]].
      destruct R as (now & _ & _ & ->). case_match; [done|]. by rewrite lock_of_delete.
  - left. destruct (lease_exec c s) as [r s'] eqn:R. apply lease_exec_frame in R as (_ & jobs & ms & T).
    exists l. cbn. by rewrite T.
Qed.
Lemma holds_run n j ep evs s : holds n j ep s ->
  holds n j ep (lock_run evs s) \/
  exists pre e post, evs = (pre ++ e :: post)%list /\
    (gives_up n j ep e \/ lapsed j ep (lock_run pre s) (lock_exec e (lock_run pre s))).
Proof.
  revert s. induction evs as [|e evs IH]; intros s H; [by left|].
  destruct (holds_step n j ep e s H) as [K|K]; [|right; by exists [], e, evs].
  destruct (IH _ K) as [?|(pre & x & post & -> & G)]; [by left|]. right. by exists (e :: pre), x, post.
Qed.
Lemma acquire_holds n j ep s s' : try_acquire_action_lock n j ep s = (Ok true, s') -> holds n j ep s'.
Proof.
  intros (now & _ & _ & A)%acquire_ok. unfold acquired in A. unfold holds.
  assert (N : held_exactly j ep (mkActionLock n j ep now now) = true).
  { unfold held_exactly. cbn. by rewrite String.eqb_refl, Z.eqb_refl. }
  destruct (lock_of n (js_t s)) as [l|] eqn:L.
  - destruct (held_exactly j ep l) eqn:H; [destruct A as [_ ->]; eauto|].
    case_match; [by destruct A|]. destruct A as [_ ->]. rewrite lock_of_take, L. cbn.
    rewrite is_lock_eq, (lock_name_of _ _ _ L), String.eqb_refl. eexists. split; [reflexivity|].
    unfold held_exactly. cbn. by rewrite String.eqb_refl, Z.eqb_refl.
  - destruct A as [_ ->]. rewrite lock_of_insert, L. unfold is_lock. cbn. rewrite String.eqb_refl. eauto.
Qed.

(** C12: a named lock has one holder: when a job acquires it and, after any commands of any
    supervisors, another job (or the same under another lease) acquires it too, then in
    between the first holder released it, or some operation on the lock read the clock at a
    time at which the first holder's lease was not current any more.  A live holder is
    never replaced. *)
Theorem lock_mutual_exclusion n j1 ep1 j2 ep2 evs s0 s1 s3 :
  try_acquire_action_lock n j1 ep1 s0 = (Ok true, s1) ->
  try_acquire_action_lock n j2 ep2 (lock_run evs s1) = (Ok true, s3) ->
  (j1, ep1) <> (j2, ep2) ->
  In (Unlock n j1 ep1) evs \/
  lapsed j1 ep1 (lock_run evs s1) s3 \/
  exists pre e post, evs = (pre ++ e :: post)%list /\
    lapsed j1 ep1 (lock_run pre s1) (lock_exec e (lock_run pre s1)).
Proof.
  intros A1 A2 D. apply acquire_holds in A1.
  destruct (holds_run _ _ _ evs _ A1) as [H|(pre & e & post & E & [->|G])].
  - right. left. destruct (holds_step _ _ _ (Acquire n j2 ep2) _ H) as [K|[K|K]]; cbn in K;
      [|done | by rewrite A2 in K]. rewrite A2 in K. apply acquire_holds in A2.
    destruct K as (l & L & H1%held_by_name), A2 as (l' & L' & H2%held_by_name). naive_solver.
  - left. rewrite E. apply in_or_app. right. by left.
  - right. right. eauto.
Qed.
End Spec.
#[local] Existing Instance sample_env.

Lemma outcome {A B} (p : A * B) a : fst p = a -> p = (a, snd p).
Proof. by destruct p; intros <-. Qed.
(** The lock changes hands at the takeover of a lease given back. *)
Lemma lock_mutual_exclusion_witness :
  let lock := "merge:r:main" in
  let evs := [OnLease (Release job_id0 "host-a" 1); OnLease (Claim job_id0 "host-b" 3600)] in
  let s1 := snd (try_acquire_action_lock lock job_id0 1 claimed_st) in
  fst (try_acquire_action_lock lock job_id0 2 (lock_run evs s1)) = Ok true /\
  (In (Unlock lock job_id0 1) evs \/
   lapsed job_id0 1 (lock_run evs s1) (snd (try_acquire_action_lock lock job_id0 2 (lock_run evs s1))) \/
   exists pre e post, evs = (pre ++ e :: post)%list /\
     lapsed job_id0 1 (lock_run pre s1) (lock_exec e (lock_run pre s1))).
Proof.
  cbv zeta. split; [vm_compute; reflexivity|].
  eapply (lock_mutual_exclusion _ _ _ job_id0 2 _ claimed_st); [| |done].
  - apply outcome. vm_compute. reflexivity.
  - apply outcome. vm_compute. reflexivity.
Defined.
