(* ===== verification/Candidates.v ===== *)
(** * Candidates: the rows of the merge queue
    (src/argent_core/integration_candidate.py, the states and the id;
    src/argent_core/store.py, [create_integration_candidate] to
    [transition_integration_candidate_authoritative]).

    A keyword argument of a transition is a [cassign]: a column of the writable
    list with its value, or a name outside the list, which is refused. *)
From S2P Require Import Prelude PyVal Json Models Canonical JobState CoreStore JobRows Worktree Leases ActionLocks.
#[local] Open Scope string_scope.

Inductive CandidateState : Type :=
| CS_PENDING | CS_READY | CS_INTEGRATING | CS_CONFLICTED | CS_STALE | CS_BLOCKED | CS_INTEGRATED | CS_FAILED.
#[export] Instance CandidateState_eq_dec : EqDecision CandidateState.
Proof. solve_decision. Defined.
Definition CandidateState_value (x : CandidateState) : string :=
  match x with
  | CS_PENDING => "PENDING" | CS_READY => "READY" | CS_INTEGRATING => "INTEGRATING"
  | CS_CONFLICTED => "CONFLICTED" | CS_STALE => "STALE" | CS_BLOCKED => "BLOCKED"
  | CS_INTEGRATED => "INTEGRATED" | CS_FAILED => "FAILED"
  end.
Definition CANDIDATE_STATES : list CandidateState :=
  [CS_PENDING; CS_READY; CS_INTEGRATING; CS_CONFLICTED; CS_STALE; CS_BLOCKED; CS_INTEGRATED; CS_FAILED].
Definition CANDIDATE_STATE_VALUES : list string := map CandidateState_value CANDIDATE_STATES.
Definition TERMINAL_CANDIDATE_STATES : list CandidateState :=
  [CS_INTEGRATED; CS_CONFLICTED; CS_STALE; CS_BLOCKED; CS_FAILED].
Definition CANDIDATE_ID_PREFIX : string := "ic_".
(** [CandidateState(c.state) == st]. *)
Definition in_state (st : CandidateState) (c : Candidate) : bool := String.eqb (c_state c) (CandidateState_value st).

Definition NUL : string := ch 0.
Definition candidate_id_for (repository integration_target source_job_id : string) : string :=
  CANDIDATE_ID_PREFIX ++
  String.substring 0 24 (sha256 (utf8 (repository ++ NUL ++ integration_target ++ NUL ++ source_job_id))).

(** ** The writable columns *)
Inductive cassign : Type :=
| C_base_commit (v : option string)
| C_source_head (v : option string)
| C_source_branch (v : option string)
| C_integration_worktree_path (v : option string)
| C_integration_branch (v : option string)
| C_integrated_head (v : option string)
| C_merge_classification (v : option string)
| C_conflict_detail (v : option string)
| C_result_json (v : option string)
| C_last_error_code (v : option string)
| C_depends_on (v : option string)
| C_priority (v : Z)
| C_queue_position (v : Z)
| C_unlisted (key : string).
Definition writable (a : cassign) : bool := match a with C_unlisted _ => false | _ => true end.
Definition capply (a : cassign) (c : Candidate) : Candidate :=
  match a with
  | C_base_commit v => c <| c_base_commit := v |>
  | C_source_head v => c <| c_source_head := v |>
  | C_source_branch v => c <| c_source_branch := v |>
  | C_integration_worktree_path v => c <| c_integration_worktree_path := v |>
  | C_integration_branch v => c <| c_integration_branch := v |>
  | C_integrated_head v => c <| c_integrated_head := v |>
  | C_merge_classification v => c <| c_merge_classification := v |>
  | C_conflict_detail v => c <| c_conflict_detail := v |>
  | C_result_json v => c <| c_result_json := v |>
  | C_last_error_code v => c <| c_last_error_code := v |>
  | C_depends_on v => c <| c_depends_on := v |>
  | C_priority v => c <| c_priority := v |>
  | C_queue_position v => c <| c_queue_position := v |>
  | C_unlisted _ => c
  end.
Definition capply_all (l : list cassign) (c : Candidate) : Candidate := fold_left (fun c a => capply a c) l c.

(** ** [ORDER BY queue_position ASC, priority DESC, id] *)
Definition queue_leb (a b : Candidate) : bool :=
  (c_queue_position a <? c_queue_position b)%Z
  || ((c_queue_position a =? c_queue_position b)%Z
      && ((c_priority b <? c_priority a)%Z
          || ((c_priority a =? c_priority b)%Z && String.leb (c_id a) (c_id b)))).

Definition is_candidate (candidate_id : string) (c : Candidate) : bool := String.eqb (c_id c) candidate_id.
Definition candidate_of (candidate_id : string) (t : JT) : option Candidate :=
  by_id c_id candidate_id (jt_candidates t).
Definition in_queue (repository integration_target : string) (c : Candidate) : bool :=
  String.eqb (c_repository c) repository && String.eqb (c_integration_target c) integration_target.
Definition opt_is (o : option string) (v : string) : bool :=
  match o with Some x => String.eqb v x | None => true end.
Definition next_position (repository integration_target : string) (t : JT) : Z :=
  match map c_queue_position (List.filter (in_queue repository integration_target) (jt_candidates t)) with
  | [] => 1
  | z :: l => fold_left Z.max l z + 1
  end%Z.

Record NewCandidate : Type := mkNewCandidate {
  nc_base_commit : option string;
  nc_source_head : option string;
  nc_source_branch : option string;
  nc_depends_on : option string;
  nc_priority : Z;
  nc_queue_position : option Z
}.
(** The columns a transition sets, in the order of the UPDATE. *)
Record Holder : Type := mkHolder {
  ho_owner_instance_id : option string;
  ho_lease_epoch : option Z;
  ho_clear : bool
}.
Definition set_holder (h : Holder) (c : Candidate) : Candidate :=
  if ho_clear h then c <| c_holder_owner_instance_id := None |> <| c_holder_lease_epoch := 0%Z |>
  else
    let c := match ho_owner_instance_id h with Some o => c <| c_holder_owner_instance_id := Some o |> | None => c end in
    match ho_lease_epoch h with Some e => c <| c_holder_lease_epoch := e |> | None => c end.
Definition moved (to_state now_iso : string) (h : Holder) (fields : list cassign) (c : Candidate) : Candidate :=
  capply_all fields (set_holder h
    (c <| c_state := to_state |> <| c_revision ::= Z.succ |> <| c_updated_at := now_iso |>)).

Section Queue.
Context {env : Env}.

Definition _validate_candidate_state (state : string) : res exc unit :=
  res_unless (str_in state CANDIDATE_STATE_VALUES) ValueError.
Definition get_integration_candidate (candidate_id : string) : jcmd (option Candidate) :=
  jquery (candidate_of candidate_id).
Definition get_integration_candidate_for_source (source_job_id integration_target : string)
  : jcmd (option Candidate) :=
  jquery (fun t => List.find (fun c => String.eqb (c_source_job_id c) source_job_id
                                       && String.eqb (c_integration_target c) integration_target)
                             (jt_candidates t)).
Definition list_integration_candidates (repository integration_target state : option string)
  : jcmd (list Candidate) :=
  _ ← lift (match state with Some s => _validate_candidate_state s | None => Ok tt end);
  jquery (fun t => sort_by queue_leb (List.filter (fun c =>
    opt_is repository (c_repository c) && opt_is integration_target (c_integration_target c)
    && opt_is state (c_state c)) (jt_candidates t))).

Definition create_integration_candidate (repository integration_target source_job_id : string)
    (n : NewCandidate) : jcmd (option Candidate) :=
  _ ← lift (validate_repo_identity (Some repository));
  _ ← lift (validate_branch_identity (Some integration_target));
  _ ← raise_when (blank source_job_id) ValueError;
  let cid := candidate_id_for repository integration_target source_job_id in
  now_iso ← jnow_iso;
  jtransaction (
    row ← get_integration_candidate cid;
    match row with
    | Some c => mret (Some c)
    | None =>
        q ← match nc_queue_position n with
            | Some q => mret q
            | None => jquery (next_position repository integration_target)
            end;
        _ ← jinsert jt_candidates
              (mkCandidate cid repository integration_target source_job_id (CandidateState_value CS_PENDING)
                 q (nc_priority n) (nc_depends_on n) (nc_base_commit n) (nc_source_head n)
                 (nc_source_branch n) None None None None None 0 None 0 None None now_iso now_iso);
        get_integration_candidate cid
    end).

Definition _transition_candidate_locked (candidate_id from_state to_state : string)
    (expected_revision : Z) (now_iso : string) (h : Holder) (fields : list cassign)
  : jcmd (option Candidate) :=
  row ← get_integration_candidate candidate_id;
  c ← some_or row NotFound;
  _ ← raise_unless (String.eqb (c_state c) from_state) CandidateRevisionError;
  _ ← raise_unless (c_revision c =? expected_revision)%Z CandidateRevisionError;
  _ ← jupdate jt_candidates (is_candidate candidate_id) (moved to_state now_iso h fields);
  get_integration_candidate candidate_id.
Definition transition_integration_candidate (candidate_id from_state to_state : string)
    (expected_revision : Z) (h : Holder) (fields : list cassign) : jcmd (option Candidate) :=
  _ ← lift (_validate_candidate_state from_state);
  _ ← lift (_validate_candidate_state to_state);
  _ ← raise_when (expected_revision <? 0)%Z ValueError;
  _ ← raise_unless (forallb writable fields) ValueError;
  now_iso ← jnow_iso;
  jtransaction (_transition_candidate_locked candidate_id from_state to_state expected_revision now_iso h fields).
Definition transition_integration_candidate_authoritative (candidate_id lock_name holder_job_id : string)
    (holder_lease_epoch : Z) (from_state to_state : string) (expected_revision : Z)
    (holder_owner_instance_id : option string) (clear_holder : bool) (fields : list cassign)
  : jcmd (option Candidate) :=
  _ ← lift (_validate_candidate_state from_state);
  _ ← lift (_validate_candidate_state to_state);
  _ ← raise_when (expected_revision <? 0)%Z ValueError;
  _ ← raise_when (blank lock_name) ValueError;
  _ ← raise_when (blank holder_job_id) ValueError;
  _ ← raise_when (holder_lease_epoch <? 1)%Z ValueError;
  _ ← raise_unless (forallb writable fields) ValueError;
  now_iso ← jnow_iso;
  jtransaction (
    mine ← _job_holds_current_lease holder_job_id holder_lease_epoch now_iso;
    _ ← raise_unless mine LeaseFencedError;
    held ← jquery (fun t => match lock_of lock_name t with
                            | Some l => held_exactly holder_job_id holder_lease_epoch l
                            | None => false
                            end);
    _ ← raise_unless held LeaseFencedError;
    _transition_candidate_locked candidate_id from_state to_state expected_revision now_iso
      (mkHolder holder_owner_instance_id (Some holder_lease_epoch) clear_holder) fields).
End Queue.
