(* ===== verification/MergeOrder.v ===== *)
(** * MergeOrder: the order of the merge queue
    (src/argent_core/integration_candidate.py, [deterministic_order]).

    Kahn's algorithm over the READY candidates.  A Python dict is the list of its
    items in insertion order; the heap is the list of its entries, [heappop] returns
    the smallest.  The [while heap] loop has fuel: one turn per entry pushed, and an
    id is pushed once, when its degree is or becomes 0. *)
From stdpp Require Import relations.
From S2P Require Import Prelude PyVal Json Models Canonical JobState CoreStore JobRows Worktree Leases ActionLocks Candidates JobSteps JobInv.
#[local] Open Scope string_scope.

(** ** Dicts with string keys *)
Section Dict.
Context {V : Type}.
Notation dict := (list (string * V)).
Fixpoint dget (k : string) (d : dict) : option V :=
  match d with
  | [] => None
  | (x, v) :: d => if String.eqb x k then Some v else dget k d
  end.
(** [d[k] = v]: a key keeps its place. *)
Fixpoint dput (k : string) (v : V) (d : dict) : dict :=
  match d with
  | [] => [(k, v)]
  | (x, w) :: d => if String.eqb x k then (x, v) :: d else (x, w) :: dput k v d
  end.
Definition dhas (k : string) (d : dict) : bool := is_some (dget k d).
Definition dof {A} (key : A -> string) (val : A -> V) (l : list A) : dict :=
  fold_left (fun d a => dput (key a) (val a) d) l [].
End Dict.

Definition entry : Type := (Z * Z * Z) * string.
Definition key_ltb (a b : Z * Z * Z) : bool :=
  let '(a1, a2, a3) := a in let '(b1, b2, b3) := b in
  ((a1 <? b1) || ((a1 =? b1) && ((a2 <? b2) || ((a2 =? b2) && (a3 <? b3)))))%Z.
Definition key_eqb (a b : Z * Z * Z) : bool :=
  let '(a1, a2, a3) := a in let '(b1, b2, b3) := b in ((a1 =? b1) && (a2 =? b2) && (a3 =? b3))%Z.
(** The order of the tuples [(sort_key, cid)]. *)
Definition entry_leb (a b : entry) : bool :=
  key_ltb (fst a) (fst b) || (key_eqb (fst a) (fst b) && String.leb (snd a) (snd b)).
(** The smallest entry and the rest of the heap. *)
Fixpoint heappop (x : entry) (l : list entry) : entry * list entry :=
  match l with
  | [] => (x, [])
  | y :: l => if entry_leb x y then let (m, r) := heappop x l in (m, y :: r)
              else let (m, r) := heappop y l in (m, x :: r)
  end.

Definition sort_key (c : Candidate) : Z * Z * Z :=
  ((if in_state CS_STALE c then 1 else 0)%Z, c_queue_position c, (- c_priority c)%Z).
Definition entry_of (c : Candidate) : entry := (sort_key c, c_id c).

Record OrderOutcome : Type := mkOrderOutcome {
  oo_ordered : list Candidate;
  oo_deferred : list Candidate;
  oo_blocked : list Candidate
}.
(** The variables of the two loops. *)
Record Edges : Type := mkEdges {
  dependents : list (string * list string);
  indegree : list (string * Z)
}.
#[export] Instance Edges_eta : EtaExpand Edges := fun x => mkEdges (dependents x) (indegree x).
Record Kahn : Type := mkKahn {
  k_heap : list entry;
  k_indegree : list (string * Z);
  k_ordered : list Candidate;
  k_processed : list string
}.
#[export] Instance Kahn_eta : EtaExpand Kahn := fun x =>
  mkKahn (k_heap x) (k_indegree x) (k_ordered x) (k_processed x).

Section Order.
Context (candidates : list Candidate) (integrated_ids : list string).

Definition ready : list Candidate := List.filter (in_state CS_READY) candidates.
Definition ready_by_id : list (string * Candidate) := dof c_id (fun c => c) ready.
Definition id_to_src : list (string * Candidate) := dof c_id (fun c => c) candidates.
(** [dependents.setdefault(dep, []).append(cid)]. *)
Definition add_dependent (dep cid : string) (e : Edges) : Edges :=
  e <| dependents ::= fun d => dput dep (default [] (dget dep d) ++ [cid])%list d |>.
Definition bump (cid : string) (e : Edges) : Edges :=
  e <| indegree ::= fun d => dput cid (default 0 (dget cid d) + 1)%Z d |>.
Definition one (cid : string) (e : Edges) : Edges := e <| indegree ::= dput cid 1%Z |>.
Definition edge_step (e : Edges) (c : Candidate) : Edges :=
  match c_depends_on c with
  | None => e
  | Some dep =>
      if str_in dep integrated_ids then e
      else match dget dep id_to_src with
           | Some o =>
               if in_state CS_INTEGRATED o then e
               else if dhas dep ready_by_id then bump (c_id c) (add_dependent dep (c_id c) e)
               else add_dependent dep (c_id c) (one (c_id c) e)
           | None => add_dependent dep (c_id c) (one (c_id c) e)
           end
  end.
Definition edges : Edges := fold_left edge_step ready (mkEdges [] (dof c_id (fun _ => 0%Z) ready)).

Definition push (cid : string) (heap : list entry) : list entry :=
  match dget cid ready_by_id with Some c => (sort_key c, cid) :: heap | None => heap end.
Definition release_step (k : Kahn) (dep_id : string) : Kahn :=
  if dhas dep_id ready_by_id then
    let n := (default 0 (dget dep_id (k_indegree k)) - 1)%Z in
    let k := k <| k_indegree ::= dput dep_id n |> in
    if (n =? 0)%Z then k <| k_heap ::= push dep_id |> else k
  else k.
Definition pop_step (k : Kahn) : Kahn :=
  match k_heap k with
  | [] => k
  | x :: l =>
      let '((_, cid), heap) := heappop x l in
      let k := k <| k_heap := heap |> in
      if str_in cid (k_processed k) then k else
      let k := k <| k_processed ::= fun p => (p ++ [cid])%list |>
                 <| k_ordered ::= fun o => match dget cid ready_by_id with Some c => (o ++ [c])%list | None => o end |> in
      fold_left release_step (default [] (dget cid (dependents edges))) k
  end.
Fixpoint while_heap (fuel : nat) (k : Kahn) : Kahn :=
  match fuel, k_heap k with
  | O, _ | _, [] => k
  | S fuel, _ :: _ => while_heap fuel (pop_step k)
  end.
Definition first_heap : list entry :=
  fold_left (fun h kv => if (snd kv =? 0)%Z then push (fst kv) h else h) (indegree edges) [].
Definition kahn : Kahn := while_heap (List.length ready) (mkKahn first_heap (indegree edges) [] []).

(** The candidates left over: a cycle (or so the code says) or an unmet dependency. *)
Definition leftover : list Candidate :=
  omap (fun kv => if str_in (fst kv) (k_processed kahn) then None else dget (fst kv) ready_by_id)
       (k_indegree kahn).
Definition waits_on_ready (c : Candidate) : bool :=
  match c_depends_on c with Some dep => dhas dep ready_by_id | None => false end.
Definition fifo_leb (a b : Candidate) : bool := (c_queue_position a <=? c_queue_position b)%Z.
Definition deterministic_order : OrderOutcome :=
  mkOrderOutcome (k_ordered kahn)
    (sort_by fifo_leb (List.filter (fun c => negb (waits_on_ready c)) leftover))
    (sort_by fifo_leb (List.filter waits_on_ready leftover)).
End Order.

(** ** OrderSpec: the order of the merge queue is the greedy one.

    [greedy] picks, again and again, the smallest candidate (queue position, then
    priority, then id) among those whose prerequisite is integrated or already picked.
    The heap loop of [deterministic_order] ends and computes exactly this list. *)
(** ** The order of entries is total *)
Ltac entries := unfold entry_leb, key_ltb, key_eqb in *; cbn [fst snd] in *;
  repeat progress rewrite ?orb_true_iff, ?andb_true_iff, ?Z.ltb_lt, ?Z.eqb_eq in *.
Lemma entry_leb_total a b : entry_leb a b = true \/ entry_leb b a = true.
Proof.
  destruct a as [[[a1 a2] a3] a4], b as [[[b1 b2] b3] b4]. entries.
  destruct (Z.lt_trichotomy a1 b1) as [?|[<-|?]]; [lia | | lia].
  destruct (Z.lt_trichotomy a2 b2) as [?|[<-|?]]; [lia | | lia].
  destruct (Z.lt_trichotomy a3 b3) as [?|[<-|?]]; [lia | | lia].
  destruct (String.leb_total a4 b4); [left | right]; intuition.
Qed.
Lemma entry_leb_trans a b c : entry_leb a b = true -> entry_leb b c = true -> entry_leb a c = true.
Proof.
  destruct a as [[[a1 a2] a3] a4], b as [[[b1 b2] b3] b4], c as [[[c1 c2] c3] c4]. entries.
  intros H K. pose proof (str_leb_trans a4 b4 c4). intuition lia.
Qed.
Lemma entry_leb_antisym a b : entry_leb a b = true -> entry_leb b a = true -> snd a = snd b.
Proof.
  destruct a as [[[a1 a2] a3] a4], b as [[[b1 b2] b3] b4]. entries.
  intros H K. pose proof (String.leb_antisym a4 b4). intuition lia.
Qed.
Lemma entry_leb_refl a : entry_leb a a = true.
Proof. by destruct (entry_leb_total a a). Qed.

Lemma heappop_spec x l m r : heappop x l = (m, r) ->
  x :: l ≡ₚ m :: r /\ Forall (fun y => entry_leb m y = true) (x :: l).
Proof.
  revert x m r. induction l as [|y l IH]; intros x m r; cbn.
  - intros [= <- <-]. split; [done|]. repeat constructor. apply entry_leb_refl.
  - destruct (entry_leb x y) eqn:L.
    + destruct (heappop x l) as [m' r'] eqn:E. intros [= <- <-]. apply IH in E as [P F].
      split; [by rewrite (Permutation_swap y x), P, (Permutation_swap y m')|].
      inversion_clear F. repeat constructor; [done | | done]. by eapply entry_leb_trans.
    + destruct (heappop y l) as [m' r'] eqn:E. intros [= <- <-]. apply IH in E as [P F].
      split; [by rewrite P, (Permutation_swap x m')|]. constructor; [|done].
      inversion_clear F. destruct (entry_leb_total x y) as [?|K]; [congruence|]. by eapply entry_leb_trans.
Qed.

(** ** Dicts *)
Section DictLemmas.
Context {V : Type}.
Implicit Types (d : list (string * V)).
Lemma dget_dput k k' v d : dget k (dput k' v d) = if String.eqb k' k then Some v else dget k d.
Proof.
  induction d as [|[x w] d IH]; cbn; [done|].
  destruct (String.eqb_spec x k') as [->|D]; cbn; [by destruct (String.eqb k' k)|].
  rewrite IH. destruct (String.eqb_spec x k) as [->|]; [|done].
  by destruct (String.eqb_spec k' k) as [->|].
Qed.
Lemma keys_dput k v d : In k (map fst d) -> map fst (dput k v d) = map fst d.
Proof.
  induction d as [|[x w] d IH]; cbn; [done|]. destruct (String.eqb_spec x k) as [->|D]; [done|].
  intros [?|I]; [done|]. cbn. by rewrite IH.
Qed.
Lemma dput_new k v d : ~ In k (map fst d) -> dput k v d = (d ++ [(k, v)])%list.
Proof.
  induction d as [|[x w] d IH]; cbn; [done|]. intros N. destruct (String.eqb_spec x k) as [->|D]; [tauto|].
  rewrite IH; tauto.
Qed.
Lemma dof_from {A} (key : A -> string) (val : A -> V) l d : NoDup (map fst d ++ map key l)%list ->
  fold_left (fun d a => dput (key a) (val a) d) l d = (d ++ map (fun a => (key a, val a)) l)%list.
Proof.
  revert d. induction l as [|a l IH]; intros d N; cbn; [by rewrite app_nil_r|].
  rewrite dput_new.
  - rewrite IH; [by rewrite <- app_assoc|]. by rewrite map_app, <- app_assoc.
  - cbn in N. apply NoDup_app in N as (_ & N & _).  intros I. apply (N (key a)); [by apply list_elem_of_In | by left].
Qed.
Lemma dof_nodup {A} (key : A -> string) (val : A -> V) l : NoDup (map key l) ->
  dof key val l = map (fun a => (key a, val a)) l.
Proof. intros N. unfold dof. by rewrite dof_from. Qed.
Lemma dget_map {A} (key : A -> string) (val : A -> V) k l :
  dget k (map (fun a => (key a, val a)) l) = val <$> by_id key k l.
Proof.
  unfold by_id. induction l as [|a l IH]; [done|]. cbn. by destruct (String.eqb (key a) k).
Qed.
End DictLemmas.

(** ** The greedy order *)
Section Greedy.
Context (candidates : list Candidate) (integrated_ids : list string).
Notation ready := (ready candidates).
Notation ready_by_id := (ready_by_id candidates).
Notation edges := (edges candidates integrated_ids).

Definition ids (l : list Candidate) : list string := map c_id l.
(** The prerequisite of [c] is integrated, or among the candidates [o] picked before. *)
Definition free (o : list Candidate) (c : Candidate) : bool :=
  match c_depends_on c with
  | None => true
  | Some dep =>
      str_in dep integrated_ids
      || match by_id c_id dep candidates with Some p => in_state CS_INTEGRATED p | None => false end
      || str_in dep (ids o)
  end.
Definition avail (o : list Candidate) (c : Candidate) : bool := negb (str_in (c_id c) (ids o)) && free o c.
Fixpoint smallest (l : list Candidate) : option Candidate :=
  match l with
  | [] => None
  | c :: l => match smallest l with
              | Some d => if entry_leb (entry_of c) (entry_of d) then Some c else Some d
              | None => Some c
              end
  end.
Fixpoint greedy (n : nat) (o : list Candidate) : list Candidate :=
  match n with
  | O => o
  | S n => match smallest (List.filter (avail o) ready) with
           | Some c => greedy n (o ++ [c])%list
           | None => o
           end
  end.

Hypothesis ids_unique : NoDup (ids candidates).

Lemma in_filter {A} (p : A -> bool) x l : x ∈ List.filter p l <-> x ∈ l /\ p x = true.
Proof. rewrite !list_elem_of_In. apply filter_In. Qed.
Lemma ids_sub p l : NoDup (ids l) -> NoDup (ids (List.filter p l)).
Proof.
  induction l as [|c l IH]; [done|]. intros [N U]%NoDup_cons. cbn. destruct (p c); [|by apply IH].
  apply NoDup_cons. split; [|by apply IH]. intros I. apply N.
  apply list_elem_of_In, in_map_iff in I as (x & E & [I _]%filter_In). apply list_elem_of_In, in_map_iff. eauto.
Qed.
Lemma nodup_of_ids l : NoDup (ids l) -> NoDup l.
Proof. apply NoDup_fmap_1. Qed.
Lemma same_id l c d : NoDup (ids l) -> c ∈ l -> d ∈ l -> c_id c = c_id d -> c = d.
Proof.
  intros N C D E. rewrite list_elem_of_In in C, D.
  assert (uniq c_id l = true) as U by (unfold uniq; by apply bool_decide_eq_true_2).
  pose proof (by_id_in c_id l c U C) as H1. pose proof (by_id_in c_id l d U D) as H2. congruence.
Qed.
Lemma ready_unique : NoDup (ids ready).
Proof. by apply ids_sub. Qed.
Lemma ready_in c : c ∈ ready <-> c ∈ candidates /\ in_state CS_READY c = true.
Proof. apply in_filter. Qed.
Lemma by_id_of l c : NoDup (ids l) -> c ∈ l -> by_id c_id (c_id c) l = Some c.
Proof.
  intros N C. apply by_id_in; [|by apply list_elem_of_In]. unfold uniq. by apply bool_decide_eq_true_2.
Qed.
Lemma ready_get k : dget k ready_by_id = by_id c_id k ready.
Proof.
  unfold MergeOrder.ready_by_id. rewrite dof_nodup by apply ready_unique. rewrite dget_map.
  by destruct (by_id _ _ _).
Qed.
Lemma src_get k : dget k (id_to_src candidates) = by_id c_id k candidates.
Proof. unfold id_to_src. rewrite dof_nodup by done. rewrite dget_map. by destruct (by_id _ _ _). Qed.

(** *** The edges *)
Definition deg (o : list Candidate) (c : Candidate) : Z := if free o c then 0%Z else 1%Z.
Definition waits (cid : string) (d : Candidate) : bool := ostr_eqb (c_depends_on d) (Some cid) && negb (free [] d).
Lemma free_nil c : free [] c = match c_depends_on c with
  | None => true
  | Some dep => str_in dep integrated_ids
      || match by_id c_id dep candidates with Some p => in_state CS_INTEGRATED p | None => false end
  end.
Proof. unfold free. destruct (c_depends_on c); [|done]. cbn. apply orb_false_r. Qed.
Lemma edge_step_eq e c : dget (c_id c) (indegree e) = Some 0%Z ->
  edge_step candidates integrated_ids e c =
  if free [] c then e else
    match c_depends_on c with
    | Some dep => add_dependent dep (c_id c) (one (c_id c) e)
    | None => e
    end.
Proof.
  intros Z. rewrite free_nil. unfold edge_step. destruct (c_depends_on c) as [dep|]; [|done].
  rewrite src_get. destruct (str_in dep integrated_ids); [done|]. cbn.
  destruct (by_id c_id dep candidates) as [p|]; [|done]. destruct (in_state CS_INTEGRATED p); [done|].
  destruct (dhas dep ready_by_id); [|done]. unfold bump, one, add_dependent. unfold set. cbn. by rewrite Z.
Qed.

Definition edges_ok (p : list Candidate) (e : Edges) : Prop :=
  map fst (indegree e) = ids ready /\
  (forall c, c ∈ ready -> dget (c_id c) (indegree e) = Some (if str_in (c_id c) (ids p) then deg [] c else 0%Z)) /\
  (forall k, default [] (dget k (dependents e)) = ids (List.filter (waits k) p)).
Lemma edges_from q p e : ready = (p ++ q)%list -> edges_ok p e ->
  edges_ok ready (fold_left (edge_step candidates integrated_ids) q e).
Proof.
  revert p e. induction q as [|c q IH]; intros p e R K; cbn.
  - by rewrite R, app_nil_r.
  - apply (IH (p ++ [c])%list); [by rewrite R, <- app_assoc|]. destruct K as (K1 & K2 & K3).
    assert (C : c ∈ ready) by (rewrite R; apply elem_of_app; right; by left).
    assert (N : str_in (c_id c) (ids p) = false).
    { apply str_in_false. pose proof ready_unique as U. rewrite R in U. unfold ids in *. rewrite map_app in U.
      apply NoDup_app in U as (_ & U & _). intros I%list_elem_of_In. apply (U _ I). by left. }
    assert (Z0 : dget (c_id c) (indegree e) = Some 0%Z) by (rewrite K2, N by done; done).
    assert (app_in : forall d, d ∈ ready -> str_in (c_id d) (ids (p ++ [c])) =
      String.eqb (c_id c) (c_id d) || str_in (c_id d) (ids p)).
    { intros d D. unfold ids, str_in. rewrite map_app, existsb_app. cbn. rewrite orb_false_r, orb_comm.
      by rewrite String.eqb_sym. }
    rewrite edge_step_eq by done. destruct (free [] c) eqn:F.
    + split; [done|]. split.
      * intros d D. rewrite app_in by done. destruct (String.eqb_spec (c_id c) (c_id d)) as [E|E]; cbn; [|by apply K2].
        apply (same_id ready) in E as <-; [|apply ready_unique|done..]. unfold deg. by rewrite F, Z0.
      * intros k. rewrite K3, List.filter_app. cbn. unfold waits. rewrite F, andb_false_r, app_nil_r. done.
    + pose proof F as F'. rewrite free_nil in F'. destruct (c_depends_on c) as [dep|] eqn:Dp; [|done]. split.
      * cbn. rewrite keys_dput; [done|]. rewrite K1. by apply list_elem_of_In, list_elem_of_fmap_2.
      * split.
        -- intros d D. rewrite app_in by done. cbn. rewrite dget_dput.
           destruct (String.eqb_spec (c_id c) (c_id d)) as [E|E]; cbn; [|by apply K2].
           apply (same_id ready) in E as <-; [|apply ready_unique|done..]. unfold deg. by rewrite F.
        -- intros k. cbn. rewrite dget_dput, List.filter_app. cbn. unfold waits at 2. rewrite Dp, F. cbn.
           unfold ids. rewrite map_app. fold (ids (List.filter (waits k) p)).
           rewrite <- K3. destruct (String.eqb_spec dep k) as [->|E]; cbn; [done|]. by rewrite app_nil_r.
Qed.
Lemma edges_spec : edges_ok ready edges.
Proof.
  apply (edges_from ready []); [done|]. unfold edges_ok. cbn [indegree dependents].
  rewrite dof_nodup by apply ready_unique. split; [unfold ids; by rewrite map_map|]. split; [|done].
  intros c C. rewrite dget_map, by_id_of; [done | apply ready_unique | done].
Qed.

(** *** The loop *)
Lemma free_more o c d : free (o ++ [c])%list d = free o d || ostr_eqb (c_depends_on d) (Some (c_id c)).
Proof.
  unfold free. destruct (c_depends_on d) as [dep|]; [|done]. unfold ids, str_in. rewrite map_app, existsb_app. cbn.
  by rewrite orb_false_r, orb_assoc.
Qed.
Lemma free_start o c : free [] c = true -> free o c = true.
Proof. rewrite free_nil. unfold free. destruct (c_depends_on c); [|done]. by intros ->. Qed.

Definition released (ds : list Candidate) (k k' : Kahn) : Prop :=
  k_heap k' = (map entry_of (rev ds) ++ k_heap k)%list /\ k_ordered k' = k_ordered k /\
  k_processed k' = k_processed k /\ map fst (k_indegree k') = map fst (k_indegree k) /\
  forall x, dget x (k_indegree k') = if str_in x (ids ds) then Some 0%Z else dget x (k_indegree k).
Lemma dget_key {V} k (d : list (string * V)) v : dget k d = Some v -> In k (map fst d).
Proof.
  induction d as [|[x w] d IH]; cbn; [done|]. destruct (String.eqb_spec x k) as [->|D]; [by left|].
  intros E. right. by apply IH.
Qed.
Lemma release_fold ds k : NoDup (ids ds) -> Forall (fun d => d ∈ ready) ds ->
  Forall (fun d => dget (c_id d) (k_indegree k) = Some 1%Z) ds ->
  released ds k (fold_left (release_step candidates) (ids ds) k).
Proof.
  revert k. induction ds as [|d ds IH]; intros k N R G; [by repeat split|].
  inversion_clear R as [|? ? R1 R2]. inversion_clear G as [|? ? G1 G2].
  cbn in N. apply NoDup_cons in N as [N1 N2]. change (ids (d :: ds)) with (c_id d :: ids ds). cbn [fold_left].
  assert (E : release_step candidates k (c_id d) =
    k <| k_indegree ::= dput (c_id d) 0%Z |> <| k_heap ::= cons (entry_of d) |>).
  { unfold release_step, dhas, push. rewrite ready_get, by_id_of by (done || apply ready_unique). cbn. by rewrite G1. }
  rewrite E. set (k1 := k <| k_indegree ::= _ |> <| k_heap ::= _ |>).
  destruct (IH k1) as (I1 & I2 & I3 & I4 & I5); [done..| |].
  { rewrite List.Forall_forall in *. intros x X. cbn. rewrite dget_dput.
    destruct (String.eqb_spec (c_id d) (c_id x)) as [Ed|_]; [|by apply G2].
    exfalso. apply N1. rewrite Ed. apply list_elem_of_fmap_2. by apply list_elem_of_In. }
  unfold released. split; [|split; [done|split; [done|split]]].
  - rewrite I1. cbn. by rewrite map_app, <- app_assoc.
  - rewrite I4. cbn. apply keys_dput. by eapply dget_key.
  - intros x. rewrite I5. cbn. rewrite dget_dput, String.eqb_sym. unfold str_in. cbn.
    destruct (String.eqb x (c_id d)); cbn; [by destruct (existsb _ _)|done].
Qed.

Record inv (o : list Candidate) (k : Kahn) : Prop := {
  i_ordered : k_ordered k = o;
  i_processed : k_processed k = ids o;
  i_ready : forall c, c ∈ o -> c ∈ ready;
  i_unique : NoDup (ids o);
  i_free : forall c, c ∈ o -> free o c = true;
  i_heap : k_heap k ≡ₚ map entry_of (List.filter (avail o) ready);
  i_keys : map fst (k_indegree k) = ids ready;
  i_deg : forall c, c ∈ ready -> dget (c_id c) (k_indegree k) = Some (deg o c)
}.
Lemma not_picked o c : str_in (c_id c) (ids o) = false <-> ~ c_id c ∈ ids o.
Proof. by rewrite str_in_false, list_elem_of_In. Qed.
(** The candidates that wait for [c] only. *)
Definition freed (c : Candidate) : list Candidate := List.filter (waits (c_id c)) ready.
Lemma avail_more o k c : inv o k -> c ∈ ready -> avail o c = true ->
  c :: List.filter (avail (o ++ [c])%list) ready ≡ₚ (List.filter (avail o) ready ++ freed c)%list.
Proof.
  intros I C A. pose proof ready_unique as U. apply nodup_of_ids in U as U'.
  unfold avail in A. apply andb_true_iff in A as [A1%negb_true_iff A2].
  assert (W : forall d, d ∈ ready -> waits (c_id c) d = true -> free o d = false).
  { intros d D. unfold waits. intros [E%ostr_eqb_eq F%negb_true_iff]%andb_true_iff.
    rewrite free_nil, E in F. unfold free. rewrite E, F. by rewrite A1. }
  apply NoDup_Permutation.
  - apply NoDup_cons. split; [|by apply NoDup_ListNoDup, List.NoDup_filter, NoDup_ListNoDup].
    intros [_ K]%in_filter. unfold avail, ids, str_in in K. rewrite map_app, existsb_app in K. cbn in K.
    by rewrite String.eqb_refl, orb_true_r in K.
  - apply NoDup_app. split; [by apply NoDup_ListNoDup, List.NoDup_filter, NoDup_ListNoDup|].
    split; [|by apply NoDup_ListNoDup, List.NoDup_filter, NoDup_ListNoDup].
    intros d [D K]%in_filter [_ L]%in_filter. apply W in L; [|done]. unfold avail in K. by rewrite L, andb_false_r in K.
  - intros d. unfold freed. rewrite elem_of_cons, elem_of_app, !in_filter. split.
    + intros [->|[D K]]; [left; split; [done|]; unfold avail; by rewrite A1, A2|].
      unfold avail in K. rewrite free_more in K. apply andb_true_iff in K as [K1 K2].
      unfold ids, str_in in K1. rewrite map_app, existsb_app in K1. cbn in K1.
      rewrite orb_false_r, negb_orb in K1. apply andb_true_iff in K1 as [K1 _].
      destruct (free o d) eqn:F; [left; split; [done|]; unfold avail; rewrite F; by rewrite andb_true_r|].
      right. split; [done|]. cbn in K2. unfold waits. rewrite K2. cbn. apply negb_true_iff.
      destruct (free [] d) eqn:F0; [|done]. by rewrite (free_start o d F0) in F.
    + intros [[D K]|[D K]].
      * destruct (decide (c_id d = c_id c)) as [E|N]; [left; by eapply same_id|]. right. split; [done|].
        unfold avail in *. rewrite free_more. apply andb_true_iff in K as [K1 K2]. rewrite K2. cbn. rewrite andb_true_r.
        apply negb_true_iff in K1. apply negb_true_iff. rewrite not_picked in *. unfold ids in *. rewrite map_app.
        intros [?|E%list_elem_of_singleton]%elem_of_app; [done|]. by apply N.
      * right. split; [done|]. pose proof (W d D K) as F. unfold waits in K. apply andb_true_iff in K as [K _].
        unfold avail. rewrite free_more, K, orb_true_r, andb_true_r. apply negb_true_iff, not_picked.
        unfold ids. rewrite map_app. intros [X|X%list_elem_of_singleton]%elem_of_app.
        -- apply list_elem_of_fmap in X as (x & E & X). pose proof (i_ready _ _ I _ X) as XR.
           assert (d = x) as -> by (by eapply same_id). by rewrite (i_free _ _ I _ X) in F.
        -- assert (d = c) as -> by (by eapply same_id). congruence.
Qed.

Lemma smallest_in l c : smallest l = Some c -> c ∈ l /\ Forall (fun d => entry_leb (entry_of c) (entry_of d) = true) l.
Proof.
  revert c. induction l as [|x l IH]; intros c; [done|]. cbn.
  destruct (smallest l) as [d|] eqn:S.
  - destruct (IH d eq_refl) as [I F]. destruct (entry_leb (entry_of x) (entry_of d)) eqn:L; intros [= <-].
    + split; [by left|]. constructor; [apply entry_leb_refl|]. eapply Forall_impl; [exact F|]. cbn.
      intros y. by apply entry_leb_trans.
    + split; [by right|]. constructor; [|done]. by destruct (entry_leb_total (entry_of x) (entry_of d)) as [K|K]; [congruence|].
  - intros [= <-]. split; [by left|]. constructor; [apply entry_leb_refl|]. destruct l as [|y l]; [done|].
    exfalso. cbn in S. destruct (smallest l); [by destruct (entry_leb _ _) | done].
Qed.
Lemma smallest_some l x : x ∈ l -> smallest l <> None.
Proof.
  destruct l as [|y l]; [by intros ?%elem_of_nil|]. intros _. cbn.
  destruct (smallest l); [by destruct (entry_leb _ _) | done].
Qed.
(** The entry popped is the one [greedy] picks. *)
Lemma pop_smallest o k e l m r : inv o k -> k_heap k = e :: l -> heappop e l = (m, r) ->
  exists c, smallest (List.filter (avail o) ready) = Some c /\ m = entry_of c /\ c ∈ ready /\ avail o c = true /\
    entry_of c :: r ≡ₚ map entry_of (List.filter (avail o) ready).
Proof.
  intros I H P. apply heappop_spec in P as [P F]. pose proof (i_heap _ _ I) as Q. rewrite H in Q.
  assert (M : m ∈ map entry_of (List.filter (avail o) ready)) by (rewrite <- Q, P; by left).
  apply list_elem_of_fmap in M as (c & -> & C). pose proof C as [R A]%in_filter.
  exists c. split; [|split; [done|split; [done|split; [done | by rewrite <- P]]]].
  destruct (smallest _) as [d|] eqn:S; [|by apply smallest_some in C]. f_equal.
  apply smallest_in in S as [D G]. rewrite Forall_forall in F. rewrite Forall_forall in G.
  pose proof (G c C) as L1. assert (L2 : entry_leb (entry_of c) (entry_of d) = true).
  { apply F. rewrite Q. by apply list_elem_of_fmap_2. }
  pose proof (entry_leb_antisym _ _ L1 L2) as E. apply in_filter in D as [D _].
  exact (same_id ready d c ready_unique D R E).
Qed.
Lemma waits_from_ready c : c ∈ ready -> default [] (dget (c_id c) (dependents edges)) = ids (freed c).
Proof. intros _. destruct edges_spec as (_ & _ & D). by rewrite D. Qed.

Lemma pop_inv o k : inv o k -> k_heap k <> [] ->
  exists c, smallest (List.filter (avail o) ready) = Some c /\
    inv (o ++ [c])%list (pop_step candidates integrated_ids k).
Proof.
  intros I H. destruct (k_heap k) as [|e l] eqn:HE; [done|]. unfold pop_step. rewrite HE.
  destruct (heappop e l) as [m r] eqn:P. destruct (pop_smallest _ _ _ _ _ _ I HE P) as (c & S & -> & C & A & Q).
  exists c. split; [done|]. unfold entry_of at 1.
  pose proof A as [A1%negb_true_iff A2]%andb_true_iff.
  cbn [k_processed set]. rewrite (i_processed _ _ I), A1.
  rewrite waits_from_ready by done. rewrite ready_get, by_id_of by (done || apply ready_unique).
  set (k1 := set k_ordered _ _).
  pose proof ready_unique as U.
  destruct (release_fold (freed c) k1) as (R1 & R2 & R3 & R4 & R5).
  { by apply ids_sub. }
  { apply List.Forall_forall. intros d [D _]%filter_In. by apply list_elem_of_In. }
  { apply List.Forall_forall. intros d [D W]%filter_In. apply list_elem_of_In in D. cbn.
    rewrite (i_deg _ _ I) by done. unfold deg. unfold waits in W. apply andb_true_iff in W as [E%ostr_eqb_eq F%negb_true_iff].
    rewrite free_nil, E in F. unfold free. by rewrite E, F, A1. }
  split.
  - rewrite R2. cbn. by rewrite (i_ordered _ _ I).
  - rewrite R3. cbn. rewrite (i_processed _ _ I). unfold ids. by rewrite map_app.
  - intros d [D|D%list_elem_of_singleton]%elem_of_app; [by apply (i_ready _ _ I) | by subst].
  - unfold ids. rewrite map_app. apply NoDup_app. split; [apply (i_unique _ _ I)|].
    split; [|apply NoDup_singleton]. intros x X ->%list_elem_of_singleton. by apply not_picked in A1.
  - intros d D. rewrite free_more. apply orb_true_iff. left.
    apply elem_of_app in D as [D|D%list_elem_of_singleton]; [by apply (i_free _ _ I) | by subst].
  - rewrite R1. cbn. apply (Permutation_cons_inv (a := entry_of c)).
    rewrite Permutation_middle, Q, <- map_app.
    change (entry_of c :: map entry_of ?l) with (map entry_of (c :: l)). apply Permutation_map.
    rewrite (avail_more o k c I C A), Permutation_app_comm. by rewrite <- Permutation_rev.
  - rewrite R4. apply (i_keys _ _ I).
  - intros d D. rewrite R5. cbn. unfold deg. rewrite free_more.
    destruct (str_in (c_id d) (ids (freed c))) eqn:F.
    + apply str_in_In, list_elem_of_In, list_elem_of_fmap in F as (x & E & [X W]%in_filter).
      assert (d = x) as -> by (by eapply same_id). apply andb_true_iff in W as [W _]. rewrite W. by rewrite orb_true_r.
    + rewrite (i_deg _ _ I) by done. unfold deg.
      destruct (ostr_eqb (c_depends_on d) (Some (c_id c))) eqn:E; [|by rewrite orb_false_r].
      rewrite orb_true_r. destruct (free o d) eqn:G; [done|]. exfalso. apply str_in_false in F. apply F.
      apply list_elem_of_In, list_elem_of_fmap_2, in_filter. split; [done|]. unfold waits. rewrite E. cbn.
      apply negb_true_iff. destruct (free [] d) eqn:F0; [|done]. by rewrite (free_start o d F0) in G.
Qed.

Lemma all_picked o k : inv o k -> List.length ready <= List.length o -> List.filter (avail o) ready = [].
Proof.
  intros I L. assert (P : o ≡ₚ ready).
  { apply submseteq_length_Permutation; [|done].
    apply NoDup_submseteq; [apply nodup_of_ids, (i_unique _ _ I) | apply (i_ready _ _ I)]. }
  destruct (List.filter _ _) as [|c l] eqn:E; [done|]. exfalso.
  assert (C : c ∈ List.filter (avail o) ready) by (rewrite E; by left).
  apply in_filter in C as [C A]. rewrite <- P in C. unfold avail in A. apply andb_true_iff in A as [A%negb_true_iff _].
  apply not_picked in A. apply A. by apply list_elem_of_fmap_2.
Qed.
Lemma while_inv n o k : inv o k -> List.length ready <= n + List.length o ->
  let k' := while_heap candidates integrated_ids n k in
  inv (greedy n o) k' /\ k_heap k' = [].
Proof.
  revert o k. induction n as [|n IH]; intros o k I L; cbn.
  - split; [done|]. pose proof (i_heap _ _ I) as P. rewrite (all_picked o k I) in P by done.
    by apply Permutation_nil_r.
  - destruct (k_heap k) as [|e l] eqn:H.
    + pose proof (i_heap _ _ I) as P. rewrite H in P. apply Permutation_nil_l in P.
      destruct (List.filter (avail o) ready) as [|x y] eqn:F; [|done]. done.
    + destruct (pop_inv o k I) as (c & S & I'); [by rewrite H|]. rewrite S. apply IH; [done|].
      rewrite length_app. cbn. lia.
Qed.

Lemma dict_ext {V} (d d' : list (string * V)) : map fst d = map fst d' -> NoDup (map fst d) ->
  (forall k, In k (map fst d) -> dget k d = dget k d') -> d = d'.
Proof.
  revert d'. induction d as [|[x v] d IH]; intros [|[y w] d']; cbn; try done.
  intros [= <- E] [N U]%NoDup_cons G. pose proof (G x (or_introl eq_refl)) as Gx. rewrite String.eqb_refl in Gx.
  injection Gx as ->. f_equal. apply IH; [done..|]. intros k I. specialize (G k (or_intror I)).
  destruct (String.eqb_spec x k) as [->|]; [|done]. by apply list_elem_of_In in I.
Qed.
Lemma indegree_eq : indegree edges = map (fun c => (c_id c, deg [] c)) ready.
Proof.
  destruct edges_spec as (K & D & _). apply dict_ext.
  - rewrite K. unfold ids. by rewrite map_map.
  - rewrite K. apply ready_unique.
  - intros k. rewrite K. intros (c & <- & C%list_elem_of_In)%in_map_iff. rewrite D by done.
    rewrite dget_map, by_id_of by (done || apply ready_unique). cbn.
    assert (X : str_in (c_id c) (ids ready) = true) by (by apply str_in_In, list_elem_of_In, list_elem_of_fmap_2).
    by rewrite X.
Qed.
Lemma push_all l h : (forall c, c ∈ l -> c ∈ ready) ->
  fold_left (fun h kv => if (snd kv =? 0)%Z then push candidates (fst kv) h else h)
    (map (fun c => (c_id c, deg [] c)) l) h = (map entry_of (rev (List.filter (free []) l)) ++ h)%list.
Proof.
  revert h. induction l as [|c l IH]; intros h H; [done|]. cbn. rewrite IH by (intros d D; apply H; by right).
  unfold deg. destruct (free [] c); cbn; [|done].
  unfold push. rewrite ready_get, by_id_of by (apply ready_unique || (apply H; by left)).
  by rewrite map_app, <- app_assoc.
Qed.
Lemma start_inv : inv [] (mkKahn (first_heap candidates integrated_ids) (indegree edges) [] []).
Proof.
  split; cbn; try done.
  - by intros c ?%elem_of_nil.
  - constructor.
  - by intros c ?%elem_of_nil.
  - unfold first_heap. rewrite indegree_eq, push_all by done. rewrite app_nil_r.
    apply Permutation_map. by rewrite <- Permutation_rev.
  - destruct edges_spec as (K & _). apply K.
  - intros c C. destruct edges_spec as (_ & D & _). rewrite D by done.
    assert (X : str_in (c_id c) (ids ready) = true) by (by apply str_in_In, list_elem_of_In, list_elem_of_fmap_2).
    by rewrite X.
Qed.
Definition picks : list Candidate := greedy (List.length ready) [].
Lemma kahn_spec : inv picks (kahn candidates integrated_ids) /\ k_heap (kahn candidates integrated_ids) = [].
Proof. apply while_inv; [apply start_inv | cbn; lia]. Qed.
Lemma leftover_ids l : (forall c, c ∈ l -> by_id c_id (c_id c) ready = Some c) ->
  omap (fun x => if str_in x (ids picks) then None else by_id c_id x ready) (ids l)
  = List.filter (fun c => negb (str_in (c_id c) (ids picks))) l.
Proof.
  induction l as [|c l IH]; [done|]. intros H. cbn. fold (ids l).
  rewrite H by (by left). rewrite IH by (intros d D; apply H; by right).
  by destruct (str_in (c_id c) (ids picks)).
Qed.
Lemma leftover_eq : leftover candidates integrated_ids =
  List.filter (fun c => negb (str_in (c_id c) (ids picks))) ready.
Proof.
  destruct kahn_spec as [I _]. unfold leftover. pose proof (i_keys _ _ I) as K. rewrite (i_processed _ _ I).
  assert (G : forall d : list (string * Z), omap (fun kv => if str_in (fst kv) (ids picks) then None else dget (fst kv) ready_by_id) d
    = omap (fun x => if str_in x (ids picks) then None else by_id c_id x ready) (map fst d)).
  { induction d as [|[x v] d IH]; [done|]. cbn. rewrite ready_get. destruct (str_in x (ids picks)); [exact IH|].
    destruct (by_id c_id x ready); cbn; [f_equal|]; exact IH. }
  rewrite G, K. apply leftover_ids. intros c C. by apply by_id_of; [apply ready_unique|].
Qed.
End Greedy.

(** ** Counting the picked *)
Lemma filter_split {A} (p : A -> bool) l :
  (List.filter p l ++ List.filter (fun x => negb (p x)) l)%list ≡ₚ l.
Proof.
  induction l as [|x l IH]; [done|]. cbn. destruct (p x); cbn; [by rewrite IH|].
  by rewrite <- Permutation_middle, IH.
Qed.
Lemma picked_part cands ig k : NoDup (ids cands) -> inv cands ig (picks cands ig) k ->
  List.filter (fun c => str_in (c_id c) (ids (picks cands ig))) (ready cands) ≡ₚ picks cands ig.
Proof.
  intros N I. apply NoDup_Permutation.
  - apply NoDup_ListNoDup, List.NoDup_filter, NoDup_ListNoDup. by apply nodup_of_ids, ready_unique.
  - apply nodup_of_ids, (i_unique _ _ _ _ I).
  - intros c. rewrite in_filter. split.
    + intros [C K%str_in_In%list_elem_of_In]. apply list_elem_of_fmap in K as (x & E & X).
      pose proof (i_ready _ _ _ _ I _ X). by rewrite (same_id (ready cands) c x (ready_unique _ N)).
    + intros C. split; [by apply (i_ready _ _ _ _ I)|]. by apply str_in_In, list_elem_of_In, list_elem_of_fmap_2.
Qed.

(** C30: the heap loop of [deterministic_order] ends, and the order it computes is the greedy
    one: again and again the READY candidate first in the queue (then by priority, then by
    id) among those whose prerequisite is integrated or already placed. *)
Theorem merge_order_greedy candidates integrated_ids : NoDup (map c_id candidates) ->
  k_heap (kahn candidates integrated_ids) = [] /\
  oo_ordered (deterministic_order candidates integrated_ids)
    = greedy candidates integrated_ids (List.length (ready candidates)) [].
Proof.
  intros N. destruct (kahn_spec candidates integrated_ids N) as [I H]. split; [done|].
  apply (i_ordered _ _ _ _ I).
Qed.

Lemma order_complete candidates integrated_ids : NoDup (map c_id candidates) ->
  let o := deterministic_order candidates integrated_ids in
  (oo_ordered o ++ oo_deferred o ++ oo_blocked o)%list ≡ₚ ready candidates /\
  (forall c, c ∈ oo_ordered o -> free candidates integrated_ids (oo_ordered o) c = true) /\
  (forall c, c ∈ oo_deferred o -> free candidates integrated_ids (oo_ordered o) c = false /\
     waits_on_ready candidates c = false) /\
  (forall c, c ∈ oo_blocked o -> free candidates integrated_ids (oo_ordered o) c = false /\
     waits_on_ready candidates c = true).
Proof.
  intros N. cbv zeta. destruct (kahn_spec candidates integrated_ids N) as [I H].
  pose proof (leftover_eq candidates integrated_ids N) as L.
  pose proof (i_heap _ _ _ _ I) as Q. rewrite H in Q. apply Permutation_nil_l in Q.
  unfold deterministic_order. cbn [oo_ordered oo_deferred oo_blocked]. rewrite (i_ordered _ _ _ _ I), L.
  set (left_ := List.filter _ (ready candidates)).
  assert (F : forall c, c ∈ left_ -> free candidates integrated_ids (picks candidates integrated_ids) c = false).
  { intros c [C K]%in_filter. destruct (free _ _ _ c) eqn:F; [|done]. exfalso.
    assert (X : c ∈ List.filter (avail candidates integrated_ids (picks candidates integrated_ids)) (ready candidates)).
    { apply in_filter. split; [done|]. unfold avail. by rewrite K, F. }
    symmetry in Q. apply map_eq_nil in Q. rewrite Q in X. by apply elem_of_nil in X. }
  split; [|split; [|split]].
  - rewrite !sort_by_perm, (Permutation_app_comm (List.filter _ left_)), filter_split.
    rewrite <- (picked_part _ _ _ N I) at 1. apply filter_split.
  - apply (i_free _ _ _ _ I).
  - intros c C. rewrite sort_by_perm in C. apply in_filter in C as [C W%negb_true_iff]. by split; [apply F|].
  - intros c C. rewrite sort_by_perm in C. apply in_filter in C as [C W]. by split; [apply F|].
Qed.
(** C31: every READY candidate is placed, deferred or blocked, exactly once; a placed one comes
    after its prerequisite; what is left over waits for a prerequisite that is neither
    integrated nor placed, and is blocked exactly when that prerequisite is READY itself. *)
Theorem merge_order_complete candidates integrated_ids : NoDup (map c_id candidates) ->
  let o := deterministic_order candidates integrated_ids in
  (oo_ordered o ++ oo_deferred o ++ oo_blocked o)%list ≡ₚ ready candidates /\
  (forall c, c ∈ oo_ordered o -> free candidates integrated_ids (oo_ordered o) c = true) /\
  (forall c, c ∈ oo_deferred o -> free candidates integrated_ids (oo_ordered o) c = false /\
     waits_on_ready candidates c = false) /\
  (forall c, c ∈ oo_blocked o -> free candidates integrated_ids (oo_ordered o) c = false /\
     waits_on_ready candidates c = true).
Proof. apply order_complete. Qed.

(** ** A blocked candidate need not be on a cycle *)
(** [id] is its own prerequisite, through one or more steps. *)
Definition prerequisite (candidates : list Candidate) (x y : string) : Prop :=
  exists c, c ∈ candidates /\ c_id c = x /\ c_depends_on c = Some y.
Definition on_cycle (candidates : list Candidate) (id : string) : Prop := tc (prerequisite candidates) id id.

(** [deterministic_order] blocks, as a cycle, any READY candidate whose prerequisite is
    READY and itself deferred: when the prerequisite of [a] is unknown, the dependent [b]
    of [a] is blocked though no cycle leads to it. *)
Theorem blocked_without_cycle candidates integrated_ids a b x : NoDup (map c_id candidates) ->
  a ∈ ready candidates -> b ∈ ready candidates ->
  c_depends_on b = Some (c_id a) -> c_depends_on a = Some x ->
  ~ In (c_id a) integrated_ids -> ~ In x integrated_ids -> ~ In x (map c_id candidates) ->
  let o := deterministic_order candidates integrated_ids in
  a ∈ oo_deferred o /\ b ∈ oo_blocked o /\ ~ on_cycle candidates (c_id b).
Proof.
  intros N A B Db Da Ia%str_in_false Ix%str_in_false Kx. cbv zeta.
  destruct (order_complete candidates integrated_ids N) as (P & O & D & K).
  set (o := deterministic_order candidates integrated_ids) in *.
  assert (Sub : forall c, c ∈ oo_ordered o -> c ∈ ready candidates).
  { intros c C. rewrite <- P. by apply elem_of_app; left. }
  pose proof A as [A1 A2]%ready_in. pose proof B as [B1 B2]%ready_in.
  assert (Xn : by_id c_id x candidates = None).
  { destruct (by_id _ _ _) as [c|] eqn:E; [|done]. exfalso. apply row_by_id in E as [E I]. apply Kx.
    apply in_map_iff. eauto. }
  assert (Xo : str_in x (ids (oo_ordered o)) = false).
  { apply str_in_false. intros (c & E & C%list_elem_of_In)%in_map_iff. apply Kx, in_map_iff. exists c.
    split; [done|]. apply Sub, ready_in in C as [C _]. by apply list_elem_of_In. }
  assert (Fa : free candidates integrated_ids (oo_ordered o) a = false) by (unfold free; by rewrite Da, Ix, Xn, Xo).
  assert (Na : str_in (c_id a) (ids (oo_ordered o)) = false).
  { apply str_in_false. intros (c & E & C%list_elem_of_In)%in_map_iff. pose proof (Sub _ C) as [C' _]%ready_in.
    rewrite (same_id candidates c a N C' A1 E) in C. apply O in C. congruence. }
  assert (Fb : free candidates integrated_ids (oo_ordered o) b = false).
  { unfold free. rewrite Db, Ia, Na, (by_id_of candidates a N A1). cbn. rewrite orb_false_r.
    unfold in_state in *. by apply String.eqb_eq in A2 as ->. }
  assert (Wa : waits_on_ready candidates a = false).
  { unfold waits_on_ready, dhas. rewrite Da, (ready_get candidates N). destruct (by_id _ _ (ready _)) as [c|] eqn:E; [|done].
    exfalso. apply row_by_id in E as [<- [E _]%filter_In]. by apply Kx, in_map. }
  assert (Wb : waits_on_ready candidates b = true).
  { unfold waits_on_ready, dhas. rewrite Db, (ready_get candidates N), by_id_of; [done | by apply ready_unique | done]. }
  split; [|split].
  - rewrite <- P in A. apply elem_of_app in A as [A|A]; [apply O in A; congruence|].
    apply elem_of_app in A as [A|A]; [done|]. apply K in A as [_ A]. congruence.
  - rewrite <- P in B. apply elem_of_app in B as [B|B]; [apply O in B; congruence|].
    apply elem_of_app in B as [B|B]; [|done]. apply D in B as [_ B]. congruence.
  - assert (S : forall c y z, c ∈ candidates -> (exists d, d ∈ candidates /\ c_id d = c_id c /\ c_depends_on d = Some y) ->
      c_depends_on c = Some z -> y = z).
    { intros c y z C (d & Cd & E & Dd) Dc. rewrite (same_id candidates d c N Cd C E) in Dd. congruence. }
    assert (Bx : c_id b <> x) by (intros E; apply Kx, in_map_iff; exists b; split; [done | by apply list_elem_of_In]).
    assert (Ax : c_id a <> x) by (intros E; apply Kx, in_map_iff; exists a; split; [done | by apply list_elem_of_In]).
    assert (AB : c_id a <> c_id b).
    { intros E. apply (same_id candidates a b N A1 B1) in E as ->. congruence. }
    assert (T : forall y, tc (prerequisite candidates) (c_id b) y -> y = c_id a \/ y = x).
    { apply tc_ind_r.
      - intros y R. left. symmetry. symmetry. exact (S b _ _ B1 R Db).
      - intros y z _ R [->| ->].
        + right. exact (S a _ _ A1 R Da).
        + destruct R as (c & C & E & _). exfalso. apply Kx, in_map_iff. exists c. split; [done | by apply list_elem_of_In]. }
    intros C. by destruct (T _ C).
Qed.

(** *** A queue on which the above happens *)
Definition cand (id state : string) (pos : Z) (dep : option string) : Candidate :=
  mkCandidate id "/r" "main" ("job:" ++ id) state pos 0 dep None None None None None None None None 0 None 0
    None None "" "".
Definition sample_queue : list Candidate :=
  [cand "c" "READY" 3 (Some "a"); cand "b" "READY" 2 (Some "d"); cand "d" "READY" 4 (Some "gone");
   cand "a" "READY" 5 None; cand "e" "READY" 6 None].
Example sample_order : map c_id (oo_ordered (deterministic_order sample_queue [])) = ["a"; "c"; "e"].
Proof. vm_compute. reflexivity. Qed.
Lemma sample_unique : NoDup (map c_id sample_queue).
Proof. apply (bool_decide_unpack (NoDup (map c_id sample_queue))). vm_compute. done. Qed.
Lemma merge_order_greedy_witness : k_heap (kahn sample_queue []) = [] /\
  oo_ordered (deterministic_order sample_queue []) = greedy sample_queue [] 5 [].
Proof. apply (merge_order_greedy sample_queue [] sample_unique). Defined.
Lemma merge_order_complete_witness : exists o, o = deterministic_order sample_queue [] /\
  (oo_ordered o ++ oo_deferred o ++ oo_blocked o)%list ≡ₚ ready sample_queue.
Proof. eexists. split; [reflexivity|]. apply (merge_order_complete sample_queue [] sample_unique). Defined.
Lemma blocked_without_cycle_witness :
  cand "b" "READY" 2 (Some "d") ∈ oo_blocked (deterministic_order sample_queue []) /\
  ~ on_cycle sample_queue "b".
Proof.
  destruct (blocked_without_cycle sample_queue [] (cand "d" "READY" 4 (Some "gone"))
    (cand "b" "READY" 2 (Some "d")) "gone" sample_unique) as (_ & B & C); try reflexivity.
  - apply list_elem_of_In. vm_compute. tauto.
  - apply list_elem_of_In. vm_compute. tauto.
  - intros [].
  - intros [].
  - vm_compute. intuition discriminate.
  - exact (conj B C).
Defined.
