(* ===== verification/CandidateSpec.v ===== *)
(** * CandidateSpec: the revision fence of the candidates.

    [moves_row] is what a transition that returns did to the table; one that raises
    did nothing.  [cand_ev] interleaves the operations on the candidates with those on
    the locks and the leases. *)
From S2P Require Import Prelude PyVal Json Models Timestamps JobState Concurrency Recovery CoreStore JobRows Worktree Leases ActionLocks JobSteps JobInv LeaseSpec LeaseSession Scenario JobScenario JobFrame LockSpec Canonical Candidates.
#[local] Open Scope string_scope.

(** ** One transition *)
Lemma capply_all_id l c : c_id (capply_all l c) = c_id c.
Proof.
  unfold capply_all. revert c. induction l as [|a l IH]; intros c; [done|]. cbn. rewrite IH. by destruct a.
Qed.
Lemma capply_all_state l c : c_state (capply_all l c) = c_state c.
Proof.
  unfold capply_all. revert c. induction l as [|a l IH]; intros c; [done|]. cbn. rewrite IH. by destruct a.
Qed.
Lemma capply_all_revision l c : c_revision (capply_all l c) = c_revision c.
Proof.
  unfold capply_all. revert c. induction l as [|a l IH]; intros c; [done|]. cbn. rewrite IH. by destruct a.
Qed.
Lemma set_holder_keeps h c : c_id (set_holder h c) = c_id c /\ c_state (set_holder h c) = c_state c /\
  c_revision (set_holder h c) = c_revision c.
Proof. unfold set_holder. repeat case_match; done. Qed.
Lemma moved_id t now h fields c : c_id (moved t now h fields c) = c_id c.
Proof. unfold moved. rewrite capply_all_id. by destruct (set_holder_keeps h (c <| c_state := t |> <| c_revision ::= Z.succ |> <| c_updated_at := now |>)) as (-> & _). Qed.
Lemma moved_state t now h fields c : c_state (moved t now h fields c) = t.
Proof. unfold moved. rewrite capply_all_state. by destruct (set_holder_keeps h (c <| c_state := t |> <| c_revision ::= Z.succ |> <| c_updated_at := now |>)) as (_ & -> & _). Qed.
Lemma moved_revision t now h fields c : c_revision (moved t now h fields c) = Z.succ (c_revision c).
Proof. unfold moved. rewrite capply_all_revision. by destruct (set_holder_keeps h (c <| c_state := t |> <| c_revision ::= Z.succ |> <| c_updated_at := now |>)) as (_ & _ & ->). Qed.

(** The row [candidate_id] was in [from_state] at [revision]; it and no other is rewritten. *)
Definition moves_row (candidate_id from_state to_state : string) (revision : Z) (now : string) (h : Holder)
    (fields : list cassign) (t : JT) (r : option Candidate) (t' : JT) : Prop :=
  exists c, candidate_of candidate_id t = Some c /\ c_state c = from_state /\ c_revision c = revision /\
    r = Some (moved to_state now h fields c) /\
    t' = set jt_candidates (update_where (is_candidate candidate_id) (moved to_state now h fields)) t.
Lemma moved_row id id' t now h fields tb :
  candidate_of id' (set jt_candidates (update_where (is_candidate id) (moved t now h fields)) tb)
  = (fun c => if is_candidate id c then moved t now h fields c else c) <$> candidate_of id' tb.
Proof. unfold candidate_of. cbn. apply row_by_id_update. intros. apply moved_id. Qed.
Lemma moves_this id f to rev now h fields t r t' : moves_row id f to rev now h fields t r t' ->
  candidate_of id t' = r.
Proof.
  intros (c & C & _ & _ & -> & ->). rewrite moved_row, C. cbn. unfold is_candidate.
  apply row_by_id in C as [-> _]. by rewrite String.eqb_refl.
Qed.
Lemma moves_other id id' f to rev now h fields t r t' : moves_row id f to rev now h fields t r t' ->
  id' <> id -> candidate_of id' t' = candidate_of id' t.
Proof.
  intros (c & C & _ & _ & -> & ->) D. rewrite moved_row. destruct (candidate_of id' t) as [c'|] eqn:C'; [|done].
  cbn. unfold is_candidate. apply row_by_id in C' as [-> _]. by destruct (String.eqb_spec id' id).
Qed.

Section Ops.
Context {env : Env}.
Lemma locked_ok id f to rev now h fields s r s' :
  _transition_candidate_locked id f to rev now h fields s = (Ok r, s') ->
  moves_row id f to rev now h fields (js_t s) r (js_t s').
Proof.
  unfold _transition_candidate_locked, get_integration_candidate, jquery. intros R. inv_ok R.
  repeat match goal with
  | H : jupdate _ _ _ _ = _ |- _ => apply jupdate_ok in H as (_ & -> & _)
  | H : String.eqb _ _ = true |- _ => apply String.eqb_eq in H
  | H : (_ =? _)%Z = true |- _ => apply Z.eqb_eq in H
  end.
  exists v. do 3 (split; [assumption|]). split; [|reflexivity].
  etransitivity; [apply (moved_row id id to now h fields (js_t st0))|]. rewrite Hrun. cbn.
  unfold is_candidate. apply row_by_id in Hrun as [-> _]. by rewrite String.eqb_refl.
Qed.
Lemma locked_sound id f to rev now h fields : stepwise sound (_transition_candidate_locked id f to rev now h fields).
Proof.
  unfold _transition_candidate_locked, get_integration_candidate, jquery.
  repeat first [apply sw_bind; [exact _ | | intros ?] | solve [auto with stepwise]].
  intros s r s' E. apply jwrite_cases in E as [->| ->]; [reflexivity|]. split; [done|]. by intros [U T].
Qed.
Lemma cand_transition_ok id f to rev h fields s r s' :
  transition_integration_candidate id f to rev h fields s = (Ok r, s') ->
  exists now, read_between s s' now /\ moves_row id f to rev now h fields (js_t s) r (js_t s').
Proof.
  unfold transition_integration_candidate. intros R.
  do 2 apply lift_bind_ok in R as (_ & _ & R). apply when_bind_ok in R as (_ & R). apply unless_bind_ok in R as (_ & R).
  apply clocked_iso in R as (s1 & now & R & T & B); [|intros; apply sw_transaction, locked_sound].
  apply jtransaction_ok in R as (s2 & (_ & Q & _) & _ & R). exists now. split; [done|].
  apply locked_ok in R. by rewrite <- T, <- Q.
Qed.
Definition holds_both (lock_name job_id : string) (epoch : Z) (now : string) (t : JT) : Prop :=
  lease_live t job_id epoch now = true /\
  exists l, lock_of lock_name t = Some l /\ held_exactly job_id epoch l = true.
Lemma authoritative_ok id lock job ep f to rev o clear fields s r s' :
  transition_integration_candidate_authoritative id lock job ep f to rev o clear fields s = (Ok r, s') ->
  exists now, read_between s s' now /\ holds_both lock job ep now (js_t s) /\
    moves_row id f to rev now (mkHolder o (Some ep) clear) fields (js_t s) r (js_t s').
Proof.
  unfold transition_integration_candidate_authoritative. intros R.
  do 2 apply lift_bind_ok in R as (_ & _ & R). do 4 apply when_bind_ok in R as (_ & R). apply unless_bind_ok in R as (_ & R).
  apply clocked_iso in R as (s1 & now & R & T & B).
  2:{ intros now. apply sw_transaction. unfold _job_holds_current_lease, jquery.
      repeat first [apply locked_sound | apply sw_bind; [exact _ | | intros ?] | solve [auto with stepwise]]. }
  apply jtransaction_ok in R as (s2 & (_ & Q & _) & _ & R). exists now. split; [done|]. rewrite <- T, <- Q.
  unfold _job_holds_current_lease, jquery in R.
  do 4 (apply M_bind_ok in R as (? & ? & ?G & R)).
  apply gets_ok in G as [-> <-]. apply raise_unless_ok in G0 as [L <-]. apply gets_ok in G1 as [-> <-].
  apply raise_unless_ok in G2 as [H <-]. split; [|by apply locked_ok in R].
  split; [done|]. destruct (lock_of lock _) as [l|]; [by exists l | done].
Qed.

Lemma cand_transition_err id f to rev h fields : raises_clean (transition_integration_candidate id f to rev h fields).
Proof. unfold transition_integration_candidate. rc. Qed.
Lemma authoritative_err id lock job ep f to rev o clear fields :
  raises_clean (transition_integration_candidate_authoritative id lock job ep f to rev o clear fields).
Proof. unfold transition_integration_candidate_authoritative. rc. Qed.
Lemma create_err r t j n : raises_clean (create_integration_candidate r t j n).
Proof. unfold create_integration_candidate. cbv zeta. rc. Qed.

(** Creation inserts a PENDING row under a fresh id, or returns the row there is. *)
Lemma create_ok r t j n s o s' : create_integration_candidate r t j n s = (Ok o, s') ->
  let cid := candidate_id_for r t j in
  candidate_of cid (js_t s') = o /\
  match candidate_of cid (js_t s) with
  | Some _ => js_t s' = js_t s
  | None => exists c, js_t s' = set jt_candidates (fun l => (l ++ [c])%list) (js_t s) /\
      c_id c = cid /\ c_state c = "PENDING" /\ c_revision c = 0%Z /\
      c_repository c = r /\ c_integration_target c = t /\ c_source_job_id c = j
  end.
Proof.
  unfold create_integration_candidate. cbv zeta. intros R.
  do 2 apply lift_bind_ok in R as (_ & _ & R). apply when_bind_ok in R as (_ & R).
  apply M_bind_ok in R as (now & s1 & N & R). apply jnow_iso_reads in N as (_ & T & _).
  apply jtransaction_ok in R as (s2 & (_ & Q & _) & _ & R). rewrite <- T, <- Q.
  unfold get_integration_candidate, jquery in R. apply M_bind_ok in R as (row & s3 & G & R).
  apply gets_ok in G as [-> <-]. destruct (candidate_of _ (js_t s2)) as [c|] eqn:C.
  - inv_ok R. auto.
  - apply M_bind_ok in R as (q & s3 & G & R).
    assert (s3 = s2) as ->. { destruct (nc_queue_position n); inv_ok G; done. }
    inv_ok R. apply jinsert_ok in Hrun as [-> _]. split; [done|]. eexists. split; [reflexivity|]. repeat split.
Qed.

(** ** Any interleaving *)
Inductive cand_ev : Type :=
| Create (repository target source_job_id : string) (n : NewCandidate)
| Transition (id from_state to_state : string) (revision : Z) (h : Holder) (fields : list cassign)
| Authoritative (id lock_name job_id : string) (epoch : Z) (from_state to_state : string) (revision : Z)
    (owner : option string) (clear : bool) (fields : list cassign)
| OnLock (e : lock_ev).
Definition cand_exec (e : cand_ev) (s : JSt) : JSt :=
  match e with
  | Create r t j n => snd (create_integration_candidate r t j n s)
  | Transition id f to rev h fields => snd (transition_integration_candidate id f to rev h fields s)
  | Authoritative id lock job ep f to rev o clear fields =>
      snd (transition_integration_candidate_authoritative id lock job ep f to rev o clear fields s)
  | OnLock e => lock_exec e s
  end.
Fixpoint cand_run (evs : list cand_ev) (s : JSt) : JSt :=
  match evs with [] => s | e :: evs => cand_run evs (cand_exec e s) end.

Lemma lock_exec_candidates e s : jt_candidates (js_t (lock_exec e s)) = jt_candidates (js_t s).
Proof.
  destruct e as [n j ep|n j ep|n|c]; cbn [lock_exec].
  - destruct (try_acquire_action_lock n j ep s) as [[b|x] s'] eqn:R; cbn.
    + apply acquire_ok in R as (now & _ & _ & A). unfold acquired in A.
      repeat case_match; destruct A as [_ ->]; done.
    + apply (failed_lock_op _ [_; _; _]) in R. by rewrite R.
  - destruct (release_action_lock n j ep s) as [[b|x] s'] eqn:R; cbn.
    + apply release_ok in R. repeat case_match; destruct R as [_ ->]; done.
    + apply (failed_lock_op _ [_]) in R. by rewrite R.
  - destruct (reclaim_stale_action_lock n s) as [[b|x] s'] eqn:R; cbn.
    + apply reclaim_ok in R. destruct (lock_of n (js_t s)); [|by destruct R as [_ ->]].
      destruct R as (now & _ & _ & ->). by case_match.
    + apply (failed_lock_op _ [_]) in R. by rewrite R.
  - destruct (lease_exec c s) as [r s'] eqn:R. apply lease_exec_frame in R as (_ & jobs & ms & T). cbn. by rewrite T.
Qed.
(** A row is there to stay, and its revision never goes back. *)
Definition row_grows (id : string) (s s' : JSt) : Prop :=
  forall c, candidate_of id (js_t s) = Some c ->
  exists c', candidate_of id (js_t s') = Some c' /\ (c_revision c <= c_revision c')%Z.
Lemma grows_same id s s' : candidate_of id (js_t s') = candidate_of id (js_t s) -> row_grows id s s'.
Proof. intros E c C. exists c. rewrite E. split; [done | lia]. Qed.
Lemma grows_moves id id' f to rev now h fields s r s' :
  moves_row id' f to rev now h fields (js_t s) r (js_t s') -> row_grows id s s'.
Proof.
  intros M. destruct (decide (id = id')) as [<-|D]; [|by apply grows_same; eapply moves_other].
  intros c C. pose proof (moves_this _ _ _ _ _ _ _ _ _ _ M) as T. destruct M as (x & X & _ & _ & -> & _).
  rewrite T. eexists. split; [done|]. rewrite moved_revision. rewrite X in C. injection C as ->. lia.
Qed.
Lemma cand_exec_grows id e s : row_grows id s (cand_exec e s).
Proof.
  destruct e as [r t j n|id' f to rev h fields|id' lock job ep f to rev o clear fields|e]; cbn [cand_exec].
  - destruct (create_integration_candidate r t j n s) as [[o|x] s'] eqn:R; cbn.
    + apply create_ok in R as [R1 R]. destruct (candidate_of (candidate_id_for r t j) (js_t s)) eqn:C;
        [apply grows_same; by rewrite R|]. destruct R as (c & T & E & _). intros d D. exists d.
      split; [|lia]. unfold candidate_of in *. rewrite T.
      etransitivity; [apply (by_id_snoc c_id id (jt_candidates (js_t s)) c)|]. by rewrite D.
    + apply create_err in R. apply grows_same. by rewrite R.
  - destruct (transition_integration_candidate id' f to rev h fields s) as [[o|x] s'] eqn:R; cbn.
    + apply cand_transition_ok in R as (now & _ & M). by eapply grows_moves.
    + apply cand_transition_err in R. apply grows_same. by rewrite R.
  - destruct (transition_integration_candidate_authoritative id' lock job ep f to rev o clear fields s) as [[x|x] s'] eqn:R; cbn.
    + apply authoritative_ok in R as (now & _ & _ & M). by eapply grows_moves.
    + apply authoritative_err in R. apply grows_same. by rewrite R.
  - apply grows_same. unfold candidate_of. by rewrite lock_exec_candidates.
Qed.
Lemma cand_run_grows id evs s : row_grows id s (cand_run evs s).
Proof.
  revert s. induction evs as [|e evs IH]; intros s c C; [exists c; split; [done | lia]|].
  destruct (cand_exec_grows id e s c C) as (c1 & C1 & L1). destruct (IH _ c1 C1) as (c2 & C2 & L2).
  exists c2. split; [done | lia].
Qed.

End Ops.
#[local] Existing Instance sample_env.

(** ** A candidate promoted and taken for integration *)
Definition merge_lock : string := "repo:/r:integrate:main".
Definition cid0 : string := candidate_id_for "/r" "main" job_id0.
Definition listed_st : JSt :=
  snd (create_integration_candidate "/r" "main" job_id0
         (mkNewCandidate (Some "abcdef0") (Some "abcdef1") (Some "feature") None 0 None) claimed_st).
Definition listed_locked : JSt := snd (try_acquire_action_lock merge_lock job_id0 1 listed_st).
Definition nobody : Holder := mkHolder None None false.
#[local] Notation promoted :=
  (transition_integration_candidate cid0 "PENDING" "READY" 0 nobody [] listed_locked).
#[local] Notation taken :=
  (transition_integration_candidate_authoritative cid0 merge_lock job_id0 1 "READY" "INTEGRATING" 1
    (Some job_id0) false [] (cand_run [] (snd promoted))).
