(* ===== verification/GitClient.v ===== *)
(** * GitClient: the argv-only git runner of the merge queue
    (src/argent_core/integration_candidate.py, [GitClient] and [classify_merge];
    src/argent_core/worktree.py, [resolve_canonical_worktree_path]).

    git itself and the file system are outside: [git_runner] answers a command given
    the commands run before it (exit code, standard output, standard error), so that
    any repository, concurrently changed or not, is an instance.  The state of a
    [gitcmd] is the list of commands run so far, oldest first. *)
From S2P Require Import Prelude PyVal Json Models Concurrency JobRows Worktree Candidates.
#[local] Open Scope string_scope.

Definition argv : Type := list string.
Class GitEnv := {
  git_runner : list argv -> argv -> Z * string * string;
  (** [os.path.abspath] and [os.path.realpath]; the directories on the paths of the
      repository and of the worktrees root do not move. *)
  os_abspath : string -> string;
  os_realpath : string -> string;
  os_isdir : list argv -> string -> bool;
  (** The client's [_allowed_root], canonicalised. *)
  allowed_root : option string
}.
Notation gitcmd := (M (list argv) exc).

Definition MAX_CONFLICT_DETAIL_LEN : nat := 4096.
Definition INTEGRATION_BRANCH_PREFIX : string := "integration/".
Definition os_path_isabs (path : string) : bool := String.prefix "/" path.

Inductive MergeClassification : Type :=
| MC_CLEAN_APPLY | MC_DIVERGED_CLEAN | MC_CONFLICT | MC_STALE_BASE | MC_DEPENDENCY_NOT_INTEGRATED | MC_UNKNOWN.
#[export] Instance MergeClassification_eq_dec : EqDecision MergeClassification.
Proof. solve_decision. Defined.
Definition MergeClassification_value (x : MergeClassification) : string :=
  match x with
  | MC_CLEAN_APPLY => "CLEAN_APPLY" | MC_DIVERGED_CLEAN => "DIVERGED_CLEAN" | MC_CONFLICT => "CONFLICT"
  | MC_STALE_BASE => "STALE_BASE" | MC_DEPENDENCY_NOT_INTEGRATED => "DEPENDENCY_NOT_INTEGRATED"
  | MC_UNKNOWN => "UNKNOWN"
  end.

(** ** Output of a command *)
(** The line boundaries of [str.splitlines] below U+0100. *)
Definition is_eol (c : ascii) : bool :=
  in_list (N_of_ascii c) [10; 11; 12; 13; 28; 29; 30; 133]%N.
Fixpoint split_lines (s : string) : list string :=
  match s with
  | EmptyString => [EmptyString]
  | String c s =>
      if is_eol c then EmptyString :: split_lines s
      else match split_lines s with
           | [] => [String c EmptyString]
           | l :: ls => String c l :: ls
           end
  end.
(** [out.strip().splitlines()[0]] of an output that is not blank. *)
Definition first_line (out : string) : string := List.hd EmptyString (split_lines (strip out)).
(** [[ln for ln in out.splitlines() if ln.strip()]]. *)
Definition nonblank_lines (out : string) : list string :=
  List.filter (fun l => negb (blank l)) (split_lines out).
Definition has_output (rc : Z) (out : string) : bool := (rc =? 0)%Z && negb (blank out).
Definition valid_branch (branch : string) : bool :=
  match validate_branch_identity (Some branch) with Ok _ => true | Err _ => false end.

Section Git.
Context {genv : GitEnv}.

Definition _canon_dir (path : string) : gitcmd (option string) := gets (fun log =>
  if blank path || negb (os_path_isabs path) then None
  else
    let real := os_realpath path in
    if negb (os_isdir log real) then None
    else match allowed_root with
         | None => Some real
         | Some root =>
             if String.eqb real root || String.prefix (root ++ "/") real then Some real else None
         end).
Definition _run (args : list string) (cwd : string) : gitcmd (Z * string * string) :=
  let cmd := (["git"] ++ (if truthy cwd then ["-C"; cwd] else []) ++ args)%list in
  fun log => (Ok (git_runner log cmd), (log ++ [cmd])%list).
(** [cwd = self._canon_dir(path)], [dflt] when it is [None]. *)
Definition in_dir {A} (path : string) (dflt : A) (k : string -> gitcmd A) : gitcmd A :=
  cwd ← _canon_dir path; match cwd with None => mret dflt | Some c => k c end.
(** The stripped output of a command that succeeded and wrote something. *)
Definition output_of (args : list string) (cwd : string) : gitcmd (option string) :=
  r ← _run args cwd;
  let '(rc, out, _) := r in
  mret (if has_output rc out then Some (strip out) else None).
Definition succeeds (args : list string) (cwd : string) : gitcmd bool :=
  r ← _run args cwd; let '(rc, _, _) := r in mret (rc =? 0)%Z.

Definition show_toplevel (path : string) : gitcmd (option string) :=
  in_dir path None (fun cwd =>
    o ← output_of ["rev-parse"; "--show-toplevel"] cwd; mret (os_realpath <$> o)).
Definition head (path : string) : gitcmd (option string) :=
  in_dir path None (output_of ["rev-parse"; "HEAD"]).
Definition branch (path : string) : gitcmd (option string) :=
  in_dir path None (output_of ["rev-parse"; "--abbrev-ref"; "HEAD"]).
Definition is_dirty (path : string) : gitcmd bool :=
  in_dir path true (fun cwd =>
    r ← _run ["status"; "--porcelain"] cwd;
    let '(rc, out, _) := r in mret (if negb (rc =? 0)%Z then true else negb (blank out))).
Definition resolve_sha (path ref : string) : gitcmd (option string) :=
  in_dir path None (fun cwd =>
    if negb (is_sha_like ref) && negb (valid_branch ref) then mret None
    else output_of ["rev-parse"; "--verify"; ref ++ "^{commit}"] cwd).
Definition merge_base (path a b : string) : gitcmd (option string) :=
  in_dir path None (fun cwd =>
    if negb (is_sha_like a) || negb (is_sha_like b) then mret None
    else
      r ← _run ["merge-base"; a; b] cwd;
      let '(rc, out, _) := r in
      mret (if has_output rc out then Some (first_line out) else None)).
Definition is_ancestor (path ancestor descendant : string) : gitcmd bool :=
  in_dir path false (fun cwd =>
    if negb (is_sha_like ancestor) || negb (is_sha_like descendant) then mret false
    else succeeds ["merge-base"; "--is-ancestor"; ancestor; descendant] cwd).
Definition merge_tree_conflicts (path ours theirs : string) : gitcmd (option bool) :=
  in_dir path None (fun cwd =>
    if negb (is_sha_like ours && is_sha_like theirs) then mret None
    else
      r ← _run ["merge-tree"; "--write-tree"; ours; theirs] cwd;
      let '(rc, _, _) := r in
      mret (if (rc =? 0)%Z then Some false else if (rc =? 1)%Z then Some true else None)).
Definition branch_exists (repo branch : string) : gitcmd bool :=
  in_dir repo false (fun cwd =>
    if negb (valid_branch branch) then mret false
    else succeeds ["rev-parse"; "--verify"; "refs/heads/" ++ branch] cwd).
Definition delete_branch (repo branch : string) : gitcmd bool :=
  in_dir repo false (fun cwd =>
    if negb (valid_branch branch) then mret false else succeeds ["branch"; "-D"; branch] cwd).
Definition add_worktree (repo path branch start_sha : string) : gitcmd bool :=
  if negb (is_sha_like start_sha) then mret false
  else if negb (String.prefix INTEGRATION_BRANCH_PREFIX branch) then mret false
  else if negb (valid_branch branch) then mret false
  else in_dir repo false (fun cwd =>
    if negb (os_path_isabs path) then mret false
    else succeeds ["worktree"; "add"; "-b"; branch; path; start_sha] cwd).
Definition remove_worktree (repo path : string) : gitcmd bool :=
  in_dir repo false (fun cwd =>
    if negb (os_path_isabs path) then mret false
    else succeeds ["worktree"; "remove"; "--force"; path] cwd).
Definition checkout_detached (repo sha : string) : gitcmd bool :=
  in_dir repo false (fun cwd =>
    if negb (is_sha_like sha) then mret false else succeeds ["checkout"; "--detach"; sha] cwd).
(** [(clean, error_detail)]. *)
Definition merge_no_ff (path source_sha message : string) : gitcmd (bool * option string) :=
  in_dir path (false, Some "invalid worktree path") (fun cwd =>
    if negb (is_sha_like source_sha) then mret (false, Some "invalid source_sha")
    else
      r ← _run ["merge"; "--no-ff"; "--no-edit"; "-m"; message; source_sha] cwd;
      let '(rc, _, err) := r in
      mret (if (rc =? 0)%Z then (true, None)
            else
              let d := String.substring 0 MAX_CONFLICT_DETAIL_LEN (strip err) in
              (false, Some (if truthy d then d else "merge failed")))).
Definition merge_abort (path : string) : gitcmd bool :=
  in_dir path false (succeeds ["merge"; "--abort"]).
Definition reset_hard (path sha : string) : gitcmd bool :=
  in_dir path false (fun cwd =>
    if negb (is_sha_like sha) then mret false else succeeds ["reset"; "--hard"; sha] cwd).
Definition changed_paths_vs (path base_sha : string) : gitcmd (list string) :=
  in_dir path [] (fun cwd =>
    if negb (is_sha_like base_sha) then mret []
    else
      r ← _run ["diff"; "--name-only"; base_sha; "HEAD"] cwd;
      let '(rc, out, _) := r in
      mret (if negb (rc =? 0)%Z then [] else firstn 256 (nonblank_lines out))).

Definition sha_of (o : option string) : string := default EmptyString o.
Definition classify_merge (repo : string) (target_tip source_head claimed_base : option string)
    (dependency_integrated : bool) : gitcmd MergeClassification :=
  if negb dependency_integrated then mret MC_DEPENDENCY_NOT_INTEGRATED
  else if negb (is_sha_like (sha_of target_tip)) || negb (is_sha_like (sha_of source_head)) then mret MC_UNKNOWN
  else
    let tip := sha_of target_tip in
    let source := sha_of source_head in
    mb ← merge_base repo tip source;
    match mb with
    | None => mret MC_STALE_BASE
    | Some mb =>
        stale ← (if is_sha_like (sha_of claimed_base) then
                   a ← is_ancestor repo (sha_of claimed_base) tip;
                   if negb a then mret true
                   else b ← is_ancestor repo (sha_of claimed_base) source; mret (negb b)
                 else mret false);
        if stale : bool then mret MC_STALE_BASE
        else if String.eqb tip mb then mret MC_CLEAN_APPLY
        else if String.eqb source mb then mret MC_STALE_BASE
        else
          conflicts ← merge_tree_conflicts repo tip source;
          mret (match conflicts with
                | None => MC_UNKNOWN
                | Some true => MC_CONFLICT
                | Some false => MC_DIVERGED_CLEAN
                end)
    end.

(** [os.path.normpath] of a relative path. *)
Definition normpath_step (parts : list string) (seg : string) : list string :=
  if String.eqb seg "" || String.eqb seg "." then parts
  else if String.eqb seg ".." then
    match parts with
    | p :: ps => if String.eqb p ".." then ".." :: parts else ps
    | [] => [".."]
    end
  else seg :: parts.
Definition os_path_normpath (raw : string) : string :=
  match rev (fold_left normpath_step (split_on "/" raw) []) with
  | [] => "."
  | parts => join "/" parts
  end.
Definition os_path_join (base path : string) : string :=
  if ends_with "/" base then base ++ path else base ++ "/" ++ path.
Definition _within (root path : string) : bool := String.eqb path root || String.prefix (root ++ "/") path.
(** With a [base_root]. *)
Definition resolve_canonical_worktree_path (path base_root : string) : res exc string :=
  _ ← res_when (blank path) ValueError;
  let raw := strip path in
  _ ← res_when (os_path_isabs raw) ValueError;
  let norm := os_path_normpath raw in
  _ ← res_when (String.eqb norm ".." || String.prefix "../" norm) ValueError;
  let base := os_realpath (os_abspath base_root) in
  let joined := os_realpath (os_path_join base norm) in
  _ ← res_unless (_within base joined) ValueError;
  Ok joined.
End Git.
