(* ===== verification/MergeQueue.v ===== *)
(** * MergeQueue: the integration controller
    (src/argent_core/merge_queue.py).

    The state pairs the store with the git commands run so far.  The plan builder and
    the test runner are the callables the constructor takes: [plan_builder] and
    [test_runner] are arbitrary programs on that state, so that anything may happen
    while the tests run; [inl] is the text of an [IntegrationError] they raise.  The
    review policy is the default one.

    An [except] clause around one call is a case on the result of [fenced]:
    [Raced] is [CandidateRevisionError] or [NotFound], [Lost] the [_HolderLostError]
    the outer clause turns into the outcome [lost]. *)
From S2P Require Import Prelude PyVal Json Models JobState Concurrency CoreStore JobRows Worktree Leases ActionLocks Canonical Candidates MergeOrder GitClient.
#[local] Open Scope string_scope.

Record QSt : Type := mkQSt { q_js : JSt; q_git : list argv }.
#[export] Instance QSt_eta : EtaExpand QSt := fun x => mkQSt (q_js x) (q_git x).
Notation qcmd := (M QSt exc).
Definition on_store {A} (m : jcmd A) : qcmd A := fun s => let (r, j) := m (q_js s) in (r, s <| q_js := j |>).
Definition on_git {A} (m : gitcmd A) : qcmd A := fun s => let (r, g) := m (q_git s) in (r, s <| q_git := g |>).
Class QueueEnv := {
  Plan : Type;
  (** [getattr(plan, "plan_hash", None)]. *)
  plan_hash : Plan -> option string;
  plan_builder : Candidate -> list string -> string -> qcmd (string + Plan);
  test_runner : Candidate -> string -> Plan -> list string -> qcmd (string + pyval);
  mac_key : option string;
  worktrees_root : string
}.

Definition INTEGRATION_READY_TERMINALS : list string := ["DONE"].
Definition APPROVING_REVIEW_VERDICTS : list string := ["approved"; "passed"; "accept"; "accepted"].
Definition MAX_RESULT_JSON_BYTES : nat := 64 * 1024.

Record IntegrationOutcome : Type := mkIntegrationOutcome {
  io_candidate_id : string;
  io_state : string;
  io_classification : option string;
  io_integrated_head : option string;
  io_detail : option string;
  io_locked : bool
}.
Record ProcessOutcome : Type := mkProcessOutcome {
  po_integrated : list string;
  po_conflicted : list string;
  po_stale : list string;
  po_failed : list string;
  po_blocked : list string;
  po_locked : bool
}.
#[export] Instance ProcessOutcome_eta : EtaExpand ProcessOutcome := fun x =>
  mkProcessOutcome (po_integrated x) (po_conflicted x) (po_stale x) (po_failed x) (po_blocked x) (po_locked x).
Record ReconcileOutcome : Type := mkReconcileOutcome {
  rc_reset_to_pending : list string;
  rc_reclaimed_lock : bool
}.

(** ** Evidence *)
Definition compute_integration_evidence_mac (verdict plan_hash source_hash test_definition_hash : pyval)
    (key : string) : res exc string :=
  payload ← canonical_bytes (PDict [(KStr "verdict", verdict); (KStr "plan_hash", plan_hash);
    (KStr "source_hash", source_hash); (KStr "test_definition_hash", test_definition_hash)]);
  Ok (hmac_sha256 key payload).
Definition make_integration_evidence (verdict plan_hash source_hash test_definition_hash summary : string)
    (test_count : Z) (key : option string) : res exc pyval :=
  let evidence := [(KStr "verdict", PStr verdict); (KStr "plan_hash", PStr plan_hash);
    (KStr "source_hash", PStr source_hash); (KStr "test_definition_hash", PStr test_definition_hash);
    (KStr "summary", PStr summary); (KStr "test_count", PInt test_count)] in
  match key with
  | None => Ok (PDict evidence)
  | Some k =>
      mac ← compute_integration_evidence_mac (PStr verdict) (PStr plan_hash) (PStr source_hash)
              (PStr test_definition_hash) k;
      Ok (PDict (evidence ++ [(KStr "evidence_mac", PStr mac)]))
  end.
Definition is_str_or_none (v : pyval) (o : option string) : bool :=
  match v, o with
  | PStr s, Some h => String.eqb s h
  | PNone, None => true
  | _, _ => false
  end.
Definition serialize_candidate_result (result : pyval) : res exc string :=
  raw ← json_dumps_default_str result;
  _ ← res_when (Nat.ltb MAX_RESULT_JSON_BYTES (String.length (utf8 raw))) IntegrationError;
  Ok raw.

Section MergeQueue.
Context {env : Env} {genv : GitEnv} {qenv : QueueEnv}.

Definition _evidence_authentic (evidence : pyval) (plan : Plan) : res exc bool :=
  match evidence with
  | PDict d =>
      if negb (is_str_or_none (dget0 d "plan_hash") (plan_hash plan)) then Ok false
      else match mac_key, dget0 d "evidence_mac" with
           | Some key, PStr mac =>
               if negb (truthy mac) then Ok false
               else
                 expected ← compute_integration_evidence_mac (dget0 d "verdict") (dget0 d "plan_hash")
                              (dget0 d "source_hash") (dget0 d "test_definition_hash") key;
                 compare_digest mac expected
           | _, _ => Ok false
           end
  | _ => Ok false
  end.
(** [evidence.get("verdict") == "DONE"]. *)
Definition verdict_done (evidence : pyval) : bool :=
  match evidence with PDict d => is_str_or_none (dget0 d "verdict") (Some "DONE") | _ => false end.

(** ** The lock boundary *)
Definition _canonical_repo (repository : string) : string := os_realpath (os_abspath repository).
Definition action_lock_name (action_class : string) (repo_identity : option string) (name : string)
  : res exc string :=
  if String.eqb action_class ACTION_GLOBAL then Ok ("global:" ++ name)
  else if String.eqb action_class ACTION_REPO_GLOBAL then
    match repo_identity with
    | Some r => _ ← res_unless (truthy r) ValueError; Ok ("repo:" ++ r ++ ":" ++ name)
    | None => Err ValueError
    end
  else Err ValueError.
Definition integration_lock_name (repository integration_target : string) : res exc string :=
  action_lock_name ACTION_REPO_GLOBAL (Some (_canonical_repo repository)) ("integrate:" ++ integration_target).

(** ** Admission *)
(** [a or b]. *)
Definition por (a b : option string) : option string := if otruthy a then a else b.
Definition source_head_of (j : Job) : option string :=
  por (w_expected_head (j_writer j)) (w_current_head (j_writer j)).
Definition err_if (b : bool) (code : string) : list string := if b then [code] else [].
Definition _git_evidence_errors (j : Job) : gitcmd (list string) :=
  let w := j_writer j in
  match w_repo_identity w, w_canonical_worktree_path w with
  | Some repo_raw, Some wt =>
      if negb (truthy repo_raw) || negb (truthy wt) then mret [] else
      let repo := _canonical_repo repo_raw in
      isdir ← gets (fun log => os_isdir log wt);
      if negb isdir then mret ["worktree_missing"] else
      top ← show_toplevel wt;
      match top with
      | None => mret ["worktree_not_git"]
      | Some top =>
          let source_head := source_head_of j in
          let head_sha := is_sha_like (sha_of source_head) in
          e2 ← (if head_sha then
                  r ← resolve_sha repo (sha_of source_head);
                  mret (err_if (negb (is_some r)) "source_head_unresolvable")
                else mret []);
          e3 ← (if otruthy (w_branch_identity w) && otruthy source_head then
                  tip ← resolve_sha repo (sha_of (w_branch_identity w));
                  mret (match tip with
                        | None => ["branch_unresolvable"]
                        | Some t => err_if (negb (ostr_eqb source_head (Some t))) "branch_tip_mismatch"
                        end)
                else mret []);
          dirty ← is_dirty wt;
          e5 ← (if is_sha_like (sha_of (w_base_commit w)) && head_sha then
                  a ← is_ancestor repo (sha_of (w_base_commit w)) (sha_of source_head);
                  mret (err_if (negb a) "base_not_ancestor")
                else mret []);
          mret (err_if (negb (String.eqb top repo)) "repo_identity_mismatch" ++ e2 ++ e3
                ++ err_if dirty "worktree_dirty" ++ e5)%list
      end
  | _, _ => mret []
  end.

Definition missing_or_invalid (r : res exc (option string)) (name : string) : list string :=
  match r with
  | Ok (Some _) => []
  | Ok None => [name ++ "_missing"]
  | Err _ => [name ++ "_invalid"]
  end.
Fixpoint finding_errors (l : list Finding) : list string :=
  match l with
  | [] => []
  | f :: l =>
      if negb (bool_decide (Models.f_status f = F_OPEN)) then finding_errors l
      else
        let sev := upper (strip (f_severity f)) in
        if String.eqb sev "HIGH" then ["open_high_finding"]
        else if String.eqb sev "CRITICAL" then ["open_critical_finding"]
        else finding_errors l
  end.
Definition admission_errors (source_job_id : string) : qcmd (list string) :=
  job ← on_store (get_supervisor_job source_job_id);
  match job with
  | None => mret ["source_job_missing"]
  | Some j =>
      let w := j_writer j in
      findings ← on_store (on_core (list_findings (j_task_id j)));
      git_errors ← on_git (_git_evidence_errors j);
      mret (err_if (negb (ostr_in (j_terminal j) INTEGRATION_READY_TERMINALS)) "source_not_terminal_done"
        ++ missing_or_invalid (validate_repo_identity (w_repo_identity w)) "repo_identity"
        ++ err_if (negb (is_sha_like (sha_of (w_base_commit w)))) "base_commit_not_proven"
        ++ err_if (negb (is_sha_like (sha_of (source_head_of j)))) "source_head_not_proven"
        ++ err_if (otruthy (w_expected_head w) && otruthy (w_current_head w)
                   && negb (ostr_eqb (w_expected_head w) (w_current_head w))) "head_ambiguous"
        ++ missing_or_invalid (validate_branch_identity (w_branch_identity w)) "branch_identity"
        ++ err_if (negb (fl_open_findings_count (j_flow j) =? 0)%Z) "open_findings"
        ++ finding_errors findings ++ git_errors)%list
  end.
Definition enqueue_candidate (source_job_id integration_target : string) (depends_on : option string)
    (priority : Z) : qcmd (option Candidate) :=
  _ ← raise_unless (valid_branch integration_target) IntegrationError;
  errors ← admission_errors source_job_id;
  _ ← raise_unless (match errors with [] => true | _ => false end) IntegrationError;
  job ← on_store (get_supervisor_job source_job_id);
  j ← some_or job TypeError;
  repo_raw ← some_or (w_repo_identity (j_writer j)) TypeError;
  let repo := _canonical_repo repo_raw in
  let dep := match depends_on with
             | Some d => Some d
             | None => if otruthy (j_depends_on j)
                       then Some (candidate_id_for repo integration_target (sha_of (j_depends_on j)))
                       else None
             end in
  on_store (create_integration_candidate repo integration_target source_job_id
    (mkNewCandidate (w_base_commit (j_writer j)) (source_head_of j) (w_branch_identity (j_writer j))
       dep priority None)).

(** ** Evaluation *)
Definition integrated_row (c : Candidate) : bool := in_state CS_INTEGRATED c.
Definition _dependency_satisfied (c : Candidate) : qcmd bool :=
  match c_depends_on c with
  | None => mret true
  | Some dep =>
      if negb (truthy dep) then mret true else
      row ← on_store (get_integration_candidate dep);
      match row with
      | Some d => mret (integrated_row d)
      | None =>
          row ← on_store (get_integration_candidate
                  (candidate_id_for (c_repository c) (c_integration_target c) dep));
          mret (match row with Some d => integrated_row d | None => false end)
      end
  end.
Definition list_reviews (task_id : string) : cmd (list Review) :=
  query (fun db => of_task rv_task_id task_id (db_reviews db)).
Definition _default_review_policy (source_job : Job) : qcmd (option string) :=
  task ← on_store (on_core (get_task (j_task_id source_job)));
  match task with
  | None => mret None
  | Some t =>
      if negb (bool_decide (t_risk_class t = HIGH)) then mret None else
      reviews ← on_store (on_core (list_reviews (j_task_id source_job)));
      mret (if existsb (fun r => ostr_eqb (rv_source_class r) (Some "controller")
                                 && str_in (rv_verdict r) APPROVING_REVIEW_VERDICTS) reviews
            then None else Some "REVIEW_REQUIRED")
  end.
Definition no_holder : Holder := mkHolder None None false.
Definition evaluate_candidate (candidate_id : string) : qcmd (option Candidate) :=
  row ← on_store (get_integration_candidate candidate_id);
  c ← some_or row CandidateNotFound;
  if negb (in_state CS_PENDING c || in_state CS_STALE c) then mret (Some c) else
  let move to code := on_store (transition_integration_candidate candidate_id (c_state c)
                        (CandidateState_value to) (c_revision c) no_holder [C_last_error_code code]) in
  ok ← _dependency_satisfied c;
  if negb ok then move CS_PENDING (Some "DEPENDENCY_NOT_INTEGRATED") else
  source_job ← on_store (get_supervisor_job (c_source_job_id c));
  review_error ← match source_job with Some j => _default_review_policy j | None => mret None end;
  match review_error with
  | Some e => move CS_PENDING (Some e)
  | None => move CS_READY None
  end.

(** ** The integration worktree *)
Definition _target_tip (repository target : string) : gitcmd (option string) := resolve_sha repository target.
Definition _current_integration_base (repository target : string) (target_tip : option string)
  : qcmd (option string) :=
  candidates ← on_store (list_integration_candidates (Some repository) (Some target) None);
  let heads := omap (fun c => if integrated_row c && is_sha_like (sha_of (c_integrated_head c))
                              then c_integrated_head c else None) candidates in
  mret match last heads with Some h => Some h | None => target_tip end.
Definition _integration_worktree_name (repository target : string) : string :=
  "integration-" ++ String.substring 0 12 (sha256_hex (utf8 (_canonical_repo repository ++ NUL ++ target))).
Definition _integration_worktree_path (repository target : string) : res exc string :=
  resolve_canonical_worktree_path (_integration_worktree_name repository target) worktrees_root.
Definition _integration_branch (target : string) : string := "integration/" ++ lstrip_char "/" target.
(** [inl]: the text of the [IntegrationError]. *)
Definition _ensure_integration_worktree (repository target base_sha : string)
  : qcmd (string + string * string) :=
  let branch := _integration_branch target in
  wt_path ← lift (_integration_worktree_path repository target);
  if negb (is_sha_like base_sha) then mret (inl "invalid integration base sha") else
  _ ← on_git (remove_worktree repository wt_path);
  exists_ ← on_git (branch_exists repository branch);
  candidates ← (if exists_ : bool then on_store (list_integration_candidates (Some repository) (Some target) None)
                else mret []);
  if exists_ && negb (existsb (fun c => ostr_eqb (c_integration_branch c) (Some branch)) candidates)
  then mret (inl ("refusing to remove unowned branch " ++ repr_str branch)) else
  _ ← (if exists_ : bool then on_git (delete_branch repository branch) else mret true);
  added ← on_git (add_worktree repository wt_path branch base_sha);
  mret (if added : bool then inr (wt_path, branch)
        else inl ("failed to create integration worktree for " ++ repr_str target)).
Definition _classify (c : Candidate) (target_tip : option string) : qcmd MergeClassification :=
  dependency_integrated ← _dependency_satisfied c;
  on_git (classify_merge (c_repository c) target_tip (c_source_head c) (c_base_commit c) dependency_integrated).
Definition _run_integration_tests (c : Candidate) (worktree_path base_sha : string)
  : qcmd (string + Plan * pyval) :=
  changed ← on_git (changed_paths_vs worktree_path base_sha);
  plan ← plan_builder c changed base_sha;
  match plan with
  | inl e => mret (inl e)
  | inr plan =>
      evidence ← test_runner c worktree_path plan changed;
      mret match evidence with inl e => inl e | inr v => inr (plan, v) end
  end.

(** ** One candidate *)
Inductive fence_result : Type :=
| Moved (c : Candidate)
| Raced
| Lost.
Section Fenced.
Context (candidate_id lock_name holder_job_id : string) (holder_lease_epoch : Z).

Definition outcome (state : string) (classification detail head : option string) : IntegrationOutcome :=
  mkIntegrationOutcome candidate_id state classification head detail false.
Definition fenced (cur : Candidate) (from_state to_state : string) (fields : list cassign)
  : qcmd fence_result := fun s =>
  match on_store (transition_integration_candidate_authoritative candidate_id lock_name holder_job_id
          holder_lease_epoch from_state to_state (c_revision cur) (Some holder_job_id) false fields) s with
  | (Ok (Some c), s') => (Ok (Moved c), s')
  | (Ok None, s') => (Err TypeError, s')
  | (Err e, s') =>
      if bool_decide (e = LeaseFencedError) then (Ok Lost, s')
      else if bool_decide (e = CandidateRevisionError) || bool_decide (e = NotFound) then (Ok Raced, s')
      else (Err e, s')
  end.
(** The outer [except _HolderLostError]. *)
Definition lost (c : Candidate) : qcmd IntegrationOutcome :=
  cur ← on_store (get_integration_candidate candidate_id);
  mret (outcome (c_state (default c cur)) None (Some "holder_lease_or_lock_lost") None).
Definition mark_fields (classification detail head conflict_detail : option string) : list cassign :=
  (match classification with Some v => [C_merge_classification (Some v)] | None => [] end
   ++ match detail with Some v => [C_last_error_code (Some v)] | None => [] end
   ++ match head with Some v => [C_integrated_head (Some v)] | None => [] end
   ++ match conflict_detail with Some v => [C_conflict_detail (Some v)] | None => [] end)%list.
Definition mark (cur : Candidate) (state : CandidateState)
    (classification detail head conflict_detail : option string) : qcmd IntegrationOutcome :=
  r ← fenced cur (c_state cur) (CandidateState_value state)
        (mark_fields classification detail head conflict_detail);
  match r with
  | Lost => lost cur
  | _ =>
      updated ← match r with
                | Moved c => mret c
                | _ => row ← on_store (get_integration_candidate candidate_id); mret (default cur row)
                end;
      mret (outcome (c_state updated) (c_merge_classification updated) (c_last_error_code updated)
              (c_integrated_head updated))
  end.
(** [try: c = fenced(...) except (CandidateRevisionError, NotFound): return raced]. *)
Definition step (cur : Candidate) (from_state to_state : string) (fields : list cassign)
    (raced : IntegrationOutcome) (k : Candidate -> qcmd IntegrationOutcome) : qcmd IntegrationOutcome :=
  r ← fenced cur from_state to_state fields;
  match r with
  | Moved c => k c
  | Raced => mret raced
  | Lost => lost cur
  end.
Definition INTEGRATING : string := "INTEGRATING".

(** 6. tests on the integrated snapshot. *)
Definition close_with_tests (run_tests : bool) (c : Candidate) (wt_path base_sha integrated_head : string)
    (classification : MergeClassification) : qcmd IntegrationOutcome :=
  let cls := Some (MergeClassification_value classification) in
  if negb run_tests then mark c CS_FAILED cls (Some "tests_not_run") None None else
  r ← _run_integration_tests c wt_path base_sha;
  match r with
  | inl e => mark c CS_FAILED None (Some e) None None
  | inr (plan, evidence) =>
      authentic ← lift (_evidence_authentic evidence plan);
      if negb authentic then mark c CS_FAILED None (Some "integration_evidence_unauthenticated") None None else
      result_json ← lift (serialize_candidate_result evidence);
      step c INTEGRATING INTEGRATING [C_result_json (Some result_json)]
        (outcome INTEGRATING None (Some "state_changed_after_tests") None) (fun c =>
      if verdict_done evidence then mark c CS_INTEGRATED cls (Some "tests_passed") (Some integrated_head) None
      else mark c CS_FAILED cls (Some "tests_failed") None None)
  end.
(** 5. worktree and merge. *)
Definition merge_onto (run_tests : bool) (c : Candidate) (repository target base_sha : string)
    (classification : MergeClassification) : qcmd IntegrationOutcome :=
  let cls := Some (MergeClassification_value classification) in
  wt ← _ensure_integration_worktree repository target base_sha;
  match wt with
  | inl e => mark c CS_FAILED None (Some e) None None
  | inr (wt_path, branch) =>
      step c INTEGRATING INTEGRATING [C_integration_worktree_path (Some wt_path); C_integration_branch (Some branch)]
        (outcome INTEGRATING None (Some "state_changed_during_prepare") None) (fun c =>
      m ← on_git (merge_no_ff wt_path (sha_of (c_source_head c)) ("integrate " ++ candidate_id));
      let '(clean, err) := m in
      if negb clean then
        _ ← on_git (merge_abort wt_path);
        mark c CS_CONFLICTED cls None None err
      else
      integrated_head ← on_git (head wt_path);
      if negb (is_sha_like (sha_of integrated_head)) then
        _ ← on_git (merge_abort wt_path);
        mark c CS_FAILED None (Some "integrated_head_unreadable") None None
      else
      step c INTEGRATING INTEGRATING [C_integrated_head integrated_head; C_merge_classification cls]
        (outcome INTEGRATING None (Some "state_changed_after_merge") None) (fun c =>
      close_with_tests run_tests c wt_path base_sha (sha_of integrated_head) classification))
  end.
Definition _integrate_locked (run_tests : bool) (c : Candidate) : qcmd IntegrationOutcome :=
  let repository := c_repository c in
  let target := c_integration_target c in
  step c "READY" INTEGRATING []
    (outcome (c_state c) None (Some "state_changed_concurrently") None) (fun c =>
  target_tip ← on_git (_target_tip repository target);
  match target_tip with
  | None => mark c CS_FAILED None (Some "target_tip_unreadable") None None
  | Some _ =>
      src ← on_store (get_supervisor_job (c_source_job_id c));
      match src with
      | None => mark c CS_STALE None (Some "source_terminal_mutated") None None
      | Some src =>
          if negb (ostr_eqb (j_terminal src) (Some "DONE"))
          then mark c CS_STALE None (Some "source_terminal_mutated") None None else
          if negb (ostr_eqb (source_head_of src) (c_source_head c))
          then mark c CS_STALE None (Some "source_head_changed") None None else
          base_sha ← _current_integration_base repository target target_tip;
          if negb (is_sha_like (sha_of base_sha))
          then mark c CS_FAILED None (Some "integration_base_unresolved") None None else
          classification ← _classify c base_sha;
          let cls := Some (MergeClassification_value classification) in
          match classification with
          | MC_DEPENDENCY_NOT_INTEGRATED => mark c CS_PENDING cls (Some "dependency_not_integrated") None None
          | MC_STALE_BASE => mark c CS_STALE cls (Some "stale_base") None None
          | MC_CONFLICT => mark c CS_CONFLICTED cls (Some "merge_conflict") None None
          | MC_UNKNOWN => mark c CS_FAILED cls (Some "merge_classification_unknown") None None
          | MC_CLEAN_APPLY | MC_DIVERGED_CLEAN =>
              merge_onto run_tests c repository target (sha_of base_sha) classification
          end
      end
  end).
End Fenced.

Definition integrate_candidate (candidate_id holder_job_id : string) (holder_lease_epoch : Z)
    (run_tests : bool) : qcmd IntegrationOutcome :=
  row ← on_store (get_integration_candidate candidate_id);
  c ← some_or row CandidateNotFound;
  lock_name ← lift (integration_lock_name (c_repository c) (c_integration_target c));
  got ← on_store (try_acquire_action_lock lock_name holder_job_id holder_lease_epoch);
  if negb got then
    mret (mkIntegrationOutcome candidate_id (c_state c) None None
            (Some "target_locked_by_another_holder") true)
  else
    finally (_integrate_locked (c_id c) lock_name holder_job_id holder_lease_epoch run_tests c)
            (on_store (release_action_lock lock_name holder_job_id holder_lease_epoch)).

(** ** A target's queue *)
Definition evaluate_all (candidates : list Candidate) : qcmd unit :=
  mfor candidates (fun c =>
    if in_state CS_PENDING c || in_state CS_STALE c then _ ← evaluate_candidate (c_id c); mret tt
    else mret tt).
(** [try: ... except (CandidateRevisionError, NotFound): pass]; whether it was done. *)
Definition tolerate {A} (m : qcmd A) : qcmd bool := fun s =>
  match m s with
  | (Ok _, s') => (Ok true, s')
  | (Err e, s') =>
      if bool_decide (e = CandidateRevisionError) || bool_decide (e = NotFound) then (Ok false, s')
      else (Err e, s')
  end.
Definition block_all (l : list Candidate) : qcmd unit :=
  mfor l (fun c =>
    _ ← tolerate (on_store (transition_integration_candidate (c_id c) (c_state c)
          (CandidateState_value CS_BLOCKED) (c_revision c) no_holder [C_last_error_code (Some "dependency_cycle")]));
    mret tt).
Fixpoint integrate_all (holder_job_id : string) (holder_lease_epoch : Z) (run_tests : bool)
    (l : list Candidate) (po : ProcessOutcome) : qcmd ProcessOutcome :=
  match l with
  | [] => mret po
  | c :: l =>
      o ← integrate_candidate (c_id c) holder_job_id holder_lease_epoch run_tests;
      let st := io_state o in
      if String.eqb st "INTEGRATED" then
        integrate_all holder_job_id holder_lease_epoch run_tests l
          (po <| po_integrated ::= fun ids => (ids ++ [io_candidate_id o])%list |>)
      else if String.eqb st "CONFLICTED" then
        mret (po <| po_conflicted ::= fun ids => (ids ++ [io_candidate_id o])%list |>)
      else if String.eqb st "STALE" then
        integrate_all holder_job_id holder_lease_epoch run_tests l
          (po <| po_stale ::= fun ids => (ids ++ [io_candidate_id o])%list |>)
      else if String.eqb st "FAILED" then
        mret (po <| po_failed ::= fun ids => (ids ++ [io_candidate_id o])%list |>)
      else if io_locked o then mret po
      else integrate_all holder_job_id holder_lease_epoch run_tests l po
  end.
Definition process_target (repository integration_target holder_job_id : string)
    (holder_lease_epoch : Z) (run_tests : bool) : qcmd ProcessOutcome :=
  lock_name ← lift (integration_lock_name repository integration_target);
  got ← on_store (try_acquire_action_lock lock_name holder_job_id holder_lease_epoch);
  if negb got then mret (mkProcessOutcome [] [] [] [] [] true)
  else finally (
    candidates ← on_store (list_integration_candidates (Some repository) (Some integration_target) None);
    _ ← evaluate_all candidates;
    candidates ← on_store (list_integration_candidates (Some repository) (Some integration_target) None);
    let order := deterministic_order candidates (map c_id (List.filter integrated_row candidates)) in
    _ ← block_all (oo_blocked order);
    integrate_all holder_job_id holder_lease_epoch run_tests (oo_ordered order)
      (mkProcessOutcome [] [] [] [] (map c_id (oo_blocked order)) false))
    (on_store (release_action_lock lock_name holder_job_id holder_lease_epoch)).

(** ** Recovery *)
Fixpoint reset_orphans (lock_name : string) (l : list Candidate) (reset : list string) : qcmd (list string) :=
  match l with
  | [] => mret reset
  | c :: l =>
      if negb (in_state CS_INTEGRATING c) then reset_orphans lock_name l reset else
      let holder := sha_of (c_holder_owner_instance_id c) in
      let epoch := c_holder_lease_epoch c in
      holder_alive ← (if truthy holder then on_store (job_holds_current_lease holder epoch) else mret false);
      lock_held ← (if truthy holder then on_store (action_lock_held_by lock_name holder epoch) else mret false);
      if holder_alive && lock_held then reset_orphans lock_name l reset else
      done ← tolerate (on_store (transition_integration_candidate (c_id c) INTEGRATING
               (CandidateState_value CS_PENDING) (c_revision c) (mkHolder None None true)
               [C_last_error_code (Some "recovered_after_restart")]));
      reset_orphans lock_name l (if done : bool then reset ++ [c_id c] else reset)%list
  end.
Definition reconcile_target (repository integration_target : string) : qcmd ReconcileOutcome :=
  lock_name ← lift (integration_lock_name repository integration_target);
  candidates ← on_store (list_integration_candidates (Some repository) (Some integration_target) None);
  reset ← reset_orphans lock_name candidates [];
  reclaimed ← on_store (reclaim_stale_action_lock lock_name);
  mret (mkReconcileOutcome reset reclaimed).
End MergeQueue.
