(* ===== verification/Along.v ===== *)
(** * Along: properties of every run of a program.

    [along R m]: whatever [m] returns or raises, its first and last states are related
    by [R].  A property of a whole controller is the choice of a preorder and one lemma
    per primitive; [al] goes through the rest. *)
From S2P Require Import Prelude Models.

Section Along.
Context {S : Type} (R : S -> S -> Prop) `{!PreOrder R}.
Definition along {A} (m : M S exc A) : Prop := forall s r s', m s = (r, s') -> R s s'.
Lemma al_ret {A} (a : A) : along (mret a).
Proof. intros s r s' [= _ <-]. reflexivity. Qed.
Lemma al_gets {A} (f : S -> A) : along (gets f).
Proof. intros s r s' [= _ <-]. reflexivity. Qed.
Lemma al_lift {A} (x : res exc A) : along (lift x).
Proof. intros s r s' [= _ <-]. reflexivity. Qed.
Lemma al_raise {A} e : along (raise (A := A) e).
Proof. intros s r s' [= _ <-]. reflexivity. Qed.
Lemma al_bind {A B} (m : M S exc A) (k : A -> M S exc B) : along m -> (forall a, along (k a)) -> along (x ← m; k x).
Proof.
  intros Hm Hk s r s'. unfold mbind, M_bind. destruct (m s) as [[a|e] s1] eqn:E; apply Hm in E.
  - intros K%Hk. by etrans.
  - by intros [= _ <-].
Qed.
(** The continuation may use what the first program returned. *)
Lemma al_bind_known {A B} (m : M S exc A) (k : A -> M S exc B) : along m ->
  (forall a s s1, m s = (Ok a, s1) -> along (k a)) -> along (x ← m; k x).
Proof.
  intros Hm Hk s r s'. unfold mbind, M_bind. destruct (m s) as [[a|e] s1] eqn:E; pose proof E as E1; apply Hm in E.
  - intros K. apply (Hk a s s1 E1) in K. by etrans.
  - by intros [= _ <-].
Qed.
Lemma al_assoc {A B C} (m : M S exc A) (f : A -> M S exc B) (k : B -> M S exc C) :
  along (x ← m; y ← f x; k y) -> along (y ← (x ← m; f x); k y).
Proof. intros H s r s' E. apply (H s r s'). unfold mbind, M_bind in *. by destruct (m s) as [[a|e] s1]. Qed.
Lemma al_when b e : along (raise_when b e).
Proof. destruct b; [apply al_raise | apply al_ret]. Qed.
Lemma al_unless b e : along (raise_unless b e).
Proof. destruct b; [apply al_ret | apply al_raise]. Qed.
Lemma al_some_or {A} (o : option A) e : along (some_or o e).
Proof. destruct o; [apply al_ret | apply al_raise]. Qed.
Lemma al_mfor {A} (l : list A) f : (forall x, along (f x)) -> along (mfor l f).
Proof. intros F. induction l as [|x l IH]; [apply al_ret|]. apply al_bind; auto. Qed.
Lemma al_finally {A B} (m : M S exc A) (after : M S exc B) : along m -> along after -> along (finally m after).
Proof.
  intros Hm Ha s r s'. unfold finally. destruct (m s) as [x s1] eqn:E. apply Hm in E.
  destruct (after s1) as [[b|e] s2] eqn:F; apply Ha in F; intros [= _ <-]; by etrans.
Qed.
Lemma al_except {A} (m : M S exc A) handled (h : M S exc A) : along m -> along h -> along (except m handled h).
Proof.
  intros Hm Hh s r s'. unfold except. destruct (m s) as [[a|e] s1] eqn:E; apply Hm in E; [by intros [= _ <-]|].
  destruct (handled e); [|by intros [= _ <-]]. intros F%Hh. by etrans.
Qed.
End Along.

Lemma bind_split {S A B} (m : M S exc A) (k : A -> M S exc B) s r s' : (x ← m; k x) s = (r, s') ->
  (exists a s1, m s = (Ok a, s1) /\ k a s1 = (r, s')) \/ (exists e, m s = (Err e, s') /\ r = Err e).
Proof. unfold mbind, M_bind. destruct (m s) as [[a|e] s1]; [eauto|]. intros [= <- <-]. eauto. Qed.

Ltac al_step :=
  lazymatch goal with
  | H : along ?R ?m |- along ?R ?m => exact H
  | |- along _ (mret _) => apply al_ret; exact _
  | |- along _ (gets _) => apply al_gets; exact _
  | |- along _ (lift _) => apply al_lift; exact _
  | |- along _ (raise _) => apply al_raise; exact _
  | |- along _ (raise_when _ _) => apply al_when; exact _
  | |- along _ (raise_unless _ _) => apply al_unless; exact _
  | |- along _ (some_or _ _) => apply al_some_or; exact _
  | |- along _ (mfor _ _) => apply al_mfor; [exact _ | intros ?]
  | |- along _ (finally _ _) => apply al_finally; [exact _ | |]
  | |- along _ (except _ _ _) => apply al_except; [exact _ | |]
  | |- along _ (_ ≫= _) => apply al_bind; [exact _ | | intros ?]
  | |- along _ (match _ with _ => _ end) => case_match
  end.
Ltac al := repeat al_step.
