(* ===== verification/MergeClose.v ===== *)
(** * MergeSpec: what the integration controller can do.

    The git commands of every run of [process_target], by [Along]. *)
From S2P Require Import Prelude PyVal Json Models Timestamps JobState Concurrency Recovery CoreStore JobRows Worktree Leases ActionLocks JobSteps JobInv LeaseSpec LeaseSession JobFrame LockSpec Canonical Candidates MergeOrder GitClient MergeQueue Along CandidateSpec.
#[local] Open Scope string_scope.

Section Queue.
Context (R : QSt -> QSt -> Prop) `{!PreOrder R}.
Lemma al_tolerate {A} (m : qcmd A) : along R m -> along R (tolerate m).
Proof.
  intros Hm s r s'. unfold tolerate. destruct (m s) as [[b|e] s2] eqn:F; apply Hm in F; [by intros [= _ <-]|].
  destruct (_ || _); by intros [= _ <-].
Qed.
End Queue.
Ltac al_step :=
  first [ Along.al_step
        | lazymatch goal with |- along _ (tolerate _) => apply al_tolerate end ].
Ltac al := repeat al_step.

(** ** The git commands of the controller *)
Section GitSafety.
Context {env : Env} {genv : GitEnv} {qenv : QueueEnv}.

Definition git_at (cwd : string) (args : list string) : argv :=
  (["git"] ++ (if truthy cwd then ["-C"; cwd] else []) ++ args)%list.
Definition read_only (args : list string) : bool :=
  match args with
  | cmd :: _ => str_in cmd ["rev-parse"; "status"; "merge-base"; "merge-tree"; "diff"]
  | [] => false
  end.
(** The dedicated worktree of some queue, under the worktrees root. *)
Definition own_worktree (path : string) : Prop :=
  exists repository target, _integration_worktree_path repository target = Ok path.
Inductive permitted : argv -> Prop :=
| Reads cwd args : read_only args = true -> permitted (git_at cwd args)
| Adds cwd target path sha : own_worktree path -> is_sha_like sha = true ->
    permitted (git_at cwd ["worktree"; "add"; "-b"; _integration_branch target; path; sha])
| Removes cwd path : own_worktree path -> permitted (git_at cwd ["worktree"; "remove"; "--force"; path])
| Deletes cwd target : permitted (git_at cwd ["branch"; "-D"; _integration_branch target])
| Merges path message sha : own_worktree path -> is_sha_like sha = true ->
    permitted (git_at (os_realpath path) ["merge"; "--no-ff"; "--no-edit"; "-m"; message; sha])
| Aborts path : own_worktree path -> permitted (git_at (os_realpath path) ["merge"; "--abort"]).

Definition ran_ok (g g' : list argv) : Prop := exists cmds, g' = (g ++ cmds)%list /\ Forall permitted cmds.
#[local] Instance ran_ok_preorder : PreOrder ran_ok.
Proof.
  split.
  - intros g. exists []. by rewrite app_nil_r.
  - intros a b c (x & -> & X) (y & -> & Y). exists (x ++ y)%list. split; [by rewrite app_assoc|].
    apply List.Forall_app. by split.
Qed.
Definition safe_git (s s' : QSt) : Prop := ran_ok (q_git s) (q_git s').
#[local] Instance safe_git_preorder : PreOrder safe_git.
Proof.
  split; [intros s; unfold safe_git; reflexivity|]. intros a b c H K. unfold safe_git in *. by etrans.
Qed.
Lemma safe_store {A} (m : jcmd A) : along safe_git (on_store m).
Proof. intros s r s'. unfold on_store. destruct (m (q_js s)). intros [= _ <-]. unfold safe_git. cbn. reflexivity. Qed.
Lemma safe_on_git {A} (m : gitcmd A) : along ran_ok m -> along safe_git (on_git m).
Proof. intros H s r s'. unfold on_git. destruct (m (q_git s)) as [x g] eqn:E. apply H in E. by intros [= _ <-]. Qed.

Lemma run_ok args cwd : permitted (git_at cwd args) -> along ran_ok (_run args cwd).
Proof. intros P s r s' [= _ <-]. exists [git_at cwd args]. split; [done|]. by constructor. Qed.
Lemma succeeds_ok args cwd : permitted (git_at cwd args) -> along ran_ok (succeeds args cwd).
Proof. intros P. unfold succeeds. apply al_bind; [exact _ | by apply run_ok | intros [[? ?] ?]; al]. Qed.
Lemma output_ok args cwd : permitted (git_at cwd args) -> along ran_ok (output_of args cwd).
Proof. intros P. unfold output_of. apply al_bind; [exact _ | by apply run_ok | intros [[? ?] ?]; al]. Qed.
Lemma in_dir_ok {A} path (d : A) k : (blank path = false -> along ran_ok (k (os_realpath path))) ->
  along ran_ok (in_dir path d k).
Proof.
  intros K s r s'. unfold in_dir, _canon_dir, mbind, M_bind, gets.
  destruct (blank path || _) eqn:B; [by intros [= _ <-]|]. destruct (negb (os_isdir _ _)); [by intros [= _ <-]|].
  apply orb_false_iff in B as [B _]. specialize (K B).
  destruct allowed_root; [|apply K]. destruct (_ || _); [apply K | by intros [= _ <-]].
Qed.
Ltac reads_git := apply in_dir_ok; intros _; al;
  first [apply run_ok | apply output_ok | apply succeeds_ok]; by apply Reads.
Lemma show_toplevel_ok p : along ran_ok (show_toplevel p).
Proof. unfold show_toplevel. reads_git. Qed.
Lemma head_ok p : along ran_ok (head p).
Proof. unfold head. reads_git. Qed.
Lemma is_dirty_ok p : along ran_ok (is_dirty p).
Proof. unfold is_dirty. reads_git. Qed.
Lemma resolve_sha_ok p r : along ran_ok (resolve_sha p r).
Proof. unfold resolve_sha. reads_git. Qed.
Lemma merge_base_ok p a b : along ran_ok (merge_base p a b).
Proof. unfold merge_base. reads_git. Qed.
Lemma is_ancestor_ok p a b : along ran_ok (is_ancestor p a b).
Proof. unfold is_ancestor. reads_git. Qed.
Lemma merge_tree_ok p a b : along ran_ok (merge_tree_conflicts p a b).
Proof. unfold merge_tree_conflicts. reads_git. Qed.
Lemma branch_exists_ok p b : along ran_ok (branch_exists p b).
Proof. unfold branch_exists. reads_git. Qed.
Lemma changed_paths_ok p b : along ran_ok (changed_paths_vs p b).
Proof. unfold changed_paths_vs. reads_git. Qed.
Lemma delete_branch_ok p target : along ran_ok (delete_branch p (_integration_branch target)).
Proof. unfold delete_branch. apply in_dir_ok. intros _. al. apply succeeds_ok, Deletes. Qed.
Lemma add_worktree_ok p path target sha : own_worktree path ->
  along ran_ok (add_worktree p path (_integration_branch target) sha).
Proof.
  intros O. unfold add_worktree. destruct (is_sha_like sha) eqn:S; cbn [negb]; [|al].
  al. apply in_dir_ok. intros _. al. by apply succeeds_ok, Adds.
Qed.
Lemma remove_worktree_ok p path : own_worktree path -> along ran_ok (remove_worktree p path).
Proof. intros O. unfold remove_worktree. apply in_dir_ok. intros _. al. by apply succeeds_ok, Removes. Qed.
Lemma merge_no_ff_ok path sha msg : own_worktree path -> along ran_ok (merge_no_ff path sha msg).
Proof.
  intros O. unfold merge_no_ff. apply in_dir_ok. intros _. destruct (is_sha_like sha) eqn:S; cbn [negb]; [|al].
  apply al_bind; [exact _ | by apply run_ok, Merges | intros [[? ?] ?]; al].
Qed.
Lemma merge_abort_ok path : own_worktree path -> along ran_ok (merge_abort path).
Proof. intros O. unfold merge_abort. apply in_dir_ok. intros _. by apply succeeds_ok, Aborts. Qed.
Hint Resolve show_toplevel_ok head_ok is_dirty_ok resolve_sha_ok merge_base_ok is_ancestor_ok merge_tree_ok
  branch_exists_ok changed_paths_ok delete_branch_ok add_worktree_ok remove_worktree_ok merge_no_ff_ok
  merge_abort_ok : git.
Lemma classify_ok repo a b c d : along ran_ok (classify_merge repo a b c d).
Proof. unfold classify_merge. repeat first [solve [auto with git] | al_step]. Qed.
Hint Resolve classify_ok : git.

Lemma store_git_classify c tip : along safe_git (_classify c tip).
Proof.
  unfold _classify, _dependency_satisfied. repeat first [apply safe_store | apply safe_on_git; auto with git | al_step].
Qed.
Lemma own_path r t p : _integration_worktree_path r t = Ok p -> own_worktree p.
Proof. intros E. by exists r, t. Qed.
Ltac sg := repeat first [apply safe_store | solve [apply safe_on_git; eauto with git] | al_step].
Lemma ensure_ok r t b : along safe_git (_ensure_integration_worktree r t b).
Proof.
  unfold _ensure_integration_worktree. apply al_bind_known; [exact _ | sg | intros p ? ? [O%own_path _]%lift_ok]. sg.
Qed.
Lemma ensure_own r t b s p br s' : _ensure_integration_worktree r t b s = (Ok (inr (p, br)), s') -> own_worktree p.
Proof.
  unfold _ensure_integration_worktree. intros R. apply M_bind_ok in R as (p' & s1 & E & R).
  apply lift_ok in E as [E <-]. apply own_path in E.
  repeat (first [apply M_bind_ok in R as (? & ? & _ & R) | case_match]; try discriminate).
  all: repeat case_match; try discriminate; by injection R as <- _ _.
Qed.

Section Callables.
(** The callables are not handed the queue's git client. *)
Hypothesis builder_git : forall c changed base s, q_git (snd (plan_builder c changed base s)) = q_git s.
Hypothesis runner_git : forall c path plan changed s, q_git (snd (test_runner c path plan changed s)) = q_git s.
Lemma same_git {A} (m : qcmd A) : (forall s, q_git (snd (m s)) = q_git s) -> along safe_git m.
Proof. intros H s r s' E. unfold safe_git. specialize (H s). rewrite E in H. cbn in H. rewrite H. reflexivity. Qed.

Section Fenced.
Context (id lock job : string) (ep : Z).
Lemma fenced_git cur f t fields : along safe_git (fenced id lock job ep cur f t fields).
Proof.
  intros s r s'. unfold fenced. destruct (on_store _ s) as [x s1] eqn:E. apply safe_store in E.
  repeat case_match; by intros [= _ <-].
Qed.
Lemma lost_git c : along safe_git (lost id c).
Proof. unfold lost. sg. Qed.
Hint Resolve fenced_git lost_git : git.
Lemma mark_git c st a b h d : along safe_git (mark id lock job ep c st a b h d).
Proof. unfold mark. repeat first [solve [auto with git] | apply safe_store | al_step]. Qed.
Lemma step_git c f t fields raced k : (forall c, along safe_git (k c)) ->
  along safe_git (step id lock job ep c f t fields raced k).
Proof. intros K. unfold step. repeat first [solve [auto with git] | apply safe_store | al_step]. Qed.
Hint Resolve mark_git : git.
Ltac sgit := repeat first
  [ apply mark_git | apply step_git; intros ? | apply safe_store | solve [apply safe_on_git; eauto with git] | al_step ].
Lemma tests_git c p b : along safe_git (_run_integration_tests c p b).
Proof.
  unfold _run_integration_tests. sgit; [by apply same_git | by apply same_git].
Qed.
Lemma close_git rt c p b h cls : along safe_git (close_with_tests id lock job ep rt c p b h cls).
Proof. unfold close_with_tests. sgit. apply tests_git. Qed.
Lemma merge_git rt c r t b cls : along safe_git (merge_onto id lock job ep rt c r t b cls).
Proof.
  unfold merge_onto. apply al_bind_known; [exact _ | apply ensure_ok | intros w s s1 E].
  destruct w as [d|[p br]]; [apply mark_git|]. apply ensure_own in E. apply step_git. intros c'. sgit. apply close_git.
Qed.
Lemma integrate_locked_git rt c : along safe_git (_integrate_locked id lock job ep rt c).
Proof.
  unfold _integrate_locked, _target_tip, _current_integration_base. sgit; try apply store_git_classify; apply merge_git.
Qed.
End Fenced.
Lemma integrate_git id job ep rt : along safe_git (integrate_candidate id job ep rt).
Proof. unfold integrate_candidate. sg. apply integrate_locked_git. Qed.
Lemma evaluate_git id : along safe_git (evaluate_candidate id).
Proof. unfold evaluate_candidate, _dependency_satisfied, _default_review_policy. sg. Qed.
Lemma integrate_all_git job ep rt l po : along safe_git (integrate_all job ep rt l po).
Proof.
  revert po. induction l as [|c l IH]; intros po; cbn [integrate_all]; [sg|].
  apply al_bind; [exact _ | apply integrate_git | intros o]. repeat (case_match; [first [apply IH | sg]|]); apply IH.
Qed.

End Callables.
(** The branch a queue creates and deletes is never its target. *)
Lemma own_branch_not_target target : _integration_branch target <> target.
Proof.
  unfold _integration_branch. destruct target as [|c t]; [done|]. cbn [lstrip_char].
  destruct (Ascii.eqb_spec c "/") as [->|_]; [done|]. intros E. apply (f_equal String.length) in E.
  rewrite length_app_str in E. cbn in E. lia.
Qed.
End GitSafety.

(** ** MergeClose: what it takes to become INTEGRATED.

    [closes] relates two states between which candidate [id] did not become INTEGRATED,
    unless for the reason [closing] gives; it holds of every step of the queue. *)
Section Close.
Context {env : Env} {genv : GitEnv} {qenv : QueueEnv}.
Notation tables s := (js_t (q_js s)).
Section Row.
Context (id job : string) (ep : Z) (run_tests : bool).

Definition integrated (s : QSt) : Prop :=
  exists c, candidate_of id (tables s) = Some c /\ c_state c = "INTEGRATED".
(** The source job, as read during the run, was DONE with the head of the candidate. *)
Definition source_proven : Prop :=
  exists s c src, c_id c = id /\ job_of (c_source_job_id c) (tables s) = Some src /\
    j_terminal src = Some "DONE" /\ source_head_of src = c_source_head c.
(** A run of the tests on the candidate returned this evidence: authentic, for the plan
    built, with the verdict DONE. *)
Definition tests_passed : Prop :=
  exists c path plan changed evidence s s', c_id c = id /\
    test_runner c path plan changed s = (Ok (inr evidence), s') /\
    _evidence_authentic evidence plan = Ok true /\ verdict_done evidence = true.
(** At the write, the lease was current and the lock of the queue held. *)
Definition written_by_holder : Prop :=
  exists lock s s' now, read_between (q_js s) (q_js s') now /\ holds_both lock job ep now (tables s) /\
    ~ integrated s /\ integrated s'.
Definition closing : Prop := run_tests = true /\ source_proven /\ tests_passed /\ written_by_holder.
Definition closes (s s' : QSt) : Prop := integrated s' -> integrated s \/ closing.
#[local] Instance closes_preorder : PreOrder closes.
Proof. split; [intros s H; by left|]. intros a b c H K I. destruct (K I) as [J|J]; [by apply H | by right]. Qed.

(** ** Steps that leave the row *)
Lemma closes_same s s' : candidate_of id (tables s') = candidate_of id (tables s) -> closes s s'.
Proof. intros E (c & C & I). left. exists c. by rewrite <- E. Qed.
Lemma cl_git {A} (m : gitcmd A) : along closes (on_git m).
Proof. intros s r s'. unfold on_git. destruct (m (q_git s)). intros [= _ <-]. by apply closes_same. Qed.
Lemma cl_store {A} (m : jcmd A) : (forall s, candidate_of id (js_t (snd (m s))) = candidate_of id (js_t s)) ->
  along closes (on_store m).
Proof.
  intros H s r s'. unfold on_store. specialize (H (q_js s)). destruct (m (q_js s)) as [x j].
  intros [= _ <-]. by apply closes_same.
Qed.
Lemma cl_reads {A} (m : jcmd A) : reads m -> along closes (on_store m).
Proof.
  intros R. apply cl_store. intros s. destruct (m s) as [x s'] eqn:E. apply R in E as (_ & T & _). cbn. by rewrite T.
Qed.
Lemma cl_acquire n j e : along closes (on_store (try_acquire_action_lock n j e)).
Proof. apply cl_store. intros s. unfold candidate_of. pose proof (lock_exec_candidates (Acquire n j e) s) as E.
  cbn in E. by rewrite E.
Qed.
Lemma cl_release n j e : along closes (on_store (release_action_lock n j e)).
Proof. apply cl_store. intros s. unfold candidate_of. pose proof (lock_exec_candidates (Unlock n j e) s) as E.
  cbn in E. by rewrite E.
Qed.
Lemma cl_core {A} (m : cmd A) : along closes (on_store (on_core m)).
Proof. apply cl_store. intros s. unfold on_core. by destruct (m (js_core s)). Qed.
Lemma get_candidate_reads i : reads (get_integration_candidate i).
Proof. unfold get_integration_candidate, jquery. auto with reads. Qed.
Lemma get_job_reads i : reads (get_supervisor_job i).
Proof. unfold get_supervisor_job, jquery. auto with reads. Qed.
Lemma list_candidates_reads r t st : reads (list_integration_candidates r t st).
Proof. unfold list_integration_candidates, jquery. auto with reads. Qed.
Hint Resolve get_candidate_reads get_job_reads list_candidates_reads : reads.

(** A transition to another state than INTEGRATED. *)
Lemma moves_closes i f to rev now h fields s r s' :
  moves_row i f to rev now h fields (tables s) r (tables s') ->
  i <> id \/ to <> "INTEGRATED" -> closes s s'.
Proof.
  intros M D. destruct (decide (i = id)) as [->|N]; [|apply closes_same; by eapply moves_other].
  destruct D as [D|D]; [done|]. intros (c & C & I). exfalso. apply D.
  pose proof (moves_this _ _ _ _ _ _ _ _ _ _ M) as T. destruct M as (x & _ & _ & _ & -> & _).
  rewrite T in C. injection C as <-. by rewrite moved_state in I.
Qed.
Lemma cl_transition i f to rev h fields : to <> "INTEGRATED" ->
  along closes (on_store (transition_integration_candidate i f to rev h fields)).
Proof.
  intros D s r s'. unfold on_store. destruct (transition_integration_candidate i f to rev h fields (q_js s)) as [[o|e] j] eqn:E;
    intros [= _ <-].
  - apply cand_transition_ok in E as (now & _ & M). eapply moves_closes; [exact M | by right].
  - apply cand_transition_err in E. apply closes_same. cbn. by rewrite E.
Qed.
Ltac cl := repeat first
  [ apply cl_git | apply cl_acquire | apply cl_release | apply cl_core | solve [apply cl_reads; auto with reads]
  | apply cl_transition; done | al_step ].
Lemma cl_dependency c : along closes (_dependency_satisfied c).
Proof. unfold _dependency_satisfied. cl. Qed.
Lemma cl_evaluate i : along closes (evaluate_candidate i).
Proof.
  unfold evaluate_candidate, _default_review_policy. repeat first [apply cl_dependency | cl].
Qed.

(** ** The callables leave the candidates alone *)
Hypothesis builder_rows : forall c changed base s,
  jt_candidates (tables (snd (plan_builder c changed base s))) = jt_candidates (tables s).
Hypothesis runner_rows : forall c path plan changed s,
  jt_candidates (tables (snd (test_runner c path plan changed s))) = jt_candidates (tables s).
Lemma cl_rows {A} (m : qcmd A) : (forall s, jt_candidates (tables (snd (m s))) = jt_candidates (tables s)) ->
  along closes m.
Proof.
  intros H s r s' E. apply closes_same. unfold candidate_of. specialize (H s). rewrite E in H. cbn in H. by rewrite H.
Qed.

Section Candidate.
Context (i lock : string).
Notation fenced := (fenced i lock job ep).
Notation mark := (mark i lock job ep).
Notation step := (step i lock job ep).
Lemma fenced_cases cur f to fields s r s' : fenced cur f to fields s = (r, s') ->
  (exists c now, r = Ok (Moved c) /\ read_between (q_js s) (q_js s') now /\ holds_both lock job ep now (tables s) /\
     moves_row i f to (c_revision cur) now (mkHolder (Some job) (Some ep) false) fields (tables s) (Some c) (tables s'))
  \/ (tables s' = tables s /\ forall c, r <> Ok (Moved c)).
Proof.
  unfold MergeQueue.fenced, on_store.
  destruct (transition_integration_candidate_authoritative i lock job ep f to (c_revision cur) (Some job) false fields (q_js s))
    as [[o|e] j] eqn:E.
  - apply authoritative_ok in E as (now & B & H & M). destruct o as [c|].
    + intros [= <- <-]. left. exists c, now. auto.
    + exfalso. by destruct M as (x & _ & _ & _ & ? & _).
  - apply authoritative_err in E. right. repeat case_match; simplify_eq/=; by split.
Qed.
Lemma cl_fenced cur f to fields : i <> id \/ to <> "INTEGRATED" -> along closes (fenced cur f to fields).
Proof.
  intros D s r s' E. apply fenced_cases in E as [(c & now & _ & _ & _ & M)|[T _]].
  - by eapply moves_closes.
  - apply closes_same. by rewrite T.
Qed.
Lemma cl_lost c : along closes (lost i c).
Proof. unfold lost. cl. Qed.
Lemma cl_mark cur st a b h d : i <> id \/ st <> CS_INTEGRATED -> along closes (mark cur st a b h d).
Proof.
  intros D. unfold MergeQueue.mark. apply al_bind; [exact _ | apply cl_fenced; destruct D; [by left | right; by destruct st] | intros r].
  repeat first [apply cl_lost | cl].
Qed.
(** The one mark that closes a candidate. *)
Lemma cl_mark_integrated cur a b h d : (i = id -> run_tests = true /\ source_proven /\ tests_passed) ->
  along closes (mark cur CS_INTEGRATED a b h d).
Proof.
  intros F. destruct (decide (i = id)) as [Ei|N]; [|apply cl_mark; by left].
  destruct (F Ei) as (F1 & F2 & F3). clear F.
  unfold MergeQueue.mark. apply al_bind; [exact _ | | intros r; repeat first [apply cl_lost | cl]].
  intros s r s' E. apply fenced_cases in E as [(c & now & _ & B & H & M)|[T _]]; [|apply closes_same; by rewrite T].
  rewrite Ei in M. intros I. destruct (candidate_of id (tables s)) as [x|] eqn:X; [|by destruct M as (y & Y & _); congruence].
  destruct (decide (c_state x = "INTEGRATED")) as [J|J]; [left; by exists x|]. right.
  split; [done|]. split; [done|]. split; [done|]. exists lock, s, s', now. do 2 (split; [done|]). split; [|done].
  intros (y & Y & K). congruence.
Qed.
Lemma cl_step cur f to fields raced k : to <> "INTEGRATED" ->
  (forall c, c_id c = i -> along closes (k c)) -> along closes (step cur f to fields raced k).
Proof.
  intros D K s r s'. unfold MergeQueue.step. intros E. unfold mbind, M_bind in E.
  destruct (fenced cur f to fields s) as [[x|e] s1] eqn:F; pose proof F as G;
    apply cl_fenced in G; [|by right| |by right]; [|by injection E as _ <-].
  etrans; [exact G|]. destruct x as [c| |].
  - apply fenced_cases in F as [(c' & now & [= <-] & _ & _ & M)|[_ T]].
    + apply (K c) in E; [done|]. destruct M as (y & Y & _ & _ & [= ->] & _). rewrite moved_id. by apply row_by_id in Y as [-> _].
    + by destruct (T c).
  - by injection E as _ <-.
  - by apply cl_lost in E.
Qed.

(** ** One candidate's integration *)
Ltac clq := repeat first
  [ apply cl_mark; by right | apply cl_dependency | apply cl_lost | cl ].
Lemma cl_ensure r t b : along closes (_ensure_integration_worktree r t b).
Proof. unfold _ensure_integration_worktree. clq. Qed.
Lemma cl_tests c path b : along closes (_run_integration_tests c path b).
Proof. unfold _run_integration_tests. clq; apply cl_rows; auto. Qed.
Lemma tests_ran c path b plan evidence s s1 : _run_integration_tests c path b s = (Ok (inr (plan, evidence)), s1) ->
  exists changed sr sr', test_runner c path plan changed sr = (Ok (inr evidence), sr').
Proof.
  unfold _run_integration_tests. intros R. apply M_bind_ok in R as (changed & s2 & _ & R).
  apply M_bind_ok in R as (p & s3 & _ & R). destruct p as [e|p]; [by inv_ok R|].
  apply M_bind_ok in R as (v & s4 & T & R). apply mret_ok in R as [R _]. destruct v as [e|v]; [done|].
  injection R as -> ->. eauto.
Qed.
Lemma cl_close rt c path b h cls : c_id c = i -> (i = id -> rt = run_tests /\ source_proven) ->
  along closes (close_with_tests i lock job ep rt c path b h cls).
Proof.
  intros C F. unfold close_with_tests. destruct rt eqn:RT; cbn [negb]; [|clq].
  apply al_bind_known; [exact _ | apply cl_tests | intros x s s1 T].
  destruct x as [d|[plan evidence]]; [by apply cl_mark; right|].
  apply tests_ran in T as (changed & sr & sr' & T).
  apply al_bind_known; [exact _ | clq | intros auth ? ? [A _]%lift_ok].
  destruct auth; cbn [negb]; [|clq]. apply al_bind; [exact _ | clq | intros json].
  apply cl_step; [done|]. intros c' C'. destruct (verdict_done evidence) eqn:V; [|clq].
  apply cl_mark_integrated. intros E. destruct (F E) as [<- P]. do 2 (split; [done|]).
  exists c, path, plan, changed, evidence, sr, sr'. split; [by rewrite C, E|]. done.
Qed.
Lemma cl_merge rt c r t b cls : c_id c = i -> (i = id -> rt = run_tests /\ source_proven) ->
  along closes (merge_onto i lock job ep rt c r t b cls).
Proof.
  intros C F. unfold merge_onto. apply al_bind; [exact _ | apply cl_ensure | intros [d|[p br]]; [clq|]].
  apply cl_step; [done|]. intros c1 C1. apply al_bind; [exact _ | clq | intros [clean err]].
  destruct clean; cbn [negb]; [|clq]. apply al_bind; [exact _ | clq | intros hd].
  destruct (negb _); [clq|]. apply cl_step; [done|]. intros c2 C2. by apply cl_close.
Qed.
Lemma cl_integrate_locked c : c_id c = i -> along closes (_integrate_locked i lock job ep run_tests c).
Proof.
  intros C. unfold _integrate_locked. apply cl_step; [done|]. intros c1 C1.
  apply al_bind; [exact _ | clq | intros [tip|]; [|clq]].
  apply al_bind_known; [exact _ | clq | intros src s s1 J]. destruct src as [src|]; [|clq].
  unfold on_store in J. cbn in J. injection J as J _.
  destruct (ostr_eqb (j_terminal src) (Some "DONE")) eqn:T; cbn [negb]; [|clq].
  destruct (ostr_eqb (source_head_of src) (c_source_head c1)) eqn:H; cbn [negb]; [|clq].
  apply ostr_eqb_eq in T, H. unfold _current_integration_base, _classify. clq.
  all: apply cl_merge; [done|]; intros E; split; [done|]; exists s, c1, src; split; [by rewrite C1, E | done].
Qed.
End Candidate.

Lemma cl_integrate i : along closes (integrate_candidate i job ep run_tests).
Proof.
  unfold integrate_candidate. apply al_bind; [exact _ | cl | intros row]. apply al_bind; [exact _ | cl | intros c].
  cl. by apply cl_integrate_locked.
Qed.
Lemma cl_integrate_all l po : along closes (integrate_all job ep run_tests l po).
Proof.
  revert po. induction l as [|c l IH]; intros po; cbn [integrate_all]; [cl|].
  apply al_bind; [exact _ | apply cl_integrate | intros o]. repeat (case_match; [first [apply IH | cl]|]); apply IH.
Qed.

End Row.
End Close.
