(* ===== verification/MergeRecover.v ===== *)
(** * MergeRecover: recovery of a queue, and the end of its lock.

    [resets] relates two states between which the only changes of candidate rows are
    the resets [reconcile_target] is allowed. *)
From S2P Require Import Prelude PyVal Json Models Timestamps JobState Concurrency Recovery CoreStore JobRows Worktree Leases ActionLocks JobSteps JobInv LeaseSpec LeaseSession JobFrame LockSpec Canonical Candidates MergeOrder GitClient MergeQueue CandidateSpec Along MergeClose Authority.
#[local] Open Scope string_scope.

Section Recover.
Context {env : Env} {genv : GitEnv} {qenv : QueueEnv}.
Notation tables s := (js_t (q_js s)).

Section Lock.
Context (lock : string).
(** The holder recorded on the row is missing, lost the lock, or its lease. *)
Definition orphaned (c : Candidate) (s s' : QSt) : Prop :=
  let holder := sha_of (c_holder_owner_instance_id c) in
  let epoch := c_holder_lease_epoch c in
  blank holder = true \/
  (forall l, lock_of lock (tables s) = Some l -> held_exactly holder epoch l = false) \/
  (exists now, read_between (q_js s) (q_js s') now /\ lease_live (tables s) holder epoch now = false) \/
  (epoch < 1)%Z.
Definition reset_row (now : string) (c : Candidate) : Candidate :=
  moved "PENDING" now (mkHolder None None true) [C_last_error_code (Some "recovered_after_restart")] c.
Definition row_reset (s s' : QSt) : Prop := forall id c, candidate_of id (tables s) = Some c ->
  candidate_of id (tables s') = Some c \/
  (c_state c = "INTEGRATING" /\ orphaned c s s' /\ exists now, candidate_of id (tables s') = Some (reset_row now c)).
Definition resets (s s' : QSt) : Prop :=
  ticks (q_js s) <= ticks (q_js s') /\ jt_jobs (tables s') = jt_jobs (tables s) /\
  jt_locks (tables s') = jt_locks (tables s) /\ row_reset s s'.
Lemma live_jobs t t' j e n : jt_jobs t' = jt_jobs t -> lease_live t' j e n = lease_live t j e n.
Proof. unfold lease_live, job_of. by intros ->. Qed.
Lemma orphaned_wider c s s1 s2 s' : ticks (q_js s) <= ticks (q_js s1) -> ticks (q_js s2) <= ticks (q_js s') ->
  jt_jobs (tables s1) = jt_jobs (tables s) -> jt_locks (tables s1) = jt_locks (tables s) ->
  orphaned c s1 s2 -> orphaned c s s'.
Proof.
  intros T1 T2 J L [O|[O|[(now & (k & K1 & K2 & F) & O)|O]]]; unfold orphaned; [by left | | |by right; right; right].
  - right. left. unfold lock_of in *. by rewrite L in O.
  - right. right. left. exists now. split; [exists k; split; [lia | split; [lia | done]]|]. by rewrite (live_jobs _ _ _ _ _ J) in O.
Qed.
#[local] Instance resets_preorder : PreOrder resets.
Proof.
  split.
  - intros s. split; [done|]. do 2 (split; [done|]). intros id c C. by left.
  - intros a b c (T1 & J1 & L1 & R1) (T2 & J2 & L2 & R2). split; [lia|]. split; [congruence|]. split; [congruence|].
    intros id x X. destruct (R1 id x X) as [Y|(I & O & now & Y)].
    + destruct (R2 id x Y) as [Z|(I & O & now & Z)]; [by left|]. right. split; [done|]. split; [|by exists now].
      by eapply orphaned_wider; [exact T1 | reflexivity | ..].
    + right. split; [done|]. split; [by eapply (orphaned_wider _ _ _ _ _ (le_n _) T2)|]. exists now.
      destruct (R2 id _ Y) as [Z|(I' & _)]; [done|]. unfold reset_row in I'. by rewrite moved_state in I'.
Qed.
Lemma rs_same s s' : ticks (q_js s) <= ticks (q_js s') -> tables s' = tables s -> resets s s'.
Proof. intros T E. unfold resets, row_reset. rewrite E. do 3 (split; [done|]). intros id c C. by left. Qed.

(** One candidate of the loop. *)
Definition reset_one (c : Candidate) (reset : list string) : qcmd (list string) := reset_orphans lock [c] reset.
Lemma reset_cons c l reset s : reset_orphans lock (c :: l) reset s
  = (reset' ← reset_one c reset; reset_orphans lock l reset') s.
Proof.
  unfold reset_one. cbn [reset_orphans]. unfold mbind, M_bind.
  repeat (case_match; simplify_eq/=; try done).
Qed.

Lemma alive_spec h e s x s1 : job_holds_current_lease h e s = (x, s1) ->
  js_t s1 = js_t s /\ ticks s <= ticks s1 /\
  (x = Ok false -> blank h = true \/ (e < 1)%Z \/ exists now, read_between s s1 now /\ lease_live (js_t s) h e now = false).
Proof.
  unfold job_holds_current_lease. destruct (blank h) eqn:B; cbn [orb]; [intros [= <- <-]; auto|].
  destruct (Z.ltb_spec e 1) as [L|L]; [intros [= <- <-]; auto|]. intros R.
  assert (S : stepwise sound (now_iso ← jnow_iso; _job_holds_current_lease h e now_iso)).
  { apply sw_bind; [exact _ | apply jnow_iso_sound | intros]. unfold _job_holds_current_lease, jquery. auto with stepwise. }
  pose proof (S _ _ _ R) as [T _]. unfold _job_holds_current_lease, jquery, mbind, M_bind in R.
  destruct (jnow_iso s) as [[n|er] s2] eqn:N; pose proof (jnow_iso_reads _ _ _ N) as (_ & Q & _).
  - injection R as <- <-. split; [done|]. split; [done|]. intros [= E]. right. right. exists n. rewrite Q in E.
    split; [|done]. unfold jnow_iso, on_core, now_iso, now, mbind, M_bind, lift in N.
    destruct (format_in_range _) as [m|] eqn:F; [|done]. injection N as <- <-. exists (ticks s).
    split; [done|]. split; [cbn; unfold ticks; cbn; lia | done].
  - injection R as <- <-. done.
Qed.
Lemma held_by_reads n j e : reads (action_lock_held_by n j e).
Proof. unfold action_lock_held_by, jquery. destruct (blank n); auto with reads. Qed.

(** The row still is the one listed, or no longer INTEGRATING. *)
Definition listed (c : Candidate) (s : QSt) : Prop :=
  forall x, candidate_of (c_id c) (tables s) = Some x -> x = c \/ c_state x <> "INTEGRATING".
Lemma listed_resets c s s' : resets s s' -> (exists x, candidate_of (c_id c) (tables s) = Some x) ->
  listed c s -> listed c s'.
Proof.
  intros (_ & _ & _ & R) (x & X) L y Y. destruct (R _ _ X) as [Z|(_ & _ & now & Z)]; rewrite Z in Y; injection Y as <-.
  - by apply L.
  - right. unfold reset_row. by rewrite moved_state.
Qed.
(** The guarded reset of a row. *)
Lemma rs_transition c s0 s r s' : resets s0 s -> tables s = tables s0 -> listed c s0 -> orphaned c s0 s ->
  tolerate (on_store (transition_integration_candidate (c_id c) INTEGRATING (CandidateState_value CS_PENDING)
    (c_revision c) (mkHolder None None true) [C_last_error_code (Some "recovered_after_restart")])) s = (r, s') ->
  resets s0 s'.
Proof.
  intros R E L O. unfold tolerate, on_store.
  destruct (transition_integration_candidate _ _ _ _ _ _ (q_js s)) as [[o|e] j] eqn:T.
  - apply cand_transition_ok in T as (now & B & M). intros [= _ <-]. destruct R as (T0 & J0 & L0 & _). cbn.
    assert (Tk : ticks (q_js s) <= ticks j) by (destruct B as (k & ? & ? & _); lia).
    split; [cbn; lia|]. pose proof M as (x & X & F & V & -> & Tb). rewrite E in *. cbn.
    split; [by rewrite Tb|]. split; [by rewrite Tb|]. intros id y Y. cbn.
    destruct (decide (id = c_id c)) as [->|D]; [|left; cbn; by rewrite (moves_other _ _ _ _ _ _ _ _ _ _ _ M)].
    right. rewrite X in Y. injection Y as ->. destruct (L _ X) as [->|N]; [|done].
    split; [done|]. split; [by eapply (orphaned_wider _ s0 s0 s); [| cbn; lia | ..]|].
    exists now. cbn. by rewrite (moves_this _ _ _ _ _ _ _ _ _ _ M).
  - apply cand_transition_err in T as Q. assert (K : resets s0 (s <| q_js := j |>)).
    { destruct R as (T0 & J0 & L0 & R0). apply rs_same; [|cbn; congruence]. cbn.
      assert (stepwise sound (transition_integration_candidate (c_id c) INTEGRATING (CandidateState_value CS_PENDING)
        (c_revision c) (mkHolder None None true) [C_last_error_code (Some "recovered_after_restart")])) as S.
      { unfold transition_integration_candidate. repeat first
          [apply sw_transaction, locked_sound | apply jnow_iso_sound | apply sw_bind; [exact _ | | intros ?] | solve [auto with stepwise]]. }
      apply S in T as [T _]. lia. }
    repeat case_match; by intros [= _ <-].
Qed.
Lemma bind_cases {S A B} (m : M S exc A) (k : A -> M S exc B) s r s' : (x ← m; k x) s = (r, s') ->
  (exists a s1, m s = (Ok a, s1) /\ k a s1 = (r, s')) \/ (exists e, m s = (Err e, s')).
Proof. unfold mbind, M_bind. destruct (m s) as [[a|e] s1]; [eauto | intros [= _ <-]; eauto]. Qed.
(** The two tests on the recorded holder. *)
Definition still (holder : string) (m : jcmd bool) : qcmd bool := if truthy holder then on_store m else mret false.
Lemma not_truthy h : truthy h = false -> blank h = true.
Proof. by destruct h. Qed.
Lemma still_alive c s x s1 :
  still (sha_of (c_holder_owner_instance_id c))
    (job_holds_current_lease (sha_of (c_holder_owner_instance_id c)) (c_holder_lease_epoch c)) s = (x, s1) ->
  tables s1 = tables s /\ ticks (q_js s) <= ticks (q_js s1) /\ (x = Ok false -> orphaned c s s1).
Proof.
  unfold still. destruct (truthy _) eqn:H.
  - unfold on_store. destruct (job_holds_current_lease _ _ (q_js s)) as [y j] eqn:J. intros [= -> <-].
    apply alive_spec in J as (T & K & O). do 2 (split; [done|]). intros E. unfold orphaned.
    destruct (O E) as [B|[B|(now & B & C)]]; [by left | by right; right; right |].
    right. right. left. exists now. by split.
  - intros [= <- <-]. do 2 (split; [done|]). intros _. left. by apply not_truthy.
Qed.
Lemma still_locked c s x s1 : blank lock = false ->
  still (sha_of (c_holder_owner_instance_id c))
    (action_lock_held_by lock (sha_of (c_holder_owner_instance_id c)) (c_holder_lease_epoch c)) s = (x, s1) ->
  s1 = s /\ exists b, x = Ok b /\ (b = false -> orphaned c s s1).
Proof.
  intros NB. unfold still, action_lock_held_by. rewrite NB. destruct (truthy _) eqn:H.
  - unfold on_store, jquery, mbind, M_bind, gets. cbn. intros [= <- <-]. split; [by destruct s|].
    eexists. split; [reflexivity|]. intros E. right. left. intros l L. by rewrite L in E.
  - intros [= <- <-]. split; [done|]. exists false. split; [done|]. intros _. left. by apply not_truthy.
Qed.
Lemma orphaned_from c s s1 s2 s' : tables s1 = tables s -> ticks (q_js s) <= ticks (q_js s1) ->
  ticks (q_js s2) <= ticks (q_js s') -> orphaned c s1 s2 -> orphaned c s s'.
Proof. intros E T1 T2. by apply orphaned_wider; [| | rewrite E | rewrite E]. Qed.
Lemma reset_one_spec c reset s r s' : blank lock = false -> listed c s -> reset_one c reset s = (r, s') -> resets s s'.
Proof.
  intros NB L. unfold reset_one. cbn [reset_orphans]. destruct (negb (in_state CS_INTEGRATING c)); [intros [= _ <-]; reflexivity|].
  intros [(alive & s1 & A & R)|(x & A)]%bind_cases.
  2:{ apply still_alive in A as (T & K & _). by apply rs_same. }
  apply still_alive in A as (T1 & K1 & O1). apply bind_cases in R as [(held & s2 & A & R)|(x & A)].
  2:{ apply still_locked in A as (-> & b & ? & _); done. }
  apply still_locked in A as (-> & b & [= <-] & O2); [|done].
  destruct (alive && held) eqn:AH; [injection R as _ <-; by apply rs_same|].
  assert (O : orphaned c s s1).
  { apply andb_false_iff in AH as [->| ->]; [by apply O1|]. by eapply (orphaned_from c s s1 s1 s1); auto. }
  apply bind_cases in R as [(b & s3 & A & [= _ <-])|(x & A)].
  - eapply rs_transition; [by apply rs_same | done..].
  - eapply rs_transition; [by apply rs_same | done..].
Qed.
Lemma reset_all_spec l reset s r s' : blank lock = false ->
  (forall c, c ∈ l -> candidate_of (c_id c) (tables s) = Some c \/ listed c s /\ exists x, candidate_of (c_id c) (tables s) = Some x) ->
  reset_orphans lock l reset s = (r, s') -> resets s s'.
Proof.
  intros NB. revert reset s. induction l as [|c l IH]; intros reset s L; [intros [= _ <-]; reflexivity|].
  assert (W : forall d, d ∈ c :: l -> listed d s /\ exists x, candidate_of (c_id d) (tables s) = Some x).
  { intros d D. destruct (L d D) as [E|E]; [|done]. split; [|eauto]. intros x X. left. congruence. }
  rewrite reset_cons. intros [(reset' & s1 & A & R)|(x & A)]%bind_cases.
  - apply reset_one_spec in A as A'; [|done | by apply W; left]. etrans; [exact A'|].
    apply (IH _ _) in R; [done|]. intros d D. right. destruct (W d (list_elem_of_further _ _ _ D)) as [W1 (x & X)].
    split; [by eapply listed_resets; eauto|]. destruct A' as (_ & _ & _ & A'). destruct (A' _ _ X) as [?|(_ & _ & now & ?)]; eauto.
  - by apply reset_one_spec in A; [|done | apply W; left].
Qed.
End Lock.

Lemma blank_starts c s : is_ws c = false -> blank (String c s) = false.
Proof.
  intros W. unfold blank, strip. cbn [lstrip]. rewrite W.
  assert (E : string_rev (String c s) = (string_rev s ++ String c EmptyString)%string).
  { rewrite <- (string_rev_involutive s) at 1. by rewrite <- string_rev_snoc, string_rev_involutive. }
  rewrite E. generalize (string_rev s) as t. intros t. induction t as [|x t IH]; cbn [append lstrip]; [by rewrite W|].
  destruct (is_ws x); [exact IH|].
  match goal with |- negb (truthy ?u) = false => destruct u eqn:U end; [|done].
  apply (f_equal string_rev) in U. rewrite string_rev_involutive in U. done.
Qed.
Lemma lock_name_starts r t lock : integration_lock_name r t = Ok lock -> blank lock = false.
Proof.
  unfold integration_lock_name, action_lock_name. cbn. intros E.
  destruct (truthy _); [|done]. injection E as <-. by apply blank_starts.
Qed.
Lemma lock_deleted n t : lock_of n (set jt_locks (List.filter (fun x => negb (is_lock n x))) t) = None.
Proof.
  unfold lock_of, by_id. cbn. induction (jt_locks t) as [|x l IH]; [done|]. cbn [List.filter]. rewrite is_lock_eq.
  destruct (String.eqb (al_lock_name x) n) eqn:E; cbn [negb]; [done|]. cbn [List.find]. by rewrite E.
Qed.

Lemma reclaim_sound n : stepwise sound (reclaim_stale_action_lock n).
Proof.
  unfold reclaim_stale_action_lock, _job_holds_current_lease, jquery, jdelete.
  repeat first [ apply sound_lock_write | apply sw_transaction | apply jnow_iso_sound | solve [auto with stepwise]
    | apply sw_bind; [exact _ | | intros ?] | case_match ].
Qed.

(** Recovery after a crash is conservative: every candidate keeps its row, except one that
    was INTEGRATING whose recorded holder is missing, or was found without the queue's
    lock or without a current lease; that one goes back to PENDING, its holder cleared.
    No candidate becomes INTEGRATED or READY.  The lock is reported reclaimed exactly when
    its row was there and was removed, and only from a holder whose lease was not current. *)
Theorem recovery_conservative repository target s out s' : sok (q_js s) ->
  reconcile_target repository target s = (Ok out, s') ->
  exists lock, integration_lock_name repository target = Ok lock /\
    (forall id c, candidate_of id (tables s) = Some c ->
       candidate_of id (tables s') = Some c \/
       (c_state c = "INTEGRATING" /\ orphaned lock c s s' /\
        exists now, candidate_of id (tables s') = Some (reset_row now c))) /\
    (rc_reclaimed_lock out = true <-> lock_of lock (tables s) <> None /\ lock_of lock (tables s') = None) /\
    (rc_reclaimed_lock out = true -> exists l now, lock_of lock (tables s) = Some l /\
       lease_live (tables s) (al_holder_job_id l) (al_holder_lease_epoch l) now = false).
Proof.
  intros K. unfold reconcile_target. intros R.
  apply M_bind_ok in R as (lock & s0 & E & R). apply lift_ok in E as [E <-]. exists lock. split; [done|].
  apply M_bind_ok in R as (l & s1 & G & R). apply M_bind_ok in R as (reset & s2 & A & R).
  apply M_bind_ok in R as (b & s3 & C & R). apply mret_ok in R as [<- ->]. cbn [rc_reclaimed_lock].
  unfold on_store in G, C. destruct (list_integration_candidates _ _ _ (q_js s)) as [y j] eqn:Li.
  injection G as -> <-. unfold list_integration_candidates, jquery in Li. cbn in Li. injection Li as <- <-.
  destruct (reclaim_stale_action_lock lock (q_js s2)) as [y j] eqn:Rc. injection C as -> <-.
  apply reset_all_spec in A as (T & J & Lk & A); [| by eapply lock_name_starts |].
  2:{ intros c I%sort_by_in. apply list_elem_of_In, filter_In in I as [I _]. left. cbn. unfold candidate_of.
      apply by_id_in; [|done]. unfold sok, jt_ok, candidates_ok in K. rewrite !andb_true_iff in K. tauto. }
  cbn [q_js set] in *. pose proof (reclaim_sound _ _ _ _ Rc) as [Tk _].
  pose proof (lock_exec_candidates (Reclaim lock) (q_js s2)) as Cs. cbn [lock_exec] in Cs. rewrite Rc in Cs. cbn [snd] in Cs.
  apply reclaim_ok in Rc. assert (Lo : lock_of lock (tables s2) = lock_of lock (tables s)) by (unfold lock_of; by rewrite Lk).
  rewrite Lo in Rc. split; [|split].
  - intros id c C. assert (X : candidate_of id (js_t j) = candidate_of id (tables s2)) by (unfold candidate_of; by rewrite Cs).
    destruct (A id c C) as [Y|(I & O & now & Y)]; [left; by rewrite <- Y|]. right. split; [done|].
    split; [|exists now; by rewrite <- Y].
    revert O. by apply orphaned_wider; [| cbn; lia | ..].
  - destruct (lock_of lock (tables s)) as [l|] eqn:L.
    + destruct Rc as (now & _ & -> & Tj). split.
      * intros H. split; [done|]. destruct (lease_live _ _ _ now); [done|]. cbn. rewrite Tj. apply lock_deleted.
      * intros [_ H]. destruct (lease_live _ _ _ now); [|done]. cbn in H. rewrite Tj in H. congruence.
    + destruct Rc as [-> _]. split; [done | by intros [? _]].
  - destruct (lock_of lock (tables s)) as [l|] eqn:L; [|by destruct Rc as [-> _]].
    destruct Rc as (now & _ & -> & _). intros H. exists l, now. split; [done|].
    rewrite (live_jobs _ _ _ _ _ J) in H. by destruct (lease_live _ _ _ now).
Qed.

(** ** The lock of a target's queue *)
(** [process_target] holds the queue's lock, and [integrate_candidate] takes the same lock
    again and releases it when it returns: after the first candidate the lock row of the
    holder is gone, and the rest of the queue is processed without it. *)
Theorem queue_lock_lost_after_candidate id job ep run_tests s o s' :
  integrate_candidate id job ep run_tests s = (Ok o, s') -> io_locked o = false ->
  forall c lock, candidate_of id (tables s) = Some c ->
  integration_lock_name (c_repository c) (c_integration_target c) = Ok lock ->
  forall l, lock_of lock (tables s') = Some l -> held_exactly job ep l = false.
Proof.
  unfold integrate_candidate. intros R H c lock C N. apply M_bind_ok in R as (row & s1 & G & R).
  unfold on_store at 1 in G. cbn in G. injection G as <- <-. rewrite C in R. cbn [some_or] in R.
  apply M_bind_ok in R as (c' & s1 & G & R). apply mret_ok in G as [<- <-].
  rewrite N in R. apply M_bind_ok in R as (l' & s1 & G & R). apply lift_ok in G as [[= <-] <-].
  apply M_bind_ok in R as (got & s1 & _ & R). destruct got; cbn [negb] in R.
  2:{ apply mret_ok in R as [<- _]. done. }
  unfold finally in R. destruct (_integrate_locked _ _ _ _ _ _ s1) as [x s2].
  unfold on_store in R. destruct (release_action_lock lock job ep (q_js s2)) as [[b|e] j] eqn:L; [|done].
  injection R as _ <-. apply release_ok in L. intros l Hl. cbn in Hl.
  destruct (lock_of lock (tables s2)) as [l2|] eqn:L2.
  - destruct (held_exactly job ep l2) eqn:E; destruct L as [_ T]; rewrite T in Hl; [by rewrite lock_deleted in Hl | congruence].
  - destruct L as [_ T]. rewrite T in Hl. congruence.
Qed.

(** ** A candidate left INTEGRATING *)
Lemma authoritative_sok id lock job ep f to rev o clear fields s r s' :
  transition_integration_candidate_authoritative id lock job ep f to rev o clear fields s = (Ok r, s') -> sok s'.
Proof.
  unfold transition_integration_candidate_authoritative. intros R.
  do 2 apply lift_bind_ok in R as (_ & _ & R). do 4 apply when_bind_ok in R as (_ & R). apply unless_bind_ok in R as (_ & R).
  apply M_bind_ok in R as (now & s1 & _ & R). apply jtransaction_ok in R as (s2 & _ & _ & R).
  unfold _job_holds_current_lease, jquery in R. do 4 (apply M_bind_ok in R as (? & ? & _ & R)).
  unfold _transition_candidate_locked, get_integration_candidate, jquery in R. inv_ok R.
  lazymatch goal with H : jupdate _ _ _ _ = _ |- _ => apply jupdate_ok in H as (_ & -> & H); exact H end.
Qed.
Lemma moved_queue t now h c : c_repository (moved t now h [] c) = c_repository c /\
  c_integration_target (moved t now h [] c) = c_integration_target c.
Proof. unfold moved, set_holder. cbn. repeat case_match; done. Qed.
Lemma no_second_integration x c id lock job ep o s r s' :
  candidate_of (c_id x) (tables s) = Some x -> c_state x = "INTEGRATING" ->
  candidate_of id (tables s) = Some c -> c_repository c = c_repository x ->
  c_integration_target c = c_integration_target x ->
  fenced id lock job ep o "READY" INTEGRATING [] s = (r, s') ->
  tables s' = tables s /\ forall d, r <> Ok (Moved d).
Proof.
  intros X Xi C Er Et F. pose proof F as G. apply fenced_cases in G as [(d & now & -> & _ & _ & M)|G]; [|done].
  exfalso. assert (K' : sok (q_js s')).
  { unfold fenced, on_store in F. destruct (transition_integration_candidate_authoritative id lock job ep "READY" INTEGRATING
      (c_revision o) (Some job) false [] (q_js s)) as [[y|e] j] eqn:E;
      [|by repeat case_match]. apply authoritative_sok in E. destruct y; by injection F as _ <-. }
  pose proof (moves_this _ _ _ _ _ _ _ _ _ _ M) as D. pose proof M as (c0 & C0 & S0 & _ & [= ->] & _).
  rewrite C in C0. injection C0 as <-.
  assert (N : c_id x <> id) by (intros E; rewrite E in X; congruence).
  rewrite <- (moves_other _ _ _ _ _ _ _ _ _ _ _ M N) in X.
  apply row_by_id in D as [D1 D2], X as [_ X2]. unfold sok, jt_ok, candidates_ok in K'. rewrite !andb_true_iff in K'.
  destruct (moved_queue INTEGRATING now (mkHolder (Some job) (Some ep) false) c) as [Q1 Q2].
  assert (E : moved INTEGRATING now (mkHolder (Some job) (Some ep) false) [] c = x).
  { eapply (uniq_inj (fun c => (c_repository c, c_integration_target c)));
      [unfold uniq_where in K'; apply K' | | | by rewrite Q1, Q2, Er, Et]; apply filter_In; (split; [done|]);
      unfold integrating; [by rewrite moved_state | by rewrite Xi]. }
  apply N. by rewrite <- E.
Qed.

(** While a candidate of a queue is INTEGRATING, whoever left it there, integrating any
    candidate of that queue changes no candidate: it raises, or returns without effect.
    The next holder does not recover it. *)
Theorem stuck_candidate_blocks_queue x c id job ep run_tests s r s' :
  candidate_of (c_id x) (tables s) = Some x -> c_state x = "INTEGRATING" ->
  candidate_of id (tables s) = Some c -> c_repository c = c_repository x ->
  c_integration_target c = c_integration_target x ->
  integrate_candidate id job ep run_tests s = (r, s') ->
  jt_candidates (tables s') = jt_candidates (tables s).
Proof.
  intros X Xi C Er Et. unfold integrate_candidate. intros R.
  apply bind_cases in R as [(row & s1 & G & R)|(e & G)]; unfold on_store in G; cbn in G; [|done].
  injection G as <- <-. rewrite C in R. cbn [some_or] in R.
  apply bind_cases in R as [(c' & s1 & G & R)|(e & G)]; [|done]. apply mret_ok in G as [<- <-].
  apply bind_cases in R as [(lock & s1 & G & R)|(e & G)]; [apply lift_ok in G as [_ <-]|by injection G as _ <-].
  assert (A : forall y s1, on_store (try_acquire_action_lock lock job ep) (s <| q_js := q_js s |>) = (y, s1) ->
    jt_candidates (tables s1) = jt_candidates (tables s)).
  { intros y s1 G. unfold on_store in G. cbn [q_js set] in G. pose proof (lock_exec_candidates (Acquire lock job ep) (q_js s)) as E.
    cbn [lock_exec] in E. destruct (try_acquire_action_lock lock job ep (q_js s)). injection G as _ <-. exact E. }
  apply bind_cases in R as [(got & s1 & G & R)|(e & G)]; apply A in G; [|exact G]. clear A.
  destruct got; cbn [negb] in R; [|by injection R as _ <-].
  unfold finally in R. destruct (_integrate_locked _ _ _ _ _ _ s1) as [y s2] eqn:I.
  assert (E : jt_candidates (tables s2) = jt_candidates (tables s)).
  { rewrite <- G. unfold _integrate_locked, step in I. unfold candidate_of in X, C. rewrite <- G in X, C.
    pose proof C as C'. apply row_by_id in C' as [C' _]. rewrite C' in I.
    apply bind_cases in I as [(d & s3 & F & I)|(e & F)];
      apply (no_second_integration x c) in F as [T M]; try done; [|by rewrite T].
    rewrite <- T. destruct d as [d| |]; [by destruct (M d) | by injection I as _ <-|].
    unfold lost in I. apply bind_cases in I as [(d & s4 & F & I)|(e & F)]; unfold on_store in F; cbn in F; [|done].
    injection F as _ <-. by injection I as _ <-. }
  unfold on_store in R. pose proof (lock_exec_candidates (Unlock lock job ep) (q_js s2)) as U. cbn [lock_exec] in U.
  destruct (release_action_lock lock job ep (q_js s2)) as [[b|e] j]; injection R as _ <-; cbn in *; congruence.
Qed.
End Recover.
