(* ===== verification/MergeScenario.v ===== *)
(** * MergeScenario: a queue with one candidate, integrated on a sample git.

    The git of the scenario has the target [main] at one commit, the source one commit
    ahead, and merges cleanly; the runner mints authentic evidence under the key. *)
From S2P Require Import Prelude PyVal Json Models Timestamps JobState Concurrency Recovery CoreStore JobRows Worktree Leases ActionLocks JobSteps JobInv LeaseSpec LeaseSession Scenario JobScenario JobFrame LockSpec Canonical Candidates MergeOrder GitClient MergeQueue CandidateSpec Along MergeClose MergeRecover.
#[local] Open Scope string_scope.
#[local] Existing Instance sample_env.

Definition tip_sha : string := "aaaaaaa1".
Definition source_sha : string := "bbbbbbb2".
Definition merged_sha : string := "ccccccc3".
(** [git -C dir ARGS], the directory left out. *)
Definition args_of (cmd : argv) : list string :=
  match cmd with _ :: _ :: _ :: args => args | _ => [] end.
Definition sample_runner (log : list argv) (cmd : argv) : Z * string * string :=
  match args_of cmd with
  | ["rev-parse"; "HEAD"] => (0%Z, merged_sha, "")
  | ["rev-parse"; "--verify"; ref] => if String.eqb ref "main^{commit}" then (0%Z, tip_sha, "") else (1%Z, "", "")
  | ["merge-base"; _; _] => (0%Z, tip_sha, "")
  | ["diff"; _; _; _] => (0%Z, "argent_core/models.py", "")
  | _ => (0%Z, "", "")
  end.
#[export] Instance sample_git : GitEnv := {|
  git_runner := sample_runner;
  os_abspath p := p;
  os_realpath p := p;
  os_isdir _ _ := true;
  allowed_root := None
|}.
Definition sample_tests (c : Candidate) (path : string) (plan : string) (changed : list string)
  : qcmd (string + pyval) := fun s =>
  match make_integration_evidence "DONE" plan "s" "t" "" 1 (Some "key") with
  | Ok e => (Ok (inr e), s)
  | Err e => (Err e, s)
  end.
#[export] Instance sample_queue_env : QueueEnv := {|
  Plan := string;
  plan_hash p := Some p;
  plan_builder _ _ _ s := (Ok (inr "plan-1"), s);
  test_runner := sample_tests;
  mac_key := Some "key";
  worktrees_root := "/w"
|}.

(** A second job of the store, DONE with its heads recorded. *)
Definition source_id : string := "supervisor:src".
Definition as_source (j : Job) : Job :=
  j <| j_id := source_id |> <| j_terminal := Some "DONE" |> <| j_status := "TERMINAL" |>
    <| j_primary_state := "DONE" |> <| j_next_action := "NONE" |> <| j_owner_instance_id := None |> <| j_lease_expires_at := None |>
    <| j_writer := mkWriter (Some "/r/wt") (Some "/r") (Some tip_sha) (Some "feature") None None 0 None
                     (Some source_sha) (Some source_sha) |>.
Definition with_source : JSt :=
  claimed_st <| js_t ::= set jt_jobs (fun l => match l with j :: _ => (l ++ [as_source j])%list | [] => l end) |>.
Definition queue_st : QSt :=
  mkQSt (snd (create_integration_candidate "/r" "main" source_id
           (mkNewCandidate (Some tip_sha) (Some source_sha) (Some "feature") None 0 None) with_source)) [].
Definition cand_id : string := candidate_id_for "/r" "main" source_id.
#[local] Notation done_run := (process_target "/r" "main" job_id0 1 true queue_st).
Example queue_integrates : fst done_run =
  Ok (mkProcessOutcome [cand_id] [] [] [] [] false).
Proof. vm_compute. reflexivity. Qed.
Example queue_commands : map args_of (q_git (snd done_run)) =
  [["rev-parse"; "--verify"; "main^{commit}"]; ["merge-base"; tip_sha; source_sha];
   ["merge-base"; "--is-ancestor"; tip_sha; tip_sha]; ["merge-base"; "--is-ancestor"; tip_sha; source_sha];
   ["worktree"; "remove"; "--force"; "/w/integration-fd2f67dfb021"];
   ["rev-parse"; "--verify"; "refs/heads/integration/main"];
   ["worktree"; "add"; "-b"; "integration/main"; "/w/integration-fd2f67dfb021"; tip_sha];
   ["merge"; "--no-ff"; "--no-edit"; "-m"; ("integrate " ++ cand_id)%string; source_sha];
   ["rev-parse"; "HEAD"]; ["diff"; "--name-only"; tip_sha; "HEAD"]].
Proof. vm_compute. reflexivity. Qed.
Lemma row_integrated {st : QSt} {i} : c_state <$> candidate_of i (js_t (q_js st)) = Some "INTEGRATED" -> integrated i st.
Proof. intros (c & C & E)%fmap_Some. by exists c. Qed.
Lemma row_not_integrated {st : QSt} {i x} : c_state <$> candidate_of i (js_t (q_js st)) = Some x ->
  x <> "INTEGRATED" -> ~ integrated i st.
Proof. intros E N (c & C & I). rewrite C in E. injection E as E. congruence. Qed.

(** The callables of the scenario change nothing. *)
Lemma builder_quiet c changed base s : snd (plan_builder c changed base s) = s.
Proof. reflexivity. Qed.
Lemma runner_quiet c path plan changed s : snd (test_runner c path plan changed s) = s.
Proof.
  change (snd (sample_tests c path plan changed s) = s). unfold sample_tests.
  by destruct (make_integration_evidence "DONE" plan "s" "t" "" 1 (Some "key")).
Qed.


(** A crash after the first transition: the holder's job gave the lease back. *)
Definition crashed_st : QSt :=
  let s := snd (try_acquire_action_lock "repo:/r:integrate:main" job_id0 1 (q_js queue_st)) in
  let s := snd (transition_integration_candidate cand_id "PENDING" "READY" 0 nobody [] s) in
  let s := snd (transition_integration_candidate_authoritative cand_id "repo:/r:integrate:main" job_id0 1
                  "READY" "INTEGRATING" 1 (Some job_id0) false [] s) in
  let s := snd (create_integration_candidate "/r" "main" job_id0
                  (mkNewCandidate (Some tip_sha) (Some source_sha) (Some "other") None 0 None) s) in
  mkQSt (snd (release_lease job_id0 "host-a" 1 s)) [].
Definition second_id : string := candidate_id_for "/r" "main" job_id0.
#[local] Notation recovered := (reconcile_target "/r" "main" crashed_st).
Lemma crashed_sok : sok (q_js crashed_st).
Proof. vm_compute. reflexivity. Qed.
Lemma recovery_conservative_witness : exists lock,
  fst recovered = Ok (mkReconcileOutcome [cand_id] true) /\
  integration_lock_name "/r" "main" = Ok lock /\
  lock_of lock (js_t (q_js crashed_st)) <> None /\ lock_of lock (js_t (q_js (snd recovered))) = None.
Proof.
  assert (E : fst recovered = Ok (mkReconcileOutcome [cand_id] true)) by (vm_compute; reflexivity).
  destruct (recovery_conservative "/r" "main" crashed_st _ _ crashed_sok (LockSpec.outcome _ _ E)) as (lock & L & _ & R & _).
  exists lock. split; [exact E|]. split; [exact L|]. by apply R.
Defined.
(** The next holder does not get on with the second candidate either. *)
Definition next_holder : QSt := crashed_st <| q_js ::= fun s => snd (claim_job job_id0 "host-b" 3600 s) |>.
Definition stuck_row : Candidate := default (mkCandidate "" "" "" "" "" 0 0 None None None None None None None None None 0 None 0 None None "" "")
  (candidate_of cand_id (js_t (q_js next_holder))).
Definition second_row : Candidate := default stuck_row (candidate_of second_id (js_t (q_js next_holder))).
#[local] Notation second_run := (integrate_candidate second_id job_id0 2 true next_holder).
Lemma stuck_candidate_blocks_queue_witness :
  jt_candidates (js_t (q_js (snd second_run))) = jt_candidates (js_t (q_js next_holder)).
Proof.
  apply (stuck_candidate_blocks_queue stuck_row second_row second_id job_id0 2 true next_holder (fst second_run));
    [vm_compute; reflexivity.. | apply surjective_pairing].
Defined.
(** With the second candidate READY, the next holder's run ends in an uncaught error. *)
Example next_holder_raises :
  fst (process_target "/r" "main" job_id0 2 true next_holder) = Err IntegrityError.
Proof. vm_compute. reflexivity. Qed.
Lemma queue_lock_lost_after_candidate_witness :
  match lock_of "repo:/r:integrate:main" (js_t (q_js (snd (integrate_candidate cand_id job_id0 1 true queue_st)))) with
  | Some l => held_exactly job_id0 1 l
  | None => false
  end = false.
Proof.
  assert (E : exists o, fst (integrate_candidate cand_id job_id0 1 true queue_st) = Ok o /\ io_locked o = false)
    by (eexists; split; [vm_compute; reflexivity | reflexivity]).
  destruct E as (o & E & L).
  assert (C : exists c, candidate_of cand_id (js_t (q_js queue_st)) = Some c /\
    integration_lock_name (c_repository c) (c_integration_target c) = Ok "repo:/r:integrate:main")
    by (eexists; split; [vm_compute; reflexivity | vm_compute; reflexivity]).
  destruct C as (c & C & N).
  pose proof (queue_lock_lost_after_candidate cand_id job_id0 1 true queue_st o _ (LockSpec.outcome _ _ E) L c _ C N) as H.
  destruct (lock_of _ _) as [l|]; [exact (H l eq_refl) | reflexivity].
Defined.
