(* ===== verification/Requests.v ===== *)
(** * Requests: the rows of the external actions
    (src/argent_core/external_action_broker.py, taxonomy, states and edge map;
    src/argent_core/store.py, [create_external_action_request] to
    [list_external_action_audit]).

    A keyword argument of a transition is an [rassign]: a column of the writable list
    with its value, or a name outside the list, which is refused. *)
From S2P Require Import Prelude PyVal Json Models Canonical JobState CoreStore JobRows Worktree Leases ActionLocks Candidates Outbox.
#[local] Open Scope string_scope.

Definition REQUEST_ID_PREFIX : string := "xr_".
Definition REQUEST_ID_HEX : nat := 24.
Definition MAX_REASON_CODE_LEN : nat := 64.
Definition MAX_AUDIT_DETAIL_LEN : nat := 512.

(** ** Taxonomy *)
Inductive ActionTaxonomy : Type := AT_READ | AT_BOUNDED_WRITE | AT_SENSITIVE.
#[export] Instance ActionTaxonomy_eq_dec : EqDecision ActionTaxonomy.
Proof. solve_decision. Defined.
Definition ActionTaxonomy_value (x : ActionTaxonomy) : string :=
  match x with AT_READ => "READ" | AT_BOUNDED_WRITE => "BOUNDED_WRITE" | AT_SENSITIVE => "SENSITIVE" end.
Definition ACTIONS : list (string * ActionTaxonomy) :=
  [("read_repository", AT_READ); ("read_ref", AT_READ); ("read_pull_request", AT_READ); ("read_checks", AT_READ);
   ("push_feature_branch", AT_BOUNDED_WRITE); ("create_pull_request", AT_BOUNDED_WRITE);
   ("update_pull_request", AT_BOUNDED_WRITE);
   ("merge_pull_request", AT_SENSITIVE); ("create_release", AT_SENSITIVE); ("deploy_production", AT_SENSITIVE)].
Definition MUTATION_ACTIONS : list string :=
  ["push_feature_branch"; "create_pull_request"; "update_pull_request";
   "merge_pull_request"; "create_release"; "deploy_production"].
Definition READ_ACTIONS : list string := ["read_repository"; "read_ref"; "read_pull_request"; "read_checks"].
Definition action_taxonomy (action : string) : option ActionTaxonomy :=
  snd <$> List.find (fun p => String.eqb (fst p) action) ACTIONS.

(** ** Life cycle *)
Inductive RequestState : Type :=
| RS_PENDING | RS_AUTHORIZED | RS_EXECUTING | RS_WAITING_EXTERNAL | RS_SUCCEEDED | RS_FAILED | RS_BLOCKED | RS_DENIED.
#[export] Instance RequestState_eq_dec : EqDecision RequestState.
Proof. solve_decision. Defined.
Definition RequestState_value (x : RequestState) : string :=
  match x with
  | RS_PENDING => "PENDING" | RS_AUTHORIZED => "AUTHORIZED" | RS_EXECUTING => "EXECUTING"
  | RS_WAITING_EXTERNAL => "WAITING_EXTERNAL" | RS_SUCCEEDED => "SUCCEEDED" | RS_FAILED => "FAILED"
  | RS_BLOCKED => "BLOCKED" | RS_DENIED => "DENIED"
  end.
#[export] Program Instance PyEnum_RequestState : PyEnum RequestState := {|
  value := RequestState_value;
  members := [RS_PENDING; RS_AUTHORIZED; RS_EXECUTING; RS_WAITING_EXTERNAL; RS_SUCCEEDED; RS_FAILED; RS_BLOCKED; RS_DENIED]
|}.
Next Obligation. by destruct x; cbn; tauto. Qed.
Next Obligation. by destruct x, y. Qed.
Definition REQUEST_STATE_VALUES : list string := map value (members (A := RequestState)).
Definition TERMINAL_REQUEST_STATES : list RequestState := [RS_SUCCEEDED; RS_FAILED; RS_BLOCKED; RS_DENIED].
(** [state in TERMINAL_REQUEST_STATES] of the text of a row. *)
Definition is_terminal_state (state : string) : bool := str_in state (map RequestState_value TERMINAL_REQUEST_STATES).
Definition RETRYABLE_STATES : list RequestState := [RS_EXECUTING; RS_WAITING_EXTERNAL].
Definition REQUEST_TRANSITIONS (state : RequestState) : list RequestState :=
  match state with
  | RS_PENDING => [RS_AUTHORIZED; RS_DENIED; RS_BLOCKED]
  | RS_AUTHORIZED => [RS_EXECUTING; RS_DENIED; RS_BLOCKED]
  | RS_EXECUTING => [RS_WAITING_EXTERNAL; RS_SUCCEEDED; RS_FAILED; RS_BLOCKED]
  | RS_WAITING_EXTERNAL => [RS_EXECUTING; RS_SUCCEEDED; RS_FAILED; RS_BLOCKED]
  | RS_SUCCEEDED | RS_FAILED | RS_BLOCKED | RS_DENIED => []
  end.
(** [to_state in REQUEST_TRANSITIONS.get(from_state, frozenset())]. *)
Definition edge (from_state to_state : string) : bool :=
  match of_value (A := RequestState) from_state with
  | Some f => str_in to_state (map RequestState_value (REQUEST_TRANSITIONS f))
  | None => false
  end.

(** ** The writable columns *)
Inductive rassign : Type :=
| R_authorization_state (v : option string)
| R_provider_state (v : option string)
| R_provider_object_id (v : option string)
| R_attempt_count (v : Z)
| R_next_attempt_at (v : option string)
| R_last_failure_class (v : option string)
| R_last_error_code (v : option string)
| R_action_lock_name (v : option string)
| R_unlisted (key : string).
Definition rwritable (a : rassign) : bool := match a with R_unlisted _ => false | _ => true end.
Definition rapply (a : rassign) (r : Request) : Request :=
  match a with
  | R_authorization_state v => r <| rq_authorization_state := v |>
  | R_provider_state v => r <| rq_provider_state := v |>
  | R_provider_object_id v => r <| rq_provider_object_id := v |>
  | R_attempt_count v => r <| rq_attempt_count := v |>
  | R_next_attempt_at v => r <| rq_next_attempt_at := v |>
  | R_last_failure_class v => r <| rq_last_failure_class := v |>
  | R_last_error_code v => r <| rq_last_error_code := v |>
  | R_action_lock_name v => r <| rq_action_lock_name := v |>
  | R_unlisted _ => r
  end.
Definition rapply_all (l : list rassign) (r : Request) : Request := fold_left (fun r a => rapply a r) l r.

Definition is_request (request_id : string) (r : Request) : bool := String.eqb (rq_request_id r) request_id.
Definition request_of (request_id : string) (t : JT) : option Request := by_id rq_request_id request_id (jt_requests t).
Definition set_request_holder (h : Holder) (r : Request) : Request :=
  if ho_clear h then r <| rq_holder_owner_instance_id := None |> <| rq_holder_lease_epoch := 0%Z |>
  else
    let r := match ho_owner_instance_id h with Some o => r <| rq_holder_owner_instance_id := Some o |> | None => r end in
    match ho_lease_epoch h with Some e => r <| rq_holder_lease_epoch := e |> | None => r end.
(** The row after a transition: the columns in the order of the UPDATE. *)
Definition settled (to_state now_iso : string) (h : Holder) (fields : list rassign) (r : Request) : Request :=
  rapply_all fields (set_request_holder h
    (r <| rq_state := to_state |> <| rq_revision ::= Z.succ |> <| rq_updated_at := now_iso |>)).

(** The arguments [create_external_action_request] is called with. *)
Record NewRequest : Type := mkNewRequest {
  nr_request_id : string;
  nr_provider : string;
  nr_account : string;
  nr_action : string;
  nr_policy_class : string;
  nr_repository : string;
  nr_resource_ref : string;
  nr_source_job_id : string;
  nr_source_candidate_id : string;
  nr_requested_scope : string;
  nr_parameters : string;
  nr_expected_preconditions : option string;
  nr_idempotency_key : string;
  nr_provenance_version : Z;
  nr_provenance_hash : string;
  nr_state : string;
  nr_expires_at : option string
}.
Definition request_row (n : NewRequest) (now_iso : string) : Request :=
  mkRequest (nr_request_id n) (nr_provider n) (nr_account n) (nr_action n) (nr_policy_class n) (nr_repository n)
    (nr_resource_ref n) (nr_source_job_id n) (nr_source_candidate_id n) (nr_requested_scope n) (nr_parameters n)
    (nr_expected_preconditions n) (nr_idempotency_key n) (nr_provenance_version n) (nr_provenance_hash n)
    (nr_state n) None 0 None 0 None None None 0 None None None (nr_expires_at n) now_iso now_iso.
Definition _external_request_equivalent (existing : Request) (n : NewRequest) : bool :=
  String.eqb (rq_provider existing) (nr_provider n) && String.eqb (rq_account existing) (nr_account n)
  && String.eqb (rq_action existing) (nr_action n) && String.eqb (rq_repository existing) (nr_repository n)
  && String.eqb (rq_resource_ref existing) (nr_resource_ref n)
  && String.eqb (rq_requested_scope existing) (nr_requested_scope n)
  && String.eqb (rq_parameters existing) (nr_parameters n).

Section Requests.
Context {env : Env}.

Definition _validate_request_state (state : string) : res exc unit :=
  res_unless (str_in state REQUEST_STATE_VALUES) ValueError.
Definition get_external_action_request (request_id : string) : jcmd (option Request) :=
  jquery (request_of request_id).
Definition list_external_action_requests (state repository source_job_id : option string) : jcmd (list Request) :=
  _ ← lift (match state with Some s => _validate_request_state s | None => Ok tt end);
  jquery (fun t => sort_by (fun a b => Timestamps.str_ltb (rq_created_at a) (rq_created_at b)
                                       || (String.eqb (rq_created_at a) (rq_created_at b)
                                           && String.leb (rq_request_id a) (rq_request_id b)))
    (List.filter (fun r => opt_is state (rq_state r) && opt_is repository (rq_repository r)
                           && opt_is source_job_id (rq_source_job_id r)) (jt_requests t))).

(** The row and whether it was created. *)
Definition create_external_action_request (n : NewRequest) : jcmd (option Request * bool) :=
  _ ← raise_unless (String.prefix REQUEST_ID_PREFIX (nr_request_id n)) ValueError;
  _ ← lift (_validate_request_state (nr_state n));
  _ ← raise_unless (Nat.eqb (String.length (nr_provenance_hash n)) 64) ValueError;
  now_iso ← jnow_iso;
  jtransaction (
    row ← get_external_action_request (nr_request_id n);
    match row with
    | Some r => mret (Some r, false)
    | None =>
        existing ← jquery (fun t => by_id rq_idempotency_key (nr_idempotency_key n) (jt_requests t));
        match existing with
        | Some r =>
            _ ← raise_unless (_external_request_equivalent r n) IdempotencyConflictError;
            mret (Some r, false)
        | None =>
            _ ← jinsert jt_requests (request_row n now_iso);
            row ← get_external_action_request (nr_request_id n); mret (row, true)
        end
    end).

Definition _transition_request_locked (request_id from_state to_state : string) (expected_revision : Z)
    (now_iso : string) (h : Holder) (fields : list rassign) : jcmd (option Request) :=
  row ← get_external_action_request request_id;
  r ← some_or row NotFound;
  _ ← raise_unless (String.eqb (rq_state r) from_state) RequestRevisionError;
  _ ← raise_unless (rq_revision r =? expected_revision)%Z RequestRevisionError;
  _ ← raise_unless (edge (rq_state r) to_state) IllegalRequestTransition;
  _ ← jupdate jt_requests (is_request request_id) (settled to_state now_iso h fields);
  get_external_action_request request_id.
Definition transition_external_action_request (request_id from_state to_state : string)
    (expected_revision : Z) (h : Holder) (fields : list rassign) : jcmd (option Request) :=
  _ ← lift (_validate_request_state from_state);
  _ ← lift (_validate_request_state to_state);
  _ ← raise_when (expected_revision <? 0)%Z ValueError;
  _ ← raise_unless (forallb rwritable fields) ValueError;
  now_iso ← jnow_iso;
  jtransaction (_transition_request_locked request_id from_state to_state expected_revision now_iso h fields).
Definition transition_external_action_request_authoritative (request_id lock_name holder_job_id : string)
    (holder_lease_epoch : Z) (from_state to_state : string) (expected_revision : Z)
    (holder_owner_instance_id : option string) (clear_holder : bool) (fields : list rassign)
  : jcmd (option Request) :=
  _ ← lift (_validate_request_state from_state);
  _ ← lift (_validate_request_state to_state);
  _ ← raise_when (expected_revision <? 0)%Z ValueError;
  _ ← raise_when (blank lock_name) ValueError;
  _ ← raise_when (blank holder_job_id) ValueError;
  _ ← raise_when (holder_lease_epoch <? 1)%Z ValueError;
  _ ← raise_unless (forallb rwritable fields) ValueError;
  now_iso ← jnow_iso;
  jtransaction (
    mine ← _job_holds_current_lease holder_job_id holder_lease_epoch now_iso;
    _ ← raise_unless mine LeaseFencedError;
    held ← jquery (fun t => match lock_of lock_name t with
                            | Some l => held_exactly holder_job_id holder_lease_epoch l
                            | None => false
                            end);
    _ ← raise_unless held LeaseFencedError;
    _transition_request_locked request_id from_state to_state expected_revision now_iso
      (mkHolder holder_owner_instance_id (Some holder_lease_epoch) clear_holder) fields).

(** No transaction: one statement after the reads, in autocommit mode. *)
Definition append_external_action_audit (request_id event_type : string)
    (failure_class reason_code detail : option string) : jcmd unit :=
  _ ← raise_unless (str_in event_type ALL_AUDIT_EVENT_TYPES) ValueError;
  _ ← raise_unless (opt_in failure_class ALL_FAILURE_CLASSES) ValueError;
  row ← get_external_action_request request_id;
  _ ← raise_unless (is_some row) NotFound;
  now_iso ← jnow_iso;
  u ← on_core uuid;
  jinsert jt_audit (mkAuditRow ("xa_" ++ hex_of_uuid u) request_id event_type failure_class
    (Some (String.substring 0 MAX_REASON_CODE_LEN (default EmptyString reason_code)))
    (Some (String.substring 0 MAX_AUDIT_DETAIL_LEN (default EmptyString detail))) now_iso).
Definition list_external_action_audit (request_id : string) : jcmd (list AuditRow) :=
  jquery (fun t => sort_by (fun a b => Timestamps.str_ltb (xa_created_at a) (xa_created_at b)
                                       || (String.eqb (xa_created_at a) (xa_created_at b)
                                           && String.leb (xa_audit_id a) (xa_audit_id b)))
    (List.filter (fun a => String.eqb (xa_request_id a) request_id) (jt_audit t))).
End Requests.
