(* ===== verification/Broker.v ===== *)
(** * Broker: the external action broker
    (src/argent_core/external_action_broker.py; the result types of
    src/argent_core/external_provider_adapter.py; [next_check_delay_seconds] of
    src/argent_core/external_wait.py).

    The state pairs the store with the calls made to the provider so far and the
    readings of the broker's own clock.  The adapter is outside: [provider] answers a
    call given the calls before it and may change the store meanwhile, as other
    processes do while a request is on the network.  What it raises is a
    [provider_error]; a value that is no [ProviderResult] is [Other_value]. *)
From S2P Require Import Prelude PyVal Json Models Timestamps Trust Gates JobState Concurrency CoreStore Dispatch JobRows Worktree Leases ActionLocks Canonical Candidates IsoParse Requests Redact.
#[local] Open Scope string_scope.

Definition MAX_PROVIDER_LEN : nat := 64.
Definition MAX_ACCOUNT_LEN : nat := 128.
Definition MAX_RESOURCE_REF_LEN : nat := 256.
Definition MAX_SCOPE_LEN : nat := 256.
Definition MAX_PARAMETERS_JSON_BYTES : N := 64 * 1024.
Definition MAX_PRECONDITIONS_JSON_BYTES : N := 64 * 1024.
Definition MAX_PROVIDER_STATE_JSON_BYTES : N := 64 * 1024.
Definition MAX_RETRY_ATTEMPTS : Z := 8.
Definition MAX_EXPIRY_TTL_SECONDS : Z := 7 * 24 * 3600.
Definition PROVENANCE_VERSION : Z := 1.

(** ** Policy decisions and codes *)
Inductive PolicyDecision : Type := ALLOW_AUTONOMOUS | OWNER_GATE_REQUIRED | DENY | DEFER.
#[export] Instance PolicyDecision_eq_dec : EqDecision PolicyDecision.
Proof. solve_decision. Defined.
Definition PolicyDecision_value (x : PolicyDecision) : string :=
  match x with
  | ALLOW_AUTONOMOUS => "ALLOW_AUTONOMOUS" | OWNER_GATE_REQUIRED => "OWNER_GATE_REQUIRED"
  | DENY => "DENY" | DEFER => "DEFER"
  end.
Definition RC_ALLOWED : string := "ALLOWED".
Definition RC_UNKNOWN_PROVIDER : string := "UNKNOWN_PROVIDER".
Definition RC_UNKNOWN_ACTION : string := "UNKNOWN_ACTION".
Definition RC_UNKNOWN_REPO : string := "UNKNOWN_REPO".
Definition RC_UNKNOWN_ACCOUNT : string := "UNKNOWN_ACCOUNT".
Definition RC_NOT_ALLOWLISTED : string := "NOT_ALLOWLISTED".
Definition RC_CLASS_NOT_PERMITTED : string := "CLASS_NOT_PERMITTED".
Definition RC_SENSITIVE : string := "SENSITIVE_ACTION".
Definition RC_PROTECTED_REF : string := "PROTECTED_REF".
Definition RC_BRANCH_NOT_IN_NAMESPACE : string := "BRANCH_NOT_IN_NAMESPACE".
Definition RC_EXPIRED : string := "EXPIRED".
Definition RC_NOT_AUTONOMOUS : string := "NOT_AUTONOMOUS".

Definition FAILURE_POLICY_DENIED : string := "POLICY_DENIED".
Definition FAILURE_RATE_LIMIT : string := "RATE_LIMIT".
Definition FAILURE_PROVIDER_UNAVAILABLE : string := "PROVIDER_UNAVAILABLE".
Definition FAILURE_PRECONDITION_FAILED : string := "PRECONDITION_FAILED".
Definition FAILURE_CONFLICT : string := "CONFLICT".
Definition FAILURE_CREDENTIAL : string := "CREDENTIAL".
Definition FAILURE_REMOTE_VALIDATION : string := "REMOTE_VALIDATION".
Definition FAILURE_LOCAL_CODE_ERROR : string := "LOCAL_CODE_ERROR".
Definition FAILURE_UNKNOWN : string := "UNKNOWN".
Definition AUDIT_REQUESTED : string := "REQUESTED".
Definition AUDIT_AUTHORIZED : string := "AUTHORIZED".
Definition AUDIT_EXECUTED : string := "EXECUTED".
Definition AUDIT_RECONCILED : string := "RECONCILED".

(** ** What a provider answers *)
Definition OUTCOME_SUCCESS : string := "success".
Definition OUTCOME_WAITING : string := "waiting".
Definition OUTCOME_RATE_LIMITED : string := "rate_limited".
Definition OUTCOME_UNAVAILABLE : string := "unavailable".
Definition OUTCOME_CONFLICT : string := "conflict".
Definition OUTCOME_VALIDATION_FAILED : string := "validation_failed".
Definition OUTCOME_CREDENTIAL_ERROR : string := "credential_error".
Definition ALLOWED_OUTCOMES : list string :=
  [OUTCOME_SUCCESS; OUTCOME_WAITING; OUTCOME_RATE_LIMITED; OUTCOME_UNAVAILABLE; OUTCOME_CONFLICT;
   OUTCOME_VALIDATION_FAILED; OUTCOME_CREDENTIAL_ERROR].
Definition _OUTCOME_TO_FAILURE_CLASS (outcome : string) : option string :=
  if String.eqb outcome OUTCOME_RATE_LIMITED then Some FAILURE_RATE_LIMIT
  else if String.eqb outcome OUTCOME_UNAVAILABLE then Some FAILURE_PROVIDER_UNAVAILABLE
  else if String.eqb outcome OUTCOME_CONFLICT then Some FAILURE_CONFLICT
  else if String.eqb outcome OUTCOME_VALIDATION_FAILED then Some FAILURE_REMOTE_VALIDATION
  else if String.eqb outcome OUTCOME_CREDENTIAL_ERROR then Some FAILURE_CREDENTIAL
  else None.

Record ProviderResult : Type := mkProviderResult {
  pv_outcome : string;
  pv_object_id : option string;
  pv_state : option pyval;
  pv_detail : pyval
}.
Record ProviderObservation : Type := mkProviderObservation {
  ob_found : bool;
  ob_object_id : option string;
  ob_state : option pyval
}.
Inductive provider_error : Type :=
| ProviderWriteDisabled | ProviderRateLimited | ProviderConflict | ProviderCredentialError
| ProviderValidationError | ProviderUnavailable
| OtherException (type_name : string).
Inductive answer (A : Type) : Type :=
| Result (r : A)
| Other_value
| Raised (e : provider_error).
Arguments Result {A} r.
Arguments Other_value {A}.
Arguments Raised {A} e.

(** A request as the adapter sees it: [from_row]. *)
Record ExternalActionRequest : Type := mkExternalActionRequest {
  ear_row : Request;
  ear_parameters : pyval;
  ear_expected_preconditions : pyval;
  ear_provider_state : pyval
}.
Record pcall : Type := mkCall { pc_method : string; pc_request : ExternalActionRequest }.

(** ** Trusted configuration *)
Record AllowlistEntry : Type := mkAllowlistEntry {
  ae_provider : string;
  ae_account : string;
  ae_repositories : list string;
  ae_permitted_actions : list string;
  ae_branch_namespaces : list string;
  ae_pr_targets : list string
}.
Definition ExternalActionAllowlist : Type := list AllowlistEntry.
Definition entry_for (provider account : string) (entries : ExternalActionAllowlist) : option AllowlistEntry :=
  List.find (fun e => String.eqb (ae_provider e) provider && String.eqb (ae_account e) account) entries.
Definition permits (provider account repository action : string) (entries : ExternalActionAllowlist) : bool :=
  match entry_for provider account entries with
  | None => false
  | Some e => str_in repository (ae_repositories e) && str_in action (ae_permitted_actions e)
  end.
Record StandingPolicy : Type := mkStandingPolicy {
  autonomous_actions : list string;
  owner_gate_actions : list string
}.

Class BrokerEnv := {
  provider_name : string;
  write_enabled : bool;
  provider : list pcall -> pcall -> JSt -> answer ProviderResult * JSt;
  provider_observe : list pcall -> pcall -> JSt -> answer ProviderObservation * JSt;
  allowlist : ExternalActionAllowlist;
  standing_policy : StandingPolicy;
  broker_mac_key : string;
  broker_clock : nat -> datetime
}.

(** ** Branch safety *)
Definition PROTECTED_REF_EXACT : list string := ["main"; "master"; "stable"].
Definition PROTECTED_REF_PREFIXES : list string := ["release"; "production"].
Definition AUTONOMOUS_BRANCH_PREFIX : string := "argent/".
Definition drop_chars (n : nat) (s : string) : string := String.substring n (String.length s) s.
Definition _strip_ref_prefix (ref : string) : string :=
  if String.prefix "refs/heads/" ref then drop_chars 11 ref
  else if String.prefix "refs/tags/" ref then drop_chars 10 ref
  else ref.
Definition is_protected_ref (ref : pyval) : bool :=
  match ref with
  | PStr ref =>
      let name := _strip_ref_prefix ref in
      str_in name PROTECTED_REF_EXACT
      || existsb (fun p => String.prefix p (lower name)) PROTECTED_REF_PREFIXES
  | _ => true
  end.
Definition autonomous_branch_ok (branch : pyval) (task_id : string) (namespaces : list string) : bool :=
  match branch with
  | PStr b =>
      match validate_branch_identity (Some b) with
      | Err _ => false
      | Ok _ =>
          negb (is_protected_ref branch)
          && existsb (fun ns => truthy ns && String.prefix ns b
                                && String.prefix (task_id ++ "-") (drop_chars (String.length ns) b)) namespaces
      end
  | _ => false
  end.

(** ** JSON columns and times *)
Definition _bounded_json (value : pyval) (max_bytes : N) : res exc string :=
  raw ← json_dumps_default_str value;
  _ ← res_when (max_bytes <? N.of_nat (String.length (utf8 raw)))%N ValueError;
  Ok raw.
Definition _decode_json_field (value : option string) (dflt : pyval) : pyval :=
  match value with
  | None => dflt
  | Some s => match json_loads s with Ok v => v | Err _ => dflt end
  end.
Definition parameters_of (r : Request) : pyval := _decode_json_field (Some (rq_parameters r)) (PDict []).
Definition preconditions_of (r : Request) : pyval := _decode_json_field (rq_expected_preconditions r) (PDict []).
Definition from_row (r : Request) : ExternalActionRequest :=
  mkExternalActionRequest r (parameters_of r) (preconditions_of r) (_decode_json_field (rq_provider_state r) PNone).
Definition _iso_add (iso : string) (seconds : Z) : res exc string :=
  dt ← fromisoformat iso; format_after dt seconds.
Definition BACKOFF_MINUTES : list Z := [1; 2; 5; 10; 30]%Z.
(** Without jitter. *)
Definition next_check_delay_seconds (attempt : Z) : Z :=
  let n := Z.max 1 attempt in
  Z.max 1 (nth (Z.to_nat (Z.min (n - 1) 4)) BACKOFF_MINUTES 30%Z * 60).
(** [value.get(key, default)] of a decoded column. *)
Definition py_get (value : pyval) (key : string) (dflt : pyval) : res exc pyval :=
  match value with PDict d => Ok (default dflt (dget d key)) | _ => Err AttributeError end.

(** ** Identity and provenance *)
Definition request_id_for (provider account repository action idempotency_key : string) : string :=
  REQUEST_ID_PREFIX ++ String.substring 0 REQUEST_ID_HEX
    (sha256_hex (utf8 (provider ++ NUL ++ account ++ NUL ++ repository ++ NUL ++ action ++ NUL ++ idempotency_key))).
Definition compute_provenance_mac (provenance : pydict) (key : string) : res exc string :=
  payload ← canonical_bytes (PDict (List.filter (fun kv => negb (key_eqb (fst kv) (KStr "provenance_hash"))) provenance));
  Ok (hmac_sha256 key payload).
Definition PROVENANCE_FIELDS : list string :=
  ["version"; "source_job_id"; "source_candidate_id"; "repository"; "source_head"; "integrated_head"; "branch"; "scope"].
(** [value == PROVENANCE_VERSION]. *)
Definition is_version (v : pyval) : bool :=
  match v with
  | PInt z => (z =? PROVENANCE_VERSION)%Z
  | PBool b => b
  | PFloat (FDec false m e) => N.eqb m 1 && (e =? 0)%Z
  | _ => false
  end.
Definition sha_like_val (v : pyval) : bool := match v with PStr s => is_sha_like s | _ => false end.
Definition opt_sha (o : option string) : bool := is_sha_like (default EmptyString o).
(** [a or b] on optional texts. *)
Definition or_text (a b : option string) : option string := if otruthy a then a else b.

(** ** Parameters *)
(** [validate_branch_identity(value)] of any object. *)
Definition branch_identity_val (v : pyval) : res exc unit :=
  match v with
  | PNone => Ok tt
  | PStr s => _ ← validate_branch_identity (Some s); Ok tt
  | _ => Err ValueError
  end.
Definition require (params : pydict) (keys : list string) : res exc unit :=
  res_for (fun k => res_unless (dhas params k) ValueError) keys.
Definition checked_key (kv : pykey * pyval) : res exc unit :=
  match fst kv with
  | KStr k => res_unless (truthy k && Nat.leb (String.length k) MAX_RESOURCE_REF_LEN) ValueError
  | KInt _ => Err ValueError
  end.
Definition rewrite_key (key : string) (f : pyval -> res exc string) (params : pydict) : res exc pydict :=
  match dget params key with
  | None => Ok params
  | Some v => t ← f v; Ok (dict_set (KStr key) (PStr t) params)
  end.
Definition reserved_branch_tokens : list string := [".."; "~"; "^"; ":"; "@{"; " "].
(** [any(tok in branch for tok in ...)]: only a text has an [in] that takes a text. *)
Definition no_reserved_token (branch : pyval) : res exc unit :=
  match branch with
  | PStr b => res_when (existsb (fun tok => contains tok b) reserved_branch_tokens) ValueError
  | _ => Err TypeError
  end.
Definition positive_int (v : pyval) : bool :=
  match v with PInt z => (0 <? z)%Z | PBool b => b | _ => false end.
Definition _validate_parameters (action : string) (parameters : pyval) : res exc pydict :=
  params ← match parameters with PNone => Ok [] | PDict d => Ok d | _ => Err ValueError end;
  _ ← res_for checked_key params;
  if String.eqb action "push_feature_branch" then
    _ ← require params ["branch"; "sha"];
    _ ← branch_identity_val (dget0 params "branch");
    _ ← no_reserved_token (dget0 params "branch");
    _ ← res_unless (sha_like_val (dget0 params "sha")) ValueError;
    Ok params
  else if String.eqb action "create_pull_request" then
    _ ← require params ["head_branch"; "base_branch"; "head_sha"];
    _ ← branch_identity_val (dget0 params "head_branch");
    _ ← branch_identity_val (dget0 params "base_branch");
    _ ← res_unless (sha_like_val (dget0 params "head_sha")) ValueError;
    params ← rewrite_key "title" validate_pr_title params;
    rewrite_key "body" validate_pr_body params
  else if String.eqb action "update_pull_request" then
    _ ← require params ["number"];
    _ ← res_unless (positive_int (dget0 params "number")) ValueError;
    params ← rewrite_key "title" validate_pr_title params;
    rewrite_key "body" validate_pr_body params
  else Ok params.
(** Equality with a verified head, which is a text. *)
Definition same_text (v head : pyval) : bool := match head with PStr h => is_str v h | _ => false end.
(** A push or a new pull request names the head the candidate was integrated at. *)
Definition _bind_mutation_to_integrated (action : string) (parameters verified : pydict) : res exc unit :=
  let bound key := res_unless (same_text (dget0 parameters key) (dget0 verified "integrated_head")) ValueError in
  if String.eqb action "push_feature_branch" then bound "sha"
  else if String.eqb action "create_pull_request" then bound "head_sha"
  else Ok tt.

Record NewAction : Type := mkNewAction {
  na_provider : string;
  na_account : string;
  na_action : string;
  na_repository : string;
  na_resource_ref : string;
  na_requested_scope : string;
  na_parameters : pyval;
  na_expected_preconditions : pyval;
  na_idempotency_key : string;
  na_provenance : pyval;
  na_expiry_ttl_seconds : Z
}.
Definition bounded (max_len : nat) (s : string) : bool := truthy s && Nat.leb (String.length s) max_len.
(** The checks of [create_request] before the provenance; the class of the action. *)
Definition check_new_action (n : NewAction) : res exc ActionTaxonomy :=
  taxonomy ← match action_taxonomy (na_action n) with Some t => Ok t | None => Err ValueError end;
  _ ← res_unless (bounded MAX_PROVIDER_LEN (na_provider n)) ValueError;
  _ ← res_unless (bounded MAX_ACCOUNT_LEN (na_account n)) ValueError;
  _ ← validate_repo_identity (Some (na_repository n));
  _ ← res_unless (Nat.leb (String.length (na_requested_scope n)) MAX_SCOPE_LEN) ValueError;
  _ ← res_when (blank (na_idempotency_key n)) ValueError;
  _ ← res_unless ((1 <=? na_expiry_ttl_seconds n)%Z && (na_expiry_ttl_seconds n <=? MAX_EXPIRY_TTL_SECONDS)%Z) ValueError;
  Ok taxonomy.
Definition _validate_preconditions (preconditions : pyval) : res exc pyval :=
  let v := if py_truthy preconditions then preconditions else PDict [] in
  match v with PDict _ => Ok v | _ => Err ValueError end.

Definition _lock_name (r : Request) : res exc string :=
  action_lock_name ACTION_REPO_GLOBAL (Some (rq_repository r)) ("external-action:" ++ rq_request_id r).

Record BSt : Type := mkBSt { b_js : JSt; b_calls : list pcall; b_ticks : nat }.
#[export] Instance BSt_eta : EtaExpand BSt := fun x => mkBSt (b_js x) (b_calls x) (b_ticks x).
Notation bcmd := (M BSt exc).
Definition in_store {A} (m : jcmd A) : bcmd A := fun s => let (r, j) := m (b_js s) in (r, s <| b_js := j |>).
Definition raced (e : exc) : bool := bool_decide (e = LeaseFencedError) || bool_decide (e = RequestRevisionError).
Definition refused (e : exc) : bool := bool_decide (e = RequestRevisionError) || bool_decide (e = IllegalRequestTransition).

Section Broker.
Context {env : Env} {benv : BrokerEnv}.

(** [_now_iso(self._clock)]. *)
Definition broker_now : bcmd string := fun s =>
  (format_in_range (broker_clock (b_ticks s)), s <| b_ticks ::= S |>).
Definition call_provider (method : string) (r : Request) : bcmd (answer ProviderResult) := fun s =>
  let c := mkCall method (from_row r) in
  let (a, j) := provider (b_calls s) c (b_js s) in
  (Ok a, s <| b_js := j |> <| b_calls ::= fun l => (l ++ [c])%list |>).
Definition observe (r : Request) : bcmd (answer ProviderObservation) := fun s =>
  let c := mkCall "observe" (from_row r) in
  let (a, j) := provider_observe (b_calls s) c (b_js s) in
  (Ok a, s <| b_js := j |> <| b_calls ::= fun l => (l ++ [c])%list |>).
Definition get_request (request_id : string) : bcmd (option Request) := in_store (get_external_action_request request_id).
Definition audit (request_id event : string) (failure_class reason_code detail : option string) : bcmd unit :=
  in_store (append_external_action_audit request_id event failure_class reason_code detail).
(** [self.store.get_external_action_request(id) or row]. *)
Definition current (r : Request) : bcmd (option Request) :=
  row ← get_request (rq_request_id r); mret (Some (default r row)).

(** *** Provenance *)
(** The first open finding of severity HIGH or CRITICAL stops the action. *)
Definition blocking_finding (f : Finding) : bool :=
  bool_decide (Models.f_status f = F_OPEN) && str_in (upper (strip (f_severity f))) ["HIGH"; "CRITICAL"].
Definition prove (b : bool) : jcmd unit := raise_unless b ProvenanceError.
Definition verify_signature (provenance : pyval) : res exc pydict :=
  match provenance with
  | PDict d =>
      _ ← res_unless (forallb (dhas d) PROVENANCE_FIELDS) ProvenanceError;
      _ ← res_unless (is_version (dget0 d "version")) ProvenanceError;
      match dget0 d "provenance_hash" with
      | PStr stored_hash =>
          _ ← res_unless (Nat.eqb (String.length stored_hash) 64) ProvenanceError;
          expected_mac ← compute_provenance_mac d broker_mac_key;
          same ← compare_digest stored_hash expected_mac;
          _ ← res_unless same ProvenanceError;
          Ok d
      | _ => Err ProvenanceError
      end
  | _ => Err ProvenanceError
  end.
Definition verify_provenance (provenance : pyval) : jcmd pydict :=
  d ← lift (verify_signature provenance);
  cid ← lift (column_text (dget0 d "source_candidate_id"));
  candidate ← match cid with Some id => get_integration_candidate id | None => mret None end;
  c ← some_or candidate ProvenanceError;
  _ ← prove (in_state CS_INTEGRATED c);
  _ ← prove (is_str (dget0 d "source_job_id") (c_source_job_id c));
  _ ← prove (opt_sha (c_integrated_head c));
  _ ← prove (eq_ostr (dget0 d "integrated_head") (c_integrated_head c));
  job ← get_supervisor_job (c_source_job_id c);
  j ← some_or job ProvenanceError;
  _ ← prove (ostr_eqb (j_terminal j) (Some "DONE"));
  let source_head := or_text (w_expected_head (j_writer j)) (w_current_head (j_writer j)) in
  _ ← prove (opt_sha source_head);
  _ ← prove (eq_ostr (dget0 d "source_head") source_head);
  _ ← prove (match dget0 d "repository" with
             | PStr r => is_ok (validate_repo_identity (Some r)) && String.eqb r (c_repository c)
             | _ => false
             end);
  _ ← prove (is_str (dget0 d "branch") (c_integration_target c));
  findings ← on_core (list_findings (j_task_id j));
  _ ← prove (negb (existsb blocking_finding findings));
  _ ← prove (is_ok (validate_branch_identity (Some (c_integration_target c))));
  mret d.

(** *** Creation *)
Definition text_at (d : pydict) (key : string) : string :=
  match dget0 d key with PStr s => s | v => py_str v end.
Definition create_request (n : NewAction) : bcmd (option Request) :=
  taxonomy ← lift (check_new_action n);
  verified ← in_store (verify_provenance (na_provenance n));
  parameters ← lift (_validate_parameters (na_action n) (na_parameters n));
  preconditions ← lift (_validate_preconditions (na_expected_preconditions n));
  _ ← lift (_bind_mutation_to_integrated (na_action n) parameters verified);
  params_json ← lift (_bounded_json (PDict parameters) MAX_PARAMETERS_JSON_BYTES);
  pre_json ← lift (_bounded_json preconditions MAX_PRECONDITIONS_JSON_BYTES);
  now_iso ← broker_now;
  expires_at ← lift (_iso_add now_iso (na_expiry_ttl_seconds n));
  let rid := request_id_for (na_provider n) (na_account n) (na_repository n) (na_action n) (na_idempotency_key n) in
  r ← in_store (create_external_action_request
    (mkNewRequest rid (na_provider n) (na_account n) (na_action n) (ActionTaxonomy_value taxonomy) (na_repository n)
       (String.substring 0 MAX_RESOURCE_REF_LEN (na_resource_ref n)) (text_at verified "source_job_id")
       (text_at verified "source_candidate_id") (na_requested_scope n) params_json (Some pre_json)
       (na_idempotency_key n) PROVENANCE_VERSION (text_at verified "provenance_hash")
       (RequestState_value RS_PENDING) (Some expires_at)));
  let '(row, created) := r in
  _ ← (if created : bool then
         row ← some_or row TypeError;
         audit (rq_request_id row) AUDIT_REQUESTED None (Some RC_ALLOWED) None
       else mret tt);
  mret row.

(** *** Policy *)
Definition _task_id_for (r : Request) : bcmd string :=
  job ← in_store (get_supervisor_job (rq_source_job_id r));
  mret (match job with Some j => j_task_id j | None => EmptyString end).
Definition evaluate_policy (r : Request) : bcmd (PolicyDecision * string) :=
  match action_taxonomy (rq_action r) with
  | None => mret (DENY, RC_UNKNOWN_ACTION)
  | Some taxonomy =>
      if negb (String.eqb provider_name (rq_provider r)) then mret (DENY, RC_UNKNOWN_PROVIDER) else
      match entry_for (rq_provider r) (rq_account r) allowlist with
      | None => mret (DENY, RC_UNKNOWN_ACCOUNT)
      | Some entry =>
          if negb (str_in (rq_repository r) (ae_repositories entry)) then mret (DENY, RC_UNKNOWN_REPO)
          else if negb (str_in (rq_action r) (ae_permitted_actions entry)) then mret (DENY, RC_CLASS_NOT_PERMITTED)
          else if bool_decide (taxonomy = AT_SENSITIVE) then mret (OWNER_GATE_REQUIRED, RC_SENSITIVE)
          else if bool_decide (taxonomy = AT_BOUNDED_WRITE)
                  && negb (str_in (rq_action r) (autonomous_actions standing_policy))
          then mret (OWNER_GATE_REQUIRED, RC_NOT_AUTONOMOUS)
          else if String.eqb (rq_action r) "push_feature_branch" then
            branch ← lift (py_get (parameters_of r) "branch" (PStr EmptyString));
            if is_protected_ref branch then mret (OWNER_GATE_REQUIRED, RC_PROTECTED_REF) else
            task_id ← _task_id_for r;
            let namespaces := match ae_branch_namespaces entry with [] => [AUTONOMOUS_BRANCH_PREFIX] | l => l end in
            if autonomous_branch_ok branch task_id namespaces then mret (ALLOW_AUTONOMOUS, RC_ALLOWED)
            else mret (OWNER_GATE_REQUIRED, RC_BRANCH_NOT_IN_NAMESPACE)
          else if String.eqb (rq_action r) "create_pull_request" then
            base ← lift (py_get (parameters_of r) "base_branch" (PStr EmptyString));
            _ ← raise_unless (hashable base) TypeError;
            if match base with PStr b => str_in b (ae_pr_targets entry) | _ => false end
            then mret (ALLOW_AUTONOMOUS, RC_ALLOWED) else mret (DENY, RC_NOT_ALLOWLISTED)
          else mret (ALLOW_AUTONOMOUS, RC_ALLOWED)
      end
  end.

(** *** Refusal and expiry *)
Definition _check_expired (r : Request) : bcmd bool :=
  match rq_expires_at r with
  | Some e => if negb (truthy e) then mret false else now_iso ← broker_now; mret (str_leb e now_iso)
  | None => mret false
  end.
Definition move (r : Request) (to_state : RequestState) (fields : list rassign) : bcmd (option Request) :=
  in_store (transition_external_action_request (rq_request_id r) (rq_state r) (RequestState_value to_state)
              (rq_revision r) (mkHolder None None false) fields).
Definition _expire (r : Request) : bcmd (option Request) :=
  updated ← except (move r RS_BLOCKED [R_last_failure_class (Some FAILURE_PRECONDITION_FAILED);
                                       R_last_error_code (Some RC_EXPIRED)]) refused (current r);
  _ ← audit (rq_request_id r) AUDIT_EXECUTED (Some FAILURE_PRECONDITION_FAILED) (Some RC_EXPIRED) None;
  mret updated.
Definition _deny (r : Request) (reason : string) : bcmd (option Request) :=
  updated ← except (move r RS_DENIED [R_last_failure_class (Some FAILURE_POLICY_DENIED);
                                      R_last_error_code (Some reason)]) refused (current r);
  _ ← audit (rq_request_id r) AUDIT_EXECUTED (Some FAILURE_POLICY_DENIED) (Some reason) None;
  mret updated.

(** *** Authorisation *)
Definition authorize (r : Request) (decision : PolicyDecision) (detail : string) : bcmd (option Request) :=
  updated ← in_store (transition_external_action_request (rq_request_id r) (RequestState_value RS_PENDING)
      (RequestState_value RS_AUTHORIZED) (rq_revision r) (mkHolder None None false)
      [R_authorization_state (Some (PolicyDecision_value decision)); R_last_error_code None]);
  _ ← audit (rq_request_id r) AUDIT_AUTHORIZED None (Some RC_ALLOWED) (Some detail);
  mret updated.
Definition authorize_autonomous (request_id : string) : bcmd (option Request) :=
  row ← get_request request_id;
  r ← some_or row RequestNotFound;
  if is_terminal_state (rq_state r) then mret (Some r) else
  expired ← _check_expired r;
  if expired : bool then _expire r else
  p ← evaluate_policy r;
  let '(decision, reason) := p in
  if bool_decide (decision = ALLOW_AUTONOMOUS)
  then authorize r decision ("authorized autonomous: " ++ PolicyDecision_value decision)
  else _deny r reason.

Definition content_hash (v : pyval) : res exc string := raw ← json_dumps_default_str v; Ok (sha256_hex (utf8 raw)).
Definition _approval_scope (r : Request) : res exc string :=
  params_hash ← content_hash (parameters_of r);
  pre_hash ← content_hash (preconditions_of r);
  json_dumps (PList (map PStr [rq_provider r; rq_account r; rq_repository r; rq_resource_ref r; rq_requested_scope r;
    rq_provenance_hash r; rq_source_job_id r; rq_source_candidate_id r; rq_idempotency_key r; params_hash; pre_hash])).
Definition approval_bound (a : OwnerApproval) (task_id : option string) (action scope : string) : bool :=
  match task_id with
  | None => false
  | Some t => String.eqb (ap_task_id a) t && String.eqb (ap_action a) action && String.eqb (ap_scope a) scope
              && ostr_eqb (ap_binding_hash a) (Some (binding_hash t (ap_action a) scope))
  end.
Definition authorize_owner (request_id approval_id : string) : bcmd (option Request) :=
  row ← get_request request_id;
  r ← some_or row RequestNotFound;
  _ ← raise_unless (String.eqb (rq_state r) (RequestState_value RS_PENDING)) AuthorizationError;
  expired ← _check_expired r;
  if expired : bool then _ ← _expire r; raise AuthorizationError else
  p ← evaluate_policy r;
  _ ← raise_when (bool_decide (fst p = DENY)) AuthorizationError;
  approval ← in_store (on_core (get_approval approval_id));
  a ← some_or approval AuthorizationError;
  _ ← raise_unless (bool_decide (ap_status a = AP_APPROVED)) AuthorizationError;
  now_iso ← broker_now;
  _ ← raise_when (str_leb (ap_expires_at a) now_iso) AuthorizationError;
  _ ← raise_unless (bool_decide (ap_source_class a = TRUSTED)) AuthorizationError;
  job ← in_store (get_supervisor_job (rq_source_job_id r));
  scope ← lift (_approval_scope r);
  _ ← raise_unless (approval_bound a (j_task_id <$> job) (rq_action r) scope) AuthorizationError;
  rc ← in_store (on_core (_consume_approval (ap_id a) now_iso));
  _ ← raise_unless (Nat.eqb rc 1) AuthorizationError;
  authorize r OWNER_GATE_REQUIRED
    ("authorized owner-gate (" ++ PolicyDecision_value OWNER_GATE_REQUIRED ++ "): approval " ++ approval_id).

(** *** Execution *)
Section Holder.
Context (holder_job_id : string) (holder_lease_epoch : Z) (lock : string).

(** The holder-verified transition; [None] when the lease, the lock or the revision
    was lost. *)
Definition fenced_move (r : Request) (to_state : RequestState) (owner : option string) (clear : bool)
    (fields : list rassign) : bcmd (option Request + exc) := fun s =>
  match in_store (transition_external_action_request_authoritative (rq_request_id r) lock holder_job_id
          holder_lease_epoch (rq_state r) (RequestState_value to_state) (rq_revision r) owner clear fields) s with
  | (Ok o, s') => (Ok (inl o), s')
  | (Err e, s') => if raced e then (Ok (inr e), s') else (Err e, s')
  end.
Definition reason_of (error_code : pyval) : string :=
  String.substring 0 MAX_REASON_CODE_LEN (sanitize_provider_detail error_code).
Definition terminal_state (st : RequestState) : bool := in_list st TERMINAL_REQUEST_STATES.
Definition _finalize (r : Request) (to_state : RequestState) (failure_class : option string) (error_code : pyval)
    (provider_object_id : option string) (provider_state : option pyval) : bcmd (option Request) :=
  state_field ← match provider_state with
                | Some v => t ← lift (_bounded_json v MAX_PROVIDER_STATE_JSON_BYTES); mret [R_provider_state (Some t)]
                | None => mret []
                end;
  let fields := ([R_last_failure_class failure_class; R_last_error_code (Some (reason_of error_code))]
    ++ (match provider_object_id with
        | Some id => [R_provider_object_id (Some (String.substring 0 256 id))]
        | None => []
        end)
    ++ state_field)%list in
  m ← fenced_move r to_state (Some holder_job_id) (terminal_state to_state) fields;
  match m with
  | inr _ => current r
  | inl updated =>
      _ ← audit (rq_request_id r) AUDIT_EXECUTED failure_class (Some (reason_of error_code)) None;
      mret updated
  end.
Definition _bounded_wait (r : Request) (failure_class : option string) (detail : pyval) : bcmd (option Request) :=
  let attempt := (rq_attempt_count r + 1)%Z in
  if (MAX_RETRY_ATTEMPTS <? attempt)%Z then
    _finalize r RS_FAILED (Some (default FAILURE_UNKNOWN failure_class))
      (if py_truthy detail then detail else PStr "RETRY_EXHAUSTED") None None
  else
    now_iso ← broker_now;
    next_check_at ← lift (_iso_add now_iso (next_check_delay_seconds attempt));
    let fields := ([R_attempt_count attempt; R_next_attempt_at (Some next_check_at)]
      ++ (match failure_class with Some c => [R_last_failure_class (Some c)] | None => [] end)
      ++ (match detail with PNone => [] | _ => [R_last_error_code (Some (reason_of detail))] end))%list in
    m ← fenced_move r RS_WAITING_EXTERNAL (Some holder_job_id) false fields;
    match m with inr _ => current r | inl updated => mret updated end.
Definition _settle (r : Request) (result : option ProviderResult) : bcmd (option Request) :=
  match result with
  | None => _finalize r RS_FAILED (Some FAILURE_LOCAL_CODE_ERROR) (PStr "BAD_PROVIDER_RESULT") None None
  | Some res =>
      let outcome := pv_outcome res in
      if negb (str_in outcome ALLOWED_OUTCOMES) then
        _finalize r RS_FAILED (Some FAILURE_LOCAL_CODE_ERROR) (PStr "BAD_OUTCOME") None None
      else if String.eqb outcome OUTCOME_SUCCESS then
        _finalize r RS_SUCCEEDED None PNone (pv_object_id res) (pv_state res)
      else if String.eqb outcome OUTCOME_WAITING then _bounded_wait r None PNone
      else
        let failure_class := default FAILURE_UNKNOWN (_OUTCOME_TO_FAILURE_CLASS outcome) in
        if String.eqb outcome OUTCOME_UNAVAILABLE || String.eqb outcome OUTCOME_RATE_LIMITED
        then _bounded_wait r (Some failure_class) (pv_detail res)
        else _finalize r RS_FAILED (Some failure_class) (pv_detail res) None None
  end.
Definition _check_preconditions (r : Request) : bcmd (option string) :=
  job ← in_store (get_supervisor_job (rq_source_job_id r));
  mret (match job with
        | Some j => if ostr_eqb (j_terminal j) (Some "DONE") then None else Some "source_terminal_mutated"
        | None => Some "source_terminal_mutated"
        end).
Definition DISPATCHED : list string :=
  (READ_ACTIONS ++ ["push_feature_branch"; "create_pull_request"; "update_pull_request"])%list.
Definition plain_result (outcome detail : string) : ProviderResult := mkProviderResult outcome None None (PStr detail).
Definition _dispatch (r : Request) : bcmd (answer ProviderResult) :=
  if str_in (rq_action r) DISPATCHED then call_provider (rq_action r) r
  else mret (Result (plain_result OUTCOME_VALIDATION_FAILED
               ("unsupported action " ++ repr (PStr (rq_action r))))).
(** The [except] clauses around the call; [None] is [ProviderWriteDisabled]. *)
Definition result_of (a : answer ProviderResult) : option (option ProviderResult) :=
  match a with
  | Result r => Some (Some r)
  | Other_value => Some None
  | Raised ProviderWriteDisabled => None
  | Raised ProviderRateLimited => Some (Some (plain_result OUTCOME_RATE_LIMITED "rate_limited"))
  | Raised ProviderConflict => Some (Some (plain_result OUTCOME_CONFLICT "conflict"))
  | Raised ProviderCredentialError => Some (Some (plain_result OUTCOME_CREDENTIAL_ERROR "credential_error"))
  | Raised ProviderValidationError => Some (Some (plain_result OUTCOME_VALIDATION_FAILED "validation_failed"))
  | Raised ProviderUnavailable => Some (Some (plain_result OUTCOME_UNAVAILABLE "unavailable"))
  | Raised (OtherException t) => Some (Some (plain_result OUTCOME_UNAVAILABLE t))
  end.
Definition write_disabled (r : Request) : bcmd (option Request) :=
  _finalize r RS_FAILED (Some FAILURE_POLICY_DENIED) (PStr "PROVIDER_WRITE_DISABLED") None None.
Definition _drive (r : Request) : bcmd (option Request) :=
  m ← fenced_move r RS_EXECUTING (Some holder_job_id) false [];
  match m with
  | inr _ => current r
  | inl updated =>
      r ← some_or updated TypeError;
      if str_in (rq_action r) MUTATION_ACTIONS && negb write_enabled then write_disabled r else
      pre_error ← _check_preconditions r;
      match pre_error with
      | Some e => _finalize r RS_BLOCKED (Some FAILURE_PRECONDITION_FAILED) (PStr e) None None
      | None =>
          a ← _dispatch r;
          match result_of a with
          | None => write_disabled r
          | Some result => _settle r result
          end
      end
  end.
Definition _reconcile_locked (r : Request) : bcmd (option Request) :=
  a ← observe r;
  match a with
  | Result (mkProviderObservation true object_id state) =>
      state_field ← match state with
                    | Some v => t ← lift (_bounded_json v MAX_PROVIDER_STATE_JSON_BYTES); mret [R_provider_state (Some t)]
                    | None => mret []
                    end;
      m ← fenced_move r RS_SUCCEEDED None true
            (R_provider_object_id (Some (String.substring 0 256 (default EmptyString object_id))) :: state_field);
      match m with
      | inr _ => current r
      | inl updated =>
          _ ← audit (rq_request_id r) AUDIT_RECONCILED None (Some "RECONCILED_SUCCESS") None;
          mret updated
      end
  | _ =>
      _ ← audit (rq_request_id r) AUDIT_RECONCILED None (Some "RECONCILED_NOT_FOUND") None;
      current r
  end.
End Holder.

(** The action lock around the work of one holder. *)
Definition under_lock (holder_job_id : string) (holder_lease_epoch : Z) (r : Request)
    (work : string -> bcmd (option Request)) : bcmd (option Request) :=
  lock ← lift (_lock_name r);
  got ← in_store (try_acquire_action_lock lock holder_job_id holder_lease_epoch);
  if negb got then mret (Some r)
  else finally (work lock) (in_store (release_action_lock lock holder_job_id holder_lease_epoch)).
(** [execute] of an AUTHORIZED request and [redrive_waiting] of a waiting one. *)
Definition drive_from (from_state : RequestState) (request_id holder_job_id : string) (holder_lease_epoch : Z)
  : bcmd (option Request) :=
  row ← get_request request_id;
  r ← some_or row RequestNotFound;
  if is_terminal_state (rq_state r) then mret (Some r) else
  _ ← raise_unless (String.eqb (rq_state r) (RequestState_value from_state)) BrokerError;
  expired ← _check_expired r;
  if expired : bool then _expire r else
  p ← evaluate_policy r;
  if bool_decide (fst p = DENY) then _deny r (snd p) else
  under_lock holder_job_id holder_lease_epoch r (fun lock => _drive holder_job_id holder_lease_epoch lock r).
Definition execute (request_id holder_job_id : string) (holder_lease_epoch : Z) : bcmd (option Request) :=
  drive_from RS_AUTHORIZED request_id holder_job_id holder_lease_epoch.
Definition redrive_waiting (request_id holder_job_id : string) (holder_lease_epoch : Z) : bcmd (option Request) :=
  drive_from RS_WAITING_EXTERNAL request_id holder_job_id holder_lease_epoch.
Definition reconcile (request_id holder_job_id : string) (holder_lease_epoch : Z) : bcmd (option Request) :=
  row ← get_request request_id;
  r ← some_or row RequestNotFound;
  if is_terminal_state (rq_state r) then mret (Some r)
  else if negb (str_in (rq_state r) (map RequestState_value RETRYABLE_STATES)) then mret (Some r) else
  expired ← _check_expired r;
  if expired : bool then _expire r else
  under_lock holder_job_id holder_lease_epoch r (fun lock => _reconcile_locked holder_job_id holder_lease_epoch lock r).
End Broker.
