(* ===== verification/BrokerSpec.v ===== *)
(** * RequestSpec: what a transition of an external request does.

    [settles_row] is what a transition that returns did to the table; one that raises
    did nothing.  [moves_on] is a step along an edge of the map that spends a revision and
    keeps what was asked for. *)
From stdpp Require Import relations.
From S2P Require Import Prelude PyVal Json Models Timestamps JobState Concurrency Recovery CoreStore JobRows Worktree Leases ActionLocks JobSteps JobInv LeaseSpec LeaseSession JobFrame LockSpec Canonical Candidates CandidateSpec Outbox Requests Along Dispatch Redact Broker.
#[local] Open Scope string_scope.

(** What the request asks for, where it comes from and until when it holds. *)
Definition asked (r : Request) : list string * list (option string) * Z :=
  ([rq_request_id r; rq_provider r; rq_account r; rq_action r; rq_policy_class r; rq_repository r; rq_resource_ref r;
    rq_source_job_id r; rq_source_candidate_id r; rq_requested_scope r; rq_parameters r; rq_idempotency_key r;
    rq_provenance_hash r; rq_created_at r],
   [rq_expected_preconditions r; rq_expires_at r], rq_provenance_version r).
Definition moves_on (r r' : Request) : Prop :=
  asked r' = asked r /\ edge (rq_state r) (rq_state r') = true /\ rq_revision r' = (rq_revision r + 1)%Z.

(** ** One transition *)
Definition frozen (r : Request) : list string * list (option string) * Z * string * Z :=
  (asked r, rq_state r, rq_revision r).
Lemma rapply_all_frozen l r : frozen (rapply_all l r) = frozen r.
Proof. unfold rapply_all. revert r. induction l as [|a l IH]; intros r; [done|]. cbn. rewrite IH. by destruct a. Qed.
Lemma set_request_holder_frozen h r : frozen (set_request_holder h r) = frozen r.
Proof. unfold set_request_holder. repeat case_match; done. Qed.
Lemma settled_frozen t now h fields r :
  frozen (settled t now h fields r) = (asked r, t, Z.succ (rq_revision r)).
Proof. unfold settled. by rewrite rapply_all_frozen, set_request_holder_frozen. Qed.
Lemma settled_id t now h fields r : rq_request_id (settled t now h fields r) = rq_request_id r.
Proof. pose proof (settled_frozen t now h fields r) as E. unfold frozen, asked in E. congruence. Qed.
Lemma settled_state t now h fields r : rq_state (settled t now h fields r) = t.
Proof. pose proof (settled_frozen t now h fields r) as E. unfold frozen in E. congruence. Qed.
Lemma settled_revision t now h fields r : rq_revision (settled t now h fields r) = Z.succ (rq_revision r).
Proof. pose proof (settled_frozen t now h fields r) as E. unfold frozen in E. congruence. Qed.
Lemma settled_asked t now h fields r : asked (settled t now h fields r) = asked r.
Proof. pose proof (settled_frozen t now h fields r) as E. unfold frozen in E. congruence. Qed.
Lemma settled_action t now h fields r : rq_action (settled t now h fields r) = rq_action r.
Proof. pose proof (settled_asked t now h fields r) as E. unfold asked in E. congruence. Qed.
Lemma settled_source t now h fields r : rq_source_job_id (settled t now h fields r) = rq_source_job_id r.
Proof. pose proof (settled_asked t now h fields r) as E. unfold asked in E. congruence. Qed.

Definition calm (l : list rassign) : bool :=
  forallb (fun a => match a with R_attempt_count _ => false | _ => true end) l.
Lemma set_request_holder_attempts h r : rq_attempt_count (set_request_holder h r) = rq_attempt_count r.
Proof. unfold set_request_holder. repeat case_match; done. Qed.
Lemma settled_attempts t now h fields r : calm fields = true ->
  rq_attempt_count (settled t now h fields r) = rq_attempt_count r.
Proof.
  intros C. unfold settled, rapply_all. generalize (set_request_holder_attempts h
    (r <| rq_state := t |> <| rq_revision ::= Z.succ |> <| rq_updated_at := now |>)).
  generalize (set_request_holder h (r <| rq_state := t |> <| rq_revision ::= Z.succ |> <| rq_updated_at := now |>)).
  cbn [rq_attempt_count set]. induction fields as [|a l IH]; intros r0 E; [done|]. cbn in C. apply andb_true_iff in C as [A C].
  cbn. apply IH; [done|]. by destruct a.
Qed.

Lemma settled_attempt_set t now h a fields r : calm fields = true ->
  rq_attempt_count (settled t now h (R_attempt_count a :: fields) r) = a.
Proof.
  intros C. unfold settled, rapply_all. cbn [fold_left rapply].
  generalize (set_request_holder h (r <| rq_state := t |> <| rq_revision ::= Z.succ |> <| rq_updated_at := now |>)).
  intros r0. assert (E : rq_attempt_count (r0 <| rq_attempt_count := a |>) = a) by done. revert E.
  generalize (r0 <| rq_attempt_count := a |>). clear r0.
  induction fields as [|x l IH]; intros r0 E; [done|]. cbn in C. apply andb_true_iff in C as [A C].
  cbn. apply IH; [done|]. by destruct x.
Qed.

Definition settles_row (request_id from_state to_state : string) (revision : Z) (now : string) (h : Holder)
    (fields : list rassign) (t : JT) (o : option Request) (t' : JT) : Prop :=
  exists r, request_of request_id t = Some r /\ rq_state r = from_state /\ rq_revision r = revision /\
    edge from_state to_state = true /\ o = Some (settled to_state now h fields r) /\
    t' = set jt_requests (update_where (is_request request_id) (settled to_state now h fields)) t.
Lemma settled_row id id' t now h fields tb :
  request_of id' (set jt_requests (update_where (is_request id) (settled t now h fields)) tb)
  = (fun r => if is_request id r then settled t now h fields r else r) <$> request_of id' tb.
Proof. unfold request_of. cbn. apply row_by_id_update. intros. apply settled_id. Qed.
Lemma settles_this id f to rev now h fields t o t' : settles_row id f to rev now h fields t o t' ->
  request_of id t' = o.
Proof.
  intros (r & C & _ & _ & _ & -> & ->). rewrite settled_row, C. cbn. unfold is_request.
  apply row_by_id in C as [-> _]. by rewrite String.eqb_refl.
Qed.
Lemma settles_other id id' f to rev now h fields t o t' : settles_row id f to rev now h fields t o t' ->
  id' <> id -> request_of id' t' = request_of id' t.
Proof.
  intros (r & C & _ & _ & _ & -> & ->) D. rewrite settled_row. destruct (request_of id' t) as [r'|] eqn:C'; [|done].
  cbn. unfold is_request. apply row_by_id in C' as [-> _]. by destruct (String.eqb_spec id' id).
Qed.
Lemma settles_step id f to rev now h fields t o t' : settles_row id f to rev now h fields t o t' ->
  exists r r', request_of id t = Some r /\ o = Some r' /\ moves_on r r'.
Proof.
  intros (r & C & F & V & E & -> & _). do 2 eexists. split; [exact C|]. split; [reflexivity|].
  unfold moves_on. rewrite settled_asked, settled_state, settled_revision, F. split; [done|]. split; [done | lia].
Qed.

Section Ops.
Context {env : Env}.
Lemma get_request_reads id : reads (get_external_action_request id).
Proof. unfold get_external_action_request, jquery. auto with reads. Qed.
Lemma request_locked_ok id f to rev now h fields s o s' :
  _transition_request_locked id f to rev now h fields s = (Ok o, s') ->
  settles_row id f to rev now h fields (js_t s) o (js_t s').
Proof.
  unfold _transition_request_locked, get_external_action_request, jquery. intros R. inv_ok R.
  repeat match goal with
  | H : jupdate _ _ _ _ = _ |- _ => apply jupdate_ok in H as (_ & -> & _)
  | H : String.eqb _ _ = true |- _ => apply String.eqb_eq in H
  | H : (_ =? _)%Z = true |- _ => apply Z.eqb_eq in H
  end.
  exists v. do 3 (split; [assumption|]). split; [congruence|]. split; [|reflexivity].
  etransitivity; [apply (settled_row id id to now h fields (js_t st))|]. rewrite Hrun. cbn.
  unfold is_request. apply row_by_id in Hrun as [-> _]. by rewrite String.eqb_refl.
Qed.
Lemma request_locked_sound id f to rev now h fields : stepwise sound (_transition_request_locked id f to rev now h fields).
Proof.
  unfold _transition_request_locked, get_external_action_request, jquery.
  repeat first [apply sw_bind; [exact _ | | intros ?] | solve [auto with stepwise]].
  intros s r s' E. apply jwrite_cases in E as [->| ->]; [reflexivity|]. split; [done|]. by intros [U T].
Qed.
Lemma request_transition_ok id f to rev h fields s o s' :
  transition_external_action_request id f to rev h fields s = (Ok o, s') ->
  exists now, read_between s s' now /\ settles_row id f to rev now h fields (js_t s) o (js_t s').
Proof.
  unfold transition_external_action_request. intros R.
  do 2 apply lift_bind_ok in R as (_ & _ & R). apply when_bind_ok in R as (_ & R). apply unless_bind_ok in R as (_ & R).
  apply clocked_iso in R as (s1 & now & R & T & B); [|intros; apply sw_transaction, request_locked_sound].
  apply jtransaction_ok in R as (s2 & (_ & Q & _) & _ & R). exists now. split; [done|].
  apply request_locked_ok in R. by rewrite <- T, <- Q.
Qed.
Lemma request_authoritative_ok id lock job ep f to rev o clear fields s r s' :
  transition_external_action_request_authoritative id lock job ep f to rev o clear fields s = (Ok r, s') ->
  exists now, read_between s s' now /\ holds_both lock job ep now (js_t s) /\
    settles_row id f to rev now (mkHolder o (Some ep) clear) fields (js_t s) r (js_t s').
Proof.
  unfold transition_external_action_request_authoritative. intros R.
  do 2 apply lift_bind_ok in R as (_ & _ & R). do 4 apply when_bind_ok in R as (_ & R). apply unless_bind_ok in R as (_ & R).
  apply clocked_iso in R as (s1 & now & R & T & B).
  2:{ intros now. apply sw_transaction. unfold _job_holds_current_lease, jquery.
      repeat first [apply request_locked_sound | apply sw_bind; [exact _ | | intros ?] | solve [auto with stepwise]]. }
  apply jtransaction_ok in R as (s2 & (_ & Q & _) & _ & R). exists now. split; [done|]. rewrite <- T, <- Q.
  unfold _job_holds_current_lease, jquery in R.
  do 4 (apply M_bind_ok in R as (? & ? & ?G & R)).
  apply gets_ok in G as [-> <-]. apply raise_unless_ok in G0 as [L <-]. apply gets_ok in G1 as [-> <-].
  apply raise_unless_ok in G2 as [H <-]. split; [|by apply request_locked_ok in R].
  split; [done|]. destruct (lock_of lock _) as [l|]; [by exists l | done].
Qed.
Lemma request_transition_err id f to rev h fields : raises_clean (transition_external_action_request id f to rev h fields).
Proof. unfold transition_external_action_request. rc. Qed.
Lemma request_authoritative_err id lock job ep f to rev o clear fields :
  raises_clean (transition_external_action_request_authoritative id lock job ep f to rev o clear fields).
Proof. unfold transition_external_action_request_authoritative. rc. Qed.
Lemma create_request_err n : raises_clean (create_external_action_request n).
Proof. unfold create_external_action_request. rc. Qed.

(** Creation inserts the PENDING row of the arguments, or returns a row there is. *)
Lemma create_request_ok n s o created s' : create_external_action_request n s = (Ok (o, created), s') ->
  if created : bool then
    exists now, request_of (nr_request_id n) (js_t s) = None /\ o = Some (request_row n now) /\
      js_t s' = set jt_requests (fun l => (l ++ [request_row n now])%list) (js_t s)
  else js_t s' = js_t s /\ exists r, o = Some r /\
      (request_of (nr_request_id n) (js_t s) = Some r \/
       (by_id rq_idempotency_key (nr_idempotency_key n) (jt_requests (js_t s)) = Some r
        /\ _external_request_equivalent r n = true)).
Proof.
  unfold create_external_action_request. intros R. apply unless_bind_ok in R as (_ & R).
  apply lift_bind_ok in R as (_ & _ & R). apply unless_bind_ok in R as (_ & R).
  apply M_bind_ok in R as (now & s1 & N & R). apply jnow_iso_reads in N as (_ & T & _).
  apply jtransaction_ok in R as (s2 & (_ & Q & _) & _ & R). rewrite <- T, <- Q.
  unfold get_external_action_request, jquery in R. apply M_bind_ok in R as (row & s3 & G & R).
  apply gets_ok in G as [-> <-]. destruct (request_of (nr_request_id n) (js_t s2)) as [r|] eqn:C.
  - inv_ok R. simplify_eq/=. split; [done|]. eauto.
  - apply M_bind_ok in R as (ex & s3 & G & R). apply gets_ok in G as [-> <-].
    destruct (by_id _ _ _) as [r|] eqn:E.
    + inv_ok R. simplify_eq/=. split; [done|]. eauto.
    + inv_ok R. simplify_eq/=. apply jinsert_ok in Hrun as [-> _]. exists now. split; [done|]. split; [|done].
      unfold request_of. etransitivity; [apply (by_id_snoc rq_request_id)|].
      unfold request_of in C. rewrite C. cbn. by rewrite String.eqb_refl.
Qed.
End Ops.

(** ** BrokerSpec: the life cycle of the external requests under the broker.

    [broker_ev] interleaves the operations of the broker with those on locks and leases.
    While a call is at the provider other processes may go on: the adapter may change
    the store in any way that follows the life cycle. *)
Notation rows s := (js_t (b_js s)).

(** One step of the life cycle: along an edge of the map, a wait using up an attempt. *)
Definition pace (r r' : Request) : Prop :=
  if String.eqb (rq_state r') "WAITING_EXTERNAL"
  then rq_attempt_count r' = (rq_attempt_count r + 1)%Z /\ (rq_attempt_count r' <= MAX_RETRY_ATTEMPTS)%Z
  else rq_attempt_count r' = rq_attempt_count r.
Definition life_step (r r' : Request) : Prop := moves_on r r' /\ pace r r'.
Definition life : Request -> Request -> Prop := rtc life_step.
Lemma life_revision r r' : life r r' -> r' = r \/ (rq_revision r < rq_revision r')%Z.
Proof.
  induction 1 as [r|r r1 r' [(_ & _ & V) _] L IH]; [by left|]. right. destruct IH as [->|K]; lia.
Qed.
Lemma life_same r r' : life r r' -> rq_revision r' = rq_revision r -> r' = r.
Proof. intros [E|L]%life_revision V; [done | lia]. Qed.
Lemma terminal_edge st st' : is_terminal_state st = true -> edge st st' = false.
Proof.
  unfold is_terminal_state. intros I%str_in_In. cbn in I. by destruct I as [<-|[<-|[<-|[<-|[]]]]].
Qed.
Lemma life_terminal r r' : life r r' -> is_terminal_state (rq_state r) = true -> r' = r.
Proof. intros L T. destruct L as [|r r1 r' [(_ & E & _) _] _]; [done|]. by rewrite terminal_edge in E. Qed.

Lemma attempts_bounded r r' : life r r' -> (0 <= rq_attempt_count r <= MAX_RETRY_ATTEMPTS)%Z ->
  (0 <= rq_attempt_count r' <= MAX_RETRY_ATTEMPTS)%Z.
Proof.
  induction 1 as [|r r1 r' [_ P] _ IH]; [done|]. intros B. apply IH. unfold pace in P. case_match; lia.
Qed.

(** Every request of the first table has gone along its life cycle, and a new one has
    since it was created. *)
Definition new_request (r : Request) : Prop :=
  rq_state r = "PENDING" /\ rq_revision r = 0%Z /\ rq_attempt_count r = 0%Z.
Definition evolves (s s' : JSt) : Prop := forall id,
  match request_of id (js_t s) with
  | Some r => exists r', request_of id (js_t s') = Some r' /\ life r r'
  | None => forall r', request_of id (js_t s') = Some r' -> exists r0, new_request r0 /\ life r0 r'
  end.
#[export] Instance evolves_preorder : PreOrder evolves.
Proof.
  split.
  - intros s id. destruct (request_of id (js_t s)) as [r|]; [|done]. exists r. split; [done|]. unfold life. reflexivity.
  - intros a b c H K id. specialize (H id). specialize (K id). unfold life in *.
    destruct (request_of id (js_t a)) as [r|].
    + destruct H as (r1 & E & L). rewrite E in K. destruct K as (r2 & E2 & L2). exists r2. split; [done|]. by etrans.
    + intros r' E. destruct (request_of id (js_t b)) as [r1|] eqn:B; [|by apply K].
      destruct (H r1 eq_refl) as (r0 & P & L). exists r0. split; [done|].
      destruct K as (r2 & E2 & L2). rewrite E in E2. injection E2 as <-. by etrans.
Qed.
Lemma evolves_same s s' : jt_requests (js_t s') = jt_requests (js_t s) -> evolves s s'.
Proof.
  intros E id. unfold request_of. rewrite E. destruct (by_id _ _ _) as [r|] eqn:D; [|done].
  exists r. split; [done|]. unfold life. reflexivity.
Qed.
(** Two states a transition leads between, when its row keeps the pace. *)
Lemma evolves_settles id f to rev now h fields s o s' :
  settles_row id f to rev now h fields (js_t s) o (js_t s') ->
  (forall r, request_of id (js_t s) = Some r -> pace r (settled to now h fields r)) -> evolves s s'.
Proof.
  intros M P id'. destruct (decide (id' = id)) as [->|D].
  - pose proof (settles_this _ _ _ _ _ _ _ _ _ _ M) as T. pose proof M as (r & C & _ & _ & _ & E & _).
    apply settles_step in M as (r1 & r' & C1 & E1 & L). rewrite C in C1. injection C1 as <-. rewrite E in E1. injection E1 as <-. rewrite C, T, E.
    eexists. split; [done|]. apply rtc_once. split; [done|]. by apply P.
  - rewrite (settles_other _ _ _ _ _ _ _ _ _ _ _ M D). destruct (request_of id' (js_t s)) as [r|]; [|done].
    exists r. split; [done|]. unfold life. reflexivity.
Qed.

Lemma calm_pace to now h fields r : calm fields = true -> to <> "WAITING_EXTERNAL" ->
  pace r (settled to now h fields r).
Proof.
  intros C N. unfold pace. rewrite settled_state, settled_attempts by done.
  by destruct (String.eqb_spec to "WAITING_EXTERNAL").
Qed.

(** ** The statements that leave the requests alone *)
Section Store.
Context {env : Env}.
Lemma lock_exec_requests e s : jt_requests (js_t (lock_exec e s)) = jt_requests (js_t s).
Proof.
  destruct e as [n j ep|n j ep|n|c]; cbn [lock_exec].
  - destruct (try_acquire_action_lock n j ep s) as [[b|x] s'] eqn:R; cbn.
    + apply acquire_ok in R as (now & _ & _ & A). unfold acquired in A.
      repeat case_match; destruct A as [_ ->]; done.
    + apply (failed_lock_op _ [_; _; _]) in R. by rewrite R.
  - destruct (release_action_lock n j ep s) as [[b|x] s'] eqn:R; cbn.
    + apply release_ok in R. repeat case_match; destruct R as [_ ->]; done.
    + apply (failed_lock_op _ [_]) in R. by rewrite R.
  - destruct (reclaim_stale_action_lock n s) as [[b|x] s'] eqn:R; cbn.
    + apply reclaim_ok in R. destruct (lock_of n (js_t s)); [|by destruct R as [_ ->]].
      destruct R as (now & _ & _ & ->). by case_match.
    + apply (failed_lock_op _ [_]) in R. by rewrite R.
  - destruct (lease_exec c s) as [r s'] eqn:R. apply lease_exec_frame in R as (_ & jobs & ms & T). cbn. by rewrite T.
Qed.
Definition keeps_requests {A} (m : jcmd A) : Prop := forall s r s', m s = (r, s') ->
  jt_requests (js_t s') = jt_requests (js_t s).
Lemma kr_reads {A} (m : jcmd A) : reads m -> keeps_requests m.
Proof. intros H s r s' (_ & T & _)%H. by rewrite T. Qed.
Lemma kr_core {A} (m : cmd A) : keeps_requests (on_core m).
Proof. intros s r s'. unfold on_core. destruct (m (js_core s)). by intros [= _ <-]. Qed.
Lemma kr_acquire l j ep : keeps_requests (try_acquire_action_lock l j ep).
Proof. intros s r s' E. pose proof (lock_exec_requests (Acquire l j ep) s) as H. cbn in H. by rewrite E in H. Qed.
Lemma kr_release l j ep : keeps_requests (release_action_lock l j ep).
Proof. intros s r s' E. pose proof (lock_exec_requests (Unlock l j ep) s) as H. cbn in H. by rewrite E in H. Qed.
Lemma kr_audit id ev c r d : keeps_requests (append_external_action_audit id ev c r d).
Proof.
  intros s x s' E. unfold append_external_action_audit in E.
  assert (K : along (fun s s' => jt_requests (js_t s') = jt_requests (js_t s)) (append_external_action_audit id ev c r d)).
  { unfold append_external_action_audit.
    assert (P : PreOrder (fun s s' : JSt => jt_requests (js_t s') = jt_requests (js_t s))) by (split; congruence).
    repeat first [ al_step | apply kr_reads, get_request_reads | apply kr_core ].
    intros t y t' [->| ->]%jwrite_cases; done. }
  by apply K in E.
Qed.
Lemma kr_evolves {A} (m : jcmd A) : keeps_requests m -> along evolves m.
Proof. intros H s r s' E%H. by apply evolves_same. Qed.
Lemma evolves_transition id f to rev h fields : calm fields = true -> to <> "WAITING_EXTERNAL" ->
  along evolves (transition_external_action_request id f to rev h fields).
Proof.
  intros C N s [o|e] s' E.
  - apply request_transition_ok in E as (now & _ & M). eapply evolves_settles; [exact M|]. intros. by apply calm_pace.
  - apply request_transition_err in E. apply evolves_same. by rewrite E.
Qed.
Lemma evolves_authoritative id lock job ep f to rev o clear fields : calm fields = true -> to <> "WAITING_EXTERNAL" ->
  along evolves (transition_external_action_request_authoritative id lock job ep f to rev o clear fields).
Proof.
  intros C N s [r|e] s' E.
  - apply request_authoritative_ok in E as (now & _ & _ & M). eapply evolves_settles; [exact M|]. intros. by apply calm_pace.
  - apply request_authoritative_err in E. apply evolves_same. by rewrite E.
Qed.
Lemma request_inserted id x t : request_of id (set jt_requests (fun l => (l ++ [x])%list) t)
  = match request_of id t with
    | Some r => Some r
    | None => if String.eqb (rq_request_id x) id then Some x else None
    end.
Proof. apply (by_id_snoc rq_request_id). Qed.
Lemma evolves_create n : nr_state n = "PENDING" -> along evolves (create_external_action_request n).
Proof.
  intros P s [[o []]|e] s' E.
  - apply create_request_ok in E as (now & N & _ & T). intros id. rewrite T, request_inserted.
    destruct (request_of id (js_t s)) as [r|]; [exists r; split; [done|]; unfold life; reflexivity|].
    case_match; [|done]. intros r' [= <-]. exists (request_row n now). split; [by repeat split|]. unfold life. reflexivity.
  - apply create_request_ok in E as (T & _). apply evolves_same. by rewrite T.
  - apply create_request_err in E. apply evolves_same. by rewrite E.
Qed.
End Store.

(** ** The operations of the broker *)
Section Broker.
Context {env : Env} {benv : BrokerEnv}.
Hypothesis provider_lives : forall calls c j, evolves j (snd (provider calls c j)).
Hypothesis observe_lives : forall calls c j, evolves j (snd (provider_observe calls c j)).

(** The calls that act on a request, and the calls its row accounts for. *)
Definition acts_on (id : string) (c : pcall) : bool :=
  String.eqb (rq_request_id (ear_row (pc_request c))) id && negb (String.eqb (pc_method c) "observe").
Definition calls_for (id : string) (l : list pcall) : Z := Z.of_nat (count_where (acts_on id) l).
Definition started (st : string) : bool := negb (str_in st ["PENDING"; "AUTHORIZED"; "WAITING_EXTERNAL"]).
Definition credit (r : Request) : Z := rq_attempt_count r + if started (rq_state r) then 1 else 0.
Definition credit_of (id : string) (t : JT) : Z := match request_of id t with Some r => credit r | None => 0 end.

(** Requests live on, and no call is made that their rows do not account for. *)
Definition accounted (s s' : BSt) : Prop :=
  evolves (b_js s) (b_js s') /\
  forall id, (calls_for id (b_calls s') + credit_of id (rows s) <= calls_for id (b_calls s) + credit_of id (rows s'))%Z.
#[local] Instance accounted_preorder : PreOrder accounted.
Proof.
  split.
  - intros s. split; [reflexivity | intros id; lia].
  - intros a b c [E A] [F B]. split; [by etrans|]. intros id. specialize (A id). specialize (B id). lia.
Qed.
Lemma credit_step r r' : life_step r r' -> (credit r <= credit r')%Z.
Proof.
  intros [(_ & E & _) P]. unfold credit, pace in *. unfold edge in E.
  destruct (of_value (rq_state r)) as [st|] eqn:V; [|done]. apply of_value_some in V. rewrite <- V. clear V.
  apply str_in_In in E.
  destruct st; cbn in E; repeat destruct E as [E|E]; try done; rewrite <- E in *; cbn in *; lia.
Qed.
Lemma credit_life r r' : life r r' -> (credit r <= credit r')%Z.
Proof. induction 1 as [|r r1 r' S L IH]; [lia|]. apply credit_step in S. lia. Qed.
Lemma credit_evolves id s s' : evolves s s' -> (credit_of id (js_t s) <= credit_of id (js_t s'))%Z.
Proof.
  intros E. specialize (E id). unfold credit_of. destruct (request_of id (js_t s)) as [r|].
  - destruct E as (r' & -> & L). by apply credit_life.
  - destruct (request_of id (js_t s')) as [r'|]; [|lia]. destruct (E r' eq_refl) as (r0 & (P & _ & A) & L).
    apply credit_life in L. unfold credit in L at 1. rewrite P, A in L. cbn in L. lia.
Qed.
Lemma ac_quiet s s' : evolves (b_js s) (b_js s') -> (forall id, calls_for id (b_calls s') = calls_for id (b_calls s)) ->
  accounted s s'.
Proof. intros E C. split; [done|]. intros id. pose proof (credit_evolves id _ _ E). rewrite C. lia. Qed.
Lemma ac_store {A} (m : jcmd A) : along evolves m -> along accounted (in_store m).
Proof.
  intros H s r s'. unfold in_store. destruct (m (b_js s)) as [x j] eqn:E. apply H in E. intros [= _ <-]. by apply ac_quiet.
Qed.
Lemma ac_keeps {A} (m : jcmd A) : keeps_requests m -> along accounted (in_store m).
Proof. intros H. by apply ac_store, kr_evolves. Qed.
Lemma ac_now : along accounted broker_now.
Proof. intros s r s' [= _ <-]. apply ac_quiet; [reflexivity | done]. Qed.
Lemma count_snoc {A} (p : A -> bool) l x : count_where p (l ++ [x])%list = (count_where p l + if p x then 1 else 0)%nat.
Proof. unfold count_where. rewrite List.filter_app, length_app. cbn. by destruct (p x). Qed.
Lemma calls_snoc id l c : calls_for id (l ++ [c])%list = (calls_for id l + if acts_on id c then 1 else 0)%Z.
Proof. unfold calls_for. rewrite count_snoc. destruct (acts_on id c); lia. Qed.
Lemma ac_observe r : along accounted (observe r).
Proof.
  intros s x s'. unfold observe. pose proof (observe_lives (b_calls s) (mkCall "observe" (from_row r)) (b_js s)) as H.
  destruct (provider_observe _ _ _) as [a j]. intros [= _ <-]. apply ac_quiet; [done|]. intros id. cbn.
  rewrite calls_snoc. unfold acts_on. cbn. rewrite andb_false_r. lia.
Qed.
Lemma ac_fenced job ep lock r to owner clear fields : calm fields = true -> RequestState_value to <> "WAITING_EXTERNAL" ->
  along accounted (fenced_move job ep lock r to owner clear fields).
Proof.
  intros C N s x s'. unfold fenced_move.
  destruct (in_store _ s) as [[o|e] s1] eqn:E;
    apply (ac_store _ (evolves_authoritative _ _ _ _ _ _ _ _ _ _ C N)) in E;
    [|destruct (raced e)]; by intros [= _ <-].
Qed.
Lemma find_reads {A} (f : JT -> A) : reads (jquery f).
Proof. unfold jquery. auto with reads. Qed.
Lemma kr_verify p : keeps_requests (verify_provenance p).
Proof.
  assert (P : PreOrder (fun s s' : JSt => jt_requests (js_t s') = jt_requests (js_t s))) by (split; congruence).
  change (along (fun s s' : JSt => jt_requests (js_t s') = jt_requests (js_t s)) (verify_provenance p)).
  unfold verify_provenance, prove.
  repeat first [ al_step | apply kr_reads, find_reads | apply kr_core ].
Qed.
Ltac ac := repeat first
  [ simple apply ac_now | simple apply ac_observe | simple apply ac_fenced; [reflexivity | done]
  | simple apply ac_store, evolves_transition; [reflexivity | done] | simple apply ac_store, evolves_create; reflexivity
  | simple apply ac_keeps; solve [ apply kr_reads, find_reads | apply kr_core | apply kr_acquire | apply kr_release
                          | apply kr_audit | apply kr_verify ]
  | al_step ].
Lemma ac_current r : along accounted (current r).
Proof. unfold current, get_request. ac. Qed.
Lemma calm_app a b : calm a = true -> calm b = true -> calm (a ++ b)%list = true.
Proof. unfold calm. rewrite forallb_app. by intros -> ->. Qed.
Lemma ac_finalize job ep lock r to c e oid st : RequestState_value to <> "WAITING_EXTERNAL" ->
  along accounted (_finalize job ep lock r to c e oid st).
Proof.
  intros N. unfold _finalize, audit. apply al_bind_known; [exact _ | ac |]. intros f s s1 F.
  assert (C : calm f = true). { destruct st; inv_ok F; done. }
  repeat first [simple apply ac_current | simple apply ac_fenced; [| exact N] | ac].
  cbn. apply calm_app; [by destruct oid | done].
Qed.

(** A program run on a row read earlier: the table's row has gone on from it. *)
Definition since (r : Request) (s : BSt) : Prop :=
  exists r', request_of (rq_request_id r) (rows s) = Some r' /\ life r r'.
Definition accounted_at (r : Request) {A} (m : bcmd A) : Prop := forall s x s', since r s -> m s = (x, s') -> accounted s s'.
Lemma since_on r s s' : since r s -> accounted s s' -> since r s'.
Proof.
  intros (r1 & E & L) [V _]. specialize (V (rq_request_id r)). rewrite E in V. destruct V as (r2 & E2 & L2).
  exists r2. split; [done|]. unfold life in *. by etrans.
Qed.
Lemma at_along r {A} (m : bcmd A) : along accounted m -> accounted_at r m.
Proof. intros H s x s' _. apply H. Qed.
Lemma at_bind r {A B} (m : bcmd A) (k : A -> bcmd B) : along accounted m -> (forall a, accounted_at r (k a)) ->
  accounted_at r (x ← m; k x).
Proof.
  intros Hm Hk s x s' I. unfold mbind, M_bind. destruct (m s) as [[a|e] s1] eqn:E; apply Hm in E.
  - intros K. apply Hk in K; [by etrans | by eapply since_on].
  - by intros [= _ <-].
Qed.
Lemma at_wait_move job ep lock r owner fields now_a l :
  (rq_attempt_count r + 1 <= MAX_RETRY_ATTEMPTS)%Z -> calm l = true ->
  fields = R_attempt_count (rq_attempt_count r + 1) :: now_a :: l -> calm [now_a] = true ->
  accounted_at r (fenced_move job ep lock r RS_WAITING_EXTERNAL owner false fields).
Proof.
  intros N C -> C1 s x s' (r1 & E & L). unfold fenced_move, in_store.
  destruct (transition_external_action_request_authoritative _ _ _ _ _ _ _ _ _ _ _) as [[o|e] j] eqn:T.
  - intros [= _ <-]. apply request_authoritative_ok in T as (now & _ & _ & M). apply ac_quiet; [|done].
    eapply evolves_settles; [exact M|]. destruct M as (r2 & E2 & _ & V & _).
    rewrite E in E2. injection E2 as <-. apply life_same in L as ->; [|done]. intros r' E'. rewrite E in E'.
    injection E' as <-. unfold pace. rewrite settled_state, settled_attempt_set; [done|].
    cbn in C1. cbn. rewrite andb_true_r in C1. by rewrite C1.
  - apply request_authoritative_err in T. assert (Q : accounted s (s <| b_js := j |>))
      by (apply ac_quiet; [apply evolves_same; cbn; by rewrite T | done]).
    destruct (raced e); by intros [= _ <-].
Qed.
Lemma at_wait job ep lock r c d : accounted_at r (_bounded_wait job ep lock r c d).
Proof.
  unfold _bounded_wait. destruct (MAX_RETRY_ATTEMPTS <? rq_attempt_count r + 1)%Z eqn:N.
  - apply at_along, ac_finalize. done.
  - apply Z.ltb_ge in N. apply at_bind; [ac | intros now]. apply at_bind; [ac | intros next]. cbv zeta.
    intros s x s' I. unfold mbind, M_bind.
    destruct (fenced_move _ _ _ _ _ _ _ _ _) as [[m|e] s1] eqn:F;
      eapply at_wait_move in F; try done; [|by destruct c, d |by intros [= _ <-] |by destruct c, d].
    intros R. assert (A : along accounted (match m with inl u => mret u | inr _ => current r end))
      by (destruct m; [ac | apply ac_current]).
    apply A in R. by etrans.
Qed.
Lemma at_settle job ep lock r x : accounted_at r (_settle job ep lock r x).
Proof.
  unfold _settle. repeat case_match; try (apply at_along, ac_finalize; done); apply at_wait.
Qed.

(** One call on [r] is not accounted for. *)
Definition accounted_but (r : Request) (s s' : BSt) : Prop :=
  evolves (b_js s) (b_js s') /\
  forall id, (calls_for id (b_calls s') + credit_of id (rows s)
              <= calls_for id (b_calls s) + credit_of id (rows s') + if String.eqb (rq_request_id r) id then 1 else 0)%Z.
Lemma but_around r a b c d : accounted a b -> accounted_but r b c -> accounted c d -> accounted_but r a d.
Proof.
  intros [E1 A1] [E2 A2] [E3 A3]. split; [etrans; [exact E1 | by etrans]|].
  intros id. specialize (A1 id). specialize (A2 id). specialize (A3 id). lia.
Qed.
Lemma accounted_weak r s s' : accounted s s' -> accounted_but r s s'.
Proof. intros [E A]. split; [done|]. intros id. specialize (A id). destruct (String.eqb _ _); lia. Qed.
Lemma call_but m r s x s' : call_provider m r s = (x, s') -> accounted_but r s s'.
Proof.
  unfold call_provider. pose proof (provider_lives (b_calls s) (mkCall m (from_row r)) (b_js s)) as H.
  destruct (provider _ _ _) as [a j]. intros [= _ <-]. split; [done|]. intros id. cbn [b_calls set].
  pose proof (credit_evolves id _ _ H) as C. cbn [snd] in C. cbn [b_js]. rewrite calls_snoc. unfold acts_on. cbn [pc_request ear_row from_row pc_method].
  match goal with |- context [credit_of id ?t] => lazymatch t with rows s => fail | _ => change t with (js_t j) end end.
  destruct (String.eqb (rq_request_id r) id), (negb _); cbn [andb]; lia.
Qed.
Lemma ac_write_disabled job ep lock r : along accounted (write_disabled job ep lock r).
Proof. unfold write_disabled. apply ac_finalize. done. Qed.
(** From EXECUTING on: at most one call. *)
Definition rest_of_drive (job : string) (ep : Z) (lock : string) (r : Request) : bcmd (option Request) :=
  if str_in (rq_action r) MUTATION_ACTIONS && negb write_enabled then write_disabled job ep lock r else
  pre_error ← _check_preconditions r;
  match pre_error with
  | Some e => _finalize job ep lock r RS_BLOCKED (Some FAILURE_PRECONDITION_FAILED) (PStr e) None None
  | None =>
      a ← _dispatch r;
      match result_of a with
      | None => write_disabled job ep lock r
      | Some result => _settle job ep lock r result
      end
  end.
Lemma rest_but job ep lock r s x s' : since r s -> rest_of_drive job ep lock r s = (x, s') -> accounted_but r s s'.
Proof.
  intros I. unfold rest_of_drive. destruct (_ && _); [intros R; apply accounted_weak; by apply ac_write_disabled in R|].
  unfold mbind at 1, M_bind at 1.
  assert (Q : along accounted (_check_preconditions r)) by (unfold _check_preconditions; ac).
  destruct (_check_preconditions r s) as [[[e|]|e] s1] eqn:P; apply Q in P.
  - intros R. apply accounted_weak. apply ac_finalize in R; [by etrans | done].
  - pose proof (since_on _ _ _ I P) as I1. unfold mbind, M_bind.
    destruct (_dispatch r s1) as [[a|e] s2] eqn:D.
    + assert (B : accounted_but r s1 s2).
      { unfold _dispatch in D. case_match; [by apply call_but in D|]. injection D as _ <-. apply accounted_weak. reflexivity. }
      assert (I2 : since r s2). { destruct B as [V _]. destruct I1 as (r1 & E & L). specialize (V (rq_request_id r)).
        rewrite E in V. destruct V as (r2 & E2 & L2). exists r2. split; [done|]. unfold life in *. by etrans. }
      intros R. eapply but_around; [exact P | exact B |]. destruct (result_of a) as [y|].
      * by eapply at_settle.
      * by apply ac_write_disabled in R.
    + unfold _dispatch, call_provider in D. destruct (str_in _ _); [|done]. by destruct (provider _ _ _).
  - intros [= _ <-]. by apply accounted_weak.
Qed.
Lemma edge_executing st : edge st "EXECUTING" = true -> started st = false.
Proof.
  unfold edge. destruct (of_value st) as [x|] eqn:V; [|done]. apply of_value_some in V as <-. by destruct x.
Qed.
Lemma ac_drive job ep lock r : along accounted (_drive job ep lock r).
Proof.
  intros s x s'. unfold _drive, mbind at 1, M_bind at 1. destruct (fenced_move _ _ _ _ _ _ _ _ s) as [[m|e] s1] eqn:F.
  2:{ intros [= _ <-]. by eapply ac_fenced in F. }
  destruct m as [o|e].
  2:{ intros R%ac_current. eapply ac_fenced in F; [|done..]. by etrans. }
  unfold fenced_move, in_store in F.
  destruct (transition_external_action_request_authoritative _ _ _ _ _ _ _ _ _ _ _) as [[o'|e'] j] eqn:T;
    [|destruct (raced e'); discriminate F]. injection F as -> <-.
  apply request_authoritative_ok in T as (now & _ & _ & M).
  assert (E1 : evolves (b_js s) j) by (eapply evolves_settles; [exact M | intros; by apply calm_pace]).
  pose proof (settles_this _ _ _ _ _ _ _ _ _ _ M) as N. pose proof M as (r0 & C0 & St & _ & Ed & -> & _).
  set (r1 := settled _ _ _ _ r0) in *. unfold mbind at 1, M_bind at 1. cbn [some_or mret M_ret].
  intros R. assert (K : rq_request_id r1 = rq_request_id r). { unfold r1. rewrite settled_id. by apply row_by_id in C0 as [-> _]. }
  set (s1 := s <| b_js := j |>) in *.
  assert (I : since r1 s1). { exists r1. rewrite K. split; [exact N | unfold life; reflexivity]. }
  change (rest_of_drive job ep lock r1 s1 = (x, s')) in R. apply rest_but in R as [E2 A2]; [|exact I].
  split; [by etrans|]. intros id. specialize (A2 id). cbn [b_calls s1 set] in A2.
  pose proof (credit_evolves id _ _ E1) as G. change (js_t j) with (rows s1) in G.
  rewrite K in A2. destruct (String.eqb_spec (rq_request_id r) id) as [E|D]; [|clearbody r1 s1; lia].
  assert (P : (credit_of id (rows s1) = credit_of id (rows s) + 1)%Z).
  { rewrite <- E. unfold credit_of. change (rows s1) with (js_t j). rewrite N, C0. unfold credit, r1.
    rewrite settled_attempts, settled_state, St, (edge_executing _ Ed) by done. cbn. lia. }
  clearbody r1 s1. lia.
Qed.

Lemma ac_reconcile_locked job ep lock r : along accounted (_reconcile_locked job ep lock r).
Proof.
  unfold _reconcile_locked, audit. apply al_bind; [exact _ | ac | intros a].
  assert (N : along accounted (_ ← in_store (append_external_action_audit (rq_request_id r) AUDIT_RECONCILED None
    (Some "RECONCILED_NOT_FOUND") None); current r)) by (repeat first [simple apply ac_current | ac]).
  destruct a as [[[] oid st]| |e]; try exact N.
  apply al_bind_known; [exact _ | ac |]. intros f s s1 F.
  assert (C : calm f = true) by (destruct st; inv_ok F; done).
  repeat first [simple apply ac_current | simple apply ac_fenced; [| done] | ac]. exact C.
Qed.
Lemma ac_policy r : along accounted (evaluate_policy r).
Proof. unfold evaluate_policy, _task_id_for. ac. Qed.
Lemma ac_expired r : along accounted (_check_expired r).
Proof. unfold _check_expired. ac. Qed.
Lemma ac_expire r : along accounted (_expire r).
Proof. unfold _expire, move, audit. repeat first [simple apply ac_current | ac]. Qed.
Lemma ac_deny r w : along accounted (_deny r w).
Proof. unfold _deny, move, audit. repeat first [simple apply ac_current | ac]. Qed.
Ltac acs := repeat first
  [ simple apply ac_policy | simple apply ac_expired | simple apply ac_expire | simple apply ac_deny
  | simple apply ac_drive | simple apply ac_reconcile_locked | ac ].

Inductive broker_ev : Type :=
| BCreate (n : NewAction)
| BAutonomous (request_id : string)
| BOwner (request_id approval_id : string)
| BExecute (request_id job : string) (epoch : Z)
| BRedrive (request_id job : string) (epoch : Z)
| BReconcile (request_id job : string) (epoch : Z)
| BLock (e : lock_ev).
Definition broker_exec (e : broker_ev) (s : BSt) : BSt :=
  match e with
  | BCreate n => snd (create_request n s)
  | BAutonomous id => snd (authorize_autonomous id s)
  | BOwner id a => snd (authorize_owner id a s)
  | BExecute id j ep => snd (execute id j ep s)
  | BRedrive id j ep => snd (redrive_waiting id j ep s)
  | BReconcile id j ep => snd (reconcile id j ep s)
  | BLock e => s <| b_js ::= lock_exec e |>
  end.
Fixpoint broker_run (evs : list broker_ev) (s : BSt) : BSt :=
  match evs with [] => s | e :: evs => broker_run evs (broker_exec e s) end.
Lemma along_snd {A} (R : BSt -> BSt -> Prop) (m : bcmd A) s : along R m -> R s (snd (m s)).
Proof. intros H. destruct (m s) as [r s'] eqn:E. by apply H in E. Qed.
Lemma broker_exec_accounted e s : accounted s (broker_exec e s).
Proof.
  destruct e; cbn [broker_exec]; try apply along_snd.
  - unfold create_request, audit. ac.
  - unfold authorize_autonomous, authorize, audit, get_request. acs.
  - unfold authorize_owner, authorize, audit, get_request. acs.
  - unfold execute, drive_from, under_lock, get_request. acs.
  - unfold redrive_waiting, drive_from, under_lock, get_request. acs.
  - unfold reconcile, under_lock, get_request. acs.
  - apply ac_quiet; [|done]. apply evolves_same. apply lock_exec_requests.
Qed.
Lemma broker_run_accounted evs s : accounted s (broker_run evs s).
Proof.
  revert s. induction evs as [|e evs IH]; intros s; cbn; [reflexivity|]. etrans; [apply broker_exec_accounted | apply IH].
Qed.

(** C14: the requests refine the abstract life cycle, whatever brokers, lock and lease holders
    do in whatever order: each row goes along the edges of the map, one revision a step,
    a wait using up one of eight attempts; what was asked for never changes; a request in
    a terminal state stays as it is, and a new one starts PENDING. *)
Theorem requests_follow_life_cycle evs s id :
  match request_of id (rows s) with
  | Some r => exists r', request_of id (rows (broker_run evs s)) = Some r' /\ life r r' /\ asked r' = asked r /\
      (is_terminal_state (rq_state r) = true -> r' = r)
  | None => forall r', request_of id (rows (broker_run evs s)) = Some r' -> exists r0, new_request r0 /\ life r0 r'
  end.
Proof.
  destruct (broker_run_accounted evs s) as [E _]. specialize (E id). destruct (request_of id (rows s)) as [r|]; [|done].
  destruct E as (r' & E & L). exists r'. split; [done|]. split; [done|]. split; [|by apply life_terminal].
  clear E. induction L as [|r r1 r' [(A & _) _] _ IH]; [done | congruence].
Qed.

(** C22: no retry storm: of the calls that act on a request, reads and writes, at most nine ever
    reach the provider, eight retries and the first, however often and by whom the request
    is executed, re-driven and reconciled; the row counts them. *)
Theorem provider_calls_bounded evs s id :
  b_calls s = [] -> (forall r, request_of id (rows s) = Some r -> new_request r) ->
  (calls_for id (b_calls (broker_run evs s)) <= MAX_RETRY_ATTEMPTS + 1)%Z /\
  forall r, request_of id (rows (broker_run evs s)) = Some r ->
    (0 <= rq_attempt_count r <= MAX_RETRY_ATTEMPTS)%Z /\
    (calls_for id (b_calls (broker_run evs s)) <= credit r)%Z.
Proof.
  intros C N. destruct (broker_run_accounted evs s) as [E A]. specialize (E id). specialize (A id).
  rewrite C in A. change (calls_for id []) with 0%Z in A.
  assert (Z0 : credit_of id (rows s) = 0%Z).
  { unfold credit_of. destruct (request_of id (rows s)) as [r|]; [|done]. destruct (N r eq_refl) as (P & _ & K).
    unfold credit. by rewrite P, K. }
  assert (B : forall r, request_of id (rows (broker_run evs s)) = Some r -> (0 <= rq_attempt_count r <= MAX_RETRY_ATTEMPTS)%Z).
  { intros r R. destruct (request_of id (rows s)) as [r0|].
    - destruct E as (r1 & E1 & L). rewrite R in E1. injection E1 as <-. eapply attempts_bounded; [exact L|].
      destruct (N r0 eq_refl) as (_ & _ & ->). done.
    - destruct (E r R) as (r0 & (_ & _ & K) & L). eapply attempts_bounded; [exact L|]. by rewrite K. }
  unfold credit_of in A at 2. destruct (request_of id (rows (broker_run evs s))) as [r|].
  - specialize (B r eq_refl). split.
    + unfold credit in A. destruct (started (rq_state r)); lia.
    + intros r' [= <-]. split; [done | lia].
  - split; [unfold MAX_RETRY_ATTEMPTS; lia | done].
Qed.
End Broker.
