(* ===== verification/BrokerGuard.v ===== *)
(** * BrokerGuard: what stands between a request and the provider.

    [policy_allows] and [policy_class] specify the policy; [dispatch_guarded] is the
    path of a call; the last two theorems are about ways to authorise and to refuse a
    request that do not work. *)
From S2P Require Import Prelude PyVal Json Models Timestamps Trust Gates JobState Concurrency Recovery CoreStore Core Dispatch JobRows Worktree Leases ActionLocks JobSteps JobInv LeaseSpec LeaseSession JobFrame LockSpec Canonical Candidates CandidateSpec Outbox Requests Redact Broker BrokerSpec Along.
#[local] Open Scope string_scope.

Section Guard.
Context {env : Env} {benv : BrokerEnv}.

(** ** The policy *)
(** The request is for this provider, account, repository and action. *)
Definition admitted (r : Request) : Prop :=
  action_taxonomy (rq_action r) <> None /\ rq_provider r = provider_name /\
  permits (rq_provider r) (rq_account r) (rq_repository r) (rq_action r) allowlist = true.
(** [m] reads the store and leaves the provider alone. *)
Definition looks (s s' : BSt) : Prop := quiet (b_js s) (b_js s') /\ b_calls s' = b_calls s.
#[local] Instance looks_preorder : PreOrder looks.
Proof. split; [done|]. intros a b c [E F] [G H]. split; [by eapply quiet_trans | congruence]. Qed.
Lemma lk_store {A} (m : jcmd A) : reads m -> along looks (in_store m).
Proof. intros H s r s'. unfold in_store. destruct (m (b_js s)) as [x j] eqn:E. apply H in E. by intros [= _ <-]. Qed.
Lemma lk_now : along looks broker_now.
Proof. by intros s r s' [= _ <-]. Qed.
Ltac lk := repeat first [ simple apply lk_now | simple apply lk_store; solve [apply find_reads | apply get_request_reads] | al_step ].
Lemma lk_policy r : along looks (evaluate_policy r).
Proof. unfold evaluate_policy, _task_id_for. lk. Qed.
Lemma lk_expired r : along looks (_check_expired r).
Proof. unfold _check_expired. lk. Qed.
Lemma lk_get id : along looks (get_request id).
Proof. unfold get_request. lk. Qed.
Lemma policy_admits r s p s' : evaluate_policy r s = (Ok p, s') -> fst p <> DENY -> admitted r.
Proof.
  unfold evaluate_policy, admitted, permits. destruct (action_taxonomy (rq_action r)) as [t|]; [|by intros [= <- _]].
  destruct (String.eqb_spec provider_name (rq_provider r)) as [E|]; cbn [negb]; [|by intros [= <- _]].
  destruct (entry_for _ _ _) as [e|]; [|by intros [= <- _]].
  destruct (str_in (rq_repository r) _); cbn [negb]; [|by intros [= <- _]].
  destruct (str_in (rq_action r) (ae_permitted_actions e)); cbn [negb]; [|by intros [= <- _]].
  intros _ _. done.
Qed.

(** ** The path of a call *)
Definition source_done (r : Request) (t : JT) : Prop :=
  exists j, job_of (rq_source_job_id r) t = Some j /\ j_terminal j = Some "DONE".
Definition silent (s s' : BSt) : Prop := b_calls s' = b_calls s.
#[local] Instance silent_preorder : PreOrder silent.
Proof. split; [done|]. unfold silent. intros a b c. congruence. Qed.
Lemma si_store {A} (m : jcmd A) : along silent (in_store m).
Proof. intros s r s'. unfold in_store. destruct (m (b_js s)). by intros [= _ <-]. Qed.
Lemma si_now : along silent broker_now.
Proof. by intros s r s' [= _ <-]. Qed.
Lemma si_fenced job ep lock r to o c f : along silent (fenced_move job ep lock r to o c f).
Proof.
  intros s x s'. unfold fenced_move. destruct (in_store _ s) as [[o'|e] s1] eqn:E; apply si_store in E;
    [|destruct (raced e)]; by intros [= _ <-].
Qed.
Ltac si := repeat first [ simple apply si_store | simple apply si_now | simple apply si_fenced | al_step ].
Lemma si_finalize job ep lock r to c e oid st : along silent (_finalize job ep lock r to c e oid st).
Proof. unfold _finalize, audit, current, get_request. si. Qed.
Lemma si_settle job ep lock r x : along silent (_settle job ep lock r x).
Proof. unfold _settle, _bounded_wait, current, get_request. repeat first [simple apply si_finalize | si]. Qed.
Lemma si_refuse r w : along silent (_expire r) /\ along silent (_deny r w).
Proof. unfold _expire, _deny, move, audit, current, get_request. split; si. Qed.

Lemma eb_store_requests {A} (m : jcmd A) : keeps_requests m -> forall s x s', in_store m s = (x, s') ->
  jt_requests (rows s') = jt_requests (rows s).
Proof. intros H s x s'. unfold in_store. destruct (m (b_js s)) as [y j] eqn:E. apply H in E. by intros [= _ <-]. Qed.
Lemma acquire_jobs l j ep s x s' : in_store (try_acquire_action_lock l j ep) s = (x, s') -> jt_jobs (rows s') = jt_jobs (rows s).
Proof.
  unfold in_store. destruct (try_acquire_action_lock l j ep (b_js s)) as [[b|e] s1] eqn:E; intros [= _ <-].
  - apply acquire_ok in E as (now & _ & _ & A). unfold acquired in A. cbn. repeat case_match; by destruct A as [_ ->].
  - apply (failed_lock_op _ [_; _; _]) in E. cbn. by rewrite E.
Qed.

(** A call of [drive_from]: the request, now EXECUTING, is what was read in the right state;
    [m] is the store at the call. *)
Record guarded (from_state : RequestState) (request_id job : string) (ep : Z) (s : BSt) (r : Request) (m : JSt) : Prop := {
  g_read : exists r0, request_of request_id (rows s) = Some r0 /\ rq_state r0 = RequestState_value from_state /\
             moves_on r0 r /\ admitted r0;
  g_row : request_of request_id (js_t m) = Some r /\ rq_state r = "EXECUTING";
  g_holder : exists lock now m0, _lock_name r = Ok lock /\ read_between m0 m now /\ holds_both lock job ep now (js_t m);
  g_source : source_done r (js_t m);
  g_writes : str_in (rq_action r) MUTATION_ACTIONS = true -> write_enabled = true
}.

Lemma fenced_move_cases job ep lock r to o c f s x s' : fenced_move job ep lock r to o c f s = (x, s') ->
  (exists u now, x = Ok (inl u) /\ read_between (b_js s) (b_js s') now /\ holds_both lock job ep now (rows s) /\
     settles_row (rq_request_id r) (rq_state r) (RequestState_value to) (rq_revision r) now (mkHolder o (Some ep) c) f
       (rows s) u (rows s') /\ b_calls s' = b_calls s)
  \/ (rows s' = rows s /\ b_calls s' = b_calls s /\ forall u, x <> Ok (inl u)).
Proof.
  unfold fenced_move, in_store. destruct (transition_external_action_request_authoritative _ _ _ _ _ _ _ _ _ _ _) as [[u|e] j] eqn:E.
  - intros [= <- <-]. left. apply request_authoritative_ok in E as (now & B & H & M). exists u, now. auto.
  - apply request_authoritative_err in E. right. destruct (raced e); injection H as <- <-; done.
Qed.
Lemma settles_keeps_holder lock job ep now id f to rev now' h fields t o t' :
  settles_row id f to rev now' h fields t o t' -> holds_both lock job ep now t -> holds_both lock job ep now t'.
Proof. intros (r & _ & _ & _ & _ & _ & ->). done. Qed.
Lemma drive_guarded st id job ep lock r s s1 x s' : request_of id (rows s) = Some r ->
  rq_state r = RequestState_value st -> admitted r -> _lock_name r = Ok lock ->
  request_of id (rows s1) = request_of id (rows s) ->
  _drive job ep lock r s1 = (x, s') ->
  b_calls s' = b_calls s1 \/ exists r1 m, guarded st id job ep s r1 m /\
    b_calls s' = (b_calls s1 ++ [mkCall (rq_action r1) (from_row r1)])%list.
Proof.
  intros R0 St Ad Lk Same. unfold _drive. intros R.
  apply bind_split in R as [(m & s2 & F & R)|(e & F & _)].
  2:{ left. by apply fenced_move_cases in F as [(u & now & [=] & _)|(_ & -> & _)]. }
  apply fenced_move_cases in F as [(u & now & [= ->] & B & H & M & C)|(_ & C & N)].
  2:{ left. destruct m as [u|e]; [by destruct (N u)|]. rewrite <- C.
      assert (K : along silent (current r)) by (unfold current, get_request; si). by apply K in R. }
  assert (K : rq_request_id r = id) by (by apply row_by_id in R0 as [-> _]).
  pose proof (settles_this _ _ _ _ _ _ _ _ _ _ M) as N. rewrite K in *.
  destruct (settles_step _ _ _ _ _ _ _ _ _ _ M) as (r0 & r1 & E0 & -> & L).
  rewrite Same, R0 in E0. injection E0 as <-.
  assert (S1 : rq_state r1 = "EXECUTING").
  { destruct M as (r2 & _ & _ & _ & _ & [= ->] & _). apply settled_state. }
  assert (Lk1 : _lock_name r1 = Ok lock).
  { destruct L as (A & _ & _). unfold asked in A. unfold _lock_name in *. injection A as -> _ _ _ _ -> _ _ _ _ _ _ _ _ _ _ _. done. }
  apply bind_split in R as [(r' & s3 & G & R)|(e & G & _)]; [|done]. apply mret_ok in G as [<- <-]. rewrite <- C.
  assert (WD : along silent (write_disabled job ep lock r1)) by (unfold write_disabled; apply si_finalize).
  destruct (str_in (rq_action r1) MUTATION_ACTIONS && negb write_enabled) eqn:W; [left; by apply WD in R|].
  apply bind_split in R as [(p & s3 & P & R)|(e & P & _)].
  2:{ left. unfold _check_preconditions in P. apply bind_split in P as [(? & ? & _ & [=])|(e' & [=] & _)]. }
  unfold _check_preconditions in P. apply bind_split in P as [(o & s4 & G & P)|(e & [=] & _)].
  unfold in_store, get_supervisor_job, jquery in G. cbn in G. injection G as <- <-. injection P as <- <-.
  destruct (job_of (rq_source_job_id r1) (rows s2)) as [j|] eqn:J.
  2:{ left. apply si_finalize in R. exact R. }
  destruct (ostr_eqb (j_terminal j) (Some "DONE")) eqn:D.
  2:{ left. apply si_finalize in R. exact R. }
  apply ostr_eqb_eq in D.
  assert (Rest : forall a, along silent (match result_of a with
                 | None => write_disabled job ep lock r1 | Some y => _settle job ep lock r1 y end)).
  { intros a. destruct (result_of a); [apply si_settle | exact WD]. }
  apply bind_split in R as [(a & s4 & G & R)|(e & G & _)]; unfold _dispatch in G.
  - apply Rest in R. unfold silent in R. destruct (str_in (rq_action r1) DISPATCHED).
    2:{ left. injection G as _ <-. exact R. }
    right. exists r1, (b_js s2). split.
    + split; [|done| |by exists j|].
      * exists r. split; [done|]. split; [done|]. done.
      * exists lock, now, (b_js s1). split; [done|]. split; [done|]. by eapply settles_keeps_holder.
      * intros W1. rewrite W1 in W. cbn in W. by destruct write_enabled.
    + rewrite R. unfold call_provider in G. destruct (provider _ _ _) as [y k]. injection G as _ <-. cbn. done.
  - exfalso. destruct (str_in (rq_action r1) DISPATCHED); [|discriminate G]. unfold call_provider in G. by destruct (provider _ _ _).
Qed.

End Guard.
