(* ===== verification/OwnerGate.v ===== *)
(** * OwnerGate: two ways to decide on a request that do not work.

    [owner_gate_closed]: in a store whose approvals the core wrote, the owner's approval
    authorises no action that any adapter is asked for.  [denied_wait_stays_waiting]: a
    waiting request that the policy denies is audited as executed and denied, and stays
    where it was. *)
From S2P Require Import Prelude PyVal Json Models Timestamps Trust Gates JobState Concurrency Recovery CoreStore Core Dispatch Frames Session Scenario History Lifecycle Authority.
From S2P Require Import JobRows Worktree Leases ActionLocks JobSteps JobInv LeaseSpec LeaseSession JobFrame LockSpec Canonical Candidates CandidateSpec Outbox Requests Redact Broker BrokerSpec Along BrokerGuard.
#[local] Open Scope string_scope.

(** ** What an approval of the core can be about *)
Definition gateable (a : OwnerApproval) : Prop := In (ap_action a) EXTERNAL_ACTIONS.
Section Gateable.
Context {env : Env}.
Abbreviation askable := (focus db_approvals (stable (Forall gateable))).
Lemma ask_update strict P p f : (forall a, ap_action (f a) = ap_action a) -> askable strict P (update_rows db_approvals p f).
Proof.
  intros K. apply focus_update; [apply _|]. intros db _ _ F. cbn. unfold update_where.
  apply List.Forall_forall. intros x (a & <- & Ia)%in_map_iff. rewrite List.Forall_forall in F. specialize (F a Ia).
  unfold gateable. destruct (p a); [rewrite K|]; exact F.
Qed.
Lemma ask_insert strict P a : gateable a -> askable strict P (_insert_approval a).
Proof.
  intros G. apply focus_insert; [apply _|]. intros db _ _ F. apply Forall_app. split; [exact F | by constructor].
Qed.
Lemma ask_mark_approved strict id at_ : askable strict any (_mark_approved id at_).
Proof. by apply ask_update. Qed.
Lemma ask_mark_rejected strict id at_ : askable strict any (_mark_rejected id at_).
Proof. by apply ask_update. Qed.
Lemma ask_consume strict id at_ ex : askable strict any (_consume_approval_with_execution id at_ ex).
Proof. by apply ask_update. Qed.
Lemma ask_mark_expired strict id at_ : askable strict any (_mark_expired id at_).
Proof. by apply ask_update. Qed.
Hint Resolve ask_mark_approved ask_mark_rejected ask_consume ask_mark_expired : focus.
Lemma ask_gated strict tid action scope role source : In action EXTERNAL_ACTIONS ->
  askable strict any (request_gated_work tid action scope role source).
Proof.
  intros G. unfold request_gated_work. know.
  apply focus_bind; [apply _ | by apply ask_insert | focus_pure].
Qed.
Lemma ask_request strict tid action scope role source key :
  askable strict any (request_action tid action scope role source key).
Proof.
  unfold request_action. know. branch; [focus_pure | | focus_pure].
  pose proof (fun strict => ask_gated strict tid action scope a0 source (proj1 (classify_gated _ _ E))) as G.
  focus_tac.
Qed.
Lemma ask_run c : askable true any (run c).
Proof.
  destruct c; cbn [run]; unfold void.
  all: try (apply focus_keep; [apply _ | keep_tac]).
  all: first [apply focus_bind; [apply _ | apply ask_request | focus_pure] | focus_pure].
Qed.
Lemma approvals_gateable cs : Forall gateable (db_approvals (db_after cs)).
Proof.
  unfold db_after. enough (forall s, Forall gateable (db_approvals (st_db s)) ->
    Forall gateable (db_approvals (st_db (run_all cs s)))) as H by (apply H; constructor).
  induction cs as [|c cs IH]; intros s A; [exact A|]. cbn. apply IH.
  destruct (run c s) as [r s'] eqn:E. exact (ask_run c s r s' I E (or_introl eq_refl) A).
Qed.
End Gateable.

(** ** The owner gate of the broker *)
Section OwnerGate.
Context {env : Env} {benv : BrokerEnv}.
Lemma core_silent {A} (m : cmd A) : forall s x s', in_store (on_core m) s = (x, s') -> rows s' = rows s /\ b_calls s' = b_calls s.
Proof. intros s x s'. unfold in_store, on_core. destruct (m _). by intros [= _ <-]. Qed.
Tactic Notation "step" hyp(R) ident(v) ident(G) := let s := fresh "s" in let E := fresh "E" in
  apply bind_split in R as [(v & s & G & R)|(? & G & E)]; [|discriminate E].

(** The request an owner authorises is the one an approved, trusted approval of the store
    names: its action is the approval's. *)
Lemma authorize_owner_approval id aid s o s' : authorize_owner id aid s = (Ok o, s') ->
  exists r a, request_of id (rows s) = Some r /\ In a (db_approvals (st_db (js_core (b_js s)))) /\ ap_action a = rq_action r /\ admitted r.
Proof.
  unfold authorize_owner. intros R. step R o0 G. pose proof G as R0. unfold get_request, in_store in R0. cbn in R0.
  injection R0 as R0 _. apply lk_get in G as [Q1 _].
  step R r G. apply some_or_ok in G as [-> <-]. step R u G. apply raise_unless_ok in G as [_ <-].
  step R expired G. apply lk_expired in G as [Q2 _]. destruct expired; [step R u1 G1; discriminate R|].
  step R p P. pose proof P as Q3. apply lk_policy in Q3 as [Q3 _]. step R u1 G. apply raise_when_ok in G as [D <-].
  step R ap G. unfold in_store, on_core, get_approval, query, gets in G. cbn in G. injection G as A <-.
  step R a G. apply some_or_ok in G as [-> <-]. step R u2 G. apply raise_unless_ok in G as [S <-].
  step R now G1. step R u3 G2. step R u4 G3. step R job G4. step R scope G5. step R u5 G. apply raise_unless_ok in G as [B _].
  exists r, a. split; [done|]. split.
  - destruct Q1 as (D1 & _), Q2 as (D2 & _), Q3 as (D3 & _). unfold jdb in *. rewrite <- D1, <- D2, <- D3.
    by apply find_some in A as [A _].
  - split; [|by apply bool_decide_eq_false, (policy_admits _ _ _ _ P) in D].
    unfold approval_bound in B. destruct (j_task_id <$> job); [|discriminate].
    apply andb_true_iff in B as [[[_ B]%andb_true_iff _]%andb_true_iff _]. by apply String.eqb_eq.
Qed.

(** C39: the owner gate of the broker is closed: when the store holds the approvals the core
    wrote in some session, the only action an approval can authorise is [deploy_production],
    and that action is handed to no adapter. *)
Theorem owner_gate_closed cs id aid s o s' :
  db_approvals (st_db (js_core (b_js s))) = db_approvals (db_after cs) ->
  authorize_owner id aid s = (Ok o, s') ->
  exists r, request_of id (rows s) = Some r /\ rq_action r = "deploy_production" /\
            str_in (rq_action r) DISPATCHED = false.
Proof.
  intros C (r & a & R & Ia & E & Ad & _)%authorize_owner_approval. rewrite C in Ia.
  pose proof (approvals_gateable cs) as G. rewrite List.Forall_forall in G. specialize (G a Ia). unfold gateable in G.
  rewrite E in G. exists r. split; [done|]. revert Ad. cbn in G.
  repeat destruct G as [<-|G]; try done; try (by intros []).
Qed.

(** ** Refusing what waits *)
Lemma policy_refuses r s : ~ admitted r -> exists why, evaluate_policy r s = (Ok (DENY, why), s).
Proof.
  intros N. unfold evaluate_policy, admitted, permits in *. destruct (action_taxonomy (rq_action r)) as [t|]; [|by eexists].
  destruct (String.eqb_spec provider_name (rq_provider r)) as [E|]; cbn [negb]; [|by eexists].
  destruct (entry_for _ _ _) as [e|]; [|by eexists].
  destruct (str_in (rq_repository r) _); cbn [negb]; [|by eexists].
  destruct (str_in (rq_action r) (ae_permitted_actions e)); cbn [negb]; [|by eexists].
  exfalso. by apply N.
Qed.
Lemma read_row id s : get_request id s = (Ok (request_of id (rows s)), s).
Proof. unfold get_request, in_store. cbn. by destruct s. Qed.
(** A move along no edge is refused, and what the caller gets is the row as it is. *)
Lemma move_refused r to fields s o s' : edge (rq_state r) (RequestState_value to) = false ->
  request_of (rq_request_id r) (rows s) = Some r ->
  except (move r to fields) refused (current r) s = (Ok o, s') -> o = Some r /\ rows s' = rows s.
Proof.
  intros E C. unfold except. destruct (move r to fields s) as [[u|e] s1] eqn:M.
  - intros _. exfalso. unfold move, in_store in M.
    destruct (transition_external_action_request _ _ _ _ _ _ _) as [[x|x] j] eqn:T; [|discriminate].
    apply request_transition_ok in T as (now & _ & (q & _ & F & _ & D & _)). congruence.
  - assert (K : rows s1 = rows s).
    { unfold move, in_store in M. destruct (transition_external_action_request _ _ _ _ _ _ _) as [[x|x] j] eqn:T; [discriminate|].
      apply request_transition_err in T. injection M as _ <-. exact T. }
    destruct (refused e); [|discriminate]. intros R.
    assert (L : current r s1 = (Ok (Some r), s1)).
    { unfold current, mbind, M_bind. by rewrite read_row, K, C. }
    rewrite L in R. by injection R as <- <-.
Qed.
Lemma audit_ok id event cls why detail s u s' : audit id event cls why detail s = (Ok u, s') ->
  exists a, rows s' = set jt_audit (fun l => (l ++ [a])%list) (rows s) /\ xa_request_id a = id /\ xa_event_type a = event /\
    xa_failure_class a = cls.
Proof.
  unfold audit, in_store. destruct (append_external_action_audit _ _ _ _ _ _) as [[x|x] j] eqn:T; [|discriminate].
  intros [= _ <-]. unfold append_external_action_audit, get_external_action_request, jquery in T.
  do 2 apply unless_bind_ok in T as (_ & T). apply M_bind_ok in T as (row & s1 & G & T). apply gets_ok in G as [_ <-].
  apply unless_bind_ok in T as (_ & T). apply M_bind_ok in T as (now & s2 & N & T). apply jnow_iso_reads in N as (_ & T2 & _).
  apply M_bind_ok in T as (w & s3 & G & T).
  assert (T3 : js_t s3 = js_t s2) by (unfold on_core in G; destruct (uuid _); by injection G as _ <-).
  apply jinsert_ok in T as [-> _]. cbn. rewrite T3, T2. by eexists.
Qed.

(** A waiting request that the policy denies stays waiting: [redrive_waiting] writes the
    audit row of an execution that was denied, returns the request as it was and changes
    no request, for the life cycle has no edge from WAITING_EXTERNAL to DENIED. *)
Theorem denied_wait_stays_waiting id job ep s r s1 o s' :
  request_of id (rows s) = Some r -> rq_state r = RequestState_value RS_WAITING_EXTERNAL ->
  _check_expired r s = (Ok false, s1) -> ~ admitted r ->
  redrive_waiting id job ep s = (Ok o, s') ->
  o = Some r /\ jt_requests (rows s') = jt_requests (rows s) /\
  exists a, jt_audit (rows s') = (jt_audit (rows s) ++ [a])%list /\ xa_request_id a = rq_request_id r /\
    xa_event_type a = AUDIT_EXECUTED /\ xa_failure_class a = Some FAILURE_POLICY_DENIED.
Proof.
  intros C W X N. destruct (policy_refuses r s1 N) as [why P]. pose proof X as L. apply lk_expired in L as [(_ & T & _) _].
  unfold redrive_waiting, drive_from. intros R.
  step R row G. rewrite read_row in G. injection G as <- <-. rewrite C in R.
  step R r' G. apply mret_ok in G as [<- <-]. rewrite W in R. change (is_terminal_state _) with false in R.
  step R u G. apply raise_unless_ok in G as [_ <-]. step R b G. rewrite X in G. injection G as <- <-.
  step R p G. rewrite P in G. injection G as <- <-. cbn in R. unfold _deny in R.
  assert (K : rq_request_id r = id) by (by apply row_by_id in C as [-> _]).
  step R q G. apply move_refused in G as [-> T1]; [| by rewrite W | by rewrite K, T].
  step R v G. apply mret_ok in R as [<- <-]. apply audit_ok in G as (a & -> & A1 & A2 & A3). rewrite T1, T.
  split; [done|]. split; [done|]. by exists a.
Qed.
End OwnerGate.
