(* ===== verification/BrokerScenario.v ===== *)
(** * BrokerScenario: an integrated candidate is pushed.

    The store is the one the merge queue of [MergeScenario] leaves.  The provider is never
    available, so that a push waits, is driven again and gives up. *)
From S2P Require Import Prelude PyVal Json Models Timestamps Trust Gates JobState Concurrency Recovery CoreStore Core Dispatch Frames Session Scenario History Lifecycle Authority.
From S2P Require Import JobRows Worktree Leases ActionLocks JobSteps JobInv LeaseSpec LeaseSession JobScenario JobFrame LockSpec Canonical Candidates MergeQueue CandidateSpec MergeScenario Outbox Requests Redact Broker BrokerSpec Along BrokerGuard OwnerGate.
#[local] Open Scope string_scope.
#[local] Existing Instance sample_env.

#[export] Instance sample_broker : BrokerEnv := {|
  provider_name := "github";
  write_enabled := true;
  provider _ _ s := (Raised ProviderUnavailable, s);
  provider_observe _ _ s := (Result (mkProviderObservation false None None), s);
  allowlist := [mkAllowlistEntry "github" "acct" ["/r"] ["push_feature_branch"; "deploy_production"] [] []];
  standing_policy := mkStandingPolicy ["push_feature_branch"] ["deploy_production"];
  broker_mac_key := "key";
  broker_clock n := mkDatetime (738944 * US_PER_DAY + Z.of_nat n * (60 * US_PER_SECOND))%Z None
|}.
Definition merged_st : JSt := q_js (snd (process_target "/r" "main" job_id0 1 true queue_st)).
Definition broker_st : BSt := mkBSt (snd (renew_lease job_id0 "host-a" 1 86400 merged_st)) [] 0.
Definition facts : pydict :=
  [(KStr "version", PInt 1); (KStr "source_job_id", PStr source_id); (KStr "source_candidate_id", PStr cand_id);
   (KStr "repository", PStr "/r"); (KStr "source_head", PStr source_sha); (KStr "integrated_head", PStr merged_sha);
   (KStr "branch", PStr "main"); (KStr "scope", PStr "push")].
Definition signed : pyval :=
  match compute_provenance_mac facts "key" with
  | Ok mac => PDict (facts ++ [(KStr "provenance_hash", PStr mac)])%list
  | Err _ => PNone
  end.
Definition ask (action key : string) (params : pydict) : NewAction :=
  mkNewAction "github" "acct" action "/r" "ref" "scope" (PDict params) PNone key signed 86400.
Definition a_push : NewAction :=
  ask "push_feature_branch" "k1" [(KStr "branch", PStr "argent/u1-fix"); (KStr "sha", PStr merged_sha)].
Definition push_id : string := request_id_for "github" "acct" "/r" "push_feature_branch" "k1".
Definition asked_st : BSt := broker_exec (BCreate a_push) broker_st.
Definition ready_st : BSt := broker_exec (BAutonomous push_id) asked_st.
Example push_created : (fun r => (rq_state r, rq_policy_class r)) <$> request_of push_id (rows asked_st) = Some ("PENDING", "BOUNDED_WRITE").
Proof. vm_compute. reflexivity. Qed.
Definition push_evs : list broker_ev :=
  [BExecute push_id job_id0 1; BRedrive push_id job_id0 1; BRedrive push_id job_id0 1; BRedrive push_id job_id0 1;
   BRedrive push_id job_id0 1; BRedrive push_id job_id0 1; BRedrive push_id job_id0 1; BRedrive push_id job_id0 1;
   BRedrive push_id job_id0 1; BRedrive push_id job_id0 1; BReconcile push_id job_id0 1].
#[local] Notation drained_st := (broker_run push_evs ready_st).
(** Nine calls, after which the request has failed for good. *)
Example push_gives_up : (fun r => (rq_state r, rq_attempt_count r, rq_last_error_code r)) <$> request_of push_id (rows drained_st)
    = Some ("FAILED", 8%Z, Some "unavailable") /\
  map pc_method (b_calls drained_st) = repeat "push_feature_branch" 9.
Proof. vm_compute. split; reflexivity. Qed.

(** ** Witnesses *)
Lemma sample_lives (calls : list pcall) (c : pcall) (j : JSt) : evolves j (snd (provider calls c j)).
Proof. by apply evolves_same. Qed.
Lemma sample_observe_lives (calls : list pcall) (c : pcall) (j : JSt) : evolves j (snd (provider_observe calls c j)).
Proof. by apply evolves_same. Qed.
Definition push_row : Request := default (mkRequest "" "" "" "" "" "" "" "" "" "" "" None "" 0 "" "" None 0 None 0 None None None 0 None None None None "" "")
  (request_of push_id (rows ready_st)).
Lemma requests_follow_life_cycle_witness : exists r', request_of push_id (rows drained_st) = Some r' /\ life push_row r'.
Proof.
  pose proof (requests_follow_life_cycle sample_lives sample_observe_lives push_evs ready_st push_id) as H.
  assert (E : request_of push_id (rows ready_st) = Some push_row) by (vm_compute; reflexivity).
  rewrite E in H. destruct H as (r' & E' & L & _). exists r'. split; [exact E' | exact L].
Defined.
Definition is_new (o : option Request) : bool :=
  match o with
  | Some r => String.eqb (rq_state r) "PENDING" && (rq_revision r =? 0)%Z && (rq_attempt_count r =? 0)%Z
  | None => true
  end.
Lemma is_new_request o r : is_new o = true -> o = Some r -> new_request r.
Proof.
  intros N ->. cbn in N. apply andb_true_iff in N as [[A%String.eqb_eq B%Z.eqb_eq]%andb_true_iff C%Z.eqb_eq]. done.
Qed.
Definition all_evs : list broker_ev := BAutonomous push_id :: push_evs.
Lemma provider_calls_bounded_witness : b_calls asked_st = [] /\
  (calls_for push_id (b_calls (broker_run all_evs asked_st)) <= MAX_RETRY_ATTEMPTS + 1)%Z.
Proof.
  assert (C : b_calls asked_st = []) by (vm_compute; reflexivity).
  assert (N : is_new (request_of push_id (rows asked_st)) = true) by (vm_compute; reflexivity).
  split; [exact C|].
  exact (proj1 (provider_calls_bounded sample_lives sample_observe_lives all_evs asked_st push_id C
                  (fun r => is_new_request _ r N))).
Defined.
#[local] Notation pushed := (execute push_id job_id0 1 ready_st).

(** An approved deployment, the one action the core lets the owner approve. *)
Definition deploy_id : string := request_id_for "github" "acct" "/r" "deploy_production" "k2".
Definition deploy_st : BSt := broker_exec (BCreate (ask "deploy_production" "k2" [])) broker_st.
Definition scope_of (r : option Request) : string :=
  match r with
  | Some r => match _approval_scope r with Ok t => t | Err _ => EmptyString end
  | None => EmptyString
  end.
Definition deploy_row : option Request := request_of deploy_id (rows deploy_st).
Definition deploy_scope : string := scope_of deploy_row.
Definition deploy_session : list command :=
  (start_session ++ [RequestAction "u1" "deploy_production" deploy_scope "lead" lead None;
                     Approve "u5" OWNER_SOURCE "u1" "deploy_production" deploy_scope None])%list.
Definition approved_st : BSt :=
  deploy_st <| b_js ::= set js_core (set st_db (set db_approvals (fun _ => db_approvals (db_after deploy_session)))) |>.
Definition state_of (r : res exc (option Request)) : option string :=
  match r with Ok (Some r) => Some (rq_state r) | _ => None end.
#[local] Notation deploy_run := (authorize_owner deploy_id "u5" approved_st).
Lemma approved_core : db_approvals (st_db (js_core (b_js approved_st))) = db_approvals (db_after deploy_session).
Proof. vm_compute. reflexivity. Qed.
Example deploy_authorized : state_of (fst deploy_run) = Some "AUTHORIZED".
Proof. vm_compute. reflexivity. Qed.
Lemma owner_gate_closed_witness : exists o r, fst deploy_run = Ok o /\ request_of deploy_id (rows approved_st) = Some r /\
  rq_action r = "deploy_production".
Proof.
  destruct (fst deploy_run) as [o|e] eqn:E.
  - destruct (owner_gate_closed deploy_session deploy_id "u5" approved_st o (snd deploy_run)
      approved_core (LockSpec.outcome _ _ E)) as (r & R & A & _).
    exists o, r. split; [reflexivity|]. split; [exact R | exact A].
  - exfalso. pose proof deploy_authorized as D. by rewrite E in D.
Defined.

(** The allowlist is emptied while a push waits. *)
Definition revoked_broker : BrokerEnv := {|
  provider_name := "github"; write_enabled := true;
  provider _ _ s := (Raised ProviderUnavailable, s);
  provider_observe _ _ s := (Result (mkProviderObservation false None None), s);
  allowlist := []; standing_policy := standing_policy; broker_mac_key := "key"; broker_clock := broker_clock
|}.
Definition waiting_st : BSt := snd (execute push_id job_id0 1 ready_st).
Definition waiting_row : Request := default push_row (request_of push_id (rows waiting_st)).
#[local] Notation denied_run := (@redrive_waiting sample_env revoked_broker push_id job_id0 1 waiting_st).
Lemma revoked_refuses r : ~ @admitted revoked_broker r.
Proof. intros (_ & _ & A). by unfold permits in A. Qed.
Lemma denied_wait_stays_waiting_witness : fst denied_run = Ok (Some waiting_row) /\
  jt_requests (rows (snd denied_run)) = jt_requests (rows waiting_st).
Proof.
  assert (E : fst denied_run = Ok (Some waiting_row)) by (vm_compute; reflexivity). split; [exact E|].
  assert (C : request_of push_id (rows waiting_st) = Some waiting_row) by (vm_compute; reflexivity).
  assert (W : rq_state waiting_row = RequestState_value RS_WAITING_EXTERNAL) by (vm_compute; reflexivity).
  assert (X : fst (@_check_expired revoked_broker waiting_row waiting_st) = Ok false) by (vm_compute; reflexivity).
  exact (proj1 (proj2 (@denied_wait_stays_waiting sample_env revoked_broker push_id job_id0 1 waiting_st waiting_row
    _ _ _ C W (LockSpec.outcome _ _ X) (revoked_refuses waiting_row) (LockSpec.outcome _ _ E)))).
Defined.
