(* ===== verification/Waits.v ===== *)
(** * Waits: jobs that wait for the outside world
    (src/argent_core/external_wait.py; src/argent_core/store.py from
    [_insert_external_wait] to [complete_wait_and_requeue]).

    The state pairs the store with the number of adapter calls and the readings of the
    manager's clock.  An adapter answers a check given the calls before it and may change
    the store meanwhile, as other processes do; what it answers is untrusted: the fields
    of an observation are arbitrary objects.  The jitter is the default of the
    constructor, none. *)
From S2P Require Import Prelude PyVal Json Models Timestamps JobState CoreStore JobRows Worktree Leases IsoParse Canonical Candidates Outbox Broker.
#[local] Open Scope string_scope.

Definition ALLOWED_WAIT_KINDS : list string := ["CI"; "UPSTREAM"; "RATE_LIMIT"; "NETWORK"; "TIMER"].
Definition OBS_PENDING : string := "PENDING".
Definition OBS_READY : string := "READY".
Definition OBS_FAILED : string := "FAILED".
Definition OBS_UNKNOWN : string := "UNKNOWN".
Definition ALLOWED_OBS_STATES : list string := [OBS_PENDING; OBS_READY; OBS_FAILED; OBS_UNKNOWN].
Definition MAX_REF_LEN : nat := 256.
Definition MAX_SUBJECT_LEN : nat := 128.
Definition MAX_EVENT_VERSION : Z := 2 ^ 31 - 1.
Definition MAX_REASON_LEN : nat := 256.
Definition _bounded_reason (text : string) : string := String.substring 0 MAX_REASON_LEN text.
(** [_parse_iso] of this module: no stripping, normalised to UTC. *)
Definition wait_parse_iso (iso : string) : res exc Z :=
  dt ← fromisoformat iso; _ ← res_unless (in_range (to_utc dt)) OverflowError; Ok (to_utc dt).
(** [type(exc).__name__]. *)
Definition type_name (e : exc) : string :=
  match e with
  | NotFound => "NotFound" | LeaseError => "LeaseError" | LeaseFencedError => "LeaseFencedError"
  | IntegrityError => "IntegrityError" | ValueError => "ValueError" | TypeError => "TypeError"
  | KeyError => "KeyError" | AttributeError => "AttributeError" | OverflowError => "OverflowError"
  | _ => "Exception"
  end.

(** ** Data *)
Record WaitSpec : Type := mkWaitSpec {
  ws_kind : string;
  ws_provider : string;
  ws_ref : string;
  ws_expected_subject : option string;
  ws_deadline_at : option string;
  ws_next_check_at : option string
}.
Record WaitObservation : Type := mkWaitObservation {
  wo_provider : pyval;
  wo_ref : pyval;
  wo_state : pyval;
  wo_subject : pyval;
  wo_event_version : pyval
}.
Record WaitCheckResult : Type := mkWaitCheckResult {
  wc_wait_id : string;
  wc_outcome : string;
  wc_reason : option string;
  wc_job_id : option string;
  wc_queue_reason : option string;
  wc_next_check_at : option string
}.
Inductive checked (A : Type) : Type :=
| Observed (o : A)
| Other_object
| Check_raised (type_name : string).
Arguments Observed {A} o.
Arguments Other_object {A}.
Arguments Check_raised {A} type_name.

Class WaitEnv := {
  wait_adapters : list string;
  adapter_validate_ref : string -> string -> bool;
  adapter_check : string -> nat -> Wait -> JSt -> checked WaitObservation * JSt;
  wait_clock : nat -> datetime;
  wait_kind_filter : option (list string)
}.

(** ** Rows *)
Inductive wassign : Type :=
| W_check_attempt (v : Z)
| W_next_check_at (v : string)
| W_updated_at (v : string)
| W_last_observed_state (v : option string)
| W_event_version (v : Z)
| W_terminal_observed_at (v : option string)
| W_ci_policy (v : option string)
| W_ci_evidence (v : option string).
Definition wapply (a : wassign) (w : Wait) : Wait :=
  match a with
  | W_check_attempt v => w <| ew_check_attempt := v |>
  | W_next_check_at v => w <| ew_next_check_at := v |>
  | W_updated_at v => w <| ew_updated_at := v |>
  | W_last_observed_state v => w <| ew_last_observed_state := v |>
  | W_event_version v => w <| ew_event_version := v |>
  | W_terminal_observed_at v => w <| ew_terminal_observed_at := v |>
  | W_ci_policy v => w <| ew_ci_policy := v |>
  | W_ci_evidence v => w <| ew_ci_evidence := v |>
  end.
Definition wapply_all (l : list wassign) (w : Wait) : Wait := fold_left (fun w a => wapply a w) l w.
Definition is_wait (wait_id : string) (w : Wait) : bool := String.eqb (ew_wait_id w) wait_id.
Definition wait_of (wait_id : string) (t : JT) : option Wait := by_id ew_wait_id wait_id (jt_waits t).
Definition open_wait (w : Wait) : bool := negb (is_some (ew_terminal_observed_at w)).
Definition due (now_iso : string) (w : Wait) : bool :=
  open_wait w && (str_leb (ew_next_check_at w) now_iso
                  || match ew_deadline_at w with Some d => str_leb d now_iso | None => false end).
Definition by_next_check (a b : Wait) : bool := str_leb (ew_next_check_at a) (ew_next_check_at b).

(** ** The store's operations *)
Section Store.
Context {env : Env}.
Definition _insert_external_wait (w : Wait) : jcmd unit := jinsert jt_waits w.
Definition get_external_wait (wait_id : string) : jcmd (option Wait) := jquery (wait_of wait_id).
Definition list_external_waits (job_id : option string) : jcmd (list Wait) :=
  jquery (fun t => List.filter (fun w => match job_id with Some j => String.eqb (ew_job_id w) j | None => true end)
                               (jt_waits t)).
Definition list_due_external_waits (now_iso : string) (limit : nat) (kind : option string) : jcmd (list Wait) :=
  jquery (fun t => firstn limit (sort_by by_next_check
    (List.filter (fun w => due now_iso w && match kind with Some k => String.eqb (ew_kind w) k | None => true end)
                 (jt_waits t)))).
Definition _update_external_wait (wait_id : string) (fields : list wassign) : jcmd nat :=
  match fields with
  | [] => mret 0
  | _ => jupdate jt_waits (is_wait wait_id) (wapply_all fields)
  end.
(** The single-active instance is this one. *)
Definition instance_holds (expected_instance_id : option string) (t : JT) : bool :=
  match expected_instance_id with
  | None => true
  | Some id =>
      match jt_instance t with
      | Some i => String.eqb (si_instance_id i) id && String.eqb (si_status i) "ACTIVE"
      | None => false
      end
  end.
Definition update_external_wait_fenced (wait_id : string) (expected_instance_id : option string)
    (fields : list wassign) : jcmd nat :=
  match fields with
  | [] => mret 0
  | _ => jtransaction (
      holds ← jquery (instance_holds expected_instance_id);
      if negb holds then mret 0
      else jupdate jt_waits (fun w => is_wait wait_id w && open_wait w) (wapply_all fields))
  end.
Definition wait_entry_fields (w : Wait) : list assign :=
  [A_owner_instance_id None; A_lease_expires_at None; A_wait_kind (ew_kind w);
   A_next_wake_at (Some (ew_next_check_at w)); A_next_eligible_at (Some (ew_next_check_at w)); A_next_action "WAIT"].
Definition transition_to_waiting_external (job_id : string) (w : Wait) (owner : string) (lease_epoch : Z) : jcmd Job :=
  _ ← _validate_lease_owner (Some owner);
  _ ← lift (_validate_enum_fields [A_wait_kind (ew_kind w)]);
  now_iso ← jnow_iso;
  jtransaction (
    j ← need_job job_id;
    _ ← raise_unless (String.eqb (j_primary_state j) (value PS_RUNNING)) LeaseError;
    _ ← check_holder LeaseError j owner lease_epoch now_iso;
    _ ← _insert_external_wait w;
    _transition_job job_id (value PS_WAITING_EXTERNAL) "WAITING_RUN" (wait_entry_fields w) false true
      (mkCas (Some (value PS_RUNNING)) (Some owner) (Some lease_epoch) true) now_iso).

Record Wake : Type := mkWake {
  wk_queue_reason : string;
  wk_error_class : string;
  wk_observed_state : option string;
  wk_event_version : Z;
  wk_ci_evidence : option string
}.
Definition wake_assigns (k : Wake) (now_iso : string) : list wassign :=
  ([W_terminal_observed_at (Some now_iso); W_updated_at now_iso]
   ++ (match wk_observed_state k with Some s => [W_last_observed_state (Some s)] | None => [] end)
   ++ [W_event_version (wk_event_version k)]
   ++ (match wk_ci_evidence k with Some e => [W_ci_evidence (Some e)] | None => [] end))%list.
Definition wake_fields (k : Wake) (now_iso : string) : list assign :=
  [A_queue_reason (wk_queue_reason k); A_error_class (wk_error_class k); A_wait_kind (value WK_NONE);
   A_owner_instance_id None; A_lease_expires_at None; A_next_eligible_at (Some now_iso); A_next_wake_at None;
   A_next_action "NONE"].
Definition complete_wait_and_requeue (wait_id : string) (k : Wake) (expected_instance_id : option string)
    (now_iso : string) : jcmd (option Job) :=
  jtransaction (
    holds ← jquery (instance_holds expected_instance_id);
    if negb holds then mret None else
    row ← get_external_wait wait_id;
    match row with
    | None => mret None
    | Some w =>
        if negb (open_wait w) then mret None else
        j ← need_job (ew_job_id w);
        if negb (String.eqb (j_primary_state j) (value PS_WAITING_EXTERNAL)) then mret None else
        _ ← _update_external_wait wait_id (wake_assigns k now_iso);
        updated ← _transition_job (ew_job_id w) (value PS_QUEUED) "WAITING_RUN" (wake_fields k now_iso) false true
          (mkCas (Some (value PS_WAITING_EXTERNAL)) None None false) now_iso;
        mret (Some updated)
    end).
End Store.

(** ** The manager *)
Record WSt : Type := mkWSt { w_js : JSt; w_checks : nat; w_ticks : nat }.
#[export] Instance WSt_eta : EtaExpand WSt := fun x => mkWSt (w_js x) (w_checks x) (w_ticks x).
Notation wcmd := (M WSt exc).
Definition wait_store {A} (m : jcmd A) : wcmd A := fun s => let (r, j) := m (w_js s) in (r, s <| w_js := j |>).
(** [try: m except Exception as exc: h exc]. *)
Definition rescue {A} (m : wcmd A) (h : exc -> wcmd A) : wcmd A := fun s =>
  match m s with
  | (Err e, s') => h e s'
  | r => r
  end.
(** A field of an observation that must be a text. *)
Definition obs_text (v : pyval) : string := match v with PStr s => s | _ => EmptyString end.
Definition allowed_obs_state (v : pyval) : bool := match v with PStr s => str_in s ALLOWED_OBS_STATES | _ => false end.
Definition obs_version (v : pyval) : Z := match v with PInt z => z | _ => 0%Z end.
Definition valid_version (v : pyval) : bool :=
  match v with PInt z => (0 <=? z)%Z && (z <=? MAX_EVENT_VERSION)%Z | _ => false end.
Definition bounded_text (max_len : nat) (v : pyval) : bool :=
  match v with PStr s => bounded max_len s | _ => false end.
(** [(outcome, reason)] of a malformed observation; a state that cannot be hashed raises. *)
Definition _validate_observation (obs : WaitObservation) (w : Wait) : res exc (option (string * string)) :=
  if negb (bounded_text MAX_PROVIDER_LEN (wo_provider obs)) then Ok (Some ("malformed", "bad_provider"))
  else if negb (is_str (wo_provider obs) (ew_provider w)) then Ok (Some ("ignored", "wrong_provider"))
  else if negb (bounded_text MAX_REF_LEN (wo_ref obs)) then Ok (Some ("malformed", "bad_ref"))
  else if negb (is_str (wo_ref obs) (ew_ref w)) then Ok (Some ("ignored", "wrong_ref"))
  else if negb (hashable (wo_state obs)) then Err TypeError
  else if negb (allowed_obs_state (wo_state obs)) then
    Ok (Some ("malformed", _bounded_reason ("bad_state:" ++ repr (wo_state obs))))
  else if negb (valid_version (wo_event_version obs)) then Ok (Some ("malformed", "bad_event_version"))
  else match wo_subject obs with
       | PNone => Ok None
       | PStr s => Ok (if Nat.leb (String.length s) MAX_SUBJECT_LEN then None else Some ("malformed", "bad_subject"))
       | _ => Ok (Some ("malformed", "bad_subject"))
       end.

Section Manager.
Context {env : Env} {wenv : WaitEnv}.
Definition wait_now : wcmd string := fun s =>
  (format_in_range (wait_clock (w_ticks s)), s <| w_ticks ::= S |>).
Definition call_check (w : Wait) : wcmd (checked WaitObservation) := fun s =>
  let (a, j) := adapter_check (ew_provider w) (w_checks s) w (w_js s) in
  (Ok a, s <| w_js := j |> <| w_checks ::= S |>).

(** *** Wait entry *)
Definition _validate_kind (kind : string) : res exc unit := res_unless (str_in kind ALLOWED_WAIT_KINDS) ValueError.
Definition _validate_provider (provider : string) : res exc unit :=
  _ ← res_unless (bounded MAX_PROVIDER_LEN provider) ValueError;
  res_unless (str_in provider wait_adapters) ValueError.
Definition _validate_ref (provider ref : string) : res exc unit :=
  _ ← res_unless (bounded MAX_REF_LEN ref) ValueError;
  res_unless (adapter_validate_ref provider ref) ValueError.
Definition _validate_subject (subject : option string) : res exc unit :=
  match subject with
  | None => Ok tt
  | Some s => res_unless (Nat.leb (String.length s) MAX_SUBJECT_LEN) ValueError
  end.
Definition parse_opt (iso : option string) : res exc unit :=
  match iso with None => Ok tt | Some s => _ ← wait_parse_iso s; Ok tt end.
Definition next_check_of (next_check_at : option string) (now_iso : string) : res exc string :=
  match next_check_at with
  | None => _iso_add now_iso 60
  | Some n => _ ← wait_parse_iso n; Ok n
  end.
Definition new_wait_id : wcmd string := u ← wait_store (on_core uuid); mret ("wait:" ++ hex_of_uuid u).
Definition _build_wait_row (job_id : string) (spec : WaitSpec) (now_iso : string) : wcmd Wait :=
  _ ← lift (_validate_kind (ws_kind spec));
  _ ← lift (_validate_provider (ws_provider spec));
  _ ← lift (_validate_ref (ws_provider spec) (ws_ref spec));
  _ ← lift (_validate_subject (ws_expected_subject spec));
  _ ← raise_when (String.eqb (ws_kind spec) (value WK_CI)
                  && match ws_expected_subject spec with Some s => blank s | None => true end) ValueError;
  _ ← lift (parse_opt (ws_deadline_at spec));
  next_check_at ← lift (next_check_of (ws_next_check_at spec) now_iso);
  wait_id ← new_wait_id;
  mret (mkWait wait_id job_id (ws_kind spec) (ws_provider spec) (ws_ref spec) (ws_expected_subject spec) None
          next_check_at (ws_deadline_at spec) 0 0 None None None now_iso now_iso).
Definition enter_waiting_external (job_id : string) (spec : WaitSpec) (owner : string) (lease_epoch : Z) : wcmd Job :=
  now_iso ← wait_now;
  w ← _build_wait_row job_id spec now_iso;
  wait_store (transition_to_waiting_external job_id w owner lease_epoch).

(** *** The bounded checker *)
Definition _backoff (w : Wait) (now_iso : string) (observed_state : option string) (outcome reason : string)
  : wcmd WaitCheckResult :=
  let attempt := (ew_check_attempt w + 1)%Z in
  next_check_at ← lift (_iso_add now_iso (next_check_delay_seconds attempt));
  _ ← wait_store (_update_external_wait (ew_wait_id w)
        ([W_check_attempt attempt; W_next_check_at next_check_at; W_updated_at now_iso]
         ++ match observed_state with Some s => [W_last_observed_state (Some s)] | None => [] end)%list);
  mret (mkWaitCheckResult (ew_wait_id w) outcome (Some reason) (Some (ew_job_id w)) None (Some next_check_at)).
Definition _wake (w : Wait) (obs : option WaitObservation) (now_iso queue_reason error_class reason : string)
  : wcmd WaitCheckResult :=
  updated ← wait_store (complete_wait_and_requeue (ew_wait_id w)
    (mkWake queue_reason error_class (obs_text ∘ wo_state <$> obs)
       (match obs with Some o => obs_version (wo_event_version o) | None => ew_event_version w end) None) None now_iso);
  mret (match updated with
        | None => mkWaitCheckResult (ew_wait_id w) "ignored" (Some "already_handled") (Some (ew_job_id w)) None None
        | Some _ => mkWaitCheckResult (ew_wait_id w) "woke" (Some reason) (Some (ew_job_id w)) (Some queue_reason) None
        end).
Definition subject_is (obs : WaitObservation) (s : string) : bool := is_str (wo_subject obs) s.
Definition _process_observation (w : Wait) (now_iso : string) (obs : WaitObservation) : wcmd WaitCheckResult :=
  error ← lift (_validate_observation obs w);
  let state := Some (obs_text (wo_state obs)) in
  match error with
  | Some (outcome, reason) =>
      safe ← (if hashable (wo_state obs)
              then mret (if allowed_obs_state (wo_state obs) then state else None)
              else raise TypeError);
      _backoff w now_iso safe outcome reason
  | None =>
      if str_in (obs_text (wo_state obs)) [OBS_PENDING; OBS_UNKNOWN] then _backoff w now_iso state "pending" "pending" else
      match ew_expected_subject w, wo_subject obs with
      | Some _, PNone => _backoff w now_iso state "ignored" "missing_subject"
      | expected, _ =>
          if match expected with Some e => negb (subject_is obs e) | None => false end
          then _backoff w now_iso state "ignored" "stale_subject"
          else if (obs_version (wo_event_version obs) <=? ew_event_version w)%Z
          then _backoff w now_iso state "ignored" "stale_version"
          else _wake w (Some obs) now_iso (value QR_WAIT_EVENT) (value EC_NONE) "wait_event"
      end
  end.
Definition deadline_passed (w : Wait) (now_iso : string) : bool :=
  match ew_deadline_at w with Some d => str_leb d now_iso | None => false end.
Definition _process_wait (w : Wait) (now_iso : string) : wcmd WaitCheckResult :=
  if deadline_passed w now_iso then
    _wake w None now_iso (value QR_WAIT_DEADLINE) (value EC_EXTERNAL) "external_deadline"
  else if negb (str_in (ew_provider w) wait_adapters) then
    _backoff w now_iso None "unknown_provider" "provider_not_allowlisted"
  else
    a ← call_check w;
    match a with
    | Check_raised t => _backoff w now_iso None "adapter_error" (_bounded_reason t)
    | Other_object => _backoff w now_iso None "adapter_error" "bad_observation_type"
    | Observed obs => _process_observation w now_iso obs
    end.
Definition check_wait (now_iso : string) (w : Wait) : wcmd WaitCheckResult :=
  rescue (_process_wait w now_iso) (fun e => _backoff w now_iso None "adapter_error" (_bounded_reason (type_name e))).
Fixpoint mmap {A B} (f : A -> wcmd B) (l : list A) : wcmd (list B) :=
  match l with
  | [] => mret []
  | x :: l => y ← f x; ys ← mmap f l; mret (y :: ys)
  end.
Definition kept_kind (w : Wait) : bool :=
  match wait_kind_filter with None => true | Some ks => str_in (ew_kind w) ks end.
Definition check_due_waits (max_items : nat) : wcmd (list WaitCheckResult) :=
  if Nat.eqb max_items 0 then mret [] else
  now_iso ← wait_now;
  due ← wait_store (list_due_external_waits now_iso max_items None);
  mmap (check_wait now_iso) (List.filter kept_kind due).
End Manager.
