(* ===== verification/CiState.v ===== *)
(** * CiState: what the checks of a pull request amount to
    (src/argent_core/ci_external_wait.py up to the manager, and its GitHub adapter;
    [classify_gh_failure] of src/argent_core/github_provider_adapter.py).

    [gh] is the [gh] executable: it answers an argument vector given the vectors run
    before it.  A read may hold objects of other types in the places its validation
    looks at: [None] stands for a collection that is no list or tuple and for an element
    that is no [CiCheck]. *)
From S2P Require Import Prelude PyVal Json Models Concurrency JobRows Canonical Candidates Redact Broker Waits.
#[local] Open Scope string_scope.

Definition MAX_CI_EVIDENCE_BYTES : nat := 64 * 1024.
Definition MAX_CI_CHECKS : nat := 256.
Definition MAX_CI_CHECK_NAME_LEN : nat := 256.
Definition MAX_CI_RUN_REF_LEN : nat := 512.

Inductive CiState : Type :=
| CI_PENDING | CI_SUCCESS | CI_FAILURE | CI_CANCELLED | CI_TIMED_OUT | CI_ACTION_REQUIRED | CI_NEUTRAL | CI_SKIPPED
| CI_NO_CHECKS_CONFIGURED | CI_PROVIDER_UNAVAILABLE | CI_RATE_LIMITED | CI_UNKNOWN.
#[export] Instance CiState_eq_dec : EqDecision CiState.
Proof. solve_decision. Defined.
Definition CiState_value (x : CiState) : string :=
  match x with
  | CI_PENDING => "PENDING" | CI_SUCCESS => "SUCCESS" | CI_FAILURE => "FAILURE" | CI_CANCELLED => "CANCELLED"
  | CI_TIMED_OUT => "TIMED_OUT" | CI_ACTION_REQUIRED => "ACTION_REQUIRED" | CI_NEUTRAL => "NEUTRAL"
  | CI_SKIPPED => "SKIPPED" | CI_NO_CHECKS_CONFIGURED => "NO_CHECKS_CONFIGURED"
  | CI_PROVIDER_UNAVAILABLE => "PROVIDER_UNAVAILABLE" | CI_RATE_LIMITED => "RATE_LIMITED" | CI_UNKNOWN => "UNKNOWN"
  end.
Definition CI_TERMINAL_STATES : list string :=
  map CiState_value [CI_SUCCESS; CI_FAILURE; CI_CANCELLED; CI_TIMED_OUT; CI_ACTION_REQUIRED].
Definition CHECK_CONCLUSIONS : list string :=
  ["SUCCESS"; "FAILURE"; "CANCELLED"; "TIMED_OUT"; "ACTION_REQUIRED"; "NEUTRAL"; "SKIPPED"; "STALE"; "STARTUP_FAILURE"].
Definition CHECK_STATUSES : list string := ["QUEUED"; "IN_PROGRESS"; "COMPLETED"; "PENDING"; "UNKNOWN"].
Definition PR_OPEN : string := "OPEN".
Definition PR_CLOSED : string := "CLOSED".
Definition PR_MERGED : string := "MERGED".
Definition PR_UNKNOWN : string := "UNKNOWN".
Definition PR_STATES : list string := [PR_OPEN; PR_CLOSED; PR_MERGED; PR_UNKNOWN].
Definition PROVIDER_ERROR_UNAVAILABLE : string := "unavailable".
Definition PROVIDER_ERROR_RATE_LIMITED : string := "rate_limited".
Definition PROVIDER_ERROR_NETWORK : string := "network".
Definition PROVIDER_ERROR_UNKNOWN : string := "unknown".
Definition PROVIDER_ERRORS : list string :=
  [PROVIDER_ERROR_UNAVAILABLE; PROVIDER_ERROR_RATE_LIMITED; PROVIDER_ERROR_NETWORK; PROVIDER_ERROR_UNKNOWN].
Definition CI_FAIL_CODE : string := "CODE_FAILURE".
Definition CI_FAIL_INFRA : string := "INFRASTRUCTURE_FAILURE".
Definition CI_FAIL_CANCELLED : string := "CANCELLED".
Definition CI_FAIL_TIMEOUT : string := "TIMEOUT".
Definition CI_FAIL_PROVIDER : string := "PROVIDER".
Definition CI_FAIL_UNKNOWN : string := "UNKNOWN".
Definition _INFRA_MARKERS : list string :=
  ["deploy"; "preview"; "pages"; "netlify"; "vercel"; "release"; "infrastructure"; "infra"; "terraform"; "provision"].
Definition _CODE_MARKERS : list string :=
  ["test"; "lint"; "build"; "check"; "ci"; "type"; "unit"; "integration"; "e2e"; "format"; "coverage"; "mypy"; "pytest"].

(** ** References *)
Definition ci_ref (repository : string) (pr_number : Z) : res exc string :=
  _ ← res_when (blank repository) ValueError;
  _ ← res_unless (0 <? pr_number)%Z ValueError;
  let ref := repository ++ "#" ++ z_text pr_number in
  _ ← res_unless (Nat.leb (String.length ref) MAX_REF_LEN) ValueError;
  Ok ref.
Definition hash_char : ascii := "#"%char.
(** [ref.partition("#")]. *)
Fixpoint partition_hash (s : string) : string * option string :=
  match s with
  | EmptyString => (EmptyString, None)
  | String c s' =>
      if Ascii.eqb c hash_char then (EmptyString, Some s')
      else let (a, b) := partition_hash s' in (String c a, b)
  end.
Definition all_digits (s : string) : bool := truthy s && forallb is_digit (list_ascii_of_string s).
(** [int] refuses more than 4300 digits, and what [isdigit] accepts beyond 0-9. *)
Definition MAX_INT_DIGITS : nat := 4300.
Definition parse_ci_ref (ref : string) : res exc (string * Z) :=
  match partition_hash ref with
  | (repository, Some num) =>
      _ ← res_when (contains "#" num) ValueError;
      _ ← res_unless (truthy repository && contains "/" repository && all_digits num) ValueError;
      _ ← res_unless (Nat.leb (String.length num) MAX_INT_DIGITS) ValueError;
      let pr_number := Z.of_N (digits_val num) in
      _ ← res_unless (0 <? pr_number)%Z ValueError;
      Ok (repository, pr_number)
  | (_, None) => Err ValueError
  end.

(** ** Checks and reads *)
Record CiCheck : Type := mkCiCheck {
  ck_name : string;
  ck_conclusion : option string;
  ck_status : string;
  ck_run_ref : option string;
  ck_details_url : option string;
  ck_id : Z
}.
Record CiRead : Type := mkCiRead {
  cr_repository : string;
  cr_pr_number : Z;
  cr_pr_head_sha : pyval;
  cr_base_ref : pyval;
  cr_pr_state : string;
  cr_checks : option (list (option CiCheck));
  cr_provider_error : option string;
  cr_rate_limit_reset_at : option string;
  cr_event_version : pyval
}.
Definition checks_of (r : CiRead) : list CiCheck := omap id (default [] (cr_checks r)).
Definition _norm_check_name (name : pyval) : string :=
  match name with PStr s => String.substring 0 MAX_CI_CHECK_NAME_LEN (strip s) | _ => EmptyString end.
Definition _FAILING_CHECK_CONCLUSIONS : list string :=
  ["FAILURE"; "CANCELLED"; "TIMED_OUT"; "ACTION_REQUIRED"; "STARTUP_FAILURE"; "NEUTRAL"; "SKIPPED"; "STALE"].

(** The first check of a name. *)
Definition by_name (checks : list CiCheck) (name : string) : option CiCheck :=
  List.find (fun c => String.eqb (ck_name c) name) checks.
Definition concl (checks : list CiCheck) (name : string) : option string :=
  match by_name checks name with Some c => ck_conclusion c | None => None end.
Definition some_concl (checks : list CiCheck) (names cs : list string) : bool :=
  existsb (fun n => match concl checks n with Some c => str_in c cs | None => false end) names.
Definition aggregate_ci_state (checks : list CiCheck) (required : option (list pyval)) : CiState :=
  match required with
  | None => CI_UNKNOWN
  | Some required =>
      let req := map _norm_check_name required in
      match checks with
      | [] => CI_NO_CHECKS_CONFIGURED
      | _ =>
          let observed := map ck_name checks in
          let names := match req with [] => observed | _ => req end in
          if some_concl checks names ["FAILURE"; "STARTUP_FAILURE"] then CI_FAILURE
          else if some_concl checks names ["CANCELLED"] then CI_CANCELLED
          else if some_concl checks names ["TIMED_OUT"] then CI_TIMED_OUT
          else if some_concl checks names ["ACTION_REQUIRED"] then CI_ACTION_REQUIRED
          else match req with
               | [] => CI_UNKNOWN
               | _ =>
                   if some_concl checks req ["NEUTRAL"; "SKIPPED"; "STALE"] then CI_UNKNOWN
                   else if existsb (fun n => negb (str_in n observed)) req then CI_UNKNOWN
                   else if existsb (fun n => negb (is_some (concl checks n))) req then CI_PENDING
                   else CI_SUCCESS
               end
      end
  end.
Definition failing_check (c : CiCheck) : bool :=
  match ck_conclusion c with Some x => str_in x _FAILING_CHECK_CONCLUSIONS | None => false end.
Definition failing_observed_checks (checks : list CiCheck) (required : option (list pyval)) : list CiCheck :=
  List.filter (fun c => failing_check c
    && match required with
       | None | Some [] => true
       | Some req => str_in (ck_name c) (map _norm_check_name req)
       end) checks.
Definition sorted_names (l : list string) : list string := sort_by String.leb (nodup string_dec l).
Definition missing_required_checks (checks : list CiCheck) (required : list pyval) : list string :=
  sorted_names (List.filter (fun n => negb (str_in n (map ck_name checks))) (map _norm_check_name required)).
Definition ends_with (failing : list CiCheck) (conclusion : string) : bool :=
  existsb (fun c => ostr_eqb (ck_conclusion c) (Some conclusion)) failing.
Definition classify_ci_failure (aggregate_state : string) (failing : list CiCheck) (provider_error : option string)
  : string :=
  if ostr_in provider_error PROVIDER_ERRORS then CI_FAIL_PROVIDER
  else if str_in aggregate_state [CiState_value CI_RATE_LIMITED; CiState_value CI_PROVIDER_UNAVAILABLE] then CI_FAIL_PROVIDER
  else if String.eqb aggregate_state (CiState_value CI_TIMED_OUT) then CI_FAIL_TIMEOUT
  else if String.eqb aggregate_state (CiState_value CI_CANCELLED) then CI_FAIL_CANCELLED
  else if String.eqb aggregate_state (CiState_value CI_ACTION_REQUIRED) then CI_FAIL_UNKNOWN
  else if ends_with failing "TIMED_OUT" then CI_FAIL_TIMEOUT
  else if ends_with failing "CANCELLED" then CI_FAIL_CANCELLED
  else
    let names := join " " (map (fun c => lower (ck_name c)) failing) in
    if existsb (fun m => contains m names) _INFRA_MARKERS then CI_FAIL_INFRA
    else if existsb (fun m => contains m names) _CODE_MARKERS then CI_FAIL_CODE
    else CI_FAIL_UNKNOWN.

(** ** The GitHub adapter *)
(** [json.dumps(value, sort_keys=True, separators=(",", ":"), default=str)]. *)
Definition tight_item (kt : pykey * string) : string := key_text (fst kt) ++ ":" ++ snd kt.
Fixpoint tight (v : pyval) : string :=
  match v with
  | PList l => "[" ++ join "," (map tight l) ++ "]"
  | PTuple l => "[" ++ join "," (map tight l) ++ "]"
  | PDict d => "{" ++ join "," (map tight_item (sort_items (map (fun kv => (fst kv, tight (snd kv))) d))) ++ "}"
  | _ => enc v
  end.
Definition dump_evidence (evidence : pydict) : res exc string :=
  _ ← res_unless (sortable (PDict evidence)) TypeError;
  let text := tight (PDict evidence) in
  _ ← res_when (Nat.ltb MAX_CI_EVIDENCE_BYTES (String.length (utf8 text))) ValueError;
  Ok text.
Definition _norm_status (status : pyval) : string :=
  match status with
  | PStr s => let s := upper (strip s) in
              if str_in s ["QUEUED"; "IN_PROGRESS"; "COMPLETED"; "PENDING"] then s else "UNKNOWN"
  | _ => "UNKNOWN"
  end.
Definition _norm_conclusion (conclusion : pyval) : option string :=
  match conclusion with
  | PStr s => let c := upper (strip s) in if str_in c CHECK_CONCLUSIONS then Some c else None
  | _ => None
  end.
Definition _status_state_to_conclusion (state : pyval) : option string :=
  match state with
  | PStr s =>
      let s := lower (strip s) in
      if String.eqb s "success" then Some "SUCCESS"
      else if str_in s ["failure"; "error"] then Some "FAILURE"
      else if String.eqb s "pending" then None
      else Some "UNKNOWN"
  | _ => None
  end.
(** [str(a or b or "")[:n] or None]. *)
Definition first_true (l : list pyval) : pyval := default (PStr EmptyString) (List.find py_truthy l).
Definition ref_text (l : list pyval) : option string :=
  let t := String.substring 0 MAX_CI_RUN_REF_LEN (py_str (first_true l)) in
  if truthy t then Some t else None.
Definition check_id_of (v : pyval) : Z := match v with PInt z => if (z <? 0)%Z then 0%Z else z | _ => 0%Z end.
Definition run_check (r : pyval) : option CiCheck :=
  match r with
  | PDict d =>
      let name := _norm_check_name (dget0 d "name") in
      if truthy name then
        Some (mkCiCheck name (_norm_conclusion (dget0 d "conclusion")) (_norm_status (dget0 d "status"))
                (ref_text [dget0 d "html_url"; dget0 d "details_url"])
                (ref_text [dget0 d "details_url"; dget0 d "html_url"]) (check_id_of (dget0 d "id")))
      else None
  | _ => None
  end.
Definition normalize_check_runs (runs : list pyval) : list CiCheck * Z :=
  let checks := omap run_check (firstn MAX_CI_CHECKS runs) in
  (checks, fold_left Z.max (map ck_id checks) 0%Z).
Definition status_check (s : pyval) : option CiCheck :=
  match s with
  | PDict d =>
      let context := dget0 d "context" in
      let name := _norm_check_name (if py_truthy context then context else dget0 d "name") in
      if truthy name then
        let conclusion := _status_state_to_conclusion (dget0 d "state") in
        let url := ref_text [dget0 d "target_url"] in
        Some (mkCiCheck name conclusion (if is_some conclusion then "COMPLETED" else "PENDING") url url 0)
      else None
  | _ => None
  end.
Definition normalize_statuses (statuses : list pyval) : list CiCheck :=
  omap status_check (firstn MAX_CI_CHECKS statuses).
Definition merge_check (existing : list CiCheck) (c : CiCheck) : list CiCheck :=
  if str_in (ck_name c) (map ck_name existing) then existing else (existing ++ [c])%list.
Definition _merge_checks (existing extra : list CiCheck) : list CiCheck := fold_left merge_check extra existing.

(** An exception of the adapter with its text. *)
Definition failure : Type := provider_error * string.
Definition classify_gh_failure (returncode : option Z) (stderr : string) : failure :=
  let low := lower stderr in
  match returncode with
  | None => (ProviderUnavailable, "provider operation failed")
  | Some rc =>
      if (rc =? 429)%Z || contains "rate limit" low || contains "secondary rate limit" low
      then (ProviderRateLimited, "rate limited")
      else if (rc =? 401)%Z then (ProviderCredentialError, "authentication failed (401)")
      else if (rc =? 403)%Z then
        if contains "protected branch" low || contains "required status" low || contains "policy" low
        then (ProviderValidationError, "remote policy rejected the write (403)")
        else (ProviderCredentialError, "authorization/permission denied (403)")
      else if (rc =? 409)%Z || contains "non-fast-forward" low || contains "fetch first" low || contains "rejected" low
              || contains "conflict" low
      then (ProviderConflict, "conflict (non-fast-forward / rejected)")
      else if (rc =? 400)%Z || (rc =? 422)%Z
      then (ProviderValidationError, "remote validation failed (" ++ z_text rc ++ ")")
      else if (500 <=? rc)%Z then (ProviderUnavailable, "provider unavailable (" ++ z_text rc ++ ")")
      else (ProviderUnavailable, "provider operation failed")
  end.
(** [re.search(r"resets? (?:in|at)\s+([0-9T:+\-Z]+)", text).group(1)]. *)
Fixpoint take_while (p : ascii -> bool) (s : string) : string :=
  match s with
  | String c s' => if p c then String c (take_while p s') else EmptyString
  | EmptyString => EmptyString
  end.
Definition first_some {A} (a b : option A) : option A := match a with Some _ => a | None => b end.
Definition reset_char (c : ascii) : bool := is_digit c || one_of "T:+-Z" c.
Definition reset_here (s : string) : option string :=
  rest ← strip_word "reset" s;
  rest ← strip_word " " (default rest (strip_word "s" rest));
  rest ← first_some (strip_word "in" rest) (strip_word "at" rest);
  let gap := take_while is_space rest in
  let stamp := take_while reset_char (drop_chars (String.length gap) rest) in
  if truthy gap && truthy stamp then Some stamp else None.
Fixpoint _extract_reset (text : string) : option string :=
  match text with
  | EmptyString => None
  | String _ text' => first_some (reset_here text) (_extract_reset text')
  end.

Inductive gh_result : Type :=
| Completed (returncode : Z) (stdout stderr : string)
| Gh_not_found
| Gh_timed_out
| Gh_os_error (type_name : string)
| Gh_raised (type_name : string).
Class GhEnv := {
  gh : list (list string) -> list string -> gh_result;
  gh_executable : string
}.
Notation ghcmd := (M (list (list string)) failure).
(** What a read collects. *)
Record reading : Type := mkReading {
  rd_head : pyval;
  rd_base : pyval;
  rd_state : string;
  rd_checks : list CiCheck;
  rd_version : Z;
  rd_error : option string;
  rd_reset : option string
}.
#[export] Instance reading_eta : EtaExpand reading := fun x =>
  mkReading (rd_head x) (rd_base x) (rd_state x) (rd_checks x) (rd_version x) (rd_error x) (rd_reset x).
Definition _json (stdout : string) : pyval :=
  let raw := strip stdout in
  if truthy raw then match json_loads raw with Ok v => v | Err _ => PNone end else PNone.
Definition pr_state_of (d : pydict) : string :=
  if py_truthy (dget0 d "mergedAt") then PR_MERGED
  else match dget0 d "state" with
       | PStr s => if str_in s [PR_OPEN; PR_CLOSED; PR_MERGED] then s else PR_UNKNOWN
       | _ => PR_UNKNOWN
       end.
Definition unknown_error (r : reading) : reading := r <| rd_error := Some PROVIDER_ERROR_UNKNOWN |>.
Definition list_at (v : pyval) (key : string) : option (list pyval) :=
  match v with PDict d => match dget0 d key with PList l => Some l | _ => None end | _ => None end.
Definition after_view (v : pyval) (r : reading) : reading :=
  match v with
  | PDict d => r <| rd_head := dget0 d "headRefOid" |> <| rd_base := dget0 d "baseRefName" |> <| rd_state := pr_state_of d |>
  | _ => unknown_error r
  end.
Definition after_runs (v : pyval) (r : reading) : reading :=
  match list_at v "check_runs" with
  | Some runs => let '(checks, version) := normalize_check_runs runs in
                 r <| rd_checks := checks |> <| rd_version := version |>
  | None => unknown_error r
  end.
Definition after_status (v : pyval) (r : reading) : reading :=
  match list_at v "statuses" with
  | Some statuses =>
      let extra := normalize_statuses statuses in
      r <| rd_checks := _merge_checks (rd_checks r) extra |>
        <| rd_version := Z.max (rd_version r) (fold_left Z.max (map ck_id extra) 0%Z) |>
  | None => unknown_error r
  end.
Definition failed (f : failure) (r : reading) : reading :=
  match f with
  | (ProviderRateLimited, text) =>
      r <| rd_error := Some PROVIDER_ERROR_RATE_LIMITED |> <| rd_reset := _extract_reset text |>
  | (ProviderUnavailable, _) => r <| rd_error := Some PROVIDER_ERROR_UNAVAILABLE |>
  | _ => unknown_error r
  end.

Section Gh.
Context {ghenv : GhEnv}.
Definition _exec (args : list string) : ghcmd string := fun log =>
  let argv := gh_executable :: args in
  let log' := (log ++ [argv])%list in
  match gh log argv with
  | Completed rc stdout stderr => if (rc =? 0)%Z then (Ok stdout, log') else (Err (classify_gh_failure (Some rc) stderr), log')
  | Gh_not_found => (Err (ProviderUnavailable, "gh executable not found"), log')
  | Gh_timed_out => (Err (ProviderUnavailable, "gh timed out"), log')
  | Gh_os_error t => (Err (ProviderUnavailable, "transport failure: " ++ t), log')
  | Gh_raised t => (Err (OtherException t, EmptyString), log')
  end.
(** One [try] block: skipped after an error. *)
Definition stage (args : list string) (after : pyval -> reading -> reading) (r : reading) (log : list (list string))
  : reading * list (list string) :=
  match rd_error r with
  | Some _ => (r, log)
  | None => match _exec args log with
            | (Ok stdout, log') => (after (_json stdout) r, log')
            | (Err f, log') => (failed f r, log')
            end
  end.
Definition head_text (head_sha : option string) : string := match head_sha with Some h => h | None => "None" end.
Definition read_ci_state (repository : string) (pr_number : Z) (head_sha : option string) (log : list (list string))
  : CiRead * list (list string) :=
  let commit := "repos/" ++ repository ++ "/commits/" ++ head_text head_sha in
  let '(r, log) := stage ["pr"; "view"; z_text pr_number; "--repo"; repository; "--json";
                          "number,state,headRefOid,baseRefName,mergedAt,closedAt"] after_view
                     (mkReading PNone PNone PR_UNKNOWN [] 0 None None) log in
  let '(r, log) := stage ["api"; commit ++ "/check-runs"] after_runs r log in
  let '(r, log) := stage ["api"; commit ++ "/status"] after_status r log in
  (mkCiRead repository pr_number (rd_head r) (rd_base r) (rd_state r) (Some (map Some (rd_checks r))) (rd_error r)
     (rd_reset r) (PInt (rd_version r)), log).
End Gh.
