(* ===== verification/CiWait.v ===== *)
(** * CiWait: jobs that wait for the checks of a pull request
    (the manager of src/argent_core/ci_external_wait.py).

    Rows, wakes and the state are those of [Waits].  The seconds until a rate limit is
    reset are exact (the source takes them through a double, which is exact up to spans
    of centuries). *)
From S2P Require Import Prelude PyVal Json Models Timestamps JobState Concurrency CoreStore Dispatch JobRows Worktree Leases IsoParse Canonical Candidates Outbox Redact Broker Waits CiState.
#[local] Open Scope string_scope.

Record CiWaitSpec : Type := mkCiWaitSpec {
  cw_provider : string;
  cw_repository : string;
  cw_pr_number : Z;
  cw_expected_head_sha : string;
  cw_expected_base : string;
  cw_required_checks : option (list string);
  cw_optional_checks : list string;
  cw_candidate_id : option string;
  cw_deadline_at : option string;
  cw_next_check_at : option string
}.
Record CiWaitCheckResult : Type := mkCiWaitCheckResult {
  cc_wait_id : string;
  cc_outcome : string;
  cc_reason : option string;
  cc_job_id : option string;
  cc_queue_reason : option string;
  cc_error_class : option string;
  cc_aggregate_state : option string;
  cc_next_check_at : option string
}.
Record CiSnapshot : Type := mkCiSnapshot {
  sn_aggregate_state : string;
  sn_failing_checks : list CiCheck;
  sn_missing_required : list string;
  sn_classification : string
}.
(** The policy of a wait row. *)
Record CiPolicy : Type := mkCiPolicy {
  pl_required_checks : option (list pyval);
  pl_optional_checks : list pyval;
  pl_expected_base : pyval
}.
Definition no_policy : CiPolicy := mkCiPolicy None [] PNone.
Definition py_list (v : pyval) : option (list pyval) := match v with PList l => Some l | _ => None end.
Definition load_policy (w : Wait) : res exc CiPolicy :=
  match ew_ci_policy w with
  | None => Ok no_policy
  | Some raw =>
      if negb (truthy raw) then Ok no_policy else
      match json_loads raw with
      | Err _ => Ok no_policy
      | Ok (PDict d) =>
          Ok (mkCiPolicy (py_list (dget0 d "required_checks")) (default [] (py_list (dget0 d "optional_checks")))
                (dget0 d "expected_base"))
      | Ok _ => Err AttributeError
      end
  end.
Definition str_list (l : list string) : pyval := PList (map PStr l).
Definition _build_policy_json (spec : CiWaitSpec) : res exc string :=
  dump_evidence [(KStr "provider", PStr (cw_provider spec)); (KStr "repository", PStr (cw_repository spec));
    (KStr "pr_number", PInt (cw_pr_number spec)); (KStr "expected_head_sha", PStr (cw_expected_head_sha spec));
    (KStr "expected_base", PStr (cw_expected_base spec));
    (KStr "required_checks", match cw_required_checks spec with None => PNone | Some l => str_list l end);
    (KStr "optional_checks", str_list (cw_optional_checks spec)); (KStr "candidate_id", ostr_val (cw_candidate_id spec))].
Definition _check_to_evidence (c : CiCheck) : pyval :=
  PDict [(KStr "name", PStr (_norm_check_name (PStr (ck_name c)))); (KStr "conclusion", ostr_val (ck_conclusion c));
    (KStr "status", PStr (ck_status c));
    (KStr "run_ref", PStr (String.substring 0 MAX_CI_RUN_REF_LEN (default EmptyString (ck_run_ref c))));
    (KStr "details_url", PStr (String.substring 0 MAX_CI_RUN_REF_LEN (default EmptyString (ck_details_url c))))].
Definition of_read (r : option CiRead) (f : CiRead -> pyval) : pyval := match r with Some r => f r | None => PNone end.
Definition _evidence (aggregate_state : option string) (classification : string) (read : option CiRead)
    (transition now_iso : string) (w : Wait) (policy : option CiPolicy) (observed : option (list string))
    (extra : pydict) : res exc string :=
  dump_evidence ([(KStr "aggregate_state", ostr_val aggregate_state); (KStr "classification", PStr classification);
    (KStr "transition", PStr transition); (KStr "observed_at", PStr now_iso);
    (KStr "expected_head_sha", ostr_val (ew_expected_subject w));
    (KStr "head_sha", of_read read cr_pr_head_sha); (KStr "base_ref", of_read read cr_base_ref);
    (KStr "pr_state", of_read read (PStr ∘ cr_pr_state)); (KStr "provider_error", of_read read (ostr_val ∘ cr_provider_error));
    (KStr "rate_limit_reset_at", of_read read (ostr_val ∘ cr_rate_limit_reset_at));
    (KStr "event_version", match read with Some r => cr_event_version r | None => PInt 0 end);
    (KStr "required_checks", match (policy ≫= pl_required_checks) with Some l => PList l | None => PNone end);
    (KStr "optional_checks", PList (default [] (pl_optional_checks <$> policy)));
    (KStr "observed_check_names", match observed with Some l => str_list l | None => PNone end)] ++ extra)%list.

(** What is wrong with a read, if anything. *)
Definition check_error (c : option CiCheck) : option string :=
  match c with
  | None => Some "bad_check_type"
  | Some c =>
      if match ck_conclusion c with Some x => negb (str_in x CHECK_CONCLUSIONS) | None => false end
      then Some "bad_check_conclusion"
      else if negb (str_in (ck_status c) CHECK_STATUSES) then Some "bad_check_status"
      else if is_some (ck_conclusion c) && str_in (ck_status c) ["QUEUED"; "IN_PROGRESS"; "PENDING"]
      then Some "bad_check_contradictory"
      else if Nat.ltb MAX_CI_CHECK_NAME_LEN (String.length (ck_name c)) then Some "bad_check_name"
      else None
  end.
Fixpoint first_error (l : list (option CiCheck)) : option string :=
  match l with [] => None | c :: l => first_some (check_error c) (first_error l) end.
Definition _validate_read (read : CiRead) (w : Wait) : option string :=
  match parse_ci_ref (ew_ref w) with
  | Err _ => Some "bad_ref"
  | Ok (repo, pr) =>
      if negb (String.eqb (cr_repository read) repo && (cr_pr_number read =? pr)%Z) then Some "wrong_identity"
      else if negb (str_in (cr_pr_state read) PR_STATES) then Some "bad_pr_state"
      else if match cr_provider_error read with Some e => negb (str_in e PROVIDER_ERRORS) | None => false end
      then Some "bad_provider_error"
      else match cr_checks read with
           | None => Some "bad_checks"
           | Some checks =>
               if Nat.ltb MAX_CI_CHECKS (length checks) then Some "too_many_checks"
               else match first_error checks with
                    | Some e => Some e
                    | None => if valid_version (cr_event_version read) then None else Some "bad_event_version"
                    end
           end
  end.
Definition _snapshot (read : CiRead) (policy : CiPolicy) : CiSnapshot :=
  let checks := checks_of read in
  let agg := CiState_value (aggregate_ci_state checks (pl_required_checks policy)) in
  let failing := failing_observed_checks checks (pl_required_checks policy) in
  mkCiSnapshot agg failing (missing_required_checks checks (default [] (pl_required_checks policy)))
    (classify_ci_failure agg failing (cr_provider_error read)).
Definition _error_class_for (aggregate_state : string) : string :=
  if String.eqb aggregate_state (CiState_value CI_SUCCESS) then value EC_NONE
  else if String.eqb aggregate_state (CiState_value CI_ACTION_REQUIRED) then value EC_OWNER_REQUIRED
  else value EC_EXTERNAL.
Definition text_of (v : pyval) : option string := match v with PStr s => Some s | _ => None end.
Definition _prior_observed_check_names (w : Wait) : res exc (option (list string)) :=
  match ew_ci_evidence w with
  | None => Ok None
  | Some raw =>
      if negb (truthy raw) then Ok None else
      match json_loads raw with
      | Err _ => Ok None
      | Ok (PDict d) => Ok (option_map (omap text_of) (py_list (dget0 d "observed_check_names")))
      | Ok _ => Err AttributeError
      end
  end.
(** A required check that was observed before and is not now. *)
Definition _required_set_materially_changed (w : Wait) (read : CiRead) (policy : CiPolicy) : res exc bool :=
  match pl_required_checks policy with
  | None | Some [] => Ok false
  | Some req =>
      _ ← res_unless (forallb hashable req) TypeError;
      prior ← _prior_observed_check_names w;
      Ok (match prior with
          | None => false
          | Some names => existsb (fun n => existsb (fun v => is_str v n) req
                                            && negb (str_in n (map ck_name (checks_of read)))) names
          end)
  end.

(** [a == b] of decoded JSON. *)
Definition dec_int (neg : bool) (m : N) (e : Z) : option Z :=
  if (e <? 0)%Z then (if N.eqb m 0 then Some 0%Z else None)
  else Some ((if neg then -1 else 1) * Z.of_N m * 10 ^ e)%Z.
Definition as_int (v : pyval) : option Z :=
  match v with
  | PBool b => Some (if b then 1 else 0)%Z
  | PInt z => Some z
  | PFloat (FDec neg m e) => dec_int neg m e
  | _ => None
  end.
Definition float_eqb (a b : pyfloat) : bool :=
  match a, b with
  | FInf x, FInf y => Bool.eqb x y
  | FDec x m e, FDec y n k => Bool.eqb x y && N.eqb m n && (e =? k)%Z
  | _, _ => false
  end.
Fixpoint py_eqb (a b : pyval) {struct a} : bool :=
  match a with
  | PNone => match b with PNone => true | _ => false end
  | PStr s => is_str b s
  | PObj s => match b with PObj t => String.eqb s t | _ => false end
  | PList l => match b with
               | PList k => Nat.eqb (length l) (length k)
                            && (fix all (l k : list pyval) : bool :=
                                  match l, k with x :: l, y :: k => py_eqb x y && all l k | _, _ => true end) l k
               | _ => false
               end
  | PTuple l => match b with
                | PTuple k => Nat.eqb (length l) (length k)
                              && (fix all (l k : list pyval) : bool :=
                                    match l, k with x :: l, y :: k => py_eqb x y && all l k | _, _ => true end) l k
                | _ => false
                end
  | PDict d => match b with
               | PDict k => Nat.eqb (length d) (length k)
                            && forallb (fun kv => match assoc (fst kv) k with Some v => py_eqb (snd kv) v | None => false end) d
               | _ => false
               end
  | _ => match as_int a, as_int b, a, b with
         | Some x, Some y, _, _ => (x =? y)%Z
         | _, _, PFloat f, PFloat g => float_eqb f g
         | _, _, _, _ => false
         end
  end.

Class CiEnv := {
  ci_adapters : list string;
  ci_validate_ref : string -> string -> bool;
  ci_read : string -> nat -> string -> Z -> option string -> JSt -> checked CiRead * JSt;
  ci_clock : nat -> datetime
}.

Section CiManager.
Context {env : Env} {cienv : CiEnv}.
Definition ci_now : wcmd string := fun s =>
  (format_in_range (ci_clock (w_ticks s)), s <| w_ticks ::= S |>).
Definition call_read (w : Wait) (repository : string) (pr_number : Z) : wcmd (checked CiRead) := fun s =>
  let (a, j) := ci_read (ew_provider w) (w_checks s) repository pr_number (ew_expected_subject w) (w_js s) in
  (Ok a, s <| w_js := j |> <| w_checks ::= S |>).

(** ** Wait entry *)
Definition _validate_spec (spec : CiWaitSpec) : res exc string :=
  _ ← res_unless (bounded MAX_PROVIDER_LEN (cw_provider spec)) ValueError;
  _ ← res_unless (str_in (cw_provider spec) ci_adapters) ValueError;
  ref ← ci_ref (cw_repository spec) (cw_pr_number spec);
  _ ← res_unless (ci_validate_ref (cw_provider spec) ref) ValueError;
  _ ← res_when (blank (cw_expected_head_sha spec)) ValueError;
  _ ← res_unless (Nat.leb (String.length (cw_expected_head_sha spec)) MAX_SUBJECT_LEN) ValueError;
  _ ← res_when (blank (cw_expected_base spec)) ValueError;
  _ ← res_when (existsb blank (default [] (cw_required_checks spec))) ValueError;
  _ ← parse_opt (cw_deadline_at spec);
  _ ← parse_opt (cw_next_check_at spec);
  Ok ref.
Definition _build_ci_row (job_id : string) (spec : CiWaitSpec) (now_iso : string) : wcmd Wait :=
  ref ← lift (_validate_spec spec);
  next_check_at ← lift (match cw_next_check_at spec with None => _iso_add now_iso 60 | Some n => Ok n end);
  wait_id ← new_wait_id;
  policy ← lift (_build_policy_json spec);
  mret (mkWait wait_id job_id (value WK_CI) (cw_provider spec) ref (Some (cw_expected_head_sha spec)) None
          next_check_at (cw_deadline_at spec) 0 0 None (Some policy) None now_iso now_iso).
Definition active_dispatch (d : AgentDispatch) : bool := in_list (d_status d) [DPENDING; DRUNNING; DRECOVERY_PENDING].
Definition _ensure_no_active_process (job_id : string) : jcmd unit :=
  job ← get_supervisor_job job_id;
  _ ← match job with
      | None => mret tt
      | Some j =>
          ds ← on_core (list_dispatches (Some (j_task_id j)) None);
          _ ← raise_when (existsb active_dispatch ds) ValueError;
          runs ← on_core (list_role_runs RR_STARTED);
          raise_when (existsb (fun r => String.eqb (rr_task_id r) (j_task_id j)) runs) ValueError
      end;
  ps ← jquery (fun t => List.filter (fun p => String.eqb (p_job_id p) job_id) (jt_processes t));
  raise_when (existsb (fun p => String.eqb (p_status p) "RUNNING") ps) ValueError.
Definition enter_ci_wait (job_id : string) (spec : CiWaitSpec) (owner : string) (lease_epoch : Z) : wcmd Job :=
  now_iso ← ci_now;
  _ ← wait_store (_ensure_no_active_process job_id);
  w ← _build_ci_row job_id spec now_iso;
  wait_store (transition_to_waiting_external job_id w owner lease_epoch).

(** ** The bounded checker *)
Section Instance_.
Context (instance_id : option string) (now_iso : string) (w : Wait).
Definition ci_result (outcome reason : string) (state next_check_at : option string) : CiWaitCheckResult :=
  mkCiWaitCheckResult (ew_wait_id w) outcome (Some reason) (Some (ew_job_id w)) None None state next_check_at.
Definition ci_put_off (delay : Z) (state : option string) (outcome reason : string) (evidence : option string)
  : wcmd CiWaitCheckResult :=
  next_check_at ← lift (_iso_add now_iso delay);
  _ ← wait_store (update_external_wait_fenced (ew_wait_id w) instance_id
        ([W_check_attempt (ew_check_attempt w + 1); W_next_check_at next_check_at; W_updated_at now_iso]
         ++ (match state with Some s => [W_last_observed_state (Some s)] | None => [] end)
         ++ (match evidence with Some e => [W_ci_evidence (Some e)] | None => [] end))%list);
  mret (ci_result outcome reason state (Some next_check_at)).
Definition ci_delay : Z := next_check_delay_seconds (ew_check_attempt w + 1).
Definition ci_backoff (state : option string) (outcome reason : string) (evidence : option string)
  : wcmd CiWaitCheckResult := ci_put_off ci_delay state outcome reason evidence.
Definition reset_delay (reset_at : option string) : res exc Z :=
  match reset_at with
  | None => Ok ci_delay
  | Some r =>
      match wait_parse_iso r with
      | Ok t => n ← wait_parse_iso now_iso; Ok (Z.max ci_delay (Z.quot (t - n) US_PER_SECOND))
      | Err ValueError => Ok ci_delay
      | Err e => Err e
      end
  end.
Definition names_of (read : CiRead) : list string := map ck_name (checks_of read).
Definition seen_evidence (state classification transition : string) (read : CiRead) (policy : CiPolicy) (extra : pydict)
  : res exc string :=
  _evidence (Some state) classification (Some read) transition now_iso w (Some policy) (Some (names_of read)) extra.
(** The next check is computed before the evidence: either may raise. *)
Definition _backoff_rate_limited (read : CiRead) (policy : CiPolicy) : wcmd CiWaitCheckResult :=
  delay ← lift (reset_delay (cr_rate_limit_reset_at read));
  _ ← lift (_iso_add now_iso delay);
  evidence ← lift (seen_evidence (CiState_value CI_RATE_LIMITED) CI_FAIL_PROVIDER "rate_limited" read policy []);
  ci_put_off delay (Some (CiState_value CI_RATE_LIMITED)) "rate_limited" "rate_limited" (Some evidence).
Definition ci_wake (queue_reason error_class reason : string) (state : option string) (evidence : string)
    (event_version : option Z) : wcmd CiWaitCheckResult :=
  updated ← wait_store (complete_wait_and_requeue (ew_wait_id w)
    (mkWake queue_reason error_class state (default (ew_event_version w) event_version) (Some evidence)) instance_id now_iso);
  mret (match updated with
        | None => ci_result "ignored" "already_handled" None None
        | Some _ => mkCiWaitCheckResult (ew_wait_id w) "woke" (Some reason) (Some (ew_job_id w)) (Some queue_reason)
                      (Some error_class) state None
        end).
(** Wake on what was read, with the evidence of [transition]; back off likewise. *)
Definition wake_on (read : CiRead) (policy : CiPolicy) (error_class state classification transition : string) (extra : pydict)
  : wcmd CiWaitCheckResult :=
  evidence ← lift (seen_evidence state classification transition read policy extra);
  ci_wake (value QR_WAIT_EVENT) error_class transition (Some state) evidence (Some (obs_version (cr_event_version read))).
Definition hold_on (read : CiRead) (policy : CiPolicy) (state classification transition outcome reason : string)
  : wcmd CiWaitCheckResult :=
  evidence ← lift (seen_evidence state classification transition read policy []);
  ci_backoff (Some state) outcome reason (Some evidence).
Definition transition_of (state : string) : string := "ci_" ++ lower state.
Definition snapshot_extra (snap : CiSnapshot) : pydict :=
  [(KStr "failing_checks", PList (map _check_to_evidence (sn_failing_checks snap)));
   (KStr "missing_required", str_list (sn_missing_required snap))].
(** A read that is bound to the wait: open, at the expected head and base. *)
Definition settle_checks (read : CiRead) (policy : CiPolicy) : wcmd CiWaitCheckResult :=
  let snap := _snapshot read policy in
  let state := sn_aggregate_state snap in
  changed ← lift (_required_set_materially_changed w read policy);
  if changed : bool then
    wake_on read policy (value EC_EXTERNAL) state (sn_classification snap) "required_check_set_changed" []
  else if str_in state CI_TERMINAL_STATES then
    wake_on read policy (_error_class_for state) state (sn_classification snap) (transition_of state) (snapshot_extra snap)
  else
    hold_on read policy state (sn_classification snap) (transition_of state) "pending"
      (if String.eqb state (CiState_value CI_NO_CHECKS_CONFIGURED) then "no_checks_configured"
       else if String.eqb state (CiState_value CI_UNKNOWN) then "unknown" else "pending").
Definition stale (read : CiRead) (policy : CiPolicy) (transition : string) : wcmd CiWaitCheckResult :=
  wake_on read policy (value EC_EXTERNAL) "STALE" CI_FAIL_UNKNOWN transition [].
Definition hold_unknown (read : CiRead) (policy : CiPolicy) (reason : string) : wcmd CiWaitCheckResult :=
  hold_on read policy (CiState_value CI_UNKNOWN) CI_FAIL_UNKNOWN reason "pending" reason.
Definition py_none (v : pyval) : bool := match v with PNone => true | _ => false end.
Definition process_read (read : CiRead) (policy : CiPolicy) : wcmd CiWaitCheckResult :=
  match _validate_read read w with
  | Some e => ci_backoff None "malformed" e None
  | None =>
      if ostr_eqb (cr_provider_error read) (Some PROVIDER_ERROR_RATE_LIMITED) then _backoff_rate_limited read policy
      else if is_some (cr_provider_error read) then
        hold_on read policy (CiState_value CI_PROVIDER_UNAVAILABLE) CI_FAIL_PROVIDER "provider_unavailable"
          "provider_unavailable" "provider_unavailable"
      else if py_none (cr_pr_head_sha read) then hold_unknown read policy "missing_head"
      else if negb (eq_ostr (cr_pr_head_sha read) (ew_expected_subject w)) then stale read policy "stale_head_change"
      else if negb (py_eqb (cr_base_ref read) (pl_expected_base policy)) then stale read policy "base_ref_changed"
      else if String.eqb (cr_pr_state read) PR_UNKNOWN then hold_unknown read policy "unknown_pr_state"
      else if String.eqb (cr_pr_state read) PR_CLOSED then
        wake_on read policy (value EC_EXTERNAL) PR_CLOSED CI_FAIL_UNKNOWN "pr_closed" []
      else if String.eqb (cr_pr_state read) PR_MERGED then
        wake_on read policy (value EC_EXTERNAL) PR_MERGED CI_FAIL_UNKNOWN "pr_merged_unexpected" []
      else settle_checks read policy
  end.
Definition _process_ci_wait : wcmd CiWaitCheckResult :=
  if deadline_passed w now_iso then
    evidence ← lift (_evidence None CI_FAIL_UNKNOWN None "ci_deadline" now_iso w None None []);
    ci_wake (value QR_WAIT_DEADLINE) (value EC_EXTERNAL) "ci_deadline" None evidence None
  else if negb (str_in (ew_provider w) ci_adapters) then
    ci_backoff None "unknown_provider" "provider_not_allowlisted" None
  else
    policy ← lift (load_policy w);
    match parse_ci_ref (ew_ref w) with
    | Err _ => ci_backoff None "malformed" "bad_ref" None
    | Ok (repo, pr) =>
        a ← call_read w repo pr;
        match a with
        | Check_raised t =>
            evidence ← lift (_evidence (Some (CiState_value CI_PROVIDER_UNAVAILABLE)) CI_FAIL_PROVIDER None
                               "provider_unavailable" now_iso w (Some policy) None []);
            ci_backoff (Some (CiState_value CI_PROVIDER_UNAVAILABLE)) "adapter_error" (_bounded_reason t) (Some evidence)
        | Other_object => ci_backoff None "malformed" "bad_read_type" None
        | Observed read => process_read read policy
        end
    end.
Definition check_ci_wait : wcmd CiWaitCheckResult :=
  rescue _process_ci_wait (fun e => ci_backoff None "adapter_error" (_bounded_reason (type_name e)) None).
End Instance_.
Definition check_due_ci_waits (max_items : nat) (instance_id : option string) : wcmd (list CiWaitCheckResult) :=
  if Nat.eqb max_items 0 then mret [] else
  now_iso ← ci_now;
  due ← wait_store (list_due_external_waits now_iso max_items (Some (value WK_CI)));
  mmap (check_ci_wait instance_id now_iso) due.
End CiManager.
