(* ===== verification/CiSpec.v ===== *)
(** * CiSpec: when the checks of a pull request are a success.

    The theorems about references, reads and aggregates; those about jobs are in
    [WaitSpec]. *)
From Stdlib Require Import DecimalString DecimalZ DecimalN DecimalPos DecimalFacts.
From S2P Require Import Prelude PyVal Json Models Concurrency JobRows Canonical Candidates Redact Broker Waits CiState CiWait Timestamps JobState CoreStore Worktree Leases ActionLocks JobSteps JobInv LeaseSession JobFrame IsoParse Outbox Along.
#[local] Open Scope string_scope.

(** ** References *)
Definition has (c : ascii) (s : string) : bool := existsb (Ascii.eqb c) (list_ascii_of_string s).
Lemma partition_hash_app a b : has hash_char a = false -> partition_hash (a ++ String hash_char b) = (a, Some b).
Proof.
  unfold has. induction a as [|c a IH]; intros H; [reflexivity|]. cbn [existsb list_ascii_of_string] in H.
  apply orb_false_iff in H as [E H]. cbn [append partition_hash]. rewrite Ascii.eqb_sym in E. rewrite E, IH by done. done.
Qed.
Lemma contains_char c s : contains (String c EmptyString) s = has c s.
Proof.
  unfold has. induction s as [|x s IH]; [done|]. cbn [contains list_ascii_of_string existsb]. rewrite <- IH. f_equal.
  cbn. destruct (ascii_dec c x) as [->|N]; [by rewrite Ascii.eqb_refl; destruct s|].
  symmetry. apply Bool.not_true_is_false. by intros ?%Ascii.eqb_eq.
Qed.
Lemma digits_no_hash s : forallb is_digit (list_ascii_of_string s) = true -> has hash_char s = false.
Proof.
  unfold has. induction s as [|c s IH]; [done|]. cbn [list_ascii_of_string forallb existsb]. intros [D F]%andb_true_iff. rewrite IH by done.
  rewrite orb_false_r. apply Bool.not_true_is_false. intros <-%Ascii.eqb_eq. discriminate D.
Qed.

(** The decimal text of a positive number. *)
Definition digits_from (acc : N) (s : string) : N :=
  fold_left (fun acc c => 10 * acc + (code c - 48))%N (list_ascii_of_string s) acc.
Lemma digits_from_uint d p : digits_from (Npos p) (NilEmpty.string_of_uint d) = Npos (Pos.of_uint_acc d p).
Proof.
  revert p. induction d as [|d IH|d IH|d IH|d IH|d IH|d IH|d IH|d IH|d IH|d IH]; intros p; [done|..];
    cbn [NilEmpty.string_of_uint Pos.of_uint_acc]; rewrite <- IH; unfold digits_from at 1; cbn [list_ascii_of_string fold_left];
    unfold digits_from; f_equal.
  all: try match goal with |- context [code ?c] => let v := eval vm_compute in (code c) in change (code c) with v end; lia.
Qed.
Lemma digits_val_uint d : digits_val (NilEmpty.string_of_uint d) = Pos.of_uint d.
Proof.
  change (digits_from 0 (NilEmpty.string_of_uint d) = Pos.of_uint d).
  induction d as [|d IH|d IH|d IH|d IH|d IH|d IH|d IH|d IH|d IH|d IH]; [done|exact IH|..];
    cbn [NilEmpty.string_of_uint Pos.of_uint]; rewrite <- digits_from_uint; reflexivity.
Qed.
Lemma uint_digits d : forallb is_digit (list_ascii_of_string (NilEmpty.string_of_uint d)) = true.
Proof. induction d; try exact IHd; done. Qed.
Lemma z_text_pos p : z_text (Zpos p) = NilEmpty.string_of_uint (Pos.to_uint p).
Proof.
  unfold z_text. cbn [Z.to_int NilZero.string_of_int]. unfold NilZero.string_of_uint.
  destruct (Pos.to_uint p) eqn:E; try done. by apply Unsigned.to_uint_nonnil in E.
Qed.
Lemma string_app_length a b : String.length (a ++ b) = String.length a + String.length b.
Proof. induction a; cbn; lia. Qed.

(** A reference [ci_ref] builds of a repository name with a slash and no hash sign parses
    back into the repository and the number. *)
Theorem ci_ref_round_trip repository pr_number ref :
  contains "/" repository = true -> contains "#" repository = false ->
  ci_ref repository pr_number = Ok ref -> parse_ci_ref ref = Ok (repository, pr_number).
Proof.
  intros S H. unfold ci_ref. intros (_ & _ & R)%res_bind_ok. apply res_bind_ok in R as (_ & P%res_unless_ok & R).
  apply res_bind_ok in R as (_ & L%res_unless_ok & [= <-]). apply Z.ltb_lt in P. destruct pr_number as [|p|p]; [lia| |lia].
  rewrite z_text_pos in *. set (num := NilEmpty.string_of_uint (Pos.to_uint p)) in *.
  assert (D : forallb is_digit (list_ascii_of_string num) = true) by apply uint_digits.
  assert (V : digits_val num = Npos p) by (unfold num; rewrite digits_val_uint; apply Unsigned.of_to).
  assert (T : truthy num = true) by (destruct num; [discriminate V | done]).
  assert (B : String.length num <= MAX_REF_LEN) by (apply Nat.leb_le in L; rewrite !string_app_length in L; lia).
  clearbody num. unfold parse_ci_ref.
  change (repository ++ "#" ++ num) with (repository ++ String hash_char num).
  rewrite partition_hash_app by (rewrite <- contains_char; exact H).
  replace (contains "#" num) with false by (symmetry; rewrite contains_char; by apply digits_no_hash).
  unfold all_digits. rewrite S, D, T, V.
  assert (truthy repository = true) as -> by (destruct repository; [discriminate S | done]).
  cbn [res_when res_unless negb andb mbind]. replace (Nat.leb (String.length num) MAX_INT_DIGITS) with true.
  2:{ symmetry. apply Nat.leb_le. unfold MAX_INT_DIGITS, MAX_REF_LEN in *. lia. }
  reflexivity.
Qed.
Lemma ci_ref_round_trip_witness : ci_ref "own/repo" 17 = Ok "own/repo#17" /\ parse_ci_ref "own/repo#17" = Ok ("own/repo", 17%Z).
Proof.
  assert (E : ci_ref "own/repo" 17 = Ok "own/repo#17") by (vm_compute; reflexivity).
  split; [exact E|]. apply (ci_ref_round_trip "own/repo" 17 "own/repo#17"); [vm_compute; reflexivity.. | exact E].
Defined.

(** ** The aggregate *)
Definition known_conclusions (checks : list CiCheck) : Prop :=
  forall c x, In c checks -> ck_conclusion c = Some x -> In x CHECK_CONCLUSIONS.
(** The first check of that name succeeded. *)
Definition succeeded (checks : list CiCheck) (v : pyval) : Prop := concl checks (_norm_check_name v) = Some "SUCCESS".

Lemma by_name_in checks n c : by_name checks n = Some c -> In c checks /\ ck_name c = n.
Proof. intros [I E%String.eqb_eq]%find_some. done. Qed.
Lemma concl_known checks n x : known_conclusions checks -> concl checks n = Some x -> In x CHECK_CONCLUSIONS.
Proof. unfold concl. intros K. destruct (by_name checks n) as [c|] eqn:B; [|done]. apply by_name_in in B as [I _]. by apply K. Qed.
Lemma concl_observed checks n x : concl checks n = Some x -> str_in n (map ck_name checks) = true.
Proof.
  unfold concl. destruct (by_name checks n) as [c|] eqn:B; [|done]. apply by_name_in in B as [I <-]. intros _.
  apply str_in_In, in_map_iff. by exists c.
Qed.
Lemma some_concl_true checks names cs : some_concl checks names cs = true <->
  exists n x, In n names /\ concl checks n = Some x /\ In x cs.
Proof.
  unfold some_concl. rewrite existsb_exists. split.
  - intros (n & I & H). destruct (concl checks n) as [x|] eqn:E; [|done]. apply str_in_In in H. by exists n, x.
  - intros (n & x & I & E & H). exists n. split; [done|]. rewrite E. by apply str_in_In.
Qed.
Lemma some_concl_false checks names cs n x : some_concl checks names cs = false -> In n names -> concl checks n = Some x ->
  ~ In x cs.
Proof. intros F I E H. apply not_true_iff_false in F. apply F, some_concl_true. by exists n, x. Qed.
Lemma succeeded_only checks names cs : (forall n, In n names -> concl checks n = Some "SUCCESS") -> ~ In "SUCCESS" cs ->
  some_concl checks names cs = false.
Proof.
  intros A N. apply not_true_iff_false. rewrite some_concl_true. intros (n & x & I & E & H).
  rewrite (A n I) in E. injection E as <-. done.
Qed.

(** C32: the aggregate of a read is SUCCESS exactly when the required checks are known, there
    is one at least, and the first check of each required name concluded SUCCESS; in
    particular no check, an unknown requirement, an empty one, a missing, pending, neutral,
    skipped or stale required check is never a success. *)
Theorem aggregate_success_iff checks required : known_conclusions checks ->
  aggregate_ci_state checks required = CI_SUCCESS <->
  exists req, required = Some req /\ req <> [] /\ Forall (succeeded checks) req.
Proof.
  intros K. unfold aggregate_ci_state. destruct required as [required|]; [|split; [done | by intros (req & [=] & _)]].
  destruct checks as [|c0 cs] eqn:C.
  { split; [done|]. intros (req & [= <-] & N & F). destruct F as [|v l F _]; [done|]. by unfold succeeded in F. }
  rewrite <- C in *. clear C c0 cs. set (req := map _norm_check_name required).
  assert (R : required <> [] <-> req <> []) by (unfold req; by destruct required).
  assert (Q : Forall (succeeded checks) required <-> forall n, In n req -> concl checks n = Some "SUCCESS").
  { unfold req, succeeded. rewrite List.Forall_forall. split.
    - intros F n (v & <- & I)%in_map_iff. by apply F.
    - intros F v I. by apply F, in_map. }
  transitivity (req <> [] /\ forall n, In n req -> concl checks n = Some "SUCCESS"); [|rewrite <- R, <- Q; naive_solver].
  clearbody req. clear R Q required. destruct req as [|n0 ns] eqn:E.
  { split; [|by intros [[] _]]. repeat case_match; discriminate. }
  assert (N : req <> []) by congruence. rewrite <- E. clear E n0 ns. split.
  - intros H. split; [done|]. intros n I.
    repeat match type of H with (if ?b then _ else _) = _ => let B := fresh "B" in destruct b eqn:B; [done|] end. clear H.
    assert (P : exists x, concl checks n = Some x).
    { destruct (concl checks n) as [x|] eqn:X; [by exists x|]. exfalso. apply not_true_iff_false in B5. apply B5, existsb_exists.
      exists n. by rewrite X. }
    destruct P as [x X]. pose proof (concl_known _ _ _ K X) as V. rewrite X. f_equal.
    pose proof (some_concl_false _ _ _ _ _ B I X). pose proof (some_concl_false _ _ _ _ _ B0 I X).
    pose proof (some_concl_false _ _ _ _ _ B1 I X). pose proof (some_concl_false _ _ _ _ _ B2 I X).
    pose proof (some_concl_false _ _ _ _ _ B3 I X). cbn in *. naive_solver.
  - intros [_ A]. rewrite !(succeeded_only _ _ _ A) by (cbn; intuition discriminate).
    replace (existsb _ req) with false; [replace (existsb _ req) with false; [done|]|]; symmetry; apply not_true_iff_false;
      intros (n & I & H)%existsb_exists; specialize (A n I).
    + by rewrite A in H.
    + by rewrite (concl_observed _ _ _ A) in H.
Qed.
Definition green : CiCheck := mkCiCheck "unit" (Some "SUCCESS") "COMPLETED" None None 7.
Lemma aggregate_success_iff_witness : aggregate_ci_state [green] (Some [PStr " unit "]) = CI_SUCCESS.
Proof.
  apply (aggregate_success_iff [green] (Some [PStr " unit "])).
  - intros c x [<-|[]] [= <-]. vm_compute. by left.
  - exists [PStr " unit "]. split; [done|]. split; [done|]. constructor; [vm_compute; reflexivity | constructor].
Defined.

(** ** Reads *)
Lemma first_error_none l : first_error l = None -> forall c, In c l -> check_error c = None.
Proof.
  induction l as [|x l IH]; [done|]. cbn. unfold first_some. destruct (check_error x) eqn:E; [done|].
  intros F c [<-|I]; auto.
Qed.
Lemma checks_of_in read c checks : cr_checks read = Some checks -> In c (checks_of read) -> In (Some c) checks.
Proof.
  unfold checks_of. intros ->. cbn. intros I. apply list_elem_of_In, list_elem_of_omap in I as (o & I & E).
  cbn in E. subst o. by apply list_elem_of_In.
Qed.
(** A read that is not refused. *)
Lemma valid_read read w : _validate_read read w = None ->
  parse_ci_ref (ew_ref w) = Ok (cr_repository read, cr_pr_number read) /\ In (cr_pr_state read) PR_STATES /\
  known_conclusions (checks_of read) /\ valid_version (cr_event_version read) = true.
Proof.
  unfold _validate_read. destruct (parse_ci_ref (ew_ref w)) as [[repo pr]|e]; [|done].
  destruct (String.eqb_spec (cr_repository read) repo) as [<-|]; [|done].
  destruct (Z.eqb_spec (cr_pr_number read) pr) as [<-|]; [|done]. cbn [andb negb].
  destruct (str_in (cr_pr_state read) PR_STATES) eqn:S; [|done]. cbn [negb].
  destruct (match cr_provider_error read with Some e => _ | None => _ end); [done|].
  destruct (cr_checks read) as [checks|] eqn:C; [|done]. destruct (Nat.ltb _ _); [done|].
  destruct (first_error checks) eqn:F; [done|]. destruct (valid_version _) eqn:V; [|done].
  intros _. split; [done|]. split; [by apply str_in_In|]. split; [|done].
  intros c x I E. apply (checks_of_in _ _ _ C) in I. apply (first_error_none _ F) in I. unfold check_error in I.
  rewrite E in I. destruct (str_in x CHECK_CONCLUSIONS) eqn:K; [by apply str_in_In | done].
Qed.

(** ** The GitHub adapter *)
Section Gh.
Context {ghenv : GhEnv}.
Lemma fold_max_le l z : (z <= fold_left Z.max l z)%Z.
Proof. revert z. induction l as [|x l IH]; intros z; cbn; [lia|]. specialize (IH (Z.max z x)). lia. Qed.
Lemma fold_max_in l x z : In x l -> (x <= fold_left Z.max l z)%Z.
Proof.
  revert z. induction l as [|y l IH]; intros z; [done|]. intros [<-|I]; cbn; [|by apply IH].
  pose proof (fold_max_le l (Z.max z y)). lia.
Qed.
Lemma merge_checks_id existing extra c : In c (_merge_checks existing extra) -> In c existing \/ In c extra.
Proof.
  unfold _merge_checks. revert existing. induction extra as [|x l IH]; intros existing; [by left|]. cbn.
  intros [I|I]%IH; [|by right; right]. unfold merge_check in I. destruct (str_in _ _); [by left|].
  apply in_app_iff in I as [I|[<-|[]]]; [by left | right; by left].
Qed.
(** Every stage keeps the version above the identifiers. *)
Definition versioned (r : reading) : Prop := forall c, In c (rd_checks r) -> (ck_id c <= rd_version r)%Z.
Lemma after_view_reset v r : versioned r -> versioned (after_view v r) /\ rd_reset (after_view v r) = rd_reset r.
Proof. intros V. unfold after_view. by destruct v. Qed.
Lemma after_runs_reset v r : versioned r -> versioned (after_runs v r) /\ rd_reset (after_runs v r) = rd_reset r.
Proof.
  intros V. unfold after_runs. destruct (list_at v _) as [runs|]; [|done]. split; [|done].
  intros c I. cbn in I. apply fold_max_in. by apply in_map.
Qed.
Lemma after_status_reset v r : versioned r -> versioned (after_status v r) /\ rd_reset (after_status v r) = rd_reset r.
Proof.
  intros V. unfold after_status. destruct (list_at v _) as [l|]; [|done]. split; [|done].
  intros c I. cbn in *. apply merge_checks_id in I as [I|I].
  - apply V in I. lia.
  - pose proof (fold_max_in _ _ 0 (in_map ck_id _ _ I)). lia.
Qed.
Lemma classify_text rc stderr : fst (classify_gh_failure rc stderr) = ProviderRateLimited ->
  snd (classify_gh_failure rc stderr) = "rate limited".
Proof. unfold classify_gh_failure. destruct rc; repeat case_match; done. Qed.
Lemma failed_reset rc stderr r : rd_reset r = None -> rd_reset (failed (classify_gh_failure rc stderr) r) = None.
Proof.
  intros N. destruct (classify_gh_failure rc stderr) as [e t] eqn:C. unfold failed.
  destruct e; try done. pose proof (classify_text rc stderr) as T. rewrite C in T. by rewrite (T eq_refl : t = _).
Qed.
Lemma failed_checks f r : rd_checks (failed f r) = rd_checks r /\ rd_version (failed f r) = rd_version r.
Proof. unfold failed. by destruct f as [[]]. Qed.
Definition good (r : reading) : Prop := versioned r /\ rd_reset r = None.
Lemma stage_good args after r log r' log' :
  (forall v r, versioned r -> versioned (after v r) /\ rd_reset (after v r) = rd_reset r) ->
  stage args after r log = (r', log') -> good r -> good r'.
Proof.
  intros A. unfold stage. destruct (rd_error r); [by intros [= <- _]|].
  destruct (_exec args log) as [[out|f] l] eqn:X; intros [= <- _] [V N].
  - destruct (A (_json out) r V) as [V' N']. split; [done | congruence].
  - destruct (failed_checks f r) as [E1 E2]. split; [unfold versioned; by rewrite E1, E2|].
    unfold _exec in X. destruct (gh log _) as [rc o e| | |t|t].
    + destruct (rc =? 0)%Z; [done|]. assert (f = classify_gh_failure (Some rc) e) as -> by congruence. by apply failed_reset.
    + by injection X as <- _.
    + by injection X as <- _.
    + by injection X as <- _.
    + by injection X as <- _.
Qed.
Lemma read_good repository pr_number head log read log' : read_ci_state repository pr_number head log = (read, log') ->
  cr_rate_limit_reset_at read = None /\
  exists v, cr_event_version read = PInt v /\ forall c, In c (checks_of read) -> (ck_id c <= v)%Z.
Proof.
  unfold read_ci_state. destruct (stage _ after_view _ log) as [r1 l1] eqn:S1.
  destruct (stage _ after_runs r1 l1) as [r2 l2] eqn:S2. destruct (stage _ after_status r2 l2) as [r3 l3] eqn:S3.
  intros [= <- _]. apply stage_good in S1; [|apply after_view_reset | split; [by intros ? [] | done]].
  apply stage_good in S2; [|apply after_runs_reset | done]. apply stage_good in S3 as [V N]; [|apply after_status_reset | done].
  split; [exact N|]. exists (rd_version r3). split; [done|]. intros c I. apply V.
  unfold checks_of in I. cbn in I. apply list_elem_of_In, list_elem_of_omap in I as (o & I & E). cbn in E. subst o.
  apply list_elem_of_In, in_map_iff in I as (c' & [= ->] & I). done.
Qed.

(** A pull request with a check whose GitHub identifier does not fit 31 bits is never
    waited for successfully: whatever the conclusions, the manager refuses the adapter's
    read, because the identifier becomes the version of the event. *)
Theorem large_check_ids_refused repository pr_number head log read log' c w :
  read_ci_state repository pr_number head log = (read, log') -> In c (checks_of read) ->
  (MAX_EVENT_VERSION < ck_id c)%Z -> exists reason, _validate_read read w = Some reason.
Proof.
  intros (_ & v & V & B)%read_good I L. destruct (_validate_read read w) as [e|] eqn:E; [by exists e|].
  apply valid_read in E as (_ & _ & _ & W). rewrite V in W. cbn in W. apply andb_true_iff in W as [_ W%Z.leb_le].
  specialize (B c I). lia.
Qed.
(** A failure of [gh] loses its cause: exit codes of processes are below 256, so that no
    HTTP status is ever seen and a failure is a rate limit, a conflict or an outage, never a
    credential or validation error; and a rate limit never comes with its reset time. *)
Theorem gh_failures_lose_cause :
  (forall rc stderr, (0 < rc < 256)%Z ->
     In (fst (classify_gh_failure (Some rc) stderr)) [ProviderRateLimited; ProviderConflict; ProviderUnavailable]) /\
  (forall repository pr_number head log, cr_rate_limit_reset_at (fst (read_ci_state repository pr_number head log)) = None).
Proof.
  split.
  - intros rc stderr B. unfold classify_gh_failure.
    repeat match goal with |- context [(rc =? ?n)%Z] => replace (rc =? n)%Z with false by (symmetry; apply Z.eqb_neq; lia) end.
    replace (500 <=? rc)%Z with false by (symmetry; apply Z.leb_gt; lia). cbn [orb]. repeat case_match; cbn [fst In]; tauto.
  - intros repository pr_number head log. destruct (read_ci_state _ _ _ _) as [read log'] eqn:R. by apply read_good in R as [N _].
Qed.
End Gh.

(** ** WaitSound: what wakes a job.

    [ci_success_sound]: a job goes on after CI only on a positive read of its pull
    request. *)
Section Wake.
Context {env : Env}.
(** What a wake finds, and what it leaves. *)
Definition waiting (wait_id : string) (inst : option string) (t : JT) : Prop :=
  instance_holds inst t = true /\
  exists w j, wait_of wait_id t = Some w /\ ew_terminal_observed_at w = None /\
    job_of (ew_job_id w) t = Some j /\ j_primary_state j = "WAITING_EXTERNAL".
Lemma open_wait_none w : open_wait w = true <-> ew_terminal_observed_at w = None.
Proof. unfold open_wait. by destruct (ew_terminal_observed_at w). Qed.
Lemma complete_wait_some id k inst now s j' s' : complete_wait_and_requeue id k inst now s = (Ok (Some j'), s') ->
  waiting id inst (js_t s) /\ exists w j f, wait_of id (js_t s) = Some w /\ job_of (ew_job_id w) (js_t s) = Some j /\
    j_primary_state j' = "QUEUED" /\
    js_t s' = set jt_jobs (update_where (is_job (ew_job_id w)) f)
                (set jt_waits (update_where (is_wait id) (wapply_all (wake_assigns k now))) (js_t s)).
Proof.
  unfold complete_wait_and_requeue. intros (s1 & (_ & Q & _) & _ & R)%jtransaction_ok. rewrite <- Q.
  unfold get_external_wait, jquery in R.
  apply M_bind_ok in R as (h & s2 & G & R). apply gets_ok in G as [-> <-].
  destruct (instance_holds inst (js_t s1)) eqn:I; [|done]. cbn [negb] in R.
  apply M_bind_ok in R as (row & s2 & G & R). apply gets_ok in G as [-> <-].
  destruct (wait_of id (js_t s1)) as [w|] eqn:W; [|done]. destruct (open_wait w) eqn:O; [|done]. cbn [negb] in R.
  apply M_bind_ok in R as (j & s2 & G & R). apply need_job_ok in G as [J ->].
  destruct (String.eqb_spec (j_primary_state j) (value PS_WAITING_EXTERNAL)) as [P|]; [|done]. cbn [negb] in R.
  apply M_bind_ok in R as (n & s2 & G & R). unfold _update_external_wait in G. cbn [app wake_assigns] in G.
  apply jupdate_ok in G as (_ & -> & _).
  apply M_bind_ok in R as (u & s3 & G & R). apply mret_ok in R as [[= <-] ->].
  apply transition_ok in G as (j1 & J1 & _ & -> & E). split.
  - split; [done|]. exists w, j. split; [done|]. split; [by apply open_wait_none|]. done.
  - exists w, j. eexists. do 2 (split; [done|]). split; [reflexivity|]. destruct E as (_ & -> & _). reflexivity.
Qed.
End Wake.

(** ** A success of the checks *)
Section Success.
Context {env : Env} {cienv : CiEnv}.
(** A read that is bound to the wait and whose required checks all succeeded. *)
Definition positive (w : Wait) (read : CiRead) : Prop := exists policy req,
  load_policy w = Ok policy /\ parse_ci_ref (ew_ref w) = Ok (cr_repository read, cr_pr_number read) /\
  cr_provider_error read = None /\ cr_pr_state read = PR_OPEN /\
  cr_pr_head_sha read <> PNone /\ eq_ostr (cr_pr_head_sha read) (ew_expected_subject w) = true /\
  py_eqb (cr_base_ref read) (pl_expected_base policy) = true /\
  pl_required_checks policy = Some req /\ req <> [] /\ Forall (succeeded (checks_of read)) req.
Definition read_for (w : Wait) (s : WSt) (read : CiRead) : checked CiRead * JSt :=
  ci_read (ew_provider w) (w_checks s) (cr_repository read) (cr_pr_number read) (ew_expected_subject w) (w_js s).

Lemma store_ok {A} (m : jcmd A) s a s' : wait_store m s = (Ok a, s') -> m (w_js s) = (Ok a, w_js s').
Proof. unfold wait_store. destruct (m (w_js s)) as [r j]. by intros [= -> <-]. Qed.
Lemma lifted {A B} (x : res exc A) (k : A -> wcmd B) s b s' : (a ← lift x; k a) s = (Ok b, s') ->
  exists a, x = Ok a /\ k a s = (Ok b, s').
Proof. intros (a & s1 & (E & <-)%lift_ok & R)%M_bind_ok. eauto. Qed.
Definition no_class (m : wcmd CiWaitCheckResult) : Prop := forall s r s', m s = (Ok r, s') -> cc_error_class r = None.
Definition class_is (e : string) (m : wcmd CiWaitCheckResult) : Prop := forall s r s', m s = (Ok r, s') ->
  cc_error_class r = None \/ cc_error_class r = Some e.
Lemma put_off_class inst now w d st o why ev : no_class (ci_put_off inst now w d st o why ev).
Proof.
  intros s r s'. unfold ci_put_off. intros (n & _ & R)%lifted. apply M_bind_ok in R as (x & s1 & _ & R).
  by apply mret_ok in R as [<- _].
Qed.
Lemma hold_class inst now w read p st c t o why : no_class (hold_on inst now w read p st c t o why).
Proof. intros s r s'. unfold hold_on. intros (n & _ & R)%lifted. by eapply put_off_class. Qed.
Lemma rate_class inst now w read p : no_class (_backoff_rate_limited inst now w read p).
Proof.
  intros s r s'. unfold _backoff_rate_limited. intros (? & _ & R)%lifted. apply lifted in R as (? & _ & R).
  apply lifted in R as (? & _ & R). by apply put_off_class in R.
Qed.
Lemma wake_class inst now w q e why st ev v s r s' : ci_wake inst now w q e why st ev v s = (Ok r, s') ->
  cc_error_class r = None \/ (cc_error_class r = Some e /\ waiting (ew_wait_id w) inst (js_t (w_js s))).
Proof.
  unfold ci_wake. intros R. apply M_bind_ok in R as (u & s1 & G & R). apply mret_ok in R as [<- _].
  destruct u as [j|]; [|by left]. right. split; [done|]. apply store_ok, complete_wait_some in G. tauto.
Qed.
Lemma wake_on_class inst now w read p e st c t x s r s' : wake_on inst now w read p e st c t x s = (Ok r, s') ->
  cc_error_class r = None \/ (cc_error_class r = Some e /\ waiting (ew_wait_id w) inst (js_t (w_js s))).
Proof. unfold wake_on. intros (n & _ & R)%lifted. by apply wake_class in R. Qed.
Lemma error_class_none st : In st (map CiState_value [CI_SUCCESS; CI_FAILURE; CI_CANCELLED; CI_TIMED_OUT; CI_ACTION_REQUIRED]) ->
  _error_class_for st = value EC_NONE -> st = "SUCCESS".
Proof. cbn. by intros [<-|[<-|[<-|[<-|[<-|[]]]]]]. Qed.
Lemma aggregate_value a : CiState_value a = "SUCCESS" -> a = CI_SUCCESS.
Proof. by destruct a. Qed.
Lemma settle_success inst now w read p s r s' : known_conclusions (checks_of read) ->
  settle_checks inst now w read p s = (Ok r, s') -> cc_error_class r = Some (value EC_NONE) ->
  waiting (ew_wait_id w) inst (js_t (w_js s)) /\
  exists req, pl_required_checks p = Some req /\ req <> [] /\ Forall (succeeded (checks_of read)) req.
Proof.
  intros K. unfold settle_checks. intros (ch & _ & R)%lifted C. destruct ch.
  { apply wake_on_class in R as [R|[R _]]; rewrite C in R; discriminate R. }
  destruct (str_in _ CI_TERMINAL_STATES) eqn:T; [|apply hold_class in R; congruence].
  apply wake_on_class in R as [R|[R W]]; [congruence|]. split; [exact W|].
  rewrite C in R. injection R as R. symmetry in R. apply str_in_In in T. apply (error_class_none _ T) in R.
  apply aggregate_value in R. exact (proj1 (aggregate_success_iff _ _ K) R).
Qed.

Lemma process_read_success inst now w read p s r s' : load_policy w = Ok p ->
  process_read inst now w read p s = (Ok r, s') -> cc_error_class r = Some (value EC_NONE) ->
  waiting (ew_wait_id w) inst (js_t (w_js s)) /\ positive w read.
Proof.
  intros P. unfold process_read. destruct (_validate_read read w) as [e|] eqn:V.
  { intros R C. apply put_off_class in R. congruence. }
  apply valid_read in V as (Ref & St & K & _).
  destruct (ostr_eqb (cr_provider_error read) _) eqn:E1; [intros R C; apply rate_class in R; congruence|].
  destruct (cr_provider_error read) as [pe|] eqn:PE; [intros R C; apply hold_class in R; congruence|]. cbn [is_some].
  assert (Stale : forall st t e s r s', wake_on inst now w read p (value EC_EXTERNAL) st e t [] s = (Ok r, s') ->
            cc_error_class r = Some (value EC_NONE) -> False).
  { intros ? ? ? ? ? ? R C. apply wake_on_class in R as [R|[R _]]; rewrite C in R; discriminate R. }
  unfold hold_unknown, stale.
  destruct (py_none (cr_pr_head_sha read)) eqn:H0; [intros R C; apply hold_class in R; congruence|].
  destruct (eq_ostr (cr_pr_head_sha read) _) eqn:H1; cbn [negb]; [|intros R C; by apply Stale in R].
  destruct (py_eqb (cr_base_ref read) _) eqn:H2; cbn [negb]; [|intros R C; by apply Stale in R].
  destruct (String.eqb_spec (cr_pr_state read) PR_UNKNOWN) as [|S1]; [intros R C; apply hold_class in R; congruence|].
  destruct (String.eqb_spec (cr_pr_state read) PR_CLOSED) as [|S2]; [intros R C; by apply Stale in R|].
  destruct (String.eqb_spec (cr_pr_state read) PR_MERGED) as [|S3]; [intros R C; by apply Stale in R|].
  intros R C. apply settle_success in R as (W & req & Q); [|done|done]. split; [exact W|].
  exists p, req. do 3 (split; [done|]). split.
  { destruct St as [St|[St|[St|[St|[]]]]]; congruence. }
  split; [intros H; by rewrite H in H0|]. done.
Qed.

(** C8: a job goes on with a success of its checks only on evidence: a check of a CI wait
    that wakes the job without an error happens before the deadline, and the adapter was
    asked for the pull request of the wait at the expected head and answered, without an
    error, that it is open, at that head, on the expected base, and that every required
    check, of which there is one at least, concluded SUCCESS; when the job is woken, this
    instance is the active one, the wait is open and the job is still waiting. *)
Theorem ci_success_sound inst now w s r s' : check_ci_wait inst now w s = (Ok r, s') ->
  cc_error_class r = Some (value EC_NONE) ->
  deadline_passed w now = false /\ exists read m,
    ci_read (ew_provider w) (w_checks s) (cr_repository read) (cr_pr_number read) (ew_expected_subject w) (w_js s)
      = (Observed read, m) /\ positive w read /\ waiting (ew_wait_id w) inst (js_t m).
Proof.
  unfold check_ci_wait, rescue. intros R C. destruct (_process_ci_wait inst now w s) as [[r1|e] s1] eqn:E.
  2:{ apply put_off_class in R. congruence. }
  injection R as -> ->. unfold _process_ci_wait in E. destruct (deadline_passed w now).
  { apply lifted in E as (ev & _ & E). apply wake_class in E as [E|[E _]]; rewrite C in E; discriminate E. }
  split; [done|]. destruct (negb (str_in _ ci_adapters)); [apply put_off_class in E; congruence|].
  apply lifted in E as (p & P & E). destruct (parse_ci_ref (ew_ref w)) as [[repo pr]|] eqn:Ref.
  2:{ apply put_off_class in E; congruence. }
  apply M_bind_ok in E as (a & s2 & G & E). unfold call_read in G.
  destruct (ci_read _ _ repo pr _ _) as [a' m] eqn:A. injection G as <- <-. destruct a' as [read| |t].
  - apply (process_read_success _ _ _ _ _ _ _ _ P) in E as [W Q]; [|done].
    pose proof Q as (_ & _ & _ & Ref' & _). rewrite Ref in Ref'. injection Ref' as -> ->. by exists read, m.
  - apply put_off_class in E. congruence.
  - apply lifted in E as (ev & _ & E). apply put_off_class in E. congruence.
Qed.
End Success.
