(* ===== verification/WakeSession.v ===== *)
(** * WakeOnce: a wait ends once.

    Both managers, their adapters and the lease holders run in any order.  [keeps_waits]
    is the abstract life of a wait row: it stays, what it waits for stays, and once it is
    terminal so do its end and its version; a wake is counted where it is reported. *)
From S2P Require Import Prelude PyVal Json Models Timestamps JobState Concurrency CoreStore JobRows Worktree Leases ActionLocks JobSteps JobInv LeaseSession JobFrame LockSpec IsoParse Canonical Candidates CandidateSpec Outbox Redact Broker Along Waits CiState CiWait CiSpec.
#[local] Open Scope string_scope.

Definition wait_base (w : Wait) :=
  (ew_wait_id w, ew_job_id w, ew_kind w, ew_provider w, ew_ref w, ew_expected_subject w, ew_deadline_at w,
   ew_ci_policy w, ew_created_at w).
Definition ended (w : Wait) : bool := is_some (ew_terminal_observed_at w).
Definition lives_on (w w' : Wait) : Prop :=
  wait_base w' = wait_base w /\
  (ended w = true -> ew_terminal_observed_at w' = ew_terminal_observed_at w /\ ew_event_version w' = ew_event_version w).
#[export] Instance lives_on_preorder : PreOrder lives_on.
Proof.
  split; [done|]. intros a b c [B1 T1] [B2 T2]. split; [congruence|]. intros E. destruct (T1 E) as [U1 V1].
  assert (E' : ended b = true) by (unfold ended; by rewrite U1). destruct (T2 E'). split; congruence.
Qed.
Definition keeps_waits (s s' : JSt) : Prop := forall id w, wait_of id (js_t s) = Some w ->
  exists w', wait_of id (js_t s') = Some w' /\ lives_on w w'.
#[export] Instance keeps_waits_preorder : PreOrder keeps_waits.
Proof.
  split.
  - intros s id w E. exists w. split; [done|]. reflexivity.
  - intros a b c H K id w E. apply H in E as (w1 & E & L1). apply K in E as (w2 & E & L2). exists w2. split; [done|]. by etrans.
Qed.
Lemma kw_same s s' : jt_waits (js_t s') = jt_waits (js_t s) -> keeps_waits s s'.
Proof. intros E id w H. exists w. split; [|reflexivity]. unfold wait_of in *. by rewrite E. Qed.

(** ** The statements *)
(** Fields that a check writes. *)
Definition check_field (a : wassign) : bool :=
  match a with W_event_version _ | W_terminal_observed_at _ | W_ci_policy _ => false | _ => true end.
Lemma wapply_base l w : forallb (fun a => match a with W_ci_policy _ => false | _ => true end) l = true ->
  wait_base (wapply_all l w) = wait_base w.
Proof.
  unfold wapply_all. revert w. induction l as [|a l IH]; intros w; [done|]. cbn [forallb fold_left]. intros [A L]%andb_true_iff.
  rewrite IH by done. by destruct a.
Qed.
Lemma wapply_check l w : forallb check_field l = true -> lives_on w (wapply_all l w).
Proof.
  unfold wapply_all. revert w. induction l as [|a l IH]; intros w; [done|]. cbn [forallb fold_left]. intros [A L]%andb_true_iff.
  etrans; [|by apply IH]. by destruct a.
Qed.
Lemma wait_update id p f t : (forall w, ew_wait_id (f w) = ew_wait_id w) ->
  wait_of id (set jt_waits (update_where p f) t) = (fun w => if p w then f w else w) <$> wait_of id t.
Proof. intros K. unfold wait_of. cbn. by apply row_by_id_update. Qed.
Lemma base_id l w : wait_base (wapply_all l w) = wait_base w -> ew_wait_id (wapply_all l w) = ew_wait_id w.
Proof. unfold wait_base. by intros [= ? ? ? ? ? ? ? ? ?]. Qed.
Lemma kw_update p l s r s' : forallb check_field l = true -> jupdate jt_waits p (wapply_all l) s = (r, s') -> keeps_waits s s'.
Proof.
  intros C [->| ->]%jupdate_cases; [reflexivity|]. intros id w E.
  change (exists w', wait_of id (set jt_waits (update_where p (wapply_all l)) (js_t s)) = Some w' /\ lives_on w w').
  assert (I : forall w, ew_wait_id (wapply_all l w) = ew_wait_id w) by (intros; by apply base_id, wapply_check).
  rewrite (wait_update _ _ _ _ I), E. cbn. eexists. split; [done|].
  destruct (p w); [by apply wapply_check | reflexivity].
Qed.

Section Ops.
Context {env : Env}.
Lemma kw_frame s s' : jobs_only s s' -> keeps_waits s s'.
Proof. intros (_ & j & m & E). apply kw_same. by rewrite E. Qed.
Lemma kw_update_wait id l s r s' : forallb check_field l = true -> _update_external_wait id l s = (r, s') -> keeps_waits s s'.
Proof.
  intros C. unfold _update_external_wait. destruct l; [by intros [= _ <-]|]. by apply kw_update.
Qed.
Lemma kw_transaction {A} (m : jcmd A) : (forall s r s', m s = (r, s') -> keeps_waits s s') ->
  forall s r s', jtransaction m s = (r, s') -> keeps_waits s s'.
Proof.
  intros H s [a|e] s' E.
  - apply jtransaction_ok in E as (s1 & (_ & T & _) & _ & E). apply H in E. etrans; [|exact E]. apply kw_same. by rewrite T.
  - apply jtransaction_err in E as [_ T]. apply kw_same. by rewrite T.
Qed.
Lemma kw_fenced id inst l s r s' : forallb check_field l = true -> update_external_wait_fenced id inst l s = (r, s') -> keeps_waits s s'.
Proof.
  intros C. unfold update_external_wait_fenced. destruct l as [|a l]; [by intros [= _ <-]|].
  apply kw_transaction. clear s r s'. intros s r s' E. unfold jquery in E.
  apply bind_split in E as [(h & s1 & G & E)|(e & G & _)]; [|by injection G]. apply gets_ok in G as [_ <-].
  destruct (negb h); [by injection E as _ <-|]. by apply kw_update in E.
Qed.
Lemma kw_enter job w o ep s r s' : transition_to_waiting_external job w o ep s = (r, s') -> keeps_waits s s'.
Proof.
  unfold transition_to_waiting_external. intros E.
  assert (P : along keeps_waits (transition_to_waiting_external job w o ep)); [|by apply P in E].
  clear. unfold transition_to_waiting_external.
  assert (R : forall A (m : jcmd A), reads m -> along keeps_waits m).
  { intros A m H s r s' (_ & T & _)%H. apply kw_same. by rewrite T. }
  apply al_bind; [exact _ | apply R; unfold _validate_lease_owner; auto with reads | intros _].
  apply al_bind; [exact _ | apply R; auto with reads | intros _].
  apply al_bind; [exact _ | apply R, jnow_iso_reads | intros now].
  intros s r s'. apply kw_transaction. clear s r s'.
  change (along keeps_waits (j ← need_job job; _ ← raise_unless (String.eqb (j_primary_state j) (value PS_RUNNING)) LeaseError;
    _ ← check_holder LeaseError j o ep now; _ ← _insert_external_wait w;
    _transition_job job (value PS_WAITING_EXTERNAL) "WAITING_RUN" (wait_entry_fields w) false true
      (mkCas (Some (value PS_RUNNING)) (Some o) (Some ep) true) now)).
  apply al_bind; [exact _ | apply R, fr_need | intros j].
  apply al_bind; [exact _ | apply R; auto with reads | intros _].
  apply al_bind; [exact _ | intros s r s' E; eapply kw_frame, fr_holder, E | intros _].
  apply al_bind; [exact _ | | intros _].
  - intros s r s' [->| ->]%jwrite_cases; [reflexivity|]. intros id x E. exists x. split; [|reflexivity]. cbn.
    unfold wait_of in *. cbn. etransitivity; [apply (by_id_snoc ew_wait_id)|]. by rewrite E.
  - intros s r s' E. eapply kw_frame, fr_transition, E.
Qed.

(** A wake, and the wait whose end it is. *)
Definition over (id : string) (s : JSt) : bool := match wait_of id (js_t s) with Some w => ended w | None => false end.
Lemma keeps_over id s s' : keeps_waits s s' -> over id s = true -> over id s' = true.
Proof.
  intros K. unfold over. destruct (wait_of id (js_t s)) as [w|] eqn:E; [|done]. apply K in E as (w' & -> & _ & T).
  intros H. unfold ended in *. destruct (T H) as [-> _]. exact H.
Qed.
Lemma wake_ended k now w : ended (wapply_all (wake_assigns k now) w) = true.
Proof. unfold wake_assigns. destruct k as [q e [st|] v [ev|]]; reflexivity. Qed.
Lemma complete_none id k inst now s s' : complete_wait_and_requeue id k inst now s = (Ok None, s') -> js_t s' = js_t s.
Proof.
  unfold complete_wait_and_requeue. intros (s1 & (_ & <- & _) & _ & R)%jtransaction_ok.
  unfold get_external_wait, jquery in R.
  apply M_bind_ok in R as (h & s2 & G & R). apply gets_ok in G as [_ <-]. destruct (negb h); [by injection R as <-|].
  apply M_bind_ok in R as (row & s2 & G & R). apply gets_ok in G as [_ <-].
  destruct row as [w|]; [|by injection R as <-]. destruct (negb (open_wait w)); [by injection R as <-|].
  apply M_bind_ok in R as (j & s2 & G & R). apply need_job_ok in G as [_ ->].
  destruct (negb _); [by injection R as <-|].
  apply M_bind_ok in R as (n & s2 & _ & R). apply M_bind_ok in R as (u & s3 & _ & R). by apply mret_ok in R as [[=] _].
Qed.
Lemma kw_complete id k inst now s r s' : complete_wait_and_requeue id k inst now s = (r, s') ->
  keeps_waits s s' /\ (forall j, r = Ok (Some j) -> over id s = false /\ over id s' = true).
Proof.
  intros E. destruct r as [[j|]|e].
  - apply complete_wait_some in E as ((_ & w & j0 & W & O & _) & w1 & j1 & f & W1 & _ & _ & T).
    rewrite W in W1. injection W1 as <-.
    assert (B : forall w, wait_base (wapply_all (wake_assigns k now) w) = wait_base w).
    { intros. apply wapply_base. unfold wake_assigns. by destruct k as [q e [st|] v [ev|]]. }
    assert (N : forall id', wait_of id' (js_t s')
              = (fun w => if is_wait id w then wapply_all (wake_assigns k now) w else w) <$> wait_of id' (js_t s)).
    { intros id'. rewrite T. rewrite <- (wait_update id' (is_wait id) (wapply_all (wake_assigns k now)) (js_t s)); [done|].
      intros. by apply base_id, B. }
    split.
    + intros id' w' E. rewrite N, E. cbn. eexists. split; [done|]. destruct (is_wait id w') eqn:I; [|reflexivity].
      assert (w' = w) as ->.
      { apply String.eqb_eq in I. pose proof E as E'. apply row_by_id in E' as [K _]. unfold wait_of in *. congruence. }
      split; [apply B|]. unfold ended. by rewrite O.
    + intros _ _. unfold over. rewrite N, W. cbn. unfold ended at 1. rewrite O. split; [done|].
      unfold is_wait. apply row_by_id in W as [-> _]. rewrite String.eqb_refl. apply wake_ended.
  - apply complete_none in E. split; [|done]. apply kw_same. by rewrite E.
  - unfold complete_wait_and_requeue in E. apply jtransaction_err in E as [_ T]. split; [|done]. apply kw_same. by rewrite T.
Qed.
End Ops.

(** ** Counting the wakes *)
Definition tally (id : string) (woken : list string) : nat := count_occ string_dec woken id.
Definition wakes_ok (s : JSt) (woken : list string) (s' : JSt) : Prop :=
  keeps_waits s s' /\ forall id, tally id woken + Nat.b2n (over id s) <= Nat.b2n (over id s').
Lemma wakes_none s s' : keeps_waits s s' -> wakes_ok s [] s'.
Proof.
  intros K. split; [done|]. intros id. cbn. pose proof (keeps_over id s s' K) as O. destruct (over id s); [|cbn; lia].
  by rewrite O.
Qed.
Lemma wakes_app s a s1 b s2 : wakes_ok s a s1 -> wakes_ok s1 b s2 -> wakes_ok s (a ++ b)%list s2.
Proof.
  intros [K A] [L B]. split; [by etrans|]. intros id. specialize (A id). specialize (B id). unfold tally in *.
  rewrite count_occ_app. lia.
Qed.
Lemma wakes_one id s s' : keeps_waits s s' -> over id s = false -> over id s' = true -> wakes_ok s [id] s'.
Proof.
  intros K F T. split; [done|]. intros id'. destruct (wakes_none s s' K) as [_ N]. specialize (N id'). unfold tally in *. cbn in *.
  destruct (string_dec id id') as [<-|]; [rewrite F, T; cbn; lia | lia].
Qed.

(** ** WakeSession: any sequence of waits, checks and lease commands.

    Both managers enter and check waits, in bounded passes, while the lease holders work;
    an adapter may change the store as any of them does.  [waits_wake_once] counts the
    wakes they report. *)
Definition keeps (s s' : WSt) : Prop := keeps_waits (w_js s) (w_js s').
#[export] Instance keeps_preorder : PreOrder keeps.
Proof. split; [intros s; unfold keeps; reflexivity|]. intros a b c. unfold keeps. apply PreOrder_Transitive. Qed.
(** The waits a result reports woken. *)
Definition woken_id (outcome id : string) : list string := if String.eqb outcome "woke" then [id] else [].
Definition woken (r : WaitCheckResult) : list string := woken_id (wc_outcome r) (wc_wait_id r).
Definition ci_woken (r : CiWaitCheckResult) : list string := woken_id (cc_outcome r) (cc_wait_id r).
Definition reported {A} (f : A -> list string) (r : res exc A) : list string :=
  match r with Ok a => f a | Err _ => [] end.

Definition all_woken {A} (f : A -> list string) (l : list A) : list string := List.concat (map f l).
Section Counts.
Context {A : Type} (f : A -> list string).
Definition counts (m : wcmd A) : Prop := forall s r s', m s = (r, s') -> wakes_ok (w_js s) (reported f r) (w_js s').
Lemma counts_bind {B} (m : wcmd B) k : along keeps m -> (forall b, counts (k b)) -> counts (b ← m; k b).
Proof.
  intros M K s r s' [(b & s1 & E & R)|(e & E & ->)]%bind_split; apply M in E; [|by apply wakes_none].
  apply K in R. apply (wakes_app _ [] _ _ _ (wakes_none _ _ E) R).
Qed.
Lemma counts_lift {B} (x : res exc B) k : (forall b, x = Ok b -> counts (k b)) -> counts (b ← lift x; k b).
Proof.
  intros K s r s' [(b & s1 & [E <-]%lift_ok & R)|(e & E & ->)]%bind_split; [by eapply K|].
  apply wakes_none. injection E as _ <-. reflexivity.
Qed.
Lemma counts_none m : along keeps m -> (forall s a s', m s = (Ok a, s') -> f a = []) -> counts m.
Proof.
  intros K N s r s' E. pose proof E as E1. apply K in E. destruct r as [a|e]; [|by apply wakes_none].
  cbn. rewrite (N _ _ _ E1). by apply wakes_none.
Qed.
(** The handler of an exception: no wake is reported that was not made. *)
Lemma counts_rescue m h : counts m -> (forall e, counts (h e)) -> counts (rescue m h).
Proof.
  intros M H s r s'. unfold rescue. destruct (m s) as [[a|e] s1] eqn:E; apply M in E.
  - by intros [= <- <-].
  - intros R%H. apply (wakes_app _ [] _ _ _ E R).
Qed.
End Counts.
Lemma counts_mmap {A B} (f : A -> list string) (g : B -> wcmd A) l : (forall b, counts f (g b)) ->
  counts (all_woken f) (mmap g l).
Proof.
  intros G. induction l as [|x l IH]; intros s r s'.
  { intros [= <- <-]. by apply wakes_none. }
  cbn [mmap]. intros [(y & s1 & E & R)|(e & E & ->)]%bind_split.
  2:{ apply G in E. exact E. }
  apply G in E. apply bind_split in R as [(ys & s2 & R & [= <- <-])|(e & R & ->)]; apply IH in R.
  - exact (wakes_app _ _ _ _ _ E R).
  - destruct E as [K _]. destruct R as [L _]. apply wakes_none. by etrans.
Qed.

Lemma al_wait_store {A} (m : jcmd A) : (forall s r s', m s = (r, s') -> keeps_waits s s') -> along keeps (wait_store m).
Proof. intros H s r s'. unfold wait_store, keeps. destruct (m (w_js s)) as [x j] eqn:E. apply H in E. by intros [= _ <-]. Qed.

Lemma al_listed {env : Env} now n k : along keeps (wait_store (list_due_external_waits now n k)).
Proof. apply al_wait_store. intros s r s' [= _ <-]. reflexivity. Qed.

Lemma al_new_id {env : Env} : along keeps new_wait_id.
Proof.
  unfold new_wait_id. al. apply al_wait_store. intros s r s'. unfold on_core. destruct (uuid (js_core s)).
  intros [= _ <-]. by apply kw_same.
Qed.

Section Generic.
Context {env : Env} {wenv : WaitEnv}.
Lemma al_wait_now : along keeps wait_now.
Proof. intros s r s' [= _ <-]. unfold keeps. reflexivity. Qed.
Context (adapter_keeps : forall p n w j, keeps_waits j (snd (adapter_check p n w j))).
Lemma al_call w : along keeps (call_check w).
Proof.
  intros s r s'. unfold call_check, keeps. pose proof (adapter_keeps (ew_provider w) (w_checks s) w (w_js s)) as K.
  destruct (adapter_check _ _ _ _) as [a j]. by intros [= _ <-].
Qed.
Lemma backoff_counts w now st out why : out <> "woke" -> counts woken (_backoff w now st out why).
Proof.
  intros N. unfold _backoff. apply counts_none.
  - al. apply al_wait_store. intros s r s'. apply kw_update_wait. by destruct st.
  - intros s a s'. intros (n & _ & R)%lifted. apply M_bind_ok in R as (x & s1 & _ & R). apply mret_ok in R as [<- _].
    unfold woken, woken_id. cbn. by destruct (String.eqb_spec out "woke").
Qed.
Lemma wake_counts w obs now q e why : counts woken (_wake w obs now q e why).
Proof.
  unfold _wake. intros s r s' [(u & s1 & E & [= <- <-])|(x & E & ->)]%bind_split; unfold wait_store in E;
    destruct (complete_wait_and_requeue _ _ _ _ (w_js s)) as [r1 j1] eqn:C; injection E as -> <-;
    apply kw_complete in C as [K W]; [|by apply wakes_none].
  destruct u as [j|]; [|by apply wakes_none]. destruct (W j eq_refl). cbn. by apply wakes_one.
Qed.
Lemma observation_outcome obs w o why : _validate_observation obs w = Ok (Some (o, why)) -> o <> "woke".
Proof.
  unfold _validate_observation. intros E.
  repeat match type of E with (if ?b then _ else _) = _ => destruct b end; first [discriminate E | injection E as <- _; done | idtac].
  repeat case_match; first [discriminate E | injection E as <- _; done].
Qed.
Lemma check_counts now w : counts woken (check_wait now w).
Proof.
  unfold check_wait. apply counts_rescue; [|intros e; by apply backoff_counts].
  unfold _process_wait. case_match; [apply wake_counts|]. case_match; [by apply backoff_counts|].
  apply counts_bind; [apply al_call|]. intros [obs| |t]; [|by apply backoff_counts..].
  unfold _process_observation. apply counts_lift. intros [[o why]|] V.
  - apply observation_outcome in V. apply counts_bind; [al|]. intros st. by apply backoff_counts.
  - repeat case_match; first [by apply backoff_counts | apply wake_counts].
Qed.
Lemma due_counts n : counts (all_woken woken) (check_due_waits n).
Proof.
  unfold check_due_waits. destruct (Nat.eqb n 0); [intros s r s' [= <- <-]; by apply wakes_none|].
  apply counts_bind; [exact al_wait_now|]. intros now. apply counts_bind; [apply al_listed|]. intros due.
  apply counts_mmap. intros w. apply check_counts.
Qed.
Lemma enter_keeps job spec o ep : along keeps (enter_waiting_external job spec o ep).
Proof.
  unfold enter_waiting_external. apply al_bind; [exact _ | exact al_wait_now | intros now].
  apply al_bind; [exact _ | | intros w; apply al_wait_store; intros s r s'; apply kw_enter].
  unfold _build_wait_row. al. apply al_new_id.
Qed.
End Generic.

Section Ci.
Context {env : Env} {cienv : CiEnv}.
Context (read_keeps : forall p n repo pr head j, keeps_waits j (snd (ci_read p n repo pr head j))).
Context (inst : option string) (now : string) (w : Wait).
Lemma ci_put_off_counts d st out why ev : out <> "woke" -> counts ci_woken (ci_put_off inst now w d st out why ev).
Proof.
  intros N. unfold ci_put_off. apply counts_none.
  - al. apply al_wait_store. intros s r s'. apply kw_fenced. by destruct st, ev.
  - intros s a s'. intros (n & _ & R)%lifted. apply M_bind_ok in R as (x & s1 & _ & R). apply mret_ok in R as [<- _].
    unfold ci_woken, woken_id. cbn. by destruct (String.eqb_spec out "woke").
Qed.
Lemma ci_wake_counts q e why st ev v : counts ci_woken (ci_wake inst now w q e why st ev v).
Proof.
  unfold ci_wake. intros s r s' [(u & s1 & E & [= <- <-])|(x & E & ->)]%bind_split; unfold wait_store in E;
    destruct (complete_wait_and_requeue _ _ _ _ (w_js s)) as [r1 j1] eqn:C; injection E as -> <-;
    apply kw_complete in C as [K W]; [|by apply wakes_none].
  destruct u as [j|]; [|by apply wakes_none]. destruct (W j eq_refl). cbn. by apply wakes_one.
Qed.
Lemma wake_on_counts read p e st c t x : counts ci_woken (wake_on inst now w read p e st c t x).
Proof. apply counts_lift. intros ev _. apply ci_wake_counts. Qed.
Lemma hold_on_counts read p st c t out why : out <> "woke" -> counts ci_woken (hold_on inst now w read p st c t out why).
Proof. intros N. apply counts_lift. intros ev _. by apply ci_put_off_counts. Qed.
Lemma rate_counts read p : counts ci_woken (_backoff_rate_limited inst now w read p).
Proof.
  unfold _backoff_rate_limited. apply counts_lift. intros ? _. apply counts_lift. intros ? _. apply counts_lift.
  intros ? _. by apply ci_put_off_counts.
Qed.
Ltac cases :=
  lazymatch goal with
  | |- counts _ (hold_on _ _ _ _ _ _ _ _ _ _) => by apply hold_on_counts
  | |- counts _ (wake_on _ _ _ _ _ _ _ _ _ _) => apply wake_on_counts
  | |- counts _ (ci_backoff _ _ _ _ _ _ _) => by apply ci_put_off_counts
  | |- counts _ (_backoff_rate_limited _ _ _ _ _) => apply rate_counts
  | |- counts _ (match ?b with _ => _ end) => destruct b; cases
  end.
Lemma settle_counts read p : counts ci_woken (settle_checks inst now w read p).
Proof.
  unfold settle_checks. apply counts_lift. intros ch _. cases.
Qed.
Lemma read_counts read p : counts ci_woken (process_read inst now w read p).
Proof.
  unfold process_read, hold_unknown, stale.
  repeat match goal with |- counts _ (match ?b with _ => _ end) => destruct b end; first [apply settle_counts | cases].
Qed.
Lemma ci_check_counts : counts ci_woken (check_ci_wait inst now w).
Proof.
  unfold check_ci_wait. apply counts_rescue; [|intros e; by apply ci_put_off_counts].
  unfold _process_ci_wait. case_match; [apply counts_lift; intros ev _; apply ci_wake_counts|].
  case_match; [by apply ci_put_off_counts|]. apply counts_lift. intros p _. case_match; [|by apply ci_put_off_counts].
  case_match. apply counts_bind.
  - intros s1 r s2. unfold call_read, keeps. match goal with |- context [ci_read ?a ?b ?c ?d ?e ?f] => pose proof (read_keeps a b c d e f) as K end.
    destruct (ci_read _ _ _ _ _ _) as [x j]. by intros [= _ <-].
  - intros [read| |t]; [apply read_counts | by apply ci_put_off_counts|]. apply counts_lift. intros ev _. by apply ci_put_off_counts.
Qed.
End Ci.

(** ** Sessions *)
Section Session.
Context {env : Env} {wenv : WaitEnv} {cienv : CiEnv}.
Inductive wait_event : Type :=
| EnterWait (job_id : string) (spec : WaitSpec) (owner : string) (lease_epoch : Z)
| EnterCi (job_id : string) (spec : CiWaitSpec) (owner : string) (lease_epoch : Z)
| CheckDue (max_items : nat)
| CheckDueCi (max_items : nat) (instance_id : option string)
| Lease (c : lease_cmd).
(** The waits an event reports woken; an exception reports nothing. *)
Definition ran {A} (f : A -> list string) (m : wcmd A) (s : WSt) : list string * WSt :=
  let (r, s') := m s in (reported f r, s').
Definition wait_exec (e : wait_event) : WSt -> list string * WSt :=
  match e with
  | EnterWait j spec o ep => ran (fun _ => []) (enter_waiting_external j spec o ep)
  | EnterCi j spec o ep => ran (fun _ => []) (enter_ci_wait j spec o ep)
  | CheckDue n => ran (all_woken woken) (check_due_waits n)
  | CheckDueCi n inst => ran (all_woken ci_woken) (check_due_ci_waits n inst)
  | Lease c => ran (fun _ => []) (wait_store (lease_exec c))
  end.
Fixpoint wait_run (evs : list wait_event) (s : WSt) : list string * WSt :=
  match evs with
  | [] => ([], s)
  | e :: evs => let (a, s1) := wait_exec e s in let (b, s2) := wait_run evs s1 in ((a ++ b)%list, s2)
  end.
Context (adapter_keeps : forall p n w j, keeps_waits j (snd (adapter_check p n w j))).
Context (read_keeps : forall p n repo pr head j, keeps_waits j (snd (ci_read p n repo pr head j))).
Lemma al_ci_now : along keeps ci_now.
Proof. intros s r s' [= _ <-]. unfold keeps. reflexivity. Qed.
Lemma ci_due_counts n inst : counts (all_woken ci_woken) (check_due_ci_waits n inst).
Proof.
  unfold check_due_ci_waits. destruct (Nat.eqb n 0); [intros s r s' [= <- <-]; by apply wakes_none|].
  apply counts_bind; [exact al_ci_now|]. intros now. apply counts_bind; [apply al_listed|]. intros due.
  apply counts_mmap. intros w. by apply ci_check_counts.
Qed.
Lemma al_on_core {A} (m : cmd A) : along keeps_waits (on_core m).
Proof. intros s r s'. unfold on_core. destruct (m (js_core s)). intros [= _ <-]. by apply kw_same. Qed.
Lemma no_process_keeps job : along keeps_waits (_ensure_no_active_process job).
Proof. unfold _ensure_no_active_process, get_supervisor_job, jquery. al; apply al_on_core. Qed.
Lemma enter_ci_keeps job spec o ep : along keeps (enter_ci_wait job spec o ep).
Proof.
  unfold enter_ci_wait. apply al_bind; [exact _ | exact al_ci_now | intros now].
  apply al_bind; [exact _ | apply al_wait_store, no_process_keeps | intros _].
  apply al_bind; [exact _ | | intros w; apply al_wait_store; intros s r s'; apply kw_enter].
  unfold _build_ci_row. al. apply al_new_id.
Qed.
Lemma keeps_counts {A} (m : wcmd A) : along keeps m -> counts (fun _ => []) m.
Proof. intros K. by apply counts_none. Qed.
Lemma ran_ok {A} (f : A -> list string) m s ws s' : counts f m -> ran f m s = (ws, s') -> wakes_ok (w_js s) ws (w_js s').
Proof. intros C. unfold ran. destruct (m s) as [r s1] eqn:E. intros [= <- <-]. by apply C. Qed.
Lemma exec_ok e s ws s' : wait_exec e s = (ws, s') -> wakes_ok (w_js s) ws (w_js s').
Proof.
  destruct e; cbn [wait_exec]; apply ran_ok.
  - apply keeps_counts, enter_keeps.
  - apply keeps_counts, enter_ci_keeps.
  - by apply due_counts.
  - apply ci_due_counts.
  - apply keeps_counts, al_wait_store. intros s1 r s2 E%lease_exec_frame. by apply kw_frame.
Qed.

(** C24: a wait ends once: however waits are entered and checked by both managers, whichever
    instance they run for, while lease holders work and adapters let the store move on, no
    wait is reported woken twice, none again that was over before, and a row that has ended
    keeps the moment of its end and the version of the event it ended with; rows do not
    disappear, and what they wait for never changes. *)
Theorem waits_wake_once evs s ws s' : wait_run evs s = (ws, s') ->
  keeps_waits (w_js s) (w_js s') /\
  forall id, tally id ws + Nat.b2n (over id (w_js s)) <= Nat.b2n (over id (w_js s')) <= 1.
Proof.
  intros R. assert (W : wakes_ok (w_js s) ws (w_js s')).
  { revert s ws R. induction evs as [|e evs IH]; intros s ws; cbn [wait_run].
    - intros [= <- <-]. by apply wakes_none.
    - destruct (wait_exec e s) as [a s1] eqn:E. destruct (wait_run evs s1) as [b s2] eqn:F. intros [= <- <-].
      apply exec_ok in E. apply IH in F. by eapply wakes_app. }
  destruct W as [K W]. split; [exact K|]. intros id. split; [apply W|]. destruct (over id (w_js s')); cbn; lia.
Qed.
End Session.
