(* ===== verification/WaitScenario.v ===== *)
(** * WaitStarve: where the bounded pass does not get on.

    [check_due_waits] takes the [max_items] due waits whose next check is the earliest.
    A wait whose deadline has passed and whose job has left WAITING_EXTERNAL (it was
    quarantined, say) cannot be completed, and nothing is written for it, so that it
    comes first again in every later pass. *)
From S2P Require Import Prelude PyVal Json Models Timestamps JobState Concurrency CoreStore JobRows Worktree Leases ActionLocks JobSteps JobInv LeaseSession JobFrame MergeOrder LockSpec IsoParse Canonical Candidates CandidateSpec Outbox Redact Broker Along Waits CiState CiWait CiSpec Trust Gates Recovery Core Session Scenario LeaseSpec JobScenario WakeSession.
#[local] Open Scope string_scope.

Lemma next_check_trans a b c : by_next_check a b = true -> by_next_check b c = true -> by_next_check a c = true.
Proof. apply str_leb_trans. Qed.
Lemma next_check_total a b : by_next_check a b = false -> by_next_check b a = true.
Proof.
  unfold by_next_check. intros E. destruct (String.leb_total (ew_next_check_at a) (ew_next_check_at b)) as [T|T]; [|exact T].
  change (str_leb (ew_next_check_at a) (ew_next_check_at b) = true) in T. congruence.
Qed.

(** ** A wait nobody waits for *)
Definition dead (t0 : string) (t : JT) (w : Wait) : Prop :=
  wait_of (ew_wait_id w) t = Some w /\ (exists d, ew_deadline_at w = Some d /\ str_leb d t0 = true) /\
  exists j, job_of (ew_job_id w) t = Some j /\ j_primary_state j <> "WAITING_EXTERNAL".
(** The open waits in the order of their next check begin with [max_items] dead ones. *)
Definition stuck (max_items : nat) (t0 : string) (t : JT) : Prop := exists ds rest,
  sort_by by_next_check (List.filter open_wait (jt_waits t)) = (ds ++ rest)%list /\
  (max_items <= length ds)%nat /\ Forall (dead t0 t) ds.
Definition idle (r : WaitCheckResult) : Prop := wc_outcome r = "ignored" /\ wc_reason r = Some "already_handled".

Section Starve.
Context {env : Env} {wenv : WaitEnv}.
Lemma dead_due t0 now t w : str_leb t0 now = true -> open_wait w = true -> dead t0 t w ->
  due now w = true /\ deadline_passed w now = true.
Proof.
  intros L O (_ & (d & D & E) & _). unfold due, deadline_passed. rewrite D, O.
  rewrite (str_leb_trans d t0 now E L : str_leb d now = true). by rewrite orb_true_r.
Qed.
Lemma due_stuck n t0 now s : str_leb t0 now = true -> stuck n t0 (js_t s) ->
  exists ds, list_due_external_waits now n None s = (Ok ds, s) /\ Forall (dead t0 (js_t s)) ds /\ Forall (fun w => deadline_passed w now = true) ds.
Proof.
  intros L (ds & rest & E & N & F). exists (firstn n ds). unfold list_due_external_waits, jquery, gets.
  assert (O : Forall (fun w => open_wait w = true) ds).
  { rewrite Forall_forall. intros w I. assert (J : w ∈ sort_by by_next_check (List.filter open_wait (jt_waits (js_t s)))).
    { rewrite E. apply elem_of_app. by left. }
    rewrite sort_by_perm in J. by apply list_elem_of_In, filter_In in J as [_ J]. }
  assert (D : Forall (fun w => due now w = true /\ deadline_passed w now = true) ds).
  { rewrite Forall_forall in O, F |- *. intros w I. eapply dead_due; eauto. }
  rewrite (filter_ext _ (due now)) by (intros w; by rewrite andb_true_r).
  assert (Q : List.filter (due now) (jt_waits (js_t s)) = List.filter (due now) (List.filter open_wait (jt_waits (js_t s)))).
  { generalize (jt_waits (js_t s)). induction l as [|w l IH]; [done|]. cbn. destruct (open_wait w) eqn:P; cbn; rewrite IH; [done|].
    assert (due now w = false) as -> by (unfold due; by rewrite P). done. }
  rewrite Q, <- (filter_sort _ next_check_trans next_check_total), E, List.filter_app.
  rewrite (forallb_filter_id (due now) ds).
  2:{ apply forallb_forall. intros w I. rewrite Forall_forall in D. by apply D, list_elem_of_In. }
  rewrite firstn_app. replace (n - length ds)%nat with 0%nat by lia. cbn. rewrite app_nil_r.
  split; [done|]. split; apply Forall_take; [done|]. eapply Forall_impl; [exact D|]. intros w [_ X]; exact X.
Qed.
(** A dead wait costs a result. *)
Lemma dead_idle t0 now w s : js_fence (w_js s) = None -> dead t0 (js_t (w_js s)) w -> deadline_passed w now = true ->
  exists r, check_wait now w s = (Ok r, s) /\ idle r.
Proof.
  intros F (W & _ & j & J & P) D. unfold check_wait, rescue, _process_wait. rewrite D.
  unfold _wake, wait_store, mbind at 1, M_bind at 1.
  assert (C : forall k, complete_wait_and_requeue (ew_wait_id w) k None now (w_js s) = (Ok None, w_js s)).
  { intros k. unfold complete_wait_and_requeue, jtransaction, rollback, _check_action_fence, get_external_wait, jquery, need_job,
      get_supervisor_job, gets, mbind, M_bind, mret, M_ret. rewrite F. cbn. rewrite W.
    destruct (open_wait w); [|done]. cbn. rewrite J. cbn. destruct (String.eqb_spec (j_primary_state j) "WAITING_EXTERNAL"); done. }
  rewrite C. eexists. split; [by destruct s|]. done.
Qed.
Lemma dead_pass t0 now ds s : js_fence (w_js s) = None -> Forall (dead t0 (js_t (w_js s))) ds ->
  Forall (fun w => deadline_passed w now = true) ds -> exists rs, mmap (check_wait now) ds s = (Ok rs, s) /\ Forall idle rs.
Proof.
  intros N F. induction F as [|w ds D F IH]; intros P; [by exists []|]. inversion_clear P as [|? ? P1 P2].
  destruct (dead_idle _ _ _ _ N D P1) as (r & R & I). destruct (IH P2) as (rs & E & K). exists (r :: rs).
  split; [|by constructor]. cbn [mmap]. unfold mbind, M_bind. by rewrite R, E.
Qed.
Definition passes (max_items k : nat) : wcmd (list (list WaitCheckResult)) :=
  mmap (fun _ => check_due_waits max_items) (repeat tt k).

(** Dead waits starve the others: when the earliest [max_items] open waits are past their
    deadline and their jobs no longer wait, then however often the bounded pass runs from
    then on, it raises nothing, asks no adapter and changes no table; all it reports is that
    these waits are already handled, and no other wait, due or past its deadline, is seen. *)
Theorem dead_waits_starve max_items t0 k s :
  js_fence (w_js s) = None -> stuck max_items t0 (js_t (w_js s)) ->
  (forall i, exists now, format_in_range (wait_clock i) = Ok now /\ str_leb t0 now = true) ->
  exists rss s', passes max_items k s = (Ok rss, s') /\ Forall (Forall idle) rss /\ w_js s' = w_js s /\
    w_checks s' = w_checks s.
Proof.
  intros F S C. revert s F S. induction k as [|k IH]; intros s F S.
  { exists [], s. done. }
  unfold passes. cbn [repeat mmap]. unfold mbind at 1, M_bind at 1. unfold check_due_waits at 1.
  destruct (Nat.eqb max_items 0) eqn:Z.
  { destruct (IH s F S) as (rss & s' & E & I & J & N). exists ([] :: rss), s'. cbn [mret M_ret].
    unfold mbind, M_bind. unfold passes in E. rewrite E. split; [done|]. split; [by constructor|]. done. }
  set (s1 := s <| w_ticks ::= Datatypes.S |>).
  destruct (C (w_ticks s)) as (now & T & L).
  destruct (due_stuck max_items t0 now (w_js s1) L S) as (ds & D & FD & P).
  destruct (dead_pass t0 now (List.filter kept_kind ds) s1) as (rs & R & I); [done|..].
  1,2: apply Forall_forall; intros w I; apply list_elem_of_In, filter_In in I as [I%list_elem_of_In _];
    first [rewrite Forall_forall in FD; by apply FD | rewrite Forall_forall in P; by apply P].
  destruct (IH s1 F S) as (rss & s' & E & IR & J & N). exists (rs :: rss), s'.
  split; [|split; [by constructor | done]].
  unfold mbind, M_bind, wait_now. rewrite T. fold s1. unfold wait_store at 1. rewrite D.
  replace (s1 <| w_js := w_js s1 |>) with s1 by (by destruct s1). rewrite R. unfold passes in E. by rewrite E.
Qed.
End Starve.

(** ** WaitScenario: a job waits, twice.

    The job of [JobScenario] waits for the checks of a pull request and for a timer. *)
#[local] Existing Instance sample_env.

Definition at_minute (n : Z) : datetime := mkDatetime (738944 * US_PER_DAY + n * (60 * US_PER_SECOND))%Z None.
Definition minute (n : Z) : string := iso_utc (to_utc (at_minute n)).
#[export] Instance sample_waits : WaitEnv := {|
  wait_adapters := ["timer"];
  adapter_validate_ref _ _ := true;
  adapter_check p n w s := (Observed (mkWaitObservation (PStr "timer") (PStr (ew_ref w)) (PStr "PENDING") PNone (PInt 0)), s);
  wait_clock n := at_minute (60 * Z.of_nat n);
  wait_kind_filter := None
|}.
Definition green_read : CiRead :=
  mkCiRead "own/repo" 17 (PStr "abc") (PStr "main") PR_OPEN (Some [Some green]) None None (PInt 7).
#[export] Instance sample_ci : CiEnv := {|
  ci_adapters := ["github"];
  ci_validate_ref _ _ := true;
  ci_read _ _ _ _ _ s := (Observed green_read, s);
  ci_clock n := at_minute (60 * Z.of_nat n)
|}.

(** ** The checks succeed *)
Definition role_over_st : JSt := claimed_st <| js_core := run_all [CompleteRole "u3" lead None] (js_core claimed_st) |>.
Definition wait_st0 : WSt := mkWSt role_over_st 0 0.
Definition ci_spec : CiWaitSpec :=
  mkCiWaitSpec "github" "own/repo" 17 "abc" "main" (Some ["unit"]) [] None None (Some (minute 0)).
Definition ci_events : list wait_event := [EnterCi job_id0 ci_spec "host-a" 1; CheckDueCi 5 None; CheckDueCi 5 None; CheckDue 5].
Definition ci_wait_id : string := "wait:u8".
#[local] Notation ci_run := (wait_run ci_events wait_st0).
#[local] Notation ci_waiting := (snd (wait_exec (EnterCi job_id0 ci_spec "host-a" 1) wait_st0)).
Example ci_session : fst ci_run = [ci_wait_id] /\
  (fun j => (j_primary_state j, j_queue_reason j, j_error_class j)) <$> job_of job_id0 (js_t (w_js (snd ci_run)))
    = Some ("QUEUED", "WAIT_EVENT", "NONE").
Proof. vm_compute. split; reflexivity. Qed.
Lemma sample_adapter_keeps p n w j : keeps_waits j (snd (adapter_check p n w j)).
Proof. reflexivity. Qed.
Lemma sample_read_keeps p n repo pr head j : keeps_waits j (snd (ci_read p n repo pr head j)).
Proof. reflexivity. Qed.
Lemma waits_wake_once_witness : wait_run ci_events wait_st0 = ([ci_wait_id], snd ci_run) /\
  (tally ci_wait_id [ci_wait_id] + Nat.b2n (over ci_wait_id (w_js wait_st0)) <= Nat.b2n (over ci_wait_id (w_js (snd ci_run))))%nat.
Proof.
  assert (R : wait_run ci_events wait_st0 = ([ci_wait_id], snd ci_run)) by (apply outcome; vm_compute; reflexivity).
  split; [exact R|].
  exact (proj1 (proj2 (waits_wake_once sample_adapter_keeps sample_read_keeps ci_events wait_st0 [ci_wait_id] _ R) ci_wait_id)).
Defined.
Definition is_none {A} (o : option A) : bool := match o with Some _ => false | None => true end.
Definition no_wait : Wait := mkWait "" "" "" "" "" None None "" None 0 0 None None None "" "".
Definition ci_row : Wait := default no_wait (wait_of ci_wait_id (js_t (w_js ci_waiting))).
Definition class_of (r : res exc CiWaitCheckResult) : option string := match r with Ok r => cc_error_class r | Err _ => None end.
Definition no_result : CiWaitCheckResult := mkCiWaitCheckResult "" "" None None None None None None.
Definition got {A} (d : A) (r : res exc A) : A := match r with Ok a => a | Err _ => d end.
Lemma ci_success_sound_witness : deadline_passed ci_row (minute 60) = false /\
  exists read m, (Observed green_read, w_js ci_waiting) = (Observed read, m) /\ positive ci_row read.
Proof.
  assert (R : check_ci_wait None (minute 60) ci_row ci_waiting
            = (Ok (got no_result (fst (check_ci_wait None (minute 60) ci_row ci_waiting))),
               snd (check_ci_wait None (minute 60) ci_row ci_waiting))) by (apply outcome; vm_compute; reflexivity).
  assert (C : cc_error_class (got no_result (fst (check_ci_wait None (minute 60) ci_row ci_waiting))) = Some (value EC_NONE))
    by (vm_compute; reflexivity).
  destruct (ci_success_sound None (minute 60) ci_row ci_waiting _ _ R C) as (D & read & m & E & P & _).
  split; [exact D|]. exists read, m. split; [exact E | exact P].
Defined.

(** ** A wait that was given up wakes the job from the next *)
Definition timer (ref : string) (deadline : option string) (next : string) : WaitSpec :=
  mkWaitSpec "TIMER" "timer" ref None deadline (Some next).
Definition reopen : Enqueue :=
  mkEnqueue "GATE_APPROVED" 0 None "NONE" "NONE" None false None None true (Some "owner") None None None None None None None.
Definition stale_events : list wait_event :=
  [EnterWait job_id0 (timer "first" (Some (minute 90)) (minute 600)) "host-a" 1;
   Lease (QuarantineBlocked job_id0 "WORKTREE_DIVERGED" "OWNER_REQUIRED" None); Lease (EnqueueJob job_id0 reopen);
   Lease (Claim job_id0 "host-a" 3600); EnterWait job_id0 (timer "second" None (minute 600)) "host-a" 2; CheckDue 5].
#[local] Notation stale_run := (wait_run stale_events wait_st0).
Definition waits_seen (s : WSt) : list (string * bool) := map (fun w => (ew_ref w, ended w)) (jt_waits (js_t (w_js s))).
Definition job_seen (s : WSt) : option (string * string * string) :=
  (fun j => (j_primary_state j, j_queue_reason j, j_error_class j)) <$> job_of job_id0 (js_t (w_js s)).

(** A wait that was given up wakes the job from a later one: a job waits for a first
    timer, is quarantined, reopened by the owner and waits for a second one; the deadline of
    the first, whose row was left open, then wakes it with an external error, while the
    second timer, the one the job waits for, is not due and is left open in turn. *)
Theorem stale_wait_wakes_job :
  let before := snd (wait_run (firstn 5 stale_events) wait_st0) in
  waits_seen before = [("first", false); ("second", false)] /\
  job_seen before = Some ("WAITING_EXTERNAL", "GATE_APPROVED", "NONE") /\
  fst stale_run = ["wait:u8"] /\
  waits_seen (snd stale_run) = [("first", true); ("second", false)] /\
  job_seen (snd stale_run) = Some ("QUEUED", "WAIT_DEADLINE", "EXTERNAL").
Proof. vm_compute. repeat split. Qed.

(** ** Starvation *)
Definition still_waits : WaitEnv := {|
  wait_adapters := ["timer"];
  adapter_validate_ref _ _ := true;
  adapter_check p n w s := (Other_object, s);
  wait_clock n := at_minute 60;
  wait_kind_filter := None
|}.
Definition dead_events : list wait_event :=
  [EnterWait job_id0 (timer "first" (Some (minute 0)) (minute 0)) "host-a" 1;
   Lease (QuarantineBlocked job_id0 "WORKTREE_DIVERGED" "OWNER_REQUIRED" None)].
#[local] Notation dead_st := (snd (wait_run dead_events wait_st0)).
Definition dead_row : Wait := default no_wait (wait_of "wait:u8" (js_t (w_js dead_st))).
Lemma dead_by t0 t w d st : wait_of (ew_wait_id w) t = Some w -> ew_deadline_at w = Some d -> str_leb d t0 = true ->
  j_primary_state <$> job_of (ew_job_id w) t = Some st -> st <> "WAITING_EXTERNAL" -> dead t0 t w.
Proof. intros W D L (j & J & ->)%fmap_Some P. split; [exact W|]. split; [by exists d|]. by exists j. Qed.
Lemma dead_waits_starve_witness : exists rss s', passes (wenv := still_waits) 1 3 dead_st = (Ok rss, s') /\
  Forall (Forall idle) rss /\ w_js s' = w_js dead_st.
Proof.
  assert (D : dead (minute 60) (js_t (w_js dead_st)) dead_row).
  { apply (dead_by _ _ _ (minute 0) "BLOCKED"); [vm_compute; reflexivity.. | discriminate]. }
  assert (S : sort_by by_next_check (List.filter open_wait (jt_waits (js_t (w_js dead_st)))) = ([dead_row] ++ [])%list)
    by (vm_compute; reflexivity).
  destruct (dead_waits_starve (wenv := still_waits) 1 (minute 60) 3 dead_st) as (rss & s' & E & I & J & _).
  - vm_compute. reflexivity.
  - exists [dead_row], []. split; [exact S|]. split; [apply le_n|]. constructor; [exact D | constructor].
  - intros i. exists (minute 60). split; vm_compute; reflexivity.
  - exists rss, s'. split; [exact E|]. split; [exact I | exact J].
Defined.

(** ** The GitHub adapter *)
Definition big_id : Z := 32000000000.
Definition run_json : string :=
  enc (PDict [(KStr "check_runs", PList [PDict [(KStr "id", PInt big_id); (KStr "name", PStr "unit");
    (KStr "conclusion", PStr "success"); (KStr "status", PStr "completed")]])]).
Definition sample_gh : GhEnv := {|
  gh log args := Completed 0 (if str_in "pr" args then enc (PDict []) else run_json) EmptyString;
  gh_executable := "gh"
|}.
#[local] Notation big_read := (fst (read_ci_state (ghenv := sample_gh) "own/repo" 17 (Some "abc") [])).
Definition big_check : CiCheck := default green (hd_error (checks_of big_read)).
Lemma large_check_ids_refused_witness : exists reason, _validate_read big_read ci_row = Some reason.
Proof.
  assert (C : checks_of big_read = [big_check]) by (vm_compute; reflexivity).
  apply (large_check_ids_refused (ghenv := sample_gh) "own/repo" 17 (Some "abc") [] _ (snd (read_ci_state (ghenv := sample_gh) "own/repo" 17 (Some "abc") []))
           big_check ci_row).
  - apply outcome. reflexivity.
  - rewrite C. left. reflexivity.
  - vm_compute. reflexivity.
Defined.
