(* ===== verification/Inbox.v ===== *)
(** * Challenges: the capabilities an owner's button carries
    (src/argent_core/approval_core.py; src/argent_core/store.py from [_insert_challenge]
    to [_set_inbound_state]).

    Tokens come from the environment, as [secrets.token_urlsafe] makes them; only their
    SHA-256 is stored. *)
From S2P Require Import Prelude PyVal Models Timestamps Gates Canonical CoreStore JobRows Leases IsoParse Candidates Outbox StateMachine Events Json Core.
#[local] Open Scope string_scope.

Definition CHALLENGE_TTL_SECONDS : Z := 3600.
Inductive ChallengeStatus : Type := CH_ISSUED | CONSUMED_APPROVED | CONSUMED_REJECTED | CH_EXPIRED | INVALIDATED.
Definition ChallengeStatus_value (s : ChallengeStatus) : string :=
  match s with
  | CH_ISSUED => "ISSUED" | CONSUMED_APPROVED => "CONSUMED_APPROVED" | CONSUMED_REJECTED => "CONSUMED_REJECTED"
  | CH_EXPIRED => "EXPIRED" | INVALIDATED => "INVALIDATED"
  end.
Inductive CallbackAction : Type := APPROVE | REJECT | DETAILS.
Definition CallbackAction_of (value : string) : option CallbackAction :=
  if String.eqb value "A" then Some APPROVE
  else if String.eqb value "R" then Some REJECT
  else if String.eqb value "D" then Some DETAILS else None.

Definition token_hash (token : string) : string := sha256 token.
Fixpoint replace_z (s : string) : string :=
  match s with
  | EmptyString => EmptyString
  | String c s' => if Ascii.eqb c "Z" then "+00:00" ++ replace_z s' else String c (replace_z s')
  end.
Definition _parse_dt (s : string) : res exc datetime := fromisoformat (replace_z s).
(** [min(now + CHALLENGE_TTL_SECONDS, approval.expires_at)], naive times taken as UTC. *)
Definition compute_expires_at (now : datetime) (approval_expires_at : string) : res exc string :=
  let ttl := (dt_wall now + CHALLENGE_TTL_SECONDS * US_PER_SECOND)%Z in
  _ ← res_unless (in_range ttl) OverflowError;
  approval_expiry ← _parse_dt approval_expires_at;
  let ttl_expiry := mkDatetime ttl (dt_offset now) in
  format_in_range (if (to_utc approval_expiry <? to_utc ttl_expiry)%Z then approval_expiry else ttl_expiry).

(** ** Callback data *)
Definition token_char (c : ascii) : bool :=
  let n := N_of_ascii c in
  ((48 <=? n) && (n <=? 57) || (65 <=? n) && (n <=? 90) || (97 <=? n) && (n <=? 122) || (n =? 95) || (n =? 45))%N.
(** [\A[A-Za-z0-9_-]{43}\Z]. *)
Definition challenge_ref (s : string) : bool :=
  Nat.eqb (String.length s) 43 && forallb token_char (list_ascii_of_string s).
Definition parse_callback (callback_data : pyval) : option (CallbackAction * string) :=
  match callback_data with
  | PStr (String a (String c challenge)) =>
      if Ascii.eqb c ":" && challenge_ref challenge
      then (fun action => (action, challenge)) <$> CallbackAction_of (String a EmptyString)
      else None
  | _ => None
  end.

(** ** The store's operations *)
Section Store.
Context {env : Env}.
Definition is_challenge (challenge_id : string) (c : Challenge) : bool := String.eqb (ch_id c) challenge_id.
Definition _insert_challenge (row : Challenge) : jcmd unit := jinsert jt_challenges row.
Definition get_challenge (challenge_id : string) : jcmd (option Challenge) :=
  jquery (fun t => by_id ch_id challenge_id (jt_challenges t)).
Definition get_active_challenge_for_approval (approval_id : string) : jcmd (option Challenge) :=
  jquery (fun t => List.find (fun c => String.eqb (ch_approval_id c) approval_id && issued c) (jt_challenges t)).
Definition get_challenge_by_token_hash (h : string) : jcmd (option Challenge) :=
  jquery (fun t => List.find (fun c => String.eqb (ch_token_hash c) h) (jt_challenges t)).
Definition list_challenges (task_id supervisor_job_id : option string) : jcmd (list Challenge) :=
  jquery (fun t => sort_by (fun a b => str_leb (ch_created_at a) (ch_created_at b))
    (List.filter (fun c => match task_id with Some x => String.eqb (ch_task_id c) x | None => true end
                           && match supervisor_job_id with Some x => String.eqb (ch_supervisor_job_id c) x | None => true end)
                 (jt_challenges t))).
(** The compare and set from ISSUED. *)
Definition from_issued (challenge_id : string) (f : Challenge -> Challenge) : jcmd nat :=
  jupdate jt_challenges (fun c => is_challenge challenge_id c && issued c) f.
Definition _consume_challenge (challenge_id status consumed_at : string) (consumed_update_id : Z) : jcmd nat :=
  from_issued challenge_id (fun c => c <| ch_status := status |> <| ch_consumed_at := Some consumed_at |>
                                       <| ch_consumed_update_id := Some consumed_update_id |>).
Definition _mark_challenge_expired (challenge_id now_iso : string) : jcmd nat :=
  from_issued challenge_id (fun c => c <| ch_status := "EXPIRED" |> <| ch_invalidated_at := Some now_iso |>).
Definition _mark_challenge_invalidated (challenge_id now_iso : string) : jcmd nat :=
  from_issued challenge_id (fun c => c <| ch_status := "INVALIDATED" |> <| ch_invalidated_at := Some now_iso |>).

Definition is_update (update_id : Z) (u : UpdateLog) : bool := (ul_update_id u =? update_id)%Z.
(** [ON CONFLICT(update_id) DO NOTHING]. *)
Definition _insert_update_log (row : UpdateLog) : jcmd bool :=
  taken ← jquery (fun t => existsb (is_update (ul_update_id row)) (jt_update_log t));
  if taken : bool then mret false else _ ← jinsert jt_update_log row; mret true.
Definition _finalize_update_log (update_id : Z) (decision challenge_id approval_id : option string)
    (outcome processed_at : string) : jcmd bool :=
  n ← jupdate jt_update_log (is_update update_id)
        (fun u => u <| ul_decision := decision |> <| ul_challenge_id := challenge_id |> <| ul_approval_id := approval_id |>
                    <| ul_outcome := outcome |> <| ul_processed_at := processed_at |>);
  mret (Nat.eqb n 1).
Definition get_update_log (update_id : Z) : jcmd (option UpdateLog) :=
  jquery (fun t => List.find (is_update update_id) (jt_update_log t)).
(** The schema inserts the one row of the stream. *)
Definition get_inbound_state : jcmd InboundState := jquery jt_inbound.
Definition _set_inbound_state (next_update_id : Z) (updated_at : string) : jcmd unit :=
  jwrite (fun t => t <| jt_inbound := mkInboundState next_update_id updated_at |>).

(** ** The life of a challenge *)
Definition consume_approved (challenge_id consumed_at : string) (update_id : Z) : jcmd bool :=
  n ← _consume_challenge challenge_id (ChallengeStatus_value CONSUMED_APPROVED) consumed_at update_id; mret (Nat.eqb n 1).
Definition consume_rejected (challenge_id consumed_at : string) (update_id : Z) : jcmd bool :=
  n ← _consume_challenge challenge_id (ChallengeStatus_value CONSUMED_REJECTED) consumed_at update_id; mret (Nat.eqb n 1).
Definition expire_challenge (challenge_id now_iso : string) : jcmd bool :=
  n ← _mark_challenge_expired challenge_id now_iso; mret (Nat.eqb n 1).
Definition invalidate_challenge (challenge_id now_iso : string) : jcmd bool :=
  n ← _mark_challenge_invalidated challenge_id now_iso; mret (Nat.eqb n 1).

(** [approval] is the object the caller holds; a naive expiry cannot be compared with the
    aware [now]. *)
Definition create_challenge (approval : OwnerApproval) (supervisor_job_id : string)
    (notification_outbox_id : option string) (now : datetime) (raw_token : string) : jcmd (Challenge * string) :=
  _ ← raise_unless (bool_decide (ap_status approval = AP_PENDING)) ApprovalError;
  let expected := binding_hash (ap_task_id approval) (ap_action approval) (ap_scope approval) in
  _ ← raise_unless (ostr_eqb (ap_binding_hash approval) (Some expected)) ApprovalError;
  expiry ← lift (_parse_dt (ap_expires_at approval));
  _ ← raise_when (negb (is_some (dt_offset expiry))) TypeError;
  _ ← raise_when (to_utc expiry <=? to_utc now)%Z ApprovalError;
  active ← get_active_challenge_for_approval (ap_id approval);
  _ ← raise_when (is_some active) ApprovalError;
  u ← on_core uuid;
  created_iso ← lift (format_in_range now);
  expires_iso ← lift (compute_expires_at now (ap_expires_at approval));
  let row := mkChallenge ("challenge:" ++ hex_of_uuid u) (ap_id approval) (ap_task_id approval) supervisor_job_id expected
               notification_outbox_id (token_hash raw_token) (ChallengeStatus_value CH_ISSUED) created_iso expires_iso
               None None None in
  _ ← _insert_challenge row;
  mret (row, raw_token).
End Store.

(** ** Inbox: the owner's buttons
    (src/argent_core/approval_processor.py and telegram_approval_adapter.py).

    The processor works on a connection of its own.  The state pairs the store with the
    number of connections it opened, which the environment answers for locks, and the
    calls to the post-decision UI, which are all swallowed.  What the host delivers is
    untrusted: any object in any field.  Whole seconds are exact (the source goes through
    a double, exact to the second for centuries). *)
Definition FUTURE_SKEW_BOUND : Z := 300.
Definition _SQLITE_MAX_INT : Z := 2 ^ 63 - 1.
Inductive CallbackOutcome : Type :=
| CB_APPROVED | CB_REJECTED | CB_DETAILS | CB_DUPLICATE_UPDATE | CB_STALE_UPDATE | CB_STALE_MESSAGE | CB_USED_TOKEN
| CB_EXPIRED | CB_UNKNOWN_CHALLENGE | CB_WRONG_CHAT | CB_SPOOFED_SENDER | CB_GATE_CHANGED | CB_GATE_DECIDED
| CB_MALFORMED | CB_LOCKED | CB_ERROR.
Definition _hash_json (obj : list (string * pyval)) : res exc string :=
  text ← json_dumps_default_str (PDict (map (fun kv => (KStr (fst kv), snd kv)) obj)); Ok (sha256 text).
Definition UNIX_EPOCH : Z := 719162 * US_PER_DAY.
Definition _iso_to_unix (iso : string) : res exc Z :=
  dt ← _parse_dt iso; Ok (Z.quot (to_utc dt - UNIX_EPOCH) US_PER_SECOND).
Definition _terminal_outcome (status : string) : CallbackOutcome * string :=
  if str_in status [ChallengeStatus_value CONSUMED_APPROVED; ChallengeStatus_value CONSUMED_REJECTED]
  then (CB_USED_TOKEN, "USED_TOKEN")
  else if String.eqb status (ChallengeStatus_value CH_EXPIRED) then (CB_EXPIRED, "EXPIRED_TOKEN")
  else (CB_UNKNOWN_CHALLENGE, "UNKNOWN_TOKEN").

(** The identity provider may raise; a connection may fail to open its transaction or to
    commit it, because of a lock or otherwise. *)
Class InboxEnv := {
  expected_owner_user_id : res exc (option string);
  expected_owner_chat_id : res exc (option string);
  begin_fails : nat -> option bool;
  commit_fails : nat -> option bool;
  processor_ux : bool
}.
Inductive ux_call : Type :=
| Answer_callback_query (ref : option string)
| Edit_approval_message (ref : option string) (decided : bool)
| Remove_buttons (ref : option string).
Record ISt : Type := mkISt { i_js : JSt; i_connections : nat; i_ux : list ux_call }.
#[export] Instance ISt_eta : EtaExpand ISt := fun x => mkISt (i_js x) (i_connections x) (i_ux x).

(** ** Validation *)
Definition _valid_update_id (update_id : pyval) : bool :=
  match update_id with PInt z => (0 <=? z)%Z && (z <? _SQLITE_MAX_INT)%Z | _ => false end.
Definition _representable_update_id (update_id : pyval) : bool :=
  match update_id with PInt z => (0 <=? z)%Z && (z <=? _SQLITE_MAX_INT)%Z | _ => false end.
Definition _valid_message_date (message_date : pyval) : bool :=
  match message_date with PInt z => (0 <=? z)%Z && (z <=? _SQLITE_MAX_INT)%Z | _ => false end.
Definition int_of (v : pyval) : Z := match v with PInt z => z | _ => 0%Z end.
Definition _parse_action_challenge (action challenge : pyval) : option (CallbackAction * string) :=
  match action, challenge with
  | PStr a, PStr c => if challenge_ref c then (fun act => (act, c)) <$> CallbackAction_of a else None
  | _, _ => None
  end.
(** A challenge row against its approval. *)
Definition unbound (c : Challenge) (ap : OwnerApproval) : bool :=
  let recomputed := binding_hash (ap_task_id ap) (ap_action ap) (ap_scope ap) in
  negb (ostr_eqb (ap_binding_hash ap) (Some recomputed)) || negb (String.eqb (ch_binding_hash c) recomputed)
  || negb (String.eqb (ch_task_id c) (ap_task_id ap)) || negb (String.eqb (ch_approval_id c) (ap_id ap)).

Section Processor.
Context {env : Env} {inbox : InboxEnv}.
(** [(chat_authorized, sender_authorized)]. *)
Definition _authorization_flags (sender_identity private_chat_identity : pyval) : bool * bool :=
  match expected_owner_user_id, expected_owner_chat_id with
  | Ok (Some user), Ok (Some chat) =>
      if truthy user && truthy chat && String.eqb user chat then
        match sender_identity, private_chat_identity with
        | PStr s, PStr p => (String.eqb p user, String.eqb s user && String.eqb s p)
        | _, _ => (false, false)
        end
      else (false, false)
  | _, _ => (false, false)
  end.

(** ** Details *)
Record Details : Type := mkDetails {
  de_job_id : string; de_task_id : string; de_gate_id : string; de_scope_ref : string; de_valid_until : string
}.
Definition safe_details (challenge : string) : jcmd (option Details) :=
  if negb (challenge_ref challenge) then mret None else
  ch ← get_challenge_by_token_hash (token_hash challenge);
  match ch with
  | None => mret None
  | Some c =>
      if negb (issued c) then mret None else
      now ← jnow_iso;
      if str_leb (ch_expires_at c) now then mret None else
      ap ← on_core (get_approval (ch_approval_id c));
      mret (match ap with
            | None => None
            | Some ap =>
                if unbound c ap then None
                else Some (mkDetails (ch_supervisor_job_id c) (ch_task_id c) (ch_approval_id c)
                             (scope_ref (ch_binding_hash c)) (ch_expires_at c))
            end)
  end.

(** ** The decision on the inbound connection *)
Definition _emit_event (type_ : string) (task_id state : option string) (payload : list (string * pyval)) : cmd unit :=
  id ← uuid;
  created_at ← now_iso;
  _insert_event (mkEvent id type_ task_id None state (map (fun kv => (KStr (fst kv), snd kv)) payload) created_at).
Definition _apply_transition_on (task : Task) (to_state : TaskState) (new_resume : option TaskState) : cmd unit :=
  at_ ← now_iso;
  _ ← _update_task_state (t_id task) to_state new_resume at_;
  _ ← _emit_event "task.state_changed" (Some (t_id task)) (Some (value to_state))
        [("from_state", PStr (value (t_state task))); ("to_state", PStr (value to_state))];
  mwhen (bool_decide (to_state = DONE)) (_emit_event "task.completed" (Some (t_id task)) (Some (value DONE)) []).
Definition _approve_decision_on (ap : OwnerApproval) : cmd unit :=
  now ← now_iso;
  rc ← _mark_approved (ap_id ap) now;
  _ ← raise_when (Nat.eqb rc 0) ApprovalError;
  _emit_event "gate.owner_approved" (Some (ap_task_id ap)) None [("approval_id", PStr (ap_id ap))].
Definition _reject_decision_on (ap : OwnerApproval) : cmd unit :=
  now ← now_iso;
  rc ← _mark_rejected (ap_id ap) now;
  _ ← raise_when (Nat.eqb rc 0) ApprovalError;
  task ← get_task (ap_task_id ap);
  _ ← match task with
      | Some task =>
          mwhen (bool_decide (t_state task = OWNER_APPROVAL_REQUIRED))
            (_ ← lift (validate_transition (t_state task) BLOCKED (t_resume_state task));
             _apply_transition_on task BLOCKED None)
      | None => mret tt
      end;
  _emit_event "gate.owner_rejected" (Some (ap_task_id ap)) None [("approval_id", PStr (ap_id ap))].
Definition release_to (task : Task) (to_state : TaskState) : cmd unit :=
  _ ← lift (validate_transition (t_state task) to_state (t_resume_state task));
  _apply_transition_on task to_state None.
Definition _expire_and_release_on (approval_id : string) : cmd unit :=
  now ← now_iso;
  _ ← _mark_expired approval_id now;
  ap ← get_approval approval_id;
  match ap with
  | None => mret tt
  | Some ap =>
      task ← get_task (ap_task_id ap);
      match task with
      | None => mret tt
      | Some task =>
          if negb (bool_decide (t_state task = OWNER_APPROVAL_REQUIRED)) then mret tt
          else match t_resume_state task with
               | Some r => release_to task (if is_valid_resume_target (Some r) then r else BLOCKED)
               | None => release_to task BLOCKED
               end
      end
  end.

Definition _update_log_row (update_id : Z) (message_date : option Z) (chat_authorized sender_authorized : bool)
    (outcome now : string) : UpdateLog :=
  mkUpdateLog update_id message_date (Z.b2z chat_authorized) (Z.b2z sender_authorized) None None None outcome now now.
Definition _insert_processing (update_id message_date : Z) (now : string) : jcmd bool :=
  _insert_update_log (_update_log_row update_id (Some message_date) true true "PROCESSING" now).
Definition _advance_cursor (update_id : Z) (now : string) : jcmd unit :=
  cur ← get_inbound_state;
  _set_inbound_state (Z.max (ib_next_update_id cur) (Z.min (update_id + 1) _SQLITE_MAX_INT)) now.
(** The update ends with [log_outcome]; nothing is decided. *)
Definition conclude (update_id : Z) (challenge_id approval_id : option string) (log_outcome now : string)
    (outcome : CallbackOutcome) : jcmd CallbackOutcome :=
  _ ← _finalize_update_log update_id None challenge_id approval_id log_outcome now;
  _ ← _advance_cursor update_id now;
  mret outcome.
Definition stale_update (update_id : Z) (message_date : option Z) (chat sender : bool) (now : string) : jcmd CallbackOutcome :=
  inserted ← _insert_update_log (_update_log_row update_id message_date chat sender "STALE_UPDATE" now);
  mret (if inserted : bool then CB_STALE_UPDATE else CB_DUPLICATE_UPDATE).
Definition idem_key (update_id : Z) (challenge_id decision : string) : string :=
  "telegram-owner-approval:" ++ z_text update_id ++ ":" ++ challenge_id ++ ":" ++ decision.
(** Steps 9 to 12: the challenge is spent and the approval decided. *)
Definition decide_on (approve : bool) (update_id : Z) (c : Challenge) (ap : OwnerApproval) (now : string)
  : jcmd CallbackOutcome :=
  let decision := if approve then "APPROVE" else "REJECT" in
  spent ← _consume_challenge (ch_id c)
            (ChallengeStatus_value (if approve then CONSUMED_APPROVED else CONSUMED_REJECTED)) now update_id;
  if negb (Nat.eqb spent 1) then conclude update_id (Some (ch_id c)) (Some (ap_id ap)) "USED_TOKEN" now CB_USED_TOKEN else
  _ ← on_core (if approve then _approve_decision_on ap else _reject_decision_on ap);
  args_hash ← lift (_hash_json [("update_id", PInt update_id); ("challenge_id", PStr (ch_id c));
                                ("decision", PStr decision); ("approval_id", PStr (ap_id ap))]);
  _ ← on_core (_set_command_idempotency (idem_key update_id (ch_id c) decision) "telegram_owner_decision" (ap_id ap)
                 args_hash now);
  _ ← _finalize_update_log update_id (Some decision) (Some (ch_id c)) (Some (ap_id ap))
        (if approve then "APPROVED" else "REJECTED") now;
  _ ← _advance_cursor update_id now;
  mret (if approve then CB_APPROVED else CB_REJECTED).
(** Steps 6 to 8. *)
Definition decide_gate (approve : bool) (update_id : Z) (c : Challenge) (now : string) : jcmd CallbackOutcome :=
  ap ← on_core (get_approval (ch_approval_id c));
  match ap with
  | None =>
      _ ← _mark_challenge_invalidated (ch_id c) now;
      conclude update_id (Some (ch_id c)) None "BINDING_MISMATCH" now CB_GATE_CHANGED
  | Some ap =>
      if unbound c ap then
        _ ← _mark_challenge_invalidated (ch_id c) now;
        conclude update_id (Some (ch_id c)) (Some (ap_id ap)) "BINDING_MISMATCH" now CB_GATE_CHANGED
      else if negb (bool_decide (ap_status ap = AP_PENDING)) then
        conclude update_id (Some (ch_id c)) (Some (ap_id ap)) "APPROVAL_NOT_PENDING" now CB_GATE_DECIDED
      else if str_leb (ap_expires_at ap) now then
        _ ← on_core (_expire_and_release_on (ap_id ap));
        conclude update_id (Some (ch_id c)) (Some (ap_id ap)) "EXPIRED_APPROVAL" now CB_EXPIRED
      else decide_on approve update_id c ap now
  end.
Definition spoil (update_id : Z) (c : Challenge) (now : string) : jcmd CallbackOutcome :=
  _ ← _mark_challenge_expired (ch_id c) now;
  conclude update_id (Some (ch_id c)) None "EXPIRED_TOKEN" now CB_EXPIRED.
(** Steps 3 to 5. *)
Definition decide_challenge (approve : bool) (update_id message_date now_unix : Z) (c : Challenge) (now : string)
  : jcmd CallbackOutcome :=
  if negb (issued c) then
    conclude update_id (Some (ch_id c)) (Some (ch_approval_id c)) (snd (_terminal_outcome (ch_status c))) now
      (fst (_terminal_outcome (ch_status c)))
  else if str_leb (ch_expires_at c) now then spoil update_id c now
  else
    created_unix ← lift (_iso_to_unix (ch_created_at c));
    expires_unix ← lift (_iso_to_unix (ch_expires_at c));
    if (message_date <? created_unix)%Z then conclude update_id (Some (ch_id c)) None "STALE_MESSAGE" now CB_STALE_MESSAGE
    else if (expires_unix <=? message_date)%Z then spoil update_id c now
    else if (now_unix + FUTURE_SKEW_BOUND <? message_date)%Z
    then conclude update_id (Some (ch_id c)) None "STALE_MESSAGE" now CB_STALE_MESSAGE
    else decide_gate approve update_id c now.
Definition _decide_in_transaction (approve : bool) (tok_hash : string) (update_id message_date : Z) : jcmd CallbackOutcome :=
  now ← jnow_iso;
  now_unix ← lift (_iso_to_unix now);
  cursor ← get_inbound_state;
  if (update_id <? ib_next_update_id cursor)%Z then stale_update update_id (Some message_date) true true now else
  fresh ← _insert_processing update_id message_date now;
  if negb fresh then mret CB_DUPLICATE_UPDATE else
  ch ← get_challenge_by_token_hash tok_hash;
  match ch with
  | None => conclude update_id None None "UNKNOWN_TOKEN" now CB_UNKNOWN_CHALLENGE
  | Some c => decide_challenge approve update_id message_date now_unix c now
  end.
Definition persist_outcome (update_id : Z) (outcome : string) (result : CallbackOutcome) (chat sender : bool)
  : jcmd CallbackOutcome :=
  now ← jnow_iso;
  cur ← get_inbound_state;
  if (update_id <? ib_next_update_id cur)%Z then stale_update update_id None chat sender now else
  inserted ← _insert_update_log (_update_log_row update_id None chat sender outcome now);
  if negb inserted then mret CB_DUPLICATE_UPDATE else
  _ ← _advance_cursor update_id now;
  mret result.

(** ** The connection *)
(** [BEGIN IMMEDIATE] at once or not at all; closing the connection undoes what was not
    committed. *)
Definition undone (before after : JSt) : JSt :=
  after <| js_core ::= set st_db (fun _ => st_db (js_core before)) |> <| js_t := js_t before |>.
Definition refusal (locked : bool) : CallbackOutcome := if locked then CB_LOCKED else CB_ERROR.
Definition _inbound_transaction (m : jcmd CallbackOutcome) (s : ISt) : CallbackOutcome * ISt :=
  let s1 := s <| i_connections ::= S |> in
  match begin_fails (i_connections s) with
  | Some locked => (refusal locked, s1)
  | None =>
      match m (i_js s) with
      | (Err _, j) => (CB_ERROR, s1 <| i_js := undone (i_js s) j |>)
      | (Ok o, j) =>
          match commit_fails (i_connections s) with
          | Some locked => (refusal locked, s1 <| i_js := undone (i_js s) j |>)
          | None => (o, s1 <| i_js := j |>)
          end
      end
  end.
Definition _persist_terminal (update_id : Z) (outcome : string) (result : CallbackOutcome) (chat sender : bool) (s : ISt)
  : CallbackOutcome * ISt := _inbound_transaction (persist_outcome update_id outcome result chat sender) s.
Definition _run_post_decision_ux (ref : option string) (approved : bool) (s : ISt) : ISt :=
  if processor_ux
  then s <| i_ux ::= fun l => (l ++ [Answer_callback_query ref; Edit_approval_message ref approved; Remove_buttons ref])%list |>
  else s.
Definition decided (o : CallbackOutcome) : option bool :=
  match o with CB_APPROVED => Some true | CB_REJECTED => Some false | _ => None end.
Definition _decide (approve : bool) (challenge : string) (update_id message_date : Z) (ref : option string) (s : ISt)
  : CallbackOutcome * ISt :=
  let (o, s1) := _inbound_transaction (_decide_in_transaction approve (token_hash challenge) update_id message_date) s in
  (o, match decided o with Some approved => _run_post_decision_ux ref approved s1 | None => s1 end).

Record Callback : Type := mkCallback {
  cb_action : pyval;
  cb_challenge : pyval;
  cb_update_id : pyval;
  cb_message_date : pyval;
  cb_private_chat_identity : pyval;
  cb_sender_identity : pyval;
  cb_ref : option string
}.
Definition details_outcome (challenge : string) (s : ISt) : CallbackOutcome * ISt :=
  let (r, j) := safe_details challenge (i_js s) in
  (match r with Ok (Some _) => CB_DETAILS | Ok None => CB_UNKNOWN_CHALLENGE | Err _ => CB_ERROR end, s <| i_js := j |>).
Definition process_callback (cb : Callback) (s : ISt) : CallbackOutcome * ISt :=
  let u := int_of (cb_update_id cb) in
  if negb (_valid_update_id (cb_update_id cb)) then
    if _representable_update_id (cb_update_id cb) then _persist_terminal u "MALFORMED" CB_MALFORMED false false s
    else (CB_MALFORMED, s)
  else if negb (_valid_message_date (cb_message_date cb)) then _persist_terminal u "MALFORMED" CB_MALFORMED false false s
  else
    let '(chat_ok, sender_ok) := _authorization_flags (cb_sender_identity cb) (cb_private_chat_identity cb) in
    if negb chat_ok then _persist_terminal u "WRONG_CHAT" CB_WRONG_CHAT false sender_ok s
    else if negb sender_ok then _persist_terminal u "SPOOFED_SENDER" CB_SPOOFED_SENDER true false s
    else match _parse_action_challenge (cb_action cb) (cb_challenge cb) with
         | None => _persist_terminal u "MALFORMED" CB_MALFORMED true true s
         | Some (DETAILS, challenge) => details_outcome challenge s
         | Some (APPROVE, challenge) => _decide true challenge u (int_of (cb_message_date cb)) (cb_ref cb) s
         | Some (REJECT, challenge) => _decide false challenge u (int_of (cb_message_date cb)) (cb_ref cb) s
         end.
End Processor.

(** ** The Telegram adapter *)
Definition CALLBACK_NAMESPACE : string := "argent".
Definition split_namespace (callback_data : pyval) : option string :=
  match callback_data with PStr s => strip_prefix (CALLBACK_NAMESPACE ++ ":") s | _ => None end.
Inductive AdapterResult : Type := HOST_CONTRACT_VIOLATION | Core_outcome (o : CallbackOutcome).
Definition _valid_host_int (v : pyval) : bool := match v with PInt z => (0 <=? z)%Z | _ => false end.
Record HostDelivery : Type := mkHostDelivery {
  dl_payload : pyval;
  dl_sender_identity : pyval;
  dl_private_chat_identity : pyval;
  dl_update_id : pyval;
  dl_message_date : pyval;
  dl_callback_ref : option string;
  dl_message_ref : option string
}.
Section Adapter.
Context {env : Env} {inbox : InboxEnv}.
Definition action_value (a : CallbackAction) : string := match a with APPROVE => "A" | REJECT => "R" | DETAILS => "D" end.
Definition adapter_ux (d : HostDelivery) (approved : bool) (s : ISt) : ISt :=
  s <| i_ux ::= fun l => (l ++ Answer_callback_query (dl_callback_ref d)
                           :: match dl_message_ref d with
                              | None => []
                              | Some _ => [Edit_approval_message (dl_message_ref d) approved; Remove_buttons (dl_message_ref d)]
                              end)%list |>.
Definition handle_callback (d : HostDelivery) (s : ISt) : AdapterResult * ISt :=
  if negb (_valid_host_int (dl_update_id d)) || negb (_valid_host_int (dl_message_date d)) then (HOST_CONTRACT_VIOLATION, s)
  else match parse_callback (dl_payload d) with
       | None => (Core_outcome CB_MALFORMED, s)
       | Some (action, challenge) =>
           let (o, s1) := process_callback
             (mkCallback (PStr (action_value action)) (PStr challenge) (dl_update_id d) (dl_message_date d)
                (dl_private_chat_identity d) (dl_sender_identity d) (dl_callback_ref d)) s in
           (Core_outcome o, match decided o with Some approved => adapter_ux d approved s1 | None => s1 end)
       end.
Definition dispatch_callback : HostDelivery -> ISt -> AdapterResult * ISt := handle_callback.
End Adapter.
