(* ===== verification/InboxDecide.v ===== *)
(** * InboxSpec: what a callback can decide.

    [decided_by] collects what a decision rests on and what it leaves;
    [decision_needs_capability] derives it from the outcome.  [inbox_lives] is the life of
    the inbox: challenges end once, the log only grows, the cursor only advances. *)
From S2P Require Import Prelude PyVal Models Timestamps Trust StateMachine Gates Canonical CoreStore Core Dispatch Frames Authority JobRows Leases JobSteps JobInv LeaseSession IsoParse Candidates CandidateSpec Outbox Along Inbox.
#[local] Open Scope string_scope.

Definition chal (h : string) (s : JSt) : option Challenge := by_id ch_token_hash h (jt_challenges (js_t s)).
Definition logged (u : Z) (s : JSt) : option UpdateLog := List.find (is_update u) (jt_update_log (js_t s)).
Definition cursor (s : JSt) : Z := ib_next_update_id (jt_inbound (js_t s)).
Definition approvals (s : JSt) : list OwnerApproval := db_approvals (jdb s).
Definition chal_base (c : Challenge) :=
  (ch_id c, ch_approval_id c, ch_task_id c, ch_supervisor_job_id c, ch_binding_hash c, ch_token_hash c, ch_created_at c,
   ch_expires_at c).
Definition chal_lives (c c' : Challenge) : Prop := chal_base c' = chal_base c /\ (issued c = false -> c' = c).

(** ** Lists of rows *)
Lemma find_update {A} (q p : A -> bool) (f : A -> A) l : (forall x, q (f x) = q x) ->
  List.find q (update_where p f l) = (fun x => if p x then f x else x) <$> List.find q l.
Proof.
  intros K. unfold update_where. induction l as [|x l IH]; [done|]. cbn. destruct (p x) eqn:P; rewrite ?K; destruct (q x);
    cbn; rewrite ?P; done.
Qed.
Lemma find_snoc {A} (q : A -> bool) l x : List.find q (l ++ [x])%list =
  match List.find q l with Some y => Some y | None => if q x then Some x else None end.
Proof. induction l as [|y l IH]; [done|]. cbn. by destruct (q y). Qed.
Lemma find_existsb {A} (q : A -> bool) l : existsb q l = false <-> List.find q l = None.
Proof. induction l as [|y l IH]; [done|]. cbn. by destruct (q y). Qed.

(** ** The life of the inbox *)
(** All rows of the log but [u]'s are kept. *)
Definition lives_but (spare : Z -> bool) (s s' : JSt) : Prop :=
  (forall h c, chal h s = Some c -> exists c', chal h s' = Some c' /\ chal_lives c c') /\
  (forall v row, spare v = false -> logged v s = Some row -> logged v s' = Some row) /\ (cursor s <= cursor s')%Z.
Definition inbox_lives : JSt -> JSt -> Prop := lives_but (fun _ => false).
#[export] Instance lives_but_preorder spare : PreOrder (lives_but spare).
Proof.
  split.
  - intros s. split; [|split; [done | lia]]. intros h c E. by exists c.
  - intros a b d (C1 & L1 & N1) (C2 & L2 & N2). split; [|split; [auto | lia]].
    intros h c E. apply C1 in E as (c1 & E & B1 & T1). apply C2 in E as (c2 & E & B2 & T2). exists c2. split; [done|].
    split; [congruence|]. intros I. pose proof (T1 I) as ->. by apply T2.
Qed.
#[export] Instance inbox_lives_preorder : PreOrder inbox_lives := lives_but_preorder _.
Lemma lives_weaken spare s s' : inbox_lives s s' -> lives_but spare s s'.
Proof. intros (C & L & N). split; [exact C|]. split; [|exact N]. intros v row _. by apply L. Qed.
Lemma lives_same spare s s' : js_t s' = js_t s -> lives_but spare s s'.
Proof.
  intros T. unfold lives_but, chal, logged, cursor. rewrite T. split; [|split; [done | lia]]. intros h c E. by exists c.
Qed.
(** What is spared was not there. *)
Lemma lives_fresh u s s' : logged u s = None -> lives_but (Z.eqb u) s s' -> inbox_lives s s'.
Proof.
  intros F (C & L & N). split; [exact C|]. split; [|exact N]. intros v row _ E. destruct (Z.eqb_spec u v) as [<-|D]; [congruence|].
  apply L; [by apply Z.eqb_neq | exact E].
Qed.

Section Ops.
Context {env : Env} {inbox : InboxEnv}.
Lemma al_core spare {A} (m : cmd A) : along (lives_but spare) (on_core m).
Proof. intros s r s'. unfold on_core. destruct (m (js_core s)). intros [= _ <-]. by apply lives_same. Qed.
Lemma al_jnow spare : along (lives_but spare) jnow_iso.
Proof. intros s r s' (_ & T & _)%jnow_iso_reads. by apply lives_same. Qed.
Lemma al_query spare {A} (f : JT -> A) : along (lives_but spare) (jquery f).
Proof. apply al_gets; exact _. Qed.
Lemma al_issued spare id f : (forall c, chal_base (f c) = chal_base c) -> along (lives_but spare) (from_issued id f).
Proof.
  unfold from_issued. intros B s r s' [->| ->]%jupdate_cases; [reflexivity|].
  set (s' := s <| js_t := _ |>).
  assert (L : forall v, logged v s' = logged v s) by reflexivity. assert (N : cursor s' = cursor s) by reflexivity.
  assert (K : forall x, ch_token_hash (f x) = ch_token_hash x) by (intros x; specialize (B x); by injection B).
  assert (C : forall h, chal h s' = (fun c => if is_challenge id c && issued c then f c else c) <$> chal h s).
  { intros h. exact (row_by_id_update ch_token_hash _ f _ _ K). }
  clearbody s'. split; [|split; [intros v x _; by rewrite L | rewrite N; lia]].
  intros h c E. rewrite C, E. cbn. eexists. split; [done|]. destruct (is_challenge id c && issued c) eqn:P; [|done].
  split; [apply B|]. intros I. rewrite I, andb_false_r in P. done.
Qed.
Lemma al_consume spare id st at_ u : along (lives_but spare) (_consume_challenge id st at_ u).
Proof. by apply al_issued. Qed.
Lemma al_expired spare id now : along (lives_but spare) (_mark_challenge_expired id now).
Proof. by apply al_issued. Qed.
Lemma al_invalidated spare id now : along (lives_but spare) (_mark_challenge_invalidated id now).
Proof. by apply al_issued. Qed.
Lemma al_insert_log spare row : along (lives_but spare) (_insert_update_log row).
Proof.
  unfold _insert_update_log. al; [apply al_query|]. intros s r s' [->| ->]%jwrite_cases; [reflexivity|].
  set (s' := s <| js_t := _ |>). assert (C : forall h, chal h s' = chal h s) by reflexivity.
  assert (N : cursor s' = cursor s) by reflexivity.
  assert (L : forall v, logged v s' = match logged v s with Some y => Some y | None => if is_update v row then Some row else None end).
  { intros v. exact (find_snoc _ _ _). }
  clearbody s'. split; [|split; [|rewrite N; lia]].
  - intros h c E. exists c. by rewrite C.
  - intros v x _ E. by rewrite L, E.
Qed.
Lemma al_finalize u d c a o at_ : along (lives_but (Z.eqb u)) (_finalize_update_log u d c a o at_).
Proof.
  unfold _finalize_update_log. al. intros s r s' [->| ->]%jupdate_cases; [reflexivity|].
  match goal with |- lives_but _ _ (_ <| js_t := set jt_update_log (update_where _ ?f) _ |>) => set (g := f) end.
  set (s' := s <| js_t := _ |>). assert (C : forall h, chal h s' = chal h s) by reflexivity.
  assert (N : cursor s' = cursor s) by reflexivity.
  assert (L : forall v, logged v s' = (fun x => if is_update u x then g x else x) <$> logged v s).
  { intros v. apply find_update. reflexivity. }
  clearbody s'. split; [|split; [|rewrite N; lia]].
  - intros h x E. exists x. by rewrite C.
  - intros v x D E. rewrite L, E. cbn. unfold is_update. apply find_some in E as [_ E%Z.eqb_eq].
    rewrite E, Z.eqb_sym, D. done.
Qed.
Lemma al_cursor spare u now : along (lives_but spare) (_advance_cursor u now).
Proof.
  unfold _advance_cursor, get_inbound_state, _set_inbound_state. intros s r s'.
  change (jwrite (fun t => t <| jt_inbound := mkInboundState (Z.max (cursor s) (Z.min (u + 1) _SQLITE_MAX_INT)) now |>) s = (r, s') ->
          lives_but spare s s').
  intros [->| ->]%jwrite_cases; [reflexivity|].
  set (s' := s <| js_t := _ |>). assert (C : forall h, chal h s' = chal h s) by reflexivity.
  assert (L : forall v, logged v s' = logged v s) by reflexivity.
  assert (N : cursor s' = Z.max (cursor s) (Z.min (u + 1) _SQLITE_MAX_INT)) by reflexivity.
  clearbody s'. split; [|split; [|rewrite N; lia]].
  - intros h c E. exists c. by rewrite C.
  - intros v x _. by rewrite L.
Qed.
Ltac prim :=
  lazymatch goal with
  | |- along _ (on_core _) => apply al_core
  | |- along _ jnow_iso => apply al_jnow
  | |- along _ (jquery _) => apply al_query
  | |- along _ get_inbound_state => apply al_query
  | |- along _ (get_challenge_by_token_hash _) => apply al_query
  | |- along _ (_consume_challenge _ _ _ _) => apply al_consume
  | |- along _ (_mark_challenge_expired _ _) => apply al_expired
  | |- along _ (_mark_challenge_invalidated _ _) => apply al_invalidated
  | |- along _ (_insert_update_log _) => apply al_insert_log
  | |- along _ (_finalize_update_log _ _ _ _ _ _) => apply al_finalize
  | |- along _ (_advance_cursor _ _) => apply al_cursor
  | |- along _ (_insert_processing _ _ _) => unfold _insert_processing; apply al_insert_log
  end.
Ltac prims := repeat first [al_step | prim].
Lemma al_conclude u c a lo now o : along (lives_but (Z.eqb u)) (conclude u c a lo now o).
Proof. unfold conclude. prims. Qed.
Lemma al_stale spare u d c s now : along (lives_but spare) (stale_update u d c s now).
Proof. unfold stale_update. prims. Qed.
Lemma al_decide_on b u c ap now : along (lives_but (Z.eqb u)) (decide_on b u c ap now).
Proof. unfold decide_on. prims; apply al_conclude. Qed.
Lemma al_decide_gate b u c now : along (lives_but (Z.eqb u)) (decide_gate b u c now).
Proof. unfold decide_gate. prims; first [apply al_conclude | apply al_decide_on]. Qed.
Lemma al_decide_challenge b u d n c now : along (lives_but (Z.eqb u)) (decide_challenge b u d n c now).
Proof. unfold decide_challenge, spoil. prims; first [apply al_conclude | apply al_decide_gate]. Qed.
Lemma insert_log_ok row s b s' : _insert_update_log row s = (Ok b, s') -> b = true ->
  logged (ul_update_id row) s = None /\ s' = s <| js_t := set jt_update_log (fun l => (l ++ [row])%list) (js_t s) |>.
Proof.
  unfold _insert_update_log. intros (t & s1 & [-> <-]%gets_ok & R)%M_bind_ok ->.
  destruct (existsb _ _) eqn:T; [by apply mret_ok in R as [[=] _]|].
  apply M_bind_ok in R as (x & s2 & W & R). apply jinsert_ok in W as [-> _]. apply mret_ok in R as [_ <-].
  split; [by apply find_existsb | done].
Qed.
Lemma al_decide b h u d : along inbox_lives (_decide_in_transaction b h u d).
Proof.
  unfold _decide_in_transaction, inbox_lives, _insert_processing. al_step; [apply al_jnow|]. al_step; [al|]. al_step; [apply al_query|].
  case_match; [apply al_stale|]. intros s r s' [(fresh & s1 & E & R)|(e & E & ->)]%bind_split; [|by apply (al_insert_log (fun _ => false)) in E].
  destruct fresh; [|injection R as _ <-; by apply (al_insert_log (fun _ => false)) in E].
  pose proof E as F. apply insert_log_ok in F as [F _]; [|done]. cbn in F. apply (al_insert_log (fun _ => false)) in E.
  apply (lives_fresh u); [exact F|]. etrans; [apply lives_weaken; exact E|]. revert R. generalize s1. clear.
  intros s. revert s r s'.
  match goal with |- forall s r s', ?m s = _ -> _ => change (along (lives_but (Z.eqb u)) m) end. prims; first [apply al_conclude | apply al_decide_challenge].
Qed.
Lemma al_persist u o res c x : along inbox_lives (persist_outcome u o res c x).
Proof. unfold persist_outcome, inbox_lives. prims; apply al_stale. Qed.
Lemma al_details t : along inbox_lives (safe_details t).
Proof. unfold safe_details, inbox_lives. prims. Qed.
Lemma inbound_lives m s o s' : along inbox_lives m -> _inbound_transaction m s = (o, s') -> inbox_lives (i_js s) (i_js s').
Proof.
  intros M. unfold _inbound_transaction. destruct (begin_fails _); [by intros [= _ <-]|].
  destruct (m (i_js s)) as [[x|e] j] eqn:E; [|intros [= _ <-]; by apply lives_same].
  destruct (commit_fails _); intros [= _ <-]; [by apply lives_same|]. by apply M in E.
Qed.
Lemma ux_js b r s : i_js (_run_post_decision_ux r b s) = i_js s.
Proof. unfold _run_post_decision_ux. by destruct processor_ux. Qed.
Lemma decide_lives b t u d ref s o s' : _decide b t u d ref s = (o, s') -> inbox_lives (i_js s) (i_js s').
Proof.
  unfold _decide. destruct (_inbound_transaction _ s) as [x s1] eqn:E. apply inbound_lives in E; [|apply al_decide].
  intros [= _ <-]. destruct (decided x); [by rewrite ux_js | exact E].
Qed.
Lemma callback_lives cb s o s' : process_callback cb s = (o, s') -> inbox_lives (i_js s) (i_js s').
Proof.
  unfold process_callback, _persist_terminal. destruct (_authorization_flags _ _) as [ch se].
  repeat case_match; first
    [ intros E; apply inbound_lives in E; [exact E | apply al_persist] | apply decide_lives | intros [= _ <-]; reflexivity | idtac].
  unfold details_outcome. destruct (safe_details _ _) as [r j] eqn:D. apply al_details in D. by intros [= _ <-].
Qed.
Lemma delivery_lives d s o s' : handle_callback d s = (o, s') -> inbox_lives (i_js s) (i_js s').
Proof.
  unfold handle_callback. case_match; [by intros [= _ <-]|]. destruct (parse_callback _) as [[a t]|]; [|by intros [= _ <-]].
  destruct (process_callback _ s) as [x s1] eqn:E. apply callback_lives in E. intros [= _ <-]. by destruct (decided x).
Qed.
End Ops.

(** ** InboxDecide: what a decision rests on. *)
(** The rows a decision changes, and how. *)
Definition decidable (approve : bool) (now id : string) (a : OwnerApproval) : bool :=
  if approve then String.eqb (ap_id a) id && bool_decide (ap_status a = AP_PENDING) && unexpired a now
  else String.eqb (ap_id a) id && bool_decide (ap_status a = AP_PENDING).
Definition settle (approve : bool) (now : string) (a : OwnerApproval) : OwnerApproval :=
  if approve then a <| ap_status := AP_APPROVED |> <| ap_decided_at := Some now |> <| ap_approved_at := Some now |>
  else a <| ap_status := AP_REJECTED |> <| ap_decided_at := Some now |> <| ap_closed_at := Some now |>.
Definition spent (approve : bool) (now : string) (u : Z) (c : Challenge) : Challenge :=
  c <| ch_status := ChallengeStatus_value (if approve then CONSUMED_APPROVED else CONSUMED_REJECTED) |>
    <| ch_consumed_at := Some now |> <| ch_consumed_update_id := Some u |>.
Definition settles (approve : bool) (id : string) (s s' : JSt) : Prop := exists now,
  count_where (decidable approve now id) (approvals s) <> 0 /\
  approvals s' = update_where (decidable approve now id) (settle approve now) (approvals s).

(** The outcome of a callback that decides, and everything it rests on. *)
Record decided_by {inbox : InboxEnv} (cb : Callback) (b : bool) (now token : string) (u d : Z) (c : Challenge) (ap : OwnerApproval)
    (s s' : JSt) : Prop := {
  dc_owner : exists owner, truthy owner = true /\ expected_owner_user_id = Ok (Some owner) /\
    expected_owner_chat_id = Ok (Some owner) /\ cb_sender_identity cb = PStr owner /\ cb_private_chat_identity cb = PStr owner;
  dc_action : cb_action cb = PStr (if b then "A" else "R") /\ cb_challenge cb = PStr token /\ challenge_ref token = true;
  dc_update : cb_update_id cb = PInt u /\ (0 <= u < _SQLITE_MAX_INT)%Z /\ (cursor s <= u)%Z /\ logged u s = None;
  dc_challenge : chal (token_hash token) s = Some c /\ issued c = true /\ str_ltb now (ch_expires_at c) = true;
  dc_message : cb_message_date cb = PInt d /\ exists t0 t1 t, _iso_to_unix (ch_created_at c) = Ok t0 /\
    _iso_to_unix (ch_expires_at c) = Ok t1 /\ _iso_to_unix now = Ok t /\ (t0 <= d < t1)%Z /\ (d <= t + FUTURE_SKEW_BOUND)%Z;
  dc_gate : by_id ap_id (ch_approval_id c) (approvals s) = Some ap /\ unbound c ap = false /\ ap_status ap = AP_PENDING /\
    str_ltb now (ap_expires_at ap) = true;
  dc_spent : chal (token_hash token) s' = Some (spent b now u c);
  dc_logged : exists row, logged u s' = Some row /\ ul_decision row = Some (if b then "APPROVE" else "REJECT") /\
    ul_challenge_id row = Some (ch_id c) /\ ul_approval_id row = Some (ap_id ap);
  dc_cursor : (u < cursor s')%Z;
  dc_decided : settles b (ap_id ap) s s'
}.

Section Decide.
Context {env : Env} {inbox : InboxEnv}.
Lemma on_core_ok {A} (m : cmd A) s a s' : on_core m s = (Ok a, s') ->
  exists c, m (js_core s) = (Ok a, c) /\ s' = s <| js_core := c |>.
Proof. unfold on_core. destruct (m (js_core s)) as [r c]. intros [= -> <-]. by exists c. Qed.
Lemma keep_part {X} (tbl : DB -> X) {A} (m : cmd A) s r s' : keep tbl m -> m s = (r, s') -> tbl (st_db s') = tbl (st_db s).
Proof. intros K E. symmetry. exact (K s r s' I E (or_introl eq_refl)). Qed.
Lemma keep_emit_event t i st p : keep db_approvals (_emit_event t i st p).
Proof. unfold _emit_event. keep_tac. Qed.
Lemma keep_apply_on task to_ resume : keep db_approvals (_apply_transition_on task to_ resume).
Proof. pose proof keep_emit_event. unfold _apply_transition_on, _update_task_state. keep_tac. Qed.
Lemma now_iso_db s r s' : now_iso s = (r, s') -> st_db s' = st_db s.
Proof. unfold now_iso, now, mbind, M_bind, lift. by intros [= _ <-]. Qed.
Lemma decision_ok (b : bool) ap s u s' : on_core (if b then _approve_decision_on ap else _reject_decision_on ap) s = (Ok u, s') ->
  js_t s' = js_t s /\ settles b (ap_id ap) s s'.
Proof.
  intros (c & E & ->)%on_core_ok. split; [done|]. unfold settles.
  change (approvals (s <| js_core := c |>)) with (db_approvals (st_db c)).
  change (approvals s) with (db_approvals (st_db (js_core s))).
  destruct b; unfold _approve_decision_on, _reject_decision_on in E.
  - apply M_bind_ok in E as (now & s1 & N & E). exists now.
    assert (D1 : st_db s1 = st_db (js_core s)) by (by apply now_iso_db in N).
    apply M_bind_ok in E as (rc & s2 & U & E). apply update_rows_ok in U as [D2 ->]. rewrite D1 in D2.
    apply M_bind_ok in E as (x & s3 & Z & E). apply raise_when_ok in Z as [Z <-]. apply Nat.eqb_neq in Z.
    apply (keep_part db_approvals) in E; [|apply keep_emit_event]. rewrite E, D2. rewrite D1 in Z. split; [exact Z | reflexivity].
  - apply M_bind_ok in E as (now & s1 & N & E). exists now.
    assert (D1 : st_db s1 = st_db (js_core s)) by (by apply now_iso_db in N).
    apply M_bind_ok in E as (rc & s2 & U & E). apply update_rows_ok in U as [D2 ->]. rewrite D1 in D2.
    apply M_bind_ok in E as (x & s3 & Z & E). apply raise_when_ok in Z as [Z <-]. apply Nat.eqb_neq in Z.
    assert (K : keep db_approvals (task ← get_task (ap_task_id ap);
      _ ← match task with
          | Some task => mwhen (bool_decide (t_state task = OWNER_APPROVAL_REQUIRED))
              (_ ← lift (validate_transition (t_state task) BLOCKED (t_resume_state task)); _apply_transition_on task BLOCKED None)
          | None => mret tt
          end;
      _emit_event "gate.owner_rejected" (Some (ap_task_id ap)) None [("approval_id", PStr (ap_id ap))])).
    { pose proof keep_emit_event. pose proof keep_apply_on. keep_tac. }
    apply (keep_part db_approvals) in E; [|exact K]. rewrite E, D2. rewrite D1 in Z. split; [exact Z | reflexivity].
Qed.

(** ** The statements of the inbox *)
Lemma finalize_ok u d c a o at_ s b s' : _finalize_update_log u d c a o at_ s = (Ok b, s') ->
  s' = s <| js_t := set jt_update_log (update_where (is_update u)
        (fun r => r <| ul_decision := d |> <| ul_challenge_id := c |> <| ul_approval_id := a |> <| ul_outcome := o |>
                    <| ul_processed_at := at_ |>)) (js_t s) |>.
Proof. unfold _finalize_update_log. intros (n & s1 & U & R)%M_bind_ok. apply jupdate_ok in U as (_ & -> & _). by apply mret_ok in R as [_ <-]. Qed.
Lemma advance_ok u now s x s' : _advance_cursor u now s = (Ok x, s') ->
  s' = s <| js_t := (js_t s) <| jt_inbound := mkInboundState (Z.max (cursor s) (Z.min (u + 1) _SQLITE_MAX_INT)) now |> |>.
Proof. unfold _advance_cursor, _set_inbound_state. intros (c & s1 & [-> <-]%gets_ok & R)%M_bind_ok. by apply jwrite_ok in R as [-> _]. Qed.
Lemma conclude_ok u c a lo now o s r s' : conclude u c a lo now o s = (Ok r, s') -> r = o.
Proof.
  unfold conclude. intros (x & s1 & _ & R)%M_bind_ok. apply M_bind_ok in R as (y & s2 & _ & R). by apply mret_ok in R as [-> _].
Qed.
Lemma settles_eq b id s s1 s2 s' : approvals s1 = approvals s -> approvals s' = approvals s2 -> settles b id s1 s2 -> settles b id s s'.
Proof. unfold settles. by intros -> ->. Qed.
(** What a decision leaves of the inbox. *)
Definition leaves (b : bool) (u : Z) (c : Challenge) (id now : string) (s s' : JSt) : Prop :=
  (forall h x, chal h s = Some x -> ch_id x = ch_id c -> issued x = true -> chal h s' = Some (spent b now u x)) /\
  (forall row, logged u s = Some row -> exists row', logged u s' = Some row' /\
     ul_decision row' = Some (if b then "APPROVE" else "REJECT") /\ ul_challenge_id row' = Some (ch_id c) /\
     ul_approval_id row' = Some id) /\
  cursor s' = Z.max (cursor s) (Z.min (u + 1) _SQLITE_MAX_INT).
Lemma decide_on_ok b u c ap now s r s' b' : decide_on b u c ap now s = (Ok r, s') -> decided r = Some b' ->
  b' = b /\ leaves b u c (ap_id ap) now s s' /\ settles b (ap_id ap) s s'.
Proof.
  unfold decide_on, _consume_challenge, from_issued. intros (n & s1 & C & R)%M_bind_ok D. apply jupdate_ok in C as (_ & -> & _).
  destruct (negb (Nat.eqb n 1)); [apply conclude_ok in R; rewrite R in D; discriminate D|].
  apply M_bind_ok in R as (x & s2 & E & R). apply decision_ok in E as [T2 S].
  apply M_bind_ok in R as (h & s3 & [_ <-]%lift_ok & R).
  apply M_bind_ok in R as (y & s4 & I & R). apply on_core_ok in I as (k & I & ->).
  assert (K : db_approvals (st_db k) = approvals s2).
  { apply (keep_part db_approvals) in I; [exact I|]. unfold _set_command_idempotency. keep_tac. }
  apply M_bind_ok in R as (z & s5 & F & R). apply finalize_ok in F as ->.
  apply M_bind_ok in R as (w & s6 & A & R). apply advance_ok in A as ->. apply mret_ok in R as [<- <-].
  assert (b' = b) as -> by (destruct b; cbn in D; congruence). split; [done|].
  set (s1 := s <| js_t := _ |>) in *. assert (A1 : approvals s1 = approvals s) by reflexivity.
  assert (C1 : forall h, chal h s1 = (fun x => if is_challenge (ch_id c) x && issued x then spent b now u x else x) <$> chal h s).
  { intros h'. by apply (row_by_id_update ch_token_hash). }
  assert (L1 : logged u s1 = logged u s) by reflexivity. assert (N1 : cursor s1 = cursor s) by reflexivity. clearbody s1.
  split; [|eapply settles_eq; [exact A1 | | exact S]; exact K].
  assert (C2 : forall h, chal h s2 = chal h s1) by (intros; unfold chal; by rewrite T2).
  assert (L2 : logged u s2 = logged u s1) by (unfold logged; by rewrite T2).
  assert (N2 : cursor s2 = cursor s1) by (unfold cursor; by rewrite T2).
  split; [|split].
  - intros h' x' E I1 I2. change (chal h' s2 = Some (spent b now u x')). rewrite C2, C1, E. cbn. unfold is_challenge.
    by rewrite I1, I2, String.eqb_refl.
  - intros row E. rewrite <- L1, <- L2 in E. pose proof E as [_ P]%find_some. eexists. split.
    + match goal with |- logged u ?st = _ => change (logged u st) with
        (List.find (is_update u) (update_where (is_update u) (fun r => r <| ul_decision := Some (if b then "APPROVE" else "REJECT") |>
           <| ul_challenge_id := Some (ch_id c) |> <| ul_approval_id := Some (ap_id ap) |>
           <| ul_outcome := if b then "APPROVED" else "REJECTED" |> <| ul_processed_at := now |>) (jt_update_log (js_t s2)))) end.
      rewrite find_update by done. fold (logged u s2). rewrite E. cbn. rewrite P. reflexivity.
    + done.
  - match goal with |- cursor ?st = _ => change (cursor st) with (Z.max (cursor s2) (Z.min (u + 1) _SQLITE_MAX_INT)) end.
    by rewrite N2, N1.
Qed.

(** ** The guards *)
Definition gate_of (c : Challenge) (now : string) (ap : OwnerApproval) (s : JSt) : Prop :=
  by_id ap_id (ch_approval_id c) (approvals s) = Some ap /\ unbound c ap = false /\ ap_status ap = AP_PENDING /\
  str_ltb now (ap_expires_at ap) = true.
Lemma decide_gate_ok b u c now s r s' b' : decide_gate b u c now s = (Ok r, s') -> decided r = Some b' ->
  b' = b /\ exists ap, gate_of c now ap s /\ leaves b u c (ap_id ap) now s s' /\ settles b (ap_id ap) s s'.
Proof.
  unfold decide_gate. intros (a & s1 & G & R)%M_bind_ok D. apply on_core_ok in G as (k & G & ->).
  unfold get_approval, query in G. apply gets_ok in G as [-> <-]. replace (s <| js_core := js_core s |>) with s in R by (by destruct s).
  match type of R with (match ?o with _ => _ end) _ = _ => destruct o as [ap|] eqn:A end.
  2:{ apply M_bind_ok in R as (x & s2 & _ & R). apply conclude_ok in R as ->. discriminate D. }
  destruct (unbound c ap) eqn:U; [apply M_bind_ok in R as (x & s2 & _ & R); apply conclude_ok in R as ->; discriminate D|].
  destruct (bool_decide_reflect (ap_status ap = AP_PENDING)) as [P|_]; [|apply conclude_ok in R as ->; discriminate D]. cbn [negb] in R.
  destruct (str_leb (ap_expires_at ap) now) eqn:X.
  { apply M_bind_ok in R as (x & s2 & _ & R). apply conclude_ok in R as ->. discriminate D. }
  apply (decide_on_ok _ _ _ _ _ _ _ _ _ R) in D as (-> & L & S). split; [done|]. exists ap.
  split; [|done]. split; [exact A|]. do 2 (split; [done|]). by rewrite str_ltb_leb, X.
Qed.
Definition in_window (c : Challenge) (d t : Z) : Prop := exists t0 t1, _iso_to_unix (ch_created_at c) = Ok t0 /\
  _iso_to_unix (ch_expires_at c) = Ok t1 /\ (t0 <= d < t1)%Z /\ (d <= t + FUTURE_SKEW_BOUND)%Z.
Lemma decide_challenge_ok b u d t c now s r s' b' : decide_challenge b u d t c now s = (Ok r, s') -> decided r = Some b' ->
  issued c = true /\ str_ltb now (ch_expires_at c) = true /\ in_window c d t /\
  b' = b /\ exists ap, gate_of c now ap s /\ leaves b u c (ap_id ap) now s s' /\ settles b (ap_id ap) s s'.
Proof.
  unfold decide_challenge. intros R D. destruct (issued c); cbn [negb] in R.
  2:{ apply conclude_ok in R as ->. unfold _terminal_outcome in D. by repeat case_match. }
  assert (Spoil : forall s, spoil u c now s = (Ok r, s') -> False).
  { unfold spoil. intros s0 (x & s2 & _ & E)%M_bind_ok. apply conclude_ok in E as ->. discriminate D. }
  destruct (str_leb (ch_expires_at c) now) eqn:X; [by apply Spoil in R|].
  apply lift_bind_ok in R as (t0 & T0 & R). apply lift_bind_ok in R as (t1 & T1 & R).
  destruct (Z.ltb_spec d t0); [apply conclude_ok in R as ->; discriminate D|].
  destruct (Z.leb_spec t1 d); [by apply Spoil in R|].
  destruct (Z.ltb_spec (t + FUTURE_SKEW_BOUND) d); [apply conclude_ok in R as ->; discriminate D|].
  split; [done|]. split; [by rewrite str_ltb_leb, X|]. split; [exists t0, t1; repeat split; done|].
  by apply (decide_gate_ok _ _ _ _ _ _ _ _ R D).
Qed.
Lemma challenged_gate_same c now ap s s' : jdb s' = jdb s -> gate_of c now ap s' -> gate_of c now ap s.
Proof. unfold gate_of, approvals. by intros ->. Qed.
Lemma settles_same b id s s1 s' : jdb s1 = jdb s -> settles b id s1 s' -> settles b id s s'.
Proof. intros E. apply settles_eq; [unfold approvals; by rewrite E | done]. Qed.
Lemma decide_tx_ok b h u d s r s' b' : _decide_in_transaction b h u d s = (Ok r, s') -> decided r = Some b' ->
  b' = b /\ exists now t c ap, _iso_to_unix now = Ok t /\ (cursor s <= u)%Z /\ logged u s = None /\
    chal h s = Some c /\ issued c = true /\ str_ltb now (ch_expires_at c) = true /\ in_window c d t /\ gate_of c now ap s /\
    settles b (ap_id ap) s s' /\ chal h s' = Some (spent b now u c) /\
    (exists row, logged u s' = Some row /\ ul_decision row = Some (if b then "APPROVE" else "REJECT") /\
       ul_challenge_id row = Some (ch_id c) /\ ul_approval_id row = Some (ap_id ap)) /\
    cursor s' = Z.max (cursor s) (Z.min (u + 1) _SQLITE_MAX_INT).
Proof.
  unfold _decide_in_transaction. intros (now & s1 & N & R)%M_bind_ok D. apply jnow_iso_reads in N as (E1 & T1 & _).
  apply lift_bind_ok in R as (t & T & R). apply M_bind_ok in R as (cur & s2 & C & R). apply gets_ok in C as [-> <-].
  destruct (Z.ltb_spec u (ib_next_update_id (jt_inbound (js_t s1)))) as [|LE].
  { unfold stale_update in R. apply M_bind_ok in R as (x & s2 & _ & R). apply mret_ok in R as [<- _]. by destruct x. }
  apply M_bind_ok in R as (fresh & s2 & F & R). destruct fresh; [|apply mret_ok in R as [<- _]; discriminate D].
  apply insert_log_ok in F as [F E2]; [|done]. cbn in F. cbn [negb] in R.
  apply M_bind_ok in R as (ch & s3 & Q & R). apply gets_ok in Q as [-> <-].
  change (List.find (fun c => String.eqb (ch_token_hash c) h) (jt_challenges (js_t s2))) with (chal h s2) in R.
  assert (C2 : chal h s2 = chal h s) by (rewrite E2; unfold chal; cbn; by rewrite T1).
  assert (N2 : cursor s2 = cursor s) by (rewrite E2; unfold cursor; cbn; by rewrite T1).
  assert (D2 : jdb s2 = jdb s) by (rewrite E2; exact E1).
  assert (L2 : exists row, logged u s2 = Some row).
  { rewrite E2. unfold logged. cbn. rewrite find_snoc. fold (logged u s1). rewrite F. cbn. unfold is_update. cbn.
    rewrite Z.eqb_refl. by eexists. }
  destruct (chal h s2) as [c|] eqn:H; [|apply conclude_ok in R as ->; discriminate D].
  apply (decide_challenge_ok _ _ _ _ _ _ _ _ _ _ R) in D as (I & X & W & -> & ap & G & (LC & LL & LN) & S).
  split; [done|]. exists now, t, c, ap. split; [done|]. split; [by unfold cursor; rewrite <- T1|].
  split; [by unfold logged in *; rewrite <- T1|]. split; [congruence|]. do 3 (split; [done|]).
  split; [eapply challenged_gate_same; eauto|]. split; [eapply settles_same; eauto|].
  split; [by apply (LC h c)|]. split; [|by rewrite LN, N2].
  destruct L2 as [row L2]. exact (LL row L2).
Qed.

(** ** The callback *)
Lemma inbound_decides m s r s' b : _inbound_transaction m s = (r, s') -> decided r = Some b ->
  m (i_js s) = (Ok r, i_js s').
Proof.
  unfold _inbound_transaction. intros E D. destruct (begin_fails _) as [l|].
  { injection E as <- _. by destruct l. }
  destruct (m (i_js s)) as [[x|e] j]; [|injection E as <- _; discriminate D].
  destruct (commit_fails _) as [l|]; injection E as <- <-; [by destruct l | done].
Qed.
Lemma persist_undecided u o res ch se s r s' b : decided res = None ->
  _persist_terminal u o res ch se s = (r, s') -> decided r <> Some b.
Proof.
  intros N E D. unfold _persist_terminal in E. apply (inbound_decides _ _ _ _ b) in E; [|exact D].
  unfold persist_outcome in E. apply M_bind_ok in E as (now & s1 & _ & E). apply M_bind_ok in E as (cur & s2 & _ & E).
  case_match; [unfold stale_update in E; apply M_bind_ok in E as (x & s3 & _ & E); apply mret_ok in E as [<- _]; by destruct x|].
  apply M_bind_ok in E as (x & s3 & _ & E). destruct x; cbn [negb] in E; [|apply mret_ok in E as [<- _]; discriminate D].
  apply M_bind_ok in E as (y & s4 & _ & E). apply mret_ok in E as [<- _]. congruence.
Qed.
Lemma flags_owner se pr : _authorization_flags se pr = (true, true) ->
  exists owner, truthy owner = true /\ expected_owner_user_id = Ok (Some owner) /\ expected_owner_chat_id = Ok (Some owner) /\
    se = PStr owner /\ pr = PStr owner.
Proof.
  unfold _authorization_flags. intros E. destruct expected_owner_user_id as [[user|]|]; [|discriminate E..].
  destruct expected_owner_chat_id as [[chat|]|]; [|discriminate E..].
  destruct (truthy user && truthy chat && String.eqb user chat) eqn:T; [|discriminate E].
  destruct se; try discriminate E. destruct pr; try discriminate E. injection E as P [S _]%andb_true_iff.
  apply andb_true_iff in T as [[T _]%andb_true_iff K%String.eqb_eq]. apply String.eqb_eq in P as ->. apply String.eqb_eq in S as ->.
  subst chat. by exists user.
Qed.
Lemma action_of a act : CallbackAction_of a = Some act -> a = action_value act.
Proof.
  unfold CallbackAction_of. destruct (String.eqb_spec a "A") as [->|]; [by intros [= <-]|].
  destruct (String.eqb_spec a "R") as [->|]; [by intros [= <-]|]. destruct (String.eqb_spec a "D") as [->|]; [by intros [= <-] | done].
Qed.
Lemma parsed_ok a c act token : _parse_action_challenge a c = Some (act, token) ->
  a = PStr (action_value act) /\ c = PStr token /\ challenge_ref token = true.
Proof.
  unfold _parse_action_challenge. destruct a; try done. destruct c; try done. destruct (challenge_ref _) eqn:R; [|done].
  destruct (CallbackAction_of _) as [x|] eqn:A; [|done]. intros [= <- <-]. by apply action_of in A as ->.
Qed.

Lemma callback_decided cb s o s' b : process_callback cb s = (o, s') -> decided o = Some b ->
  exists now token u d c ap, decided_by cb b now token u d c ap (i_js s) (i_js s').
Proof.
  unfold process_callback. intros R D.
  assert (P : forall u o' res ch se r s', decided res = None -> _persist_terminal u o' res ch se s = (r, s') -> decided r = Some b -> False).
  { intros u o' res ch se r s0 N E X. by apply (persist_undecided _ _ _ _ _ _ _ _ b N) in E. }
  destruct (_valid_update_id (cb_update_id cb)) eqn:VU; cbn [negb] in R.
  2:{ destruct (_representable_update_id _); [by apply P in R | injection R as <- _; discriminate D]. }
  destruct (_valid_message_date (cb_message_date cb)) eqn:VM; cbn [negb] in R; [|by apply P in R].
  destruct (_authorization_flags _ _) as [ch se] eqn:F. destruct ch; cbn [negb] in R; [|by apply P in R].
  destruct se; cbn [negb] in R; [|by apply P in R].
  destruct (_parse_action_challenge _ _) as [[act token]|] eqn:Q; [|by apply P in R].
  apply parsed_ok in Q as (QA & QC & QR). destruct (cb_update_id cb) as [| |u| | | | | |] eqn:U; try discriminate VU.
  destruct (cb_message_date cb) as [| |d| | | | | |] eqn:M; try discriminate VM. cbn [int_of] in R.
  assert (E : exists a s1, act = (if a : bool then APPROVE else REJECT) /\ i_js s1 = i_js s' /\
            _inbound_transaction (_decide_in_transaction a (token_hash token) u d) s = (o, s1)).
  { destruct act; [exists true | exists false |].
    1,2: unfold _decide in R; destruct (_inbound_transaction _ s) as [x s1] eqn:E; exists s1; injection R as <- <-;
         (split; [done|]); (split; [|done]); destruct (decided x); [by rewrite ux_js | done].
    unfold details_outcome in R. destruct (safe_details _ _) as [[[de|]|] j]; injection R as <- _; discriminate D. }
  destruct E as (a & s1 & -> & J & E). apply (inbound_decides _ _ _ _ b) in E; [|exact D]. rewrite J in E.
  apply (decide_tx_ok _ _ _ _ _ _ _ b E) in D as (-> & now & t & c & ap & T & LE & NL & CH & I & X & (t0 & t1 & T0 & T1 & W1 & W2) & G & S & SP & LG & CU).
  exists now, token, u, d, c, ap. apply flags_owner in F. apply andb_true_iff in VU as [U0%Z.leb_le U1%Z.ltb_lt]. split; try done.
  - split; [|done]. rewrite QA. by destruct a.
  - split; [done|]. exists t0, t1, t. done.
  - rewrite CU. lia.
Qed.
(** C6: a decision needs the capability: a callback approves or rejects only when the sender
    and the private chat are the one expected owner, the update is new and not below the
    cursor, and the token is that of an issued challenge, current now and at the time of the
    message, for a pending, unexpired approval whose content the challenge is bound to; then
    the challenge is spent by this update, the log names the decision, the cursor moves on and
    the pending rows of that approval are decided, no other one. *)
Theorem decision_needs_capability cb s o s' b : process_callback cb s = (o, s') -> decided o = Some b ->
  exists now token u d c ap, decided_by cb b now token u d c ap (i_js s) (i_js s').
Proof. apply callback_decided. Qed.
End Decide.
