(* ===== verification/InboxSession.v ===== *)
(** * InboxSession: any sequence of buttons, challenges and commands.

    Callbacks reach the processor directly or through the adapter, challenges are made, and
    the commands of the core and the lease holders run in between. *)
From S2P Require Import Prelude PyVal Models Timestamps Trust StateMachine Gates Canonical CoreStore Core Dispatch Frames Session Scenario History Lifecycle Authority JobRows Leases JobSteps JobInv LeaseSession JobFrame IsoParse Candidates CandidateSpec Outbox Along Inbox InboxDecide LeaseSpec JobScenario LockSpec.
#[local] Open Scope string_scope.

(** A decision, as the hash of its token and its update. *)
Definition ruling (challenge update_id : pyval) (o : CallbackOutcome) : list (string * Z) :=
  match decided o, challenge, update_id with
  | Some _, PStr token, PInt u => [(token_hash token, u)]
  | _, _, _ => []
  end.
Definition adapter_ruling (d : HostDelivery) (r : AdapterResult) : list (string * Z) :=
  match r, parse_callback (dl_payload d) with
  | Core_outcome o, Some (_, token) => ruling (PStr token) (dl_update_id d) o
  | _, _ => []
  end.
Definition spent_chal (h : string) (s : JSt) : bool := match chal h s with Some c => negb (issued c) | None => false end.
Definition ruled (u : Z) (s : JSt) : bool := match logged u s with Some r => is_some (ul_decision r) | None => false end.
Definition rulings_for_token (h : string) (rs : list (string * Z)) : nat := count_occ string_dec (map fst rs) h.
Definition rulings_of_update (u : Z) (rs : list (string * Z)) : nat := count_occ Z.eq_dec (map snd rs) u.

Definition rules (s : JSt) (rs : list (string * Z)) (s' : JSt) : Prop :=
  inbox_lives s s' /\
  (forall h, rulings_for_token h rs + Nat.b2n (spent_chal h s) <= Nat.b2n (spent_chal h s'))%nat /\
  (forall u, rulings_of_update u rs + Nat.b2n (ruled u s) <= Nat.b2n (ruled u s'))%nat /\
  (forall h u, In (h, u) rs -> (cursor s <= u < _SQLITE_MAX_INT)%Z).
Lemma lives_spent h s s' : inbox_lives s s' -> spent_chal h s = true -> spent_chal h s' = true.
Proof.
  intros (C & _ & _). unfold spent_chal. destruct (chal h s) as [c|] eqn:E; [|done]. apply C in E as (c' & -> & _ & K).
  intros I%negb_true_iff. rewrite (K I). by rewrite I.
Qed.
Lemma lives_ruled u s s' : inbox_lives s s' -> ruled u s = true -> ruled u s' = true.
Proof. intros (_ & L & _). unfold ruled. destruct (logged u s) as [r|] eqn:E; [|done]. by rewrite (L u r eq_refl E). Qed.
Lemma b2n_mono (a b : bool) : (a = true -> b = true) -> (Nat.b2n a <= Nat.b2n b)%nat.
Proof. intros H. destruct a; [rewrite H by done; cbn; lia | cbn; lia]. Qed.
Lemma rules_none s s' : inbox_lives s s' -> rules s [] s'.
Proof.
  intros L. split; [done|]. split; [|split; [|done]]; [intros h | intros u]; cbn; apply b2n_mono;
    [by apply lives_spent | by apply lives_ruled].
Qed.
Lemma rules_app s a s1 b s2 : rules s a s1 -> rules s1 b s2 -> rules s (a ++ b)%list s2.
Proof.
  intros (L1 & H1 & U1 & C1) (L2 & H2 & U2 & C2). split; [by etrans|]. split; [|split].
  - intros h. specialize (H1 h). specialize (H2 h). unfold rulings_for_token in *. rewrite map_app, count_occ_app. lia.
  - intros u. specialize (U1 u). specialize (U2 u). unfold rulings_of_update in *. rewrite map_app, count_occ_app. lia.
  - intros h u [I|I]%in_app_iff; [by eapply C1|]. pose proof (C2 h u I). destruct L1 as (_ & _ & L1). lia.
Qed.

Section Session.
Context {env : Env} {inbox : InboxEnv}.
Lemma decision_rules cb b now token u d c ap s s' : inbox_lives s s' -> decided_by cb b now token u d c ap s s' ->
  rules s [(token_hash token, u)] s'.
Proof.
  intros L D. pose proof (dc_challenge _ _ _ _ _ _ _ _ _ _ D) as (E & I & _).
  pose proof (dc_spent _ _ _ _ _ _ _ _ _ _ D) as E'. pose proof (dc_update _ _ _ _ _ _ _ _ _ _ D) as (_ & B & LE & F).
  pose proof (dc_logged _ _ _ _ _ _ _ _ _ _ D) as (row & F' & Q & _). pose proof (rules_none s s' L) as (_ & H0 & U0 & _).
  clear D. revert E E'. generalize (token_hash token). intros t E E'. split; [done|]. split; [|split].
  - intros h. specialize (H0 h). unfold rulings_for_token in *. cbn [map fst count_occ] in *. destruct (string_dec t h) as [<-|]; [|exact H0].
    unfold spent_chal. rewrite E, E', I. cbn. unfold spent, issued. cbn. by destruct b.
  - intros v. specialize (U0 v). unfold rulings_of_update in *. cbn [map snd count_occ] in *. destruct (Z.eq_dec u v) as [<-|]; [|exact U0].
    unfold ruled. rewrite F, F', Q. cbn. lia.
  - intros h v [[= <- <-]|[]]. lia.
Qed.
Lemma callback_rules cb s o s' : process_callback cb s = (o, s') ->
  rules (i_js s) (ruling (cb_challenge cb) (cb_update_id cb) o) (i_js s').
Proof.
  intros E. pose proof E as L. apply callback_lives in L. destruct (decided o) as [b|] eqn:D.
  - pose proof (callback_decided cb s o s' b E D) as (now & token & u & d & c & ap & K).
    pose proof (dc_action _ _ _ _ _ _ _ _ _ _ K) as (_ & -> & _). pose proof (dc_update _ _ _ _ _ _ _ _ _ _ K) as (-> & _).
    unfold ruling. rewrite D. by eapply decision_rules.
  - unfold ruling. rewrite D. by apply rules_none.
Qed.
Lemma delivery_rules d s r s' : handle_callback d s = (r, s') -> rules (i_js s) (adapter_ruling d r) (i_js s').
Proof.
  unfold handle_callback, adapter_ruling. case_match; [intros [= <- <-]; by apply rules_none|].
  destruct (parse_callback _) as [[a t]|]; [|intros [= <- <-]; by apply rules_none].
  destruct (process_callback _ s) as [x s1] eqn:E. apply callback_rules in E. cbn [cb_challenge cb_update_id] in E.
  intros [= <- <-]. by destruct (decided x).
Qed.

Inductive inbox_event : Type :=
| OnDelivery (d : HostDelivery)
| OnCallback (cb : Callback)
| OnChallenge (approval : OwnerApproval) (job_id : string) (outbox_id : option string) (now : datetime) (token : string)
| OnCore (c : command)
| OnLease (c : lease_cmd).
(** The result of a command is forgotten. *)
Definition on_store {A} (m : jcmd A) (s : ISt) : list (string * Z) * ISt := ([], s <| i_js := snd (m (i_js s)) |>).
Definition inbox_exec (e : inbox_event) (s : ISt) : list (string * Z) * ISt :=
  match e with
  | OnDelivery d => let (r, s') := handle_callback d s in (adapter_ruling d r, s')
  | OnCallback cb => let (o, s') := process_callback cb s in (ruling (cb_challenge cb) (cb_update_id cb) o, s')
  | OnChallenge a j n now t => on_store (create_challenge a j n now t) s
  | OnCore c => on_store (on_core (run c)) s
  | OnLease c => on_store (lease_exec c) s
  end.
Fixpoint inbox_run (evs : list inbox_event) (s : ISt) : list (string * Z) * ISt :=
  match evs with
  | [] => ([], s)
  | e :: evs => let (a, s1) := inbox_exec e s in let (b, s2) := inbox_run evs s1 in ((a ++ b)%list, s2)
  end.
Lemma create_lives a j n now t : along inbox_lives (create_challenge a j n now t).
Proof.
  unfold create_challenge, get_active_challenge_for_approval, _insert_challenge, inbox_lives.
  al; first [apply al_query | apply al_core | idtac].
  intros s r s' [->| ->]%jwrite_cases; [reflexivity|].
  set (s' := s <| js_t := _ |>). assert (L : forall v, logged v s' = logged v s) by reflexivity.
  assert (N : cursor s' = cursor s) by reflexivity.
  match goal with s' := _ <| js_t := set jt_challenges (fun l => (l ++ [?row])%list) _ |> |- _ =>
    assert (C : forall h, chal h s' = match chal h s with Some y => Some y
                                      | None => if String.eqb (ch_token_hash row) h then Some row else None end) end.
  { intros h. exact (by_id_snoc ch_token_hash h _ _). }
  clearbody s'. split; [|split; [|rewrite N; lia]].
  - intros h c E. exists c. by rewrite C, E.
  - intros v x _. by rewrite L.
Qed.
Lemma exec_rules e s rs s' : inbox_exec e s = (rs, s') -> rules (i_js s) rs (i_js s').
Proof.
  destruct e as [d|cb|a j n now t|c|c]; cbn [inbox_exec].
  - destruct (handle_callback d s) as [r s1] eqn:E. intros [= <- <-]. by apply delivery_rules.
  - destruct (process_callback cb s) as [o s1] eqn:E. intros [= <- <-]. by apply callback_rules.
  - intros [= <- <-]. apply rules_none. cbn. destruct (create_challenge a j n now t (i_js s)) as [r j'] eqn:E.
    by apply create_lives in E.
  - intros [= <- <-]. apply rules_none. cbn. destruct (on_core (run c) (i_js s)) as [r j'] eqn:E.
    by apply (al_core (fun _ => false)) in E.
  - intros [= <- <-]. apply rules_none. cbn. destruct (lease_exec c (i_js s)) as [r j'] eqn:E.
    apply lease_exec_frame in E as (_ & jobs & ms & T). cbn.
    split; [|split]; unfold chal, logged, cursor; rewrite T; cbn; [|done | lia]. intros h x X. by exists x.
Qed.
Lemma run_rules evs s rs s' : inbox_run evs s = (rs, s') -> rules (i_js s) rs (i_js s').
Proof.
  revert s rs. induction evs as [|e evs IH]; intros s rs; cbn [inbox_run].
  - intros [= <- <-]. apply rules_none. reflexivity.
  - destruct (inbox_exec e s) as [a s1] eqn:E. destruct (inbox_run evs s1) as [b s2] eqn:F. intros [= <- <-].
    apply exec_rules in E. apply IH in F. by eapply rules_app.
Qed.

(** C23: a challenge is used once and an update decides once: whatever callbacks are
    delivered, replayed and forged, whatever challenges are made and commands run in between,
    no token decides twice, none that was spent before, and no update decides twice; a
    challenge that has ended and a logged update never change, and the cursor never goes
    back. *)
Theorem callbacks_decide_once evs s rs s' : inbox_run evs s = (rs, s') ->
  inbox_lives (i_js s) (i_js s') /\
  (forall h, rulings_for_token h rs + Nat.b2n (spent_chal h (i_js s)) <= 1)%nat /\
  (forall u, rulings_of_update u rs + Nat.b2n (ruled u (i_js s)) <= 1)%nat.
Proof.
  intros (L & H & U & _)%run_rules. split; [exact L|]. split.
  - intros h. specialize (H h). destruct (spent_chal h (i_js s')); cbn in H; lia.
  - intros u. specialize (U u). destruct (ruled u (i_js s')); cbn in U; lia.
Qed.

Lemma malformed_cursor u ch se s s' : (0 <= u)%Z -> _persist_terminal u "MALFORMED" CB_MALFORMED ch se s = (CB_MALFORMED, s') ->
  (Z.min (u + 1) _SQLITE_MAX_INT <= cursor (i_js s'))%Z.
Proof.
  intros P. unfold _persist_terminal, _inbound_transaction. destruct (begin_fails _) as [l|]; [by destruct l|].
  destruct (persist_outcome _ _ _ _ _ (i_js s)) as [[x|e] j] eqn:E; [|done].
  destruct (commit_fails _) as [l|]; [by destruct l|]. intros [= -> <-]. unfold persist_outcome in E.
  apply M_bind_ok in E as (now & s1 & _ & E). apply M_bind_ok in E as (cur & s2 & _ & E). case_match.
  { unfold stale_update in E. apply M_bind_ok in E as (y & s3 & _ & E). apply mret_ok in E as [E _]. by destruct y. }
  apply M_bind_ok in E as (y & s3 & _ & E). destruct y; cbn [negb] in E; [|by apply mret_ok in E as [[=] _]].
  apply M_bind_ok in E as (z & s4 & A & E). apply mret_ok in E as [_ <-]. apply advance_ok in A as ->.
  change (Z.min (u + 1) _SQLITE_MAX_INT <= Z.max (cursor s3) (Z.min (u + 1) _SQLITE_MAX_INT))%Z. lia.
Qed.
(** C40: one update closes the inbox for good: a callback with the identifier 2^63 - 1, which
    needs no identity, is logged as malformed and moves the cursor to 2^63 - 1; every
    identifier that can be processed is below it, so that no button of the owner decides
    anything any more. *)
Theorem one_update_closes_inbox cb s s1 evs rs s' :
  cb_update_id cb = PInt _SQLITE_MAX_INT -> process_callback cb s = (CB_MALFORMED, s1) ->
  inbox_run evs s1 = (rs, s') -> rs = [].
Proof.
  intros U P R. apply run_rules in R as (_ & _ & _ & C). unfold process_callback in P. rewrite U in P.
  change (_persist_terminal _SQLITE_MAX_INT "MALFORMED" CB_MALFORMED false false s = (CB_MALFORMED, s1)) in P.
  apply malformed_cursor in P; [|done]. destruct rs as [|[h u] rs]; [done|]. exfalso.
  specialize (C h u (or_introl eq_refl)). rewrite Z.min_r in P by lia. lia.
Qed.
End Session.

(** ** InboxScenario: the owner presses a button.

    The task of [JobScenario] asks for a gated action; a challenge is made for its approval
    and the button comes back. *)
#[local] Existing Instance sample_env.

#[export] Instance sample_inbox : InboxEnv := {|
  expected_owner_user_id := Ok (Some "owner");
  expected_owner_chat_id := Ok (Some "owner");
  begin_fails n := None;
  commit_fails n := None;
  processor_ux := false
|}.
Definition gated_st : JSt := snd (on_core (run (RequestAction "u1" "external_send" "mail" "lead" lead None)) queued_st).
Definition asked_approval : option OwnerApproval := hd_error (approvals gated_st).
Definition no_approval : OwnerApproval := mkOwnerApproval "" "" "" "" AP_EXPIRED "" UNTRUSTED "" None None "" None None None None None.
Definition token0 : string := "abcdefghijklmnopqrstuvwxyzABCDEFGHIJKLMNOP0".
Definition inbox_st : ISt := mkISt gated_st 0 [].
Definition asked_at : datetime := mkDatetime (738944 * US_PER_DAY)%Z None.
Definition challenge0 : inbox_event :=
  OnChallenge (default no_approval asked_approval) job_id0 None asked_at token0.
Definition asked_unix : Z := (738944 - 719162) * 86400.
Definition button (action : string) (u : Z) : inbox_event :=
  OnDelivery (mkHostDelivery (PStr (action ++ ":" ++ token0)) (PStr "owner") (PStr "owner") (PInt u) (PInt (asked_unix + 60))
                (Some "q") (Some "m")).
Definition session : list inbox_event := [challenge0; button "A" 5; button "A" 5; button "R" 6].
#[local] Notation session_run := (inbox_run session inbox_st).
#[local] Notation issued_st := (snd (inbox_exec challenge0 inbox_st)).
(** The first press approves; the second is a replay and the third finds a spent token. *)
Example session_outcome :
  map snd (fst session_run) = [5%Z] /\ map ch_status (jt_challenges (js_t (i_js (snd session_run)))) = ["CONSUMED_APPROVED"] /\
  map ap_status (approvals (i_js (snd session_run))) = [AP_APPROVED] /\
  map (fun l => (ul_update_id l, ul_outcome l)) (jt_update_log (js_t (i_js (snd session_run)))) = [(5%Z, "APPROVED"); (6%Z, "USED_TOKEN")].
Proof. vm_compute. repeat split. Qed.

Definition press (action : string) (u : Z) : Callback :=
  mkCallback (PStr action) (PStr token0) (PInt u) (PInt (asked_unix + 60)) (PStr "owner") (PStr "owner") None.
#[local] Notation pressed := (process_callback (press "A" 5) issued_st).
Lemma decision_needs_capability_witness : fst pressed = CB_APPROVED /\
  exists id, settles true id (i_js issued_st) (i_js (snd pressed)).
Proof.
  assert (E : fst pressed = CB_APPROVED) by (vm_compute; reflexivity).
  destruct (decision_needs_capability (press "A" 5) issued_st CB_APPROVED (snd pressed) true (outcome _ _ E) eq_refl)
    as (now & token & u & d & c & ap & D).
  split; [exact E|]. exists (ap_id ap). exact (dc_decided _ _ _ _ _ _ _ _ _ _ D).
Defined.
#[local] Notation one_ruling := [(token_hash token0, 5%Z)].
Lemma callbacks_decide_once_witness : fst session_run = one_ruling /\
  (rulings_of_update 5 one_ruling + Nat.b2n (ruled 5 (i_js inbox_st)) <= 1)%nat.
Proof.
  assert (E : fst session_run = one_ruling) by (vm_compute; reflexivity).
  split; [exact E|].
  exact (proj2 (proj2 (callbacks_decide_once session inbox_st one_ruling (snd session_run) (outcome _ _ E))) 5%Z).
Defined.
Definition poison : Callback :=
  mkCallback PNone PNone (PInt _SQLITE_MAX_INT) PNone (PStr "stranger") (PStr "stranger") None.
#[local] Notation poisoned := (process_callback poison issued_st).
Lemma one_update_closes_inbox_witness : fst poisoned = CB_MALFORMED /\ fst (inbox_run [button "A" 5; button "A" 6] (snd poisoned)) = [].
Proof.
  assert (E : fst poisoned = CB_MALFORMED) by (vm_compute; reflexivity).
  split; [exact E|].
  apply (one_update_closes_inbox poison issued_st (snd poisoned) [button "A" 5; button "A" 6] _
           (snd (inbox_run [button "A" 5; button "A" 6] (snd poisoned))) eq_refl (outcome _ _ E)).
  apply outcome. reflexivity.
Defined.
