(* ===== verification/Processes.v ===== *)
(** * Processes: which processes run for a job, and are they alive?
    (src/argent_core/process_registry.py and the process_registry table of
    src/argent_core/store.py).

    A registration pins the identity of a process: boot, pid and start ticks.  What /proc
    says is a parameter ([ProcEnv]), asked at a moment of the clock; the parser of its stat
    line, the identity classes and the store operations are modelled. *)
From S2P Require Import Prelude PyVal Models Json Timestamps Concurrency Recovery CoreStore JobRows Leases.
#[local] Open Scope string_scope.

Definition PROCESS_STATUS_RUNNING : string := "RUNNING".
Definition PROCESS_STATUS_TERMINAL : string := "TERMINAL".
Definition PROCESS_STATUS_UNKNOWN : string := "UNKNOWN".
Definition ALLOWED_PROCESS_STATUSES : list string :=
  [PROCESS_STATUS_RUNNING; PROCESS_STATUS_TERMINAL; PROCESS_STATUS_UNKNOWN].
Definition IDENTITY_SAME : string := "same".
Definition IDENTITY_PID_REUSE : string := "pid_reuse".
Definition IDENTITY_BOOT_CHANGED : string := "boot_changed".

Record ProcessIdentity : Type := mkProcessIdentity {
  pi_boot_id : option string;
  pi_pid : Z;
  pi_process_start_ticks : option Z
}.
Definition is_known (i : ProcessIdentity) : bool :=
  is_some (pi_boot_id i) && is_some (pi_process_start_ticks i).

(** The files of /proc at a moment: [None] when they cannot be read. *)
Class ProcEnv : Type := {
  boot_id_text : nat -> option string;
  stat_text : nat -> Z -> option string
}.

(** *** The stat line *)
(** [s.split()]. *)
Fixpoint split_ws_from (word s : string) : list string :=
  match s with
  | EmptyString => if truthy word then [word] else []
  | String c s' =>
      if is_ws c then if truthy word then word :: split_ws_from EmptyString s' else split_ws_from EmptyString s'
      else split_ws_from (word ++ String c EmptyString) s'
  end.
Definition split_ws (s : string) : list string := split_ws_from EmptyString s.
(** [s.rsplit(")", 1)[-1]]. *)
Definition after_last_paren (s : string) : string := List.last (split_on ")" s) EmptyString.
(** [int(s)] of decimal digits with an optional sign. *)
Definition parse_int (s : string) : res exc Z :=
  let '(neg, ds) := match s with
    | String c s' => if Ascii.eqb c "-" then (true, s') else if Ascii.eqb c "+" then (false, s') else (false, s)
    | EmptyString => (false, s)
    end in
  match span_digits ds with
  | (d, EmptyString) => if truthy d then Ok (if neg then - Z.of_N (digits_val d) else Z.of_N (digits_val d))%Z else Err ValueError
  | _ => Err ValueError
  end.
Definition parse_start_ticks (stat_line : string) : res exc Z :=
  match nth_error (split_ws (after_last_paren stat_line)) 19 with
  | Some f => parse_int f
  | None => Err ValueError
  end.

Example stat_ticks : parse_start_ticks
  "42 (a b) c) S 1 42 42 0 -1 4194560 99 0 0 0 1 2 0 0 20 0 1 0 987654 2 3" = Ok 987654%Z.
Proof. vm_compute. reflexivity. Qed.

(** *** Identities *)
Definition classify_identity (registered : Process) (observed : ProcessIdentity) : string :=
  if negb (ostr_eqb (p_boot_id registered) (pi_boot_id observed)) then IDENTITY_BOOT_CHANGED
  else if (p_pid registered =? pi_pid observed)%Z
          && bool_decide (p_process_start_ticks registered = pi_process_start_ticks observed) then IDENTITY_SAME
  else if (p_pid registered =? pi_pid observed)%Z then IDENTITY_PID_REUSE
  else IDENTITY_BOOT_CHANGED.
Definition is_terminally_dead (registration : Process) : bool :=
  String.eqb (p_status registration) PROCESS_STATUS_TERMINAL && is_some (p_terminal_at registration).

(** Compact JSON with escapes, at most 4096 characters. *)
Fixpoint enc_compact (v : pyval) : string :=
  match v with
  | PList l | PTuple l => "[" ++ join "," (map enc_compact l) ++ "]"
  | PDict d =>
      "{" ++ join "," (map (fun kt : pykey * string => key_text (fst kt) ++ ":" ++ snd kt)
                         (sort_items (map (fun kv => (fst kv, enc_compact (snd kv))) d))) ++ "}"
  | v => enc v
  end.
Definition _bounded_json (v : pyval) : option string :=
  match v with
  | PDict [] => None
  | PDict d =>
      if serializable v then
        let text := enc_compact v in
        if Nat.ltb 4096 (String.length text) then None else Some text
      else None
  | _ => None
  end.

Section Processes.
Context {env : Env} {penv : ProcEnv}.

(** The moment at which the outside world is asked. *)
Definition moment : jcmd nat := gets (fun s => st_ticks (js_core s)).
Definition boot_id : jcmd (option string) :=
  n ← moment;
  mret match boot_id_text n with Some v => if blank v then None else Some (strip v) | None => None end.
Definition process_start_ticks (pid : Z) : jcmd (option Z) :=
  n ← moment;
  match stat_text n pid with
  | None => mret None
  | Some line => t ← lift (parse_start_ticks line); mret (Some t)
  end.
(** [ProcessIdentityProvider.current]. *)
Definition current_identity (pid : Z) : jcmd ProcessIdentity :=
  ticks ← process_start_ticks pid;
  boot ← boot_id;
  mret (mkProcessIdentity boot pid ticks).

(** *** The table *)
Definition _insert_process_registration (row : Process) : jcmd unit := jinsert jt_processes row.
Definition is_process (process_id : string) (p : Process) : bool := String.eqb (p_process_id p) process_id.
Definition process_of (process_id : string) (t : JT) : option Process := by_id p_process_id process_id (jt_processes t).
Definition get_process_registration (process_id : string) : jcmd (option Process) := jquery (process_of process_id).
Definition get_process_registration_for_dispatch (dispatch_id : string) : jcmd (option Process) :=
  jquery (fun t => last (List.filter (fun p => ostr_eqb (p_dispatch_id p) (Some dispatch_id)) (jt_processes t))).
Definition processes_of (job_id : option string) (t : JT) : list Process :=
  match job_id with
  | None => jt_processes t
  | Some j => List.filter (fun p => String.eqb (p_job_id p) j) (jt_processes t)
  end.
Definition list_process_registrations (job_id : option string) : jcmd (list Process) := jquery (processes_of job_id).
(** [UPDATE process_registry SET ... WHERE process_id = ?]. *)
Definition _update_process_registration (process_id : string) (fields : Process -> Process) : jcmd nat :=
  jupdate jt_processes (is_process process_id) fields.
Definition terminal_row (exit_code : option Z) (terminal_at : string) (p : Process) : Process :=
  p <| p_status := PROCESS_STATUS_TERMINAL |> <| p_exit_code := exit_code |> <| p_terminal_at := Some terminal_at |>
    <| p_last_observed_at := Some terminal_at |>.
Definition _mark_process_terminal (process_id : string) (exit_code : option Z) (terminal_at : string) : jcmd nat :=
  _update_process_registration process_id (terminal_row exit_code terminal_at).
Definition mark_process_terminal_with_evidence (process_id : string) (exit_code : option Z) (terminal_at : string)
    (termination_class : option string) (timed_out : bool) (scope_events : option string) : jcmd nat :=
  existing ← get_process_registration process_id;
  if match existing with Some p => String.eqb (p_status p) PROCESS_STATUS_TERMINAL | None => false end then mret 0
  else _update_process_registration process_id (fun p =>
    terminal_row exit_code terminal_at p <| p_termination_class := termination_class |>
      <| p_timed_out := if timed_out then 1%Z else 0%Z |> <| p_scope_events := scope_events |>).

(** [ProcessRegistry]. *)
Definition register (process_id : option string) (job_id : string) (dispatch_id : option string) (identity : ProcessIdentity)
    (status : string) (cgroup_ref scope_ref resource_class policy_version : option string) (effective_limits : pyval)
    (termination_class : option string) (timed_out : bool) (scope_events : pyval) : jcmd Process :=
  _ ← raise_unless (str_in status ALLOWED_PROCESS_STATUSES) ValueError;
  let status := if is_known identity then status else PROCESS_STATUS_UNKNOWN in
  now ← jnow_iso;
  pid ← match process_id with
        | Some p => if truthy p then mret p else u ← on_core uuid; mret ("proc:" ++ u)
        | None => u ← on_core uuid; mret ("proc:" ++ u)
        end;
  let row := mkProcess pid job_id dispatch_id (pi_pid identity) (pi_boot_id identity) (pi_process_start_ticks identity)
    cgroup_ref scope_ref resource_class policy_version (_bounded_json effective_limits) termination_class
    (if timed_out then 1%Z else 0%Z) (_bounded_json scope_events) status now (Some now) None None in
  _ ← _insert_process_registration row;
  mret row.
Definition mark_terminal (process_id : string) (exit_code : option Z) (terminal_at : string)
    (termination_class : option string) (timed_out : bool) (scope_events : pyval) : jcmd nat :=
  mark_process_terminal_with_evidence process_id exit_code terminal_at termination_class timed_out (_bounded_json scope_events).
End Processes.
