(* ===== verification/Workspace.v ===== *)
(** * Workspace: the write broker and the workspace hashes
    (src/argent_core/workspace_broker.py and [WorkspaceHashProvider] of
    src/argent_core/supervisor.py).

    A file system is a finite map from absolute paths to nodes.  What resolves symbolic
    links is a parameter ([FsEnv]); the string functions of os.path, the strict base64
    decoder, the plan of a patch set, its execution with the guard around every effect
    and the roll back are modelled.  Failures of the device (no space, I/O errors) are not.
    A patch set is all or nothing, and its effect is the one the hashes predict. *)
From stdpp Require Import gmap strings sorting.
From S2P Require Import Prelude PyVal Models Json Canonical Timestamps Trust Concurrency.
#[local] Open Scope string_scope.

Definition CONTROLLER_SOURCE : string := "role:lead".
Definition _HOME_DENY_SUFFIXES : list string := [".openclaw"; ".ssh"; ".config"; ".npm-global"].
Definition _ABSOLUTE_DENY_PREFIXES : list string := ["/etc"; "/mnt"; "/proc"; "/sys"; "/dev"; "/run"].
(** The words of [CONTENT_DENYLIST], longest first. *)
Definition CONTENT_DENYLIST : list string :=
  ["email_address"; "mail_content"; "mail_address"; "credential"; "recipient"; "password"; "api_key"; "secret"].

(** *** Nodes *)
Inductive node_kind : Type := Regular | Symlink | Directory | Special.
#[export] Instance node_kind_eq_dec : EqDecision node_kind.
Proof. solve_decision. Defined.
(** A node with the permission bits of its mode (st_mode & 0o7777). *)
Record node : Type := mkNode {
  n_kind : node_kind;
  n_content : string;
  n_mode : Z;
  n_nlink : Z
}.
#[export] Instance node_eta : EtaExpand node := fun x => mkNode (n_kind x) (n_content x) (n_mode x) (n_nlink x).
Notation FS := (gmap string node).
Definition S_ISREG (n : node) : bool := bool_decide (n_kind n = Regular).
Definition S_ISLNK (n : node) : bool := bool_decide (n_kind n = Symlink).
Definition setuid_setgid (n : node) : bool := negb (Z.land (n_mode n) 3072 =? 0)%Z.

Class FsEnv : Type := {
  realpath : FS -> string -> string;
  cwd : string;
  home : string;
  staging_id : nat -> string
}.

(** *** os.path *)
Definition isabs (p : string) : bool := String.prefix "/" p.
Definition ends_slash (p : string) : bool := String.prefix "/" (string_rev p).
Definition path_join (a b : string) : string :=
  if isabs b then b else if negb (truthy a) || ends_slash a then a ++ b else a ++ "/" ++ b.
(** One component of [os.path.normpath]; the components so far are kept reversed. *)
Definition norm_comp (slashes : bool) (acc : list string) (comp : string) : list string :=
  if String.eqb comp "" || String.eqb comp "." then acc
  else if negb (String.eqb comp "..") || (negb slashes && bool_decide (acc = [])) || ostr_eqb (head acc) (Some "..")
  then comp :: acc
  else tl acc.
Definition initial_slashes (p : string) : string :=
  if String.prefix "//" p && negb (String.prefix "///" p) then "//" else if isabs p then "/" else "".
Definition normpath (p : string) : string :=
  if negb (truthy p) then "." else
  let s := initial_slashes p in
  let r := s ++ join "/" (rev (fold_left (norm_comp (truthy s)) (split_on "/" p) [])) in
  if truthy r then r else ".".
Definition dirname (p : string) : string :=
  let comps := removelast (split_on "/" p) in
  let head := join "/" comps in
  if bool_decide (Forall (fun c => c = "") comps) then if bool_decide (comps = []) then "" else head ++ "/"
  else rstrip_char "/" head.
(** [path == root or path.startswith(root + os.sep)]. *)
Definition _within (root path : string) : bool := String.eqb path root || String.prefix (root ++ "/") path.
Fixpoint drop_common (a b : list string) : list string * list string :=
  match a, b with
  | x :: a', y :: b' => if String.eqb x y then drop_common a' b' else (a, b)
  | _, _ => (a, b)
  end.
Definition comps_of (p : string) : list string := List.filter truthy (split_on "/" p).

Section Paths.
Context {fenv : FsEnv}.
Definition abspath (p : string) : string := normpath (if isabs p then p else path_join cwd p).
(** [os.path.relpath(target, root)]. *)
Definition _relpath (root target : string) : string :=
  let (up, down) := drop_common (comps_of (abspath root)) (comps_of (abspath target)) in
  let rel := (map (fun _ => "..") up ++ down)%list in
  if bool_decide (rel = []) then "." else join "/" rel.
End Paths.

(** *** Base64 *)
Definition b64_value (c : ascii) : option N :=
  let n := N_of_ascii c in
  if (65 <=? n)%N && (n <=? 90)%N then Some (n - 65)%N
  else if (97 <=? n)%N && (n <=? 122)%N then Some (n - 71)%N
  else if (48 <=? n)%N && (n <=? 57)%N then Some (n + 4)%N
  else if Ascii.eqb c "+" then Some 62%N
  else if Ascii.eqb c "/" then Some 63%N
  else None.
(** [base64.b64decode(raw, validate=True)]: four characters at a time, padding at the end only. *)
Fixpoint b64decode (s : string) : option string :=
  match s with
  | EmptyString => Some EmptyString
  | String a (String b (String c (String d rest))) =>
      match b64_value a, b64_value b with
      | Some x, Some y =>
          let first := ascii_of_N (x * 4 + y / 16) in
          match b64_value c, b64_value d with
          | Some z, Some w =>
              t ← b64decode rest;
              Some (String first (String (ascii_of_N ((y mod 16) * 16 + z / 4)) (String (ascii_of_N ((z mod 4) * 64 + w)) t)))
          | Some z, None =>
              if Ascii.eqb d "=" && negb (truthy rest)
              then Some (String first (String (ascii_of_N ((y mod 16) * 16 + z / 4)) EmptyString)) else None
          | None, None =>
              if Ascii.eqb c "=" && Ascii.eqb d "=" && negb (truthy rest) then Some (String first EmptyString) else None
          | None, Some _ => None
          end
      | _, _ => None
      end
  | _ => None
  end.
Example b64_sample : (b64decode "YXJnZW50", b64decode "YQ==", b64decode "YWI=", b64decode "YQ=", b64decode "Y=Q=")
  = (Some "argent", Some "a", Some "ab", None, None).
Proof. reflexivity. Qed.
(** [content.decode("utf-8", errors="replace").lower()] as far as an ASCII word can tell:
    the Kelvin sign (bytes 226 132 170) is the only other character that lowers to ASCII. *)
Fixpoint kelvin (s : string) : string :=
  match s with
  | String a ((String b (String c rest)) as t) =>
      if (N_of_ascii a =? 226)%N && (N_of_ascii b =? 132)%N && (N_of_ascii c =? 170)%N
      then String "k" (kelvin rest) else String a (kelvin t)
  | String a t => String a (kelvin t)
  | EmptyString => EmptyString
  end.
Definition _content_hit (content : string) : option string :=
  find (fun w => contains w (lower (kelvin content))) CONTENT_DENYLIST.

(** *** The broker *)
Inductive bexc : Type :=
| Hardening (reason : string)
| Escapes (e : exc).
Inductive patch_plan : Type :=
| PWrite (target content : string)
| PDelete (target : string)
| PSkip (target : string).
Record patch_error : Type := mkPatchError { pe_op : pyval; pe_path : pyval; pe_error : string }.
(** The operations applied and skipped, by relative path, and the errors. *)
Record BrokerResult : Type := mkBrokerResult {
  br_applied : list (string * string);
  br_skipped : list string;
  br_errors : list patch_error
}.
(** The file system, the role violations emitted, how often the guard was asked and how
    many staging names were drawn. *)
Record BrSt : Type := mkBrSt {
  bs_fs : FS;
  bs_violations : list (string * string);
  bs_guards : nat;
  bs_staged : nat
}.
#[export] Instance BrSt_eta : EtaExpand BrSt := fun x => mkBrSt (bs_fs x) (bs_violations x) (bs_guards x) (bs_staged x).
Notation bcmd := (M BrSt bexc).

(** *** The file system calls *)
Inductive lstat_result : Type := Found (n : node) | NoEntry | NotDir.
Fixpoint prefixes {A} (l : list A) : list (list A) :=
  match l with [] => [[]] | x :: l' => [] :: map (cons x) (prefixes l') end.
(** The proper ancestors of an absolute path below the root directory. *)
Definition ancestors (p : string) : list string :=
  map (fun l => "/" ++ join "/" l) (List.filter (fun l => negb (bool_decide (l = []))) (removelast (prefixes (comps_of p)))).
Definition not_a_directory (fs : FS) (p : string) : bool :=
  match fs !! p with Some n => negb (bool_decide (n_kind n = Directory)) | None => false end.
Definition lstat (fs : FS) (p : string) : lstat_result :=
  match fs !! p with
  | Some n => Found n
  | None => if existsb (not_a_directory fs) (ancestors p) then NotDir else NoEntry
  end.
(** errno of opening a new file in a directory: ENOENT, ENOTDIR or none. *)
Definition open_errno (fs : FS) (parent : string) : option Z :=
  match lstat fs parent with
  | Found n => if bool_decide (n_kind n = Directory) then None else Some 20%Z
  | NoEntry => Some 2%Z
  | NotDir => Some 20%Z
  end.

Section Broker.
Context {fenv : FsEnv} (guard : option (nat -> res exc unit)).

Definition deny_paths (fs : FS) : list string :=
  map (fun p => if isabs p then realpath fs p else normpath p)
    (map (path_join (realpath fs home)) _HOME_DENY_SUFFIXES ++ _ABSOLUTE_DENY_PREFIXES).
Context (deny : list string).
Definition _is_denied_path (real : string) : bool := existsb (fun dp => _within dp real) deny.

(** [os.path.islink]: the parents are followed, the last component is not. *)
Definition islink (fs : FS) (p : string) : bool :=
  match fs !! path_join (realpath fs (dirname p)) (List.last (split_on "/" p) "") with Some n => S_ISLNK n | None => false end.
Definition hardened {A} (reason : string) : bcmd A := raise (Hardening reason).
Definition escape {A} (e : exc) : bcmd A := raise (Escapes e).
Definition fs_now : bcmd FS := gets bs_fs.
Definition _recheck_writer_guard : bcmd unit :=
  match guard with
  | None => mret tt
  | Some g =>
      n ← gets bs_guards;
      _ ← modify (fun s => s <| bs_guards ::= S |>);
      match g n with Ok _ => mret tt | Err e => escape e end
  end.
Definition _allowed_root (fs : FS) (scope_root : string) (role : Role) : bcmd string :=
  let root := realpath fs (abspath scope_root) in
  match role with
  | IMPLEMENTER => mret root
  | QA => mret (realpath fs (path_join root "tests"))
  | _ => escape PermissionDenied
  end.
Definition _resolve_target (fs : FS) (scope_root path : string) : string + string :=
  if isabs path then inl "absolute_path" else inr (realpath fs (normpath (path_join scope_root path))).
Definition errno_text (n : Z) : string := z_text n.
Definition _check_target_type (fs : FS) (target : string) : option string :=
  match lstat fs target with
  | NoEntry => None
  | NotDir => Some ("lstat_failed:" ++ errno_text 20)
  | Found n => if S_ISLNK n then Some "symlink_target" else if negb (S_ISREG n) then Some "special_file"
               else if setuid_setgid n then Some "setuid_setgid" else None
  end.

(** *** Planning *)
Definition _plan_patch (scope_root allowed_root : string) (role : Role) (patch : pyval) : bcmd (patch_plan + patch_error) :=
  match patch with
  | PDict d =>
      let op := default PNone (dget d "op") in
      let path := default PNone (dget d "path") in
      let bad (reason : string) : bcmd (patch_plan + patch_error) := mret (inr (mkPatchError op path reason)) in
      if negb (is_str op "write" || is_str op "delete") then bad "bad_op" else
      match path with
      | PStr p =>
          if negb (truthy p) then bad "bad_path" else
          fs ← fs_now;
          match _resolve_target fs scope_root p with
          | inl reason => bad reason
          | inr real =>
              if _is_denied_path real then bad "deny_path" else
              if negb (_within allowed_root real) then
                _ ← (if bool_decide (role = QA)
                     then modify (fun s => s <| bs_violations ::= (fun l => l ++ [(if is_str op "write" then "write" else "delete", p)])%list |>)
                     else mret tt);
                bad "scope_denied"
              else if islink fs (normpath (path_join scope_root p)) then bad "symlink_target" else
              if is_str op "write" then
                match dget d "content" with
                | Some (PStr raw) =>
                    match b64decode raw with
                    | None => bad "bad_content"
                    | Some content =>
                        match _content_hit content, _check_target_type fs real with
                        | Some _, _ => bad "content_denylist"
                        | None, Some reason => bad reason
                        | None, None => mret (inl (PWrite real content))
                        end
                    end
                | _ => bad "bad_content"
                end
              else
                match lstat fs real with
                | NoEntry => mret (inl (PSkip real))
                | NotDir => escape OSError
                | Found n => if negb (S_ISREG n) then bad "not_regular_file" else mret (inl (PDelete real))
                end
          end
      | _ => bad "bad_path"
      end
  | _ => mret (inr (mkPatchError PNone PNone "malformed_patch"))
  end.
Fixpoint plan_all (scope_root allowed_root : string) (role : Role) (patches : list pyval) : bcmd (list patch_plan * list patch_error) :=
  match patches with
  | [] => mret ([], [])
  | p :: rest =>
      r ← _plan_patch scope_root allowed_root role p;
      rs ← plan_all scope_root allowed_root role rest;
      mret match r with inl x => (x :: fst rs, snd rs) | inr e => (fst rs, e :: snd rs) end
  end.

(** *** Effects *)
Definition STAGING_MODE : Z := 384.
(** [finally: if staging is not None: os.unlink(staging)]. *)
Definition unstaged {A} (staging : string) (m : bcmd A) : bcmd A := fun s =>
  match m s with
  | (Ok a, s') => (Ok a, s')
  | (Err e, s') => (Err e, s' <| bs_fs ::= delete staging |>)
  end.
Definition verify_replaced (target : string) : bcmd unit :=
  fs ← fs_now;
  match lstat fs target with
  | Found n => if negb (S_ISREG n) then hardened "special_file" else if setuid_setgid n then hardened "setuid_setgid"
               else if negb (n_nlink n =? 1)%Z then hardened "hardlink" else mret tt
  | _ => escape OSError
  end.
Definition replace_target (allowed_root staging target : string) : bcmd unit :=
  _ ← _recheck_writer_guard;
  fs ← fs_now;
  let re_real := realpath fs target in
  if negb (_within allowed_root re_real) then hardened "scope_denied" else
  if _is_denied_path re_real then hardened "deny_path" else
  match _check_target_type fs target, fs !! staging with
  | Some reason, _ => hardened reason
  | None, Some n => modify (fun s => s <| bs_fs := <[target := n]> (delete staging fs) |>)
  | None, None => escape OSError
  end.
Definition _write_file (allowed_root target content : string) : bcmd unit :=
  fs ← fs_now;
  let parent := dirname target in
  if negb (_within allowed_root (realpath fs parent)) then hardened "scope_denied" else
  _ ← _recheck_writer_guard;
  k ← gets bs_staged;
  _ ← modify (fun s => s <| bs_staged ::= S |>);
  let staging := path_join parent (".argent-staging-" ++ staging_id k) in
  match open_errno fs parent with
  | Some errno => hardened ("staging_failed:" ++ errno_text errno)
  | None =>
      match fs !! staging with
      | Some _ => hardened "staging_exists"
      | None =>
          _ ← modify (fun s => s <| bs_fs := <[staging := mkNode Regular content STAGING_MODE 1]> fs |>);
          _ ← unstaged staging (replace_target allowed_root staging target);
          _ ← _recheck_writer_guard;
          verify_replaced target
      end
  end.
Definition _delete_file (allowed_root target : string) : bcmd unit :=
  fs ← fs_now;
  if negb (_within allowed_root (realpath fs (dirname target))) then hardened "scope_denied" else
  if negb (_within allowed_root (realpath fs target)) then hardened "scope_denied" else
  match lstat fs target with
  | Found n =>
      if negb (S_ISREG n) then hardened "not_regular_file" else
      _ ← _recheck_writer_guard;
      _ ← modify (fun s => s <| bs_fs := delete target fs |>);
      _recheck_writer_guard
  | _ => escape OSError
  end.

(** *** Snapshot and roll back *)
Definition _snapshot (fs : FS) (target : string) : option (string * Z) :=
  match lstat fs target with
  | Found n => if S_ISREG n then Some (n_content n, n_mode n) else None
  | _ => None
  end.
(** Best effort: what cannot be unlinked or opened is left. *)
Definition _restore (fs : FS) (target : string) (snapshot : option (string * Z)) : FS :=
  match snapshot, fs !! target with
  | None, Some n => if bool_decide (n_kind n = Directory) then fs else delete target fs
  | None, None => fs
  | Some (data, mode), Some n => if S_ISREG n then <[target := n <| n_content := data |> <| n_mode := mode |>]> fs else fs
  | Some (data, mode), None =>
      match open_errno fs (dirname target) with None => <[target := mkNode Regular data mode 1]> fs | Some _ => fs end
  end.
(** The operation, its target and its effect; nothing for a skip. *)
Definition plan_op (p : patch_plan) : string := match p with PWrite _ _ => "write" | PDelete _ => "delete" | PSkip _ => "skip" end.
Definition plan_target (p : patch_plan) : string := match p with PWrite t _ | PDelete t | PSkip t => t end.
Definition execute (allowed_root : string) (p : patch_plan) : bcmd unit :=
  match p with
  | PWrite t c => _write_file allowed_root t c
  | PDelete t => _delete_file allowed_root t
  | PSkip _ => mret tt
  end.
(** The applied targets with their snapshots, the newest first. *)
Definition rollback_all (applied : list (string * option (string * Z))) (fs : FS) : FS :=
  fold_left (fun fs x => _restore fs (fst x) (snd x)) applied fs.
(** [except BrokerError]: the reason of a hardening violation. *)
Definition hardening (m : bcmd unit) : bcmd (option string) := fun s =>
  match m s with
  | (Ok _, s') => (Ok None, s')
  | (Err (Hardening reason), s') => (Ok (Some reason), s')
  | (Err (Escapes e), s') => (Err (Escapes e), s')
  end.
Fixpoint run_plans (allowed_root : string) (plans : list patch_plan) (applied : list (string * option (string * Z)))
    (res : BrokerResult) : bcmd BrokerResult :=
  match plans with
  | [] => mret res
  | p :: rest =>
      fs ← fs_now;
      let t := plan_target p in
      let snapshot := _snapshot fs t in
      let rel := _relpath allowed_root t in
      r ← hardening (execute allowed_root p);
      match r, p with
      | Some reason, _ =>
          _ ← modify (fun s => s <| bs_fs ::= rollback_all applied |>);
          mret (mkBrokerResult [] [] [mkPatchError (PStr (plan_op p)) (PStr rel) reason])
      | None, PSkip _ => run_plans allowed_root rest applied (mkBrokerResult (br_applied res) (br_skipped res ++ [rel]) (br_errors res))
      | None, _ =>
          run_plans allowed_root rest ((t, snapshot) :: applied)
            (mkBrokerResult (br_applied res ++ [(plan_op p, rel)]) (br_skipped res) (br_errors res))
      end
  end.
Definition apply_patch_set (scope_root : string) (patch_set : list pyval) (role : Role) (source : string) : bcmd BrokerResult :=
  if negb (String.eqb source CONTROLLER_SOURCE) then escape PermissionDenied else
  fs ← fs_now;
  root ← _allowed_root fs scope_root role;
  _ ← _recheck_writer_guard;
  planned ← plan_all scope_root root role patch_set;
  if bool_decide (snd planned = []) then run_plans root (fst planned) [] (mkBrokerResult [] [] [])
  else mret (mkBrokerResult [] [] (snd planned)).
End Broker.

(** *** The workspace hashes *)
(** [sorted] of lists of strings and of strings. *)
Fixpoint comps_leb (a b : list string) : bool :=
  match a, b with
  | [], _ => true
  | _, [] => false
  | x :: a', y :: b' => if String.eqb x y then comps_leb a' b' else str_ltb x y
  end.
(** The order of pathlib: component by component. *)
Definition path_leb (a b : string * string) : bool := comps_leb (split_on "/" (fst a)) (split_on "/" (fst b)).
(** The order of the relative paths as texts. *)
Definition text_leb (a b : string * string) : bool := str_leb (fst a) (fst b).
Fixpoint hex (s : string) : string :=
  match s with
  | EmptyString => EmptyString
  | String c t => String (hex_char (N_of_ascii c / 16)) (String (hex_char (N_of_ascii c mod 16)) (hex t))
  end.
Definition hash_part (f : string * string) : string := fst f ++ ":" ++ sha256_hex (hex (snd f)).
Definition hash_files (l : list (string * string)) : string := sha256_hex (utf8 (join (String "010" EmptyString) (map hash_part l))).

Section Hashes.
Context {fenv : FsEnv}.
(** The entry read through symbolic links, when it is a file. *)
Definition file_at (fs : FS) (p : string) : option string :=
  match fs !! realpath fs p with Some n => if S_ISREG n then Some (n_content n) else None | None => None end.
(** The path below the root of an entry of the tree. *)
Fixpoint strip_prefix (pre s : string) : option string :=
  match pre, s with
  | EmptyString, _ => Some s
  | String a p, String b t => if Ascii.eqb a b then strip_prefix p t else None
  | _, EmptyString => None
  end.
Definition below (root p : string) : option string := strip_prefix (root ++ "/") p.
Definition tree_entry (fs : FS) (root p : string) : option (string * string) :=
  match below root p, file_at fs p with Some rel, Some c => Some (rel, c) | _, _ => None end.
(** The files of the tree with their contents ([rglob] and [is_file]). *)
Definition tree (fs : FS) (scope_root : string) : list (string * string) :=
  omap (fun x => tree_entry fs (realpath fs (abspath scope_root)) (fst x)) (map_to_list fs).
Definition scoped_hash (fs : FS) (scope_root : string) : string := hash_files (sort_by path_leb (tree fs scope_root)).
(** The effect of one patch on the contents. *)
Definition predict (patch : pyval) (files : gmap string string) : gmap string string :=
  match patch with
  | PDict d =>
      match dget d "path" with
      | Some (PStr p) =>
          if isabs p then files else
          let key := normpath p in
          if is_str (dget0 d "op") "write" then
            match dget d "content" with
            | Some (PStr raw) => match b64decode raw with Some c => <[key := c]> files | None => files end
            | _ => files
            end
          else if is_str (dget0 d "op") "delete" then delete key files else files
      | _ => files
      end
  | _ => files
  end.
Definition predicted_hash (fs : FS) (scope_root : string) (patch_set : list pyval) : string :=
  hash_files (sort_by text_leb
    (map_to_list (fold_left (fun files p => predict p files) patch_set (list_to_map (tree fs scope_root))))).
End Hashes.

(** ** All or nothing *)
(** What a reader sees of a node: everything but its link count. *)
Definition visible (fs : FS) (p : string) : option (node_kind * string * Z) :=
  (fun n => (n_kind n, n_content n, n_mode n)) <$> fs !! p.
Definition same_files (fs fs' : FS) : Prop := forall p, visible fs' p = visible fs p.
#[export] Instance same_files_equiv : Equivalence same_files.
Proof. split; [done | intros a b H p; by rewrite H | intros a b c H1 H2 p; by rewrite H2, H1]. Qed.
(** Every file lies in a directory. *)
Definition directory (fs : FS) (p : string) : Prop := exists n, fs !! p = Some n /\ n_kind n = Directory.
Definition wf_fs (fs : FS) : Prop := forall p n, fs !! p = Some n -> n_kind n = Regular -> directory fs (dirname p).

Lemma kind_same fs fs' p : same_files fs fs' -> n_kind <$> fs' !! p = n_kind <$> fs !! p.
Proof. intros H. specialize (H p). unfold visible in H. destruct (fs' !! p), (fs !! p); cbn in *; congruence. Qed.
Lemma directory_same fs fs' p : same_files fs fs' -> directory fs p -> directory fs' p.
Proof.
  intros H (n & E & K). pose proof (kind_same _ _ p H) as F. rewrite E in F. cbn in F.
  destruct (fs' !! p) as [m|] eqn:E'; [|done]. exists m. split; [done|]. cbn in F. congruence.
Qed.
Lemma wf_same fs fs' : same_files fs fs' -> wf_fs fs -> wf_fs fs'.
Proof.
  intros H W p n E K. pose proof (kind_same _ _ p H) as F. rewrite E in F. cbn in F.
  destruct (fs !! p) as [m|] eqn:E'; [|done]. apply (directory_same fs); [done|]. eapply W; [exact E'|]. cbn in F. congruence.
Qed.
Lemma open_directory fs p : open_errno fs p = None <-> directory fs p.
Proof.
  unfold open_errno, lstat, directory. destruct (fs !! p) as [n|].
  - case_bool_decide as K; split; [eauto | done | done |]. intros (m & [= ->] & Km). done.
  - split; [by destruct (existsb _ _)|]. by intros (m & [=] & _).
Qed.
Lemma restore_same fs fs' t snap : same_files fs fs' -> same_files (_restore fs t snap) (_restore fs' t snap).
Proof.
  intros H p. pose proof (kind_same _ _ t H) as K. pose proof (H p) as Hp. unfold _restore.
  destruct snap as [[data mode]|]; destruct (fs !! t) as [n|] eqn:E, (fs' !! t) as [n'|] eqn:E'; cbn in K; try discriminate K.
  - injection K as K. unfold S_ISREG. rewrite K. case_bool_decide; [|done]. unfold visible.
    destruct (decide (p = t)) as [->|N]; [rewrite !lookup_insert_eq; cbn; by rewrite K | by rewrite !lookup_insert_ne].
  - assert (D : open_errno fs' (dirname t) = None <-> open_errno fs (dirname t) = None).
    { rewrite !open_directory. split; apply directory_same; [symmetry|]; done. }
    destruct (open_errno fs' (dirname t)), (open_errno fs (dirname t)); try (exfalso; intuition congruence); [done|].
    unfold visible. destruct (decide (p = t)) as [->|N]; [by rewrite !lookup_insert_eq | by rewrite !lookup_insert_ne].
  - injection K as K. rewrite K. case_bool_decide; [done|]. unfold visible.
    destruct (decide (p = t)) as [->|N]; [by rewrite !lookup_delete_eq | by rewrite !lookup_delete_ne].
  - done.
Qed.
Lemma rollback_same applied fs fs' : same_files fs fs' -> same_files (rollback_all applied fs) (rollback_all applied fs').
Proof. revert fs fs'. unfold rollback_all. induction applied as [|x l IH]; intros fs fs' H; cbn; [done|]. by apply IH, restore_same. Qed.

Lemma b_bind {A B} (m : bcmd A) (k : A -> bcmd B) s r s' : (x ← m; k x) s = (r, s') ->
  (exists a s1, m s = (Ok a, s1) /\ k a s1 = (r, s')) \/ (exists e, m s = (Err e, s') /\ r = Err e).
Proof. unfold mbind, M_bind. destruct (m s) as [[a|e] s1]; [eauto|]. intros [= <- <-]. eauto. Qed.

Section AllOrNothing.
Context {fenv : FsEnv} (guard : option (nat -> res exc unit)) (deny : list string).

Definition is_hard {A} (r : res bexc A) : Prop := match r with Err (Escapes _) => False | _ => True end.
Lemma recheck_fs s r s' : _recheck_writer_guard guard s = (r, s') -> bs_fs s' = bs_fs s /\ (is_hard r -> r = Ok tt).
Proof.
  unfold _recheck_writer_guard. destruct guard as [g|]; [|by intros [= <- <-]].
  intros [(n & s1 & [= <- <-] & H)|(e & [=] & _)]%b_bind. apply b_bind in H as [(u & s1 & [= <- <-] & H)|(e & [=] & _)].
  destruct (g (bs_guards s)) as [[]|e]; injection H as <- <-; split; [done | done | done | intros []].
Qed.

(** A write that succeeds is one insertion; one that a hardening check refuses left no trace. *)
Definition new_file (content : string) : node := mkNode Regular content STAGING_MODE 1.
Lemma replace_ok root staging target content fs s r s' : fs !! staging = None ->
  bs_fs s = <[staging := new_file content]> fs -> replace_target guard deny root staging target s = (r, s') ->
  match r with
  | Ok _ => bs_fs s' = <[target := new_file content]> fs /\ (forall n, fs !! target = Some n -> n_kind n = Regular)
  | Err _ => bs_fs s' = bs_fs s
  end.
Proof.
  intros F E H. unfold replace_target in H. apply b_bind in H as [(u & s1 & G & H)|(e & G & ->)]; apply recheck_fs in G as [G _]; [|exact G].
  apply b_bind in H as [(x & s2 & [= <- <-] & H)|(e & [=] & _)].
  destruct (negb (_within root _)); [injection H as <- <-; exact G|]. destruct (_is_denied_path _ _); [injection H as <- <-; exact G|].
  rewrite G, E in H. destruct (_check_target_type (<[staging:=new_file content]> fs) target) as [reason|] eqn:T; [injection H as <- <-; by rewrite G, E|].
  rewrite lookup_insert_eq in H. injection H as <- <-. cbn. split.
  - destruct (decide (staging = target)) as [->|N]; [by rewrite insert_delete_eq, insert_insert_eq|]. by rewrite delete_insert_id.
  - intros n N. unfold _check_target_type, lstat in T. destruct (decide (staging = target)) as [->|D]; [congruence|].
    rewrite lookup_insert_ne, N in T by done. unfold S_ISLNK, S_ISREG in T. destruct (n_kind n); done.
Qed.

Definition step_fs (p : patch_plan) (fs : FS) : FS :=
  match p with PWrite t c => <[t := new_file c]> fs | PDelete t => delete t fs | PSkip _ => fs end.
(** The target of a write is a file or absent, the target of a deletion is a file. *)
Definition replaceable (p : patch_plan) (fs : FS) : Prop :=
  match p with
  | PWrite t _ => directory fs (dirname t) /\ forall n, fs !! t = Some n -> n_kind n = Regular
  | PDelete t => exists n, fs !! t = Some n /\ n_kind n = Regular
  | PSkip _ => True
  end.
Definition step_spec (p : patch_plan) (s : BrSt) (r : res bexc unit) (s' : BrSt) : Prop :=
  match r with
  | Ok _ => bs_fs s' = step_fs p (bs_fs s) /\ replaceable p (bs_fs s)
  | Err (Hardening _) => bs_fs s' = bs_fs s
  | Err (Escapes _) => True
  end.
Lemma guarded {A} (k : bcmd A) s r s' (P : res bexc A -> BrSt -> Prop) :
  (_ ← _recheck_writer_guard guard; k) s = (r, s') ->
  (forall s1, bs_fs s1 = bs_fs s -> k s1 = (r, s') -> P r s') -> (forall e, P (Err (Escapes e)) s') -> P r s'.
Proof.
  intros H K E. apply b_bind in H as [(u & s1 & G & H)|(e & G & ->)]; apply recheck_fs in G as [G1 G2]; [by eapply K|].
  destruct e; [|apply E]. discriminate (G2 I).
Qed.
Lemma write_spec root t c s r s' : _write_file guard deny root t c s = (r, s') -> step_spec (PWrite t c) s r s'.
Proof.
  unfold _write_file. intros H0. apply b_bind in H0 as [(fs & s1 & [= <- <-] & H)|(e & [=] & _)].
  destruct (negb _); [by injection H as <- <-|]. eapply (guarded _ _ _ _ (fun r s' => step_spec (PWrite t c) s r s')); [exact H | | done].
  clear H. intros s1 F H. apply b_bind in H as [(k & s2 & [= <- <-] & H)|(e & [=] & _)].
  apply b_bind in H as [(u & s2 & [= _ <-] & H)|(e & [=] & _)].
  destruct (open_errno (bs_fs s) (dirname t)) eqn:O; [by injection H as <- <-|]. apply open_directory in O.
  set (staging := path_join _ _) in H. destruct (bs_fs s !! staging) eqn:E; [by injection H as <- <-|].
  apply b_bind in H as [(u1 & s2 & [= _ <-] & H)|(e & [=] & _)].
  set (s2 := _ <| bs_fs := _ |>) in H. unfold unstaged in H.
  destruct (replace_target guard deny root staging t s2) as [x s4] eqn:R. pose proof R as R0.
  apply (replace_ok root staging t c (bs_fs s)) in R; [|exact E | reflexivity].
  apply b_bind in H as [(u2 & s3 & U & H)|(e & U & ->)].
  - rewrite R0 in U. destruct x as [a|e']; [|done]. injection U as _ <-. destruct R as [R N].
    eapply (guarded _ _ _ _ (fun r s' => step_spec (PWrite t c) s r s')); [exact H | | done].
    intros s5 F5 V. unfold verify_replaced in V. apply b_bind in V as [(fs & s6 & [= <- <-] & V)|(e & [=] & _)].
    rewrite F5, R in V. unfold lstat in V. rewrite lookup_insert_eq in V. cbn in V. injection V as <- <-. cbn. rewrite F5. done.
  - rewrite R0 in U. destruct x as [a|e']; [done|]. injection U as -> <-. destruct e; [|done]. cbn. rewrite R. cbn. by rewrite delete_insert_id.
Qed.
Lemma delete_spec root t s r s' : _delete_file guard root t s = (r, s') -> step_spec (PDelete t) s r s'.
Proof.
  unfold _delete_file. intros H. apply b_bind in H as [(fs & s1 & [= <- <-] & H)|(e & [=] & _)].
  destruct (negb _); [by injection H as <- <-|]. destruct (negb _); [by injection H as <- <-|].
  unfold lstat in H. destruct (bs_fs s !! t) as [n|] eqn:L; [|by destruct (existsb _ _); injection H as <- <-].
  destruct (S_ISREG n) eqn:G; cbn [negb] in H; [|by injection H as <- <-].
  eapply (guarded _ _ _ _ (fun r s' => step_spec (PDelete t) s r s')); [exact H | | done]. clear H. intros s1 F H.
  apply b_bind in H as [(u & s2 & [= _ <-] & H)|(e & [=] & _)]. apply recheck_fs in H as [H1 H2].
  destruct r as [a|[reason|e]]; [|discriminate (H2 I)|done]. cbn in *. rewrite H1. split; [done|].
  exists n. split; [exact L|]. unfold S_ISREG in G. by apply bool_decide_eq_true in G.
Qed.
Lemma execute_spec root p s r s' : execute guard deny root p s = (r, s') -> step_spec p s r s'.
Proof. destruct p; [apply write_spec | apply delete_spec | by intros [= <- <-]]. Qed.

Lemma step_wf p fs : wf_fs fs -> replaceable p fs -> wf_fs (step_fs p fs).
Proof.
  intros W R q n E K. destruct p as [t c|t|t]; cbn in *; [| |by eapply W].
  - destruct R as [(d & D & Kd) R]. assert (X : forall x, directory fs x -> directory (<[t:=new_file c]> fs) x).
    { intros x (m & Em & Km). exists m. split; [|exact Km]. rewrite lookup_insert_ne; [exact Em|]. intros ->. apply R in Em. congruence. }
    destruct (decide (q = t)) as [->|N]; [apply X; by exists d|]. rewrite lookup_insert_ne in E by done. apply X. by eapply W.
  - destruct R as (m & Em & Km). apply lookup_delete_Some in E as [N E]. destruct (W _ _ E K) as (d & D & Kd).
    exists d. split; [|exact Kd]. rewrite lookup_delete_ne; [exact D|]. intros X. rewrite <- X in D. congruence.
Qed.
(** Restoring the snapshot undoes a step. *)
Lemma restore_step p fs : wf_fs fs -> replaceable p fs -> (forall t, p <> PSkip t) ->
  same_files fs (_restore (step_fs p fs) (plan_target p) (_snapshot fs (plan_target p))).
Proof.
  intros W R NS q. destruct p as [t c|t|t]; [| |by destruct (NS t)]; cbn in *.
  - destruct R as [_ R]. unfold _snapshot, lstat. destruct (fs !! t) as [n|] eqn:E.
    + specialize (R n eq_refl). unfold S_ISREG at 1. rewrite R. cbn [bool_decide]. rewrite bool_decide_eq_true_2 by done.
      unfold _restore. rewrite lookup_insert_eq. change (S_ISREG (new_file c)) with true. cbv iota. unfold visible.
      destruct (decide (q = t)) as [->|N].
      * rewrite lookup_insert_eq, E. cbn. by rewrite R.
      * by rewrite !lookup_insert_ne.
    + assert (X : _restore (<[t:=new_file c]> fs) t None = fs).
      { unfold _restore. rewrite lookup_insert_eq. change (bool_decide (n_kind (new_file c) = Directory)) with false. cbv iota. by rewrite delete_insert_id. }
      destruct (existsb _ _); by rewrite X.
  - destruct R as (n & E & K). unfold _snapshot, lstat. rewrite E. unfold S_ISREG. rewrite bool_decide_eq_true_2 by done.
    unfold _restore. rewrite lookup_delete_eq. destruct (W _ _ E K) as (d & D & Kd).
    assert (O : open_errno (delete t fs) (dirname t) = None).
    { apply open_directory. exists d. split; [|exact Kd]. rewrite lookup_delete_ne; [exact D|]. intros X. rewrite <- X in D. congruence. }
    rewrite O. unfold visible. destruct (decide (q = t)) as [->|N].
    + rewrite lookup_insert_eq, E. cbn. by rewrite K.
    + by rewrite lookup_insert_ne, lookup_delete_ne.
Qed.
Definition steps_fs (plans : list patch_plan) (fs : FS) : FS := fold_left (fun fs p => step_fs p fs) plans fs.
Lemma run_spec root plans fs0 applied res s r s' : wf_fs (bs_fs s) -> same_files fs0 (rollback_all applied (bs_fs s)) ->
  br_errors res = [] -> run_plans guard deny root plans applied res s = (Ok r, s') ->
  (br_errors r = [] /\ bs_fs s' = steps_fs plans (bs_fs s)) \/ (br_errors r <> [] /\ same_files fs0 (bs_fs s')).
Proof.
  revert applied res s. induction plans as [|p plans IH]; intros applied res s W U E H; cbn [run_plans] in H.
  { injection H as <- <-. by left. }
  apply b_bind in H as [(fs & s1 & [= <- <-] & H)|(e & [=] & _)]. apply b_bind in H as [(o & s1 & X & H)|(e & _ & [=])].
  unfold hardening in X. destruct (execute guard deny root p s) as [x s2] eqn:R. apply execute_spec in R.
  destruct x as [a|[reason|e]]; [injection X as <- <- | injection X as <- <- | discriminate X].
  - destruct R as [F R]. assert (W2 : wf_fs (bs_fs s2)) by (rewrite F; by apply step_wf).
    assert (K : forall t c, p = PWrite t c \/ p = PDelete t ->
      same_files fs0 (rollback_all ((t, _snapshot (bs_fs s) t) :: applied) (bs_fs s2))).
    { intros t c Q. etrans; [exact U|]. change (rollback_all ((t, _snapshot (bs_fs s) t) :: applied) (bs_fs s2))
        with (rollback_all applied (_restore (bs_fs s2) t (_snapshot (bs_fs s) t))). apply rollback_same. rewrite F.
      destruct Q as [-> | ->]; by apply restore_step. }
    change (steps_fs (p :: plans) (bs_fs s)) with (steps_fs plans (step_fs p (bs_fs s))). rewrite <- F.
    destruct p as [t c|t|t].
    + refine (IH _ _ _ W2 (K t c (or_introl eq_refl)) _ H); exact E.
    + refine (IH _ _ _ W2 (K t "" (or_intror eq_refl)) _ H); exact E.
    + refine (IH _ _ _ W2 _ _ H); [by rewrite F | exact E].
  - right. apply b_bind in H as [(u & s3 & [= _ <-] & H)|(e & [=] & _)]. injection H as <- <-. split; [done|].
    cbn. by rewrite R.
Qed.
Lemma plan_fs scope root role patch s r s' : _plan_patch deny scope root role patch s = (r, s') -> bs_fs s' = bs_fs s.
Proof.
  unfold _plan_patch. destruct patch; try (intros [= _ <-]; done). cbv zeta. destruct (negb _); [by intros [= _ <-]|].
  destruct (default PNone _) as [| | | |p| | | |]; try (intros [= _ <-]; done). destruct (negb _); [by intros [= _ <-]|].
  intros H. apply b_bind in H as [(fs & s1 & [= <- <-] & H)|(e & [=] & _)]. revert H.
  destruct (_resolve_target _ _ _) as [reason|real]; [by intros [= _ <-]|]. destruct (_is_denied_path _ _); [by intros [= _ <-]|].
  destruct (negb _).
  { intros H. apply b_bind in H as [(u & s1 & U & H)|(e & U & _)]; [injection H as _ <-|]; destruct (bool_decide _); by injection U as _ <-. }
  repeat case_match; by intros [= _ <-].
Qed.
Lemma plan_all_fs scope root role patches s r s' : plan_all deny scope root role patches s = (r, s') -> bs_fs s' = bs_fs s.
Proof.
  revert s r s'. induction patches as [|p patches IH]; intros s r s' H; cbn in H; [by injection H as _ <-|].
  apply b_bind in H as [(x & s1 & X & H)|(e & X & _)]; apply plan_fs in X; [|exact X].
  apply b_bind in H as [(y & s2 & Y & H)|(e & Y & _)]; apply IH in Y; [injection H as _ <-|]; congruence.
Qed.
(** What became of a patch set. *)
Lemma patch_set_outcome scope patches role source s r s' : wf_fs (bs_fs s) ->
  apply_patch_set guard deny scope patches role source s = (Ok r, s') ->
  (br_errors r <> [] /\ forall p, visible (bs_fs s') p = visible (bs_fs s) p) \/
  (br_errors r = [] /\ exists root plans s1 s2, _allowed_root (bs_fs s) scope role s = (Ok root, s) /\ bs_fs s1 = bs_fs s /\
     plan_all deny scope root role patches s1 = (Ok (plans, []), s2) /\ bs_fs s' = steps_fs plans (bs_fs s)).
Proof.
  intros W H. unfold apply_patch_set in H. destruct (negb _); [done|].
  apply b_bind in H as [(fs & s0 & [= <- <-] & H)|(e & [=] & _)]. apply b_bind in H as [(root & s0 & R & H)|(e & _ & [=])].
  assert (s0 = s) as -> by (unfold _allowed_root in R; destruct role; by injection R as _ <-).
  apply b_bind in H as [(u & s1 & G & H)|(e & _ & [=])]. apply recheck_fs in G as [G _].
  apply b_bind in H as [([plans errs] & s2 & P & H)|(e & _ & [=])]. pose proof P as Q. apply plan_all_fs in Q. cbn in H.
  case_bool_decide as E.
  - subst errs. assert (W2 : wf_fs (bs_fs s2)) by (by rewrite Q, G).
    apply (run_spec root plans (bs_fs s)) in H; [|exact W2 | cbn; by rewrite Q, G | done].
    rewrite Q, G in H. destruct H as [[E F]|H]; [right | by left]. split; [exact E|]. by exists root, plans, s1, s2.
  - injection H as <- <-. left. split; [exact E|]. intros p. by rewrite Q, G.
Qed.
End AllOrNothing.

(** ** The predicted effect

    Without symbolic links, below a root with plain components. *)
Definition path (segs : list string) : string := "/" ++ join "/" segs.
(** A plain patch of a path: new text, or a deletion. *)
Inductive edit : Type := Put (segs : list string) (raw : string) | Drop (segs : list string).
Definition edit_segs (e : edit) : list string := match e with Put segs _ | Drop segs => segs end.
Definition patch_of (e : edit) : pyval :=
  match e with
  | Put segs raw => PDict [(KStr "op", PStr "write"); (KStr "path", PStr (join "/" segs)); (KStr "content", PStr raw)]
  | Drop segs => PDict [(KStr "op", PStr "delete"); (KStr "path", PStr (join "/" segs))]
  end.
Definition plain_segs (segs : list string) : Prop := segs <> [] /\ Forall safe_seg segs.

Lemma prefix_cons a p b s : String.prefix (String a p) (String b s) = Ascii.eqb a b && String.prefix p s.
Proof. cbn [String.prefix]. by destruct (ascii_dec a b) as [->|N]; [rewrite Ascii.eqb_refl | apply Ascii.eqb_neq in N as ->]. Qed.
Lemma norm_comps b segs acc : Forall safe_seg segs -> fold_left (norm_comp b) segs acc = (rev segs ++ acc)%list.
Proof.
  intros F. revert acc. induction F as [|x segs (_ & N1 & N2 & N3) F IH]; intros acc; [done|]. cbn [fold_left rev].
  rewrite IH, <- app_assoc. f_equal. cbn. unfold norm_comp.
  by apply String.eqb_neq in N1 as ->, N2 as ->, N3 as ->.
Qed.
Lemma join_head segs : plain_segs segs -> exists c t, join "/" segs = String c t /\ c <> "/"%char.
Proof.
  intros [N F]. destruct F as [|x l (S & E & _) F]; [done|]. destruct x as [|c x]; [done|].
  apply slash_free_cons in S as [D _]. exists c. destruct l; eexists; split; [reflexivity|done|reflexivity|done].
Qed.
Lemma normpath_rel segs : plain_segs segs -> isabs (join "/" segs) = false /\ normpath (join "/" segs) = join "/" segs.
Proof.
  intros P. destruct (join_head _ P) as (c & t & E & D). destruct P as [N F].
  assert (A : isabs (join "/" segs) = false).
  { rewrite E. unfold isabs. rewrite prefix_cons. apply Ascii.eqb_neq in D. by rewrite Ascii.eqb_sym, D. }
  split; [exact A|]. unfold normpath, initial_slashes. rewrite A. rewrite join_truthy, bool_decide_false by done.
  rewrite split_on_join by (done || by apply safe_slash_free). 
  assert (X : String.prefix "//" (join "/" segs) = false) by (rewrite E; apply Ascii.eqb_neq in D; rewrite Ascii.eqb_sym in D; rewrite !prefix_cons; first [by rewrite D | by rewrite D, andb_false_r]).
  rewrite X. cbn [negb andb truthy]. rewrite norm_comps, app_nil_r, rev_involutive by done. cbn [String.append].
  by rewrite join_truthy, bool_decide_false.
Qed.
Lemma normpath_abs segs : plain_segs segs -> normpath (path segs) = path segs.
Proof.
  intros P. destruct (join_head _ P) as (c & t & E & D). destruct P as [N F].
  unfold normpath, initial_slashes, path. cbn [String.append truthy negb].
  assert (X : String.prefix "//" (String "/" (join "/" segs)) = false) by (rewrite E; apply Ascii.eqb_neq in D; rewrite Ascii.eqb_sym in D; rewrite !prefix_cons; first [by rewrite D | by rewrite D, andb_false_r]).
  rewrite X. cbn [negb andb]. assert (Y : isabs (String "/" (join "/" segs)) = true) by (unfold isabs; rewrite prefix_cons; by destruct (join "/" segs)). rewrite Y.
  change (String "/" (join "/" segs)) with ("" ++ "/" ++ join "/" segs). rewrite split_on_app.
  rewrite split_on_join by (done || by apply safe_slash_free). cbn [split_on app fold_left].
  change (norm_comp (truthy "/") [] "") with (@nil string). by rewrite norm_comps, app_nil_r, rev_involutive.
Qed.
Lemma path_app rs segs : rs <> [] -> segs <> [] -> path (rs ++ segs) = path rs ++ "/" ++ join "/" segs.
Proof. intros P Q. unfold path. by rewrite join_app, string_app_assoc. Qed.
Lemma plain_app rs segs : plain_segs rs -> plain_segs segs -> plain_segs (rs ++ segs).
Proof. intros [N F] [_ G]. split; [by destruct rs|]. by apply Forall_app. Qed.
Lemma path_inj p q : plain_segs p -> plain_segs q -> path p = path q -> p = q.
Proof.
  intros [P F] [Q G] E. injection E as E. revert E. apply join_inj; first [done | by apply safe_slash_free].
Qed.
Lemma no_end_slash segs : plain_segs segs -> ends_slash (path segs) = false.
Proof.
  intros [N F]. unfold ends_slash. destruct (String.prefix "/" (string_rev (path segs))) eqn:E; [|done]. exfalso.
  destruct (string_rev (path segs)) as [|c t] eqn:R; [done|]. rewrite prefix_cons in E. apply andb_true_iff in E as [<-%Ascii.eqb_eq _].
  assert (X : path segs = string_rev t ++ "/" ++ "").
  { rewrite <- (string_rev_involutive (path segs)), R. rewrite <- (string_rev_involutive t) at 1. by rewrite <- string_rev_snoc, string_rev_involutive. }
  apply (f_equal (split_on "/")) in X. rewrite split_on_app in X. unfold path in X.
  change ("/" ++ join "/" segs) with ("" ++ "/" ++ join "/" segs) in X. rewrite split_on_app in X.
  rewrite split_on_join in X by (done || by apply safe_slash_free). cbn [split_on app] in X.
  apply (f_equal (fun l => List.last l "x")) in X. rewrite List.last_last in X.
  destruct (exists_last N) as (l & x & ->). rewrite app_comm_cons, List.last_last in X. subst x.
  apply Forall_app in F as [_ F]. apply Forall_cons in F as [(_ & Y & _) _]. done.
Qed.
Lemma path_join_plain rs segs : plain_segs rs -> plain_segs segs -> path_join (path rs) (join "/" segs) = path (rs ++ segs).
Proof.
  intros P Q. unfold path_join. destruct (normpath_rel _ Q) as [-> _]. rewrite no_end_slash by done.
  change (truthy (path rs)) with true. cbn [negb orb]. by rewrite path_app by apply P || apply Q.
Qed.
Lemma within_plain rs segs : plain_segs rs -> plain_segs segs -> _within (path rs) (path (rs ++ segs)) = true.
Proof.
  intros P Q. unfold _within. rewrite orb_true_iff, prefix_app. right. exists (join "/" segs).
  by rewrite path_app, string_app_assoc by apply P || apply Q.
Qed.
Lemma strip_prefix_spec p s t : strip_prefix p s = Some t <-> s = p ++ t.
Proof.
  revert s. induction p as [|a p IH]; intros s; cbn; [split; [by intros [= ->] | by intros ->]|].
  destruct s as [|b s]; [done|]. destruct (Ascii.eqb_spec a b) as [->|N]; [rewrite IH|].
  - split; [by intros -> | by intros [= ->]].
  - split; [done|]. intros [= E _]. by rewrite E in N.
Qed.
Lemma omap_keys {A} (f : string * A -> option (string * string)) l : NoDup (map fst l) ->
  (forall x y a b, f x = Some a -> f y = Some b -> fst a = fst b -> fst x = fst y) -> NoDup (map fst (omap f l)).
Proof.
  intros N I. induction l as [|x l IH]; [constructor|]. apply NoDup_cons in N as [N1 N2]. cbn.
  destruct (f x) as [a|] eqn:E; [|by apply IH]. constructor; [|by apply IH].
  intros (b & B & (y & Y & F)%list_elem_of_omap)%list_elem_of_fmap. apply N1. apply list_elem_of_fmap.
  exists y. split; [|exact Y]. exact (I _ _ _ _ E F B).
Qed.

Section Effect.
Context {fenv : FsEnv} (guard : option (nat -> res exc unit)) (deny : list string).
Context (no_links : forall fs p, isabs p = true -> realpath fs p = normpath p).
Context (rs : list string) (rs_plain : plain_segs rs).
Notation root := (path rs).
(** The paths of the file system are absolute and normal. *)
Definition normal_fs (fs : FS) : Prop := forall p n, fs !! p = Some n -> exists segs, plain_segs segs /\ p = path segs.

Lemma isabs_path segs : isabs (path segs) = true.
Proof. unfold isabs, path. change ("/" ++ join "/" segs) with (String "/" (join "/" segs)). rewrite prefix_cons. by destruct (join "/" segs). Qed.
Lemma real_path fs segs : plain_segs segs -> realpath fs (path segs) = path segs.
Proof. intros P. rewrite no_links by apply isabs_path. by apply normpath_abs. Qed.
Lemma real_root fs : realpath fs (abspath root) = root.
Proof. unfold abspath. rewrite isabs_path, normpath_abs by done. by apply real_path. Qed.
(** The text of the file at a path. *)
Definition leaf (fs : FS) (p : string) : option string := n ← fs !! p; if S_ISREG n then Some (n_content n) else None.
Lemma tree_in fs rel c : normal_fs fs -> (rel, c) ∈ tree fs root <-> leaf fs (root ++ "/" ++ rel) = Some c.
Proof.
  intros N. unfold tree. rewrite real_root, list_elem_of_omap. unfold tree_entry, below, file_at, leaf. split.
  - intros ([p n] & I & H). apply elem_of_map_to_list in I. cbn [fst] in H.
    destruct (strip_prefix _ p) as [r|] eqn:S; [|done]. apply strip_prefix_spec in S. rewrite string_app_assoc in S.
    destruct (N _ _ I) as (segs & P & ->). rewrite real_path, I in H by done.
    destruct (S_ISREG n) eqn:R; [|done]. injection H as -> <-. rewrite <- S, I. cbn. by rewrite R.
  - destruct (fs !! _) as [n|] eqn:I; cbn [mbind option_bind]; [|done]. destruct (S_ISREG n) eqn:R; [|done]. intros [= <-].
    exists (root ++ "/" ++ rel, n). rewrite elem_of_map_to_list. split; [exact I|]. cbn [fst].
    assert (S : strip_prefix (root ++ "/") (root ++ "/" ++ rel) = Some rel) by (apply strip_prefix_spec; by rewrite string_app_assoc).
    rewrite S. destruct (N _ _ I) as (segs & P & E). rewrite E in *. rewrite real_path, I, R by done. done.
Qed.
Lemma tree_keys fs : NoDup (map fst (tree fs root)).
Proof.
  apply omap_keys; [apply (NoDup_fst_map_to_list fs)|]. intros [p n] [q m] a b. unfold tree_entry, below. cbn [fst].
  destruct (strip_prefix _ p) as [r1|] eqn:E1; [|done]. destruct (strip_prefix _ q) as [r2|] eqn:E2; [|done].
  apply strip_prefix_spec in E1 as ->. apply strip_prefix_spec in E2 as ->.
  destruct (file_at _ _); [|done]. destruct (file_at _ _); [|done]. by intros [= <-] [= <-] [= ->].
Qed.
Definition contents (fs : FS) : gmap string string := list_to_map (tree fs root).
Lemma contents_at fs rel : normal_fs fs -> contents fs !! rel = leaf fs (root ++ "/" ++ rel).
Proof.
  intros N. apply option_eq. intros c. rewrite <- (tree_in _ _ _ N). symmetry. apply elem_of_list_to_map, tree_keys.
Qed.
Lemma contents_list fs : map_to_list (contents fs) ≡ₚ tree fs root.
Proof. apply map_to_list_to_map, tree_keys. Qed.
(** The order of the texts decides where files of a tree stand. *)
Lemma text_sorted fs l : l ≡ₚ tree fs root -> sort_by text_leb l = sort_by text_leb (tree fs root).
Proof.
  intros P. apply sort_by_unique; [intros a b c; apply str_leb_trans | | | exact P].
  - intros a b E. destruct (String.leb_total (fst a) (fst b)) as [T|T]; [|exact T]. unfold text_leb, str_leb, String.leb in *. congruence.
  - intros [a x] [b y] A B I J. unfold text_leb in *. cbn in A, B.
    assert (a = b) as ->.
    { assert (X : String.compare a b = Eq); [|by apply String.compare_eq_iff in X].
      unfold str_leb in *. rewrite (String.compare_antisym b a) in B. by destruct (String.compare a b). }
    f_equal. rewrite P in I, J.
    assert (K : forall z, (b, z) ∈ tree fs root -> contents fs !! b = Some z) by (intros z Z; by apply elem_of_list_to_map, Z; apply tree_keys).
    apply list_elem_of_In, K in I. apply list_elem_of_In, K in J. congruence.
Qed.

(** What planning makes of a plain patch. *)
Definition planned (fs : FS) (e : edit) (p : patch_plan) : Prop :=
  match e with
  | Put segs raw => exists c, b64decode raw = Some c /\ p = PWrite (path (rs ++ segs)) c
  | Drop segs => p = PDelete (path (rs ++ segs)) \/ (p = PSkip (path (rs ++ segs)) /\ fs !! path (rs ++ segs) = None)
  end.
Lemma plan_planned e s p s' : plain_segs (edit_segs e) ->
  _plan_patch deny root root IMPLEMENTER (patch_of e) s = (Ok (inl p), s') -> planned (bs_fs s) e p.
Proof.
  intros P H. assert (R : _resolve_target (bs_fs s) root (join "/" (edit_segs e)) = inr (path (rs ++ edit_segs e))).
  { unfold _resolve_target. destruct (normpath_rel _ P) as [-> _].
    by rewrite path_join_plain, normpath_abs, real_path by (done || by apply plain_app). }
  assert (T : truthy (join "/" (edit_segs e)) = true) by (destruct P as [N F]; by rewrite join_truthy, bool_decide_false).
  destruct e as [segs raw|segs]; cbn [edit_segs patch_of] in *; unfold _plan_patch in H.
  - change (dget _ "op") with (Some (PStr "write")) in H. change (dget _ "path") with (Some (PStr (join "/" segs))) in H.
    change (dget _ "content") with (Some (PStr raw)) in H. cbn [from_option id is_str negb orb String.eqb Ascii.eqb Bool.eqb] in H. cbv zeta in H.
    rewrite T in H. cbn [negb] in H.
    apply b_bind in H as [(fs & s1 & [= <- <-] & H)|(e & [=] & _)]. rewrite R in H.
    destruct (_is_denied_path _ _); [done|]. rewrite within_plain in H by done. cbn [negb] in H. destruct (islink _ _); [done|].
    destruct (b64decode raw) as [c|] eqn:B; [|done]. destruct (_content_hit c); [done|].
    destruct (_check_target_type _ _); [done|]. injection H as <- _. by exists c.
  - change (dget _ "op") with (Some (PStr "delete")) in H. change (dget _ "path") with (Some (PStr (join "/" segs))) in H.
    cbn [from_option id is_str negb orb String.eqb Ascii.eqb Bool.eqb] in H. cbv zeta in H.
    rewrite T in H. cbn [negb] in H.
    apply b_bind in H as [(fs & s1 & [= <- <-] & H)|(e & [=] & _)]. rewrite R in H.
    destruct (_is_denied_path _ _); [done|]. rewrite within_plain in H by done. cbn [negb] in H. destruct (islink _ _); [done|].
    unfold lstat in H. destruct (bs_fs s !! _) as [n|] eqn:E.
    + destruct (S_ISREG n); [|done]. injection H as <- _. by left.
    + destruct (existsb _ _); [done|]. injection H as <- _. by right.
Qed.
Lemma plans_planned es s ps s' : Forall (fun e => plain_segs (edit_segs e)) es ->
  plan_all deny root root IMPLEMENTER (map patch_of es) s = (Ok (ps, []), s') -> Forall2 (planned (bs_fs s)) es ps.
Proof.
  intros F. revert s ps s'. induction F as [|e es P F IH]; intros s ps s' H; cbn [map plan_all] in H; [injection H as <- _; constructor|].
  apply b_bind in H as [(x & s1 & X & H)|(e' & _ & [=])]. apply b_bind in H as [([qs errs] & s2 & Y & H)|(e' & _ & [=])].
  destruct x as [p|err]; [|done]. injection H as <- -> _. pose proof X as Q. apply plan_fs in Q. constructor; [by eapply plan_planned|].
  rewrite <- Q. by eapply IH.
Qed.
(** A step on another path leaves a plan as it is. *)
Lemma planned_step fs e p e' p' : plain_segs (edit_segs e) -> plain_segs (edit_segs e') -> edit_segs e <> edit_segs e' ->
  planned fs e p -> planned fs e' p' -> planned (step_fs p fs) e' p'.
Proof.
  intros P P' N H H'. assert (D : path (rs ++ edit_segs e) <> path (rs ++ edit_segs e')).
  { intros E. apply path_inj in E; [|by apply plain_app ..]. apply app_inv_head in E. done. }
  destruct e' as [segs raw|segs]; [exact H'|]. destruct H' as [->|[-> A]]; [by left|]. right. split; [done|]. cbn [edit_segs] in *.
  destruct e as [segs' raw'|segs'].
  - destruct H as (c & _ & ->). cbn. by rewrite lookup_insert_ne.
  - destruct H as [->|[-> _]]; cbn; [by rewrite lookup_delete_ne | done].
Qed.
Lemma normal_step fs e p : plain_segs (edit_segs e) -> planned fs e p -> normal_fs fs -> normal_fs (step_fs p fs).
Proof.
  intros P H N. destruct e as [segs raw|segs].
  - destruct H as (c & _ & ->). intros q n E. cbn in E. destruct (decide (path (rs ++ segs) = q)) as [<-|D].
    + exists (rs ++ segs)%list. split; [by apply plain_app | done].
    + rewrite lookup_insert_ne in E by done. by eapply N.
  - destruct H as [->|[-> _]]; cbn; [|done]. intros q n [_ E]%lookup_delete_Some. by eapply N.
Qed.
Lemma predict_plain e files : plain_segs (edit_segs e) -> predict (patch_of e) files =
  match e with
  | Put segs raw => match b64decode raw with Some c => <[join "/" segs := c]> files | None => files end
  | Drop segs => delete (join "/" segs) files
  end.
Proof.
  intros P. destruct (normpath_rel _ P) as [A K]. destruct e as [segs raw|segs]; cbn [edit_segs] in *; unfold predict, patch_of; cbv iota.
  - change (dget _ "path") with (Some (PStr (join "/" segs))). change (dget _ "content") with (Some (PStr raw)). cbv iota. by rewrite A, K.
  - change (dget _ "path") with (Some (PStr (join "/" segs))). cbv iota. by rewrite A, K.
Qed.
(** One step has the predicted effect on the contents. *)
Lemma step_contents fs e p : plain_segs (edit_segs e) -> planned fs e p -> normal_fs fs ->
  contents (step_fs p fs) = predict (patch_of e) (contents fs).
Proof.
  intros P H N. pose proof (normal_step _ _ _ P H N) as N'. 
  assert (E : path (rs ++ edit_segs e) = root ++ "/" ++ join "/" (edit_segs e)) by (apply path_app; [apply rs_plain | apply P]).
  apply map_eq. intros rel. rewrite contents_at by done.
  assert (D : rel = join "/" (edit_segs e) \/ root ++ "/" ++ rel <> path (rs ++ edit_segs e)).
  { destruct (decide (rel = join "/" (edit_segs e))) as [->|X]; [by left|]. right. rewrite E. intros Y. apply X.
    apply string_app_inj in Y. by injection Y. }
  rewrite predict_plain by done. destruct e as [segs raw|segs]; cbn [edit_segs] in *.
  - destruct H as (c & B & ->).
    rewrite B. destruct D as [->|D].
    + unfold leaf, step_fs. by rewrite <- E, !lookup_insert_eq.
    + rewrite lookup_insert_ne, contents_at by (done || congruence). unfold leaf, step_fs. by rewrite lookup_insert_ne.
  - assert (F : step_fs p fs !! path (rs ++ segs) = None /\ forall q, q <> path (rs ++ segs) -> step_fs p fs !! q = fs !! q).
    { destruct H as [->|[-> H]]; cbn; [|done]. split; [by rewrite lookup_delete_eq|]. intros q Q. by rewrite lookup_delete_ne. }
    destruct F as [F1 F2]. destruct D as [->|D].
    + unfold leaf. by rewrite <- E, F1, lookup_delete_eq.
    + rewrite lookup_delete_ne, contents_at by (done || congruence). unfold leaf. by rewrite F2.
Qed.
Lemma steps_contents es ps fs : Forall (fun e => plain_segs (edit_segs e)) es -> NoDup (map edit_segs es) ->
  Forall2 (planned fs) es ps -> normal_fs fs ->
  contents (steps_fs ps fs) = fold_left (fun files p => predict p files) (map patch_of es) (contents fs).
Proof.
  intros F. revert ps fs. induction F as [|e es P F IH]; intros ps fs D L N; apply Forall2_cons_inv_l in L || apply Forall2_nil_inv_l in L.
  { by subst ps. }
  destruct L as (p & ps' & H & L & ->). apply NoDup_cons in D as [D1 D2]. cbn [map fold_left].
  change (steps_fs (p :: ps') fs) with (steps_fs ps' (step_fs p fs)). rewrite <- (step_contents _ _ _ P H N). apply IH; [done | | by eapply normal_step].
  clear IH. induction L as [|e' p' es ps' H' L IH]; [constructor|]. apply Forall_cons in F as [P' F].
  apply NoDup_cons in D2 as [_ D2]. apply not_elem_of_cons in D1 as [D0 D1]. constructor; [|by apply IH].
  by apply (planned_step _ e).
Qed.
(** The broker, run by the implementer on plain distinct paths, did what the plans say. *)
Lemma applied_contents es source s r s' : wf_fs (bs_fs s) -> normal_fs (bs_fs s) ->
  Forall (fun e => plain_segs (edit_segs e)) es -> NoDup (map edit_segs es) ->
  apply_patch_set guard deny root (map patch_of es) IMPLEMENTER source s = (Ok r, s') -> br_errors r = [] ->
  contents (bs_fs s') = fold_left (fun files p => predict p files) (map patch_of es) (contents (bs_fs s)).
Proof.
  intros W N F D H E. apply patch_set_outcome in H as [[X _]|(_ & root' & ps & s1 & s2 & R & Q & P & ->)]; [done | | exact W].
  cbn in R. rewrite real_root in R. injection R as <-. apply plans_planned in P; [|done]. rewrite Q in P. by apply steps_contents.
Qed.
End Effect.
(** C19: the effect of a patch set is predicted.  Without symbolic links, when the implementer's patches name plain
    distinct paths below the root and the broker reports no error, the hash that [predicted_hash] computed of the
    workspace before is the hash of the files after, in the order of their texts; and it is the [scoped_hash] of the
    workspace after whenever that order is also the order of their components. *)
Theorem effect_predicted {fenv : FsEnv} guard deny rs es source s r s' :
  (forall fs p, isabs p = true -> realpath fs p = normpath p) -> plain_segs rs ->
  wf_fs (bs_fs s) -> normal_fs (bs_fs s) -> Forall (fun e => plain_segs (edit_segs e)) es -> NoDup (map edit_segs es) ->
  apply_patch_set guard deny (path rs) (map patch_of es) IMPLEMENTER source s = (Ok r, s') -> br_errors r = [] ->
  let files := tree (bs_fs s') (path rs) in
  predicted_hash (bs_fs s) (path rs) (map patch_of es) = hash_files (sort_by text_leb files) /\
  (sort_by path_leb files = sort_by text_leb files ->
   scoped_hash (bs_fs s') (path rs) = predicted_hash (bs_fs s) (path rs) (map patch_of es)).
Proof.
  intros L P W N F D H E files.
  assert (Q : predicted_hash (bs_fs s) (path rs) (map patch_of es) = hash_files (sort_by text_leb files)).
  { unfold predicted_hash. change (list_to_map (tree (bs_fs s) (path rs))) with (contents rs (bs_fs s)).
    rewrite <- (applied_contents guard deny L rs P es source s r s' W N F D H E). f_equal. by apply text_sorted, contents_list. }
  split; [exact Q|]. intros S. unfold scoped_hash. fold files. by rewrite S, Q.
Qed.

(** ** A workspace *)
#[local] Instance plain_host : FsEnv := {| realpath _ p := normpath p; cwd := "/"; home := "/home/u"; staging_id n := z_text (Z.of_nat n) |}.
Definition dir_node : node := mkNode Directory "" 493 2.
Definition text_node (c : string) : node := mkNode Regular c 420 1.
Definition sample_fs : FS :=
  <["/ws" := dir_node]> (<["/ws/lib" := dir_node]> (<["/ws/lib/x" := text_node "1"]> (<["/ws/y" := text_node "2"]> ∅))).
Definition broker_on (fs : FS) (es : list edit) : res bexc BrokerResult * BrSt :=
  apply_patch_set None (deny_paths fs) (path ["ws"]) (map patch_of es) IMPLEMENTER CONTROLLER_SOURCE (mkBrSt fs [] 0 0).
Definition sample_edits : list edit := [Put ["lib"; "z"] "YQ=="; Drop ["y"]; Drop ["none"]].
Ltac safe := repeat first [constructor | intros X; cbn in X; intuition discriminate | discriminate].
Ltac each_node H := repeat (apply lookup_insert_Some in H as [[<- <-]|[_ H]]); [..|by rewrite lookup_empty in H].
Lemma sample_wf : wf_fs sample_fs.
Proof. intros p n H K. unfold sample_fs in H. each_node H; try discriminate K; exists dir_node; split; vm_compute; reflexivity. Qed.
Lemma sample_normal : normal_fs sample_fs.
Proof.
  intros p n H. unfold sample_fs in H. each_node H;
    [exists ["ws"] | exists ["ws"; "lib"] | exists ["ws"; "lib"; "x"] | exists ["ws"; "y"]]; (split; [safe | reflexivity]).
Qed.
(** A file more, one less and a deletion without a file. *)
Lemma effect_predicted_witness :
  let s' := snd (broker_on sample_fs sample_edits) in
  tree (bs_fs s') "/ws" = [("lib/z", "a"); ("lib/x", "1")] /\
  scoped_hash (bs_fs s') "/ws" = predicted_hash sample_fs "/ws" (map patch_of sample_edits).
Proof.
  intros s'. assert (T : tree (bs_fs s') "/ws" = [("lib/z", "a"); ("lib/x", "1")]) by (vm_compute; reflexivity).
  split; [exact T|]. destruct (fst (broker_on sample_fs sample_edits)) as [res|e] eqn:F; [|vm_compute in F; discriminate F].
  destruct (effect_predicted None (deny_paths sample_fs) ["ws"] sample_edits CONTROLLER_SOURCE (mkBrSt sample_fs [] 0 0) res s') as [_ Q].
  - reflexivity.
  - safe.
  - exact sample_wf.
  - exact sample_normal.
  - safe.
  - apply (bool_decide_unpack _). vm_compute. exact I.
  - rewrite <- F. apply surjective_pairing.
  - vm_compute in F. injection F as <-. reflexivity.
  - apply Q. change (path ["ws"]) with "/ws". rewrite T. reflexivity.
Defined.
(** A module [lib.py] beside the package [lib]: the two orders differ, and the hash after a
    successful broker run is not the predicted one. *)
Definition package_fs : FS := <["/ws/lib.py" := text_node "2"]> sample_fs.
Example orders_differ :
  let es := [Put ["y"] "YQ=="] in
  br_errors <$> (match fst (broker_on package_fs es) with Ok r => Some r | Err _ => None end) = Some [] /\
  map fst (sort_by path_leb (tree (bs_fs (snd (broker_on package_fs es))) "/ws")) = ["lib/x"; "lib.py"; "y"] /\
  map fst (sort_by text_leb (tree (bs_fs (snd (broker_on package_fs es))) "/ws")) = ["lib.py"; "lib/x"; "y"] /\
  String.eqb (scoped_hash (bs_fs (snd (broker_on package_fs es))) "/ws") (predicted_hash package_fs "/ws" (map patch_of es)) = false.
Proof. vm_compute. repeat split. Qed.
(** The second deletion of a file finds nothing: its error escapes, the first one stays. *)
Example double_delete_escapes :
  fst (broker_on sample_fs [Drop ["y"]; Drop ["y"]; Put ["z"] "YQ=="]) = Err (Escapes OSError) /\
  visible (bs_fs (snd (broker_on sample_fs [Drop ["y"]; Drop ["y"]; Put ["z"] "YQ=="]))) "/ws/y" = None.
Proof. vm_compute. split; reflexivity. Qed.
