(* ===== verification/Actions.v ===== *)
(** * Actions: carrying out one decision
    (src/argent_core/supervisor.py: the action journal, the handlers
    [_perform_...] and [perform_next_safe_action_if_required]).

    Every action is journaled under a deterministic key before it is tried and finished
    afterwards, so that a crash in between can be reconciled.  The core commands and the
    workspace broker are the modelled ones; the runtime adapter, the router, the context
    builder, the process enforcer, the lock file and git are parameters ([ActEnv]).
    A core command called by a handler checks the armed fence when it begins. *)
From stdpp Require Import gmap.
From S2P Require Import Prelude PyVal Models Json Canonical Timestamps Trust Workflow JobState Concurrency Recovery Registry IsoParse Governor Outputs CoreStore Core Dispatch JobRows Worktree Leases Outbox Ledger Supervisor Reconcile Processes Workspace.
#[local] Open Scope string_scope.

Record ActionOutcome : Type := mkActionOutcome {
  ao_action : string;
  ao_status : string;
  ao_detail : option string;
  ao_dispatch_id : option string
}.
(** The workspace with what the broker left behind, and ghost logs of the dispatches for which
    the enforcer was asked to launch, for which it succeeded, and for which the broker ran. *)
Record World : Type := mkWorld {
  wo_broker : BrSt;
  wo_tried : list string;
  wo_launched : list string;
  wo_brokered : list string
}.
#[export] Instance World_eta : EtaExpand World := fun x => mkWorld (wo_broker x) (wo_tried x) (wo_launched x) (wo_brokered x).
Record ASt : Type := mkASt { as_js : JSt; as_world : World }.
#[export] Instance ASt_eta : EtaExpand ASt := fun x => mkASt (as_js x) (as_world x).
Notation acmd := (M ASt exc).
Definition store {A} (m : jcmd A) : acmd A := fun s => let (r, j) := m (as_js s) in (r, s <| as_js := j |>).

(** The exceptions that are an [ArgentError]. *)
Definition argent_error (e : exc) : bool :=
  match e with
  | OverflowError | SqliteError | IntegrityError | ValueError | TypeError | KeyError | AttributeError
  | CandidateRevisionError | RequestRevisionError | IllegalRequestTransition | IdempotencyConflictError
  | ProvenanceError | PolicyDeniedError | AuthorizationError | CandidateNotFound | IntegrationError
  | HolderLostError | BrokerError | RequestNotFound | RuntimeError | InventoryError | PolicyError | OSError => false
  | _ => true
  end.
(** [try: m except E]: the caught exception or the result. *)
Definition attempt {A} (caught : exc -> bool) (m : acmd A) : acmd (exc + A) := fun s =>
  match m s with
  | (Ok a, s1) => (Ok (inr a), s1)
  | (Err e, s1) => if caught e then (Ok (inl e), s1) else (Err e, s1)
  end.

(** *** What comes from outside *)
(** The scope the enforcer built, and its result. *)
Record ExecutionScope : Type := mkExecutionScope {
  sc_unit_name : string;
  sc_cgroup_path : string;
  sc_resource_class : string;
  sc_policy_version : string;
  sc_effective_limits : pyval;
  sc_process_id : option Z;
  sc_memory_events_baseline : pyval
}.
Record EnforcementResult : Type := mkEnforcementResult {
  er_status : string;
  er_scope : option ExecutionScope;
  er_exit_code : option Z;
  er_timed_out : bool;
  er_scope_events : pyval;
  er_termination_class : option string
}.
Definition er_ok (r : EnforcementResult) : bool := String.eqb (er_status r) "SCOPE_OK".
Definition SCOPE_CLEANUP_UNVERIFIED : string := "SCOPE_CLEANUP_UNVERIFIED".
Record Enforcer : Type := mkEnforcer {
  enforce_and_spawn : nat -> AgentDispatch -> Job -> AdmissionDecision -> res exc EnforcementResult;
  enforce_and_run : nat -> Job -> string -> res exc EnforcementResult
}.
(** The context pack and the message file of a dispatch: ready, a context error with its
    code, or another exception. *)
Inductive prompt_result : Type := PromptReady | ContextError (code : string) | PromptRaises (e : exc).
Record GitProvenance : Type := mkGitProvenance {
  gp_repo_identity : option string;
  gp_head : option string;
  gp_branch : option string
}.
Class ActEnv : Type := {
  controller_source : string;
  owner_source : string;
  workspace_root : option string;
  resource_policy : ResourcePolicy;
  exc_text : exc -> string;
  exc_name : exc -> string;
  observe_run : nat -> RunLookup -> res exc RunObservation;
  host_wall : nat -> Z;
  host_facts : nat -> list (list pyval) -> HostResourceSnapshot;
  route : DB -> nat -> Job -> Role -> Z * Z * Z -> string + RoutingDecision;
  build_prompt : DB -> nat -> AgentDispatch -> Job -> prompt_result;
  count_launch : nat -> string -> res exc unit;
  enforcer : option Enforcer;
  run_tests_fn : option (nat -> string -> Z);
  lock_free : nat -> string -> bool;
  provenance : nat -> GitProvenance
}.

(** *** The journal *)
Inductive begin_outcome : Type := B_new | B_retry | B_running | B_succeeded | B_exhausted.
#[export] Instance begin_outcome_eq_dec : EqDecision begin_outcome.
Proof. solve_decision. Defined.
(** The optional hashes of a begin. *)
Record ActionHashes : Type := mkActionHashes {
  ah_input_hash : option string;
  ah_precondition_hash : option string;
  ah_effect_hash : option string;
  ah_patch_set_json : option string
}.
Definition no_hashes : ActionHashes := mkActionHashes None None None None.
(** [if value is not None: updates[column] = value]. *)
Definition or_keep (v old : option string) : option string := match v with Some _ => v | None => old end.
Definition is_action (id : string) (a : SupervisorAction) : bool := String.eqb (a_id a) id.
Definition action_of (id : string) (t : JT) : option SupervisorAction := by_id a_id id (jt_actions t).
Definition get_supervisor_action (id : string) : jcmd (option SupervisorAction) := jquery (action_of id).
Definition get_supervisor_action_by_key (key : string) : jcmd (option SupervisorAction) := jquery (action_by_key key).
Definition _insert_supervisor_action (row : SupervisorAction) : jcmd unit := jinsert jt_actions row.
Definition _update_supervisor_action (id : string) (f : SupervisorAction -> SupervisorAction) : jcmd nat :=
  jupdate jt_actions (is_action id) f.
Definition _insert_dispatch_write_intent (row : WriteIntent) : jcmd unit := jinsert jt_intents row.
Definition text_hash (s : string) : string := sha256_hex (utf8 s).
Definition json_hash (v : pyval) : res exc string := c ← _canonical_json v; Ok (text_hash c).
(** The id of the row of a key. *)
Definition action_id (key : string) : string := String.substring 0 32 (text_hash key).
Definition restart_row (now : string) (h : ActionHashes) (a : SupervisorAction) : SupervisorAction :=
  a <| a_status := "RUNNING" |> <| a_attempt_count ::= Z.succ |> <| a_started_at := Some now |> <| a_updated_at := now |>
    <| a_input_hash ::= or_keep (ah_input_hash h) |> <| a_precondition_hash ::= or_keep (ah_precondition_hash h) |>
    <| a_effect_hash ::= or_keep (ah_effect_hash h) |> <| a_patch_set_json ::= or_keep (ah_patch_set_json h) |>.
Definition finish_row (status now : string) (error_code : option string) (a : SupervisorAction) : SupervisorAction :=
  a <| a_status := status |> <| a_finished_at := Some now |> <| a_last_error_code := error_code |> <| a_updated_at := now |>.
Definition new_row (key action_type : string) (job : Job) (dispatch_id : option string) (args_hash now : string) (h : ActionHashes) : SupervisorAction :=
  mkSupervisorAction (action_id key) (j_id job) dispatch_id action_type key args_hash (ah_input_hash h)
    (ah_precondition_hash h) (ah_effect_hash h) (ah_patch_set_json h) "RUNNING" 1 None (Some now) None None now now.

Section Journal.
Context {env : Env}.
Definition _begin_action_locked (key action_type : string) (job : Job) (dispatch_id : option string) (args_hash now : string)
    (h : ActionHashes) : jcmd (SupervisorAction * begin_outcome) :=
  existing ← get_supervisor_action_by_key key;
  let fresh : jcmd (SupervisorAction * begin_outcome) :=
    let row := new_row key action_type job dispatch_id args_hash now h in
    _ ← _insert_supervisor_action row; mret (row, B_new) in
  match existing with
  | Some a =>
      _ ← raise_unless (String.eqb (a_args_hash a) args_hash) IdempotencyError;
      if String.eqb (a_status a) "SUCCEEDED" then mret (a, B_succeeded)
      else if str_in (a_status a) ["RUNNING"; "UNCERTAIN"] then mret (a, B_running)
      else if str_in (a_status a) ["PLANNED"; "FAILED"] then
        if (MAX_ACTION_RETRIES <=? a_attempt_count a)%Z then mret (a, B_exhausted) else
        _ ← _update_supervisor_action (a_id a) (restart_row now h);
        a' ← get_supervisor_action (a_id a);
        a' ← some_or a' TypeError;
        mret (a', B_retry)
      else fresh
  | None => fresh
  end.
Definition _begin_action (key action_type : string) (job : Job) (dispatch_id : option string) (args_hash : string)
    (h : ActionHashes) : jcmd (SupervisorAction * begin_outcome) :=
  now ← jnow_iso;
  jtransaction (_begin_action_locked key action_type job dispatch_id args_hash now h).
(** A different hash already owns the dispatch's write, or the row of the own one. *)
Inductive apply_claim : Type :=
| Conflict (winner_action_id : string)
| Claimed (row : SupervisorAction) (outcome : begin_outcome).
Definition _begin_apply_action (key : string) (job : Job) (dispatch_id canonical_input_hash args_hash : string)
    (h : ActionHashes) : jcmd apply_claim :=
  now ← jnow_iso;
  jtransaction (
    winner ← jquery (write_intent dispatch_id);
    match winner with
    | Some w =>
        if negb (String.eqb (wi_canonical_input_hash w) canonical_input_hash) then mret (Conflict (wi_intent_action_id w)) else
        r ← _begin_action_locked key "APPLY_PATCH_SET" job (Some dispatch_id) args_hash now h;
        mret (Claimed (fst r) (snd r))
    | None =>
        r ← _begin_action_locked key "APPLY_PATCH_SET" job (Some dispatch_id) args_hash now h;
        _ ← _insert_dispatch_write_intent (mkWriteIntent dispatch_id canonical_input_hash (a_id (fst r)) now now);
        mret (Claimed (fst r) (snd r))
    end).
Definition _finish_action (id status : string) (error_code : option string) : jcmd unit :=
  now ← jnow_iso;
  jtransaction (_ ← _update_supervisor_action id (finish_row status now error_code); mret tt).
End Journal.

(** *** Pure parts of the handlers *)
(** The role's patch extension of a write result. *)
Definition _WRITE_EXTENSIONS (role : Role) : list string :=
  match role with IMPLEMENTER => ["patch_set"] | QA => ["test_patch_set"] | _ => [] end.
Definition _write_envelope (role : Role) (result : pydict) : pydict :=
  List.filter (fun kv : pykey * pyval => match fst kv with KStr k => negb (str_in k (_WRITE_EXTENSIONS role)) | KInt _ => true end) result.
Definition patch_key_ok (k : pykey) : bool := match k with KStr k => str_in k ["op"; "path"; "content"] | KInt _ => false end.
Definition nonempty_str (v : option pyval) : bool := match v with Some (PStr s) => truthy s | _ => false end.
Definition _patch_error (patch : pyval) : option string :=
  match patch with
  | PDict d =>
      if negb (forallb (fun kv : pykey * pyval => patch_key_ok (fst kv)) d) then Some "invalid_patch_key" else
      let op := dget0 d "op" in
      if negb (is_str op "write" || is_str op "delete") then Some "invalid_patch_op"
      else if negb (nonempty_str (dget d "path")) then Some "invalid_patch_path"
      else if is_str op "write" && negb (nonempty_str (dget d "content")) then Some "invalid_patch_content" else None
  | _ => Some "invalid_patch_entry_type"
  end.
Definition _validate_patch_set (patch_set : list pyval) : option string := head (omap _patch_error patch_set).
Definition _persisted_patch_set (row : SupervisorAction) : option (list pyval) :=
  match a_patch_set_json row with
  | Some raw => match json_loads raw with Ok (PList l) => Some l | _ => None end
  | None => None
  end.

Definition performed (name status : string) (detail dispatch_id : option string) : ActionOutcome :=
  mkActionOutcome name status detail dispatch_id.
(** The outcome of a begin that leaves nothing to do. *)
Definition settled (name : string) (o : begin_outcome) (dispatch_id : option string) : option ActionOutcome :=
  match o with
  | B_succeeded => Some (performed name "already_succeeded" None dispatch_id)
  | B_exhausted => Some (performed name "exhausted" None dispatch_id)
  | _ => None
  end.
Definition or_light (c : string) : string := if truthy c then c else value RC_LIGHT.
(** The RUNNING jobs other than the excluded one. *)
Definition active_row (exclude : option string) (j : Job) : bool :=
  nonterminal j && String.eqb (j_primary_state j) (value PS_RUNNING) && negb (ostr_eqb (Some (j_id j)) exclude).
(** [_default_active_jobs_reader]: the active jobs with their classes. *)
Definition active_jobs (exclude : option string) (t : JT) : list (list pyval) :=
  map (fun j => [PStr (j_id j); PStr (or_light (j_resource_class j))]) (List.filter (active_row exclude) (jt_jobs t)).

Section Handlers.
Context {env : Env} {penv : ProcEnv} {fenv : FsEnv} {aenv : ActEnv}.
(** The lease the supervisor holds in memory. *)
Context (lease : option (string * Z)).
Notation lease_owner := (fst <$> lease).
Notation lease_epoch := (snd <$> lease).

Definition act_now_iso : acmd string := store jnow_iso.
Definition db_now : acmd DB := store (dbquery (fun db => db)).
(** A command of the core on the connection with the armed fence. *)
Definition core_cmd {A} (m : cmd A) : acmd A := store (_ ← _check_action_fence; on_core m).
Definition finish (row : SupervisorAction) (status : string) (error_code : option string) : acmd unit :=
  store (_finish_action (a_id row) status error_code).
Definition begin_ (key name : string) (job : Job) (dispatch_id : option string) (args : pyval) : acmd (SupervisorAction * begin_outcome) :=
  args_hash ← lift (json_hash args);
  store (_begin_action key name job dispatch_id args_hash no_hashes).
(** [try: m except ArgentError]: the row fails; otherwise the rest of the handler. *)
Definition try_core {A} (name : string) (row : SupervisorAction) (dispatch_id : option string) (m : acmd A)
    (k : A -> acmd ActionOutcome) : acmd ActionOutcome :=
  r ← attempt argent_error m;
  match r with
  | inl e =>
      _ ← finish row "FAILED" (Some (exc_name e));
      mret (performed name "failed" (Some (exc_name e)) dispatch_id)
  | inr a => k a
  end.
(** [decision.dispatch_id] of a dispatch that exists. *)
Definition with_dispatch (name : string) (d : ReconcileDecision) (k : string -> AgentDispatch -> acmd ActionOutcome) : acmd ActionOutcome :=
  let missing := performed name "skipped" (Some "dispatch_missing") None in
  match rdc_dispatch_id d with
  | None => mret missing
  | Some id =>
      x ← store (on_core (get_dispatch id));
      match x with None => mret missing | Some ad => k id ad end
  end.
Definition observed (ad : AgentDispatch) : acmd RunObservation := store (_guarded_observe observe_run (_build_lookup ad)).
(** [_action_adapter_conflict]. *)
Definition adapter_conflict (obs : RunObservation) : option string :=
  if bool_decide (ob_status obs = RUN_CONFLICT) then ob_adapter_exception_type obs else None.
Definition observing (name dispatch_id : string) (ad : AgentDispatch) (k : RunObservation -> acmd ActionOutcome) : acmd ActionOutcome :=
  obs ← observed ad;
  match adapter_conflict obs with
  | Some t => mret (performed name "adapter_exception" (Some t) (Some dispatch_id))
  | None => k obs
  end.

(** *** Closing a job *)
Definition close_row (key args_hash now : string) (job : Job) : SupervisorAction :=
  mkSupervisorAction (action_id key) (j_id job) None "CLOSE_JOB" key args_hash None None None None "SUCCEEDED" 1 None
    (Some now) (Some now) None now now.
Definition close_fields (cur : Job) (terminal now : string) : list assign :=
  [A_terminal (Some terminal); A_status (value SJ_TERMINAL); A_next_action (value RA_NONE); A_next_wake_at None;
   A_updated_at now; A_facts_version (j_facts_version cur + 1)%Z].
Definition _close_job (job : Job) (terminal reason : string) : jcmd ActionOutcome :=
  let key := "supervisor:" ++ j_id job ++ ":close:" ++ terminal in
  args_hash ← lift (json_hash (PDict [(KStr "terminal", PStr terminal)]));
  now ← jnow_iso;
  jtransaction (
    cur ← get_supervisor_job (j_id job);
    match cur with
    | None => mret (performed "CLOSE_JOB" "skipped" (Some "job_missing") None)
    | Some cur =>
        existing ← get_supervisor_action_by_key key;
        _ ← match existing with
            | Some a =>
                _ ← raise_unless (String.eqb (a_args_hash a) args_hash) IdempotencyError;
                if String.eqb (a_status a) "SUCCEEDED" then mret tt
                else _ ← _update_supervisor_action (a_id a) (finish_row "SUCCEEDED" now None); mret tt
            | None => _insert_supervisor_action (close_row key args_hash now job)
            end;
        _ ← (if ostr_eqb (j_terminal cur) (Some terminal) then mret tt else
             _ ← _update_supervisor_job (j_id job) (close_fields cur terminal now);
             _ ← _enqueue_close_notification job terminal reason;
             mret tt);
        mret (performed "CLOSE_JOB" "executed" (Some terminal) None)
    end).

(** *** Roles and dispatches *)
Definition frontier_key_text (job : Job) (cycle pos att : Z) (what : string) : string :=
  "supervisor:" ++ j_id job ++ ":cycle:" ++ z_text cycle ++ ":pos:" ++ z_text pos ++ ":attempt:" ++ z_text att ++ ":" ++ what.
Definition _frontier_attempt (task_id : string) (f : WorkflowFrontier) (db : DB) : Z := (1 + max_attempt (frontier_matches task_id f db))%Z.
Definition frontier_now (job : Job) : acmd WorkflowFrontier := store (frontier_fn controller_source (j_task_id job)).
Definition _perform_start_role (d : ReconcileDecision) (job : Job) : acmd ActionOutcome :=
  let name := "START_ROLE" in
  let task_id := j_task_id job in
  f ← frontier_now job;
  match wf_expected_role f with
  | None => mret (performed name "skipped" (Some "no_role") None)
  | Some role =>
      db ← db_now;
      let att := _frontier_attempt task_id f db in
      let key := frontier_key_text job (wf_cycle_no f) (wf_position f) att "start-role" in
      r ← begin_ key name job None (PDict [(KStr "task_id", PStr task_id); (KStr "role", PStr (value role)); (KStr "source", PStr controller_source)]);
      let '(row, o) := r in
      match settled name o None with
      | Some x => mret x
      | None =>
          let go := try_core name row None (core_cmd (start_role task_id (value role) controller_source (Some key))) (fun _ =>
                      _ ← finish row "SUCCEEDED" None; mret (performed name "executed" None None)) in
          if bool_decide (o = B_running) then
            db ← db_now;
            if bool_decide ((rr_role <$> active_role_run task_id db) = Some role)
            then _ ← finish row "SUCCEEDED" None; mret (performed name "executed" (Some "reconciled") None)
            else go
          else go
      end
  end.
Definition _provider_unavailable_backoff (job : Job) : jcmd ActionOutcome :=
  let name := "CREATE_DISPATCH" in
  now ← jnow;
  let error_code := value RC_NO_VALID_FALLBACK in
  jtransaction (
    cur ← get_supervisor_job (j_id job);
    match cur with
    | None => mret (performed name "skipped" (Some "job_terminal") None)
    | Some cur =>
        if is_some (j_terminal cur) then mret (performed name "skipped" (Some "job_terminal") None) else
        _ ← _enforce_lease_fence lease_owner lease_epoch cur;
        let retry := (j_retry_count cur + 1)%Z in
        if (MAX_RUNTIME_UNKNOWN <=? retry)%Z then
          n ← jnow_iso;
          _ ← _update_supervisor_job (j_id job) (error_fields cur error_code (Some retry) n);
          _ ← _enqueue_persistent_error_notification cur;
          mret (performed name "failed" (Some error_code) None)
        else
          b ← lift (backoff_seconds retry);
          wake ← lift (format_after now b);
          now_iso ← jnow_iso;
          _ ← _transition_job (j_id job) (value PS_QUEUED) (value SJ_BACKOFF)
                ([A_queue_reason (value QR_RETRY_BACKOFF); A_next_eligible_at (Some wake); A_last_error_code (Some error_code);
                  A_next_action (value RA_WAIT); A_next_wake_at (Some wake); A_retry_count retry] ++ release_assigns cur)
                false true (holder_cas cur) now_iso;
          mret (performed name "wait" (Some error_code) None)
    end).
Definition dispatch_args (task_id run_id : string) (role : Role) (f : WorkflowFrontier) (rd : RoutingDecision) : pyval :=
  PDict [(KStr "task_id", PStr task_id); (KStr "task_run_id", PStr run_id); (KStr "role", PStr (value role));
         (KStr "position", PInt (wf_position f)); (KStr "cycle_no", PInt (wf_cycle_no f));
         (KStr "sequence_kind", PStr (value (wf_sequence_kind f))); (KStr "model_choice", PNone);
         (KStr "source", PStr controller_source); (KStr "parent_dispatch_id", PNone);
         (KStr "routing_decision", PStr (rd_sha256 rd))].
Definition _perform_create_dispatch (d : ReconcileDecision) (job : Job) : acmd ActionOutcome :=
  let name := "CREATE_DISPATCH" in
  let task_id := j_task_id job in
  f ← frontier_now job;
  match wf_expected_role f with
  | None => mret (performed name "skipped" (Some "no_role") None)
  | Some role =>
      run ← store (on_core (get_latest_task_run task_id));
      match run with
      | None => mret (performed name "skipped" (Some "no_task_run") None)
      | Some run =>
          db ← db_now;
          let att := _frontier_attempt task_id f db in
          let key := frontier_key_text job (wf_cycle_no f) (wf_position f) att "create-dispatch" in
          n ← store moment;
          _ ← act_now_iso;
          match route db n job role (wf_cycle_no f, wf_position f, att) with
          | inl code => _ ← store (_close_job job "BLOCKED" code); mret (performed name "failed" (Some code) None)
          | inr rd =>
              let code := rd_decision_reason_code rd in
              if rd_is_terminal rd then
                if String.eqb code (value RC_NO_VALID_FALLBACK) then store (_provider_unavailable_backoff job)
                else _ ← store (_close_job job "BLOCKED" code); mret (performed name "failed" (Some code) None)
              else if negb (String.eqb (rd_job_id rd) (j_id job)) then
                _ ← store (_close_job job "BLOCKED" "ROUTING_DECISION_JOB_MISMATCH");
                mret (performed name "failed" (Some "job_mismatch") None)
              else
                r ← begin_ key name job None (dispatch_args task_id (tr_id run) role f rd);
                let '(row, o) := r in
                match settled name o None with
                | Some x => mret x
                | None =>
                    let go := try_core name row None
                      (core_cmd (create_dispatch task_id (tr_id run) (value role) (wf_position f) (wf_cycle_no f)
                         (value (wf_sequence_kind f)) None controller_source None (Some key) (Some rd)))
                      (fun x => _ ← finish row "SUCCEEDED" None; mret (performed name "executed" None (Some (d_id x)))) in
                    if bool_decide (o = B_running) then
                      db ← db_now;
                      match _dispatch_at_frontier task_id f db with
                      | Some af => if (d_attempt_no af =? att)%Z
                                   then _ ← finish row "SUCCEEDED" None; mret (performed name "executed" (Some "reconciled") (Some (d_id af)))
                                   else go
                      | None => go
                      end
                    else go
                end
          end
      end
  end.

(** *** Starting a run *)
(** [_fresh_admission]: a snapshot without the job itself. *)
Definition _fresh_admission (job : Job) : acmd AdmissionDecision :=
  jobs ← store (jquery (active_jobs (Some (j_id job))));
  n ← store moment;
  let snapshot := (host_facts n jobs) <| hs_active_jobs := jobs |> in
  now ← act_now_iso;
  n ← store moment;
  lift (decide (host_wall n) resource_policy (PStr (or_light (j_resource_class job))) snapshot None (Some now) false None []).
Definition log_tried (dispatch_id : string) : acmd unit := modify (fun s => s <| as_world ::= set wo_tried (fun l => (l ++ [dispatch_id])%list) |>).
Definition log_launched (dispatch_id : string) : acmd unit := modify (fun s => s <| as_world ::= set wo_launched (fun l => (l ++ [dispatch_id])%list) |>).
(** [_register_process_evidence]: an unreadable identity is unknown, a failing registration is dropped. *)
Definition _register_process_evidence (job_id dispatch_id : string) (pid : option Z) (scope : ExecutionScope) : acmd unit :=
  match pid with
  | None => mret tt
  | Some pid =>
      i ← attempt (fun _ => true) (store (current_identity pid));
      let identity := match i with inr i => i | inl _ => mkProcessIdentity None pid None end in
      _ ← attempt (fun _ => true) (store (register None job_id (Some dispatch_id) identity PROCESS_STATUS_RUNNING
            (Some (sc_cgroup_path scope)) (Some (sc_unit_name scope)) (Some (sc_resource_class scope))
            (Some (sc_policy_version scope)) (sc_effective_limits scope) None false (sc_memory_events_baseline scope)));
      mret tt
  end.
Definition enforcement_unavailable : string := value RR_RESOURCE_ENFORCEMENT_UNAVAILABLE.
(** [None]: the child runs. *)
Definition _spawn_scoped (e : Enforcer) (ad : AgentDispatch) (job : Job) (row : SupervisorAction) (admission : AdmissionDecision)
  : acmd (option ActionOutcome) :=
  let name := "SPAWN_RUN" in
  let dispatch_id := d_id ad in
  n ← store moment;
  _ ← lift (count_launch n dispatch_id);
  _ ← log_tried dispatch_id;
  result ← lift (enforce_and_spawn e n ad job admission);
  if negb (er_ok result) then
    _ ← finish row "FAILED" (Some ("enforcement:" ++ er_status result));
    if String.eqb (er_status result) SCOPE_CLEANUP_UNVERIFIED
    then mret (Some (performed name "resource_enforcement_lost" (Some (er_status result)) (Some dispatch_id)))
    else mret (Some (performed name "resource_enforcement_failed" (Some enforcement_unavailable) (Some dispatch_id)))
  else
    _ ← log_launched dispatch_id;
    match er_scope result with
    | None => raise AttributeError
    | Some scope => _ ← _register_process_evidence (j_id job) dispatch_id (sc_process_id scope) scope; mret None
    end.
(** The body of the [try]: a context error with its code, an outcome, or the running child. *)
Definition spawn_body (ad : AgentDispatch) (job : Job) (row : SupervisorAction) : acmd (string + option ActionOutcome) :=
  let name := "SPAWN_RUN" in
  let dispatch_id := d_id ad in
  admission ← _fresh_admission job;
  if negb (bool_decide (ad_decision admission = AV_ALLOW)) then
    _ ← finish row "FAILED" (Some ("admission:" ++ value (ad_decision admission)));
    mret (inr (Some (performed name "resource_enforcement_failed" (Some (value (ad_reason_code admission))) (Some dispatch_id))))
  else
    match enforcer with
    | None =>
        _ ← finish row "FAILED" (Some "no_enforcer");
        mret (inr (Some (performed name "resource_enforcement_failed" (Some enforcement_unavailable) (Some dispatch_id))))
    | Some e =>
        db ← db_now;
        n ← store moment;
        match build_prompt db n ad job with
        | ContextError code => mret (inl code)
        | PromptRaises e => raise e
        | PromptReady =>
            _ ← store (_recheck_lease_fence lease_owner lease_epoch (j_id job));
            o ← _spawn_scoped e ad job row admission;
            mret (inr o)
        end
    end.
(** The [except] clauses and the end of the [try]. *)
Definition spawn_end (dispatch_id : string) (row : SupervisorAction) (b : exc + (string + option ActionOutcome)) : acmd ActionOutcome :=
  let name := "SPAWN_RUN" in
  match b with
  | inl e =>
      _ ← finish row "FAILED" (Some (exc_name e));
      mret (performed name "failed" (Some (exc_text e)) (Some dispatch_id))
  | inr (inl code) =>
      _ ← finish row "FAILED" (Some code);
      mret (performed name "context_build_failed" (Some code) (Some dispatch_id))
  | inr (inr (Some x)) => mret x
  | inr (inr None) => _ ← finish row "SUCCEEDED" None; mret (performed name "executed" None (Some dispatch_id))
  end.
Definition _perform_spawn_run (d : ReconcileDecision) (job : Job) : acmd ActionOutcome :=
  let name := "SPAWN_RUN" in
  with_dispatch name d (fun dispatch_id ad =>
    r ← begin_ (spawn_key dispatch_id) name job (Some dispatch_id) (PDict [(KStr "dispatch_id", PStr dispatch_id)]);
    let '(row, o) := r in
    match settled name o (Some dispatch_id) with
    | Some x => mret x
    | None =>
        if bool_decide (o = B_running) then mret (performed name "already_running" None (Some dispatch_id)) else
        b ← attempt (fun _ => true) (spawn_body ad job row);
        spawn_end dispatch_id row b
    end).

(** *** Binding, failing and consuming a run *)
Definition bind_args (dispatch_id session run : string) (obs : RunObservation) : pyval :=
  PDict [(KStr "dispatch_id", PStr dispatch_id); (KStr "child_session_id", PStr session); (KStr "openclaw_run_id", PStr run);
         (KStr "actual_provider", ostr_val (ob_provider obs)); (KStr "actual_model", ostr_val (ob_model obs));
         (KStr "thinking_tier", ostr_val (ob_thinking_tier obs)); (KStr "source", PStr controller_source)].
(** An observed value that is missing reaches the core as a text no dispatch expects. *)
Definition actual (v : option string) : string := default "" v.
Definition dispatch_is (p : AgentDispatch -> bool) (dispatch_id : string) : acmd bool :=
  x ← store (on_core (get_dispatch dispatch_id)); mret match x with Some dd => p dd | None => false end.
Definition reconciled_or (name : string) (o : begin_outcome) (row : SupervisorAction) (dispatch_id : option string) (done_ : acmd bool)
    (go : acmd ActionOutcome) : acmd ActionOutcome :=
  if bool_decide (o = B_running) then
    b ← done_;
    if b : bool then _ ← finish row "SUCCEEDED" None; mret (performed name "executed" (Some "reconciled") dispatch_id) else go
  else go.
Definition executed (name : string) (row : SupervisorAction) (detail dispatch_id : option string) : acmd ActionOutcome :=
  _ ← finish row "SUCCEEDED" None; mret (performed name "executed" detail dispatch_id).
Definition _perform_bind_run (d : ReconcileDecision) (job : Job) : acmd ActionOutcome :=
  let name := "BIND_RUN" in
  with_dispatch name d (fun dispatch_id ad =>
    observing name dispatch_id ad (fun obs =>
      if negb (in_list (ob_status obs) [RUN_RUNNING; RUN_SUCCEEDED; RUN_FAILED; RUN_CANCELLED])
      then mret (performed name "skipped" (Some ("status_" ++ value (ob_status obs))) (Some dispatch_id)) else
      match ob_session_id obs, ob_run_id obs with
      | Some session, Some run =>
          let key := "supervisor:dispatch:" ++ dispatch_id ++ ":bind:" ++ run in
          r ← begin_ key name job (Some dispatch_id) (bind_args dispatch_id session run obs);
          let '(row, o) := r in
          match settled name o (Some dispatch_id) with
          | Some x => mret x
          | None =>
              reconciled_or name o row (Some dispatch_id)
                (dispatch_is (fun dd => bool_decide (d_status dd = DRUNNING) && ostr_eqb (d_child_session_id dd) (Some session)
                                        && ostr_eqb (d_openclaw_run_id dd) (Some run)) dispatch_id)
                (try_core name row (Some dispatch_id)
                   (core_cmd (bind_spawn_result dispatch_id session run (actual (ob_provider obs)) (actual (ob_model obs))
                      (actual (ob_thinking_tier obs)) controller_source (Some key)))
                   (fun _ => executed name row None (Some dispatch_id)))
          end
      | _, _ => mret (performed name "skipped" (Some "no_binding_values") None)
      end)).
Definition _perform_mark_run_failed (d : ReconcileDecision) (job : Job) : acmd ActionOutcome :=
  let name := "MARK_RUN_FAILED" in
  with_dispatch name d (fun dispatch_id ad =>
    obs ← observed ad;
    let error_code := ob_error_code obs in
    let run_id := match d_openclaw_run_id ad with Some r => if truthy r then r else "unknown" | None => "unknown" end in
    let key := "supervisor:dispatch:" ++ dispatch_id ++ ":fail:" ++ run_id in
    r ← begin_ key name job (Some dispatch_id)
          (PDict [(KStr "dispatch_id", PStr dispatch_id); (KStr "reason", PStr "run_failed"); (KStr "source", PStr controller_source);
                  (KStr "error_code", ostr_val error_code)]);
    let '(row, o) := r in
    match settled name o (Some dispatch_id) with
    | Some x => mret x
    | None =>
        reconciled_or name o row (Some dispatch_id) (dispatch_is (fun dd => bool_decide (d_status dd = DFAILED)) dispatch_id)
          (try_core name row (Some dispatch_id)
             (core_cmd (mark_agent_failed dispatch_id "run_failed" controller_source (Some key) None error_code))
             (fun _ => executed name row None (Some dispatch_id)))
    end).
(** [result or {}]. *)
Definition result_of (obs : RunObservation) : pydict := default [] (ob_result obs).
Definition consume_key (dispatch_id : string) (run_id : option string) (canonical : string) : string :=
  "supervisor:consume:" ++ dispatch_id ++ ":" ++ default "None" run_id ++ ":" ++ text_hash canonical.
Definition _fail_consume (job : Job) (dispatch_id : string) (envelope : pydict) (reason : string) : acmd ActionOutcome :=
  let name := "CONSUME_RESULT" in
  let canonical := match _canonical_json (PDict envelope) with Ok c => c | Err _ => "{}" end in
  x ← store (on_core (get_dispatch dispatch_id));
  let run_id := match x with Some dd => d_openclaw_run_id dd | None => Some "unknown" end in
  r ← store (_begin_action (consume_key dispatch_id run_id canonical) name job (Some dispatch_id) (text_hash canonical) no_hashes);
  let '(row, o) := r in
  _ ← (if in_list o [B_succeeded; B_exhausted] then mret tt else finish row "FAILED" (Some reason));
  mret (performed name "failed" (Some reason) (Some dispatch_id)).
Definition event_meta_of (ad : AgentDispatch) : pyval :=
  PDict [(KStr "task_id", PStr (d_task_id ad)); (KStr "child_session_id", ostr_val (d_child_session_id ad));
         (KStr "run_id", ostr_val (d_openclaw_run_id ad)); (KStr "parent_dispatch_id", ostr_val (d_parent_dispatch_id ad));
         (KStr "event_type", PStr "agent.completed"); (KStr "status", PStr "completed")].
Definition frozen_hash (dispatch_id : string) : acmd (option string) := store (jquery (_frozen_write_result_hash dispatch_id)).
(** The consume of a validated result, under its canonical text. *)
Definition consume_validated (job : Job) (dispatch_id : string) (ad : AgentDispatch) (run_id : option string) (envelope : pydict) (canonical : string)
  : acmd ActionOutcome :=
  let name := "CONSUME_RESULT" in
  let key := consume_key dispatch_id run_id canonical in
  r ← store (_begin_action key name job (Some dispatch_id) (text_hash canonical) no_hashes);
  let '(row, o) := r in
  match settled name o None with
  | Some x => mret x
  | None =>
      reconciled_or name o row (Some dispatch_id) (dispatch_is (fun dd => bool_decide (d_status dd = DCONSUMED)) dispatch_id)
        (try_core name row (Some dispatch_id)
           (core_cmd (receive_agent_result dispatch_id (event_meta_of ad) (PDict envelope) controller_source (Some key)))
           (fun res =>
              if str_in (rc_status res) ["consumed"; "duplicate"] then executed name row (Some (rc_status res)) (Some dispatch_id)
              else
                _ ← finish row "FAILED" (Some ("consume_" ++ rc_status res));
                mret (performed name "failed" (Some ("consume_" ++ rc_status res)) (Some dispatch_id))))
  end.
Definition _perform_consume_result (d : ReconcileDecision) (job : Job) : acmd ActionOutcome :=
  let name := "CONSUME_RESULT" in
  let skipped why := performed name "skipped" (Some why) None in
  with_dispatch name d (fun dispatch_id ad =>
    observing name dispatch_id ad (fun obs =>
      if negb (bool_decide (ob_status obs = RUN_SUCCEEDED)) then mret (skipped ("status_" ++ value (ob_status obs))) else
      let result := result_of obs in
      let envelope := _write_envelope (d_role ad) result in
      v ← attempt argent_error (lift (validate_role_output (d_role ad) (PDict envelope)));
      match v with
      | inl e => _fail_consume job dispatch_id envelope ("invalid_envelope:" ++ exc_name e)
      | inr _ =>
          let run_id := if otruthy (ob_run_id obs) then ob_run_id obs else d_openclaw_run_id ad in
          full_hash ← lift (json_hash (PDict result));
          if _is_write_role (d_role ad) then
            frozen ← frozen_hash dispatch_id;
            match frozen with
            | None => mret (skipped "no_frozen_result_hash")
            | Some f =>
                if negb (String.eqb full_hash f) then mret (skipped "result_hash_mismatch")
                else canonical ← lift (_canonical_json (PDict result)); consume_validated job dispatch_id ad run_id envelope canonical
            end
          else canonical ← lift (_canonical_json (PDict envelope)); consume_validated job dispatch_id ad run_id envelope canonical
      end)).

(** *** Applying a patch set *)
Definition apply_name : string := "APPLY_PATCH_SET".
Definition applied (status : string) (detail : option string) (dispatch_id : string) : ActionOutcome :=
  performed apply_name status detail (Some dispatch_id).
Definition fs_of : acmd FS := gets (fun s => bs_fs (wo_broker (as_world s))).
Definition workspace_hash (root : string) : acmd string := fs ← fs_of; mret (scoped_hash fs root).
(** [_acquire_dispatch_lock]: bounded, and without a workspace there is none. *)
Definition _acquire_dispatch_lock (dispatch_id : string) : acmd bool :=
  n ← store moment;
  mret (match workspace_root with Some _ => lock_free n dispatch_id | None => false end).
(** The clock after [n] more readings. *)
Definition after_readings (n : nat) (j : JSt) : JSt := j <| js_core ::= set st_ticks (fun t => t + n) |>.
Definition real_abs (fs : FS) (p : string) : string := realpath fs (abspath p).
(** The guard installed at the broker, at its [n]-th call. *)
Definition installed_guard (j : JSt) (fs : FS) (token : WriterToken) (job_id root : string) : nat -> res exc unit := fun n =>
  match fst (jnow_iso (after_readings n j)) with
  | Ok now => writer_guard (fun p => if String.eqb p root then real_abs fs p else realpath fs p) token now (job_of job_id (js_t j)) root
  | Err e => Err e
  end.
Definition token_of (job_id dispatch_id : string) (fresh : option Job) : WriterToken :=
  mkWriterToken (Some job_id) (Some dispatch_id) (fresh ≫= j_owner_instance_id) (j_lease_epoch <$> fresh) (j_facts_version <$> fresh).
(** [broker.apply_patch_set] under the guard; [BrokerError] does not leave it. *)
Definition run_broker (job_id dispatch_id root : string) (patch_set : list pyval) (role : Role) : acmd BrokerResult := fun s =>
  let j := as_js s in
  let br := (wo_broker (as_world s)) <| bs_guards := 0 |> in
  let token := token_of job_id dispatch_id (job_of job_id (js_t j)) in
  let '(r, br') := apply_patch_set (Some (installed_guard j (bs_fs br) token job_id root)) (deny_paths (bs_fs br)) root patch_set role
                     controller_source br in
  let s' := s <| as_js := after_readings (bs_guards br') j |> <| as_world ::= (fun w => w <| wo_broker := br' |> <| wo_brokered ::= (fun l => (l ++ [dispatch_id])%list) |>) |> in
  (match r with Ok x => Ok x | Err (Escapes e) => Err e | Err (Hardening _) => Err BrokerError end, s').
Definition validate_worktree_binding_path (fs : FS) (path : string) : res exc string :=
  _ ← res_when (blank path) ValueError;
  Ok (real_abs fs (strip path)).
(** [Supervisor.bind_writer_worktree] with the provenance of the workspace. *)
Definition bind_workspace (fresh : Job) (dispatch_id root : string) : acmd unit :=
  n ← store moment;
  let g := provenance n in
  match j_owner_instance_id fresh with
  | None => mret tt
  | Some owner =>
      fs ← fs_of;
      canonical ← lift (validate_worktree_binding_path fs root);
      repo ← lift (validate_repo_identity (gp_repo_identity g));
      branch ← lift (validate_branch_identity (gp_branch g));
      _ ← store (bind_writer_worktree (j_id fresh) dispatch_id owner (j_lease_epoch fresh) repo (gp_head g) branch canonical (gp_head g) None);
      mret tt
  end.
Definition apply_args (dispatch_id root : string) (patch_set : list pyval) : pyval :=
  PDict [(KStr "dispatch_id", PStr dispatch_id); (KStr "patch_set", PList patch_set); (KStr "workspace_root", PStr root)].
Definition diverged (row : SupervisorAction) (dispatch_id : string) : acmd ActionOutcome :=
  _ ← finish row "UNCERTAIN" (Some "workspace_diverged");
  mret (applied "failed" (Some "workspace_diverged") dispatch_id).
Definition job_backoff (job : Job) (code : string) : acmd unit := store (_apply_job_backoff lease_owner lease_epoch (j_id job) code).
Definition _invoke_broker_locked (job : Job) (dispatch_id root : string) (ad : AgentDispatch) (row : SupervisorAction) : acmd ActionOutcome :=
  match _persisted_patch_set row with
  | None => diverged row dispatch_id
  | Some patch_set =>
      recomputed ← lift (json_hash (apply_args dispatch_id root patch_set));
      if negb (String.eqb recomputed (a_args_hash row)) then
        _ ← job_backoff job "workspace_identity_mismatch";
        mret (applied "failed" (Some "workspace_identity_mismatch") dispatch_id)
      else
        fresh ← store (get_supervisor_job (j_id job));
        _ ← match fresh with
            | Some x => if negb (ostr_eqb (w_writer_binding_mode (j_writer x)) (Some WRITER_BINDING_BOUND))
                        then bind_workspace x dispatch_id root else mret tt
            | None => mret tt
            end;
        _ ← store (_recheck_lease_fence lease_owner lease_epoch (j_id job));
        res ← run_broker (j_id job) dispatch_id root patch_set (d_role ad);
        match br_errors res with
        | _ :: _ =>
            let n := z_text (Z.of_nat (List.length (br_errors res))) in
            _ ← finish row "FAILED" (Some ("broker:" ++ n));
            mret (applied "failed" (Some ("broker_errors:" ++ n)) dispatch_id)
        | [] =>
            current ← workspace_hash root;
            if negb (ostr_eqb (Some current) (a_effect_hash row)) then diverged row dispatch_id else
            n ← store moment;
            _ ← store (jtransaction (_update_supervisor_job (j_id job) [A_current_head (gp_head (provenance n))]));
            _ ← finish row "SUCCEEDED" None;
            mret (applied "executed" (Some "reconciled") dispatch_id)
        end
  end.
(** Under the lock: decided again from the persisted row. *)
Definition _apply_patch_set_locked (job : Job) (dispatch_id : string) (ad : AgentDispatch) (row : SupervisorAction) : acmd ActionOutcome :=
  fresh ← store (get_supervisor_action (a_id row));
  let fresh := default row fresh in
  if String.eqb (a_status fresh) "SUCCEEDED" then mret (applied "already_succeeded" None dispatch_id)
  else if negb (String.eqb (a_status fresh) "RUNNING") then
    if String.eqb (a_status fresh) "UNCERTAIN" then mret (applied "failed" (Some "workspace_diverged") dispatch_id)
    else mret (applied "failed" (Some (match a_last_error_code fresh with Some c => if truthy c then c else "broker_failed" | None => "broker_failed" end)) dispatch_id)
  else
    match workspace_root with
    | None => mret (applied "skipped" (Some "no_workspace_root") dispatch_id)
    | Some root =>
        current ← workspace_hash root;
        if ostr_eqb (a_effect_hash fresh) (Some current) then
          _ ← finish fresh "SUCCEEDED" None;
          mret (applied "executed" (Some "reconciled") dispatch_id)
        else if ostr_eqb (a_precondition_hash fresh) (Some current) then _invoke_broker_locked job dispatch_id root ad fresh
        else diverged fresh dispatch_id
    end.
Definition _apply_patch_set_fenced (job : Job) (dispatch_id : string) (ad : AgentDispatch) (row : SupervisorAction) : acmd ActionOutcome :=
  free ← _acquire_dispatch_lock dispatch_id;
  if free : bool then _apply_patch_set_locked job dispatch_id ad row else
  _ ← job_backoff job "apply_lock_unavailable";
  mret (applied "failed" (Some "lock_unavailable") dispatch_id).
Definition _reconcile_existing_apply (job : Job) (dispatch_id : string) (ad : AgentDispatch) (existing : SupervisorAction) : acmd ActionOutcome :=
  if String.eqb (a_status existing) "SUCCEEDED" then mret (applied "already_succeeded" None dispatch_id)
  else if String.eqb (a_status existing) "UNCERTAIN" && ostr_eqb (a_last_error_code existing) (Some "workspace_diverged")
  then mret (applied "failed" (Some "workspace_diverged") dispatch_id)
  else if negb (is_some (a_precondition_hash existing)) && negb (is_some (a_effect_hash existing)) then
    _ ← finish existing "SUCCEEDED" None;
    mret (applied "executed" (Some "noop") dispatch_id)
  else
    match workspace_root with
    | None => mret (applied "skipped" (Some "no_workspace_root") dispatch_id)
    | Some _ => _apply_patch_set_fenced job dispatch_id ad existing
    end.
Definition _apply_conflict_outcome (job : Job) (dispatch_id : string) (ad : AgentDispatch) (winner_action_id : string) : acmd ActionOutcome :=
  winner_row ← store (get_supervisor_action winner_action_id);
  _ ← match winner_row with
      | Some w => _ ← _reconcile_existing_apply job dispatch_id ad w; mret tt
      | None => mret tt
      end;
  mret (applied "failed" (Some "write_result_hash_mismatch") dispatch_id).
Definition apply_key (dispatch_id result_hash : string) : string := "supervisor:dispatch:" ++ dispatch_id ++ ":apply:" ++ result_hash.
Definition _fail_apply (job : Job) (dispatch_id result_hash reason : string) : acmd ActionOutcome :=
  args_hash ← lift (json_hash (PDict [(KStr "invalid", PStr reason)]));
  r ← store (_begin_action (apply_key dispatch_id result_hash) apply_name job (Some dispatch_id) args_hash
        (mkActionHashes (Some result_hash) None None None));
  let '(row, o) := r in
  _ ← (if in_list o [B_succeeded; B_exhausted] then mret tt else finish row "FAILED" (Some reason));
  mret (applied "failed" (Some reason) dispatch_id).
(** The patch set of a validated result, or why it is refused. *)
Definition patch_set_of (role : Role) (result : pydict) : string + list pyval :=
  match dget result (if bool_decide (role = IMPLEMENTER) then "patch_set" else "test_patch_set") with
  | None => inr []
  | Some (PList l) => match _validate_patch_set l with Some reason => inl reason | None => inr l end
  | Some _ => inl "invalid_patch_set_type"
  end.
Definition apply_noop (job : Job) (dispatch_id result_hash : string) (ad : AgentDispatch) : acmd ActionOutcome :=
  c ← store (_begin_apply_action (apply_key dispatch_id result_hash) job dispatch_id result_hash (text_hash "empty")
        (mkActionHashes (Some result_hash) None None None));
  match c with
  | Conflict w => _apply_conflict_outcome job dispatch_id ad w
  | Claimed row o =>
      _ ← (if in_list o [B_new; B_retry; B_running] then finish row "SUCCEEDED" None else mret tt);
      mret (applied "executed" (Some "noop") dispatch_id)
  end.
Definition apply_patches (job : Job) (dispatch_id result_hash root : string) (ad : AgentDispatch) (patch_set : list pyval) : acmd ActionOutcome :=
  fs ← fs_of;
  let precondition_hash := scoped_hash fs root in
  let effect_hash := predicted_hash fs root patch_set in
  args_hash ← lift (json_hash (apply_args dispatch_id root patch_set));
  text ← lift (_canonical_json (PList patch_set));
  c ← store (_begin_apply_action (apply_key dispatch_id result_hash) job dispatch_id result_hash args_hash
        (mkActionHashes (Some result_hash) (Some precondition_hash) (Some effect_hash) (Some text)));
  match c with
  | Conflict w => _apply_conflict_outcome job dispatch_id ad w
  | Claimed row o =>
      match settled apply_name o (Some dispatch_id) with
      | Some x => mret x
      | None => _apply_patch_set_fenced job dispatch_id ad row
      end
  end.
Definition _perform_apply_patch_set (d : ReconcileDecision) (job : Job) : acmd ActionOutcome :=
  with_dispatch apply_name d (fun dispatch_id ad =>
    observing apply_name dispatch_id ad (fun obs =>
      committed ← store (jquery (_committed_apply_intents dispatch_id));
      match committed with
      | a :: _ => _reconcile_existing_apply job dispatch_id ad a
      | [] =>
          let result := result_of obs in
          result_hash ← lift (json_hash (PDict result));
          let refuse why := _fail_apply job dispatch_id result_hash why in
          if is_some (ob_result_hash obs) && negb (ostr_eqb (ob_result_hash obs) (Some result_hash)) then refuse "result_hash_mismatch" else
          let envelope := _write_envelope (d_role ad) result in
          v ← attempt argent_error (lift (validate_role_output (d_role ad) (PDict envelope)));
          match v with
          | inl e => refuse ("invalid_envelope:" ++ exc_name e)
          | inr _ =>
              if negb (is_str (dget0 envelope "task_id") (d_task_id ad)) then refuse "task_mismatch"
              else if negb (is_str (dget0 envelope "dispatch_id") (d_id ad)) then refuse "dispatch_mismatch" else
              match patch_set_of (d_role ad) result with
              | inl reason => refuse reason
              | inr [] => apply_noop job dispatch_id result_hash ad
              | inr patch_set =>
                  match workspace_root with
                  | None => mret (applied "skipped" (Some "no_workspace_root") dispatch_id)
                  | Some root => apply_patches job dispatch_id result_hash root ad patch_set
                  end
              end
          end
      end)).

(** *** Tests of a write result *)
Definition tests_name : string := "RUN_SANDBOX_TESTS".
(** The process of the sandbox, registered and marked terminal with its evidence. *)
Definition register_terminal (job : Job) (dispatch_id : string) (scope : ExecutionScope) (exit_code : option Z) (termination_class : option string)
    (timed_out : bool) (scope_events : pyval) : acmd unit :=
  if negb (match sc_process_id scope with Some p => negb (p =? 0)%Z | None => false end) then mret tt else
  _ ← _register_process_evidence (j_id job) dispatch_id (sc_process_id scope) scope;
  reg ← store (get_process_registration_for_dispatch dispatch_id);
  match reg with
  | Some reg =>
      now ← act_now_iso;
      _ ← store (mark_terminal (p_process_id reg) exit_code now termination_class timed_out scope_events);
      mret tt
  | None => mret tt
  end.
Definition _run_sandbox_scoped (job : Job) (dispatch_id : string) : acmd Z :=
  match enforcer with
  | None => raise AttributeError
  | Some e =>
      n ← store moment;
      result ← lift (enforce_and_run e n job dispatch_id);
      if String.eqb (er_status result) SCOPE_CLEANUP_UNVERIFIED then
        _ ← match er_scope result with
            | Some scope => register_terminal job dispatch_id scope (er_exit_code result) (Some SCOPE_CLEANUP_UNVERIFIED) false PNone
            | None => mret tt
            end;
        mret (-1)%Z
      else
        match er_scope result with
        | None => mret (-1)%Z
        | Some scope =>
            _ ← register_terminal job dispatch_id scope (er_exit_code result) (er_termination_class result) (er_timed_out result) (er_scope_events result);
            mret (default (-1)%Z (er_exit_code result))
        end
  end.
Definition _sandbox_resource_termination (dispatch_id : string) : acmd bool :=
  reg ← store (get_process_registration_for_dispatch dispatch_id);
  match reg with
  | None => mret false
  | Some reg =>
      let events := match p_scope_events reg with
                    | Some t => if truthy t then match json_loads t with Ok v => v | Err _ => PNone end else PNone
                    | None => PNone
                    end in
      lift (is_resource_failure (value (classify_failure (p_termination_class reg) (p_exit_code reg) (negb (p_timed_out reg =? 0)%Z) events)))
  end.
Definition tested (row : SupervisorAction) (exit_code : Z) (dispatch_id : string) : acmd ActionOutcome :=
  _ ← (if (exit_code =? 0)%Z then finish row "SUCCEEDED" None
       else finish row "FAILED" (Some ("exit_code_" ++ z_text exit_code)));
  mret (performed tests_name "executed" None (Some dispatch_id)).
Definition run_tests (job : Job) (dispatch_id root : string) (row : SupervisorAction) : acmd ActionOutcome :=
  match run_tests_fn with
  | Some f => n ← store moment; tested row (f n root) dispatch_id
  | None =>
      admission ← _fresh_admission job;
      if negb (bool_decide (ad_decision admission = AV_ALLOW)) then
        _ ← finish row "FAILED" (Some ("admission:" ++ value (ad_decision admission)));
        mret (performed tests_name "resource_enforcement_failed" (Some (value (ad_reason_code admission))) (Some dispatch_id))
      else
        exit_code ← _run_sandbox_scoped job dispatch_id;
        resource ← _sandbox_resource_termination dispatch_id;
        if resource : bool then
          _ ← finish row "FAILED" (Some "resource_termination");
          mret (performed tests_name "resource_termination_failed" None (Some dispatch_id))
        else tested row exit_code dispatch_id
  end.
(** The observation still is the frozen result. *)
Definition still_frozen (name dispatch_id frozen : string) (ad : AgentDispatch) (k : acmd ActionOutcome) : acmd ActionOutcome :=
  observing name dispatch_id ad (fun obs =>
    h ← lift (_canonical_full_result_hash (ob_result obs));
    if negb (String.eqb h frozen) then mret (performed name "skipped" (Some "result_hash_mismatch") None) else k).
Definition _perform_run_sandbox_tests (d : ReconcileDecision) (job : Job) : acmd ActionOutcome :=
  let name := tests_name in
  let skipped why := mret (performed name "skipped" (Some why) None) : acmd ActionOutcome in
  match workspace_root, rdc_dispatch_id d with
  | None, _ => skipped "no_workspace"
  | Some _, None => skipped "no_frozen_result_hash"
  | Some root, Some dispatch_id =>
      frozen ← frozen_hash dispatch_id;
      match frozen with
      | None => skipped "no_frozen_result_hash"
      | Some f =>
          with_dispatch name d (fun _ ad =>
            still_frozen name dispatch_id f ad (
              let key := "supervisor:dispatch:" ++ dispatch_id ++ ":tests:" ++ f in
              r ← begin_ key name job (Some dispatch_id) (PDict [(KStr "workspace", PStr root); (KStr "result_hash", PStr f)]);
              let '(row, o) := r in
              match settled name o None with Some x => mret x | None => run_tests job dispatch_id root row end))
      end
  end.
Definition _perform_record_test_result (d : ReconcileDecision) (job : Job) : acmd ActionOutcome :=
  let name := "RECORD_TEST_RESULT" in
  with_dispatch name d (fun dispatch_id ad =>
    frozen ← frozen_hash dispatch_id;
    match frozen with
    | None => mret (performed name "skipped" (Some "no_frozen_result_hash") None)
    | Some f =>
        still_frozen name dispatch_id f ad (
          let key := "supervisor:dispatch:" ++ dispatch_id ++ ":record-test:" ++ f in
          passed ← store (jquery (_action_succeeded dispatch_id tests_name));
          let result := if passed : bool then "passed" else "failed" in
          let source := role_source (d_role ad) in
          r ← begin_ key name job (Some dispatch_id)
                (PDict [(KStr "task_id", PStr (d_task_id ad)); (KStr "result", PStr result); (KStr "source", PStr source); (KStr "result_hash", PStr f)]);
          let '(row, o) := r in
          match settled name o None with
          | Some x => mret x
          | None =>
              reconciled_or name o row None
                (known ← store (on_core (get_command_idempotency key "record_test_run")); mret (is_some known))
                (try_core name row None
                   (_ ← core_cmd (record_test_run (d_task_id ad) result source (Some "supervisor sandbox run") (Some key));
                    store (on_core (_set_dispatch_attempt_outcome dispatch_id (if passed then "SUCCESS" else "CAPABILITY"))))
                   (fun _ => executed name row None (Some dispatch_id)))
          end)
    end).

(** *** Recovery, gates, errors and closing *)
Definition _perform_core_recover (d : ReconcileDecision) (job : Job) : acmd ActionOutcome :=
  let name := "CORE_RECOVER" in
  let key := "supervisor:" ++ j_id job ++ ":core-recover" in
  r ← begin_ key name job None (PDict [(KStr "source", PStr owner_source)]);
  let '(row, o) := r in
  match settled name o None with
  | Some x => mret x
  | None => try_core name row None (core_cmd (recover owner_source (Some key))) (fun _ => executed name row None None)
  end.
Definition _perform_present_owner_gate (d : ReconcileDecision) (job : Job) : acmd ActionOutcome :=
  let name := "PRESENT_OWNER_GATE" in
  db ← db_now;
  let gate_id := ap_id <$> fst (_current_gate (j_task_id job) db) in
  let key := "supervisor:" ++ j_id job ++ ":present-gate:" ++ default "None" gate_id in
  r ← begin_ key name job None (PDict [(KStr "gate_id", ostr_val gate_id)]);
  let '(row, o) := r in
  match settled name o None with
  | Some x => mret x
  | None =>
      reconciled_or name o row None
        (cur ← store (get_supervisor_job (j_id job));
         mret match cur with
              | Some c => is_some (fl_owner_prompted_at (j_flow c)) && ostr_eqb (fl_owner_prompted_gate_id (j_flow c)) gate_id
              | None => false
              end)
        (_ ← store (jtransaction (
               n1 ← jnow_iso; n2 ← jnow_iso;
               _update_supervisor_job (j_id job) [A_owner_prompted_at (Some n1); A_owner_prompted_gate_id gate_id; A_updated_at n2]));
         executed name row None None)
  end.
Definition _perform_close (terminal : string) (d : ReconcileDecision) (job : Job) : acmd ActionOutcome := store (_close_job job terminal (rdc_reason d)).
Definition _perform_persistent_error (d : ReconcileDecision) (job : Job) : acmd ActionOutcome :=
  _ ← store (jtransaction (
        n ← jnow_iso;
        _update_supervisor_job (j_id job) [A_status (value SJ_ERROR); A_last_error_code (Some (rdc_reason d)); A_updated_at n; A_next_action (value RA_NONE)]));
  mret (performed "PERSISTENT_ERROR" "executed" (Some (rdc_reason d)) None).

(** *** One decision *)
(** [getattr(self, "_perform_" + action)]. *)
Definition handle (a : ReconcileAction) : option (ReconcileDecision -> Job -> acmd ActionOutcome) :=
  match a with
  | RA_NONE | RA_WAIT => None
  | RA_START_ROLE => Some _perform_start_role
  | RA_CREATE_DISPATCH => Some _perform_create_dispatch
  | RA_SPAWN_RUN => Some _perform_spawn_run
  | RA_BIND_RUN => Some _perform_bind_run
  | RA_APPLY_PATCH_SET => Some _perform_apply_patch_set
  | RA_RUN_SANDBOX_TESTS => Some _perform_run_sandbox_tests
  | RA_RECORD_TEST_RESULT => Some _perform_record_test_result
  | RA_CONSUME_RESULT => Some _perform_consume_result
  | RA_MARK_RUN_FAILED => Some _perform_mark_run_failed
  | RA_CORE_RECOVER => Some _perform_core_recover
  | RA_PRESENT_OWNER_GATE => Some _perform_present_owner_gate
  | RA_CLOSE_DONE => Some (_perform_close "DONE")
  | RA_CLOSE_FAILED => Some (_perform_close "FAILED")
  | RA_CLOSE_BLOCKED => Some (_perform_close "BLOCKED")
  | RA_PERSISTENT_ERROR => Some _perform_persistent_error
  end.
(** [handler(decision, job)] under the armed fence: errors of the program become outcomes, the
    fence error passes. *)
Definition run_handler (d : ReconcileDecision) (job : Job) (h : ReconcileDecision -> Job -> acmd ActionOutcome) : acmd ActionOutcome := fun s =>
  let name := value (rdc_action d) in
  match h d job s with
  | (Ok r, s1) => (Ok r, s1)
  | (Err LeaseFencedError, s1) => (Err LeaseFencedError, s1)
  | (Err IdempotencyError, s1) =>
      (_ ← store (_persist_error lease_owner lease_epoch (j_id job) (name ++ "_args_hash_mismatch"));
       mret (mkActionOutcome name "failed" (Some ("args_hash_mismatch:" ++ exc_text IdempotencyError)) (rdc_dispatch_id d))) s1
  | (Err e, s1) =>
      if argent_error e then (Ok (mkActionOutcome name "failed" (Some (exc_name e ++ ":" ++ exc_text e)) (rdc_dispatch_id d)), s1) else (Err e, s1)
  end.
Definition perform_next_safe_action_if_required (d : ReconcileDecision) : acmd ActionOutcome :=
  let name := value (rdc_action d) in
  if in_list (rdc_action d) [RA_NONE; RA_WAIT] then mret (mkActionOutcome name "noop" None None) else
  job ← store (get_supervisor_job (rdc_job_id d));
  match job with
  | None => mret (mkActionOutcome name "skipped" (Some "job_missing") None)
  | Some job =>
      _ ← match rdc_owner_instance_id d with
          | Some o => match rdc_lease_epoch d with
                      | Some e => store (assert_lease_current (rdc_job_id d) o e)
                      | None => raise LeaseFencedError
                      end
          | None => mret tt
          end;
      if negb (j_facts_version job =? rdc_facts_version d)%Z
      then mret (mkActionOutcome name "skipped" (Some "stale_decision") None) else
      match handle (rdc_action d) with
      | None => mret (mkActionOutcome name "skipped" (Some "no_handler") None)
      | Some h =>
          _ ← store (_set_action_fence (rdc_job_id d) (rdc_owner_instance_id d) (rdc_lease_epoch d) (rdc_facts_version d));
          result ← finally (run_handler d job h) (store _clear_action_fence);
          _ ← (if String.eqb (ao_status result) "exhausted"
               then store (_persist_error lease_owner lease_epoch (j_id job) (name ++ "_exhausted"))
               else if String.eqb (ao_status result) "adapter_exception"
               then _ ← store (adapter_exception_decision lease_owner lease_epoch (j_id job) (default "None" (ao_detail result))); mret tt
               else mret tt);
          mret result
      end
  end.
End Handlers.
