(* ===== verification/ActionSpec.v ===== *)
(** * ActionSpec: the action journal and what it guards.

    Whatever decisions are carried out, and however they fail, the rows of the journal keep
    their identity and their bounded attempts, a dispatch is launched at most once, and the
    workspace is written only for a journaled patch set whose precondition it has. *)
From stdpp Require Import gmap.
From S2P Require Import Prelude PyVal Models Json Canonical Timestamps Trust Workflow JobState Concurrency Recovery IsoParse Governor Outputs CoreStore Core Dispatch Authority JobRows Worktree Leases JobSteps JobInv LeaseSession JobFrame Outbox Ledger Supervisor Reconcile DecideSpec ReconcileSpec Processes Workspace Actions Along.
#[local] Open Scope string_scope.

(** *** Programs that leave the journal alone *)
Definition calm (s s' : JSt) : Prop :=
  jt_actions (js_t s') = jt_actions (js_t s) /\ jt_intents (js_t s') = jt_intents (js_t s).
#[export] Instance calm_preorder : PreOrder calm.
Proof. split; [done|]. unfold calm. intros a b c [] []. split; congruence. Qed.
Lemma calm_same s s' : js_t s' = js_t s -> calm s s'.
Proof. unfold calm. by intros ->. Qed.
Lemma calm_reads {A} (m : jcmd A) : reads m -> along calm m.
Proof. intros H s r s' E. apply H in E as (_ & T & _). by apply calm_same. Qed.
Lemma calm_core {A} (m : cmd A) : along calm (on_core m).
Proof. intros s r s'. unfold on_core. destruct (m (js_core s)) as [x c]. intros [= _ <-]. by apply calm_same. Qed.
Lemma calm_jobs p f : along calm (jupdate jt_jobs p f).
Proof. intros s r s' E. by apply jupdate_cases in E as [->| ->]. Qed.
Lemma calm_processes p f : along calm (jupdate jt_processes p f).
Proof. intros s r s' E. by apply jupdate_cases in E as [->| ->]. Qed.
Lemma calm_process x : along calm (jinsert jt_processes x).
Proof. intros s r s' E. by apply jwrite_cases in E as [->| ->]. Qed.
Lemma calm_fence f : along calm (modify (fun s => s <| js_fence := f |>)).
Proof. intros s r s' [= _ <-]. by apply calm_same. Qed.
Lemma calm_transaction {env : Env} {A} (m : jcmd A) : along calm m -> along calm (jtransaction m).
Proof.
  intros Hm s [a|e] s' E.
  - apply jtransaction_ok in E as (s1 & (D & T & _) & _ & E). apply Hm in E. etrans; [|exact E]. by apply calm_same.
  - apply jtransaction_err in E as [D T]. by apply calm_same.
Qed.
Lemma calm_outbox {env : Env} j k t r e v g b : along calm (_enqueue_notification j k t r e v g b).
Proof. intros s x s' E. apply enqueue_outbox in E as (_ & _ & o & E). unfold calm. by rewrite E. Qed.
Ltac calm_step :=
  lazymatch goal with
  | |- along _ (on_core _) => apply calm_core
  | |- along _ (jtransaction _) => apply calm_transaction
  | |- along _ (jquery _) => apply al_gets; exact _
  | |- along _ (jupdate jt_jobs _ _) => apply calm_jobs
  | |- along _ (jupdate jt_processes _ _) => apply calm_processes
  | |- along _ (jinsert jt_processes _) => apply calm_process
  | |- along _ (_enqueue_notification _ _ _ _ _ _ _ _) => apply calm_outbox
  | |- along _ jnow => apply calm_reads; apply jnow_reads
  | |- along _ jnow_iso => apply calm_reads; apply jnow_iso_reads
  | |- along _ _check_action_fence => apply calm_reads; apply check_fence_reads
  | |- along _ (_enforce_lease_fence _ _ _) => apply calm_reads; apply lease_fence_reads
  | |- along _ (get_supervisor_job _) => apply al_gets; exact _
  | |- along _ (modify (fun s => s <| js_fence := _ |>)) => apply calm_fence
  | |- along _ (let _ := _ in _) => cbv zeta
  | |- along _ (if ?b then _ else _) => destruct b
  | _ => al_step
  end.
Ltac calm := repeat calm_step.

Section Calm.
Context {env : Env} {penv : ProcEnv}.
Lemma calm_update id fields : along calm (_update_supervisor_job id fields).
Proof. unfold _update_supervisor_job. calm. Qed.
Lemma calm_transition id ps st f oa b c n : along calm (_transition_job id ps st f oa b c n).
Proof. unfold _transition_job, need_job. calm. Qed.
Lemma calm_error_notice job : along calm (_enqueue_persistent_error_notification job).
Proof. unfold _enqueue_persistent_error_notification. destruct persistent_error_outcome. calm. Qed.
Lemma calm_close_notice job terminal reason : along calm (_enqueue_close_notification job terminal reason).
Proof. unfold _enqueue_close_notification, dbquery. calm. Qed.
Lemma calm_observe f lookup : along calm (_guarded_observe f lookup).
Proof. unfold _guarded_observe. calm. Qed.
Lemma calm_recheck o e id : along calm (_recheck_lease_fence o e id).
Proof. unfold _recheck_lease_fence. calm. Qed.
Lemma calm_holder e j o ep n : along calm (check_holder e j o ep n).
Proof. unfold check_holder. calm. Qed.
Lemma calm_assert id o e : along calm (assert_lease_current id o e).
Proof. unfold assert_lease_current. calm. apply calm_holder. Qed.
Lemma calm_bind j d o ep r b br p eh ch : along calm (bind_writer_worktree j d o ep r b br p eh ch).
Proof. unfold bind_writer_worktree, _validate_lease_owner, _validate_epoch, need_job. calm; [apply calm_holder | apply calm_update]. Qed.
Lemma calm_persist o e id code : along calm (_persist_error o e id code).
Proof. unfold _persist_error. calm; [apply calm_update | apply calm_error_notice]. Qed.
Lemma calm_bounded o e id code now job : along calm (bounded_job_backoff o e id code now job).
Proof. unfold bounded_job_backoff. calm; first [apply calm_update | apply calm_error_notice]. Qed.
Lemma calm_backoff o e id code : along calm (_apply_job_backoff o e id code).
Proof. unfold _apply_job_backoff. calm. apply calm_bounded. Qed.
Lemma calm_adapter o e id name : along calm (adapter_exception_decision o e id name).
Proof. unfold adapter_exception_decision, need_job. calm. apply calm_bounded. Qed.
Lemma calm_provider lease job : along calm (_provider_unavailable_backoff lease job).
Proof. unfold _provider_unavailable_backoff. calm; first [apply calm_update | apply calm_error_notice | apply calm_transition]. Qed.
Lemma calm_identity pid : along calm (current_identity pid).
Proof. unfold current_identity, process_start_ticks, boot_id, moment. calm. Qed.
Lemma calm_register p j d i st cg sc rc pv l t o ev : along calm (register p j d i st cg sc rc pv l t o ev).
Proof. unfold register, _insert_process_registration. calm. Qed.
Lemma calm_terminal p x a t o ev : along calm (mark_terminal p x a t o ev).
Proof.
  unfold mark_terminal, mark_process_terminal_with_evidence, get_process_registration, _update_process_registration. calm.
Qed.
Lemma calm_frontier src id : along calm (frontier_fn src id).
Proof. unfold frontier_fn. calm. Qed.
Lemma calm_set_fence j o e f : along calm (_set_action_fence j o e f).
Proof. unfold _set_action_fence. calm. Qed.
Lemma calm_clear_fence : along calm _clear_action_fence.
Proof. unfold _clear_action_fence. calm. Qed.
(** The lease commands change jobs and recovery markers only. *)
Lemma calm_lease {A} (m : jcmd A) c : lease_exec c = done_ m -> along calm m.
Proof.
  intros E s r s' H. assert (D : exists x, lease_exec c s = (x, s')).
  { rewrite E. unfold done_, mbind, M_bind. rewrite H. destruct r; by eexists. }
  destruct D as [x D]. apply lease_exec_frame in D as (_ & j & k & T). unfold calm. by rewrite T.
Qed.
Lemma calm_claim j o t : along calm (claim_job j o t).
Proof. by apply (calm_lease _ (Claim j o t)). Qed.
Lemma calm_claim_next o t : along calm (claim_next_job o t).
Proof. by apply (calm_lease _ (ClaimNext o t)). Qed.
Lemma calm_renew j o e t : along calm (renew_lease j o e t).
Proof. by apply (calm_lease _ (Renew j o e t)). Qed.
Lemma calm_clear j o e : along calm (clear_lease j o e).
Proof. by apply (calm_lease _ (Clear j o e)). Qed.
Lemma calm_lost j c x : along calm (quarantine_lost j c x).
Proof. by apply (calm_lease _ (QuarantineLost j c x)). Qed.
Lemma calm_blocked j c k x : along calm (quarantine_blocked j c k x).
Proof. by apply (calm_lease _ (QuarantineBlocked j c k x)). Qed.
Lemma calm_takeover j x o t a v : along calm (recover_takeover_job j x o t a v).
Proof. by apply (calm_lease _ (Takeover j x o t a v)). Qed.
Lemma calm_enqueue j e : along calm (enqueue_job j e).
Proof. by apply (calm_lease _ (EnqueueJob j e)). Qed.
Lemma calm_resource j o e d r h a : along calm (persist_resource_decision j o e d r h a).
Proof. by apply (calm_lease _ (PersistResource j o e d r h a)). Qed.
Lemma calm_recovery j o e f d r n x p : along calm (commit_recovery_decision j o e f d r n x p).
Proof. by apply (calm_lease _ (CommitRecovery j o e f d r n x p)). Qed.
Lemma calm_current j o e : along calm (lease_is_current j o e).
Proof. unfold lease_is_current. calm. Qed.
(** A reconciliation writes the job row and the outbox. *)
Lemma calm_gate_notice job g : along calm (_enqueue_waiting_gate_notification job g).
Proof. unfold _enqueue_waiting_gate_notification. destruct waiting_gate_outcome. calm. Qed.
Lemma calm_facts src job t : along calm (_read_core_facts src job t).
Proof. apply calm_reads, core_facts_reads. Qed.
Lemma calm_decide snap o : along calm (_decide snap o).
Proof. apply calm_reads, decide_reads. Qed.
Ltac leaf :=
  lazymatch goal with
  | |- along _ (_read_core_facts _ _ _) => apply calm_facts
  | |- along _ (_decide _ _) => apply calm_decide
  | |- along _ (_update_supervisor_job _ _) => apply calm_update
  | |- along _ (_enqueue_persistent_error_notification _) => apply calm_error_notice
  | |- along _ (_enqueue_waiting_gate_notification _ _) => apply calm_gate_notice
  | |- along _ (_guarded_observe _ _) => apply calm_observe
  end.
Lemma calm_commit src lo le job_id snap obs : along calm (_commit src lo le job_id snap obs).
Proof.
  unfold _commit, need_job, dbquery. calm; leaf.
Qed.
Lemma calm_reconcile src lo le f job_id : along calm (reconcile src lo le f job_id).
Proof.
  unfold reconcile. induction (MAX_SNAPSHOT_RETRIES + 1) as [|n IH]; cbn [reconcile_loop].
  - unfold _backoff_decision, need_job. calm. apply calm_transition.
  - unfold _read_snapshot, _observe. calm; first [leaf | apply calm_commit | exact IH].
Qed.
End Calm.
Create HintDb calm.
#[export] Hint Resolve calm_update calm_transition calm_error_notice calm_close_notice calm_observe calm_recheck calm_assert
  calm_bind calm_persist calm_backoff calm_adapter calm_provider calm_identity calm_register calm_terminal calm_frontier
  calm_set_fence calm_clear_fence calm_claim calm_claim_next calm_renew calm_clear calm_lost calm_blocked calm_takeover calm_enqueue
  calm_resource calm_recovery calm_current calm_reconcile : calm.

(** *** A walk through the handlers *)
(** No dispatch's spawn key, for an id without a colon that is not the word of the owner gate. *)
Definition plain_id (id : string) : Prop := split_on ":" id = [id] /\ id <> "present-gate".
Definition foreign_key (key : string) : Prop := forall id, plain_id id -> key <> spawn_key id.
Definition same_logs (s s' : ASt) : Prop := calm (as_js s) (as_js s') /\ wo_launched (as_world s') = wo_launched (as_world s).
Definition terminals : list string := ["DONE"; "FAILED"; "BLOCKED"].
Definition claim_ids (c : apply_claim) : list string := match c with Conflict w => [w] | Claimed row _ => [a_id row] end.

(** A relation on states that knows which rows of the journal a handler has begun: it is kept by every
    program that leaves the journal alone, by finishing a begun row, and by beginning one. *)
Class Journaling `{Env} `{ActEnv} (R : list string -> ASt -> ASt -> Prop) (key_ok launch_ok : string -> Prop) : Prop := {
  jr_preorder own :: PreOrder (R own);
  jr_frame own s s' : same_logs s s' -> R own s s';
  jr_finish own row status e : In (a_id row) own -> along (R own) (finish row status e);
  jr_begin own key name job d args h (k : SupervisorAction * begin_outcome -> acmd ActionOutcome) : key_ok key ->
    (forall row o, along (R (a_id row :: own)) (k (row, o))) -> along (R own) (r ← store (_begin_action key name job d args h); k r);
  jr_begin_apply own key job d input args h (k : apply_claim -> acmd ActionOutcome) : key_ok key ->
    (forall c, along (R (claim_ids c ++ own)%list) (k c)) -> along (R own) (c ← store (_begin_apply_action key job d input args h); k c);
  jr_committed own d (k : list SupervisorAction -> acmd ActionOutcome) :
    (forall l, along (R (map a_id l ++ own)%list) (k l)) -> along (R own) (l ← store (jquery (_committed_apply_intents d)); k l);
  jr_close own job terminal reason : In terminal terminals -> along (R own) (store (_close_job job terminal reason));
  jr_launched own d : launch_ok d -> along (R own) (log_launched d);
  jr_foreign key : foreign_key key -> key_ok key
}.

Section Keys.
(** The segments of a key. *)
Notation segs := (split_on ":").
Lemma spawn_segs id : plain_id id -> segs (spawn_key id) = ["supervisor"; "dispatch"; id; "spawn"].
Proof.
  intros [F _]. change (spawn_key id) with ("supervisor" ++ String ":" ("dispatch" ++ String ":" (id ++ String ":" "spawn"))).
  by rewrite !split_app, F.
Qed.
Lemma segs_foreign key : (forall id, segs key = ["supervisor"; "dispatch"; id; "spawn"] -> id = "present-gate") -> foreign_key key.
Proof. intros H id P E. apply (proj2 P), H. rewrite E. by apply spawn_segs. Qed.
Lemma long_foreign a b c d e : foreign_key (a ++ String ":" (b ++ String ":" (c ++ String ":" (d ++ String ":" e)))).
Proof.
  apply segs_foreign. intros id. rewrite !split_app. intros E. apply (f_equal (@List.length string)) in E.
  rewrite !length_app in E. cbn [List.length] in E.
  pose proof (split_nonempty ":" a). pose proof (split_nonempty ":" b). pose proof (split_nonempty ":" c).
  pose proof (split_nonempty ":" d). pose proof (split_nonempty ":" e).
  destruct (segs a), (segs b), (segs c), (segs d), (segs e); cbn in *; try done; lia.
Qed.
Lemma tail_foreign a b c : segs c = [c] -> c <> "spawn" -> foreign_key (a ++ String ":" (b ++ String ":" c)).
Proof.
  intros F N. apply segs_foreign. intros id. rewrite !split_app, F. intros E. exfalso. apply N.
  rewrite app_assoc in E. by apply (app_inj_tail _ ["supervisor"; "dispatch"; id]) in E as [_ ->].
Qed.
Lemma gate_foreign job gate : foreign_key ("supervisor:" ++ job ++ ":present-gate:" ++ gate).
Proof.
  apply segs_foreign. intros id.
  change ("supervisor:" ++ job ++ ":present-gate:" ++ gate)
    with ("supervisor" ++ String ":" (job ++ String ":" ("present-gate" ++ String ":" gate))).
  rewrite !split_app. pose proof (split_nonempty ":" job). pose proof (split_nonempty ":" gate).
  destruct (segs job) as [|x [|y l]]; [done| |].
  - cbn. by intros [= _ <- _].
  - cbn. intros [= _ _ E]. apply (f_equal (@List.length string)) in E. rewrite length_app in E. cbn in E.
    destruct (segs gate); [done|]. cbn in E. lia.
Qed.
Lemma string_length_app a b : String.length (a ++ b) = (String.length a + String.length b)%nat.
Proof. induction a as [|x a IH]; [done|]. cbn. by rewrite IH. Qed.
Lemma close_foreign job terminal : In terminal terminals -> foreign_key ("supervisor:" ++ job ++ ":close:" ++ terminal).
Proof.
  intros I. apply segs_foreign. intros id E. exfalso.
  change ("supervisor:" ++ job ++ ":close:" ++ terminal) with ("supervisor" ++ String ":" (job ++ String ":" ("close" ++ String ":" terminal))) in E.
  rewrite !split_app in E. assert (F : segs terminal = [terminal]) by (repeat (destruct I as [<-|I]; [done|]); done). rewrite F, !app_assoc in E.
  apply (app_inj_tail _ ["supervisor"; "dispatch"; id]) in E as [_ ->]. by repeat (destruct I as [I|I]; [done|]).
Qed.
Lemma app_cancel a b s : a ++ s = b ++ s -> a = b.
Proof.
  revert b. induction a as [|x a IH]; intros [|y b] E; [done| | |];
    [apply (f_equal String.length) in E; cbn in E; rewrite string_length_app in E; lia ..|].
  cbn in E. injection E as <- E. by rewrite (IH b E).
Qed.
Lemma spawn_key_inj a b : spawn_key a = spawn_key b -> a = b.
Proof. unfold spawn_key. intros E%string_app_inj. by apply app_cancel in E. Qed.
End Keys.

(** Carrying a decision out is its handler, between steps that leave the journal and the logs alone. *)
Section Perform.
Context {env : Env} {penv : ProcEnv} {fenv : FsEnv} {aenv : ActEnv} (lease : option (string * Z)).
Context (P : ASt -> ASt -> Prop) `{!PreOrder P} (along_store : forall A (m : jcmd A), along calm m -> along P (store m)).
Ltac outer := repeat lazymatch goal with
  | |- along _ (store _) => apply along_store; first [solve [eauto with calm] | solve [calm; eauto with calm]]
  | |- along _ (if ?b then _ else _) => destruct b
  | _ => al_step
  end.
Lemma along_handler d job h : along P (h d job) -> along P (run_handler lease d job h).
Proof.
  intros H s r s'. unfold run_handler. destruct (h d job s) as [[x|e] s1] eqn:E; apply H in E; [by intros [= _ <-]|].
  assert (Q : along P (_ ← store (_persist_error (fst <$> lease) (snd <$> lease) (j_id job) (value (rdc_action d) ++ "_args_hash_mismatch"));
    mret (mkActionOutcome (value (rdc_action d)) "failed" (Some ("args_hash_mismatch:" ++ exc_text IdempotencyError)) (rdc_dispatch_id d))) ) by outer.
  destruct e; cbn [argent_error]; try (intros [= _ <-]; exact E). intros F. apply Q in F. by etrans.
Qed.
Lemma along_perform d : (forall job h, handle lease (rdc_action d) = Some h -> along P (h d job)) -> along P (perform_next_safe_action_if_required lease d).
Proof. intros H. unfold perform_next_safe_action_if_required. outer. apply along_handler. by apply H. Qed.
End Perform.

Section Walk.
Context {env : Env} {penv : ProcEnv} {fenv : FsEnv} {aenv : ActEnv} (lease : option (string * Z)).
Context (R : list string -> ASt -> ASt -> Prop) (key_ok launch_ok : string -> Prop) {J : Journaling R key_ok launch_ok}.

Lemma w_store {A} own (m : jcmd A) : along calm m -> along (R own) (store m).
Proof.
  intros H s r s'. unfold store. destruct (m (as_js s)) as [x j] eqn:E. intros [= _ <-].
  apply jr_frame. split; [by apply (H _ _ _ E) | done].
Qed.
Lemma w_begin own key name job d args (k : SupervisorAction * begin_outcome -> acmd ActionOutcome) : key_ok key ->
  (forall row o, along (R (a_id row :: own)) (k (row, o))) -> along (R own) (r ← begin_ key name job d args; k r).
Proof. intros K H. apply al_assoc, al_bind; [exact _ | apply al_lift; exact _ | intros h]. by apply jr_begin. Qed.
Lemma w_world own (f : World -> World) : (forall w, wo_launched (f w) = wo_launched w) -> along (R own) (modify (fun s => s <| as_world ::= f |>)).
Proof. intros H s r s' [= _ <-]. apply jr_frame. split; [reflexivity | apply H]. Qed.
Lemma w_attempt {A} own caught (m : acmd A) : along (R own) m -> along (R own) (attempt caught m).
Proof.
  intros H s r s'. unfold attempt. destruct (m s) as [[a|e] s1] eqn:E; apply H in E; [by intros [= _ <-]|].
  by destruct (caught e); intros [= _ <-].
Qed.
Lemma w_broker own j d root ps role : along (R own) (run_broker j d root ps role).
Proof.
  intros s r s'. unfold run_broker. destruct (apply_patch_set _ _ _ _ _ _ _) as [x br]. intros [= _ <-].
  apply jr_frame. split; [by apply calm_same | done].
Qed.
Lemma calm_job id : along calm (get_supervisor_job id).
Proof. unfold get_supervisor_job. calm. Qed.
Ltac walk_step :=
  lazymatch goal with
  | |- along _ (store ?m) => apply w_store; first [solve [eauto with calm] | solve [calm; eauto with calm]]
  | |- along _ (finish _ _ _) => apply jr_finish; solve [cbn; auto]
  | |- along _ (begin_ _ _ _ _ _ ≫= _) => apply w_begin; [| intros ? ?]
  | |- along _ (store (_begin_action _ _ _ _ _ _) ≫= _) => apply jr_begin; [| intros ? ?]
  | |- along _ (store (_begin_apply_action _ _ _ _ _ _) ≫= _) => apply jr_begin_apply; [| intros ?]
  | |- along _ (core_cmd _) => unfold core_cmd
  | |- along _ db_now => unfold db_now, dbquery
  | |- along _ act_now_iso => unfold act_now_iso
  | |- along _ (observed _) => unfold observed
  | |- along _ (attempt _ _) => apply w_attempt
  | |- along _ (let _ := _ in _) => cbv zeta
  | |- along _ (if ?b then _ else _) => destruct b
  | _ => al_step
  end.
Ltac walk := repeat walk_step.

Lemma w_dispatch own name d k : (forall id ad, rdc_dispatch_id d = Some id -> d_id ad = id -> along (R own) (k id ad)) ->
  along (R own) (with_dispatch name d k).
Proof.
  intros H. unfold with_dispatch. destruct (rdc_dispatch_id d) as [id|] eqn:E; [|walk].
  apply al_bind_known; [exact _ | walk | intros [ad|] s s1 F; [|walk]].
  apply H; [done|]. unfold store, on_core, get_dispatch, query in F. injection F as F _. by apply row_by_id in F as [<- _].
Qed.
Lemma w_observing own name id ad k : (forall obs, along (R own) (k obs)) -> along (R own) (observing name id ad k).
Proof. intros H. unfold observing. walk; auto. Qed.
Lemma w_try {A} own name row d (m : acmd A) k : In (a_id row) own -> along (R own) m -> (forall a, along (R own) (k a)) ->
  along (R own) (try_core name row d m k).
Proof. intros I Hm Hk. unfold try_core. walk; auto. Qed.
Lemma w_executed own name row detail d : In (a_id row) own -> along (R own) (executed name row detail d).
Proof. intros I. unfold executed. walk. Qed.
Lemma w_reconciled own name o row d m go : In (a_id row) own -> along (R own) m -> along (R own) go ->
  along (R own) (reconciled_or name o row d m go).
Proof. intros I Hm Hg. unfold reconciled_or. walk; auto. Qed.
Lemma w_is own p id : along (R own) (dispatch_is p id).
Proof. unfold dispatch_is. walk. Qed.

Ltac foreign :=
  apply (jr_foreign (R := R));
  first
    [ solve [refine (long_foreign "supervisor" "dispatch" _ "bind" _)] | solve [refine (long_foreign "supervisor" "dispatch" _ "fail" _)]
    | solve [refine (long_foreign "supervisor" "dispatch" _ "apply" _)] | solve [refine (long_foreign "supervisor" "dispatch" _ "tests" _)]
    | solve [refine (long_foreign "supervisor" "dispatch" _ "record-test" _)] | solve [refine (long_foreign "supervisor" "consume" _ _ _)]
    | solve [refine (long_foreign "supervisor" _ "cycle" _ _)] | solve [by refine (tail_foreign "supervisor" _ "core-recover" _ _)]
    | apply gate_foreign ].
Ltac walk_h :=
  lazymatch goal with
  | |- along _ (with_dispatch _ _ _) => apply w_dispatch; intros ? ? ? ?
  | |- along _ (observing _ _ _ _) => apply w_observing; intros ?
  | |- along _ (try_core _ _ _ _ _) => apply w_try; [cbn; auto | | intros ?]
  | |- along _ (executed _ _ _ _) => apply w_executed; cbn; auto
  | |- along _ (reconciled_or _ _ _ _ _ _) => apply w_reconciled; [cbn; auto | |]
  | |- along _ (dispatch_is _ _) => apply w_is
  | |- key_ok _ => foreign
  | |- along _ (frontier_now _) => unfold frontier_now
  | |- along _ (store (_close_job _ _ _)) => apply jr_close; cbn; auto
  | |- along _ (frozen_hash _) => unfold frozen_hash
  | _ => walk_step
  end.
Ltac walks := repeat walk_h.
Lemma w_start own d job : along (R own) (_perform_start_role d job).
Proof. unfold _perform_start_role. walks. Qed.
Lemma w_create own d job : along (R own) (_perform_create_dispatch lease d job).
Proof. unfold _perform_create_dispatch, moment. walks. Qed.
Lemma w_bind own d job : along (R own) (_perform_bind_run d job).
Proof. unfold _perform_bind_run. walks. Qed.
Lemma w_failed own d job : along (R own) (_perform_mark_run_failed d job).
Proof. unfold _perform_mark_run_failed. walks. Qed.
Lemma w_fail_consume own job id env' reason : along (R own) (_fail_consume job id env' reason).
Proof. unfold _fail_consume. cbv zeta. case_match; walks. Qed.
Lemma w_consumed own job id ad run e c : along (R own) (consume_validated job id ad run e c).
Proof. unfold consume_validated. walks. Qed.
Lemma w_consume own d job : along (R own) (_perform_consume_result d job).
Proof. unfold _perform_consume_result. walks; first [apply w_fail_consume | apply w_consumed]. Qed.
Lemma w_evidence own j d pid sc : along (R own) (_register_process_evidence j d pid sc).
Proof. unfold _register_process_evidence. walks. Qed.
Lemma w_terminal own job d sc x t o ev : along (R own) (register_terminal job d sc x t o ev).
Proof. unfold register_terminal, get_process_registration_for_dispatch. walks. apply w_evidence. Qed.
Lemma w_admission own job : along (R own) (_fresh_admission job).
Proof. unfold _fresh_admission, moment. walks. Qed.
Lemma w_sandboxed own job d : along (R own) (_run_sandbox_scoped job d).
Proof. unfold _run_sandbox_scoped, moment. walks; apply w_terminal. Qed.
Lemma w_tests own job d root row : In (a_id row) own -> along (R own) (run_tests job d root row).
Proof.
  intros I. unfold run_tests, moment, tested, _sandbox_resource_termination, get_process_registration_for_dispatch. walks;
    first [apply w_admission | apply w_sandboxed].
Qed.
Lemma w_frozen own name d f ad k : along (R own) k -> along (R own) (still_frozen name d f ad k).
Proof. intros H. unfold still_frozen. walks. Qed.
Lemma w_sandbox own d job : along (R own) (_perform_run_sandbox_tests d job).
Proof. unfold _perform_run_sandbox_tests. walks. apply w_frozen. walks. apply w_tests. cbn. auto. Qed.
Lemma w_record own d job : along (R own) (_perform_record_test_result d job).
Proof. unfold _perform_record_test_result. walks. apply w_frozen. walks. Qed.
Lemma w_recover own d job : along (R own) (_perform_core_recover d job).
Proof. unfold _perform_core_recover. walks. Qed.
Lemma w_gate own d job : along (R own) (_perform_present_owner_gate d job).
Proof. unfold _perform_present_owner_gate. walks. Qed.
Lemma w_error own d job : along (R own) (_perform_persistent_error d job).
Proof. unfold _perform_persistent_error. walks. Qed.

Lemma w_action {A} own id (k : option SupervisorAction -> acmd A) : (forall o, (forall a, o = Some a -> a_id a = id) -> along (R own) (k o)) ->
  along (R own) (o ← store (get_supervisor_action id); k o).
Proof.
  intros H. apply al_bind_known; [exact _ | apply w_store; apply al_gets; exact _ | intros o s s1 E].
  apply H. intros a ->. injection E as E _. by apply row_by_id in E as [E _].
Qed.
Lemma w_workspace own x d root : along (R own) (bind_workspace x d root).
Proof. unfold bind_workspace, moment, fs_of. walks. Qed.
Lemma w_hash own root : along (R own) (workspace_hash root).
Proof. unfold workspace_hash, fs_of. walks. Qed.
Lemma w_diverged own row d : In (a_id row) own -> along (R own) (diverged row d).
Proof. intros I. unfold diverged. walks. Qed.
Lemma w_backoff own job code : along (R own) (job_backoff lease job code).
Proof. unfold job_backoff. walks. Qed.
Lemma w_invoke own job d root ad row : In (a_id row) own -> along (R own) (_invoke_broker_locked lease job d root ad row).
Proof.
  intros I. unfold _invoke_broker_locked, moment. walks;
    first [by apply w_diverged | apply w_backoff | apply w_workspace | by apply w_world | apply w_broker | apply w_hash].
Qed.
Lemma w_locked own job d ad row : In (a_id row) own -> along (R own) (_apply_patch_set_locked lease job d ad row).
Proof.
  intros I. unfold _apply_patch_set_locked. apply w_action. intros o E.
  assert (I' : In (a_id (default row o)) own) by (destruct o as [a|]; [cbn; by rewrite (E a eq_refl) | done]).
  walks; first [apply w_hash | by apply w_invoke | by apply w_diverged].
Qed.
Lemma w_fenced own job d ad row : In (a_id row) own -> along (R own) (_apply_patch_set_fenced lease job d ad row).
Proof. intros I. unfold _apply_patch_set_fenced, _acquire_dispatch_lock, moment. walks; first [by apply w_locked | apply w_backoff]. Qed.
Lemma w_existing own job d ad row : In (a_id row) own -> along (R own) (_reconcile_existing_apply lease job d ad row).
Proof. intros I. unfold _reconcile_existing_apply. walks. by apply w_fenced. Qed.
Lemma w_conflict own job d ad w : In w own -> along (R own) (_apply_conflict_outcome lease job d ad w).
Proof.
  intros I. unfold _apply_conflict_outcome. apply w_action. intros [a|] E; walks.
  apply w_existing. by rewrite (E a eq_refl).
Qed.
Lemma apply_foreign d h : foreign_key (apply_key d h).
Proof. refine (long_foreign "supervisor" "dispatch" _ "apply" _). Qed.
Lemma w_refuse own job d h reason : along (R own) (_fail_apply job d h reason).
Proof. unfold _fail_apply. walks. Qed.
Lemma w_noop own job d h ad : along (R own) (apply_noop lease job d h ad).
Proof.
  unfold apply_noop. walks. apply w_conflict. cbn. auto.
Qed.
Lemma w_patches own job d h root ad ps : along (R own) (apply_patches lease job d h root ad ps).
Proof.
  unfold apply_patches, fs_of. walks; first [apply w_conflict | apply w_fenced]; cbn; auto.
Qed.
Lemma w_apply own d job : along (R own) (_perform_apply_patch_set lease d job).
Proof.
  unfold _perform_apply_patch_set. apply w_dispatch; intros id ad _ _. apply w_observing; intros obs.
  apply jr_committed. intros [|a l]; [|apply w_existing; cbn; auto].
  walks; first [apply w_refuse | apply w_noop | apply w_patches].
Qed.
Lemma w_scoped own e ad job row a : In (a_id row) own -> launch_ok (d_id ad) -> along (R own) (_spawn_scoped e ad job row a).
Proof.
  intros I L. unfold _spawn_scoped, moment, log_tried. walks; first [by apply w_world | by apply jr_launched | apply w_evidence].
Qed.
Lemma w_spawn_body own ad job row : In (a_id row) own -> launch_ok (d_id ad) -> along (R own) (spawn_body lease ad job row).
Proof. intros I L. unfold spawn_body, moment. walks; first [apply w_admission | by apply w_scoped]. Qed.
Lemma w_spawn own d job : (forall id, rdc_dispatch_id d = Some id -> key_ok (spawn_key id) /\ launch_ok id) ->
  along (R own) (_perform_spawn_run lease d job).
Proof.
  intros H. unfold _perform_spawn_run. apply w_dispatch; intros id ad E F. destruct (H id E) as [K L].
  apply w_begin; [done | intros row o]. unfold spawn_end. walks. apply w_spawn_body; [cbn; auto | by rewrite F].
Qed.

(** One decision: any handler but the one that starts a run of another key. *)
Definition may_launch (d : ReconcileDecision) : Prop := forall id, rdc_action d = RA_SPAWN_RUN -> rdc_dispatch_id d = Some id ->
  key_ok (spawn_key id) /\ launch_ok id.
Lemma w_handle own d job h : may_launch d -> handle lease (rdc_action d) = Some h -> along (R own) (h d job).
Proof.
  intros L. destruct (rdc_action d) eqn:E; cbn [handle]; intros [= <-]; unfold _perform_close;
    first [apply w_start | apply w_create | apply w_spawn; auto | apply w_bind | apply w_apply | apply w_sandbox | apply w_record
          | apply w_consume | apply w_failed | apply w_recover | apply w_gate | apply w_error | walks].
Qed.
Lemma w_perform own d : may_launch d -> along (R own) (perform_next_safe_action_if_required lease d).
Proof. intros L. apply along_perform; [exact _ | intros A m; apply w_store | intros job h H; by apply w_handle]. Qed.
End Walk.

(** *** What beginning an action does to the tables *)
(** No row of the key yet, a row that may be tried again, or a row left as it is. *)
Inductive began (key name : string) (job : Job) (d : option string) (args : string) (h : ActionHashes) (t : JT) : SupervisorAction -> begin_outcome -> JT -> Prop :=
| Began_new now t' : action_by_key key t = None -> uniq a_id (jt_actions t') = true ->
    t' = t <| jt_actions := (jt_actions t ++ [new_row key name job d args now h])%list |> ->
    began key name job d args h t (new_row key name job d args now h) B_new t'
| Began_again now a t' : action_by_key key t = Some a -> In (a_status a) ["PLANNED"; "FAILED"] -> (a_attempt_count a < MAX_ACTION_RETRIES)%Z ->
    uniq a_id (jt_actions t) = true -> t' = t <| jt_actions := update_where (is_action (a_id a)) (restart_row now h) (jt_actions t) |> ->
    began key name job d args h t (restart_row now h a) B_retry t'
| Began_left a o : action_by_key key t = Some a -> (o = B_succeeded \/ o = B_running \/ o = B_exhausted) ->
    began key name job d args h t a o t.

Lemma actions_uniq db t : jt_ok db t = true -> uniq a_id (jt_actions t) = true /\ uniq a_action_key (jt_actions t) = true.
Proof.
  unfold jt_ok, actions_ok. rewrite !andb_true_iff. tauto.
Qed.
Lemma uniq_update_back {A} (key : A -> string) p f l : (forall x, key (f x) = key x) -> uniq key (update_where p f l) = true -> uniq key l = true.
Proof. intros K. by rewrite (uniq_update key p f l K). Qed.
Lemma uniq_last {A} (key : A -> string) l x : uniq key (l ++ [x])%list = true -> by_id key (key x) l = None.
Proof.
  unfold uniq. rewrite bool_decide_eq_true, map_app. intros U%NoDup_app. destruct U as (_ & U & _).
  destruct (by_id key (key x) l) as [y|] eqn:E; [|done]. apply row_by_id in E as [E I]. exfalso.
  apply (U (key x)); [|by left]. apply list_elem_of_In. rewrite <- E. by apply in_map.
Qed.
Section Began.
Context {env : Env}.
Lemma begin_locked_ok key name job d args now h s row o s' :
  _begin_action_locked key name job d args now h s = (Ok (row, o), s') -> began key name job d args h (js_t s) row o (js_t s').
Proof.
  unfold _begin_action_locked, get_supervisor_action_by_key, get_supervisor_action, _insert_supervisor_action, _update_supervisor_action, jquery.
  cbv zeta. intros E. destruct (M_bind_ok _ _ _ _ _ E) as (x & s1 & [= <- <-] & E1). clear E.
  assert (New : (_ ← jinsert jt_actions (new_row key name job d args now h); mret (new_row key name job d args now h, B_new)) s = (Ok (row, o), s') ->
    began key name job d args h (js_t s) row o (js_t s')).
  { intros E. destruct (M_bind_ok _ _ _ _ _ E) as (u & s2 & I & [= <- <- <-]). apply jinsert_ok in I as [-> K].
    apply actions_uniq in K as [U1 U2]. apply Began_new; [exact (uniq_last a_action_key _ _ U2) | exact U1 | done]. }
  destruct (action_by_key key (js_t s)) as [a|] eqn:F; [|by apply New].
  destruct (M_bind_ok _ _ _ _ _ E1) as (u & s2 & V & E2). clear E1.
  assert (s2 = s) as -> by (revert V; destruct (String.eqb (a_args_hash a) args); by intros [= _ <-]).
  destruct (String.eqb (a_status a) "SUCCEEDED"); [injection E2 as <- <- <-; apply Began_left; auto|].
  destruct (str_in (a_status a) ["RUNNING"; "UNCERTAIN"]); [injection E2 as <- <- <-; apply Began_left; auto|].
  destruct (str_in (a_status a) ["PLANNED"; "FAILED"]) eqn:St; [|by apply New].
  destruct (MAX_ACTION_RETRIES <=? a_attempt_count a)%Z eqn:M; [injection E2 as <- <- <-; apply Began_left; auto|].
  destruct (M_bind_ok _ _ _ _ _ E2) as (n & s3 & W & E3). apply jupdate_ok in W as (_ & -> & K).
  destruct (M_bind_ok _ _ _ _ _ E3) as (b & s4 & [= <- <-] & E4). clear E2 E3.
  apply row_by_id in F as F'. destruct F' as [_ I].
  apply actions_uniq in K as [U _]. assert (U0 : uniq a_id (jt_actions (js_t s)) = true)
    by (revert U; by apply (uniq_update_back a_id)).
  unfold action_of in E4. cbn [jt_actions set] in E4.
  assert (B : by_id a_id (a_id a) (update_where (is_action (a_id a)) (restart_row now h) (jt_actions (js_t s))) = Some (restart_row now h a)).
  { rewrite row_by_id_update by done. rewrite (by_id_in _ _ _ U0 I). cbn. unfold is_action. by rewrite String.eqb_refl. }
  cbn in E4. rewrite B in E4. injection E4 as <- <- <-.
  eapply Began_again; [exact F | | lia | exact U0 | by destruct (js_t s)].
  revert St. unfold str_in. rewrite existsb_exists. intros (y & Y & ->%String.eqb_eq). done.
Qed.
Lemma tx_cases {A} (m : string -> jcmd A) s r s' : (now ← jnow_iso; jtransaction (m now)) s = (r, s') ->
  (exists e, r = Err e /\ js_t s' = js_t s) \/ exists a now s1, r = Ok a /\ js_t s1 = js_t s /\ m now s1 = (Ok a, s').
Proof.
  intros E. destruct (bind_split _ _ _ _ _ E) as [(now & s1 & N & T)|(e & N & ->)]; apply jnow_iso_reads in N as (_ & N & _); [|eauto].
  destruct r as [a|e].
  - apply jtransaction_ok in T as (s2 & (_ & Q & _) & _ & T). right. exists a, now, s2. by rewrite Q.
  - apply jtransaction_err in T as [_ T]. left. exists e. by rewrite T.
Qed.
Lemma begin_cases key name job d args h s r s' : _begin_action key name job d args h s = (r, s') ->
  (exists e, r = Err e /\ js_t s' = js_t s) \/ exists row o, r = Ok (row, o) /\ began key name job d args h (js_t s) row o (js_t s').
Proof.
  intros [H|([row o] & now & s1 & -> & T & E)]%tx_cases; [by left|]. right. exists row, o. split; [done|].
  apply begin_locked_ok in E. by rewrite T in E.
Qed.
Definition add_intent (d input now : string) (row : SupervisorAction) (t : JT) : JT :=
  t <| jt_intents := (jt_intents t ++ [mkWriteIntent d input (a_id row) now now])%list |>.
(** A write is claimed at most once; a different result finds the winner. *)
Inductive claimed (key : string) (job : Job) (d input args : string) (h : ActionHashes) (t : JT) : apply_claim -> JT -> Prop :=
| Claim_lost w : write_intent d t = Some w -> wi_canonical_input_hash w <> input -> claimed key job d input args h t (Conflict (wi_intent_action_id w)) t
| Claim_again w row o t' : write_intent d t = Some w -> wi_canonical_input_hash w = input ->
    began key "APPLY_PATCH_SET" job (Some d) args h t row o t' -> claimed key job d input args h t (Claimed row o) t'
| Claim_new row o t' now : write_intent d t = None -> began key "APPLY_PATCH_SET" job (Some d) args h t row o t' ->
    claimed key job d input args h t (Claimed row o) (add_intent d input now row t').
Lemma claim_cases key job d input args h s r s' : _begin_apply_action key job d input args h s = (r, s') ->
  (exists e, r = Err e /\ js_t s' = js_t s) \/ exists c, r = Ok c /\ claimed key job d input args h (js_t s) c (js_t s').
Proof.
  intros [H|(c & now & s1 & -> & T & E)]%tx_cases; [by left|]. right. exists c. split; [done|]. rewrite <- T. clear T.
  destruct (M_bind_ok _ _ _ _ _ E) as (w & s2 & [= <- <-] & E1). clear E. destruct (write_intent d (js_t s1)) as [w|] eqn:W.
  - destruct (String.eqb_spec (wi_canonical_input_hash w) input) as [I|I]; cbn [negb] in E1.
    + destruct (M_bind_ok _ _ _ _ _ E1) as ([row o] & s3 & B & [= <- <-]). apply begin_locked_ok in B. by eapply Claim_again.
    + injection E1 as <- <-. by apply Claim_lost.
  - destruct (M_bind_ok _ _ _ _ _ E1) as ([row o] & s3 & B & E2). apply begin_locked_ok in B.
    destruct (M_bind_ok _ _ _ _ _ E2) as (u & s4 & I & [= <- <-]). unfold _insert_dispatch_write_intent in I. apply jinsert_ok in I as [-> _]. by apply Claim_new.
Qed.
Lemma finish_cases id status e s r s' : _finish_action id status e s = (r, s') ->
  js_t s' = js_t s \/ exists now, js_t s' = (js_t s) <| jt_actions := update_where (is_action id) (finish_row status now e) (jt_actions (js_t s)) |>.
Proof.
  intros [(x & _ & T)|([] & now & s1 & _ & T & E)]%tx_cases; [by left|]. right. exists now. rewrite <- T.
  destruct (M_bind_ok _ _ _ _ _ E) as (n & s2 & U & [= <-]). unfold _update_supervisor_action in U. apply jupdate_ok in U as (_ & -> & _). by destruct (js_t s1).
Qed.
Definition close_key (job : Job) (terminal : string) : string := "supervisor:" ++ j_id job ++ ":close:" ++ terminal.
Lemma close_cases job terminal reason s r s' : _close_job job terminal reason s = (r, s') ->
  let t := js_t s in let key := close_key job terminal in
  jt_intents (js_t s') = jt_intents t /\
  (jt_actions (js_t s') = jt_actions t
   \/ (exists a now, action_by_key key t = Some a /\ jt_actions (js_t s') = update_where (is_action (a_id a)) (finish_row "SUCCEEDED" now None) (jt_actions t))
   \/ (exists args now, action_by_key key t = None /\ uniq a_id (jt_actions (js_t s')) = true /\ jt_actions (js_t s') = (jt_actions t ++ [close_row key args now job])%list)).
Proof.
  intros E t key. unfold _close_job in E. fold (close_key job terminal) in E. fold key in E.
  destruct (bind_split _ _ _ _ _ E) as [(args & s1 & [= _ <-] & T)|(e & [= _ <-] & _)]; try (by auto); clear E.
  apply tx_cases in T as [(e & _ & T)|(c & now & s1 & _ & T & E)]; [subst t; by rewrite T; auto|]. subst t. rewrite <- T. clear T s.
  destruct (M_bind_ok _ _ _ _ _ E) as (cur & s2 & [= <- <-] & E1). clear E. destruct (job_of (j_id job) (js_t s1)) as [cur|]; [|injection E1 as _ <-; by auto].
  destruct (M_bind_ok _ _ _ _ _ E1) as (ex & s2 & [= <- <-] & E2). clear E1.
  destruct (M_bind_ok _ _ _ _ _ E2) as (u & s2 & W & E3). clear E2.
  assert (Q : calm s2 s').
  { revert E3. match goal with |- ?m s2 = _ -> _ => change (m s2 = (Ok c, s') -> calm s2 s') end. intros E3.
    match type of E3 with ?m s2 = _ => assert (C : along calm m) by (calm; first [apply calm_update | apply calm_close_notice]) end.
    exact (C _ _ _ E3). }
  destruct Q as [-> ->]. clear E3.
  destruct (action_by_key key (js_t s1)) as [a|] eqn:K.
  - destruct (M_bind_ok _ _ _ _ _ W) as (u2 & s3 & V & W2).
    assert (s3 = s1) as -> by (revert V; destruct (String.eqb (a_args_hash a) args); by intros [= _ <-]).
    destruct (String.eqb (a_status a) "SUCCEEDED"); [injection W2 as _ <-; by auto|].
    destruct (M_bind_ok _ _ _ _ _ W2) as (n & s4 & U & [= _ <-]). unfold _update_supervisor_action in U. apply jupdate_ok in U as (_ & -> & _). split; [done|]. right. left. by exists a, now.
  - unfold _insert_supervisor_action in W. apply jinsert_ok in W as [-> H]. apply actions_uniq in H as [H1 _]. split; [done|]. right. right. by exists args, now.
Qed.
End Began.

(** *** The journal's history *)
Definition act_tables (s : ASt) : JT := js_t (as_js s).
(** What of a row never changes. *)
Definition row_identity (a : SupervisorAction) : string * string * option string * string * string * string * string :=
  (a_id a, a_supervisor_job_id a, a_dispatch_id a, a_action_type a, a_action_key a, a_args_hash a, a_created_at a).
Definition evolves (a a' : SupervisorAction) : Prop :=
  row_identity a' = row_identity a /\ (a_attempt_count a <= a_attempt_count a' <= Z.max (a_attempt_count a) MAX_ACTION_RETRIES)%Z.
Definition young (a : SupervisorAction) : Prop := (1 <= a_attempt_count a <= MAX_ACTION_RETRIES)%Z.
Definition history (t t' : JT) : Prop :=
  (exists l new, jt_actions t' = (l ++ new)%list /\ Forall2 evolves (jt_actions t) l /\ Forall young new) /\
  exists new, jt_intents t' = (jt_intents t ++ new)%list.
#[export] Instance evolves_preorder : PreOrder evolves.
Proof.
  split.
  - intros a. split; [done | lia].
  - intros a b c [I1 B1] [I2 B2]. split; [congruence | unfold MAX_ACTION_RETRIES in *; lia].
Qed.
Lemma same_rows l : Forall2 evolves l l.
Proof. induction l; constructor; [reflexivity | done]. Qed.
Lemma evolved_rows l m n : Forall2 evolves l m -> Forall2 evolves m n -> Forall2 evolves l n.
Proof.
  intros F. revert n. induction F as [|a b l m E F IH]; intros n G; inversion G; subst; constructor; [by etrans | auto].
Qed.
#[export] Instance history_preorder : PreOrder history.
Proof.
  split.
  - intros t. split; [|by exists []; rewrite app_nil_r]. exists (jt_actions t), []. rewrite app_nil_r. split; [done|]. split; [|constructor].
    apply same_rows.
  - intros t u v ((l & n & E & F & Y) & i & I) ((l2 & n2 & E2 & F2 & Y2) & i2 & I2). split.
    + rewrite E in F2. apply Forall2_app_inv_l in F2 as (m & m' & F2 & Fn & ->). exists m, (m' ++ n2)%list.
      split; [by rewrite E2, app_assoc|]. split; [by eapply evolved_rows|].
      apply Forall_app. split; [|done]. clear -Fn Y. induction Fn as [|a b l l' [_ B] _ IH]; [constructor|].
      apply Forall_cons in Y as [Ya Y]. constructor; [unfold young in *; lia | by apply IH].
    + exists (i ++ i2)%list. by rewrite I2, I, app_assoc.
Qed.
Lemma history_same t t' : jt_actions t' = jt_actions t -> jt_intents t' = jt_intents t -> history t t'.
Proof.
  intros A I. split; [|exists []; by rewrite I, app_nil_r]. exists (jt_actions t), []. rewrite A, app_nil_r. split; [done|]. split; [|constructor].
  apply same_rows.
Qed.
Lemma history_update t t' p f : (forall a, In a (jt_actions t) -> p a = true -> evolves a (f a)) ->
  jt_actions t' = update_where p f (jt_actions t) -> jt_intents t' = jt_intents t -> history t t'.
Proof.
  intros H A I. split; [|exists []; by rewrite I, app_nil_r]. exists (update_where p f (jt_actions t)), []. rewrite A, app_nil_r.
  split; [done|]. split; [|constructor]. clear -H. unfold update_where. induction (jt_actions t) as [|a l IH]; [constructor|].
  cbn. constructor; [|apply IH; intros b B; apply H; by right]. destruct (p a) eqn:P; [apply H; [by left | done] | reflexivity].
Qed.
Lemma history_insert t t' a : young a -> jt_actions t' = (jt_actions t ++ [a])%list -> jt_intents t' = jt_intents t -> history t t'.
Proof.
  intros Y A I. split; [|exists []; by rewrite I, app_nil_r]. exists (jt_actions t), [a]. split; [done|]. split; [|by constructor].
  apply same_rows.
Qed.
Lemma history_began key name job d args h t row o t' : began key name job d args h t row o t' -> history t t'.
Proof.
  destruct 1 as [now t' K U ->|now a t' K S A U ->|]; [eapply history_insert; [|done|done]; done | | reflexivity].
  eapply history_update; [|done|done]. intros b B E. unfold is_action in E. apply String.eqb_eq in E. apply row_by_id in K as [_ K].
  assert (b = a) as -> by (by eapply (uniq_inj a_id)). split; [done|]. cbn. lia.
Qed.
Lemma history_claimed key job d input args h t c t' : claimed key job d input args h t c t' -> history t t'.
Proof.
  destruct 1 as [| |row o t' now W B]; [reflexivity | by eapply history_began | etrans; [by eapply history_began|]].
  split; [|by eexists]. exists (jt_actions t'), []. rewrite app_nil_r. split; [done|]. split; [|constructor]. apply same_rows.
Qed.

Lemma store_split {A} (m : jcmd A) s r s' : store m s = (r, s') -> exists j, m (as_js s) = (r, j) /\ s' = s <| as_js := j |>.
Proof. unfold store. destruct (m (as_js s)) as [x j]. intros [= -> <-]. eauto. Qed.

Section History.
Context {env : Env} {penv : ProcEnv} {fenv : FsEnv} {aenv : ActEnv}.
Definition kept_history (own : list string) (s s' : ASt) : Prop := history (act_tables s) (act_tables s').
Lemma kept_history_pre own : PreOrder (kept_history own).
Proof. split; [intros s; unfold kept_history; reflexivity | intros a b c; unfold kept_history; apply history_preorder]. Qed.
Lemma history_finish own row status e : along (kept_history own) (finish row status e).
Proof.
  intros s r s' H. apply store_split in H as (j & H & ->). apply finish_cases in H as [H|(now & H)].
  - apply history_same; unfold act_tables; cbn; by rewrite H.
  - eapply (history_update _ _ (is_action (a_id row)) (finish_row status now e)); unfold act_tables; cbn; rewrite ?H; [|done|done].
    intros a _ _. split; [done | cbn; lia].
Qed.
Lemma history_close own job terminal reason : along (kept_history own) (store (_close_job job terminal reason)).
Proof.
  intros s r s' H. apply store_split in H as (j & H & ->). apply close_cases in H as (I & [A|[(a & now & _ & A)|(args & now & _ & _ & A)]]).
  - by apply history_same.
  - eapply history_update; [|exact A|exact I]. intros b _ _. split; [done | cbn; lia].
  - eapply history_insert; [|exact A|exact I]. done.
Qed.
#[local] Instance kept_history_journaling : Journaling kept_history (fun _ => True) (fun _ => True).
Proof.
  split; try done.
  - exact kept_history_pre.
  - intros own s s' [[A I] _]. by apply history_same.
  - intros own row st e _. apply history_finish.
  - intros own key name j d args h k _ K. apply al_bind_known; [apply kept_history_pre | |].
    + intros s r s' H. apply store_split in H as (t & H & ->).
      apply begin_cases in H as [(e & _ & H)|(row & o & _ & H)]; [|by apply history_began in H].
      apply history_same; unfold act_tables; cbn; by rewrite H.
    + intros [row o] _ _ _. apply (K row o).
  - intros own key j d input args h k _ K. apply al_bind_known; [apply kept_history_pre | |].
    + intros s r s' H. apply store_split in H as (t & H & ->).
      apply claim_cases in H as [(e & _ & H)|(c & _ & H)]; [|by apply history_claimed in H].
      apply history_same; unfold act_tables; cbn; by rewrite H.
    + intros c _ _ _. apply (K c).
  - intros own d k K. apply al_bind; [apply kept_history_pre | | intros l; apply (K l)].
    intros s r s' H. apply store_split in H as (t & [= _ <-] & ->). by apply history_same.
  - intros own j t re _. apply history_close.
  - intros own d _ s r s' [= _ <-]. by apply history_same.
Qed.
Definition act_run (ds : list (option (string * Z) * ReconcileDecision)) (s : ASt) : ASt :=
  fold_left (fun s p => snd (perform_next_safe_action_if_required (fst p) (snd p) s)) ds s.
Lemma run_history ds s : history (act_tables s) (act_tables (act_run ds s)).
Proof.
  revert s. induction ds as [|[lease d] ds IH]; intros s; [reflexivity|]. cbn [act_run fold_left fst snd].
  destruct (perform_next_safe_action_if_required lease d s) as [r s'] eqn:E.
  etrans; [|apply IH]. eapply (w_perform lease kept_history (fun _ => True) (fun _ => True) [] d); [|exact E]. done.
Qed.
(** C18: whatever decisions are carried out, under whatever leases and however they end, the
    action journal only grows: no row disappears, changes its place, its id, key, type, job, dispatch or
    arguments; a row that was there is tried again only while it has been tried fewer than
    MAX_ACTION_RETRIES times, a new row has one to MAX_ACTION_RETRIES attempts, and the write
    intent of a dispatch, once claimed, stays what it was. *)
Theorem journal_append_only ds s :
  history (act_tables s) (act_tables (act_run ds s)) /\
  (forall id w, write_intent id (act_tables s) = Some w -> write_intent id (act_tables (act_run ds s)) = Some w).
Proof.
  pose proof (run_history ds s) as H. split; [exact H|]. destruct H as [_ [new I]]. intros id w W.
  unfold write_intent in *. rewrite I. by apply by_id_app.
Qed.
End History.

(** *** A dispatch is launched at most once *)
Section Once.
Context (id : string).
Notation key0 := (spawn_key id).
Notation spawn_row := (action_by_key key0).
(** The row of that id is another action. *)
Definition other_row (t : JT) (aid : string) : Prop := exists a, In a (jt_actions t) /\ a_id a = aid /\ a_action_key a <> key0.
(** What the schema and the journal's own code keep of the spawn row. *)
Record well_kept (t : JT) : Prop := mkWellKept {
  wk_ids : uniq a_id (jt_actions t) = true;
  wk_types : forall a, In a (jt_actions t) -> a_action_key a = key0 -> a_action_type a = "SPAWN_RUN";
  wk_intents : forall w, In w (jt_intents t) -> other_row t (wi_intent_action_id w)
}.
Definition stays (t t' : JT) : Prop := well_kept t' /\ forall aid, other_row t aid -> other_row t' aid.
(** Every row but the spawn row may change. *)
Definition spares (t t' : JT) : Prop := well_kept t -> stays t t' /\ spawn_row t' = spawn_row t.
#[local] Instance spares_preorder : PreOrder spares.
Proof.
  split; [intros t G; by split; [split|]|]. intros a b c H1 H2 G. destruct (H1 G) as [[G1 O1] E1]. destruct (H2 G1) as [[G2 O2] E2].
  split; [split; [exact G2 | auto] | congruence].
Qed.
Lemma spare_same t t' : jt_actions t' = jt_actions t -> jt_intents t' = jt_intents t -> spares t t'.
Proof.
  intros A I [U T W]. assert (O : forall aid, other_row t aid <-> other_row t' aid) by (intros aid; unfold other_row; by rewrite A).
  split; [|unfold action_by_key; by rewrite A]. split; [|apply O]. split; rewrite ?A, ?I; [done|done|]. intros w H. by apply O, W.
Qed.
Section Update.
Context (t t' : JT) (p : SupervisorAction -> bool) (f : SupervisorAction -> SupervisorAction)
  (K : forall a, a_id (f a) = a_id a /\ a_action_key (f a) = a_action_key a /\ a_action_type (f a) = a_action_type a)
  (A : jt_actions t' = update_where p f (jt_actions t)).
Lemma other_update aid : other_row t aid -> other_row t' aid.
Proof.
  intros (a & I & E & N). exists (if p a then f a else a). rewrite A. split; [unfold update_where; by apply in_map with (f := fun x => if p x then f x else x)|].
  destruct (K a) as (K1 & K2 & _). destruct (p a); by rewrite ?K1, ?K2.
Qed.
Lemma update_stays : jt_intents t' = jt_intents t -> well_kept t -> stays t t'.
Proof.
  intros I [U T W]. split; [|apply other_update]. split.
  - rewrite A, uniq_update; [done | intros a; apply K].
  - intros a. rewrite A. unfold update_where. rewrite in_map_iff. intros (b & <- & B). destruct (K b) as (_ & K2 & K3).
    destruct (p b); rewrite ?K2, ?K3; by apply T.
  - intros w. rewrite I. intros Hw. apply other_update, W, Hw.
Qed.
Lemma spawn_row_update : spawn_row t' = (fun x => if p x then f x else x) <$> spawn_row t.
Proof. unfold action_by_key. rewrite A. apply (row_by_id_update a_action_key). intros x. apply K. Qed.
End Update.
(** The rows of another action are not the spawn row. *)
Lemma spared t aid a : well_kept t -> other_row t aid -> spawn_row t = Some a -> is_action aid a = false.
Proof.
  intros G (b & B & E & N) F. apply row_by_id in F as [K I]. apply String.eqb_neq. intros E2. apply N.
  assert (b = a) as -> by (apply (uniq_inj a_id (jt_actions t)); [apply G | done | done | congruence]). done.
Qed.
Lemma spare_update t t' aid f : (forall a, a_id (f a) = a_id a /\ a_action_key (f a) = a_action_key a /\ a_action_type (f a) = a_action_type a) ->
  (well_kept t -> other_row t aid) -> jt_actions t' = update_where (is_action aid) f (jt_actions t) -> jt_intents t' = jt_intents t -> spares t t'.
Proof.
  intros K O A I G. split; [by eapply update_stays|]. rewrite (spawn_row_update _ _ _ _ K A).
  destruct (spawn_row t) as [a|] eqn:F; [|done]. cbn. by rewrite (spared t aid a G (O G) F).
Qed.
Lemma insert_stays t t' a : uniq a_id (jt_actions t') = true -> a_action_key a <> key0 \/ a_action_type a = "SPAWN_RUN" ->
  jt_actions t' = (jt_actions t ++ [a])%list -> jt_intents t' = jt_intents t -> well_kept t -> stays t t'.
Proof.
  intros U N A I [_ T W]. assert (O : forall aid, other_row t aid -> other_row t' aid).
  { intros aid (b & B & E & M). exists b. rewrite A. split; [apply in_app_iff; by left | done]. }
  split; [|exact O]. split; [exact U | |].
  - intros b. rewrite A, in_app_iff. intros [B|[<-|[]]] E; [by apply T | by destruct N].
  - intros w. rewrite I. intros Hw. apply O, W, Hw.
Qed.
Lemma spawn_row_insert t t' a : jt_actions t' = (jt_actions t ++ [a])%list ->
  spawn_row t' = match spawn_row t with Some b => Some b | None => if String.eqb (a_action_key a) key0 then Some a else None end.
Proof.
  intros A. unfold action_by_key. rewrite A. apply (by_id_snoc a_action_key).
Qed.
Lemma spare_insert t t' a : uniq a_id (jt_actions t') = true -> a_action_key a <> key0 ->
  jt_actions t' = (jt_actions t ++ [a])%list -> jt_intents t' = jt_intents t -> spares t t'.
Proof.
  intros U N A I G. split; [apply (insert_stays t t' a); auto|]. rewrite (spawn_row_insert _ _ _ A).
  apply String.eqb_neq in N. rewrite N. by destruct (spawn_row t).
Qed.
Lemma by_key_other t key a : key <> key0 -> action_by_key key t = Some a -> other_row t (a_id a).
Proof. intros N K. apply row_by_id in K as [E I]. exists a. split; [done|]. split; [done | congruence]. Qed.
Lemma began_spares key name job d args h t row o t' : key <> key0 -> began key name job d args h t row o t' ->
  spares t t' /\ other_row t' (a_id row).
Proof.
  intros N. destruct 1 as [now t' K U ->|now a t' K S A U ->|a o K _].
  - split; [apply (spare_insert _ _ (new_row key name job d args now h)); [exact U | exact N | reflexivity | reflexivity]|].
    exists (new_row key name job d args now h). cbn. rewrite in_app_iff. split; [right; by left | done].
  - apply by_key_other in K; [|done]. split; [by apply (spare_update t _ (a_id a) (restart_row now h))|].
    by apply (other_update t _ (is_action (a_id a)) (restart_row now h)).
  - split; [reflexivity|]. by eapply by_key_other.
Qed.
Lemma claimed_spares key job d input args h t c t' : key <> key0 -> claimed key job d input args h t c t' ->
  spares t t' /\ (well_kept t -> forall x, In x (claim_ids c) -> other_row t' x).
Proof.
  intros N. destruct 1 as [w W _|w row o t' W _ B|row o t' now W B].
  - split; [reflexivity|]. intros G x [<-|[]]. apply row_by_id in W as [_ W]. by apply G.
  - apply began_spares in B as [B1 B2]; [|done]. split; [done|]. by intros G x [<-|[]].
  - apply began_spares in B as [B1 B2]; [|done]. split; [|by intros G x [<-|[]]].
    intros G. destruct (B1 G) as [[[U T I] O] E]. split; [|exact E]. split; [|exact O]. split; [exact U | exact T |].
    cbn. intros w. rewrite in_app_iff. intros [Hw|[<-|[]]]; [by apply I | done].
Qed.
(** Beginning the spawn itself. *)
Lemma began_spawn job args h t row o t' : began key0 "SPAWN_RUN" job (Some id) args h t row o t' -> well_kept t ->
  stays t t' /\ spawn_row t' = Some row /\
  (o = B_new \/ o = B_retry -> a_status row = "RUNNING" /\
    match spawn_row t with Some a => In (a_status a) ["PLANNED"; "FAILED"] | None => True end) /\
  (o <> B_new -> o <> B_retry -> t' = t).
Proof.
  intros B G. destruct B as [now t' K U ->|now a t' K S A U ->|a o K D].
  - split; [apply (insert_stays _ _ (new_row key0 "SPAWN_RUN" job (Some id) args now h)); [exact U | by right | reflexivity | reflexivity | done]|].
    erewrite spawn_row_insert, K by reflexivity. cbn [a_action_key new_row]. rewrite String.eqb_refl. by repeat split.
  - split; [by apply (update_stays t _ (is_action (a_id a)) (restart_row now h))|].
    rewrite (spawn_row_update t _ (is_action (a_id a)) (restart_row now h)), K by done. cbn. unfold is_action. rewrite String.eqb_refl. by repeat split.
  - split; [by split|]. split; [done|]. split; [|done]. by destruct D as [->|[->| ->]]; intros [?|?].
Qed.

(** *** Every other action *)
Definition launches (s : ASt) : nat := count_where (String.eqb id) (wo_launched (as_world s)).
Definition others_act (own : list string) (s s' : ASt) : Prop :=
  launches s' = launches s /\ ((forall x, In x own -> other_row (act_tables s) x) -> spares (act_tables s) (act_tables s')).
Lemma others_act_pre own : PreOrder (others_act own).
Proof.
  split; [intros s; split; [done | by intros _ G; split; [split|]]|].
  intros a b c [L1 H1] [L2 H2]. split; [congruence|]. intros O G. destruct (H1 O G) as [[G1 K1] E1].
  destruct (H2 (fun x I => K1 x (O x I)) G1) as [[G2 K2] E2]. split; [split; [exact G2 | auto] | congruence].
Qed.
Section Acts.
Context {env : Env} {penv : ProcEnv} {fenv : FsEnv} {aenv : ActEnv}.
Lemma others_same own s s' : launches s' = launches s -> act_tables s' = act_tables s -> others_act own s s'.
Proof. intros L E. split; [done|]. rewrite E. by intros _ G; split; [split|]. Qed.
Lemma others_finish own row status e : In (a_id row) own -> along (others_act own) (finish row status e).
Proof.
  intros I s r s' H. apply store_split in H as (j & H & ->). apply finish_cases in H as [H|(now & H)]; [by apply others_same|].
  split; [done|]. intros O. eapply (spare_update _ _ (a_id row) (finish_row status now e)); [done | intros _; by apply O | |]; unfold act_tables; cbn; by rewrite H.
Qed.
Lemma others_close own job terminal reason : In terminal terminals -> plain_id id -> along (others_act own) (store (_close_job job terminal reason)).
Proof.
  intros T P s r s' H. apply store_split in H as (j & H & ->). apply close_cases in H as (I & H). split; [done|]. intros _.
  assert (N : close_key job terminal <> key0) by (by apply close_foreign).
  destruct H as [A|[(a & now & K & A)|(args & now & _ & U & A)]]; [by apply spare_same | |].
  - apply by_key_other in K; [|done]. by apply (spare_update _ _ (a_id a) (finish_row "SUCCEEDED" now None)).
  - by apply (spare_insert _ _ (close_row (close_key job terminal) args now job)).
Qed.
(** A begin hands its rows to the rest. *)
Lemma al_handing {A} own (m : jcmd A) (ids : A -> list string) (k : A -> acmd ActionOutcome) :
  (forall s r s', m s = (r, s') -> (exists e, r = Err e /\ js_t s' = js_t s) \/ exists a, r = Ok a /\ spares (js_t s) (js_t s') /\
    (well_kept (js_t s) -> forall x, In x (ids a) -> other_row (js_t s') x)) ->
  (forall a, along (others_act (ids a ++ own)%list) (k a)) -> along (others_act own) (a ← store m; k a).
Proof.
  intros H K s r s' E. apply bind_split in E as [(a & s1 & E & F)|(e & E & ->)]; apply store_split in E as (j & E & ->);
    apply H in E as [(e' & E1 & T)|(b & [= <-] & S1 & Hx)]; try done; [|by apply others_same].
  destruct (K a _ _ _ F) as [L S]. split; [done|]. intros O G. destruct (S1 G) as [[G1 K1] E1]. destruct (S) as [[G2 K2] E2]; [|exact G1|].
  - intros x. rewrite in_app_iff. intros [I|I]; [by apply Hx | apply K1, O, I].
  - split; [split; [exact G2 | intros x X; by apply K2, K1] | ]. unfold act_tables in *. cbn in *. congruence.
Qed.
Lemma others_journaling : plain_id id -> Journaling others_act (fun key => key <> key0) (fun d => d <> id).
Proof.
  intros P. split.
  - exact others_act_pre.
  - intros own s s' [[A I] L]. split; [unfold launches; by rewrite L | intros _; by apply spare_same].
  - exact others_finish.
  - intros own key name j d args h k N K. apply (al_handing _ _ (fun r => [a_id (fst r)])); [|intros [row o]; apply (K row o)].
    intros s r s' H. apply begin_cases in H as [H|(row & o & -> & H)]; [by left|]. right. apply began_spares in H as [H1 H2]; [|done].
    exists (row, o). split; [done|]. split; [done|]. by intros _ x [<-|[]].
  - intros own key j d input args h k N K. apply (al_handing _ _ claim_ids); [|exact K].
    intros s r s' H. apply claim_cases in H as [H|(c & -> & H)]; [by left|]. right. apply claimed_spares in H as [H1 H2]; [|done]. by exists c.
  - intros own d k K. apply (al_handing _ _ (map a_id)); [|exact K]. intros s r s' [= <- <-]. right. eexists. split; [done|]. split; [reflexivity|].
    intros G x. rewrite in_map_iff. intros (a & <- & I). unfold _committed_apply_intents in I. apply filter_In in I as [I E].
    exists a. split; [done|]. split; [done|]. intros K0. apply (wk_types _ G a I) in K0. unfold of_dispatch in E. by rewrite K0, andb_false_r in E.
  - intros own job t re T. by apply others_close.
  - intros own d N s r s' [= _ <-]. split; [|intros _; by apply spare_same]. unfold launches. cbn. unfold count_where.
    rewrite List.filter_app, length_app. cbn. apply not_eq_sym, String.eqb_neq in N. rewrite N. cbn. lia.
  - intros key F. by apply F.
Qed.

(** *** The spawn of the dispatch *)
(** A successful launch says which scope it made. *)
Definition scopes_told : Prop := forall e n ad job a r, enforcer = Some e -> enforce_and_spawn e n ad job a = Ok r -> er_ok r = true -> er_scope r <> None.
Definition launched_once (s : ASt) : Prop := well_kept (act_tables s) /\
  (launches s = 0 \/ launches s = 1 /\ exists a, spawn_row (act_tables s) = Some a /\ In (a_status a) ["RUNNING"; "SUCCEEDED"]).
Definition idle (s : ASt) : Prop := well_kept (act_tables s) /\ launches s = 0.
Definition ready (row : SupervisorAction) (s : ASt) : Prop := idle s /\ spawn_row (act_tables s) = Some row.
Context (plain : plain_id id).
#[local] Instance others_walk : Journaling others_act (fun key => key <> key0) (fun d => d <> id) := others_journaling plain.
Lemma others_once s s' : others_act [] s s' -> launched_once s -> launched_once s'.
Proof. intros [L S] [G H]. destruct (S (fun _ F => False_ind _ F) G) as [[G1 _] E]. split; [done|]. by rewrite L, E. Qed.
Lemma others_ready row s s' : others_act [] s s' -> ready row s -> ready row s'.
Proof. intros [L S] [[G Z] R]. destruct (S (fun _ F => False_ind _ F) G) as [[G1 _] E]. split; [split; [done | congruence] | congruence]. Qed.
Lemma idle_once s : idle s -> launched_once s.
Proof. intros [G Z]. split; auto. Qed.
Lemma finish_stays row status e s r s' : finish row status e s = (r, s') -> well_kept (act_tables s) ->
  launches s' = launches s /\ well_kept (act_tables s') /\
  (spawn_row (act_tables s') = spawn_row (act_tables s) \/ exists now, spawn_row (act_tables s') = finish_row status now e <$> spawn_row (act_tables s)).
Proof.
  intros H G. apply store_split in H as (j & H & ->). split; [done|]. apply finish_cases in H as [H|(now & H)].
  - unfold act_tables in *. cbn. rewrite H. split; auto.
  - assert (A : jt_actions (js_t j) = update_where (is_action (a_id row)) (finish_row status now e) (jt_actions (act_tables s))) by (unfold act_tables; by rewrite H).
    split; [by eapply (update_stays _ _ _ (finish_row status now e)); [done | exact A | unfold act_tables; cbn; rewrite H | exact G]|].
    change (act_tables (s <| as_js := j |>)) with (js_t j). rewrite (spawn_row_update _ _ _ (finish_row status now e) (fun _ => conj eq_refl (conj eq_refl eq_refl)) A).
    destruct (spawn_row (act_tables s)) as [a|]; [cbn | by left]. destruct (is_action (a_id row) a); [right; by exists now | by left].
Qed.
Lemma ready_bind {A B} row (m : acmd A) (k : A -> acmd B) (Post : res exc B -> ASt -> Prop) s r s' : along (others_act []) m ->
  (forall e s', idle s' -> Post (Err e) s') -> (forall a s r s', k a s = (r, s') -> ready row s -> Post r s') ->
  (a ← m; k a) s = (r, s') -> ready row s -> Post r s'.
Proof.
  intros Hm He Hk E Y. apply bind_split in E as [(a & s1 & E & F)|(e & E & ->)]; apply Hm in E; pose proof (others_ready _ _ _ E Y) as Y'.
  - by eapply Hk.
  - apply He, Y'.
Qed.
(** Nothing was launched, or the run is there and its row still RUNNING. *)
Definition spawned {A} (row : SupervisorAction) (ok : A) (r : res exc A) (s : ASt) : Prop :=
  idle s \/ r = Ok ok /\ well_kept (act_tables s) /\ launches s = 1 /\ spawn_row (act_tables s) = Some row.
Lemma end_idle row' status e {A} (a : A) s r s' : idle s -> (_ ← finish row' status e; mret a) s = (r, s') -> idle s'.
Proof.
  intros [G Z] E. apply bind_split in E as [(u & s1 & E & [= _ <-])|(x & E & _)]; apply finish_stays in E as (L & G1 & _); try done;
    split; try done; congruence.
Qed.
Lemma finish_idle row row' status e {A} (a ok : A) s r s' : (_ ← finish row' status e; mret a) s = (r, s') -> ready row s -> spawned row ok r s'.
Proof. intros E [I _]. left. by eapply end_idle. Qed.
Lemma evidence_ok j d pid sc s : exists s', _register_process_evidence j d pid sc s = (Ok tt, s').
Proof.
  unfold _register_process_evidence. destruct pid as [pid|]; [|by eexists].
  assert (A : forall X (m : acmd X) s, exists x s', attempt (fun _ => true) m s = (Ok x, s')).
  { intros X m s0. unfold attempt. destruct (m s0) as [[x|e] s1]; eauto. }
  unfold mbind, M_bind at 1. destruct (A _ (store (current_identity pid)) s) as (i & s1 & ->).
  unfold mbind, M_bind. match goal with |- context [attempt _ ?m s1] => destruct (A _ m s1) as (x & s2 & ->) end. by eexists.
Qed.
Lemma scoped_spawned e ad job row a s r s' : scopes_told -> enforcer = Some e -> d_id ad = id ->
  _spawn_scoped e ad job row a s = (r, s') -> ready row s -> spawned row None r s'.
Proof.
  intros T En D. unfold _spawn_scoped. rewrite D. assert (H : forall e s', idle s' -> spawned row (@None ActionOutcome) (Err e) s') by (by left).
  apply ready_bind; [apply (w_store others_act _ _); unfold moment; calm | exact H | intros n s1 r1 s1'].
  apply ready_bind; [apply al_lift, others_act_pre | exact H | intros _ s2 r2 s2'].
  apply ready_bind; [apply (w_world others_act _ _); done | exact H | intros _ s3 r3 s3'].
  destruct (enforce_and_spawn e n ad job a) as [res|x] eqn:S; [|intros [= _ <-] [I _]; by left].
  change ((if negb (er_ok res) then
    _ ← finish row "FAILED" (Some ("enforcement:" ++ er_status res));
    if String.eqb (er_status res) SCOPE_CLEANUP_UNVERIFIED
    then mret (Some (performed "SPAWN_RUN" "resource_enforcement_lost" (Some (er_status res)) (Some id)))
    else mret (Some (performed "SPAWN_RUN" "resource_enforcement_failed" (Some enforcement_unavailable) (Some id)))
    else
    _ ← log_launched id;
    match er_scope res with
    | None => raise AttributeError
    | Some scope => _ ← _register_process_evidence (j_id job) id (sc_process_id scope) scope; mret None
    end) s3 = (r3, s3') -> ready row s3 -> spawned row (@None ActionOutcome) r3 s3').
  destruct (er_ok res) eqn:O; cbn [negb]; [|destruct (String.eqb (er_status res) _); apply finish_idle].
  destruct (er_scope res) as [sc|] eqn:Sc; [|by destruct (T e n ad job a res En S O)].
  intros E [[G Z] R]. apply bind_split in E as [(u & s4 & [= _ <-] & E)|(x & [=] & _)].
  destruct (evidence_ok (j_id job) id (sc_process_id sc) sc (s3 <| as_world ::= set wo_launched (fun l => (l ++ [id])%list) |>)) as [s5 F].
  unfold mbind, M_bind in E. rewrite F in E. injection E as <- <-. right. split; [done|].
  assert (W : others_act [] (s3 <| as_world ::= set wo_launched (fun l => (l ++ [id])%list) |>) s5) by (by apply (w_evidence others_act _ _ [] _ _ _ _ _ _ _ F)).
  destruct W as [L W]. destruct (W (fun _ X => False_ind _ X) G) as [[G' _] E']. split; [done|]. split; [|by rewrite E'].
  rewrite L. unfold launches, count_where in *. cbn. rewrite List.filter_app, length_app, Z. cbn. by rewrite String.eqb_refl.
Qed.
Lemma body_spawned ad job row lease s r s' : scopes_told -> d_id ad = id ->
  spawn_body lease ad job row s = (r, s') -> ready row s -> spawned row (inr None) r s'.
Proof.
  intros T D. unfold spawn_body. rewrite D. cbv zeta. assert (H : forall e s', idle s' -> spawned row (@inr string _ (@None ActionOutcome)) (Err e) s') by (by left).
  apply ready_bind; [apply (w_admission others_act _ _) | exact H | intros a s1 r1 s1'].
  destruct (bool_decide _); cbn [negb]; [|apply finish_idle]. destruct enforcer as [e|] eqn:En; [|apply finish_idle].
  apply ready_bind; [apply (w_store others_act _ _); unfold dbquery; calm | exact H | intros db s2 r2 s2'].
  apply ready_bind; [apply (w_store others_act _ _); unfold moment; calm | exact H | intros n s3 r3 s3'].
  destruct (build_prompt db n ad job); [|intros [= _ <-] [I _]; by left ..].
  apply ready_bind; [apply (w_store others_act _ _); apply calm_recheck | exact H | intros _ s4 r4 s4'].
  intros E Y. apply bind_split in E as [(o & s5 & E & [= <- <-])|(x & E & ->)]; apply (scoped_spawned e) in E; try done;
    destruct E as [I|(E & R)]; [by left | injection E as ->; by right | by left | done].
Qed.
Lemma once_tables s j : launched_once s -> js_t j = act_tables s -> launched_once (s <| as_js := j |>).
Proof. unfold launched_once, act_tables. cbn. by intros H ->. Qed.
Lemma begin_err job args s e s' : begin_ key0 "SPAWN_RUN" job (Some id) args s = (Err e, s') -> launched_once s -> launched_once s'.
Proof.
  intros E O. apply bind_split in E as [(h & s1 & [= _ <-] & E)|(x & [= _ <-] & _)]; [|done]. apply store_split in E as (j & E & ->).
  apply begin_cases in E as [(x & _ & E)|(row & o & [=] & _)]. by apply once_tables.
Qed.
Lemma begin_once job args s row o s' : begin_ key0 "SPAWN_RUN" job (Some id) args s = (Ok (row, o), s') -> launched_once s ->
  launched_once s' /\ (o = B_new \/ o = B_retry -> ready row s' /\ a_status row = "RUNNING").
Proof.
  intros E [G L]. apply bind_split in E as [(h & s1 & [= _ <-] & E)|(x & _ & [=])]. apply store_split in E as (j & E & ->).
  apply begin_cases in E as [(x & [=] & _)|(row' & o' & [= <- <-] & E)]. apply began_spawn in E as ((G1 & _) & Sp & New & Old); [|done].
  assert (N : o = B_new \/ o = B_retry -> launches s = 0).
  { intros H. apply New in H as [_ H]. destruct L as [L|(_ & a & A & S)]; [done|]. unfold act_tables in A. rewrite A in H.
    destruct H as [H|[H|[]]], S as [S|[S|[]]]; congruence. }
  split; [split; [done|]|].
  - destruct o; [left; auto | left; auto | ..]; unfold act_tables in *; cbn; by rewrite Old.
  - intros H. split; [|apply New, H]. split; [split; [done | by apply N] | done].
Qed.
Lemma end_live row row' (a : ActionOutcome) s r s' : (_ ← finish row' "SUCCEEDED" None; mret a) s = (r, s') -> well_kept (act_tables s) -> launches s = 1 ->
  spawn_row (act_tables s) = Some row -> a_status row = "RUNNING" -> launched_once s'.
Proof.
  intros E G L Sp St. assert (H : exists x, finish row' "SUCCEEDED" None s = (x, s')).
  { apply bind_split in E as [(u & s1 & E & [= _ <-])|(x & E & _)]; eauto. }
  destruct H as [x H]. apply finish_stays in H as (L1 & G1 & Sp1); [|done]. split; [done|]. right. split; [congruence|]. rewrite Sp in Sp1.
  destruct Sp1 as [->|[now ->]]; eexists; (split; [reflexivity|]); [rewrite St; by left | right; by left].
Qed.
Lemma spawn_once lease d job s r s' : scopes_told -> rdc_dispatch_id d = Some id ->
  _perform_spawn_run lease d job s = (r, s') -> launched_once s -> launched_once s'.
Proof.
  intros T D E O. unfold _perform_spawn_run, with_dispatch in E. rewrite D in E.
  apply bind_split in E as [(x & s1 & E1 & E)|(e & E & _)]; [|apply store_split in E as (j & [=] & _)].
  assert (I : forall ad, x = Some ad -> d_id ad = id) by (intros ad ->; injection E1 as E1 _; by apply row_by_id in E1 as [<- _]).
  assert (O1 : launched_once s1) by (eapply others_once, O; by eapply (w_store others_act _ _), E1; calm).
  clear E1 O s. destruct x as [ad|]; [|by injection E as _ <-]. specialize (I ad eq_refl). 
  apply bind_split in E as [([row o] & s2 & E2 & E)|(e & E & _)]; [|by eapply begin_err].
  apply begin_once in E2 as [O2 R]; [|done]. clear O1 s1.
  assert (Run : forall r s', (b ← attempt (fun _ => true) (spawn_body lease ad job row); spawn_end id row b) s2 = (r, s') ->
    ready row s2 -> a_status row = "RUNNING" -> launched_once s').
  { clear E. intros r' s1' E Y St. unfold mbind, M_bind, attempt in E. destruct (spawn_body lease ad job row s2) as [b s3] eqn:B.
    apply body_spawned in B as [B|(-> & G & L & Sp)]; try done.
    - apply idle_once. destruct b as [[code|[x|]]|e]; cbn in E; first [by injection E as _ <- | by eapply end_idle].
    - by eapply end_live. }
  destruct o; cbn in E; [| |by injection E as _ <- ..]; by (eapply Run; [exact E | apply R; auto ..]).
Qed.
Lemma decide_spawn d : (rdc_action d = RA_SPAWN_RUN /\ rdc_dispatch_id d = Some id) \/
  (forall i, rdc_action d = RA_SPAWN_RUN -> rdc_dispatch_id d = Some i -> i <> id).
Proof.
  destruct (rdc_dispatch_id d) as [i|]; [|by right]. destruct (String.eqb_spec i id) as [->|N]; [|right; by intros j _ [= <-]].
  destruct (rdc_action d); first [by left | by right].
Qed.
Lemma perform_once lease d s r s' : scopes_told -> perform_next_safe_action_if_required lease d s = (r, s') -> launched_once s -> launched_once s'.
Proof.
  intros T. set (P := fun s s' => launched_once s -> launched_once s').
  assert (Pre : PreOrder P) by (split; unfold P; [by intros x | intros x y z; auto]).
  change (perform_next_safe_action_if_required lease d s = (r, s') -> P s s'). revert s r s'. change (along P (perform_next_safe_action_if_required lease d)).
  assert (M : forall m : acmd ActionOutcome, along (others_act []) m -> along P m) by (intros m H s r s' E; exact (others_once _ _ (H _ _ _ E))).
  apply along_perform; [exact _ | |].
  - intros A m C s r s' E. exact (others_once _ _ (w_store others_act _ _ [] m C s r s' E)).
  - intros job h H. destruct (decide_spawn d) as [[A D]|N].
    + rewrite A in H. injection H as <-. intros s r s' E O. by apply (spawn_once _ _ _ _ _ _ T D E).
    + apply M. apply (w_handle lease others_act _ _ [] d job h); [|done]. intros i A D. specialize (N i A D).
      split; [|done]. intros K. by apply spawn_key_inj in K.
Qed.
End Acts.
End Once.

(** *** Who writes the workspace *)
Definition workspace (s : ASt) : FS := bs_fs (wo_broker (as_world s)).
Section Writes.
Context {env : Env} {penv : ProcEnv} {fenv : FsEnv} {aenv : ActEnv}.
(** One run of the broker: for a RUNNING row of the journal whose precondition is the workspace as it is and whose effect
    is not there yet, with the patch set and the arguments the row was journaled with, under the lease of the job. *)
Record broker_ran (s s' : ASt) : Prop := mkBrokerRan {
  ran : exists (lease : option (string * Z)) job_id dispatch_id root row ps role, let fs := workspace s in
    workspace_root = Some root /\ In row (jt_actions (act_tables s)) /\ a_status row = "RUNNING" /\
    a_precondition_hash row = Some (scoped_hash fs root) /\ a_effect_hash row <> Some (scoped_hash fs root) /\
    _persisted_patch_set row = Some ps /\ json_hash (apply_args dispatch_id root ps) = Ok (a_args_hash row) /\
    (exists n, lock_free n dispatch_id = true) /\
    (forall job, job_of job_id (act_tables s) = Some job -> entitled (fst <$> lease) (snd <$> lease) job) /\
    wo_brokered (as_world s') = (wo_brokered (as_world s) ++ [dispatch_id])%list /\
    let guard := installed_guard (as_js s) fs (token_of job_id dispatch_id (job_of job_id (act_tables s))) job_id root in
    workspace s' = bs_fs (snd (apply_patch_set (Some guard) (deny_paths fs) root ps role controller_source ((wo_broker (as_world s)) <| bs_guards := 0 |>)))
}.
Definition untouched (s s' : ASt) : Prop := workspace s' = workspace s /\ wo_brokered (as_world s') = wo_brokered (as_world s).
Definition writes (s s' : ASt) : Prop := untouched s s' \/ broker_ran s s'.
#[local] Instance untouched_preorder : PreOrder untouched.
Proof. split; [done|]. unfold untouched. intros a b c [] []. split; congruence. Qed.
Notation written := (rtc writes).
Lemma written_untouched s s' : untouched s s' -> written s s'.
Proof. intros H. apply rtc_once. by left. Qed.
Lemma along_written {A} (m : acmd A) : along untouched m -> along written m.
Proof. intros H s r s' E. by apply H, written_untouched in E. Qed.
Lemma un_store {A} (m : jcmd A) : along untouched (store m).
Proof. intros s r s' H. by apply store_split in H as (j & _ & ->). Qed.
Lemma un_attempt {A} caught (m : acmd A) : along untouched m -> along untouched (attempt caught m).
Proof.
  intros H s r s'. unfold attempt. destruct (m s) as [[a|e] s1] eqn:E; apply H in E; [by intros [= _ <-]|].
  by destruct (caught e); intros [= _ <-].
Qed.
(** The workspace and the journal stand still. *)
Definition frozen (s s' : ASt) : Prop := untouched s s' /\ jt_actions (act_tables s') = jt_actions (act_tables s).
#[local] Instance frozen_preorder : PreOrder frozen.
Proof. split; [intros s; split; [reflexivity | done]|]. intros a b c [U A] [V B]. split; [by etrans | congruence]. Qed.
Lemma frozen_store {A} (m : jcmd A) : along calm m -> along frozen (store m).
Proof. intros C s r s' H. apply store_split in H as (j & H & ->). apply C in H as [H _]. by split. Qed.
Ltac still := repeat lazymatch goal with
  | |- along _ (store _) => apply frozen_store; first [solve [eauto with calm] | solve [unfold moment; calm; eauto with calm]]
  | |- along _ (if ?b then _ else _) => destruct b
  | _ => al_step
  end.
Lemma frozen_bind {A B} (I : ASt -> Prop) (m : acmd A) (k : A -> acmd B) s r s' : along frozen m ->
  (forall s s', frozen s s' -> I s -> I s') -> (forall a s r s', k a s = (r, s') -> I s -> written s s') ->
  (a ← m; k a) s = (r, s') -> I s -> written s s'.
Proof.
  intros Hm HI Hk E H. apply bind_split in E as [(a & s1 & E & F)|(e & E & _)]; apply Hm in E.
  - etrans; [apply written_untouched, E|]. eapply Hk; [exact F|]. by eapply HI.
  - apply written_untouched, E.
Qed.
Ltac quietly := repeat lazymatch goal with
  | |- along _ (store _) => apply un_store
  | |- along _ (attempt _ _) => apply un_attempt
  | |- along _ (finish _ _ _) => apply un_store
  | |- along _ (let _ := _ in _) => cbv zeta
  | |- along _ (if ?b then _ else _) => destruct b
  | _ => al_step
  end.
Lemma calm_recheck_same o e id s r s' : _recheck_lease_fence o e id s = (r, s') -> js_t s' = js_t s.
Proof.
  assert (R : reads (_recheck_lease_fence o e id)).
  { unfold _recheck_lease_fence, get_supervisor_job, jquery. apply reads_bind; [auto with reads | intros [j|]; [apply lease_fence_reads | auto with reads]]. }
  intros H. by apply R in H as (_ & T & _).
Qed.
Section Guarded.
Context (lease : option (string * Z)).
(** What the run needs, before the fence is checked again. *)
Definition may_write (root dispatch_id : string) (row : SupervisorAction) (ps : list pyval) (s : ASt) : Prop :=
  workspace_root = Some root /\ In row (jt_actions (act_tables s)) /\ a_status row = "RUNNING" /\
  a_precondition_hash row = Some (scoped_hash (workspace s) root) /\ a_effect_hash row <> Some (scoped_hash (workspace s) root) /\
  _persisted_patch_set row = Some ps /\ json_hash (apply_args dispatch_id root ps) = Ok (a_args_hash row) /\ (exists n, lock_free n dispatch_id = true).
Lemma may_write_frozen root d row ps s s' : frozen s s' -> may_write root d row ps s -> may_write root d row ps s'.
Proof. intros [[W _] A]. unfold may_write. by rewrite W, A. Qed.
Lemma recheck_entitled job_id s u s' : store (_recheck_lease_fence (fst <$> lease) (snd <$> lease) job_id) s = (Ok u, s') ->
  forall job, job_of job_id (act_tables s') = Some job -> entitled (fst <$> lease) (snd <$> lease) job.
Proof.
  intros F. apply store_split in F as (j & F & ->). pose proof (calm_recheck_same _ _ _ _ _ _ F) as T. cbn. unfold act_tables. cbn. rewrite T.
  intros job J. unfold _recheck_lease_fence in F. apply M_bind_ok in F as (o & s1 & G & F). apply get_job_ok in G as [-> ->].
  rewrite J in F. exact (fence_entitled _ _ job _ _ _ F).
Qed.
Lemma broker_runs job_id root d row ps role s r s' : may_write root d row ps s ->
  (forall job, job_of job_id (act_tables s) = Some job -> entitled (fst <$> lease) (snd <$> lease) job) ->
  run_broker job_id d root ps role s = (r, s') -> broker_ran s s'.
Proof.
  intros (R & I & S & P & E & Ps & A & L) F H. unfold run_broker in H.
  match type of H with context [apply_patch_set (Some ?g) ?dn ?sc ?pp ?ro ?so ?b] => set (guard := g) in H; set (br := b) in H end.
  destruct (apply_patch_set (Some guard) _ root ps role controller_source br) as [x br'] eqn:B. injection H as _ <-. split.
  exists lease, job_id, d, root, row, ps, role. repeat (split; [assumption || reflexivity|]). change (bs_fs br' = bs_fs (snd (apply_patch_set (Some guard) (deny_paths (bs_fs br)) root ps role controller_source br))).
  by rewrite B.
Qed.
Lemma invoke_writes job d root ad row s r s' :
  (forall ps, _persisted_patch_set row = Some ps -> json_hash (apply_args d root ps) = Ok (a_args_hash row) -> may_write root d row ps s) ->
  _invoke_broker_locked lease job d root ad row s = (r, s') -> written s s'.
Proof.
  unfold _invoke_broker_locked. intros M H. destruct (_persisted_patch_set row) as [ps|] eqn:P; [|eapply along_written; [|exact H]; unfold diverged; quietly].
  apply bind_split in H as [(h & s1 & [= K <-] & H)|(e & [= _ <-] & _)]; [|reflexivity].
  destruct (String.eqb_spec h (a_args_hash row)) as [->|N]; cbn [negb] in H; [|eapply along_written; [|exact H]; unfold job_backoff; quietly].
  specialize (M ps eq_refl K). revert H M.
  apply frozen_bind; [still | intros a b; apply may_write_frozen | intros fresh s2 r2 s2'].
  apply frozen_bind; [destruct fresh as [x|]; [destruct (negb _)|]; unfold bind_workspace, fs_of; still | intros a b; apply may_write_frozen | intros _ s3 r3 s3' H M].
  apply bind_split in H as [(u & s4 & F & H)|(e & F & _)]; [|by apply un_store, written_untouched in F].
  assert (Fz : frozen s3 s4) by (eapply frozen_store; [apply calm_recheck | exact F]).
  etrans; [apply written_untouched, Fz|]. pose proof (recheck_entitled _ _ _ _ F) as En. clear F.
  apply bind_split in H as [(res & s5 & B & H)|(e & B & _)];
    (eapply broker_runs in B; [|by eapply may_write_frozen|exact En]); (etrans; [apply rtc_once; right; exact B|]); [|reflexivity].
  apply written_untouched. revert s5 r3 s3' H B. assert (Q : along untouched match br_errors res with
    | [] => current ← workspace_hash root;
            if negb (ostr_eqb (Some current) (a_effect_hash row)) then diverged row d else
            n ← store moment; _ ← store (jtransaction (_update_supervisor_job (j_id job) [A_current_head (gp_head (provenance n))]));
            _ ← finish row "SUCCEEDED" None; mret (applied "executed" (Some "reconciled") d)
    | _ :: _ => _ ← finish row "FAILED" (Some ("broker:" ++ z_text (Z.of_nat (List.length (br_errors res)))));
                mret (applied "failed" (Some ("broker_errors:" ++ z_text (Z.of_nat (List.length (br_errors res))))) d)
    end) by (destruct (br_errors res); unfold workspace_hash, fs_of, diverged; quietly).
  intros s5 r5 s6 H _. exact (Q _ _ _ H).
Qed.
(** The row is in the journal. *)
Definition present (id : string) (s : ASt) : Prop := exists a, In a (jt_actions (act_tables s)) /\ a_id a = id.
Lemma present_frozen id s s' : frozen s s' -> present id s -> present id s'.
Proof. intros [_ A]. unfold present. by rewrite A. Qed.
Lemma present_found id s : present id s -> exists a, action_of id (act_tables s) = Some a.
Proof.
  intros (a & I & <-). unfold action_of, by_id. destruct (find _ _) as [b|] eqn:F; [by exists b|].
  apply (find_none _ _ F) in I. by rewrite String.eqb_refl in I.
Qed.
Lemma began_present key name job d args h t row o t' : began key name job d args h t row o t' -> exists a, In a (jt_actions t') /\ a_id a = a_id row.
Proof.
  destruct 1 as [now t' K U ->|now a t' K S A U ->|a o K _].
  - exists (new_row key name job d args now h). cbn. rewrite in_app_iff. split; [right; by left | done].
  - apply row_by_id in K as [_ I]. exists (restart_row now h a). split; [|done]. cbn. unfold update_where. apply in_map_iff. exists a.
    unfold is_action. by rewrite String.eqb_refl.
  - apply row_by_id in K as [_ I]. by exists a.
Qed.
Lemma claimed_present key job d input args h t row o t' : claimed key job d input args h t (Claimed row o) t' -> exists a, In a (jt_actions t') /\ a_id a = a_id row.
Proof.
  intros C. remember (Claimed row o) as c eqn:E. destruct C as [w W _|w row' o' t' W _ B|row' o' t' now W B]; [done| |];
    injection E as -> ->; by apply began_present in B.
Qed.
Lemma locked_writes job d ad row s r s' : present (a_id row) s -> (exists n, lock_free n d = true) ->
  _apply_patch_set_locked lease job d ad row s = (r, s') -> written s s'.
Proof.
  intros Pr L H. destruct (present_found _ _ Pr) as [a A]. unfold _apply_patch_set_locked in H.
  apply bind_split in H as [(o & s1 & G & H)|(e & G & _)]; [|by apply un_store, written_untouched in G].
  assert (o = Some a /\ s1 = s) as [-> ->].
  { apply store_split in G as (j & [= <- <-] & ->). split; [exact A | by destruct s]. }
  clear G. cbv zeta in H. change (default row (Some a)) with a in H. apply row_by_id in A as [_ A]. revert H.
  destruct (String.eqb (a_status a) "SUCCEEDED"); [intros H; eapply along_written; [|exact H]; quietly|].
  destruct (String.eqb_spec (a_status a) "RUNNING") as [St|]; cbn [negb].
  2: { intros H. eapply along_written; [|exact H]. destruct (String.eqb _ _); quietly. }
  destruct workspace_root as [root|] eqn:W; [|intros H; eapply along_written; [|exact H]; quietly].
  intros H. apply bind_split in H as [(cur & s1 & [= <- <-] & H)|(e & [=] & _)].
  change (scoped_hash _ root) with (scoped_hash (workspace s) root) in H.
  destruct (ostr_eqb (a_effect_hash a) (Some (scoped_hash (workspace s) root))) eqn:Ef; [eapply along_written; [|exact H]; quietly|].
  destruct (ostr_eqb (a_precondition_hash a) (Some (scoped_hash (workspace s) root))) eqn:Pre; [|eapply along_written; [|exact H]; unfold diverged; quietly].
  apply ostr_eqb_eq in Pre. revert H. apply invoke_writes. intros ps Ps K. repeat (split; [assumption|]).
  split; [intros E; rewrite E in Ef; by rewrite (proj2 (ostr_eqb_eq _ _) eq_refl) in Ef|]. done.
Qed.
Lemma fenced_writes job d ad row s r s' : present (a_id row) s -> _apply_patch_set_fenced lease job d ad row s = (r, s') -> written s s'.
Proof.
  intros Pr H. unfold _apply_patch_set_fenced, _acquire_dispatch_lock in H.
  apply bind_split in H as [(b & s1 & [= E <-] & H)|(e & [=] & _)].
  assert (X : s <| as_js := as_js s |> = s) by by destruct s. rewrite X in H.
  destruct b; [|eapply along_written; [|exact H]; unfold job_backoff; quietly]. eapply locked_writes; [exact Pr | | exact H].
  destruct workspace_root; [|done]. by eexists.
Qed.
Lemma existing_writes job d ad row s r s' : present (a_id row) s -> _reconcile_existing_apply lease job d ad row s = (r, s') -> written s s'.
Proof.
  intros Pr. unfold _reconcile_existing_apply.
  destruct (String.eqb _ _); [intros H; eapply along_written; [|exact H]; quietly|].
  destruct (String.eqb _ _ && _); [intros H; eapply along_written; [|exact H]; quietly|].
  destruct (negb _ && _); [intros H; eapply along_written; [|exact H]; quietly|].
  destruct workspace_root; [by apply fenced_writes | intros H; eapply along_written; [|exact H]; quietly].
Qed.
Lemma conflict_writes job d ad w : along written (_apply_conflict_outcome lease job d ad w).
Proof.
  unfold _apply_conflict_outcome. intros s r s' H. apply bind_split in H as [(o & s1 & G & H)|(e & G & _)]; [|by apply un_store, written_untouched in G].
  apply store_split in G as (j & [= <- <-] & ->). assert (X : s <| as_js := as_js s |> = s) by by destruct s. rewrite X in H. clear X.
  assert (E : forall x s2, (match action_of w (act_tables s) with Some a => _ ← _reconcile_existing_apply lease job d ad a; mret tt | None => mret tt end) s = (x, s2) -> written s s2).
  { intros x s2. destruct (action_of w (act_tables s)) as [a|] eqn:A; [|intros [= _ <-]; reflexivity]. apply row_by_id in A as [_ A].
    intros E. apply bind_split in E as [(o & s3 & E & [= _ <-])|(e & E & _)]; eapply existing_writes; try exact E; by exists a. }
  apply bind_split in H as [(u & s2 & H & [= _ <-])|(e & H & _)]; by apply E in H.
Qed.
Lemma claim_split {A} key job d input args h (k : apply_claim -> acmd A) :
  (forall w, along written (k (Conflict w))) -> (forall row o s r s', present (a_id row) s -> k (Claimed row o) s = (r, s') -> written s s') ->
  along written (c ← store (_begin_apply_action key job d input args h); k c).
Proof.
  intros Hc Hr s r s' H. apply bind_split in H as [(c & s1 & B & H)|(e & B & _)]; [|by apply un_store, written_untouched in B].
  etrans; [by eapply along_written, B; apply un_store|]. destruct c as [w|row o]; [by eapply Hc|]. eapply Hr; [|exact H].
  apply store_split in B as (j & B & ->). apply claim_cases in B as [(e & [=] & _)|(c & [= <-] & B)]. by apply claimed_present in B.
Qed.
Lemma committed_split {A} id (k : list SupervisorAction -> acmd A) :
  along written (k []) -> (forall a l s r s', present (a_id a) s -> k (a :: l) s = (r, s') -> written s s') ->
  along written (l ← store (jquery (_committed_apply_intents id)); k l).
Proof.
  intros H0 H1 s r s' H. apply bind_split in H as [(l & s1 & G & H)|(e & G & _)]; [|by apply un_store, written_untouched in G].
  apply store_split in G as (j & [= <- <-] & ->). assert (X : s <| as_js := as_js s |> = s) by by destruct s. rewrite X in H. clear X.
  destruct (_committed_apply_intents id (js_t (as_js s))) as [|a l] eqn:C; [by apply H0 in H|]. eapply H1; [|exact H].
  exists a. split; [|done]. assert (I : In a (_committed_apply_intents id (js_t (as_js s)))) by (rewrite C; by left).
  unfold _committed_apply_intents in I. by apply filter_In in I as [I _].
Qed.
Ltac scribble := lazymatch goal with
  | |- along _ (store (jquery (_committed_apply_intents _)) ≫= _) => fail
  | |- along _ (_ ≫= _) => apply al_bind; [exact _ | apply along_written; quietly | intros ?]
  | |- along _ (match _ with _ => _ end) => case_match
  | |- along _ (if ?b then _ else _) => destruct b
  | |- along _ (let _ := _ in _) => cbv zeta
  end.
Ltac scribbles := repeat first [solve [apply along_written; quietly] | scribble].
Lemma apply_writes d job : along written (_perform_apply_patch_set lease d job).
Proof.
  assert (N : forall id h ad, along written (apply_noop lease job id h ad)).
  { intros id h ad. apply claim_split; [intros w; apply conflict_writes|]. intros row o s r s' _ H. eapply along_written; [|exact H]. quietly. }
  assert (Pt : forall id h root ad ps, along written (apply_patches lease job id h root ad ps)).
  { intros id h root ad ps. unfold apply_patches. do 3 (apply al_bind; [exact _ | apply along_written; unfold fs_of; quietly | intros ?]; cbv zeta).
    apply claim_split; [intros w; apply conflict_writes|]. intros row o s r s' Pr H. destruct (settled apply_name o (Some id)); [injection H as _ <-; reflexivity|].
    by eapply fenced_writes. }
  assert (F : forall id h why, along written (_fail_apply job id h why)) by (intros id h why; apply along_written; unfold _fail_apply; quietly).
  unfold _perform_apply_patch_set, with_dispatch, observing, observed.
  scribbles.
  apply committed_split; [|intros row l; intros; by eapply existing_writes].
  scribbles; first [apply F | apply N | apply Pt].
Qed.
Ltac idle_step := repeat lazymatch goal with
  | |- along _ (modify (fun s => s <| as_world ::= _ |>)) => by intros ? ? ? [= _ <-]
  | |- along _ (_register_process_evidence _ _ _ _) => unfold _register_process_evidence
  | |- along _ (register_terminal _ _ _ _ _ _ _) => unfold register_terminal
  | |- along _ (_fresh_admission _) => unfold _fresh_admission, act_now_iso
  | |- along _ (tested _ _ _) => unfold tested
  | |- along _ act_now_iso => apply un_store
  | |- along _ ?m => progress quietly
  end.
Lemma spawn_untouched ad job row : along untouched (spawn_body lease ad job row).
Proof. unfold spawn_body, _spawn_scoped, log_tried, log_launched, db_now. idle_step. Qed.
Lemma tests_untouched job id root row : along untouched (run_tests job id root row).
Proof. unfold run_tests, _run_sandbox_scoped, _sandbox_resource_termination, act_now_iso. idle_step. Qed.
Lemma handler_writes d job h : handle lease (rdc_action d) = Some h -> along written (h d job).
Proof.
  destruct (rdc_action d); cbn [handle]; intros [= <-]; try apply apply_writes; apply along_written.
  all: unfold _perform_start_role, _perform_create_dispatch, _perform_spawn_run, spawn_end, _perform_bind_run, _perform_run_sandbox_tests,
    _perform_record_test_result, _perform_consume_result, _perform_mark_run_failed, _perform_core_recover, _perform_present_owner_gate,
    _perform_close, _perform_persistent_error, consume_validated, _fail_consume, still_frozen, observing, observed, with_dispatch, try_core,
    executed, reconciled_or, dispatch_is, begin_, core_cmd, db_now, frontier_now, frozen_hash, act_now_iso; quietly.
  - apply spawn_untouched.
  - apply tests_untouched.
Qed.
Lemma perform_writes d : along written (perform_next_safe_action_if_required lease d).
Proof.
  apply along_perform; [exact _ | intros A m _; apply along_written, un_store | intros job h; apply handler_writes].
Qed.
End Guarded.
End Writes.
