(* ===== verification/Scheduler.v ===== *)
(** * Scheduler: one bounded pass over the jobs
    (src/argent_core/scheduler.py).

    A pass claims or continues one job, filters it through the structural gate and the
    resource gate, recovers it from a terminated process, reconciles it and carries out at
    most one action.  The lease context and the excluded job are attributes of the
    supervisor, so they are part of the state, as is the workspace the action handlers write;
    the host reader, git and /proc are parameters. *)
From S2P Require Import Prelude PyVal Json Models Timestamps JobState Concurrency Recovery IsoParse Governor CoreStore JobRows Worktree Leases Ledger Supervisor Reconcile Processes Workspace Actions.
#[local] Open Scope string_scope.

Definition DEFAULT_LEASE_TTL_SECONDS : Z := 300.
Definition OUTCOME_NO_WORK : string := "no_work".
Definition OUTCOME_STEPPED : string := "stepped".
Definition OUTCOME_RENEWED : string := "renewed".
Definition OUTCOME_RELEASED : string := "released".
Definition OUTCOME_FENCED : string := "fenced".
Definition OUTCOME_RESOURCE_DEFERRED : string := "resource_deferred".
Definition OUTCOME_RESOURCE_DENIED : string := "resource_denied".
Definition OUTCOME_RESOURCE_LOST : string := "resource_lost".
Definition OUTCOME_RESOURCE_RECOVERED : string := "resource_recovered".
Definition OUTCOME_CONTEXT_FAILED : string := "context_build_failed".
Definition OUTCOME_CONCURRENCY_SERIALIZED : string := "concurrency_serialized".
Definition OUTCOME_CONCURRENCY_BLOCKED : string := "concurrency_blocked".
Definition DENY_LOCAL_RETRY_SECONDS : Z := 24 * 3600.

(** The outcome, the job and the detail of a pass. *)
Record SchedulerPassResult : Type := mkPassResult {
  pa_outcome : string;
  pa_job_id : option string;
  pa_decision : option ReconcileDecision;
  pa_action_outcome : option ActionOutcome;
  pa_lease_epoch : option Z;
  pa_detail : option string
}.
Definition pass_result (outcome : string) (job_id detail : option string) : SchedulerPassResult :=
  mkPassResult outcome job_id None None None detail.

(** The supervisor a scheduler drives: the store, its lease context and the job it excludes
    from the active ones; [ss_performed] is a ghost log of the decisions handed to it. *)
Record SSt : Type := mkSSt {
  ss_js : JSt;
  ss_world : World;
  ss_lease : option (string * Z);
  ss_exclude : option string;
  ss_performed : list ReconcileDecision
}.
#[export] Instance SSt_eta : EtaExpand SSt := fun x => mkSSt (ss_js x) (ss_world x) (ss_lease x) (ss_exclude x) (ss_performed x).
Definition scmd (A : Type) : Type := M SSt exc A.
Definition sup {A} (m : jcmd A) : scmd A := fun s => let (r, j) := m (ss_js s) in (r, s <| ss_js := j |>).
Definition sup_act {A} (m : acmd A) : scmd A := fun s =>
  let (r, a) := m (mkASt (ss_js s) (ss_world s)) in (r, s <| ss_js := as_js a |> <| ss_world := as_world a |>).

Definition _TRANSIENT_CONTEXT_CODES : list string := ["CONTEXT_PERSIST_IO_ERROR"; "CONTEXT_ARTIFACT_WRITE_ERROR"].
(** Codes that are neither transient nor known are permanent too. *)
Definition is_permanent_context_code (code : string) : bool := negb (str_in code _TRANSIENT_CONTEXT_CODES).

(** What the scheduler needs besides the supervisor. *)
Class SchedEnv : Type := {
  owner_id : string;
  lease_ttl_seconds : Z;
  renew_ttl_seconds : Z;
  recovery_policy : RecoveryPolicy;
  git_evidence : nat -> string -> WorktreeEvidence;
  stop_check : nat -> bool
}.

Section Scheduler.
Context {env : Env} {penv : ProcEnv} {fenv : FsEnv} {aenv : ActEnv} {senv : SchedEnv}.

(** *** The supervisor *)
Definition set_lease_owner (owner : string) (epoch : Z) : scmd unit := modify (fun s => s <| ss_lease := Some (owner, epoch) |>).
Definition clear_lease_owner : scmd unit := modify (fun s => s <| ss_lease := None |>).
Definition sup_now_iso : scmd string := sup jnow_iso.
Definition sup_reconcile (job_id : string) : scmd ReconcileDecision :=
  l ← gets ss_lease;
  sup (reconcile controller_source (fst <$> l) (snd <$> l) observe_run job_id).
Definition sup_perform (d : ReconcileDecision) : scmd ActionOutcome :=
  l ← gets ss_lease;
  _ ← modify (fun s => s <| ss_performed := (ss_performed s ++ [d])%list |>);
  sup_act (perform_next_safe_action_if_required l d).

Definition _default_active_jobs_reader : scmd (list (list pyval)) :=
  exclude ← gets ss_exclude;
  rows ← sup (list_supervisor_jobs false);
  mret (map (fun j => [PStr (j_id j); PStr (or_light (j_resource_class j))]) (List.filter (active_row exclude) rows)).
Definition capture : scmd HostResourceSnapshot :=
  jobs ← _default_active_jobs_reader;
  n ← sup moment;
  mret ((host_facts n jobs) <| hs_active_jobs := jobs |>).

(** *** Targets *)
Definition job_row (job_id : string) : scmd (option Job) := sup (get_supervisor_job job_id).
Definition snapshot_of (j : Job) : Snapshot :=
  mkSnapshot (Some (j_primary_state j)) (j_owner_instance_id j) (Some (j_lease_epoch j)) (j_lease_expires_at j)
    (Some (j_facts_version j)).
Definition is_running (j : Job) : bool := String.eqb (j_primary_state j) (value PS_RUNNING).
Definition mine (j : Job) : bool := ostr_eqb (j_owner_instance_id j) (Some owner_id).

(** *** Evidence about a process and a worktree *)
Definition process_evidence (job_id : string) : scmd (option Process) :=
  rows ← sup (list_process_registrations (Some job_id)); mret (last rows).
Inductive identity_verdict : Type := Alive | Terminated | Unknown.
#[export] Instance identity_verdict_eq_dec : EqDecision identity_verdict.
Proof. solve_decision. Defined.
(** [_process_identity_verdict]: an error of the live provider is unknown. *)
Definition _process_identity_verdict (job_id : string) : scmd identity_verdict :=
  reg ← process_evidence job_id;
  match reg with
  | None => mret Unknown
  | Some reg =>
      if is_terminally_dead reg then mret Terminated
      else if (p_pid reg <=? 0)%Z then mret Unknown
      else
        live ← (fun s => match sup (current_identity (p_pid reg)) s with
                         | (Ok i, s1) => (Ok (Some i), s1)
                         | (Err _, s1) => (Ok None, s1)
                         end) : scmd (option ProcessIdentity);
        mret match live with
             | Some live => if negb (is_known live) then Unknown
                            else if String.eqb (classify_identity reg live) IDENTITY_SAME then Alive else Terminated
             | None => Unknown
             end
  end.
Definition _worktree_recovery_verdict (job_id : string) : scmd (option string) :=
  row ← job_row job_id;
  match row with
  | None => mret None
  | Some j =>
      let w := j_writer j in
      if negb (ostr_eqb (w_writer_binding_mode w) (Some WRITER_BINDING_BOUND)) then mret None
      else if negb (otruthy (w_canonical_worktree_path w)) || negb (is_some (w_repo_identity w))
      then mret (Some V_AMBIGUOUS_WRITER)
      else
        let path := default "" (w_canonical_worktree_path w) in
        let binding := mkWorktreeBinding job_id path (w_repo_identity w) (w_base_commit w) (w_branch_identity w)
          (w_writer_dispatch_id w) (w_writer_owner_instance_id w) (w_writer_lease_epoch w) (w_expected_head w)
          (w_current_head w) in
        n ← sup moment;
        mret (Some (fst (classify_worktree_recovery binding (git_evidence n path) (Some true))))
  end.
(** [except LeaseError]. *)
Definition no_lease_error {A} (m : scmd A) : scmd (option A) :=
  except (a ← m; mret (Some a)) (fun e => bool_decide (e = LeaseError)) (mret None).
Definition _try_recover_takeover (job_id : string) (row : Job) : scmd (option Job) :=
  verdict ← _process_identity_verdict job_id;
  match verdict with
  | Alive => mret None
  | Unknown => _ ← sup (quarantine_lost job_id "AMBIGUOUS_WRITER" (Some (snapshot_of row))); mret None
  | Terminated =>
      worktree_verdict ← _worktree_recovery_verdict job_id;
      taken ← no_lease_error (sup (recover_takeover_job job_id (snapshot_of row) owner_id lease_ttl_seconds false worktree_verdict));
      match taken with
      | Some (Some t) => mret (if is_running t && mine t then Some t else None)
      | Some None => raise AttributeError
      | None => mret None
      end
  end.
(** [eligible is None or eligible <= now]. *)
Definition due (o : option string) (now : scmd string) : scmd bool :=
  match o with None => mret true | Some t => n ← now; mret (str_leb t n) end.
(** [expires is not None and expires <= now]. *)
Definition past (o : option string) (now : scmd string) : scmd bool :=
  match o with None => mret false | Some t => n ← now; mret (str_leb t n) end.
Definition held_now (j : Job) : scmd bool := sup (lease_is_current (j_id j) owner_id (j_lease_epoch j)).
(** The job, its epoch and whether its lease was ours already. *)
Definition target : Type := string * Z * bool.
Definition _resolve_explicit_target (job_id : string) : scmd (option target) :=
  row ← job_row job_id;
  match row with
  | None => mret None
  | Some row =>
      held ← (if mine row && is_running row then sup (lease_is_current job_id owner_id (j_lease_epoch row)) else mret false);
      go ← (if held : bool then due (j_next_eligible_at row) sup_now_iso else mret false);
      if go : bool then mret (Some (job_id, j_lease_epoch row, true)) else
      expired ← (if is_running row then past (j_lease_expires_at row) sup_now_iso else mret false);
      if expired : bool then
        taken ← _try_recover_takeover job_id row;
        mret ((fun t => (job_id, j_lease_epoch t, false)) <$> taken)
      else
        claimed ← no_lease_error (sup (claim_job job_id owner_id lease_ttl_seconds));
        mret ((fun j => (j_id j, j_lease_epoch j, false)) <$> claimed)
  end.
Fixpoint continuation_loop (now_iso : string) (rows : list Job) : scmd (option target) :=
  match rows with
  | [] => mret None
  | row :: rest =>
      if negb (is_running row) then continuation_loop now_iso rest else
      held ← (if mine row then held_now row else mret false);
      if held : bool then
        match j_next_eligible_at row with
        | Some e => if str_leb e now_iso then mret (Some (j_id row, j_lease_epoch row, true)) else continuation_loop now_iso rest
        | None => mret (Some (j_id row, j_lease_epoch row, true))
        end
      else
        match j_lease_expires_at row with
        | Some e =>
            if str_leb e now_iso then
              taken ← _try_recover_takeover (j_id row) row;
              match taken with
              | Some t => mret (Some (j_id row, j_lease_epoch t, false))
              | None => continuation_loop now_iso rest
              end
            else continuation_loop now_iso rest
        | None => continuation_loop now_iso rest
        end
  end.
Definition _resolve_loop_continuation : scmd (option target) :=
  now_iso ← sup_now_iso;
  rows ← sup (list_supervisor_jobs true);
  continuation_loop now_iso rows.
Definition _resolve_target (job_id : option string) : scmd (option target) :=
  match job_id with
  | Some j => _resolve_explicit_target j
  | None =>
      claimed ← sup (claim_next_job owner_id lease_ttl_seconds);
      match claimed with
      | Some j => mret (Some (j_id j, j_lease_epoch j, false))
      | None => _resolve_loop_continuation
      end
  end.

(** *** The gates *)
Definition _resource_preflight (job_id : string) : scmd AdmissionDecision :=
  _ ← modify (fun s => s <| ss_exclude := Some job_id |>);
  finally (
    row ← job_row job_id;
    let rc := match row with Some j => or_light (j_resource_class j) | None => value RC_LIGHT end in
    snapshot ← capture;
    now ← sup_now_iso;
    n ← sup moment;
    lift (decide (host_wall n) resource_policy (PStr rc) snapshot None (Some now) false None []))
    (modify (fun s => s <| ss_exclude := None |>)).
(** [now + seconds] as ISO text; [None] when the clock's text does not parse. *)
Definition horizon (now_iso : string) (seconds : Z) : res exc (option string) :=
  match fromisoformat now_iso with
  | Err _ => Ok None
  | Ok dt =>
      let w := (dt_wall dt + seconds * US_PER_SECOND)%Z in
      _ ← res_unless (in_range w) OverflowError;
      Ok (Some (isoformat w (default 0%Z (dt_offset dt))))
  end.
Definition requeue (reason : QueueReason) (next : option string) (ec : ErrorClass) (code : option string) (epoch : Z) : Enqueue :=
  mkEnqueue (value reason) 0 next "NONE" (value ec) code false (Some owner_id) (Some epoch) false None None None None None None
    None None.
Definition with_audit (a : AdmissionDecision) (e : Enqueue) : Enqueue :=
  mkEnqueue (en_queue_reason e) (en_priority e) (en_next_eligible_at e) (en_wait_kind e) (en_error_class e) (en_error_code e)
    (en_bump_attempt e) (en_owner_instance_id e) (en_lease_epoch e) (en_owner_authorized e) (en_policy_ref e)
    (en_resource_class e) (Some (value (ad_decision a))) (Some (value (ad_reason_code a))) (Some (ad_snapshot_ref a))
    (Some (ad_timestamp a)) None None.
Definition enqueue (job_id : string) (e : Enqueue) : scmd unit := _ ← sup (enqueue_job job_id e); mret tt.
Definition _defer_resource_job (job_id : string) (epoch : Z) (a : AdmissionDecision) : scmd unit :=
  enqueue job_id (with_audit a (requeue QR_RESOURCE_DEFERRED (ad_next_eligible_at a) EC_RESOURCE
                                  (Some (value (ad_reason_code a))) epoch)).
Definition _deny_resource_job (job_id : string) (epoch : Z) (a : AdmissionDecision) : scmd unit :=
  now ← sup_now_iso;
  far ← lift (horizon now DENY_LOCAL_RETRY_SECONDS);
  enqueue job_id (with_audit a (requeue QR_RESOURCE_DENIED far EC_RESOURCE
                                  (Some (value RR_LOCAL_CAPACITY_INSUFFICIENT)) epoch)).
Definition _enforcement_failed_job (job_id : string) (epoch : Z) (reason_code : option string) : scmd unit :=
  now ← sup_now_iso;
  next ← lift (horizon now (rcp_defer_retry_seconds resource_policy));
  let e := requeue QR_RESOURCE_DEFERRED next EC_RESOURCE reason_code epoch in
  enqueue job_id (mkEnqueue (en_queue_reason e) (en_priority e) (en_next_eligible_at e) (en_wait_kind e) (en_error_class e)
    (en_error_code e) false (Some owner_id) (Some epoch) false None None (Some (value AV_DEFER)) reason_code None None None None).
Definition or_code (o : option string) (dflt : string) : string :=
  match o with Some c => if truthy c then c else dflt | None => dflt end.
Definition _enforcement_lost_job (job_id : string) (reason_code : option string) : scmd unit :=
  _ ← sup (quarantine_lost job_id (or_code reason_code "SCOPE_CLEANUP_UNVERIFIED") None); mret tt.
Definition _context_failed_job (job_id : string) (epoch : Z) (code : string) : scmd unit :=
  now ← sup_now_iso;
  next ← lift (horizon now (rcp_defer_retry_seconds resource_policy));
  enqueue job_id (requeue QR_RETRY_BACKOFF next EC_CONTEXT (Some (or_code (Some code) "CONTEXT_BUDGET_EXCEEDED")) epoch).
Definition _context_blocked_job (job_id : string) (code : string) : scmd unit :=
  _ ← sup (quarantine_blocked job_id (or_code (Some code) "CONTEXT_BUDGET_EXCEEDED") (value EC_CONTEXT) None); mret tt.
Definition _persist_resource_hint (job_id : string) (epoch : Z) (a : AdmissionDecision) : scmd unit :=
  except (_ ← sup (persist_resource_decision job_id owner_id epoch (value (ad_decision a)) (value (ad_reason_code a))
                     (Some (ad_snapshot_ref a)) (Some (ad_timestamp a))); mret tt)
    (fun e => in_list e [LeaseError; LeaseFencedError]) (mret tt).
Definition _resource_gate (job_id : string) (epoch : Z) (a : AdmissionDecision) : scmd (option SchedulerPassResult) :=
  let reason := Some (value (ad_reason_code a)) in
  match ad_decision a with
  | AV_DEFER =>
      _ ← _defer_resource_job job_id epoch a; _ ← clear_lease_owner;
      mret (Some (pass_result OUTCOME_RESOURCE_DEFERRED (Some job_id) reason))
  | AV_DENY_LOCAL =>
      _ ← _deny_resource_job job_id epoch a; _ ← clear_lease_owner;
      mret (Some (pass_result OUTCOME_RESOURCE_DENIED (Some job_id) reason))
  | AV_PREFER_EXTERNAL => _ ← _persist_resource_hint job_id epoch a; mret None
  | AV_ALLOW => mret None
  end.

Definition _facts_from_row (j : Job) (dependency_terminal : option string) : JobFacts :=
  let w := j_writer j in let f := j_footprint j in
  mkJobFacts (j_id j) (fl_expected_role (j_flow j)) (or_light (j_resource_class j))
    (mkFootprintFacts (w_repo_identity w) (w_canonical_worktree_path w) (w_branch_identity w)
       (parse_footprint_list (fp_mutation_path_roots f)) (parse_footprint_list (fp_mutation_modules f))
       (fp_external_action_class f) (fp_integration_target f))
    (j_depends_on j) dependency_terminal (fp_action_scope f).
Definition list_active_job_facts (exclude_job_id : string) : jcmd (list JobFacts) :=
  jquery (fun t => map (fun j => _facts_from_row j None) (List.filter (active_row (Some exclude_job_id)) (jt_jobs t))).
Definition _concurrency_preflight (job_id : string) : scmd (option ConcurrencyDecision) :=
  row ← job_row job_id;
  match row with
  | None => mret None
  | Some row =>
      dep ← match j_depends_on row with
            | Some d => if truthy d then sup (get_dependency_terminal d) else mret None
            | None => mret None
            end;
      active ← sup (list_active_job_facts job_id);
      mret (Some (concurrency_decide (_facts_from_row row dep) active))
  end.
Definition _concurrency_block_job (job_id : string) (d : ConcurrencyDecision) : scmd unit :=
  _ ← sup (quarantine_blocked job_id (value (cd_reason_code d)) (value EC_OWNER_REQUIRED) None); mret tt.
Definition _concurrency_defer_job (job_id : string) (epoch : Z) (d : ConcurrencyDecision) : scmd unit :=
  now ← sup_now_iso;
  next ← lift (horizon now (rcp_defer_retry_seconds resource_policy));
  let code := Some (value (cd_reason_code d)) in
  let e := requeue QR_CONCURRENCY_SERIALIZED next EC_NONE code epoch in
  enqueue job_id (mkEnqueue (en_queue_reason e) (en_priority e) (en_next_eligible_at e) (en_wait_kind e) (en_error_class e)
    (en_error_code e) false (Some owner_id) (Some epoch) false None None None None None None code (Some now)).
Definition _concurrency_gate (job_id : string) (epoch : Z) (d : option ConcurrencyDecision) : scmd (option SchedulerPassResult) :=
  match d with
  | None => mret None
  | Some d =>
      let reason := Some (value (cd_reason_code d)) in
      match cd_verdict d with
      | CV_ALLOW_PARALLEL => mret None
      | CV_BLOCK =>
          _ ← _concurrency_block_job job_id d; _ ← clear_lease_owner;
          mret (Some (pass_result OUTCOME_CONCURRENCY_BLOCKED (Some job_id) reason))
      | _ =>
          _ ← _concurrency_defer_job job_id epoch d; _ ← clear_lease_owner;
          mret (Some (pass_result OUTCOME_CONCURRENCY_SERIALIZED (Some job_id) reason))
      end
  end.

(** *** Recovery from a terminated process *)
Definition _parse_scope_events (scope_events : option string) : pyval :=
  match scope_events with
  | Some t => if truthy t then match json_loads t with Ok (PDict d) => PDict d | _ => PNone end else PNone
  | None => PNone
  end.
(** The terminal registration bound to the frontier dispatch and the current boot, newest first. *)
Definition bound_to (dispatch current_boot : option string) (reg : Process) : bool :=
  is_terminally_dead reg
  && match dispatch with
     | Some d => ostr_eqb (p_dispatch_id reg) (Some d)
     | None => negb (is_some (p_dispatch_id reg))
     end
  && match current_boot with Some b => ostr_eqb (p_boot_id reg) (Some b) | None => true end.
Definition _bound_terminal_evidence (job_id : string) : scmd (option Process) :=
  row ← job_row job_id;
  match row with
  | None => mret None
  | Some row =>
      if negb (is_running row) || is_some (j_terminal row) then mret None else
      current_boot ← sup boot_id;
      regs ← sup (list_process_registrations (Some job_id));
      mret (find (bound_to (fl_expected_dispatch_id (j_flow row)) current_boot) (rev regs))
  end.
Definition next_eligible_at_after (now_iso : string) (seconds : Z) : res exc (option string) :=
  if (seconds <=? 0)%Z then Ok (Some now_iso) else horizon now_iso seconds.
Definition classify_and_recover (job_id : string) (epoch : Z) : scmd (option SchedulerPassResult) :=
  row ← job_row job_id;
  match row with
  | None => mret None
  | Some row =>
      if negb (is_running row) || is_some (j_terminal row) then mret None else
      reg ← _bound_terminal_evidence job_id;
      match reg with
      | None => mret None
      | Some reg =>
          let process_id := p_process_id reg in
          consumed ← (if truthy process_id then sup (has_recovery_marker job_id process_id) else mret false);
          if consumed : bool then mret None else
          let fc := classify_failure (p_termination_class reg) (p_exit_code reg) (negb (p_timed_out reg =? 0)%Z)
                      (_parse_scope_events (p_scope_events reg)) in
          resource ← lift (is_resource_failure (value fc));
          if negb resource then mret None else
          let dec := decide_recovery fc (j_attempt_no row) recovery_policy false false in
          let backoff := if bool_decide (dec = RD_RETRY_BOUNDED)
                         then Recovery.rp_retry_backoff_seconds recovery_policy
                         else Recovery.rp_defer_backoff_seconds recovery_policy in
          now ← sup_now_iso;
          next ← lift (next_eligible_at_after now backoff);
          except (
            _ ← sup (commit_recovery_decision job_id owner_id epoch (value fc) (value dec)
                       (Some (value (reason_code_for_failure fc))) next None (Some process_id));
            mret (Some (pass_result OUTCOME_RESOURCE_RECOVERED (Some job_id) (Some (value dec)))))
            (fun e => in_list e [LeaseError; LeaseFencedError]) (mret None)
      end
  end.

(** *** The pass *)
Definition _should_renew (j : Job) : scmd bool := if is_running j then held_now j else mret false.
Definition stop_requested : scmd bool := n ← sup moment; mret (stop_check n).
Definition spawns (d : ReconcileDecision) : bool := in_list (rdc_action d) [RA_SPAWN_RUN; RA_RUN_SANDBOX_TESTS].
Definition stepped (outcome job_id : string) (d : ReconcileDecision) (a : ActionOutcome) (epoch : option Z) (detail : option string) :
    SchedulerPassResult := mkPassResult outcome (Some job_id) (Some d) (Some a) epoch detail.
(** The row after the step: renew, clear or leave the lease. *)
Definition settle_lease (job_id : string) (held : bool) (d : ReconcileDecision) (a : ActionOutcome) : scmd SchedulerPassResult :=
  row ← job_row job_id;
  match row with
  | None => _ ← clear_lease_owner; mret (stepped OUTCOME_STEPPED job_id d a None (Some "job_gone"))
  | Some row =>
      match j_terminal row with
      | Some t =>
          _ ← clear_lease_owner;
          mret (stepped OUTCOME_STEPPED job_id d a (Some (j_lease_epoch row)) (Some ("terminal:" ++ t)))
      | None =>
          renew ← _should_renew row;
          if renew : bool then
            renewed ← sup (renew_lease job_id owner_id (j_lease_epoch row) renew_ttl_seconds);
            _ ← clear_lease_owner;
            mret (stepped OUTCOME_RENEWED job_id d a (Some (j_lease_epoch renewed)) (Some ("held=" ++ if held then "True" else "False")))
          else
            cleared ← (if mine row && is_some (j_lease_expires_at row)
                       then r ← no_lease_error (sup (clear_lease job_id owner_id (j_lease_epoch row))); mret (is_some r)
                       else mret false);
            _ ← clear_lease_owner;
            mret (stepped (if cleared : bool then OUTCOME_RELEASED else OUTCOME_STEPPED) job_id d a (Some (j_lease_epoch row))
                    (Some ("primary_state=" ++ j_primary_state row)))
      end
  end.
(** What the outcome of the action asks of the scheduler. *)
Definition after_action (job_id : string) (epoch : Z) (held : bool) (d : ReconcileDecision) (a : ActionOutcome) :
    scmd SchedulerPassResult :=
  let status := ao_status a in
  if String.eqb status "resource_enforcement_failed" then
    _ ← _enforcement_failed_job job_id epoch (ao_detail a);
    mret (pass_result OUTCOME_RESOURCE_DEFERRED (Some job_id) (ao_detail a))
  else if String.eqb status "resource_enforcement_lost" then
    _ ← _enforcement_lost_job job_id (ao_detail a);
    mret (pass_result OUTCOME_RESOURCE_LOST (Some job_id) (ao_detail a))
  else if String.eqb status "context_build_failed" then
    let code := or_code (ao_detail a) "CONTEXT_BUDGET_EXCEEDED" in
    _ ← (if is_permanent_context_code code then _context_blocked_job job_id code else _context_failed_job job_id epoch code);
    mret (pass_result OUTCOME_CONTEXT_FAILED (Some job_id) (Some code))
  else if String.eqb status "resource_termination_failed" then
    recovered ← classify_and_recover job_id epoch;
    _ ← clear_lease_owner;
    mret (default (stepped OUTCOME_STEPPED job_id d a None (Some "recovery_noop")) recovered)
  else settle_lease job_id held d a.
(** The gates of a job: structure first, then resources. *)
Definition both_gates (job_id : string) (epoch : Z) : scmd (option SchedulerPassResult) :=
  c ← _concurrency_preflight job_id;
  g ← _concurrency_gate job_id epoch c;
  match g with
  | Some r => mret (Some r)
  | None => a ← _resource_preflight job_id; _resource_gate job_id epoch a
  end.
Definition act (job_id : string) (epoch : Z) (held : bool) (d : ReconcileDecision) : scmd SchedulerPassResult :=
  r ← (fun s => match sup_perform d s with
                | (Ok a, s1) => (Ok (Some a), s1)
                | (Err LeaseFencedError, s1) => (Ok None, s1)
                | (Err e, s1) => (Err e, s1)
                end) : scmd (option ActionOutcome);
  match r with
  | None =>
      _ ← clear_lease_owner;
      mret (mkPassResult OUTCOME_FENCED (Some job_id) (Some d) None None (Some (exc_text LeaseFencedError)))
  | Some a => after_action job_id epoch held d a
  end.
Definition gated_act (job_id : string) (epoch : Z) (held : bool) (d : ReconcileDecision) : scmd SchedulerPassResult :=
  if spawns d then
    stop ← stop_requested;
    if stop : bool then _ ← clear_lease_owner; mret (pass_result OUTCOME_NO_WORK (Some job_id) (Some "stop_requested"))
    else
      g ← both_gates job_id epoch;
      match g with Some r => mret r | None => act job_id epoch held d end
  else act job_id epoch held d.
Definition reconcile_and_act (job_id : string) (epoch : Z) (held : bool) : scmd SchedulerPassResult :=
  r ← (fun s => match sup_reconcile job_id s with
                | (Ok d, s1) => (Ok (inl d), s1)
                | (Err LeaseFencedError, s1) => (Ok (inr (OUTCOME_FENCED, exc_text LeaseFencedError)), s1)
                | (Err NotFound, s1) => (Ok (inr (OUTCOME_NO_WORK, "job_missing")), s1)
                | (Err e, s1) => (Err e, s1)
                end) : scmd (ReconcileDecision + string * string);
  match r with
  | inr (outcome, detail) => _ ← clear_lease_owner; mret (pass_result outcome (Some job_id) (Some detail))
  | inl d => gated_act job_id epoch held d
  end.
Definition run_pass (job_id : option string) : scmd SchedulerPassResult :=
  target ← _resolve_target job_id;
  match target with
  | None => mret (pass_result OUTCOME_NO_WORK job_id None)
  | Some (target_job_id, epoch, held) =>
      _ ← set_lease_owner owner_id epoch;
      g ← (if held : bool then mret None else both_gates target_job_id epoch);
      match g with
      | Some r => mret r
      | None =>
          recovered ← classify_and_recover target_job_id epoch;
          match recovered with
          | Some r => _ ← clear_lease_owner; mret r
          | None => reconcile_and_act target_job_id epoch held
          end
      end
  end.

(** *** After a restart *)
Inductive restart_kind : Type :=
| Rebound | Foreign_lease_kept | Takeover_candidate | Blocked_worktree | Quarantined_lost | Process_alive
| Resource_recovered | Skip_terminal | Left.
#[export] Instance restart_kind_eq_dec : EqDecision restart_kind.
Proof. solve_decision. Defined.
Record RestartReconcileSummary : Type := mkRestartSummary { rs_scanned : nat; rs_details : list (string * restart_kind * string) }.
Definition kind_count (k : restart_kind) (r : RestartReconcileSummary) : nat :=
  length (List.filter (fun d => bool_decide (snd (fst d) = k)) (rs_details r)).

Definition lease_tuple_valid (j : Job) : bool :=
  otruthy (j_owner_instance_id j) && (1 <=? j_lease_epoch j)%Z && is_some (j_lease_expires_at j).
(** The re-read after a lost compare-and-set: [inr] goes round again. *)
Definition reread (job_id : string) : scmd (restart_kind * string + Job) :=
  row ← job_row job_id;
  mret match row with
       | None => inl (Left, "gone")
       | Some j =>
           match j_terminal j with
           | Some t => inl (Skip_terminal, t)
           | None => if is_running j then inr j else inl (Left, j_primary_state j)
           end
       end.
Definition quarantined (r : option Job) (k : restart_kind) (detail job_id : string) : scmd (restart_kind * string + Job) :=
  match r with Some _ => mret (inl (k, detail)) | None => reread job_id end.
Definition classify_once (now_iso : string) (current : Job) : scmd (restart_kind * string + Job) :=
  let jid := j_id current in
  reg ← _bound_terminal_evidence jid;
  recovered ← (match reg with Some _ => classify_and_recover jid (j_lease_epoch current) | None => mret None end);
  match recovered with
  | Some r => mret (inl (Resource_recovered, default "" (pa_detail r)))
  | None =>
      let lost (detail : string) : scmd (restart_kind * string + Job) :=
        q ← sup (quarantine_lost jid "AMBIGUOUS_WRITER" (Some (snapshot_of current)));
        quarantined q Quarantined_lost detail jid in
      let detail := "epoch=" ++ z_text (j_lease_epoch current) in
      if negb (lease_tuple_valid current) then
        lost (if is_some (j_lease_expires_at current) then "incomplete_lease" else "running_no_lease")
      else if str_ltb now_iso (default "" (j_lease_expires_at current)) then
        mret (inl (if mine current then (Rebound, detail)
                   else (Foreign_lease_kept, default "" (j_owner_instance_id current))))
      else
        verdict ← _process_identity_verdict jid;
        match verdict with
        | Alive => mret (inl (Process_alive, detail ++ ":live_process"))
        | Terminated =>
            wv ← _worktree_recovery_verdict jid;
            if ostr_eqb wv (Some V_BLOCKED_DIVERGED) then
              q ← sup (quarantine_blocked jid "WORKTREE_DIVERGED" (value EC_OWNER_REQUIRED) (Some (snapshot_of current)));
              quarantined q Blocked_worktree (detail ++ ":worktree_diverged") jid
            else if is_some wv && negb (ostr_eqb wv (Some V_CLEANUP_PENDING)) then lost (detail ++ ":worktree_ambiguous")
            else mret (inl (Takeover_candidate, detail ++ ":process_terminal"))
        | Unknown => lost (detail ++ ":unknown_process")
        end
  end.
Fixpoint classify_loop (tries : nat) (now_iso : string) (current : Job) : scmd (restart_kind * string) :=
  match tries with
  | O => mret (Left, j_primary_state current)
  | S n =>
      r ← classify_once now_iso current;
      match r with inl x => mret x | inr j => classify_loop n now_iso j end
  end.
Definition _classify_running (row : Job) (now_iso : string) : scmd (restart_kind * string) := classify_loop 3 now_iso row.
Definition restart_row (now_iso : string) (row : Job) : scmd (string * restart_kind * string) :=
  match j_terminal row with
  | Some t => mret (j_id row, Skip_terminal, t)
  | None =>
      if is_running row then r ← _classify_running row now_iso; mret (j_id row, fst r, snd r)
      else mret (j_id row, Left, j_primary_state row)
  end.
Fixpoint restart_rows (now_iso : string) (rows : list Job) : scmd (list (string * restart_kind * string)) :=
  match rows with
  | [] => mret []
  | row :: rest => d ← restart_row now_iso row; ds ← restart_rows now_iso rest; mret (d :: ds)
  end.
Definition reconcile_after_restart : scmd RestartReconcileSummary :=
  rows ← sup (list_supervisor_jobs false);
  now ← sup_now_iso;
  details ← restart_rows now rows;
  mret (mkRestartSummary (length rows) details).
End Scheduler.
