(* ===== verification/SchedSpec.v ===== *)
(** * SchedSpec: what a scheduler pass may do.

    At most one decision is carried out in a pass, and a decision that starts a process is
    carried out only behind both gates of the same pass; a job is taken over only on proof
    that its process is gone. *)
From stdpp Require Import gmap.
From S2P Require Import Prelude PyVal Json Models Timestamps Trust CoreStore Session Scenario JobState Concurrency Recovery IsoParse Governor JobRows Worktree Leases JobSteps LeaseSpec JobInv LeaseSession JobFrame Ledger JobScenario Supervisor Reconcile Processes Workspace Actions Along ActionSpec Scheduler.
#[local] Open Scope string_scope.

(** The log of performed decisions is the same. *)
Definition quiet_log (s s' : SSt) : Prop := ss_performed s' = ss_performed s.
#[export] Instance quiet_log_preorder : PreOrder quiet_log.
Proof. split; [done|]. intros a b c H1 H2. unfold quiet_log in *. congruence. Qed.

(** *** A pass that starts a process *)
Definition dependency_of (row : Job) (t : JT) : option string :=
  match j_depends_on row with
  | Some d => if truthy d then match job_of d t with None => Some DEPENDENCY_MISSING | Some j => j_terminal j end else None
  | None => None
  end.
(** The other RUNNING jobs. *)
Definition others (job_id : string) (t : JT) : list Job := List.filter (active_row (Some job_id)) (jt_jobs t).
(** The structural policy lets the job run beside the others. *)
Definition structurally_free (job_id : string) (t : JT) : Prop := forall row, job_of job_id t = Some row ->
  cd_verdict (concurrency_decide (_facts_from_row row (dependency_of row t))
                (map (fun j => _facts_from_row j None) (others job_id t))) = CV_ALLOW_PARALLEL.
(** The host admits the job's class beside the classes of the others. *)
Definition resources_free `{ActEnv} (job_id : string) (t : JT) : Prop := exists rc h,
  value rc = match job_of job_id t with Some row => or_light (j_resource_class row) | None => value RC_LIGHT end /\
  hs_active_jobs h = map (fun j => [PStr (j_id j); PStr (or_light (j_resource_class j))]) (others job_id t) /\
  admissible resource_policy rc h None [].
Definition tables (s : SSt) : JT := js_t (ss_js s).

(** *** A walk through a pass *)
(** A relation kept by every command of the supervisor that leaves the journal alone. *)
Class Passing (R : SSt -> SSt -> Prop) : Prop := {
  pr_preorder :: PreOrder R;
  pr_sup {A} (m : jcmd A) : along calm m -> along R (sup m);
  pr_lease o : along R (modify (fun s => s <| ss_lease := o |>));
  pr_exclude o : along R (modify (fun s => s <| ss_exclude := o |>))
}.
Section Walk.
Context {env : Env} {penv : ProcEnv} {fenv : FsEnv} {aenv : ActEnv} {senv : SchedEnv}.
Context (R : SSt -> SSt -> Prop) {P : Passing R}.
Ltac pass_step :=
  lazymatch goal with
  | |- along _ (sup _) => apply pr_sup; first [solve [eauto with calm] | solve [unfold list_process_registrations, list_supervisor_jobs, has_recovery_marker,
      list_active_job_facts, get_dependency_terminal, boot_id, moment; calm]]
  | |- along _ sup_now_iso => apply pr_sup, calm_reads, jnow_iso_reads
  | |- along _ (job_row _) => apply pr_sup; calm
  | |- along _ (held_now _) => apply pr_sup, calm_current
  | |- along _ (modify (fun s => s <| ss_lease := _ |>)) => apply pr_lease
  | |- along _ (modify (fun s => s <| ss_exclude := _ |>)) => apply pr_exclude
  | |- along _ clear_lease_owner => apply pr_lease
  | |- along _ (set_lease_owner _ _) => apply pr_lease
  | |- along _ (due _ _) => unfold due
  | |- along _ (past _ _) => unfold past
  | |- along _ (no_lease_error _) => unfold no_lease_error
  | |- along _ (enqueue _ _) => unfold enqueue
  | |- along _ (if ?b then _ else _) => destruct b
  | |- along _ (let _ := _ in _) => cbv zeta
  | _ => al_step
  end.
Ltac pass := repeat pass_step.
Lemma pass_verdict job_id : along R (_process_identity_verdict job_id).
Proof.
  unfold _process_identity_verdict, process_evidence. pass.
  intros s r s'. destruct (sup (current_identity _) s) as [[i|e] s1] eqn:E; apply (pr_sup _ (calm_identity _)) in E; by intros [= _ <-].
Qed.
Lemma pass_worktree job_id : along R (_worktree_recovery_verdict job_id).
Proof. unfold _worktree_recovery_verdict. pass. Qed.
Lemma pass_takeover job_id row : along R (_try_recover_takeover job_id row).
Proof. unfold _try_recover_takeover. pass; [apply pass_verdict | apply pass_worktree]. Qed.
Lemma pass_continuation now rows : along R (continuation_loop now rows).
Proof. induction rows as [|row rows IH]; cbn [continuation_loop]; [pass|]. pass; try exact IH; apply pass_takeover. Qed.
Lemma pass_target job_id : along R (_resolve_target job_id).
Proof.
  unfold _resolve_target, _resolve_explicit_target, _resolve_loop_continuation. pass;
    first [apply pass_takeover | apply pass_continuation].
Qed.
Lemma pass_capture : along R capture.
Proof. unfold capture, _default_active_jobs_reader. pass. Qed.
Lemma pass_preflight job_id : along R (_resource_preflight job_id).
Proof. unfold _resource_preflight. pass. apply pass_capture. Qed.
Lemma pass_resource_gate job_id epoch a : along R (_resource_gate job_id epoch a).
Proof. unfold _resource_gate, _defer_resource_job, _deny_resource_job, _persist_resource_hint. pass. Qed.
Lemma pass_concurrency job_id : along R (_concurrency_preflight job_id).
Proof. unfold _concurrency_preflight. pass. Qed.
Lemma pass_concurrency_gate job_id epoch d : along R (_concurrency_gate job_id epoch d).
Proof. unfold _concurrency_gate, _concurrency_block_job, _concurrency_defer_job. pass. Qed.
Lemma pass_gates job_id epoch : along R (both_gates job_id epoch).
Proof.
  unfold both_gates. pass; [apply pass_concurrency | apply pass_concurrency_gate | apply pass_preflight | apply pass_resource_gate].
Qed.
Lemma pass_evidence job_id : along R (_bound_terminal_evidence job_id).
Proof. unfold _bound_terminal_evidence. pass. Qed.
Lemma pass_recover job_id epoch : along R (classify_and_recover job_id epoch).
Proof. unfold classify_and_recover. pass. apply pass_evidence. Qed.
Lemma pass_settle job_id held d a : along R (settle_lease job_id held d a).
Proof. unfold settle_lease, _should_renew. pass. Qed.
Lemma pass_after job_id epoch held d a : along R (after_action job_id epoch held d a).
Proof.
  unfold after_action, _enforcement_failed_job, _enforcement_lost_job, _context_blocked_job, _context_failed_job. pass;
    first [apply pass_recover | apply pass_settle].
Qed.

(** A pass that may also perform decisions. *)
Context (performs : forall d, along R (sup_perform d)).
Lemma pass_act job_id epoch held d : along R (act job_id epoch held d).
Proof.
  unfold act. apply al_bind; [exact _ | | intros [a|]; [apply pass_after | pass]].
  intros s r s'. destruct (sup_perform d s) as [[a|e] s1] eqn:E; apply performs in E; [by intros [= _ <-]|].
  destruct e; by intros [= _ <-].
Qed.
Lemma pass_reconcile job_id epoch held : along R (reconcile_and_act job_id epoch held).
Proof.
  assert (D : along R (sup_reconcile job_id)) by (unfold sup_reconcile; pass; apply pr_sup, calm_reconcile).
  unfold reconcile_and_act. apply al_bind; [exact _ | | intros [d|[o t]]; [|pass]].
  - intros s r s'. destruct (sup_reconcile job_id s) as [[d|e] s1] eqn:E; apply D in E; [by intros [= _ <-]|].
    destruct e; by intros [= _ <-].
  - unfold gated_act, stop_requested. pass; first [apply pass_gates | apply pass_act].
Qed.
Lemma pass_run job_id : along R (run_pass job_id).
Proof. unfold run_pass. pass; first [apply pass_target | apply pass_gates | apply pass_recover | apply pass_reconcile]. Qed.
Lemma pass_restart : along R reconcile_after_restart.
Proof.
  assert (O : forall now current, along R (classify_once now current)).
  { intros now current. unfold classify_once, quarantined, reread. pass;
      first [apply pass_evidence | apply pass_recover | apply pass_verdict | apply pass_worktree]. }
  assert (L : forall n now current, along R (classify_loop n now current)).
  { induction n as [|n IH]; intros now current; cbn [classify_loop]; pass; first [apply O | apply IH]. }
  assert (W : forall now rows, along R (restart_rows now rows)).
  { intros now rows. induction rows as [|row rows IH]; cbn [restart_rows]; unfold restart_row, _classify_running; pass; first [exact IH | apply L]. }
  unfold reconcile_after_restart. pass. apply W.
Qed.
End Walk.

Section Spec.
Context {env : Env} {penv : ProcEnv} {fenv : FsEnv} {aenv : ActEnv} {senv : SchedEnv}.

Lemma al_sup {A} (m : jcmd A) : along quiet_log (sup m).
Proof. intros s r s'. unfold sup. destruct (m (ss_js s)) as [x j]. by intros [= _ <-]. Qed.
Lemma al_sup_act {A} (m : acmd A) : along quiet_log (sup_act m).
Proof. intros s r s'. unfold sup_act. destruct (m _) as [x j]. by intros [= _ <-]. Qed.
Lemma al_lease o : along quiet_log (modify (fun s => s <| ss_lease := o |>)).
Proof. by intros s r s' [= _ <-]. Qed.
Lemma al_exclude o : along quiet_log (modify (fun s => s <| ss_exclude := o |>)).
Proof. by intros s r s' [= _ <-]. Qed.
#[local] Instance quiet_passing : Passing quiet_log.
Proof. split; [exact _ | intros A m _; apply al_sup | exact al_lease | exact al_exclude]. Qed.
Lemma quiet_target job_id : along quiet_log (_resolve_target job_id).
Proof. apply pass_target; exact _. Qed.
Lemma quiet_gates job_id epoch : along quiet_log (both_gates job_id epoch).
Proof. apply pass_gates; exact _. Qed.
Lemma quiet_recover job_id epoch : along quiet_log (classify_and_recover job_id epoch).
Proof. apply pass_recover; exact _. Qed.
Lemma quiet_after job_id epoch held d a : along quiet_log (after_action job_id epoch held d a).
Proof. apply pass_after; exact _. Qed.

(** *** The job of a decision *)
Definition returns {S A} (P : A -> Prop) (m : M S exc A) : Prop := forall s a s', m s = (Ok a, s') -> P a.
Lemma ret_bind {S A B} (P : B -> Prop) (m : M S exc A) (k : A -> M S exc B) : (forall a, returns P (k a)) -> returns P (x ← m; k x).
Proof. intros K s b s' H. destruct (M_bind_ok _ _ _ _ _ H) as (a & s1 & _ & H1). exact (K a s1 b s' H1). Qed.
Lemma ret_transaction {A} (P : A -> Prop) (m : jcmd A) : returns P m -> returns P (jtransaction m).
Proof.
  intros H s a s'. unfold jtransaction, rollback. destruct ((_ ← _check_action_fence; m) s) as [[x|e] s1] eqn:E; [|done].
  intros [= <- _]. destruct (M_bind_ok _ _ _ _ _ E) as (u & s2 & _ & R). exact (H s2 x s1 R).
Qed.
Lemma ret_mret {S A} (P : A -> Prop) (a : A) : P a -> returns (S := S) P (mret a).
Proof. by intros H s b s' [= <- _]. Qed.
Lemma decision_job job_id src lo le ob : returns (fun d => rdc_job_id d = job_id) (reconcile src lo le ob job_id).
Proof.
  unfold reconcile. induction (MAX_SNAPSHOT_RETRIES + 1) as [|n IH]; cbn [reconcile_loop].
  - unfold _backoff_decision. apply ret_bind; intros now. apply ret_bind; intros r. by apply ret_mret.
  - apply ret_bind; intros snap. apply ret_bind; intros sn. apply ret_bind; intros obs.
    assert (C : returns (fun r => match r with Some d => rdc_job_id d = job_id | None => True end) (_commit src lo le job_id sn obs)).
    { unfold _commit. apply ret_transaction. apply ret_bind; intros job. apply ret_bind; intros _.
      case_match; [by apply ret_mret|]. apply ret_bind; intros [fresh|]; [|by apply ret_mret].
      case_match; [by apply ret_mret|]. do 5 (apply ret_bind; intros ?). apply ret_bind; intros ?. by apply ret_mret. }
    intros s d s' H. destruct (M_bind_ok _ _ _ _ _ H) as (r & s1 & E & K). apply C in E. destruct r as [d'|]; [|exact (IH s1 d s' K)].
    injection K as <- _. exact E.
Qed.

(** *** The gates *)
Lemma sup_ok {A} (m : jcmd A) s a s' : sup m s = (Ok a, s') -> exists j, m (ss_js s) = (Ok a, j) /\ s' = s <| ss_js := j |>.
Proof. unfold sup. destruct (m (ss_js s)) as [x j] eqn:E. intros [= -> <-]. eauto. Qed.
Lemma sup_query {A} (f : JT -> A) s a s' : sup (jquery f) s = (Ok a, s') -> a = f (tables s) /\ s' = s.
Proof. intros (j & [= <- <-] & ->)%sup_ok. split; [done|]. by destruct s. Qed.
Lemma now_tables s n s' : sup_now_iso s = (Ok n, s') -> tables s' = tables s.
Proof.
  intros (j & E & ->)%sup_ok. unfold tables. cbn. unfold jnow_iso, on_core in E.
  destruct (now_iso (js_core (ss_js s))) as [x c]. by injection E as _ <-.
Qed.
Lemma concurrency_free job_id epoch s c s1 s2 :
  _concurrency_preflight job_id s = (Ok c, s1) -> _concurrency_gate job_id epoch c s1 = (Ok None, s2) ->
  s2 = s /\ structurally_free job_id (tables s).
Proof.
  unfold _concurrency_preflight, job_row. intros H G.
  apply M_bind_ok in H as (row & s' & R & H). apply sup_query in R as [-> ->].
  destruct (job_of job_id (tables s)) as [row|] eqn:J.
  - apply M_bind_ok in H as (dep & s'' & D & H). apply M_bind_ok in H as (act & s3 & A & H).
    assert (dep = dependency_of row (tables s) /\ s'' = s) as [-> ->].
    { unfold dependency_of. destruct (j_depends_on row) as [d|]; [|by injection D as <- <-].
      destruct (truthy d); [|by injection D as <- <-]. apply sup_ok in D as (j & D & ->).
      unfold get_dependency_terminal in D. cbn in D. injection D as <- <-. split; [by destruct (job_of d _)|]. by destruct s. }
    apply sup_query in A as [-> ->]. injection H as <- <-. cbn [_concurrency_gate] in G.
    destruct (cd_verdict _) eqn:V in G;
      [injection G as <- |
       (apply M_bind_ok in G as (? & ? & _ & G); apply M_bind_ok in G as (? & ? & _ & G); discriminate G)..].
    split; [done|]. intros r. rewrite J. intros [= <-]. exact V.
  - injection H as <- <-. injection G as <-. split; [done|]. intros r. by rewrite J.
Qed.

Lemma gate_admitted job_id epoch a s s' : _resource_gate job_id epoch a s = (Ok None, s') -> admitted a = true.
Proof.
  unfold _resource_gate, admitted. destruct (ad_decision a); [done| | |done]; intros G;
    apply M_bind_ok in G as (? & ? & _ & G); apply M_bind_ok in G as (? & ? & _ & G); discriminate G.
Qed.
Lemma finally_ok {A B} (m : scmd A) (after : scmd B) s a s' : finally m after s = (Ok a, s') -> exists s1, m s = (Ok a, s1).
Proof. unfold finally. destruct (m s) as [x s1]. destruct (after s1) as [[b|e] s2]; intros [= ? ?]; subst; eauto. Qed.
Lemma preflight_free job_id s a s' : _resource_preflight job_id s = (Ok a, s') -> admitted a = true ->
  resources_free job_id (tables s).
Proof.
  unfold _resource_preflight. intros H A. destruct (M_bind_ok _ _ _ _ _ H) as (u & s0 & E & F). clear H.
  injection E as <- <-. apply finally_ok in F as (s1 & F). revert F. set (s0 := s <| ss_exclude := Some job_id |>). intros F.
  assert (T : tables s0 = tables s) by reflexivity.
  apply M_bind_ok in F as (row & s2 & R & F). unfold job_row in R. apply sup_query in R as [-> ->].
  apply M_bind_ok in F as (h & s3 & C & F). apply M_bind_ok in F as (now & s4 & N & F). apply M_bind_ok in F as (n & s5 & M & F).
  apply lift_ok in F as [D _].
  unfold capture, _default_active_jobs_reader in C. apply M_bind_ok in C as (jobs & s6 & J & C).
  apply M_bind_ok in J as (ex & s7 & X & J). injection X as <- <-. apply M_bind_ok in J as (rows & s8 & L & J).
  unfold list_supervisor_jobs in L. apply sup_query in L as [-> ->]. injection J as <- <-.
  apply M_bind_ok in C as (m & s9 & _ & C). injection C as <- <-. rewrite T in D.
  assert (K : List.filter (active_row (Some job_id)) (List.filter (fun _ => true) (jt_jobs (tables s)))
              = others job_id (tables s)).
  { unfold others. assert (K0 : forall l : list Job, List.filter (fun _ => true) l = l)
      by (induction l as [|x l IH]; cbn in *; congruence). by rewrite K0. }
  rewrite K in D. unfold decide in D.
  destruct (of_value _) as [rc|] eqn:V in D; [|done]. exists rc, ((host_facts m
    (map (fun j => [PStr (j_id j); PStr (or_light (j_resource_class j))]) (others job_id (tables s)))) <| hs_active_jobs :=
     map (fun j => [PStr (j_id j); PStr (or_light (j_resource_class j))]) (others job_id (tables s)) |>).
  split; [by apply of_value_some in V; rewrite V|]. split; [done|].
  exact (proj1 (admission_cases _ _ _ _ _ _ _ _ _ _ D) A).
Qed.
Lemma gates_free job_id epoch s s' : both_gates job_id epoch s = (Ok None, s') ->
  structurally_free job_id (tables s) /\ resources_free job_id (tables s).
Proof.
  unfold both_gates. intros H. destruct (M_bind_ok _ _ _ _ _ H) as (c & s1 & C & H1). destruct (M_bind_ok _ _ _ _ _ H1) as (g & s2 & G & H2).
  destruct g as [r|]; [by injection H2|]. destruct (concurrency_free _ _ _ _ _ _ C G) as [-> F]. split; [exact F|].
  destruct (M_bind_ok _ _ _ _ _ H2) as (a & s3 & P & R). eapply preflight_free; [exact P|]. by eapply gate_admitted.
Qed.

(** *** The action of a pass *)
Definition gated (s s' : SSt) : Prop :=
  ss_performed s' = ss_performed s \/
  exists d, ss_performed s' = (ss_performed s ++ [d])%list /\
    (spawns d = true -> exists s0, stop_check (st_ticks (js_core (ss_js s0))) = false /\
       structurally_free (rdc_job_id d) (tables s0) /\ resources_free (rdc_job_id d) (tables s0)).
Lemma act_performs job_id epoch held d s r s' : act job_id epoch held d s = (r, s') ->
  ss_performed s' = (ss_performed s ++ [d])%list.
Proof.
  unfold act. intros H.
  assert (P : forall x s1, sup_perform d s = (x, s1) -> ss_performed s1 = (ss_performed s ++ [d])%list).
  { intros x s1 E. 
    change (sup_act (perform_next_safe_action_if_required (ss_lease s) d) (s <| ss_performed := (ss_performed s ++ [d])%list |>) = (x, s1)) in E.
    apply al_sup_act in E. exact E. }
  apply bind_split in H as [(o & s1 & O & H)|(e & H & _)].
  - assert (ss_performed s1 = (ss_performed s ++ [d])%list) as <-.
    { destruct (sup_perform d s) as [[a|e] s2]; pose proof (P _ _ eq_refl) as E; [|destruct e]; injection O as _ <-; exact E. }
    destruct o as [a|]; [by apply quiet_after in H|].
    apply bind_split in H as [(v & s5 & V & H)|(e & H & _)]; [|discriminate H]. apply (al_lease None) in V. by injection H as _ <-.
  - destruct (sup_perform d s) as [[a|e'] s2]; pose proof (P _ _ eq_refl) as E; [discriminate H|destruct e']; by injection H as _ <-.
Qed.
Lemma gated_act_spawns job_id epoch held d s r s' : rdc_job_id d = job_id -> gated_act job_id epoch held d s = (r, s') -> gated s s'.
Proof.
  unfold gated_act. intros J H. destruct (spawns d) eqn:SP.
  2: { apply act_performs in H. right. exists d. split; [exact H|]. by rewrite SP. }
  apply bind_split in H as [(st & s1 & E & H)|(e & H & _)]; [|discriminate H]. injection E as E <-.
  destruct st.
  { left. apply bind_split in H as [(v & s5 & V & H)|(e & H & _)]; [|discriminate H]. apply (al_lease None) in V. by injection H as _ <-. }
  assert (X : s <| ss_js := ss_js s |> = s) by by destruct s. rewrite X in H.
  apply bind_split in H as [(g & s2 & G & H)|(e & H & _)]; [|left; by apply quiet_gates in H].
  pose proof (quiet_gates _ _ _ _ _ G) as Q. destruct g as [g|]; [left; by injection H as _ <-|].
  apply gates_free in G as [A B]. apply act_performs in H. right. exists d. split; [unfold quiet_log in Q; congruence|].
  intros _. exists s. by rewrite J.
Qed.
Lemma reconcile_spawns job_id epoch held s r s' : reconcile_and_act job_id epoch held s = (r, s') -> gated s s'.
Proof.
  unfold reconcile_and_act. intros H.
  assert (L : forall x s1, sup_reconcile job_id s = (x, s1) -> quiet_log s s1 /\ forall d, x = Ok d -> rdc_job_id d = job_id).
  { intros x s1 E. 
    change (sup (reconcile controller_source (fst <$> ss_lease s) (snd <$> ss_lease s) observe_run job_id) s = (x, s1)) in E. split; [by apply al_sup in E|]. intros d ->.
    apply sup_ok in E as (j & E & _). exact (decision_job _ _ _ _ _ _ _ _ E). }
  destruct (sup_reconcile job_id s) as [x s1] eqn:E. destruct (L _ _ eq_refl) as [Q J]. clear L.
  assert (K : forall o, (_ ← clear_lease_owner; mret o) s1 = (r, s') -> gated s s') by (intros o [= _ <-]; left; exact Q).
  apply bind_split in H as [(o & s2 & O & H)|(e & H & _)].
  - rewrite E in O. destruct x as [d|[]]; cbn in O; try discriminate O; injection O as <- <-; try (eapply K; exact H).
    unfold gated. rewrite <- Q. exact (gated_act_spawns _ _ _ _ _ _ _ (J d eq_refl) H).
  - left. rewrite E in H. destruct x as [d|[]]; try discriminate H; injection H as _ <-; exact Q.
Qed.

(** *** Any number of passes and restarts *)
Inductive sched_op : Type := Pass (job_id : option string) | Scan.
Definition sched_step (s : SSt) (op : sched_op) : SSt :=
  match op with Pass job_id => snd (run_pass job_id s) | Scan => snd (reconcile_after_restart s) end.
Definition sched_run (ops : list sched_op) (s : SSt) : SSt := fold_left sched_step ops s.
Definition act_state (s : SSt) : ASt := mkASt (ss_js s) (ss_world s).
Section Launches.
Context (id : string) (plain : plain_id id) (told : scopes_told).
Definition keeps_once (s s' : SSt) : Prop := launched_once id (act_state s) -> launched_once id (act_state s').
#[local] Instance keeps_once_passing : Passing keeps_once.
Proof.
  assert (F : forall s s', same_logs (act_state s) (act_state s') -> keeps_once s s').
  { intros s s' H. unfold keeps_once. apply others_once. apply (others_journaling id plain). exact H. }
  split.
  - split; unfold keeps_once; [by intros x | intros x y z; auto].
  - intros A m C s r s'. unfold sup. destruct (m (ss_js s)) as [x j] eqn:E. intros [= _ <-]. apply F. split; [by apply (C _ _ _ E) | done].
  - intros o s r s' [= _ <-]. by apply F.
  - intros o s r s' [= _ <-]. by apply F.
Qed.
Lemma once_performs d : along keeps_once (sup_perform d).
Proof.
  intros s r s' E. destruct (perform_next_safe_action_if_required (ss_lease s) d (act_state s)) as [x a] eqn:H.
  assert (act_state s' = a) as X.
  { revert E. change (sup_act (perform_next_safe_action_if_required (ss_lease s) d) (s <| ss_performed := (ss_performed s ++ [d])%list |>) = (r, s') -> act_state s' = a).
    unfold sup_act. change (mkASt _ _) with (act_state s). rewrite H. intros [= _ <-]. by destruct a. }
  unfold keeps_once. rewrite X. exact (perform_once id plain _ _ _ _ _ told H).
Qed.
Lemma run_once ops s : launched_once id (act_state s) -> launched_once id (act_state (sched_run ops s)).
Proof.
  revert s. induction ops as [|op ops IH]; intros s O; [done|]. apply IH. destruct op as [j|]; cbn [sched_step].
  - destruct (run_pass j s) as [r s'] eqn:E. exact (pass_run keeps_once once_performs _ _ _ _ E O).
  - destruct (reconcile_after_restart s) as [r s'] eqn:E. exact (pass_restart keeps_once _ _ _ E O).
Qed.
End Launches.
(** C1: a dispatch is launched at most once: from a state where it was not launched, whatever passes and scans after a
    restart follow and however their actions fail, the enforcer has started it at most once, and when it has, its SPAWN_RUN
    action is in the journal as RUNNING or SUCCEEDED.  The id has no colon and is not the word of the owner gate's keys, and a
    successful launch returns its scope. *)
Theorem dispatch_launched_once id ops s : plain_id id -> scopes_told -> well_kept id (tables s) -> launches id (act_state s) = 0 ->
  let s' := sched_run ops s in
  launches id (act_state s') <= 1 /\
  (launches id (act_state s') = 1 -> exists a, _spawn_action id (tables s') = Some a /\ In (a_status a) ["RUNNING"; "SUCCEEDED"]).
Proof.
  intros P T G Z s'. destruct (run_once id P T ops s) as [_ L]; [split; [exact G | by left]|].
  fold s' in L. split; [destruct L as [L|[L _]]; lia|]. intros L1. destruct L as [L|[_ L]]; [congruence | exact L].
Qed.

(** *** The scan after a restart *)
(** Another instance holds the job by a complete lease that runs beyond [now]. *)
Definition vouched (now : string) (j : Job) : bool :=
  lease_tuple_valid j && str_ltb now (default "" (j_lease_expires_at j)) && negb (mine j).
Definition may_settle (now : string) (j : Job) : Prop :=
  is_running j = true /\ j_terminal j = None /\ vouched now j = false.
(** The lease is gone, the epoch stays. *)
Definition let_go (j j' : Job) : Prop :=
  j_lease_epoch j' = j_lease_epoch j /\ j_owner_instance_id j' = None /\ j_lease_expires_at j' = None /\
  In (j_primary_state j') ["LOST"; "BLOCKED"; "QUEUED"].
Definition jsettles (now : string) (s s' : JSt) : Prop := sok s -> sok s' /\
  forall id j, job_of id (js_t s) = Some j -> exists j', job_of id (js_t s') = Some j' /\
    (j' = j \/ may_settle now j /\ let_go j j').
Definition settles (now : string) (s s' : SSt) : Prop := jsettles now (ss_js s) (ss_js s') /\ quiet_log s s'.
#[export] Instance jsettles_preorder now : PreOrder (jsettles now).
Proof.
  split; [intros s K; split; [done|]; eauto|]. intros a b c H1 H2 K. destruct (H1 K) as [K1 F1].
  destruct (H2 K1) as [K2 F2]. split; [done|]. intros id j J. destruct (F1 _ _ J) as (j1 & J1 & C1).
  destruct (F2 _ _ J1) as (j2 & J2 & C2). exists j2. split; [done|].
  destruct C1 as [->|[M1 (E1 & O1 & X1 & P1)]]; [done|]. right. split; [done|].
  destruct C2 as [->|[_ (E2 & O2 & X2 & P2)]]; unfold let_go in *; [done|]. intuition congruence.
Qed.
#[export] Instance settles_preorder now : PreOrder (settles now).
Proof.
  split; [intros s; split; reflexivity|]. intros a b c [H1 Q1] [H2 Q2]. split; [by etrans|]. unfold quiet_log in *. congruence.
Qed.
Lemma jsettles_same (now : string) s s' : jdb s' = jdb s -> js_t s' = js_t s -> jsettles now s s'.
Proof. intros D T K. unfold sok. rewrite D, T. split; [done|]. eauto. Qed.
Lemma settles_quiet (now : string) s s' : quiet s s' -> jsettles now s s'.
Proof. intros (D & T & _). by apply jsettles_same. Qed.
Lemma settles_rewrote now id f s s' j : (forall x, j_id (f x) = j_id x) -> rewrote id f s s' ->
  job_of id (js_t s) = Some j -> may_settle now j -> let_go j (f j) -> jsettles now s s'.
Proof.
  intros I (D & T & _ & K') J M L _. split; [done|]. intros id' x X. rewrite T, job_of_put, X by done. cbn.
  eexists. split; [done|]. unfold is_job. destruct (String.eqb_spec (j_id x) id) as [E|]; [|by left].
  pose proof (row_by_id _ _ _ _ X) as [E' _]. right. assert (x = j) as -> by congruence. done.
Qed.
Lemma transition_settles j ps st fields now' :
  fold_left apply_view fields (view j) = mkLease (j_primary_state j) (l_terminal (fold_left apply_view fields (view j))) None
    (j_lease_epoch j) None (j_facts_version j) ->
  In ps ["LOST"; "BLOCKED"; "QUEUED"] ->
  let_go j (apply_all (transition_fields j ps st fields true now') j).
Proof.
  intros F P. pose proof (idle_fields_view j ps st fields now' _ F) as V.
  set (x := apply_all _ j) in *. injection V as V1 V2 V3 V4 V5 V6. unfold let_go. by rewrite V1, V3, V4, V5.
Qed.

Lemma snapshot_same now current j : snapshot_matches j (snapshot_of current) = true ->
  is_running current = true -> vouched now current = false -> is_running j = true /\ vouched now j = false.
Proof.
  unfold snapshot_matches, snapshot_of, oz_eqb. cbn. rewrite !andb_true_iff.
  intros ((((P & O) & E) & X) & _) R V. apply String.eqb_eq in P. apply ostr_eqb_eq in O, X. apply Z.eqb_eq in E.
  unfold is_running, vouched, lease_tuple_valid, mine in *. by rewrite P, O, E, X.
Qed.
Lemma quarantine_settles now current id ps st fields now' s r s' :
  (forall j, fold_left apply_view fields (view j) = mkLease (j_primary_state j) (l_terminal (fold_left apply_view fields (view j))) None
    (j_lease_epoch j) None (j_facts_version j)) -> In ps ["LOST"; "BLOCKED"; "QUEUED"] ->
  is_running current = true -> vouched now current = false ->
  quarantine id ps st fields (Some (snapshot_of current)) now' s = (Ok r, s') -> jsettles now s s'.
Proof.
  intros F P R V. unfold quarantine. intros H. apply M_bind_ok in H as (j & s1 & J & H). apply need_job_ok in J as [J ->].
  destruct (snapshot_matches j (snapshot_of current)) eqn:M; cbn [negb] in H; [|injection H as _ <-; reflexivity].
  apply M_bind_ok in H as (x & s2 & T & H). injection H as _ <-. apply transition_ok in T as (j' & J' & (_ & S & _) & _ & W).
  rewrite J in J'. injection J' as <-. intros K. revert K. destruct (snapshot_same _ _ _ M R V) as [R' V'].
  intros K. eapply settles_rewrote; [intros; apply apply_all_id | exact W | exact J | | by apply transition_settles | exact K].
  split; [done|]. split; [|done]. by apply (sticky_alive _ _ _ K J S).
Qed.
(** A command of one transaction behind reads. *)
Definition settling {A} (now : string) (m : jcmd A) : Prop := forall s r s', m s = (r, s') -> jsettles now s s'.
Lemma st_reads {A B} now (m : jcmd A) (k : A -> jcmd B) : reads m -> (forall a, settling now (k a)) -> settling now (x ← m; k x).
Proof.
  intros Hm Hk s r s' H. apply bind_split in H as [(a & s1 & E & H)|(e & H & _)].
  - apply Hm in E. apply Hk in H. etrans; [|exact H]. by apply settles_quiet.
  - apply Hm in H. by apply settles_quiet.
Qed.
Lemma st_transaction {A} now (m : jcmd A) : (forall s a s', m s = (Ok a, s') -> jsettles now s s') -> settling now (jtransaction m).
Proof.
  intros Hm s [a|e] s' E.
  - apply jtransaction_ok in E as (s1 & Q & _ & E). apply Hm in E. etrans; [|exact E]. by apply settles_quiet.
  - apply jtransaction_err in E as [D T]. by apply jsettles_same.
Qed.
Lemma lost_settles now current id code : is_running current = true -> vouched now current = false ->
  settling now (quarantine_lost id code (Some (snapshot_of current))).
Proof.
  intros R V. unfold quarantine_lost. apply st_reads; [auto with reads | intros t]. apply st_reads; [auto with reads | intros n].
  apply st_transaction. intros s a s'. apply quarantine_settles; [done | by left | done | done].
Qed.
Lemma blocked_settles now current id code cls : is_running current = true -> vouched now current = false ->
  settling now (quarantine_blocked id code cls (Some (snapshot_of current))).
Proof.
  intros R V. unfold quarantine_blocked. apply st_reads; [auto with reads | intros t]. apply st_reads; [auto with reads | intros n].
  apply st_transaction. intros s a s'. apply quarantine_settles; [done | by right; left | done | done].
Qed.
Lemma commit_settles now id j dec fc reason now' eligible cas s r s' :
  job_of id (js_t s) = Some j -> may_settle now j ->
  commit_decision id j dec (recovery_audit dec fc reason now') eligible cas now' s = (Ok r, s') -> jsettles now s s'.
Proof.
  intros J M H. unfold commit_decision in H.
  assert (T : forall ps st fields, _transition_job id ps st fields false true cas now' s = (Ok r, s') ->
    (fold_left apply_view fields (view j) = mkLease (j_primary_state j) (l_terminal (fold_left apply_view fields (view j))) None
      (j_lease_epoch j) None (j_facts_version j)) -> In ps ["LOST"; "BLOCKED"; "QUEUED"] -> jsettles now s s').
  { intros ps st fields E F P. apply transition_ok in E as (j' & J' & _ & _ & W). rewrite J in J'. injection J' as <-.
    eapply settles_rewrote; [intros; apply apply_all_id | exact W | exact J | exact M | by apply transition_settles]. }
  destruct dec; try done; (eapply T; [exact H | done | cbn; tauto]).
Qed.
Lemma recovery_settles now id epoch f d r n p :
  settling now (commit_recovery_decision id owner_id epoch f d r n None p).
Proof.
  unfold commit_recovery_decision. repeat (apply st_reads; [unfold _validate_lease_owner; auto with reads | intros ?]).
  apply st_transaction. intros s x s' H.
  apply M_bind_ok in H as (j & s1 & J & H). apply need_job_ok in J as [J ->]. apply when_bind_ok in H as [_ H].
  apply when_bind_ok in H as [T H]. apply unless_bind_ok in H as [R H]. apply M_bind_ok in H as (u & s1 & C & H).
  apply check_holder_ok in C as (O & _ & ->).
  assert (M : may_settle now j).
  { split; [exact R|]. split; [by destruct (j_terminal j)|]. unfold held_by in O. apply andb_true_iff in O as [O _].
    unfold vouched, mine. rewrite O. apply andb_false_r. }
  apply M_bind_ok in H as (u1 & s1 & P & H).
  assert (jsettles now s s1 /\ job_of id (js_t s1) = Some j) as [S J1].
  { destruct p as [p|]; [|injection P as _ <-; by split]. apply M_bind_ok in P as (b & s2 & Q & P).
    apply gets_ok in Q as [-> ->]. apply when_bind_ok in P as [_ P]. apply jinsert_ok in P as [-> K]. split; [|done].
    intros _. split; [exact K|]. intros id' j' J'. exists j'. split; [exact J' | by left]. }
  etrans; [exact S|]. by eapply commit_settles.
Qed.

Lemma al_settling {A} now (m : jcmd A) : settling now m -> along (settles now) (sup m).
Proof.
  intros H s r s' E. split; [|by apply al_sup in E]. unfold sup in E. destruct (m (ss_js s)) as [x j] eqn:M.
  injection E as _ <-. by apply H in M.
Qed.
Lemma al_reading {A} now (m : jcmd A) : reads m -> along (settles now) (sup m).
Proof. intros H. apply al_settling. intros s r s' E. apply settles_quiet. by eapply H. Qed.
Lemma reads_query {A} (f : JT -> A) : reads (jquery f).
Proof. unfold jquery. auto with reads. Qed.
Lemma reads_moment : reads moment.
Proof. unfold moment. auto with reads. Qed.
Lemma reads_boot : reads boot_id.
Proof. unfold boot_id. apply reads_bind; [apply reads_moment | auto with reads]. Qed.
Lemma reads_identity pid : reads (current_identity pid).
Proof.
  unfold current_identity, process_start_ticks. apply reads_bind; [|intros t; apply reads_bind; [apply reads_boot | auto with reads]].
  apply reads_bind; [apply reads_moment | intros n]. destruct (stat_text n pid); auto with reads.
Qed.
Hint Resolve reads_query reads_moment reads_boot reads_identity : reads.
Ltac settle_step :=
  lazymatch goal with
  | |- along _ (sup (commit_recovery_decision _ _ _ _ _ _ _ _ _)) => apply al_settling, recovery_settles
  | |- along _ (sup (quarantine_lost _ _ _)) => apply al_settling, lost_settles
  | |- along _ (sup (quarantine_blocked _ _ _ _)) => apply al_settling, blocked_settles
  | |- along _ sup_now_iso => apply al_reading; auto with reads
  | |- along _ (job_row _) => apply al_reading; unfold get_supervisor_job; auto with reads
  | |- along _ (sup _) => apply al_reading; unfold list_process_registrations, has_recovery_marker; auto with reads
  | |- along _ (if ?b then _ else _) => destruct b
  | |- along _ (let _ := _ in _) => cbv zeta
  | _ => al_step
  end.
Ltac settle := repeat settle_step.
Lemma settle_evidence now job_id : along (settles now) (_bound_terminal_evidence job_id).
Proof. unfold _bound_terminal_evidence. settle. Qed.
Lemma settle_recover now job_id epoch : along (settles now) (classify_and_recover job_id epoch).
Proof. unfold classify_and_recover. settle. apply settle_evidence. Qed.
Lemma settle_verdict now job_id : along (settles now) (_process_identity_verdict job_id).
Proof.
  unfold _process_identity_verdict, process_evidence. settle.
  intros s r s'. destruct (sup (current_identity _) s) as [[i|e] s1] eqn:E; apply (al_reading now) in E; auto with reads; by intros [= _ <-].
Qed.
Lemma settle_worktree now job_id : along (settles now) (_worktree_recovery_verdict job_id).
Proof. unfold _worktree_recovery_verdict. settle. Qed.
Lemma settle_quarantined now r k detail job_id : along (settles now) (quarantined r k detail job_id).
Proof. unfold quarantined, reread. settle. Qed.
Lemma settle_once now current : is_running current = true -> along (settles now) (classify_once now current).
Proof.
  intros R. unfold classify_once.
  destruct (lease_tuple_valid current) eqn:V; [destruct (str_ltb now (default "" (j_lease_expires_at current))) eqn:X|];
    cbn [negb]; settle; try apply settle_evidence; try apply settle_recover; try apply settle_verdict; try apply settle_worktree;
    try apply settle_quarantined; try exact R; unfold vouched; rewrite V; try rewrite X; reflexivity.
Qed.
Lemma once_running now current s j s' : classify_once now current s = (Ok (inr j), s') -> is_running j = true.
Proof.
  set (P := fun r : restart_kind * string + Job => match r with inl _ => True | inr j => is_running j = true end).
  assert (Q : forall r k detail id, returns P (quarantined r k detail id)).
  { intros [r|] k detail id; [by apply ret_mret|]. apply ret_bind. intros [row|]; apply ret_mret; [|done].
    destruct (j_terminal row); [done|]. by destruct (is_running row) eqn:R. }
  assert (C : returns P (classify_once now current)).
  { unfold classify_once. apply ret_bind; intros reg. apply ret_bind; intros [rec|]; [by apply ret_mret|]. cbv zeta.
    case_match; [apply ret_bind; intros; apply Q|]. case_match; [by apply ret_mret|].
    apply ret_bind; intros [| |]; [by apply ret_mret | | apply ret_bind; intros; apply Q].
    apply ret_bind; intros wv. repeat case_match; try (apply ret_bind; intros; apply Q). by apply ret_mret. }
  intros H. exact (C s (inr j) s' H).
Qed.
Lemma settle_loop now tries current : is_running current = true -> along (settles now) (classify_loop tries now current).
Proof.
  revert current. induction tries as [|n IH]; intros current R; cbn [classify_loop]; [settle|].
  apply al_bind_known; [exact _ | by apply settle_once|]. intros [x|j] s s1 E; [settle|]. by apply IH, (once_running _ _ _ _ _ E).
Qed.
Lemma settle_rows now rows : along (settles now) (restart_rows now rows).
Proof.
  induction rows as [|row rows IH]; cbn [restart_rows]; [settle|].
  apply al_bind; [exact _ | | intros d; apply al_bind; [exact _ | exact IH | intros; settle]].
  unfold restart_row. destruct (j_terminal row); [settle|]. destruct (is_running row) eqn:R; [|settle].
  apply al_bind; [exact _ | by apply settle_loop | intros; settle].
Qed.

(** *** Takeover *)
(** The identity /proc gives at a moment. *)
Definition boot_at (n : nat) : option string :=
  match boot_id_text n with Some v => if blank v then None else Some (strip v) | None => None end.
Definition host_identity (n : nat) (pid : Z) : res exc ProcessIdentity :=
  match stat_text n pid with
  | None => Ok (mkProcessIdentity (boot_at n) pid None)
  | Some line => match parse_start_ticks line with Ok t => Ok (mkProcessIdentity (boot_at n) pid (Some t)) | Err e => Err e end
  end.
Lemma identity_at pid s : current_identity pid s = (host_identity (ticks s) pid, s).
Proof.
  unfold current_identity, process_start_ticks, boot_id, moment, host_identity, boot_at, ticks, mbind, M_bind, gets, lift, mret, M_ret.
  destruct (stat_text _ pid) as [line|]; [|done]. by destruct (parse_start_ticks line).
Qed.
(** The registered process is gone: its registration is terminal, or the pid now carries another boot or start. *)
Definition gone (reg : Process) : Prop :=
  is_terminally_dead reg = true \/
  exists n live, host_identity n (p_pid reg) = Ok live /\ is_known live = true /\
    (p_boot_id reg <> pi_boot_id live \/ p_process_start_ticks reg <> pi_process_start_ticks live).
Lemma verdict_terminated job_id s s' : _process_identity_verdict job_id s = (Ok Terminated, s') ->
  s' = s /\ exists reg, last (processes_of (Some job_id) (tables s)) = Some reg /\ gone reg.
Proof.
  unfold _process_identity_verdict, process_evidence. intros H. apply M_bind_ok in H as (reg & s1 & R & H).
  apply M_bind_ok in R as (rows & s2 & R & E). unfold list_process_registrations in R. apply sup_query in R as [-> ->].
  injection E as <- <-. destruct (last _) as [reg|] eqn:L; [|done].
  destruct (is_terminally_dead reg) eqn:D; [injection H as <-; split; [done|]; exists reg; split; [done | by left]|].
  destruct (p_pid reg <=? 0)%Z eqn:P; [done|]. apply M_bind_ok in H as (live & s1 & O & H).
  unfold sup in O. rewrite identity_at in O.
  destruct (host_identity _ _) as [i|e] eqn:I; injection O as <- <-; [|done]. destruct (is_known i) eqn:K; [|done].
  unfold classify_identity in H. injection H as H <-. split; [by destruct s|]. exists reg. split; [done|]. right. exists (ticks (ss_js s)), i.
  split; [exact I|]. split; [exact K|].
  assert (pi_pid i = p_pid reg) as E.
  { unfold host_identity in I. destruct (stat_text _ _) as [line|]; [|by injection I as <-].
    destruct (parse_start_ticks line); [by injection I as <-|done]. }
  rewrite E, Z.eqb_refl in H. cbn [andb] in H.
  destruct (ostr_eqb (p_boot_id reg) (pi_boot_id i)) eqn:B; cbn [negb] in H;
    [|left; intros X; apply ostr_eqb_eq in X; congruence].
  destruct (bool_decide (p_process_start_ticks reg = pi_process_start_ticks i)) eqn:T; [done|].
  right. by apply bool_decide_eq_false in T.
Qed.
(** What git says of the writer's worktree at a moment; nothing for a job without a writer. *)
Definition writer_verdict (n : nat) (j : Job) : option string :=
  let w := j_writer j in
  if negb (ostr_eqb (w_writer_binding_mode w) (Some WRITER_BINDING_BOUND)) then None
  else if negb (otruthy (w_canonical_worktree_path w)) || negb (is_some (w_repo_identity w)) then Some V_AMBIGUOUS_WRITER
  else
    let path := default "" (w_canonical_worktree_path w) in
    Some (fst (classify_worktree_recovery (mkWorktreeBinding (j_id j) path (w_repo_identity w) (w_base_commit w)
      (w_branch_identity w) (w_writer_dispatch_id w) (w_writer_owner_instance_id w) (w_writer_lease_epoch w)
      (w_expected_head w) (w_current_head w)) (git_evidence n path) (Some true))).
Lemma worktree_verdict_at job_id s wv s' : _worktree_recovery_verdict job_id s = (Ok wv, s') ->
  s' = s /\ exists n, forall j, job_of job_id (tables s) = Some j -> wv = writer_verdict n j.
Proof.
  unfold _worktree_recovery_verdict, job_row, get_supervisor_job. intros H. apply M_bind_ok in H as (row & s1 & R & H).
  apply sup_query in R as [-> ->]. destruct (job_of job_id (tables s)) as [j|] eqn:J;
    [|injection H as <- <-; split; [done|]; by exists 0].
  pose proof (row_by_id _ _ _ _ J) as [I _]. unfold writer_verdict.
  destruct (negb (ostr_eqb (w_writer_binding_mode (j_writer j)) _)) eqn:B.
  { injection H as <- <-. split; [done|]. exists 0. intros x [= <-]. by rewrite B. }
  destruct (negb (otruthy _) || _) eqn:A.
  { injection H as <- <-. split; [done|]. exists 0. intros x [= <-]. by rewrite B, A. }
  apply M_bind_ok in H as (n & s1 & M & H). injection M as <- <-. injection H as <- <-. split; [by destruct s|].
  eexists. intros x [= <-]. rewrite B, A, I. reflexivity.
Qed.
Lemma takeover_granted id expected ttl wv s j' s' : sok s ->
  recover_takeover_job id expected owner_id ttl false wv s = (Ok (Some j'), s') ->
  is_running j' = true ->
  exists j n, job_of id (js_t s) = Some j /\ snapshot_matches j expected = true /\ is_running j = true /\ j_terminal j = None /\
    read_between s s' n /\ is_some (j_lease_expires_at j) = true /\ lease_open j n = false /\
    (forall a, In a (jt_actions (js_t s)) -> a_supervisor_job_id a = id -> in_flight a = false) /\
    (wv = None \/ wv = Some V_CLEANUP_PENDING) /\
    job_of id (js_t s') = Some j' /\ mine j' = true /\ j_lease_epoch j' = (j_lease_epoch j + 1)%Z.
Proof.
  intros K H R. unfold recover_takeover_job in H. apply M_bind_ok in H as (u & s0 & V & H).
  unfold _validate_lease_owner in V. apply raise_when_ok in V as [_ <-]. apply M_bind_ok in H as (u' & s0 & V & H).
  unfold _validate_ttl in V. apply when_bind_ok in V as [_ V]. apply raise_when_ok in V as [_ <-].
  apply clocked in H as (s1 & H & T1 & C); [|intros; unfold list_supervisor_actions; sw].
  apply lift_bind_ok in H as (n & N & H). apply lift_bind_ok in H as (x & _ & H).
  apply jtransaction_ok in H as (s2 & (D2 & T2 & _) & _ & H). apply M_bind_ok in H as (j & s3 & J & H). apply need_job_ok in J as [J ->].
  apply unless_bind_ok in H as [M H]. apply unless_bind_ok in H as [P H]. apply when_bind_ok in H as [T H].
  apply when_bind_ok in H as [X H]. apply when_bind_ok in H as [_ H]. apply M_bind_ok in H as (acts & s3 & A & H).
  unfold list_supervisor_actions, jquery in A. apply gets_ok in A as [-> <-]. apply when_bind_ok in H as [F H].
  rewrite T2, T1 in J, F. apply orb_false_iff in X as [X1 X2].
  assert (Q : forall ps st fields cas,
    (_ ← _transition_job id ps st fields false true cas n; get_supervisor_job id) s2 = (Ok (Some j'), s') ->
    j_primary_state j' = ps).
  { intros ps st fields cas E. apply M_bind_ok in E as (y & s4 & E & G). apply get_job_ok in G as [G ->].
    apply transition_ok in E as (z & Z & _ & _ & (_ & W & _)). cbv zeta in W. rewrite T2, T1 in *. 
    rewrite W, (job_of_put_same _ _ _ z) in G; [|intros; apply apply_all_id | done]. injection G as ->.
    unfold transition_fields. by rewrite apply_all_app. }
  destruct (ostr_eqb wv (Some V_BLOCKED_DIVERGED)).
  { apply Q in H. unfold is_running in R. by rewrite H in R. }
  destruct (negb _ && _) eqn:W; [apply Q in H; unfold is_running in R; by rewrite H in R|]. clear Q.
  apply M_bind_ok in H as (y & s4 & H & E). injection E as -> <-.
  apply transition_ok in H as (z & Z & _ & E & (_ & W' & _)). rewrite T2, T1, J in Z. injection Z as <-.
  exists j, n. split; [exact J|]. split; [exact M|]. split; [exact P|]. split; [by destruct (j_terminal j)|].
  split; [exists (ticks s); split; [lia|]; by split|]. split; [by destruct (j_lease_expires_at j)|]. split; [exact X2|].
  split.
  { intros a I E'. destruct (in_flight a) eqn:Fa; [|done]. exfalso. apply (f_equal negb) in F. apply negb_true_iff in F.
    assert (existsb in_flight (List.filter (fun a => String.eqb (a_supervisor_job_id a) id) (jt_actions (js_t s))) = true) as Y; [|congruence].
    apply existsb_exists. exists a. split; [|exact Fa]. apply filter_In. split; [exact I|]. by apply String.eqb_eq. }
  split.
  { destruct wv as [v|]; [right|by left]. rewrite andb_true_r in W. apply negb_false_iff in W. by apply ostr_eqb_eq in W. }
  split; [|rewrite E; split; [by apply ostr_eqb_eq | done]].
  rewrite W', T2, T1, (job_of_put_same _ _ _ j); [by rewrite E | intros; apply apply_all_id | exact J].
Qed.
Lemma no_lease_ok {A} (m : scmd A) s x s' : no_lease_error m s = (Ok (Some x), s') -> m s = (Ok x, s').
Proof.
  unfold no_lease_error, except, mbind, M_bind. destruct (m s) as [[a|e] s1]; [by intros [= -> ->]|].
  by destruct (bool_decide _).
Qed.
(** C11: an expired job is taken over only on proof.  When the scheduler takes a job over, the row it found was still the
    current one, RUNNING with an expired lease and no patch in flight; the last process registered for the job is gone,
    by its registration or by what /proc says of its pid; its writer's worktree is absent or only waits for cleanup; and
    the job is now the scheduler's, one epoch later. *)
Theorem takeover_needs_proof job_id row s t s' : sok (ss_js s) -> _try_recover_takeover job_id row s = (Ok (Some t), s') ->
  exists j reg n m, job_of job_id (tables s) = Some j /\ snapshot_matches j (snapshot_of row) = true /\
    is_running j = true /\ j_terminal j = None /\
    read_between (ss_js s) (ss_js s') n /\ is_some (j_lease_expires_at j) = true /\ lease_open j n = false /\
    (forall a, In a (jt_actions (tables s)) -> a_supervisor_job_id a = job_id -> in_flight a = false) /\
    last (processes_of (Some job_id) (tables s)) = Some reg /\ gone reg /\
    In (writer_verdict m j) [None; Some V_CLEANUP_PENDING] /\
    job_of job_id (tables s') = Some t /\ is_running t = true /\ mine t = true /\ j_lease_epoch t = (j_lease_epoch j + 1)%Z.
Proof.
  intros K H. unfold _try_recover_takeover in H. apply M_bind_ok in H as (v & s1 & V & H). destruct v; [done| |].
  - apply verdict_terminated in V as [-> (reg & L & G)].
    apply M_bind_ok in H as (wv & s2 & W & H). apply worktree_verdict_at in W as (-> & m & W).
    apply M_bind_ok in H as (o & s3 & E & H). destruct o as [[x|]|]; [|done|done].
    destruct (is_running x && mine x) eqn:B; [|done]. injection H as -> ->. apply andb_true_iff in B as [B1 B2].
    apply no_lease_ok, sup_ok in E as (js & R & ->).
    apply takeover_granted in R as (j & n & J & M & P & T & N & X & O & A & Y & J' & _ & E); [|done..].
    exists j, reg, n, m. rewrite <- (W _ J). split; [exact J|]. do 9 (split; [done|]).
    split; [destruct Y as [->| ->]; cbn; tauto | done].
  - apply M_bind_ok in H as (q & s2 & _ & H). done.
Qed.
(** C20: the scan after a restart is conservative.  Whatever its outcome, no decision is carried out, no lease is granted
    and no epoch grows; the only rows that change are those of RUNNING jobs without a terminal that no other
    instance holds by a complete lease beyond the clock reading of the scan, and they lose their lease
    and become LOST, BLOCKED or QUEUED. *)
Theorem restart_conservative s r s' now s1 : sok (ss_js s) -> sup_now_iso s = (Ok now, s1) ->
  reconcile_after_restart s = (r, s') ->
  ss_performed s' = ss_performed s /\
  forall id j, job_of id (tables s) = Some j -> exists j', job_of id (tables s') = Some j' /\
    (j' = j \/
     (j_primary_state j = "RUNNING" /\ j_terminal j = None /\
      (lease_tuple_valid j = true -> str_ltb now (default "" (j_lease_expires_at j)) = true -> mine j = true) /\
      j_lease_epoch j' = j_lease_epoch j /\ j_owner_instance_id j' = None /\ j_lease_expires_at j' = None /\
      In (j_primary_state j') ["LOST"; "BLOCKED"; "QUEUED"])).
Proof.
  intros K N H. assert (L : settles now s s').
  { unfold reconcile_after_restart in H. apply bind_split in H as [(rows & s2 & E & H)|(e & [=] & _)].
    unfold list_supervisor_jobs in E. apply sup_query in E as [-> ->].
    apply bind_split in H as [(n & s2 & E & H)|(e & E & _)]; rewrite N in E; [|done]. injection E as <- <-.
    apply (al_reading now) in N; [|auto with reads]. etrans; [exact N|].
    apply bind_split in H as [(d & s2 & E & H)|(e & E & _)]; apply settle_rows in E; [|exact E].
    by injection H as _ <-. }
  destruct L as [L Q]. split; [exact Q|]. intros id j J. apply L in K as [_ F]. destruct (F _ _ J) as (j' & J' & C).
  exists j'. split; [exact J'|]. destruct C as [->|[(R & T & V) (E & O & X & P)]]; [by left|]. right.
  split; [by apply String.eqb_eq|]. split; [exact T|]. split; [|done].
  intros V1 V2. unfold vouched in V. rewrite V1, V2 in V. by destruct (mine j).
Qed.
End Spec.

(** ** Concrete passes

    A host of the second boot with plenty of everything, an enforcer that starts every child as
    pid 42, and a runtime that knows no run. *)
#[local] Existing Instance sample_env.
#[local] Instance host_env : ProcEnv := {|
  boot_id_text _ := Some "boot-2";
  stat_text _ pid := if (pid =? 42)%Z then Some "42 (sh) S 1 42 42 0 -1 0 0 0 0 0 0 0 0 0 20 0 1 0 900 0 0" else None
|}.
#[local] Instance files : FsEnv := {| realpath _ p := normpath p; cwd := "/"; home := "/home/u"; staging_id n := z_text (Z.of_nat n) |}.
Definition good_enforcer : Enforcer :=
  let scope ad := mkExecutionScope ("argent-" ++ d_id ad) "/cg" "LIGHT" "1" PNone (Some 42%Z) PNone in
  mkEnforcer (fun _ ad _ _ => Ok (mkEnforcementResult "SCOPE_OK" (Some (scope ad)) None false PNone None)) (fun _ _ _ => Err RuntimeError).
#[local] Instance tools : ActEnv := {|
  controller_source := lead;
  owner_source := OWNER_SOURCE;
  workspace_root := Some "/ws";
  resource_policy := default_policy;
  exc_text _ := "error";
  exc_name _ := "Error";
  observe_run _ _ := Ok (mkRunObservation RUN_NOT_FOUND None None None None None None None None None None true "e" None None);
  host_wall _ := 0%Z;
  host_facts _ _ := roomy;
  route _ _ _ _ _ := inl "NO_ROUTE";
  build_prompt _ _ _ _ := PromptReady;
  count_launch _ _ := Ok tt;
  enforcer := Some good_enforcer;
  run_tests_fn := None;
  lock_free _ _ := true;
  provenance _ := mkGitProvenance None None None
|}.
#[local] Instance host_b : SchedEnv := {|
  owner_id := "host-b";
  lease_ttl_seconds := 86400;
  renew_ttl_seconds := 86400;
  recovery_policy := default_recovery_policy;
  git_evidence _ _ := mkWorktreeEvidence None None false;
  stop_check _ := false
|}.
Definition sched (s : JSt) : SSt := mkSSt s (mkWorld (mkBrSt ∅ [] 0 0) [] [] []) None None [].
(** A dispatch for the lead waits to be started. *)
Definition pending_dispatch : AgentDispatch :=
  mkAgentDispatch "d1" "u1" "u5" LEAD None "p" "m" "high" None None None None None DPENDING 1 0 STANDARD 1 None None
    "2024-02-29T00:15:00+00:00" None None None 0 None None.
Definition run_st : St := run_all (start_session ++ [StartTaskRun "u1" lead None]) init_st.
Definition spawn_st : SSt :=
  sched (snd ((_ ← create_job lead "u1" "k" None; on_core (_insert_dispatch pending_dispatch)) (mkJSt run_st empty_jt None))).
(** Host-a claimed the job, registered pid 42 of an older boot, and lost its lease. *)
Definition orphan_st : SSt :=
  sched (snd ((_ ← claim_job job_id0 "host-a" 300;
               register (Some "p1") job_id0 None (mkProcessIdentity (Some "boot-1") 42 (Some 900%Z)) PROCESS_STATUS_RUNNING
                 None None None None PNone None false PNone) queued_st)).
(** A second pass finds the run journaled and does not launch it again. *)
Lemma dispatch_launched_once_witness : launches "d1" (act_state (sched_run [Pass None; Scan; Pass (Some job_id0)] spawn_st)) = 1 /\
  exists a, _spawn_action "d1" (tables (sched_run [Pass None; Scan; Pass (Some job_id0)] spawn_st)) = Some a /\ In (a_status a) ["RUNNING"; "SUCCEEDED"].
Proof.
  assert (L : launches "d1" (act_state (sched_run [Pass None; Scan; Pass (Some job_id0)] spawn_st)) = 1) by (vm_compute; reflexivity).
  split; [exact L|]. refine (proj2 (dispatch_launched_once "d1" [Pass None; Scan; Pass (Some job_id0)] spawn_st _ _ _ _) L).
  - split; [reflexivity | discriminate].
  - intros e n ad job a r [= <-] [= <-] _. discriminate.
  - assert (A : jt_actions (tables spawn_st) = []) by (vm_compute; reflexivity).
    assert (I : jt_intents (tables spawn_st) = []) by (vm_compute; reflexivity).
    split; rewrite ?A, ?I; [vm_compute; reflexivity | intros x [] | intros w []].
  - vm_compute; reflexivity.
Defined.
(** The job of host-a, whose process belongs to the boot before, is taken over by host-b. *)
Lemma takeover_needs_proof_witness : exists row t s', job_of job_id0 (tables orphan_st) = Some row /\
  _try_recover_takeover job_id0 row orphan_st = (Ok (Some t), s') /\
  (j_owner_instance_id row, j_lease_epoch row) = (Some "host-a", 1%Z) /\
  exists reg, last (processes_of (Some job_id0) (tables orphan_st)) = Some reg /\ gone reg /\
    mine t = true /\ j_lease_epoch t = 2%Z.
Proof.
  destruct (job_of job_id0 (tables orphan_st)) as [row|] eqn:R; [|vm_compute in R; discriminate R].
  assert (L : (j_owner_instance_id row, j_lease_epoch row) = (Some "host-a", 1%Z)) by (vm_compute in R; injection R as <-; reflexivity).
  destruct (_try_recover_takeover job_id0 row orphan_st) as [[[t|]|e] s'] eqn:E.
  2-3: exfalso; vm_compute in R; injection R as <-; vm_compute in E; discriminate E.
  exists row, t, s'. do 3 (split; [first [reflexivity | exact E | exact L]|]).
  destruct (takeover_needs_proof job_id0 row orphan_st t s') as (j & reg & n & m & J & _ & _ & _ & _ & _ & _ & _ & G & D & _ & _ & _ & M & X);
    [vm_compute; reflexivity | exact E|].
  exists reg. split; [exact G|]. split; [exact D|]. split; [exact M|]. rewrite X. rewrite R in J. injection J as <-. injection L as _ ->. reflexivity.
Defined.
(** The same job seen by the scan after a restart. *)
Lemma restart_conservative_witness : ss_performed (snd (reconcile_after_restart orphan_st)) = [] /\
  exists j, job_of job_id0 (tables orphan_st) = Some j /\
  exists j', job_of job_id0 (tables (snd (reconcile_after_restart orphan_st))) = Some j' /\
    (j' = j \/ In (j_primary_state j') ["LOST"; "BLOCKED"; "QUEUED"]).
Proof.
  destruct (sup_now_iso orphan_st) as [[now|e] s1] eqn:N; [|vm_compute in N; discriminate N].
  destruct (restart_conservative orphan_st _ _ now s1 ltac:(vm_compute; reflexivity) N (surjective_pairing _)) as [Q F].
  split; [exact Q|]. destruct (job_of job_id0 (tables orphan_st)) as [j|] eqn:J; [|vm_compute in J; discriminate J].
  exists j. split; [reflexivity|]. destruct (F _ _ J) as (j' & J' & [->|C]); [exists j; split; [exact J'|by left]|].
  exists j'. split; [exact J'|]. right. apply C.
Defined.
